(* ===== verification/_CoqProject ===== *)
-Q . S2P
Prelude.v
Mid.v
GoIO.v
Chunk.v
Wire.v
Blockstore.v
Objects.v
Memstore.v
Dag.v
Bloom.v
Db.v
MemStore.v
Seal.v
Gc.v
GcRace.v
Delete.v
HashRing.v
MemNode.v
MemFile.v
FileStores.v
AddFile.v
MemRead.v
MemBuild.v
MemTree.v
MemWalk.v
Erasure.v
ErasureStream.v
Repair.v
Names.v
NameResolver.v
Memex.v
MemexWants.v
MemexPool.v
MemexSession.v
Descriptor.v
Magnet.v
Lru.v
GateRange.v
Quota.v
Delta.v
Anchor.v
Exchange.v
Pex.v
Ingest.v
Keyring.v
NameService.v
Herald.v
Fetching.v
GateText.v
MemGate.v
GateBackend.v
