(* ===== verification/Prelude.v ===== *)
(** * Membuss: a verification library of the node's core

    Membuss is a content-addressed storage node written in Go.  Data is cut into blocks, a
    block is named by a MID (a CID over its hash), blocks are tied into DAGs and file-system
    nodes, kept in a store with seals and a garbage collector, spread and repaired by erasure
    coding and placement, exchanged between peers and found through signed names.  This
    library translates that core from src/ into executable Rocq definitions, one file per
    component, and proves what each component promises.

    ** The parts, and where they are modelled

    - Prelude.v: bytes, machine integers ([u64], [i64], ...), errors and the wrap chain, the
      [result] type and the state monad [M] with Go's convention that the state survives an
      error, and the lemmas all files share.
    - Mid.v (core/mid/mid.go): MIDs.  GoIO.v: readers as scripts, the chunker interface.
      Chunk.v (core/chunk): the fixed, Rabin and FastCDC chunkers.  Wire.v (proto): messages.
    - Blockstore.v (core/store: store.go, walk.go): the block-store interface as a type class
      with its contract, and the walk.  Objects.v, Memstore.v: descriptors of objects and the
      in-memory store.  Bloom.v, Db.v, MemStore.v: the counting filter, the key-value database
      and the database-backed store over them.  Seal.v, Gc.v, Delete.v: seals, the collector
      and recursive deletion.  GcRace.v: the sweep and any number of writers, interleaved access
      by access.
    - Dag.v (core/dag): builder, parallel builder, resolver, statistics.
    - MemNode.v, MemFile.v, AddFile.v, MemBuild.v, MemTree.v, MemWalk.v, MemRead.v, FileStores.v
      (core/memfs): nodes, the level stack, the concurrent add pipeline with its bounded channels,
      workers and erasure goroutines, directories, reading.
    - Erasure.v, ErasureStream.v, Repair.v (core/erasure): coding of blocks and of streams,
      manifests, repair.  HashRing.v (core/shard, net/memplace): placement.
    - Names.v, NameResolver.v (core/memns, core/memlink, net/dht/validator.go): signed name
      records, their validators, resolution.
    - Keyring.v, NameService.v (core/keyring, api/api.go, the explorer's backend and the renewal
      of net/herald): keys and saved records in files, and the handlers that publish, delegate
      and renew names with them.
    - Memex.v, MemexWants.v, MemexPool.v, MemexSession.v (net/memex_v2): the block exchange.
    - Descriptor.v, Magnet.v (core/descriptor): .mbuss descriptors and magnet links.
    - Ingest.v (core/ingest): adding files with descriptors, seals and erasure coding.
    - Fetching.v (the daemon's fetching block store, net/manifest_rpc): a read that asks peers, and
      rebuilds a block from shards.  Herald.v (net/herald): what is announced, and when.
    - Pex.v (net/pex): the peer table, signed records and gossip.
    - Quota.v, Delta.v, Anchor.v, Exchange.v (anchor): quotas, replicated deltas, the sync of an
      anchor node and its exchange with peers.
    - Lru.v, GateRange.v, GateText.v, MemGate.v (gateway/memgate_v2): the caches of the gateway, its
      answers to range requests, names and types of files, and its handlers, over a backend that is a
      record of answers.  GateBackend.v (the daemon's memgate_backend.go): that backend over the
      file system and the stores.

    Definitions keep the names of the source; a method is a function whose last argument is
    the state.  A file that models a component requires the components it calls; where
    components meet at an interface of the source ([Blockstore], [Chunker], metadata) the client
    is proved against a type class and the implementations are instances of it: [Blockstore] is
    implemented by both stores and the fetching store's [FetchStore] extends it, the anchor runs on an
    [AnchorStore] and an [EvictableStore], ingestion on a [SealStore].

    ** Code that is not in src/

    Third-party code is a parameter: [Multiformats] (multihash, CID), [Proto] (protobuf),
    [ObjectJSON], [PeersJSON], [ManifestJSON], [Floats], [ReedSolomon], [Crypto], [Text] (base64, URLs),
    [CidText], [DHT], [DHTFrame], [KeyFormats], [PeerKeys], [PeerText], [Peerstore], [RemoteFilter],
    [Mimes] (the table of types, the sniffer), [GateJSON], [PathKeys].  What its documentation promises is a class of laws beside it
    ([MultiformatsLaws], [ProtoLaws], [RSLaws], [KeyLaws], [ShaLaws], ...); [CollisionFree] is the usual idealisation of
    the hash.  Every class of laws has an instance ([Toy], [ToyWire], [toy_crypto], ...), on which
    the witnesses evaluate.  Operating system and database errors are chosen by an environment,
    clocks are arguments, goroutines are step relations or lists of steps in any order.

    ** What the theorems show

    - Round trips: MIDs and their text, snapshots of the filter, [Build]/[Resolve],
      [AddFile]/[Open], coding with any k shards, frames, publishing and resolving names.
    - Refinement and equivalence: both stores meet the block-store contract; the chunkers equal
      pure cuts of the content; the streaming and the parallel builder equal the level-complete
      reduction; a batch equals single writes; the file reader is a position in the content;
      the wantlist manager is one register per peer and block.
    - Safety and invariants: the collector keeps what seals pin, when the walks of the seals
      succeed, and what a writer recorded before the sweep asked about it; the filter never denies; stores hold only what their keys name; readers deliver prefixes
      of the named content only; a finished fetch leaves the whole DAG in the store; an
      assignment is the one the scores and domains determine.
      A sealed ingestion survives later writes and collections; keys live as long as their files; a
      message changes the peer table only by records their peers signed; the table stays bounded
      and well-formed.
    - Termination and liveness: name resolution ends; the add pipeline ends without erasure
      coding, or when its results fit in their channel; a repair cycle heals; a cycle of
      announcements leaves nothing out; names stay alive under renewal while no newer record is
      about; a lost block is rebuilt over the network.
    - Functional behaviour: the answer to a range request is that range, and the gateway serves the
      files of a published directory, whatever is cached; its answers do not depend on its
      caches, and every request for tidy content ends.
    - Bounds: assignments, windows, caches, quotas.

    Where the code does not do what it means to do, the theorem names the condition under which
    it does, and a lemma gives the case outside of it: [leaf_read_as_node],
    [GC_drops_siblings_of_missing], [GC_loses_pending_write], [DropAll_stale_size],
    [failure_hangs] and [overflow_panics] (the add pipeline with erasure coding),
    [file_below_file_panics], [RepairMID_keeps_corrupt_shard], [older_record_refused] and
    [newer_record_stays] (names), [text_reference_dropped] and [foreign_block_stalls] (sessions),
    [full_window_overflows_frame], [reused_buffer_answers_another] and [forged_manifest_served]
    (manifests), [new_seal_not_served], [overlap_skips_group], [walk_error_drops_siblings],
    [traversal_replaces_identity], [gossip_never_arrives], [broken_index_loops] and
    [directory_type_loops] (the gateway), [anyone_can_publish], [RegisterInbound_completes].

    ** Fuel

    Recursions over a graph of MIDs (walks, collection, deletion) and loops over readers have
    fuel.  [OutOfFuel] is an error no Go function returns.  Loops over readers take the measure
    of the reader as fuel, so that they never run out; walks take it as an argument, and
    the theorems give the amount that suffices for the blocks of the store, or hold for any; name
    resolution needs eleven units ([resolve_names_terminates]), the gateway two more than the depth
    of its index directories ([requests_end]).  The capacities of channels are those of the code:
    16 tasks and results and 64 erasure tasks per CPU ([AddFile]).

    ** Not modelled

    The pages of the gateway, its event stream, referers and rate limits, the explorer, the RPC server, most of the HTTP API, the command
    line, the desktop shell, plugins and the edge runtime: they pass requests to the components
    above, and most of their lines are calls of third-party code.  Of the network: dialling,
    relays, timers, peer discovery, and the reputation and telemetry that count in floating point.
    Metrics and logging everywhere.  PROJECT.json lists every part. *)
From Stdlib Require Import Strings.Byte Strings.String ZArith Lia List.
From stdpp Require Export prelude gmap strings list sorting.

#[global] Open Scope Z_scope.
#[global] Set Default Goal Selector "!".
#[global] Unset Mangle Names.
#[export] Set Warnings "-clear-no-such-hyp".

(** ** Bytes and byte strings

    A Go [byte] is a [Byte.byte]; a [[]byte] and a Go [string] (which is a
    sequence of bytes) are both [bytes]. *)
Abbreviation byte := Byte.byte.
Abbreviation bytes := (list Byte.byte).

#[export] Instance byte_eq_dec : EqDecision byte := Byte.byte_eq_dec.
#[export] Program Instance byte_countable : Countable byte :=
  inj_countable Byte.to_N Byte.of_N _.
Next Obligation. exact Byte.of_to_N. Qed.
#[export] Instance byte_inhabited : Inhabited byte := populate Byte.x00.

Definition b2z (b : byte) : Z := Z.of_N (Byte.to_N b).
Definition z2b (z : Z) : byte := default Byte.x00 (Byte.of_N (Z.to_N (z mod 256))).
(** [lit s] is the Go string literal [s] as bytes. *)
Definition lit (s : string) : bytes := String.list_byte_of_string s.

Lemma b2z_bound b : 0 <= b2z b < 256.
Proof. unfold b2z. pose proof (Byte.to_N_bounded b). lia. Qed.

Lemma b2z_z2b z : b2z (z2b z) = z mod 256.
Proof.
  unfold b2z, z2b.
  assert (0 <= z mod 256 < 256) as Hb by (apply Z.mod_pos_bound; lia).
  destruct (Byte.of_N (Z.to_N (z mod 256))) as [b|] eqn:E; simpl.
  - apply Byte.to_of_N in E. rewrite E. lia.
  - apply Byte.of_N_None_iff in E. lia.
Qed.

Lemma z2b_b2z b : z2b (b2z b) = b.
Proof.
  unfold z2b. rewrite Z.mod_small by apply b2z_bound.
  unfold b2z. rewrite N2Z.id, Byte.of_to_N. done.
Qed.

#[export] Instance b2z_inj : Inj (=) (=) b2z.
Proof. intros x y E. rewrite <-(z2b_b2z x), E. apply z2b_b2z. Qed.

(** ** Machine integers: a w-bit integer is a [Z] with its wrap-around. *)
Definition u64 (z : Z) : Z := z mod 2 ^ 64.
Definition u32 (z : Z) : Z := z mod 2 ^ 32.
Definition i64 (z : Z) : Z :=
  let r := z mod 2 ^ 64 in if r <? 2 ^ 63 then r else r - 2 ^ 64.

Lemma u64_bound z : 0 <= u64 z < 2 ^ 64.
Proof. apply Z.mod_pos_bound. lia. Qed.
Lemma u64_small z : 0 <= z < 2 ^ 64 -> u64 z = z.
Proof. apply Z.mod_small. Qed.
Lemma u32_small z : 0 <= z < 2 ^ 32 -> u32 z = z.
Proof. apply Z.mod_small. Qed.
Lemma i64_small z : - 2 ^ 63 <= z < 2 ^ 63 -> i64 z = z.
Proof.
  intros H. unfold i64. destruct (decide (0 <= z)).
  - rewrite Z.mod_small by lia. destruct (Z.ltb_spec z (2 ^ 63)); lia.
  - replace (z mod 2 ^ 64) with (z + 2 ^ 64).
    + destruct (Z.ltb_spec (z + 2 ^ 64) (2 ^ 63)); lia.
    + apply Z.mod_unique with (-1); lia.
Qed.
Lemma i64_u64 z : i64 (u64 z) = i64 z.
Proof. unfold i64, u64. rewrite Z.mod_mod by lia. done. Qed.
Lemma u64_i64 z : u64 (i64 z) = u64 z.
Proof.
  unfold i64, u64. destruct (_ <? _).
  - rewrite Z.mod_mod by lia. done.
  - rewrite <-(Z.mod_add _ 1), Z.mul_1_l by lia.
    replace (z mod 2 ^ 64 - 2 ^ 64 + 2 ^ 64) with (z mod 2 ^ 64) by lia.
    rewrite Z.mod_mod by lia. done.
Qed.

(** [len(s)] as the Go integer it is. *)
Definition zlen {A} (l : list A) : Z := Z.of_nat (length l).
Lemma zlen_nonneg {A} (l : list A) : 0 <= zlen l.
Proof. unfold zlen. lia. Qed.
Lemma zlen_app {A} (l k : list A) : zlen (l ++ k) = zlen l + zlen k.
Proof. unfold zlen. rewrite length_app. lia. Qed.
Lemma zlen_0 {A} (l : list A) : zlen l = 0 <-> l = [].
Proof. unfold zlen. rewrite <-length_zero_iff_nil. lia. Qed.

(** ** Big-endian 64-bit words ([binary.BigEndian.PutUint64] / [Uint64]). *)
Fixpoint be_split (n : nat) (z : Z) : bytes :=
  match n with
  | O => []
  | S n => be_split n (z / 256) ++ [z2b z]
  end.
Definition be_combine (bs : bytes) : Z := foldl (fun acc b => acc * 256 + b2z b) 0 bs.
Definition PutUint64 (z : Z) : bytes := be_split 8 z.
Definition Uint64 (bs : bytes) : Z := be_combine (take 8 bs).

Lemma be_split_length n z : length (be_split n z) = n.
Proof. revert z; induction n; intros; simpl; [done|]. rewrite length_app, IHn. simpl. lia. Qed.
Lemma be_combine_snoc bs b : be_combine (bs ++ [b]) = be_combine bs * 256 + b2z b.
Proof. unfold be_combine. rewrite foldl_app. done. Qed.
Lemma be_combine_split n z : be_combine (be_split n z) = z mod 256 ^ Z.of_nat n.
Proof.
  revert z; induction n; intros z; simpl be_split.
  - rewrite Z.pow_0_r, Z.mod_1_r. done.
  - rewrite be_combine_snoc, IHn, b2z_z2b, Nat2Z.inj_succ, Z.pow_succ_r by lia.
    rewrite Z.rem_mul_r by lia. lia.
Qed.
Lemma be_combine_bound bs : 0 <= be_combine bs < 256 ^ zlen bs.
Proof.
  induction bs as [|b bs IH] using rev_ind.
  { done. }
  rewrite be_combine_snoc, zlen_app. pose proof (b2z_bound b).
  change (zlen [b]) with 1. rewrite Z.pow_add_r by (unfold zlen; lia). lia.
Qed.
Lemma be_split_combine bs : be_split (length bs) (be_combine bs) = bs.
Proof.
  induction bs as [|b bs IH] using rev_ind; [done|].
  rewrite length_app, Nat.add_1_r, be_combine_snoc. simpl.
  pose proof (b2z_bound b).
  replace ((be_combine bs * 256 + b2z b) / 256) with (be_combine bs)
    by (apply Z.div_unique with (b2z b); lia).
  rewrite IH. f_equal. f_equal. apply (inj b2z). rewrite b2z_z2b.
  symmetry. apply Z.mod_unique with (be_combine bs); lia.
Qed.

Lemma PutUint64_length z : length (PutUint64 z) = 8%nat.
Proof. apply be_split_length. Qed.
Lemma Uint64_PutUint64 z : 0 <= z < 2 ^ 64 -> Uint64 (PutUint64 z) = z.
Proof.
  intros. unfold Uint64, PutUint64.
  rewrite firstn_all2 by (rewrite be_split_length; lia).
  rewrite be_combine_split. apply Z.mod_small. simpl. lia.
Qed.
Lemma PutUint64_Uint64 bs : length bs = 8%nat -> PutUint64 (Uint64 bs) = bs.
Proof.
  intros H. unfold PutUint64, Uint64. rewrite firstn_all2 by lia.
  rewrite <-H. apply be_split_combine.
Qed.

(** ** Errors

    A sentinel ([var ErrX = errors.New(..)]) is compared by identity, [New] is
    any other [errors.New]/[fmt.Errorf] value, and [Wrap] is a
    [fmt.Errorf("..: %w", err)].  [errors_is] follows the wrap chain.
    [OutOfFuel] is the one value no Go function returns: it marks a recursion
    whose fuel ran out, and the termination theorems show it away. *)
Inductive error :=
  | Sentinel (name : string)
  | New (msg : string)
  | Wrap (msg : string) (e : error).
#[export] Instance error_eq_dec : EqDecision error.
Proof. solve_decision. Defined.

Definition EOF : error := Sentinel "io.EOF".
Definition OutOfFuel : error := Sentinel "fuel".

Fixpoint errors_is (e target : error) : bool :=
  bool_decide (e = target) ||
  match e with Wrap _ e' => errors_is e' target | _ => false end.

Lemma errors_is_refl e : errors_is e e = true.
Proof. destruct e; simpl; rewrite bool_decide_eq_true_2; done. Qed.

(** ** Results [(T, error)] *)
Inductive result (A : Type) :=
  | Ok (a : A)
  | Err (e : error).
Arguments Ok {A} a.
Arguments Err {A} e.
#[export] Instance result_eq_dec {A} `{EqDecision A} : EqDecision (result A).
Proof. solve_decision. Defined.

#[export] Instance result_ret : MRet result := @Ok.
#[export] Instance result_bind : MBind result := λ A B f m,
  match m with Ok a => f a | Err e => Err e end.
#[export] Instance result_fmap : FMap result := λ A B f m,
  match m with Ok a => Ok (f a) | Err e => Err e end.

Definition wrap {A} (msg : string) (r : result A) : result A :=
  match r with Ok a => Ok a | Err e => Err (Wrap msg e) end.
Definition is_ok {A} (r : result A) : bool := match r with Ok _ => true | _ => false end.

(** ** Stateful, fallible code: the state survives an error, as it does in Go. *)
Definition M (S A : Type) : Type := S -> result A * S.
#[export] Instance M_ret S : MRet (M S) := λ A a s, (Ok a, s).
#[export] Instance M_bind S : MBind (M S) := λ A B f m s,
  match m s with
  | (Ok a, s') => f a s'
  | (Err e, s') => (Err e, s')
  end.
Definition throw {S A} (e : error) : M S A := λ s, (Err e, s).
Definition liftr {S A} (r : result A) : M S A := λ s, (r, s).
Definition wrapM {S A} (msg : string) (m : M S A) : M S A := λ s,
  let '(r, s') := m s in (wrap msg r, s').

Lemma M_bind_Ok {S A B} (m : M S A) (f : A -> M S B) s a s' :
  m s = (Ok a, s') -> (m ≫= f) s = f a s'.
Proof. intros H. unfold mbind, M_bind. rewrite H. done. Qed.
Lemma M_bind_Err {S A B} (m : M S A) (f : A -> M S B) s e s' :
  m s = (Err e, s') -> (m ≫= f) s = (Err e, s').
Proof. intros H. unfold mbind, M_bind. rewrite H. done. Qed.
Lemma M_bind_inv {S A B} (m : M S A) (f : A -> M S B) s b s' :
  (m ≫= f) s = (Ok b, s') -> exists a s1, m s = (Ok a, s1) /\ f a s1 = (Ok b, s').
Proof. unfold mbind, M_bind. destruct (m s) as [[a|e] s1]; naive_solver. Qed.

(** A Go [for _, x := range l] loop whose body may return early. *)
Fixpoint for_each {S A} (f : A -> M S unit) (l : list A) : M S unit :=
  match l with
  | [] => mret tt
  | x :: l => _ ← f x; for_each f l
  end.

Lemma for_each_app {S A} (f : A -> M S unit) l k s s' :
  for_each f l s = (Ok tt, s') -> for_each f (l ++ k) s = for_each f k s'.
Proof.
  revert s; induction l as [|x l IH]; intros s; simpl; unfold mret, M_ret.
  { by intros [= <-]. }
  intros ([] & s1 & H1 & H2)%M_bind_inv.
  erewrite M_bind_Ok by done. by apply IH.
Qed.

(** ** Generic list lemmas *)
Definition sumZ {A} (f : A -> Z) (l : list A) : Z := foldr (λ x a, f x + a) 0 l.
Lemma sumZ_app {A} (f : A -> Z) l k : sumZ f (l ++ k) = sumZ f l + sumZ f k.
Proof. induction l; simpl; lia. Qed.
Lemma sumZ_nonneg {A} (f : A -> Z) l : (forall x, 0 <= f x) -> 0 <= sumZ f l.
Proof. intros H. induction l as [|x l IH]; simpl; [lia|]. specialize (H x). lia. Qed.
Lemma sumZ_Permutation {A} (f : A -> Z) l k : l ≡ₚ k -> sumZ f l = sumZ f k.
Proof. induction 1; simpl; lia. Qed.
Lemma sumZ_map {A B} (f : B -> Z) (g : A -> B) l : sumZ f (map g l) = sumZ (λ x, f (g x)) l.
Proof. induction l as [|x l IH]; [done|]. cbn [map sumZ foldr]. f_equal. apply IH. Qed.

(** [chunks n l]: [l] cut into pieces of [n], the last one shorter. *)
Fixpoint chunks_fuel {A} (fuel n : nat) (l : list A) : list (list A) :=
  match fuel, l with
  | O, _ | _, [] => []
  | S fuel, l => take n l :: chunks_fuel fuel n (drop n l)
  end.
Definition chunks {A} (n : nat) (l : list A) : list (list A) := chunks_fuel (length l) n l.

Section chunks.
Context {A : Type} (n : nat) (Hn : (0 < n)%nat).
Implicit Types l : list A.

Lemma chunks_fuel_enough f l :
  (length l ≤ f)%nat -> chunks_fuel f n l = chunks_fuel (length l) n l.
Proof.
  revert l. induction f as [f IH] using lt_wf_ind. intros l Hf.
  destruct l as [|x l]; [destruct f; done|].
  destruct f as [|f]; [simpl in Hf; lia|]. simpl chunks_fuel.
  f_equal. simpl in Hf.
  assert (length (drop n (x :: l)) ≤ length l)%nat by (rewrite length_drop; simpl; lia).
  rewrite (IH f) by lia. symmetry. destruct (decide (length l = f)) as [->|].
  - by rewrite (IH f) by lia.
  - rewrite (IH (length l)) by lia. done.
Qed.

Lemma chunks_nil : chunks n ([] : list A) = [].
Proof. done. Qed.
Lemma chunks_cons l : l ≠ [] -> chunks n l = take n l :: chunks n (drop n l).
Proof.
  destruct l as [|x l]; [done|]. intros _. unfold chunks. simpl length. simpl chunks_fuel.
  f_equal. apply chunks_fuel_enough. rewrite length_drop. simpl. lia.
Qed.
(** induction along the cut *)
Lemma chunks_ind (P : list A -> Prop) :
  P [] -> (forall l, l ≠ [] -> P (drop n l) -> P l) -> forall l, P l.
Proof.
  intros H0 HS l. induction l as [l IH] using (induction_ltof1 _ length).
  destruct l as [|x l]; [done|]. apply HS; [done|]. apply IH.
  unfold ltof. rewrite length_drop. simpl. lia.
Qed.

Lemma chunks_concat l : concat (chunks n l) = l.
Proof.
  induction l as [|l Hl IH] using chunks_ind; [done|].
  rewrite chunks_cons by done. simpl. rewrite IH. apply take_drop.
Qed.
Lemma chunks_app_full l k :
  length l = n -> chunks n (l ++ k) = l :: chunks n k.
Proof.
  intros Hl. rewrite chunks_cons by (destruct l; simpl in *; [lia|done]).
  rewrite take_app_length', drop_app_length' by done. done.
Qed.
Lemma chunks_concat_app ls k :
  Forall (λ l, length l = n) ls -> chunks n (concat ls ++ k) = ls ++ chunks n k.
Proof.
  induction 1 as [|l ls Hl _ IH]; simpl; [done|].
  rewrite <-app_assoc, chunks_app_full by done. by rewrite IH.
Qed.
Lemma chunks_small l : l ≠ [] -> (length l ≤ n)%nat -> chunks n l = [l].
Proof.
  intros. rewrite chunks_cons by done.
  rewrite firstn_all2, skipn_all2 by done. done.
Qed.
Lemma chunks_sizes l : Forall (λ c, (0 < length c ≤ n)%nat) (chunks n l).
Proof.
  induction l as [|l Hl IH] using chunks_ind; [constructor|].
  rewrite chunks_cons by done. constructor; [|done].
  rewrite length_take. destruct l; simpl; [done|lia].
Qed.
Lemma chunks_length_lt l : (1 < n)%nat -> (1 < length l)%nat -> (length (chunks n l) < length l)%nat.
Proof.
  intros Hn1. induction l as [|l Hl IH] using chunks_ind; [simpl; lia|]. intros H1.
  rewrite chunks_cons by done. simpl.
  destruct (decide (1 < length (drop n l))%nat) as [Hd|Hd].
  - specialize (IH Hd). rewrite length_drop in *. lia.
  - destruct (drop n l) as [|y [|]] eqn:E; simpl in *; [lia| |lia].
    apply (f_equal length) in E. rewrite length_drop in E. simpl in E. lia.
Qed.
End chunks.

(** [Forall2] may use where its elements come from *)
Lemma Forall2_impl_in {A B} (P Q : A -> B -> Prop) ps l :
  (forall q e, q ∈ ps -> P q e -> Q q e) -> Forall2 P ps l -> Forall2 Q ps l.
Proof.
  intros HPQ HF. induction HF as [|q e ps l H _ IH]; constructor; [apply HPQ; [set_solver|done]|].
  apply IH. intros. apply HPQ; [set_solver|done].
Qed.

(** Two sorted arrangements of the same elements are one list when the order tells apart
    elements with different keys and no key occurs twice. *)
Lemma sorted_unique_key {A K} (R : relation A) (f : A -> K) l1 l2 :
  (forall a b, R a b -> R b a -> f a = f b) -> NoDup (map f l1) -> l1 ≡ₚ l2 ->
  StronglySorted R l1 -> StronglySorted R l2 -> l1 = l2.
Proof.
  intros Hanti Hnd Hp H1 H2. apply (StronglySorted_unique_strong R); [|done..].
  intros a b Ha Hb R1 R2. rewrite <-Hp in Hb. pose proof (Hanti _ _ R1 R2) as E. clear -Hnd Ha Hb E.
  apply list_elem_of_lookup in Ha as [i Hi]. apply list_elem_of_lookup in Hb as [j Hj].
  assert (i = j) as ->; [|congruence].
  eapply (NoDup_lookup _ _ _ (f a)); [exact Hnd|rewrite list_lookup_fmap, Hi; done|rewrite list_lookup_fmap, Hj, E; done].
Qed.

(** ** Tactics shared by the components *)
Ltac inv_M := repeat match goal with
  | H : (_ ≫= _) _ = (Ok _, _) |- _ =>
      let a := fresh "a" in let s := fresh "s" in
      let H1 := fresh H in
      apply M_bind_inv in H as (a & s & H1 & H)
  end.
(** case analysis on the innermost [match] scrutinee, keeping its equation *)
Ltac cm := let E := fresh "E" in case_match eqn:E; simplify_eq/=.
Ltac cms := repeat (cm; try done).

(** ** Lists: filters, sublists and boolean quantifiers *)
Lemma list_filter_iff_in {A} (P Q : A -> Prop) `{!forall x, Decision (P x), !forall x, Decision (Q x)} (l : list A) :
  (forall x, x ∈ l -> P x <-> Q x) -> filter P l = filter Q l.
Proof.
  induction l as [|x l IH]; intros Hl; [done|]. rewrite !filter_cons, IH by (intros; apply Hl; by right).
  destruct (decide (P x)) as [Hp|Hp], (decide (Q x)) as [Hr|Hr]; rewrite (Hl x) in Hp by (by left); done.
Qed.
Lemma sublist_in {A} (l k : list A) x : l `sublist_of` k -> x ∈ l -> x ∈ k.
Proof. induction 1; [done|intros [->|?]%elem_of_cons; [left|right; auto]|right; auto]. Qed.
Lemma existsb_same {A} (p q : A -> bool) l : (forall x, p x = q x) -> existsb p l = existsb q l.
Proof. intros E. induction l as [|x l IH]; [done|]. cbn. by rewrite E, IH. Qed.
Lemma existsb_over_map {A B} (p : B -> bool) (f : A -> B) l : existsb p (map f l) = existsb (λ x, p (f x)) l.
Proof. induction l as [|x l IH]; [done|]. cbn. by rewrite IH. Qed.
Lemma forallb_same_in {A} (p q : A -> bool) l : (forall x, x ∈ l -> p x = q x) -> forallb p l = forallb q l.
Proof. induction l as [|x l IH]; intros E; [done|]. cbn. rewrite IH by (intros; apply E; by right). rewrite (E x) by left. done. Qed.
