(* ===== verification/Mid.v ===== *)
(** * Content identifiers (src/core/mid/mid.go)

    [Mid.MID] is the struct, [Parse]/[String] the public form, [FromBytes] and
    its variants the constructors.  The multihash, CID and base32 packages are
    third-party code: they are the operations of the class [Multiformats], and
    what the repository relies on about them is [MultiformatsLaws].  [CollisionFree]
    is the idealisation every content-addressed argument makes (equal digests,
    equal data).  [Toy] is a concrete instance, used by the witnesses. *)
From S2P Require Import Prelude.

(** [multihash.DecodedMultihash] *)
Record DecodedMultihash := {
  Code : Z;
  Length : Z;
  Digest : bytes;
}.

(** The operations of go-multihash, go-cid and crypto/sha256 that mid.go calls. *)
Class Multiformats := {
  mh_Sum : bytes -> Z -> result bytes;          (* multihash.Sum(data, alg, -1) *)
  mh_Decode : bytes -> result DecodedMultihash; (* multihash.Decode(mh) *)
  mh_Encode : bytes -> Z -> result bytes;       (* multihash.Encode(digest, alg) *)
  sha256_Sum256 : bytes -> bytes;
  cid_String : Z -> bytes -> bytes;             (* cid.NewCidV1(codec, mh).String() *)
  cid_Decode : bytes -> result (Z * Z * bytes); (* cid.Decode: version, codec, multihash *)
}.

(** multicodec table entries *)
Definition BLAKE3 : Z := 0x1e.
Definition SHA2_256 : Z := 0x12.
Definition SHA2_512 : Z := 0x13.
Definition KECCAK_256 : Z := 0x1b.
Definition SHAKE_256 : Z := 0x19.

Definition Prefix : bytes := lit "mem".
Definition cidVersion1 : Z := 1.
Definition CodecRaw : Z := 0x55.
Definition CodecDAGPB : Z := 0x70.
Definition CodecMemFS : Z := 0x72.
Definition DefaultHash : Z := BLAKE3.

Definition isSupportedHash (code : Z) : bool :=
  (code =? BLAKE3) || (code =? SHA2_256) || (code =? SHA2_512)
  || (code =? KECCAK_256) || (code =? SHAKE_256).

(** [SetDefaultHash]: the package variable [defaultHashAlg] is the state. *)
Definition SetDefaultHash (code : Z) : M Z unit := λ alg,
  if negb (isSupportedHash code) then (Err (New "mid: unsupported hash algorithm code"), alg)
  else (Ok tt, code).

Record MID := mkMID {
  Version : Z;
  codec : Z;
  Hash : bytes;
  str : bytes;
}.
#[export] Instance MID_eq_dec : EqDecision MID.
Proof. solve_decision. Defined.

(** the zero value [MID{}] *)
Definition zeroMID : MID := mkMID 0 0 [] [].
Definition IsZero (m : MID) : bool := bool_decide (Hash m = []).
Definition Codec (m : MID) : Z := codec m.
Definition Bytes (m : MID) : bytes := Hash m.

Definition panic (msg : string) : error := Wrap msg (Sentinel "panic").

Definition HasPrefix (s p : bytes) : bool := bool_decide (take (length p) s = p).
Definition TrimPrefix (s p : bytes) : bytes := if HasPrefix s p then drop (length p) s else s.

Section mid.
Context `{Multiformats}.

Definition validateEnvelope (mh : bytes) : result unit :=
  if bool_decide (mh = []) then Err (New "empty multihash") else
  d ← wrap "decode" (mh_Decode mh);
  if negb (isSupportedHash (Code d)) then Err (New "unsupported hash code") else
  if negb (zlen (Digest d) =? Length d) then Err (New "length mismatch") else
  Ok tt.

Definition build (version codec : Z) (mh : bytes) : result MID :=
  if negb (version =? cidVersion1) then Err (New "mid: unsupported CID version") else
  Ok (mkMID version codec mh (Prefix ++ cid_String codec mh)).

Definition fromCodecAndHashErr (version codec : Z) (mh : bytes) : result MID :=
  if bool_decide (mh = []) then Err (New "mid: empty multihash") else
  _ ← wrap "mid: decode multihash" (mh_Decode mh);
  _ ← wrap "mid: validate multihash" (validateEnvelope mh);
  build version codec mh.

Definition FromMultihash (codec : Z) (mh : bytes) : result MID :=
  fromCodecAndHashErr cidVersion1 codec mh.

(** panics on an invalid multihash *)
Definition FromCodecAndHash (version codec : Z) (mh : bytes) : result MID :=
  match fromCodecAndHashErr version codec mh with
  | Ok m => Ok m
  | Err _ => Err (panic "mid: FromCodecAndHash")
  end.

Definition FromBytesWithCodecAndHash (data : bytes) (codec hashAlg : Z) : result MID :=
  mh ← wrap "mid: sum multihash algorithm" (mh_Sum data hashAlg);
  fromCodecAndHashErr cidVersion1 codec mh.

(** [alg] is the current [GetDefaultHash()]; the SHA-256 fallback ignores the
    error of [multihash.Encode], so its [mh] is empty when that fails. *)
Definition FromBytesWithCodec (alg : Z) (data : bytes) (codec : Z) : result MID :=
  match FromBytesWithCodecAndHash data codec alg with
  | Ok m => Ok m
  | Err _ =>
      let sum := sha256_Sum256 data in
      let mh := match mh_Encode sum SHA2_256 with Ok mh => mh | Err _ => [] end in
      FromCodecAndHash cidVersion1 codec mh
  end.
Definition FromBytes (alg : Z) (data : bytes) : result MID :=
  FromBytesWithCodec alg data CodecRaw.
Definition FromBytesWithHash (data : bytes) (hashAlg : Z) : result MID :=
  FromBytesWithCodecAndHash data CodecRaw hashAlg.

Definition Parse (s : bytes) : result MID :=
  if negb (HasPrefix s Prefix) then Err (New "mid: missing prefix") else
  let encoded := TrimPrefix s Prefix in
  if bool_decide (encoded = []) then Err (New "mid: empty encoded body") else
  match cid_Decode encoded with
  | Err _ => Err (New "mid: invalid encoded multihash")
  | Ok (version, codec, mh) =>
      if negb (version =? cidVersion1) then Err (New "mid: unsupported version") else
      _ ← wrap "mid: invalid multihash envelope" (validateEnvelope mh);
      let formatted := Prefix ++ cid_String codec mh in
      let str := if bool_decide (s = formatted) then s else formatted in
      Ok (mkMID version codec mh str)
  end.

(** panics when [Parse] fails *)
Definition MustParse (s : bytes) : result MID :=
  match Parse s with Ok m => Ok m | Err _ => Err (panic "mid: MustParse") end.

Definition DigestBytes (m : MID) : result bytes :=
  d ← wrap "mid: decode multihash" (mh_Decode (Hash m)); Ok (Digest d).

Definition String (m : MID) : bytes :=
  if bool_decide (str m ≠ []) then str m
  else if bool_decide (Hash m = []) then []
  else Prefix ++ cid_String (codec m) (Hash m).

Definition Equal (m other : MID) : bool :=
  if negb (codec m =? codec other) then false else bool_decide (Hash m = Hash other).

(** What every successfully built MID satisfies. *)
Record wf_mid (m : MID) : Prop := {
  wf_version : Version m = cidVersion1;
  wf_codec : 0 <= codec m < 2 ^ 64;
  wf_env : validateEnvelope (Hash m) = Ok tt;
  wf_str : str m = Prefix ++ cid_String (codec m) (Hash m);
}.
End mid.

Definition is_ascii (b : byte) : Prop := b2z b < 128.

(** Documented behaviour of the third-party packages. *)
Class MultiformatsLaws `{Multiformats} : Prop := {
  Sum_decodes d alg mh : mh_Sum d alg = Ok mh ->
    mh ≠ [] /\ exists dg, mh_Decode mh = Ok {| Code := alg; Length := zlen dg; Digest := dg |};
  Sum_supported d alg : isSupportedHash alg = true -> is_ok (mh_Sum d alg) = true;
  cid_roundtrip c mh : 0 <= c < 2 ^ 64 -> validateEnvelope mh = Ok tt ->
    cid_Decode (cid_String c mh) = Ok (1, c, mh);
  cid_nonempty c mh : cid_String c mh ≠ [];
  cid_codec_range s v c mh : cid_Decode s = Ok (v, c, mh) -> 0 <= c < 2 ^ 64;
  cid_ascii c mh : Forall is_ascii (cid_String c mh);
}.

(** The collision-freeness idealisation, for the algorithm in use. *)
Class CollisionFree `{Multiformats} (alg : Z) : Prop :=
  collision_free d1 d2 mh1 mh2 x1 x2 :
    mh_Sum d1 alg = Ok mh1 -> mh_Sum d2 alg = Ok mh2 ->
    mh_Decode mh1 = Ok x1 -> mh_Decode mh2 = Ok x2 ->
    Digest x1 = Digest x2 -> d1 = d2.

Section facts.
Context `{Multiformats} `{!MultiformatsLaws}.

Lemma HasPrefix_app s p : HasPrefix (p ++ s) p = true.
Proof. unfold HasPrefix. rewrite take_app_length. by apply bool_decide_eq_true_2. Qed.
Lemma TrimPrefix_app s p : TrimPrefix (p ++ s) p = s.
Proof. unfold TrimPrefix. by rewrite HasPrefix_app, drop_app_length. Qed.

Lemma wf_not_zero m : wf_mid m -> IsZero m = false.
Proof.
  intros [_ _ Henv _]. unfold IsZero, validateEnvelope in *.
  destruct (bool_decide (Hash m = [])); [done|done].
Qed.
Lemma wf_Hash_ne m : wf_mid m -> Hash m ≠ [].
Proof. intros Hm%wf_not_zero E. unfold IsZero in Hm. rewrite E in Hm. done. Qed.
Lemma wf_String m : wf_mid m -> String m = Prefix ++ cid_String (codec m) (Hash m).
Proof. intros [_ _ _ Hs]. unfold String. rewrite Hs. done. Qed.
Lemma wf_DigestBytes m : wf_mid m -> exists dg, DigestBytes m = Ok dg.
Proof.
  intros [_ _ He _]. unfold DigestBytes, validateEnvelope in *. case_bool_decide; [done|].
  destruct (mh_Decode _) as [d|]; [|done]. by eexists.
Qed.

Lemma fromCodecAndHashErr_wf v c mh m :
  0 <= c < 2 ^ 64 -> fromCodecAndHashErr v c mh = Ok m ->
  wf_mid m /\ codec m = c /\ Hash m = mh.
Proof.
  intros Hc. unfold fromCodecAndHashErr, build, wrap. case_bool_decide; [done|].
  destruct (mh_Decode mh) as [d|] eqn:Ed; [|done]. simpl.
  destruct (validateEnvelope mh) as [[]|] eqn:Ev; [|done]. simpl.
  destruct (Z.eqb_spec v cidVersion1); simpl; [|done]. intros [= <-]. split_and!; [split|..]; done.
Qed.
Lemma FromMultihash_ok c mh :
  0 <= c < 2 ^ 64 -> validateEnvelope mh = Ok tt ->
  FromMultihash c mh = Ok (mkMID 1 c mh (Prefix ++ cid_String c mh)).
Proof.
  intros Hc Hv. unfold FromMultihash, fromCodecAndHashErr.
  pose proof Hv as Hv'. unfold validateEnvelope in Hv'. case_bool_decide; [done|].
  destruct (mh_Decode mh); [|done]. simpl. by rewrite Hv.
Qed.
Lemma FromMultihash_wf c mh m :
  0 <= c < 2 ^ 64 -> FromMultihash c mh = Ok m -> wf_mid m /\ codec m = c /\ Hash m = mh.
Proof. intros. by eapply fromCodecAndHashErr_wf. Qed.
(** A wf MID is determined by its codec and multihash. *)
Lemma wf_mid_eq m1 m2 :
  wf_mid m1 -> wf_mid m2 -> codec m1 = codec m2 -> Hash m1 = Hash m2 -> m1 = m2.
Proof.
  destruct m1, m2. intros [? _ _ ?] [? _ _ ?] ? ?. simpl in *. by subst.
Qed.

Lemma Parse_wf s m : Parse s = Ok m -> wf_mid m.
Proof.
  unfold Parse. destruct (HasPrefix _ _); simpl; [|done]. case_bool_decide; [done|].
  destruct (cid_Decode _) as [[[v c] mh]|] eqn:Ed; [|done].
  destruct (Z.eqb_spec v cidVersion1); simpl; [|done]. unfold wrap.
  destruct (validateEnvelope mh) as [[]|] eqn:Ev; simpl; [|done]. intros [= <-].
  split; simpl; [done| by eapply cid_codec_range | done |]. by case_bool_decide.
Qed.

Lemma Parse_wf_String m : wf_mid m -> Parse (String m) = Ok m.
Proof.
  intros Hm. rewrite wf_String by done. unfold Parse.
  rewrite HasPrefix_app, TrimPrefix_app. simpl negb. cbv match.
  rewrite bool_decide_eq_false_2 by apply cid_nonempty.
  rewrite cid_roundtrip by apply Hm. simpl. rewrite (wf_env m) by done. simpl.
  rewrite bool_decide_eq_true_2 by done. f_equal.
  destruct m; destruct Hm; simpl in *. by subst.
Qed.

Lemma String_inj m1 m2 : wf_mid m1 -> wf_mid m2 -> String m1 = String m2 -> m1 = m2.
Proof.
  intros H1 H2 E. pose proof (Parse_wf_String m1 H1) as P.
  rewrite E, Parse_wf_String in P by done. by injection P.
Qed.

Lemma String_ascii m : wf_mid m -> Forall is_ascii (String m).
Proof.
  intros Hm. rewrite wf_String by done. apply Forall_app. split; [|apply cid_ascii].
  repeat constructor; unfold is_ascii; vm_compute; done.
Qed.

Lemma Sum_env d alg mh :
  isSupportedHash alg = true -> mh_Sum d alg = Ok mh -> validateEnvelope mh = Ok tt.
Proof.
  intros Ha [Hne [dg Hd]]%Sum_decodes. unfold validateEnvelope.
  rewrite bool_decide_eq_false_2, Hd by done. simpl. by rewrite Ha, Z.eqb_refl.
Qed.

(** With a supported default the constructors never fall back and never panic. *)
Lemma FromBytesWithCodec_sum alg d c :
  isSupportedHash alg = true -> 0 <= c < 2 ^ 64 ->
  exists mh, mh_Sum d alg = Ok mh /\ validateEnvelope mh = Ok tt /\
    FromBytesWithCodec alg d c = Ok (mkMID 1 c mh (Prefix ++ cid_String c mh)).
Proof.
  intros Ha Hc. pose proof (Sum_supported d alg Ha) as Hs.
  destruct (mh_Sum d alg) as [mh|] eqn:Es; [|done].
  pose proof (Sum_env _ _ _ Ha Es) as Hv. exists mh. split_and!; [done..|].
  unfold FromBytesWithCodec, FromBytesWithCodecAndHash. rewrite Es. simpl.
  fold (FromMultihash c mh). by rewrite FromMultihash_ok.
Qed.
Lemma FromBytesWithCodec_wf alg d c m :
  isSupportedHash alg = true -> 0 <= c < 2 ^ 64 ->
  FromBytesWithCodec alg d c = Ok m -> wf_mid m /\ codec m = c.
Proof.
  intros Ha Hc Hm. destruct (FromBytesWithCodec_sum alg d c Ha Hc) as (mh & _ & Hv & E).
  rewrite E in Hm. injection Hm as <-. split_and!; [split|..]; done.
Qed.
Lemma FromBytesWithCodec_Hash alg d c1 c2 m1 m2 :
  isSupportedHash alg = true -> 0 <= c1 < 2 ^ 64 -> 0 <= c2 < 2 ^ 64 ->
  FromBytesWithCodec alg d c1 = Ok m1 -> FromBytesWithCodec alg d c2 = Ok m2 ->
  Hash m1 = Hash m2.
Proof.
  intros Ha H1 H2 E1 E2.
  destruct (FromBytesWithCodec_sum alg d c1 Ha H1) as (mh & Es & _ & E).
  destruct (FromBytesWithCodec_sum alg d c2 Ha H2) as (mh' & Es' & _ & E').
  rewrite E in E1. rewrite E' in E2. rewrite Es in Es'. by simplify_eq/=.
Qed.
Lemma FromBytesWithCodec_digest alg d c m :
  isSupportedHash alg = true -> 0 <= c < 2 ^ 64 -> FromBytesWithCodec alg d c = Ok m ->
  exists mh x, mh_Sum d alg = Ok mh /\ mh_Decode mh = Ok x /\ Hash m = mh /\
    DigestBytes m = Ok (Digest x).
Proof.
  intros Ha Hc E1. destruct (FromBytesWithCodec_sum alg d c Ha Hc) as (mh & Es & _ & E).
  rewrite E in E1. injection E1 as <-.
  destruct (Sum_decodes _ _ _ Es) as (_ & dg & Hd). eexists mh, _. split_and!; [done..|].
  unfold DigestBytes. simpl. by rewrite Hd.
Qed.
Lemma codec_ranges :
  (0 <= CodecRaw < 2 ^ 64) /\ (0 <= CodecMemFS < 2 ^ 64) /\ (0 <= CodecDAGPB < 2 ^ 64).
Proof. done. Qed.
End facts.

(** ** A concrete instance: the digest is the data, base 16 with letters a..p. *)
Module Toy.
Definition enc (b : byte) : bytes := [z2b (97 + b2z b / 16); z2b (97 + b2z b mod 16)].
Definition letter (b : byte) : bool := (97 <=? b2z b) && (b2z b <? 113).
Fixpoint dec (s : bytes) : result bytes :=
  match s with
  | [] => Ok []
  | [_] => Err (New "odd")
  | h :: l :: s =>
      if letter h && letter l then r ← dec s; Ok (z2b ((b2z h - 97) * 16 + (b2z l - 97)) :: r) else Err (New "letter")
  end.
Definition sum (d : bytes) (alg : Z) : result bytes :=
  if isSupportedHash alg then Ok (z2b alg :: d) else Err (New "unknown hash").
Definition decode (mh : bytes) : result DecodedMultihash :=
  match mh with
  | [] => Err (New "short")
  | c :: dg => Ok {| Code := b2z c; Length := zlen dg; Digest := dg |}
  end.
Definition cstr (c : Z) (mh : bytes) : bytes := lit "b" ++ concat (map enc (PutUint64 c ++ mh)).
Definition cdec (s : bytes) : result (Z * Z * bytes) :=
  match s with
  | Byte.x62 :: s => r ← dec s; Ok (1, Uint64 r, drop 8 r)
  | _ => Err (New "base")
  end.
End Toy.

Instance toy : Multiformats := {|
  mh_Sum := Toy.sum;
  mh_Decode := Toy.decode;
  mh_Encode := Toy.sum;
  sha256_Sum256 d := take 32 (d ++ replicate 32 Byte.x00);
  cid_String := Toy.cstr;
  cid_Decode := Toy.cdec;
|}.

Lemma toy_dec_enc bs : Toy.dec (concat (map Toy.enc bs)) = Ok bs.
Proof.
  induction bs as [|b bs IH]; [done|]. cbn [map concat Toy.enc app Toy.dec]. rewrite IH. pose proof (b2z_bound b).
  pose proof (Z.div_mod (b2z b) 16 ltac:(lia)).
  assert (0 <= b2z b / 16 < 16) by (split; [apply Z.div_pos|apply Z.div_lt_upper_bound]; lia).
  pose proof (Z.mod_pos_bound (b2z b) 16 ltac:(lia)).
  assert (forall z, 0 <= z < 16 -> b2z (z2b (97 + z)) = 97 + z) as Hz by (intros z Hz; rewrite b2z_z2b; apply Z.mod_small; lia).
  assert (forall z, 0 <= z < 16 -> Toy.letter (z2b (97 + z)) = true) as ->.
  { intros z Hr. unfold Toy.letter. rewrite Hz by done. apply andb_true_iff. split; [apply Z.leb_le|apply Z.ltb_lt]; lia. }
  2: done.
  assert (Toy.letter (z2b (97 + b2z b mod 16)) = true) as ->.
  { unfold Toy.letter. rewrite Hz by done. apply andb_true_iff. split; [apply Z.leb_le|apply Z.ltb_lt]; lia. }
  cbn [andb mbind result_bind]. rewrite !Hz by done. repeat f_equal. apply (inj b2z). rewrite b2z_z2b, Z.mod_small; lia.
Qed.

Lemma Uint64_bound bs : 0 <= Uint64 bs < 2 ^ 64.
Proof.
  unfold Uint64. pose proof (be_combine_bound (take 8 bs)) as [? Hlt]. split; [done|].
  eapply Z.lt_le_trans; [done|]. replace (2 ^ 64) with (256 ^ 8) by done.
  apply Z.pow_le_mono_r; [done|]. unfold zlen. rewrite length_take. lia.
Qed.

Instance toy_laws : MultiformatsLaws.
Proof.
  split.
  - intros d alg mh. simpl. unfold Toy.sum. destruct (isSupportedHash alg) eqn:Ha; [|done].
    intros [= <-]. split; [done|]. exists d. simpl. rewrite b2z_z2b. repeat f_equal.
    unfold isSupportedHash in Ha. rewrite !orb_true_iff, !Z.eqb_eq in Ha.
    destruct Ha as [[[[->| ->]| ->]| ->]| ->]; done.
  - intros d alg Ha. simpl. unfold Toy.sum. by rewrite Ha.
  - intros c mh Hc _. cbn [cid_Decode cid_String toy].
    unfold Toy.cdec, Toy.cstr. change (lit "b") with [Byte.x62]. cbn [app].
    rewrite toy_dec_enc. cbn [mbind result_bind].
    rewrite drop_app_length' by (rewrite PutUint64_length; lia).
    replace (Uint64 (PutUint64 c ++ mh)) with c; [done|].
    rewrite <-(Uint64_PutUint64 c) at 1 by done. unfold Uint64.
    by rewrite take_app_le by (rewrite PutUint64_length; lia).
  - done.
  - intros s v c mh. cbn [cid_Decode toy]. unfold Toy.cdec. destruct s as [|[] s]; try done. destruct (Toy.dec _); simpl; [|done].
    intros [= <- <- <-]. apply Uint64_bound.
  - intros c mh. simpl. unfold Toy.cstr. apply Forall_app. split; [by repeat constructor|].
    apply Forall_concat. apply Forall_forall. intros l [b [-> _]]%list_elem_of_fmap.
    pose proof (b2z_bound b).
    assert (0 <= b2z b / 16 < 16) by (split; [apply Z.div_pos|apply Z.div_lt_upper_bound]; lia).
    pose proof (Z.mod_pos_bound (b2z b) 16 ltac:(lia)).
    repeat constructor; unfold is_ascii; rewrite b2z_z2b, Z.mod_small; lia.
Qed.

Instance toy_collision_free alg : CollisionFree alg.
Proof.
  intros d1 d2 mh1 mh2 x1 x2. simpl. unfold Toy.sum. destruct (isSupportedHash alg); [|done].
  intros [= <-] [= <-]. simpl. intros [= <-] [= <-]. done.
Qed.

(** ** Properties *)
Section properties.
Context `{Multiformats} `{!MultiformatsLaws}.

(** C12: parsing and printing are inverse: whatever [Parse] accepts is a well-formed
    MID whose [String] parses back to the same MID, and [String] is injective on
    well-formed MIDs; a multihash that passes [validateEnvelope] always has a MID. *)
Theorem Parse_String_roundtrip s m :
  Parse s = Ok m ->
  wf_mid m /\ Parse (String m) = Ok m /\
  FromMultihash (codec m) (Hash m) = Ok m /\
  (forall m', wf_mid m' -> String m' = String m -> m' = m).
Proof using All.
  intros Hm%Parse_wf. split_and!; [done|by apply Parse_wf_String| |].
  - rewrite FromMultihash_ok by apply Hm. f_equal.
    apply wf_mid_eq; [|done..]. destruct Hm. by split.
  - intros m' Hm' E. by apply String_inj.
Qed.

(** with a supported default algorithm (all [SetDefaultHash] accepts) the
    constructors are total: no fallback, no panic, a well-formed MID with the asked
    codec; under collision-freeness two data have [Equal] MIDs iff they are equal
    and the codecs agree, so [Equal] decides content identity. *)
Theorem FromBytes_total_injective alg d1 d2 c1 c2 `{!CollisionFree alg} :
  isSupportedHash alg = true -> 0 <= c1 < 2 ^ 64 -> 0 <= c2 < 2 ^ 64 ->
  exists m1 m2, FromBytesWithCodec alg d1 c1 = Ok m1 /\ FromBytesWithCodec alg d2 c2 = Ok m2 /\
    wf_mid m1 /\ wf_mid m2 /\ codec m1 = c1 /\
    (Equal m1 m2 = true <-> d1 = d2 /\ c1 = c2).
Proof using All.
  intros Ha H1 H2.
  destruct (FromBytesWithCodec_sum alg d1 c1 Ha H1) as (mh1 & S1 & _ & E1).
  destruct (FromBytesWithCodec_sum alg d2 c2 Ha H2) as (mh2 & S2 & _ & E2).
  eexists _, _. split; [exact E1|]. split; [exact E2|].
  destruct (FromBytesWithCodec_wf alg d1 c1 _ Ha H1 E1) as [W1 _].
  destruct (FromBytesWithCodec_wf alg d2 c2 _ Ha H2 E2) as [W2 _].
  split; [exact W1|]. split; [exact W2|]. split; [done|]. unfold Equal. simpl. split.
  - destruct (Z.eqb_spec c1 c2); simpl; [|done]. intros ->%bool_decide_eq_true.
    split; [|done]. destruct (Sum_decodes _ _ _ S1) as (_ & dg1 & D1).
    by eapply collision_free.
  - intros [-> ->]. rewrite Z.eqb_refl. simpl. apply bool_decide_eq_true. congruence.
Qed.
End properties.

Definition demo_mid : MID :=
  match FromBytesWithCodec BLAKE3 (lit "hello") CodecRaw with Ok m => m | Err _ => zeroMID end.
Lemma Parse_String_roundtrip_witness :
  wf_mid demo_mid /\ Parse (String demo_mid) = Ok demo_mid.
Proof.
  assert (Parse (String demo_mid) = Ok demo_mid) as E by (vm_compute; reflexivity).
  split; [exact (proj1 (Parse_String_roundtrip _ _ E))|].
  exact (proj1 (proj2 (Parse_String_roundtrip _ _ E))).
Defined.
Lemma FromBytes_total_injective_witness :
  exists m1 m2, FromBytesWithCodec BLAKE3 (lit "a") CodecRaw = Ok m1 /\
    FromBytesWithCodec BLAKE3 (lit "b") CodecMemFS = Ok m2 /\ Equal m1 m2 = false.
Proof.
  destruct (FromBytes_total_injective BLAKE3 (lit "a") (lit "b") CodecRaw CodecMemFS)
    as (m1 & m2 & E1 & E2 & _ & _ & _ & HE); [reflexivity|split; reflexivity||discriminate..|].
  exists m1, m2. split; [exact E1|]. split; [exact E2|].
  destruct (Equal m1 m2); [|reflexivity]. destruct (proj1 HE eq_refl) as [E _]. discriminate E.
Defined.

(** MIDs of the concrete instance, for the witnesses *)
Definition toy_mid (c : Z) (d : bytes) : MID :=
  match FromBytesWithCodec BLAKE3 d c with Ok m => m | Err _ => zeroMID end.
Lemma toy_mid_ok c d : 0 <= c < 2 ^ 64 ->
  FromBytesWithCodec BLAKE3 d c = Ok (toy_mid c d) /\ wf_mid (toy_mid c d) /\ codec (toy_mid c d) = c.
Proof.
  intros Hc. destruct (FromBytesWithCodec_sum BLAKE3 d c) as (mh & _ & _ & E); [done..|].
  destruct (FromBytesWithCodec_wf BLAKE3 d c _ eq_refl Hc E) as [Hw Hcc].
  unfold toy_mid. by rewrite E.
Qed.
Lemma toy_raw_wf d : wf_mid (toy_mid CodecRaw d).
Proof. by apply toy_mid_ok. Qed.
Lemma toy_memfs_wf d : wf_mid (toy_mid CodecMemFS d).
Proof. by apply toy_mid_ok. Qed.
