(* ===== verification/GoIO.v ===== *)
(** * [io.Reader] and the chunker interface

    A reader is a script: what it will deliver, cut into pieces as the other
    side pleases (short reads, empty reads, data returned together with an
    error), ended by an error that then sticks.  [content] is what a caller who
    reads to the end sees.  [Chunker] is the interface of src/core/chunk/chunk.go
    that core/dag and core/memfs consume; [Yields] is what a chunker delivers. *)
From S2P Require Import Prelude.

(** ** Readers *)
Abbreviation Reader := (list (bytes * option error)).

(** [r.Read(p)] with [len(p) = k]. *)
Definition Read (r : Reader) (k : nat) : (bytes * option error) * Reader :=
  match r with
  | [] => (([], Some EOF), [])
  | (bs, e) :: r' =>
      if (length bs <=? k)%nat then
        match e with
        | None => ((bs, None), r')
        | Some e => ((bs, Some e), ([], Some e) :: r')
        end
      else ((take k bs, None), (drop k bs, e) :: r')
  end.

Fixpoint content (r : Reader) : bytes * error :=
  match r with
  | [] => ([], EOF)
  | (bs, Some e) :: _ => (bs, e)
  | (bs, None) :: r' => let '(c, e) := content r' in (bs ++ c, e)
  end.

(** Reads still possible before the final error. *)
Fixpoint rd_measure (r : Reader) : nat :=
  match r with [] => 1 | (bs, _) :: r' => S (length bs + rd_measure r') end%nat.

Lemma rd_measure_pos r : (0 < rd_measure r)%nat.
Proof. destruct r as [|[]]; simpl; lia. Qed.

Lemma Read_short r k bs e r' : Read r k = ((bs, e), r') -> (length bs ≤ k)%nat.
Proof.
  destruct r as [|[cs e'] r]; simpl; [intros [= <- <- <-]; simpl; lia|].
  destruct (Nat.leb_spec (length cs) k); [destruct e'|]; intros [= <- <- <-]; [done..|].
  rewrite length_take. lia.
Qed.

Lemma Read_more r k bs r' :
  (0 < k)%nat -> Read r k = ((bs, None), r') ->
  content r = (bs ++ (content r').1, (content r').2) /\ (rd_measure r' < rd_measure r)%nat.
Proof.
  intros Hk. destruct r as [|[cs e'] r]; simpl; [done|].
  destruct (Nat.leb_spec (length cs) k) as [|Hl].
  - destruct e'; [done|]. intros [= <- <-]. destruct (content r). split; [done|lia].
  - intros [= <- <-]. simpl. destruct e' as [e|]; simpl.
    + rewrite take_drop. split; [done|]. rewrite length_drop. lia.
    + destruct (content r). simpl. rewrite app_assoc, take_drop. split; [done|].
      rewrite length_drop. lia.
Qed.

Lemma Read_end r k bs e r' : Read r k = ((bs, Some e), r') -> content r = (bs, e).
Proof.
  destruct r as [|[cs e'] r]; simpl; [by intros [= <- <- <-]|].
  destruct (length cs <=? k)%nat; [destruct e'|]; by intros [= <- <- <-].
Qed.

(** ** Blocks and chunkers *)

(** [membusspb.Block]; the zero [Block{}] only ever accompanies an error. *)
Record Block := mkBlock {
  Data : bytes;
  BMid : bytes;
  BSize : Z;
}.

Class Chunker (C : Type) := Next : M C Block.

Section chunker.
Context `{Chunker C}.

(** [c] delivers [bs] and then the error [e]. *)
Inductive Yields : C -> list Block -> error -> Prop :=
  | Yields_end c c' e : Next c = (Err e, c') -> Yields c [] e
  | Yields_block c c' b bs e : Next c = (Ok b, c') -> Yields c' bs e -> Yields c (b :: bs) e.

(** reading a chunker to its end, as every client loop does *)
Fixpoint drain (fuel : nat) (c : C) : list Block * error :=
  match fuel with
  | O => ([], OutOfFuel)
  | S fuel =>
      match Next c with
      | (Err e, _) => ([], e)
      | (Ok b, c') => let '(bs, e) := drain fuel c' in (b :: bs, e)
      end
  end.

Lemma Yields_det c bs1 e1 bs2 e2 :
  Yields c bs1 e1 -> Yields c bs2 e2 -> bs1 = bs2 /\ e1 = e2.
Proof.
  intros H1. revert bs2 e2. induction H1 as [c c' e HN|c c' b bs e HN _ IH];
    intros bs2 e2 H2; inversion H2 as [? ? ? HN2|? ? ? ? ? HN2 HY2]; subst;
    rewrite HN in HN2; simplify_eq; [done|].
  by destruct (IH _ _ HY2) as [-> ->].
Qed.
Lemma Yields_drain c bs e fuel :
  Yields c bs e -> (length bs < fuel)%nat -> drain fuel c = (bs, e).
Proof.
  intros HY. revert fuel. induction HY as [c c' e HN|c c' b bs e HN HY IH];
    intros [|fuel] Hf; simpl in *; [lia| |lia|].
  - by rewrite HN.
  - rewrite HN, IH by lia. done.
Qed.
Lemma drain_Yields c bs e fuel :
  drain fuel c = (bs, e) -> e ≠ OutOfFuel -> Yields c bs e.
Proof.
  revert c bs e. induction fuel as [|fuel IH]; intros c bs e; simpl; [intros [= <- <-] []; done|].
  destruct (Next c) as [[b|e'] c'] eqn:HN.
  - destruct (drain fuel c') as [bs' e'] eqn:E. intros [= <- <-] Hne.
    econstructor; [done|by apply IH].
  - intros [= <- <-] _. by econstructor.
Qed.
End chunker.
