(* ===== verification/Chunk.v ===== *)
(** * Chunkers (src/core/chunk: chunk.go, rabin.go, fastcdc.go)

    The fixed-size, Rabin and FastCDC chunkers as state machines over a
    [GoIO.Reader]; each [Next] is one call of the Go method.  Each chunker is
    proved equal to a pure function of the reader's content ([fixed_spec],
    [rabin_spec], [fastcdc_spec]), so the blocks do not depend on how the reader
    cuts its data, and concatenate to the content.  The size constants of the two
    content-defined chunkers are a record ([RabinParams], [CDCParams]) whose Go
    values are [rabin_params] and [fastcdc_params]. *)
From S2P Require Import Prelude Mid GoIO.

Definition DefaultBlockSize : Z := 256 * 1024.
Definition MaxBlockSize : Z := 4 * 1024 * 1024.
Definition MinBlockSize : Z := 1024.

Definition AdaptiveBlockSize (size : Z) : Z :=
  if size <=? 0 then DefaultBlockSize
  else if size <? 64 * 1024 * 1024 then DefaultBlockSize
  else if size <? 512 * 1024 * 1024 then 1024 * 1024
  else if size <? 2 * 1024 * 1024 * 1024 then 2 * 1024 * 1024
  else MaxBlockSize.

Section block.
Context `{Multiformats} (alg : Z).

Definition makeBlock (data : bytes) : result Block :=
  m ← FromBytes alg data; Ok (mkBlock data (String m) (u64 (zlen data))).
Definition makeRabinBlock (data : bytes) : result Block :=
  if bool_decide (data = []) then Err (New "chunk: refusing to emit empty block")
  else makeBlock data.
Definition makeFastCDCBlock (data : bytes) : result Block :=
  if bool_decide (data = []) then Err (New "chunk: refusing to emit empty block")
  else makeBlock data.

(** the accessors of [chunk.Block]; [BlockMID] panics on a malformed MID *)
Definition BlockMID (b : Block) : result MID :=
  if bool_decide (BMid b = []) then Ok zeroMID else MustParse (BMid b).
Definition BlockSize (b : Block) : Z := BSize b.
End block.

(** ** Fixed-size chunker *)
Record fixedChunker := {
  f_r : Reader;
  f_size : Z;
  f_eofSeen : bool;
  f_closed : bool;
}.

Definition NewFixed (size : Z) (r : option Reader) : result fixedChunker :=
  match r with
  | None => Err (New "chunk: nil reader")
  | Some r =>
      if size <? MinBlockSize then Err (New "chunk: fixed size below minimum")
      else if MaxBlockSize <? size then Err (New "chunk: fixed size above maximum")
      else Ok {| f_r := r; f_size := size; f_eofSeen := false; f_closed := false |}
  end.

(** the inner [for read < f.size] loop: the filled buffer, the error that
    stopped it (if any) and the reader *)
Fixpoint fill (fuel : nat) (r : Reader) (size : Z) (buf : bytes) : bytes * option error * Reader :=
  match fuel with
  | O => (buf, Some OutOfFuel, r)
  | S fuel =>
      if zlen buf <? size then
        let '((bs, err), r') := Read r (Z.to_nat (size - zlen buf)) in
        match err with
        | Some e => (buf ++ bs, Some e, r')
        | None => fill fuel r' size (buf ++ bs)
        end
      else (buf, None, r)
  end.

Definition fixed_Next `{Multiformats} (alg : Z) : M fixedChunker Block := λ f,
  if f_eofSeen f then (Err EOF, f) else
  let '(buf, err, r') := fill (S (rd_measure (f_r f))) (f_r f) (f_size f) [] in
  match err with
  | None => (makeBlock alg buf, {| f_r := r'; f_size := f_size f; f_eofSeen := false;
                                   f_closed := f_closed f |})
  | Some e =>
      let f' := {| f_r := r'; f_size := f_size f; f_eofSeen := true; f_closed := f_closed f |} in
      if errors_is e EOF then
        if bool_decide (buf = []) then (Err EOF, f') else (makeBlock alg buf, f')
      else (Err (Wrap "chunk: read" e), f')
  end.

(** [Close]; the scratch buffer [bufPtr] that it returns to the pool is not part of
    the state: every [Next] overwrites it before reading it. *)
Definition fixed_Close (f : fixedChunker) : fixedChunker :=
  if negb (f_closed f) then
    {| f_r := f_r f; f_size := f_size f; f_eofSeen := true; f_closed := true |}
  else f.

(** ** Rabin chunker *)
Record RabinParams := {
  rabinMin : Z;
  rabinMax : Z;
  rabinWindow : nat;
  rabinMask : Z;
}.
Definition rabin_params : RabinParams := {|
  rabinMin := 64 * 1024;
  rabinMax := 512 * 1024;
  rabinWindow := 64;
  rabinMask := Z.shiftl 1 18 - 1;
|}.
Definition rabinPolynomial : Z := 0x3DA3358B4DC173.
Definition shiftTable (b : byte) : Z := u64 (b2z b * rabinPolynomial).

Record rabinChunker := {
  r_r : Reader;
  r_buf : list byte;
  r_start : nat;
  r_filled : nat;
  r_carry : Z;
  r_pending : bytes;
  r_eofSeen : bool;
}.

Definition NewRabin (p : RabinParams) (r : option Reader) : result rabinChunker :=
  match r with
  | None => Err (New "chunk: nil reader")
  | Some r => Ok {| r_r := r; r_buf := replicate (rabinWindow p) Byte.x00; r_start := 0;
                    r_filled := 0; r_carry := 0; r_pending := []; r_eofSeen := false |}
  end.

Definition rollByte (p : RabinParams) (b : byte) (c : rabinChunker) : rabinChunker :=
  let outgoing := r_buf c !!! r_start c in
  {| r_r := r_r c;
     r_buf := <[r_start c := b]> (r_buf c);
     r_start := (r_start c + 1) `mod` rabinWindow p;
     r_filled := if (r_filled c <? rabinWindow p)%nat then S (r_filled c) else r_filled c;
     r_carry := u64 (u64 (Z.shiftl (u64 (r_carry c - shiftTable outgoing)) 1) + shiftTable b);
     r_pending := r_pending c;
     r_eofSeen := r_eofSeen c |}.

Definition push_pending (b : byte) (c : rabinChunker) : rabinChunker :=
  {| r_r := r_r c; r_buf := r_buf c; r_start := r_start c; r_filled := r_filled c;
     r_carry := r_carry c; r_pending := r_pending c ++ [b]; r_eofSeen := r_eofSeen c |}.
Definition set_reader (r : Reader) (c : rabinChunker) : rabinChunker :=
  {| r_r := r; r_buf := r_buf c; r_start := r_start c; r_filled := r_filled c;
     r_carry := r_carry c; r_pending := r_pending c; r_eofSeen := r_eofSeen c |}.
Definition set_eofSeen (c : rabinChunker) : rabinChunker :=
  {| r_r := r_r c; r_buf := r_buf c; r_start := r_start c; r_filled := r_filled c;
     r_carry := r_carry c; r_pending := r_pending c; r_eofSeen := true |}.

Definition ErrNoProgress : error := Sentinel "io.ErrNoProgress".

Definition cut `{Multiformats} (alg : Z) (p : RabinParams) : M rabinChunker Block := λ c,
  if bool_decide (r_pending c = []) then (Err ErrNoProgress, c) else
  (makeRabinBlock alg (r_pending c),
   {| r_r := r_r c; r_buf := replicate (rabinWindow p) Byte.x00; r_start := 0; r_filled := 0;
      r_carry := 0; r_pending := []; r_eofSeen := r_eofSeen c |}).

Fixpoint rabin_loop `{Multiformats} (alg : Z) (p : RabinParams) (fuel : nat)
    : M rabinChunker Block := λ c,
  match fuel with
  | O => (Err OutOfFuel, c)
  | S fuel =>
      let '((tmp, err), r') := Read (r_r c) 1 in
      let c := set_reader r' c in
      match tmp with
      | b :: _ =>
          let c := push_pending b (rollByte p b c) in
          if rabinMax p <=? zlen (r_pending c) then cut alg p c
          else if (rabinMin p <=? zlen (r_pending c))
                  && (Z.land (r_carry c) (rabinMask p) =? 0) then cut alg p c
          else rabin_loop alg p fuel c
      | [] =>
          match err with
          | Some e =>
              let c := set_eofSeen c in
              if errors_is e EOF then
                if bool_decide (r_pending c = []) then (Err EOF, c) else cut alg p c
              else (Err (Wrap "chunk: rabin read" e), c)
          | None => rabin_loop alg p fuel c
          end
      end
  end.

Definition rabin_Next `{Multiformats} (alg : Z) (p : RabinParams) : M rabinChunker Block := λ c,
  if r_eofSeen c then (Err EOF, c)
  else rabin_loop alg p (S (S (rd_measure (r_r c)))) c.

(** ** FastCDC chunker *)
Record CDCParams := {
  fastcdcMin : Z;
  fastcdcMid : Z;
  fastcdcMax : Z;
  maskNormal : Z;
  maskTight : Z;
}.
Definition fastcdc_params : CDCParams := {|
  fastcdcMin := 64 * 1024;
  fastcdcMid := 128 * 1024;
  fastcdcMax := 512 * 1024;
  maskNormal := Z.shiftl 1 17 - 1;
  maskTight := Z.shiftl 1 19 - 1;
|}.

Fixpoint gear_gen (n : nat) (val : Z) : list Z :=
  match n with
  | O => []
  | S n => let val := u64 (u64 (val * 6364136223846793005) + 1442695040888963407) in
           val :: gear_gen n val
  end.
Definition gearTable : list Z := gear_gen 256 0x8a5cd789635d2d01.
Definition gear (b : byte) : Z := gearTable !!! Z.to_nat (b2z b).

Record fastCDCChunker := {
  c_r : Reader;
  c_buf : bytes;
  c_pos : nat;
  c_limit : nat;
  c_eofSeen : bool;
}.

Definition NewFastCDC (p : CDCParams) (r : option Reader) : result fastCDCChunker :=
  match r with
  | None => Err (New "chunk: nil reader")
  | Some r => Ok {| c_r := r; c_buf := replicate (Z.to_nat (fastcdcMax p * 2)) Byte.x00;
                    c_pos := 0; c_limit := 0; c_eofSeen := false |}
  end.

(** Go's [copy(buf[off:], src)] *)
Definition copy_at (buf : bytes) (off : nat) (src : bytes) : bytes :=
  take off buf ++ take (length buf - off) src ++ drop (off + length src) buf.
Definition slice (buf : bytes) (i j : nat) : bytes := take (j - i) (drop i buf).

(** one pass through the refill branch; [Some e] is a read error that is not EOF *)
Definition refill (c : fastCDCChunker) : option error * fastCDCChunker :=
  let remaining := (c_limit c - c_pos c)%nat in
  let buf := if (0 <? remaining)%nat then copy_at (c_buf c) 0 (slice (c_buf c) (c_pos c) (c_limit c))
             else c_buf c in
  let '((bs, err), r') := Read (c_r c) (length buf - remaining) in
  let c' eof := {| c_r := r'; c_buf := copy_at buf remaining bs; c_pos := 0;
                   c_limit := (remaining + length bs)%nat; c_eofSeen := eof |} in
  match err with
  | None => (None, c' false)
  | Some e => if errors_is e EOF then (None, c' true)
              else (Some (Wrap "chunk: fastcdc read" e), c' true)
  end.

(** the boundary scan; [i] is the distance from the start of the chunk *)
Fixpoint scan (p : CDCParams) (h : Z) (i : Z) (bs : bytes) : Z :=
  match bs with
  | [] => i
  | b :: bs =>
      let h := u64 (u64 (Z.shiftl h 1) + gear b) in
      let mask := if i <? fastcdcMid p then maskNormal p else maskTight p in
      if Z.land h mask =? 0 then i else scan p h (i + 1) bs
  end.

Fixpoint fastcdc_loop `{Multiformats} (alg : Z) (p : CDCParams) (fuel : nat)
    : M fastCDCChunker Block := λ c,
  match fuel with
  | O => (Err OutOfFuel, c)
  | S fuel =>
      if (Z.of_nat (c_limit c) - Z.of_nat (c_pos c) <? fastcdcMax p) && negb (c_eofSeen c) then
        match refill c with
        | (Some e, c) => (Err e, c)
        | (None, c) => fastcdc_loop alg p fuel c
        end
      else
        let available := Z.of_nat (c_limit c) - Z.of_nat (c_pos c) in
        let upto n := {| c_r := c_r c; c_buf := c_buf c; c_pos := n; c_limit := c_limit c;
                         c_eofSeen := c_eofSeen c |} in
        if available =? 0 then (Err EOF, c)
        else if available <=? fastcdcMin p then
          (makeFastCDCBlock alg (slice (c_buf c) (c_pos c) (c_limit c)), upto (c_limit c))
        else
          let len := if fastcdcMax p <? available then fastcdcMax p else available in
          let window := slice (c_buf c) (c_pos c) (c_pos c + Z.to_nat len) in
          let cutPos := (c_pos c + Z.to_nat (scan p 0 (fastcdcMin p)
                           (drop (Z.to_nat (fastcdcMin p)) window)))%nat in
          (makeFastCDCBlock alg (slice (c_buf c) (c_pos c) cutPos), upto cutPos)
  end.

Definition fastcdc_Next `{Multiformats} (alg : Z) (p : CDCParams) : M fastCDCChunker Block := λ c,
  fastcdc_loop alg p (S (rd_measure (c_r c) + rd_measure (c_r c))) c.

(** ** Correctness *)
Definition is_block `{Multiformats} (alg : Z) (d : bytes) (b : Block) : Prop := makeBlock alg d = Ok b.

Section blocks.
Context `{Multiformats} `{!MultiformatsLaws} (alg : Z) (Halg : isSupportedHash alg = true).

Lemma makeBlock_ok d : exists b, is_block alg d b.
Proof.
  destruct (FromBytesWithCodec_sum alg d CodecRaw Halg) as (mh & _ & _ & E); [done|].
  unfold is_block, makeBlock, FromBytes. rewrite E. simpl. by eexists.
Qed.
Lemma is_block_inv d b : is_block alg d b ->
  exists m, FromBytes alg d = Ok m /\ wf_mid m /\ b = mkBlock d (String m) (u64 (zlen d)).
Proof.
  unfold is_block, makeBlock. destruct (FromBytes alg d) as [m|] eqn:E; simpl; [|done].
  intros [= <-]. exists m. split_and!; [done| |done].
  by destruct (FromBytesWithCodec_wf alg d CodecRaw m).
Qed.
Lemma is_block_Data d b : is_block alg d b -> Data b = d.
Proof. intros (m & _ & _ & ->)%is_block_inv. done. Qed.
Lemma is_blocks_Data ds bs : Forall2 (is_block alg) ds bs -> Data <$> bs = ds.
Proof. induction 1 as [|d b ds bs Hb%is_block_Data _ IH]; [done|]. by rewrite fmap_cons, Hb, IH. Qed.
(** the MID a block carries is the MID of its data *)
Lemma is_block_MID d b : is_block alg d b -> BlockMID b = FromBytes alg d.
Proof.
  intros (m & E & Hm & ->)%is_block_inv. unfold BlockMID, MustParse. simpl.
  rewrite bool_decide_eq_false_2.
  - by rewrite Parse_wf_String, E.
  - rewrite wf_String by done. done.
Qed.
End blocks.

Section fixed.
Context `{Multiformats} `{!MultiformatsLaws} (alg : Z) (Halg : isSupportedHash alg = true).

Lemma fill_spec fuel r size acc :
  (rd_measure r < fuel)%nat -> zlen acc <= size ->
  let '(buf, err, r') := fill fuel r size acc in
  exists d, buf = acc ++ d /\ zlen buf <= size /\
  match err with
  | None => zlen buf = size /\ content r = (d ++ (content r').1, (content r').2)
  | Some e => content r = (d, e)
  end.
Proof.
  revert r acc. induction fuel as [|fuel IH]; intros r acc Hf Hs; [lia|]. simpl.
  destruct (Z.ltb_spec (zlen acc) size) as [Hlt|].
  - destruct (Read r _) as [[bs err] r'] eqn:HR. pose proof (Read_short _ _ _ _ _ HR) as Hbs.
    assert (zlen (acc ++ bs) <= size) as Hs' by (rewrite zlen_app; unfold zlen in *; lia).
    destruct err as [e|].
    + exists bs. split_and!; [done..|]. by eapply Read_end.
    + apply Read_more in HR as [HR Hm]; [|unfold zlen in *; lia].
      specialize (IH r' (acc ++ bs) ltac:(lia) Hs').
      destruct (fill fuel r' size (acc ++ bs)) as [[buf err] r2].
      destruct IH as (d & -> & Hd & Herr). exists (bs ++ d).
      rewrite app_assoc. split_and!; [done..|]. rewrite HR.
      destruct err as [e|].
      * by rewrite Herr.
      * destruct Herr as [Hz ->]. simpl. split; [done|]. by rewrite app_assoc.
  - exists []. rewrite app_nil_r. split_and!; [done..|lia|].
    by destruct (content r).
Qed.

#[local] Instance fixed_chunker : Chunker fixedChunker := fixed_Next alg.

Lemma fixed_done r size cl : Yields {| f_r := r; f_size := size; f_eofSeen := true; f_closed := cl |} [] EOF.
Proof. by econstructor. Qed.

(** The chunker of a readable source delivers exactly the pieces of the fixed
    cut of its content, whatever the reader does. *)
Lemma fixed_yields r size cl bs e :
  0 < size -> content r = (bs, e) -> errors_is e EOF = true ->
  exists blocks,
    Yields {| f_r := r; f_size := size; f_eofSeen := false; f_closed := cl |} blocks EOF /\
    Forall2 (is_block alg) (chunks (Z.to_nat size) bs) blocks.
Proof.
  intros Hsz. assert (0 < Z.to_nat size)%nat as Hn by lia.
  revert r. induction bs as [bs IH] using (induction_ltof1 _ length). intros r Hc He.
  pose proof (fill_spec (S (rd_measure r)) r size [] ltac:(lia) ltac:(unfold zlen; simpl; lia)) as HF.
  destruct (fill _ r size []) as [[buf err] r'] eqn:Efill. destruct HF as (d & -> & Hle & Herr).
  cbn [app] in *. rewrite Hc in Herr.
  assert (forall b rest, makeBlock alg d = Ok b -> err = None ->
    Yields {| f_r := r'; f_size := size; f_eofSeen := false; f_closed := cl |} rest EOF ->
    Yields {| f_r := r; f_size := size; f_eofSeen := false; f_closed := cl |} (b :: rest) EOF) as Hstep.
  { intros b rest Hb -> HY. econstructor; [|exact HY]. unfold Next, fixed_chunker, fixed_Next.
    cbn [f_r f_size f_eofSeen]. rewrite Efill. by rewrite Hb. }
  destruct err as [e'|].
  - simplify_eq. destruct (decide (d = [])) as [->|Hd].
    + exists []. split; [|constructor]. econstructor. unfold Next, fixed_chunker, fixed_Next.
      cbn [f_r f_size f_eofSeen]. rewrite Efill, He. done.
    + destruct (makeBlock_ok alg Halg d) as [b Hb]. exists [b]. split.
      * econstructor; [|apply (fixed_done r' size cl)]. unfold Next, fixed_chunker, fixed_Next.
        cbn [f_r f_size f_eofSeen]. rewrite Efill, He, bool_decide_eq_false_2 by done. by rewrite Hb.
      * rewrite chunks_small; [by repeat constructor|done..|]. unfold zlen in *; lia.
  - destruct Herr as [Hz Heq]. destruct (content r') as [c' e''] eqn:Hc'.
    cbn [fst snd] in Heq. injection Heq as Hbs Hee. subst bs e''.
    assert (length d = Z.to_nat size) as Hlen by (unfold zlen in *; lia).
    destruct (IH c') with (r := r') as (blocks & HY & HF); [|done..|].
    { unfold ltof. rewrite length_app. lia. }
    destruct (makeBlock_ok alg Halg d) as [b Hb]. exists (b :: blocks). split; [by apply Hstep|].
    rewrite chunks_app_full by done. by constructor.
Qed.

(** A read error that is not EOF: full blocks first, then the wrapped error;
    the bytes of the unfinished block are dropped. *)
Lemma fixed_yields_error r size cl bs e :
  0 < size -> content r = (bs, e) -> errors_is e EOF = false ->
  exists ds blocks rest,
    Yields {| f_r := r; f_size := size; f_eofSeen := false; f_closed := cl |} blocks
      (Wrap "chunk: read" e) /\
    Forall2 (is_block alg) ds blocks /\ Forall (λ d, zlen d = size) ds /\
    bs = concat ds ++ rest /\ zlen rest <= size.
Proof.
  intros Hsz. revert r. induction bs as [bs IH] using (induction_ltof1 _ length). intros r Hc He.
  pose proof (fill_spec (S (rd_measure r)) r size [] ltac:(lia) ltac:(unfold zlen; simpl; lia)) as HF.
  destruct (fill _ r size []) as [[buf err] r'] eqn:Efill. destruct HF as (d & -> & Hle & Herr).
  cbn [app] in *. rewrite Hc in Herr. destruct err as [e'|].
  - simplify_eq. exists [], [], d. split_and!; [|constructor|constructor|done|done].
    econstructor. unfold Next, fixed_chunker, fixed_Next.
    cbn [f_r f_size f_eofSeen]. rewrite Efill, He. done.
  - destruct Herr as [Hz Heq]. destruct (content r') as [c' e''] eqn:Hc'.
    cbn [fst snd] in Heq. injection Heq as Hbs Hee. subst bs e''.
    destruct (IH c') with (r := r') as (ds & blocks & rest & HY & HF & Hds & -> & Hr); [|done..|].
    { unfold ltof. rewrite length_app. unfold zlen in *. lia. }
    destruct (makeBlock_ok alg Halg d) as [b Hb]. exists (d :: ds), (b :: blocks), rest.
    split_and!; [|by constructor|by constructor|by simpl; rewrite <-app_assoc|done].
    econstructor; [|done]. unfold Next, fixed_chunker, fixed_Next.
    cbn [f_r f_size f_eofSeen]. rewrite Efill. by rewrite Hb.
Qed.
End fixed.

(** ** Rabin: the reference cut *)

(** rolling state and pending bytes of the current block, without the reader *)
Definition rabin_fresh (p : RabinParams) (c : rabinChunker) : rabinChunker :=
  {| r_r := []; r_buf := replicate (rabinWindow p) Byte.x00; r_start := 0; r_filled := 0;
     r_carry := 0; r_pending := []; r_eofSeen := r_eofSeen c |}.

(** [rabin_split p c bs]: the blocks cut from [bs] when the rolling state is [c]. *)
Fixpoint rabin_split (p : RabinParams) (c : rabinChunker) (bs : bytes) : list bytes :=
  match bs with
  | [] => if bool_decide (r_pending c = []) then [] else [r_pending c]
  | b :: bs =>
      let c := push_pending b (rollByte p b c) in
      if (rabinMax p <=? zlen (r_pending c))
         || ((rabinMin p <=? zlen (r_pending c)) && (Z.land (r_carry c) (rabinMask p) =? 0))
      then r_pending c :: rabin_split p (rabin_fresh p c) bs
      else rabin_split p c bs
  end.
Definition rabin_spec (p : RabinParams) (bs : bytes) : list bytes :=
  rabin_split p (rabin_fresh p {| r_r := []; r_buf := []; r_start := 0; r_filled := 0;
    r_carry := 0; r_pending := []; r_eofSeen := false |}) bs.

Record rabin_ok (p : RabinParams) : Prop := {
  rabin_min_pos : 0 < rabinMin p;
  rabin_min_max : rabinMin p <= rabinMax p;
}.
Lemma rabin_params_ok : rabin_ok rabin_params.
Proof. split; vm_compute; done. Qed.

Section rabin_spec.
Context (p : RabinParams) (Hp : rabin_ok p).

Lemma rabin_split_concat c bs : concat (rabin_split p c bs) = r_pending c ++ bs.
Proof.
  revert c. induction bs as [|b bs IH]; intros c; simpl.
  { case_bool_decide as E; simpl; [by rewrite E|by rewrite !app_nil_r]. }
  destruct (_ || _); simpl; rewrite IH; simpl; by rewrite <-app_assoc.
Qed.
Lemma rabin_spec_concat bs : concat (rabin_spec p bs) = bs.
Proof. apply rabin_split_concat. Qed.

(** every block but the last is within the two bounds *)
Lemma rabin_split_sizes c bs ds d :
  zlen (r_pending c) < rabinMax p -> rabin_split p c bs = ds ++ [d] ->
  Forall (λ d, rabinMin p <= zlen d <= rabinMax p) ds /\ 0 < zlen d <= rabinMax p.
Proof.
  destruct Hp as [Hmin Hmax].
  revert c ds. induction bs as [|b bs IH]; intros c ds Hc; simpl.
  { case_bool_decide as E; [by destruct ds|]. destruct ds as [|d0 [|]]; intros [= <-].
    split; [done|]. pose proof (zlen_nonneg (r_pending c)).
    assert (zlen (r_pending c) ≠ 0) by (by rewrite zlen_0). lia. }
  assert (zlen (r_pending c ++ [b]) = zlen (r_pending c) + 1) as Hz by (by rewrite zlen_app).
  destruct (Z.leb_spec (rabinMax p) (zlen (r_pending c ++ [b]))) as [Hge|Hlt]; simpl.
  - intros E. destruct ds as [|d0 ds]; simplify_eq/=.
    + split; [done|]. pose proof (zlen_nonneg (r_pending c)). lia.
    + apply IH in H0 as [? ?]; [|simpl; unfold zlen; simpl; lia].
      split; [|done]. constructor; [|done]. pose proof (zlen_nonneg (r_pending c)). lia.
  - destruct (Z.leb_spec (rabinMin p) (zlen (r_pending c ++ [b]))) as [Hm|]; simpl.
    2:{ intros E. eapply IH; [|done]. simpl. lia. }
    destruct (_ =? 0); [|intros E; eapply IH; [|done]; simpl; lia].
    intros E. destruct ds as [|d0 ds]; simplify_eq/=.
    + split; [done|]. pose proof (zlen_nonneg (r_pending c)). lia.
    + apply IH in H0 as [? ?]; [|simpl; unfold zlen; simpl; lia].
      split; [|done]. constructor; [|done]. lia.
Qed.

Lemma rabin_split_cons c b bs : rabin_split p c (b :: bs) =
  let c := push_pending b (rollByte p b c) in
  if (rabinMax p <=? zlen (r_pending c))
     || ((rabinMin p <=? zlen (r_pending c)) && (Z.land (r_carry c) (rabinMask p) =? 0))
  then r_pending c :: rabin_split p (rabin_fresh p c) bs
  else rabin_split p c bs.
Proof. done. Qed.
Lemma rabin_split_reader c r bs : rabin_split p (set_reader r c) bs = rabin_split p c bs.
Proof.
  revert c. induction bs as [|b bs IH]; intros c; [done|]. simpl.
  change (push_pending b (rollByte p b (set_reader r c)))
    with (set_reader r (push_pending b (rollByte p b c))). simpl.
  destruct (_ || _); [done|apply IH].
Qed.
End rabin_spec.

Section rabin.
Context `{Multiformats} `{!MultiformatsLaws} (alg : Z) (Halg : isSupportedHash alg = true).
Context (p : RabinParams) (Hp : rabin_ok p).

#[local] Instance rabin_chunker : Chunker rabinChunker := rabin_Next alg p.

Lemma rabin_fresh_cut c b :
  r_pending c ≠ [] -> is_block alg (r_pending c) b ->
  cut alg p c = (Ok b, set_reader (r_r c) (rabin_fresh p c)).
Proof.
  intros Hne Hb. unfold cut. rewrite bool_decide_eq_false_2 by done.
  unfold makeRabinBlock. rewrite bool_decide_eq_false_2 by done. rewrite Hb. done.
Qed.

(** one [Next]: the first block of the reference cut, and a state whose cut is the rest *)
Lemma rabin_loop_spec fuel c bs e :
  (rd_measure (r_r c) < fuel)%nat -> content (r_r c) = (bs, e) -> errors_is e EOF = true ->
  r_eofSeen c = false ->
  match rabin_split p c bs with
  | [] => exists c', rabin_loop alg p fuel c = (Err EOF, c')
  | d :: ds => exists b c' bs',
      rabin_loop alg p fuel c = (Ok b, c') /\ is_block alg d b /\
      (r_eofSeen c' = true /\ ds = [] \/
       r_eofSeen c' = false /\ content (r_r c') = (bs', e) /\
       (rd_measure (r_r c') < rd_measure (r_r c))%nat /\ ds = rabin_split p c' bs')
  end.
Proof.
  revert c bs. induction fuel as [|fuel IH]; intros c bs Hf Hc He Hs; [lia|].
  cbn [rabin_loop].
  destruct (Read (r_r c) 1) as [[tmp err] r'] eqn:HR.
  pose proof (Read_short _ _ _ _ _ HR) as Hlen.
  assert (match tmp with
    | b :: _ => exists bs1, bs = b :: bs1 /\ content r' = (bs1, e) /\
                  (rd_measure r' < rd_measure (r_r c))%nat
    | [] => match err with
            | Some e' => bs = [] /\ e' = e
            | None => content r' = (bs, e) /\ (rd_measure r' < rd_measure (r_r c))%nat
            end
    end) as Hstep.
  { destruct err as [e'|].
    - pose proof (Read_end _ _ _ _ _ HR) as Hc2. rewrite Hc in Hc2. simplify_eq.
      destruct tmp as [|b [|]]; [done| |simpl in Hlen; lia]. exists [].
      revert HR. destruct (r_r c) as [|[cs e2] rr]; simpl; [done|].
      destruct (_ <=? _)%nat; [destruct e2|]; intros [= -> <- <-]; simpl; split_and!; done || lia.
    - apply Read_more in HR as [HR Hm]; [|lia]. rewrite Hc in HR. destruct (content r') as [bs1 e1].
      simplify_eq/=. destruct tmp as [|b [|]]; [done| |simpl in Hlen; lia]. by eexists. }
  clear HR. destruct tmp as [|b tmp].
  - destruct err as [e'|].
    + destruct Hstep as [-> ->]. simpl. rewrite He. case_bool_decide as E.
      * by eexists.
      * destruct (makeBlock_ok alg Halg (r_pending c)) as [b Hb].
        rewrite (rabin_fresh_cut _ b) by done. eexists b, _, []. split_and!; [done..|].
        left. done.
    + destruct Hstep as [Hc' Hm]. specialize (IH (set_reader r' c) bs).
      simpl in IH. rewrite rabin_split_reader in IH.
      specialize (IH ltac:(lia) Hc' He Hs). destruct (rabin_split p c bs); [done|].
      destruct IH as (b & c' & bs' & ? & ? & IH). exists b, c', bs'. split_and!; [done..|].
      destruct IH as [?|(?&?&?&?)]; [by left|right]. split_and!; [done..|lia|done].
  - destruct Hstep as (bs1 & -> & Hc' & Hm). rewrite rabin_split_cons; cbv zeta.
    change (push_pending b (rollByte p b (set_reader r' c)))
      with (set_reader r' (push_pending b (rollByte p b c))).
    set (c1 := push_pending b (rollByte p b c)).
    assert (r_pending c1 ≠ []) as Hne by (simpl; by destruct (r_pending c)).
    assert (r_eofSeen c1 = false) as Hs1 by done.
    destruct ((rabinMax p <=? zlen (r_pending c1)) ||
      ((rabinMin p <=? zlen (r_pending c1)) && (Z.land (r_carry c1) (rabinMask p) =? 0))) eqn:Hcut.
    + destruct (makeBlock_ok alg Halg (r_pending c1)) as [blk Hb].
      exists blk, (set_reader r' (rabin_fresh p c1)), bs1.
      rewrite rabin_split_reader. split_and!; [|done|right; by split_and!].
      change (r_pending (set_reader r' c1)) with (r_pending c1).
      change (r_carry (set_reader r' c1)) with (r_carry c1).
      destruct (rabinMax p <=? zlen (r_pending c1)); [by apply (rabin_fresh_cut (set_reader r' c1))|].
      rewrite orb_false_l in Hcut. rewrite Hcut. by apply (rabin_fresh_cut (set_reader r' c1)).
    + change (r_pending (set_reader r' c1)) with (r_pending c1).
      change (r_carry (set_reader r' c1)) with (r_carry c1).
      apply orb_false_iff in Hcut as [Hcut1 Hcut2]. rewrite Hcut1, Hcut2.
      specialize (IH (set_reader r' c1) bs1). simpl r_r in IH.
      rewrite rabin_split_reader in IH. specialize (IH ltac:(lia) Hc' He Hs1).
      destruct (rabin_split p c1 bs1); [done|].
      destruct IH as (b' & c' & bs' & ? & ? & IH). exists b', c', bs'. split_and!; [done..|].
      destruct IH as [?|(?&?&?&?)]; [by left|right]. split_and!; [done..|lia|done].
Qed.

Lemma rabin_yields_split c bs e :
  content (r_r c) = (bs, e) -> errors_is e EOF = true -> r_eofSeen c = false ->
  exists blocks, Yields c blocks EOF /\ Forall2 (is_block alg) (rabin_split p c bs) blocks.
Proof.
  remember (rd_measure (r_r c)) as n eqn:Hn. revert c bs Hn.
  induction n as [n IH] using lt_wf_ind. intros c bs -> Hc He Hs.
  assert (rabin_Next alg p c = rabin_loop alg p (S (S (rd_measure (r_r c)))) c) as HN
    by (unfold rabin_Next; by rewrite Hs).
  pose proof (rabin_loop_spec (S (S (rd_measure (r_r c)))) c bs e ltac:(lia) Hc He Hs) as HL.
  rewrite <-HN in HL. destruct (rabin_split p c bs) as [|d ds].
  - destruct HL as [c' HL]. exists []. split; [by econstructor|constructor].
  - destruct HL as (b & c' & bs' & HL & Hb & [[Hs' ->]|(Hs' & Hc' & Hm & ->)]).
    + exists [b]. split; [|by repeat constructor]. econstructor; [done|].
      econstructor. unfold Next, rabin_chunker, rabin_Next. by rewrite Hs'.
    + destruct (IH _ Hm c' bs') as (blocks & HY & HF); [done..|].
      exists (b :: blocks). split; [by econstructor|by constructor].
Qed.

Lemma rabin_yields r c bs e :
  NewRabin p (Some r) = Ok c -> content r = (bs, e) -> errors_is e EOF = true ->
  exists blocks, Yields c blocks EOF /\ Forall2 (is_block alg) (rabin_spec p bs) blocks.
Proof.
  intros [= <-] Hc He. unfold rabin_spec. rewrite <-(rabin_split_reader _ _ r).
  by eapply rabin_yields_split.
Qed.
End rabin.

(** ** FastCDC: the reference cut *)

(** length of the first chunk of a non-empty [bs] *)
Definition fastcdc_cut (p : CDCParams) (bs : bytes) : nat :=
  if zlen bs <=? fastcdcMin p then length bs
  else Z.to_nat (scan p 0 (fastcdcMin p)
         (drop (Z.to_nat (fastcdcMin p)) (take (Z.to_nat (fastcdcMax p)) bs))).
Fixpoint fastcdc_split (p : CDCParams) (fuel : nat) (bs : bytes) : list bytes :=
  match fuel, bs with
  | O, _ | _, [] => []
  | S fuel, bs => take (fastcdc_cut p bs) bs :: fastcdc_split p fuel (drop (fastcdc_cut p bs) bs)
  end.
Definition fastcdc_spec (p : CDCParams) (bs : bytes) : list bytes := fastcdc_split p (length bs) bs.

Record cdc_ok (p : CDCParams) : Prop := {
  cdc_min_pos : 0 < fastcdcMin p;
  cdc_min_max : fastcdcMin p < fastcdcMax p;
}.
Lemma fastcdc_params_ok : cdc_ok fastcdc_params.
Proof. split; vm_compute; done. Qed.

Section fastcdc_spec.
Context (p : CDCParams) (Hp : cdc_ok p).

Lemma scan_bounds h i bs : i <= scan p h i bs <= i + zlen bs.
Proof.
  revert h i. induction bs as [|b bs IH]; intros h i; simpl; [unfold zlen; simpl; lia|].
  change (b :: bs) with ([b] ++ bs). rewrite zlen_app. change (zlen [b]) with 1.
  pose proof (zlen_nonneg bs).
  destruct (_ =? 0); [lia|]. specialize (IH (u64 (u64 (Z.shiftl h 1) + gear b)) (i + 1)). lia.
Qed.
Lemma fastcdc_cut_bounds bs :
  bs ≠ [] ->
  (0 < fastcdc_cut p bs ≤ length bs)%nat /\
  (fastcdcMin p < zlen bs -> fastcdcMin p <= Z.of_nat (fastcdc_cut p bs)) /\
  Z.of_nat (fastcdc_cut p bs) <= fastcdcMax p.
Proof.
  destruct Hp as [H1 H2]. intros Hne. unfold fastcdc_cut.
  assert (length bs ≠ 0%nat) by (by rewrite length_zero_iff_nil).
  destruct (Z.leb_spec (zlen bs) (fastcdcMin p)); [unfold zlen in *; lia|].
  match goal with |- context [scan p ?h ?i ?l] => pose proof (scan_bounds h i l) as Hb end.
  revert Hb. unfold zlen in *. rewrite length_drop, length_take. lia.
Qed.
Lemma fastcdc_cut_app bs rest :
  fastcdcMax p <= zlen bs -> fastcdc_cut p (bs ++ rest) = fastcdc_cut p bs.
Proof.
  destruct Hp as [H1 H2]. intros Hl. unfold fastcdc_cut. rewrite zlen_app.
  pose proof (zlen_nonneg rest).
  destruct (Z.leb_spec (zlen bs + zlen rest) (fastcdcMin p)); [lia|].
  destruct (Z.leb_spec (zlen bs) (fastcdcMin p)); [lia|].
  rewrite take_app_le by (unfold zlen in *; lia). done.
Qed.

Lemma fastcdc_split_fuel fuel bs :
  (length bs ≤ fuel)%nat -> fastcdc_split p fuel bs = fastcdc_spec p bs.
Proof.
  unfold fastcdc_spec. revert bs. induction fuel as [fuel IH] using lt_wf_ind. intros bs Hf.
  destruct bs as [|b bs]; [destruct fuel; done|]. destruct fuel as [|fuel]; [simpl in Hf; lia|].
  simpl length. cbn [fastcdc_split]. f_equal.
  destruct (fastcdc_cut_bounds (b :: bs)) as [[Hc _] _]; [done|].
  assert (length (drop (fastcdc_cut p (b :: bs)) (b :: bs)) ≤ length bs)%nat
    by (rewrite length_drop; simpl; lia).
  simpl in Hf. rewrite (IH fuel) by lia.
  destruct (decide (length bs = fuel)) as [->|]; [by rewrite (IH fuel) by lia|].
  rewrite (IH (length bs)) by lia. done.
Qed.
Lemma fastcdc_spec_step bs :
  bs ≠ [] ->
  fastcdc_spec p bs = take (fastcdc_cut p bs) bs :: fastcdc_spec p (drop (fastcdc_cut p bs) bs).
Proof.
  intros Hne. destruct (fastcdc_cut_bounds bs Hne) as [[Hc _] _].
  destruct bs as [|b bs]; [done|]. unfold fastcdc_spec at 1. simpl length. cbn [fastcdc_split].
  rewrite fastcdc_split_fuel; [done|]. rewrite length_drop. simpl. lia.
Qed.
Lemma fastcdc_ind (P : bytes -> Prop) :
  P [] -> (forall bs, bs ≠ [] -> P (drop (fastcdc_cut p bs) bs) -> P bs) -> forall bs, P bs.
Proof.
  intros H0 HS bs. induction bs as [bs IH] using (induction_ltof1 _ length).
  destruct (decide (bs = [])) as [->|Hne]; [done|]. apply HS; [done|]. apply IH.
  unfold ltof. rewrite length_drop. destruct (fastcdc_cut_bounds bs Hne) as [? _]. lia.
Qed.
Lemma fastcdc_spec_concat bs : concat (fastcdc_spec p bs) = bs.
Proof.
  induction bs as [|bs Hne IH] using fastcdc_ind; [done|].
  rewrite fastcdc_spec_step by done. simpl. rewrite IH. apply take_drop.
Qed.
Lemma fastcdc_spec_sizes bs ds d :
  fastcdc_spec p bs = ds ++ [d] ->
  Forall (λ d, fastcdcMin p <= zlen d <= fastcdcMax p) ds /\ 0 < zlen d <= fastcdcMax p.
Proof.
  revert ds. induction bs as [|bs Hne IH] using fastcdc_ind; intros ds; [by destruct ds|].
  rewrite fastcdc_spec_step by done. destruct (fastcdc_cut_bounds bs Hne) as (H1 & H2 & H3).
  assert (zlen (take (fastcdc_cut p bs) bs) = Z.of_nat (fastcdc_cut p bs)) as Hz
    by (unfold zlen; rewrite length_take; lia).
  destruct ds as [|d0 ds]; simpl; intros [= <- E].
  - split; [done|]. lia.
  - apply IH in E as E'. destruct E' as [HF Hd]. split; [|done]. constructor; [|done].
    rewrite Hz. split; [|lia]. apply H2.
    destruct (Z.leb_spec (zlen bs) (fastcdcMin p)) as [Hle|]; [|done]. exfalso.
    assert (fastcdc_cut p bs = length bs) as Hcut.
    { unfold fastcdc_cut. destruct (Z.leb_spec (zlen bs) (fastcdcMin p)); [done|lia]. }
    rewrite Hcut, drop_all in E. by destruct ds.
Qed.
End fastcdc_spec.

Section fastcdc.
Context `{Multiformats} `{!MultiformatsLaws} (alg : Z) (Halg : isSupportedHash alg = true).
Context (p : CDCParams) (Hp : cdc_ok p).

#[local] Instance fastcdc_chunker : Chunker fastCDCChunker := fastcdc_Next alg p.

Lemma copy_at_length buf off src :
  (off + length src ≤ length buf)%nat -> length (copy_at buf off src) = length buf.
Proof. intros. unfold copy_at. rewrite !length_app, !length_take, length_drop. lia. Qed.
Lemma copy_at_slice buf off src :
  (off + length src ≤ length buf)%nat ->
  slice (copy_at buf off src) 0 (off + length src) = take off buf ++ src.
Proof.
  intros Hl. unfold slice, copy_at. rewrite drop_0, Nat.sub_0_r, app_assoc.
  rewrite (take_ge src) by lia. rewrite take_app_length'; [done|].
  rewrite length_app, length_take. lia.
Qed.
Lemma slice_0 buf k : slice buf 0 k = take k buf.
Proof. unfold slice. by rewrite drop_0, Nat.sub_0_r. Qed.
Lemma slice_length buf i j : (i ≤ j ≤ length buf)%nat -> length (slice buf i j) = (j - i)%nat.
Proof. intros. unfold slice. rewrite length_take, length_drop. lia. Qed.

(** [c] still has to cut [rem], after which the reader fails with [e] *)
Definition cdc_inv (c : fastCDCChunker) (rem : bytes) (e : error) : Prop :=
  (c_pos c ≤ c_limit c ≤ length (c_buf c))%nat /\
  length (c_buf c) = Z.to_nat (fastcdcMax p * 2) /\
  if c_eofSeen c then rem = slice (c_buf c) (c_pos c) (c_limit c)
  else exists tl, content (c_r c) = (tl, e) /\ rem = slice (c_buf c) (c_pos c) (c_limit c) ++ tl.
Definition cdc_measure (c : fastCDCChunker) : nat :=
  if c_eofSeen c then 0 else rd_measure (c_r c).

Lemma refill_spec c rem e :
  cdc_inv c rem e -> c_eofSeen c = false -> errors_is e EOF = true ->
  Z.of_nat (c_limit c) - Z.of_nat (c_pos c) < fastcdcMax p ->
  exists c', refill c = (None, c') /\ cdc_inv c' rem e /\ (cdc_measure c' < cdc_measure c)%nat.
Proof.
  destruct Hp as [Hmin Hmax]. intros (Hpl & Hlen & Hinv) Hs He Hlt. rewrite Hs in Hinv.
  destruct Hinv as (tl & Hc & ->). unfold refill.
  set (rm := (c_limit c - c_pos c)%nat). set (pend := slice (c_buf c) (c_pos c) (c_limit c)).
  assert (length pend = rm) as Hpend by (by apply slice_length).
  set (buf := if (0 <? rm)%nat then _ else _).
  assert (length buf = length (c_buf c) /\ take rm buf = pend) as [Hbl Hbt].
  { subst buf. destruct (Nat.ltb_spec 0 rm) as [Hr|Hr].
    - rewrite <-(slice_0 _ rm), copy_at_length by (rewrite Hpend; lia). split; [done|].
      pose proof (copy_at_slice (c_buf c) 0 pend ltac:(lia)) as HS.
      rewrite Nat.add_0_l, Hpend in HS. done.
    - split; [done|]. assert (rm = 0%nat) as -> by lia. by destruct pend. }
  destruct (Read (c_r c) (length buf - rm)) as [[bs err] r'] eqn:HR.
  pose proof (Read_short _ _ _ _ _ HR) as Hbs.
  assert (rm + length bs ≤ length buf)%nat as Hroom by lia.
  assert (slice (copy_at buf rm bs) 0 (rm + length bs) = pend ++ bs) as Hsl
    by (rewrite copy_at_slice by done; by rewrite Hbt).
  destruct err as [e'|].
  - apply Read_end in HR. rewrite Hc in HR. injection HR as -> ->. rewrite He. eexists.
    split; [done|]. unfold cdc_inv, cdc_measure. cbn [c_pos c_limit c_buf c_eofSeen c_r].
    rewrite Hs, copy_at_length, Hsl by done.
    pose proof (rd_measure_pos (c_r c)). split_and!; lia || done.
  - apply Read_more in HR as [HR Hm]; [|lia]. rewrite Hc in HR.
    destruct (content r') as [tl' e'] eqn:Hc'. injection HR as -> ->. eexists.
    split; [done|]. unfold cdc_inv, cdc_measure. cbn [c_pos c_limit c_buf c_eofSeen c_r].
    rewrite Hs, copy_at_length, Hsl by done. split_and!; try (lia || done).
    exists tl'. split; [done|]. simpl. by rewrite app_assoc.
Qed.

Lemma slice_take_drop buf i j n :
  (n ≤ j - i)%nat -> slice buf i (i + n) = take n (slice buf i j) /\
                     slice buf (i + n) j = drop n (slice buf i j).
Proof.
  intros Hn. unfold slice. rewrite take_take, Nat.min_l by lia. split; [f_equal; lia|].
  rewrite <-drop_drop. rewrite take_drop_commute. repeat f_equal. lia.
Qed.

Lemma fastcdc_loop_spec fuel c rem e :
  cdc_inv c rem e -> errors_is e EOF = true -> (cdc_measure c < fuel)%nat ->
  if bool_decide (rem = []) then exists c', fastcdc_loop alg p fuel c = (Err EOF, c')
  else exists b c', fastcdc_loop alg p fuel c = (Ok b, c') /\
         is_block alg (take (fastcdc_cut p rem) rem) b /\
         cdc_inv c' (drop (fastcdc_cut p rem) rem) e.
Proof.
  destruct Hp as [Hmin Hmax]. revert c.
  induction fuel as [|fuel IH]; intros c Hinv He Hf; [lia|]. cbn [fastcdc_loop].
  destruct (_ && _) eqn:Hneed.
  { apply andb_true_iff in Hneed as [Hlt Hs]. apply negb_true_iff in Hs.
    apply Z.ltb_lt in Hlt. destruct (refill_spec c rem e) as (c' & -> & Hinv' & Hm); [done..|].
    apply IH; [done..|lia]. }
  destruct Hinv as (Hpl & Hlen & Hinv).
  set (pend := slice (c_buf c) (c_pos c) (c_limit c)) in *.
  assert (length pend = (c_limit c - c_pos c)%nat) as Hpend by (by apply slice_length).
  assert (exists tl, rem = pend ++ tl /\ (tl ≠ [] -> fastcdcMax p <= zlen pend) /\
           (c_eofSeen c = true -> tl = [])) as (tl & Hrem & Htl & Htl2).
  { destruct (c_eofSeen c); [exists []; split_and!; [by rewrite app_nil_r|done..]|].
    destruct Hinv as (tl & _ & ->). exists tl. split_and!; [done| |done].
    rewrite andb_true_r in Hneed. apply Z.ltb_ge in Hneed. unfold zlen. lia. }
  assert (forall n, (n ≤ length pend)%nat ->
    cdc_inv {| c_r := c_r c; c_buf := c_buf c; c_pos := c_pos c + n; c_limit := c_limit c;
               c_eofSeen := c_eofSeen c |} (drop n rem) e) as Hnext.
  { intros n Hn. unfold cdc_inv. cbn [c_pos c_limit c_buf c_eofSeen c_r]. split_and!; [lia..|].
    rewrite (proj2 (slice_take_drop _ (c_pos c) (c_limit c) n ltac:(lia))).
    fold pend. destruct (c_eofSeen c); [by rewrite Hinv|].
    destruct Hinv as (tl' & Hc & ->). exists tl'. split; [done|].
    by rewrite drop_app_le. }
  destruct (Z.eqb_spec (Z.of_nat (c_limit c) - Z.of_nat (c_pos c)) 0) as [Hz|Hz].
  { destruct pend; [|simpl in *; lia]. destruct tl as [|t tl].
    - rewrite bool_decide_eq_true_2 by done. by eexists.
    - specialize (Htl ltac:(done)). unfold zlen in Htl; simpl in Htl. lia. }
  rewrite bool_decide_eq_false_2 by (subst rem; destruct pend; simpl in *; [lia|done]).
  assert (fastcdc_cut p rem = fastcdc_cut p pend) as Hcut.
  { subst rem. destruct tl; [by rewrite app_nil_r|]. apply fastcdc_cut_app; [done|].
    by apply Htl. }
  assert (pend ≠ []) as Hne by (intros E; rewrite E in Hpend; simpl in Hpend; lia).
  destruct (fastcdc_cut_bounds p Hp pend Hne) as [[Hc1 Hc2] _].
  assert (forall n, n = fastcdc_cut p pend ->
    slice (c_buf c) (c_pos c) (c_pos c + n) = take (fastcdc_cut p rem) rem) as Hblk.
  { intros n ->. rewrite Hcut.
    rewrite (proj1 (slice_take_drop _ (c_pos c) (c_limit c) (fastcdc_cut p pend) ltac:(lia))).
    subst rem. by rewrite take_app_le. }
  assert (forall n, n = fastcdc_cut p pend -> exists b c',
    (makeFastCDCBlock alg (slice (c_buf c) (c_pos c) (c_pos c + n)),
      {| c_r := c_r c; c_buf := c_buf c; c_pos := c_pos c + n; c_limit := c_limit c;
         c_eofSeen := c_eofSeen c |}) = (Ok b, c') /\
    is_block alg (take (fastcdc_cut p rem) rem) b /\
    cdc_inv c' (drop (fastcdc_cut p rem) rem) e) as Hfin.
  { intros n Hn. rewrite Hblk by done.
    destruct (makeBlock_ok alg Halg (take (fastcdc_cut p rem) rem)) as [b Hb].
    exists b. eexists. split.
    - f_equal. unfold makeFastCDCBlock. rewrite bool_decide_eq_false_2; [done|].
      intros E. apply (f_equal length) in E. rewrite length_take in E. simpl in E.
      rewrite Hcut in E. subst rem. rewrite length_app in E. lia.
    - split; [done|]. rewrite Hcut, Hn. by apply Hnext. }
  unfold fastcdc_cut in Hfin at 1.
  replace (zlen pend) with (Z.of_nat (c_limit c) - Z.of_nat (c_pos c)) in Hfin
    by (unfold zlen; lia).
  destruct (Z.leb_spec (Z.of_nat (c_limit c) - Z.of_nat (c_pos c)) (fastcdcMin p)) as [Hle|Hgt].
  - specialize (Hfin (length pend) eq_refl).
    replace (c_pos c + length pend)%nat with (c_limit c) in Hfin by lia. done.
  - apply Hfin. do 3 f_equal.
    set (len := if fastcdcMax p <? _ then _ else _).
    assert (Z.to_nat len ≤ c_limit c - c_pos c)%nat as Hl
      by (subst len; destruct (Z.ltb_spec (fastcdcMax p) (Z.of_nat (c_limit c) - Z.of_nat (c_pos c))); lia).
    rewrite (proj1 (slice_take_drop _ (c_pos c) (c_limit c) _ Hl)). fold pend. subst len.
    destruct (Z.ltb_spec (fastcdcMax p) (Z.of_nat (c_limit c) - Z.of_nat (c_pos c))); [done|].
    rewrite !take_ge by lia. done.
Qed.

Lemma fastcdc_yields r c bs e :
  NewFastCDC p (Some r) = Ok c -> content r = (bs, e) -> errors_is e EOF = true ->
  exists blocks, Yields c blocks EOF /\ Forall2 (is_block alg) (fastcdc_spec p bs) blocks.
Proof.
  intros [= <-] Hc He.
  match goal with |- context [Yields ?c] => assert (cdc_inv c bs e) as Hinv end.
  { split_and!; [cbn; lia..|cbn [c_buf]; by rewrite length_replicate|]. cbn. exists bs.
    done. }
  revert Hinv. match goal with |- context [Yields ?c] => generalize c end. clear Hc.
  induction bs as [|bs Hne IH] using (fastcdc_ind p Hp); intros c Hinv;
    (assert (cdc_measure c < S (rd_measure (c_r c) + rd_measure (c_r c)))%nat as Hm
      by (unfold cdc_measure; destruct (c_eofSeen c); lia));
    pose proof (fastcdc_loop_spec _ c _ e Hinv He Hm) as HL.
  - rewrite bool_decide_eq_true_2 in HL by done. destruct HL as (c' & HL).
    exists []. split; [by econstructor|constructor].
  - rewrite bool_decide_eq_false_2 in HL by done. destruct HL as (b & c' & HL & Hb & Hinv').
    destruct (IH _ Hinv') as (blocks & HY & HF). exists (b :: blocks).
    split; [by econstructor|]. rewrite fastcdc_spec_step by done. by constructor.
Qed.
End fastcdc.

(** ** Properties *)
Section properties.
Context `{Multiformats} `{!MultiformatsLaws} (alg : Z) (Halg : isSupportedHash alg = true).

(** What the dag and memfs builders rely on: the chunker [c] ends without error
    after delivering the blocks of the cut [ds], each carrying the MID and the
    size of its data. *)
Definition delivers {C} (next : M C Block) (c : C) (ds : list bytes) : Prop :=
  exists blocks, Yields (H := next) c blocks EOF /\ Data <$> blocks = ds /\
    Forall (λ b, BlockMID b = FromBytes alg (Data b) /\ BSize b = u64 (zlen (Data b))) blocks.

Lemma yields_delivers {C} (next : M C Block) (c : C) blocks ds :
  Yields (H := next) c blocks EOF -> Forall2 (is_block alg) ds blocks -> delivers next c ds.
Proof.
  intros HY HF. exists blocks. split_and!; [done|by eapply is_blocks_Data|].
  clear HY. induction HF as [|d b ds bs Hb _ IH]; constructor; [|done].
  rewrite (is_block_Data alg Halg _ _ Hb). split; [by eapply is_block_MID|].
  by apply is_block_inv in Hb as (m & _ & _ & ->).
Qed.

Lemma sizes_but_last ds mn mx :
  0 < mn ->
  (forall ds' d, ds = ds' ++ [d] ->
     Forall (λ d, mn <= zlen d <= mx) ds' /\ 0 < zlen d <= mx) ->
  Forall (λ d : bytes, 0 < zlen d <= mx) ds /\ Forall (λ d, mn <= zlen d) (removelast ds).
Proof.
  intros Hmn HS. destruct ds as [|d ds _] using rev_ind; [done|].
  destruct (HS ds d eq_refl) as [HF Hd]. rewrite removelast_last.
  split; [apply Forall_app; split; [|by constructor]|]; eapply Forall_impl; try done;
    simpl; lia.
Qed.

(** a fixed-size chunker over any readable source (whatever short reads,
    empty reads or data-with-EOF it makes) ends with EOF after delivering exactly
    the pieces of [size] bytes of the content (the last one shorter, none empty),
    which concatenate to it; each block carries the MID and the size of its data. *)
Theorem fixed_chunker_correct size r c bs e :
  NewFixed size (Some r) = Ok c -> content r = (bs, e) -> errors_is e EOF = true ->
  delivers (fixed_Next alg) c (chunks (Z.to_nat size) bs) /\
  concat (chunks (Z.to_nat size) bs) = bs /\
  Forall (λ d, 0 < zlen d <= size) (chunks (Z.to_nat size) bs).
Proof using All.
  unfold NewFixed, MinBlockSize. destruct (Z.ltb_spec size 1024); [done|].
  destruct (_ <? _); [done|]. intros [= <-] Hc He.
  assert (0 < Z.to_nat size)%nat by lia.
  destruct (fixed_yields alg Halg r size false bs e) as (blocks & HY & HF); [lia|done..|].
  split_and!; [by eapply yields_delivers|by apply chunks_concat|].
  eapply Forall_impl; [by apply chunks_sizes|]. simpl. unfold zlen. lia.
Qed.

(** a Rabin chunker over any readable source ends with EOF after delivering
    exactly the blocks of the reference cut [rabin_spec] of the content, so the
    cut depends only on the content; the blocks concatenate to it, none is empty
    or longer than [rabinMax], and all but the last are at least [rabinMin]. *)
Theorem rabin_chunker_correct p r c bs e ds :
  rabin_ok p -> NewRabin p (Some r) = Ok c -> content r = (bs, e) ->
  errors_is e EOF = true -> ds = rabin_spec p bs ->
  delivers (rabin_Next alg p) c ds /\ concat ds = bs /\
  Forall (λ d, 0 < zlen d <= rabinMax p) ds /\
  Forall (λ d, rabinMin p <= zlen d) (removelast ds).
Proof using All.
  intros Hp Hc Hr He ->.
  destruct (rabin_yields alg Halg p r c bs e) as (blocks & HY & HF); [done..|].
  split; [by eapply yields_delivers|]. split; [apply rabin_spec_concat|].
  apply sizes_but_last; [apply Hp|]. intros ds' d. apply rabin_split_sizes; [done|].
  destruct Hp. unfold zlen. simpl. lia.
Qed.

(** C13: a FastCDC chunker over any readable source ends with EOF after delivering
    exactly the blocks of the reference cut [fastcdc_spec] of the content; the
    refills of its buffer never show. The blocks concatenate to the content, none
    is empty or longer than [fastcdcMax], and all but the last are at least
    [fastcdcMin]. *)
Theorem fastcdc_chunker_correct p r c bs e ds :
  cdc_ok p -> NewFastCDC p (Some r) = Ok c -> content r = (bs, e) ->
  errors_is e EOF = true -> ds = fastcdc_spec p bs ->
  delivers (fastcdc_Next alg p) c ds /\ concat ds = bs /\
  Forall (λ d, 0 < zlen d <= fastcdcMax p) ds /\
  Forall (λ d, fastcdcMin p <= zlen d) (removelast ds).
Proof using All.
  intros Hp Hc Hr He ->.
  destruct (fastcdc_yields alg Halg p Hp r c bs e) as (blocks & HY & HF); [done..|].
  split; [by eapply yields_delivers|]. split; [by apply fastcdc_spec_concat|].
  apply sizes_but_last; [apply Hp|]. intros ds' d. by apply fastcdc_spec_sizes.
Qed.
End properties.

(** A source that makes a short read, an empty read, and returns its last bytes
    together with EOF. *)
Definition demo_reader : Reader :=
  [(lit "abcdefg", None); ([], None); (lit "hijklmnopqrstuvwxyz", Some EOF)].
Definition demo_rabin : RabinParams :=
  {| rabinMin := 2; rabinMax := 8; rabinWindow := 4; rabinMask := 3 |}.
Definition demo_cdc : CDCParams :=
  {| fastcdcMin := 2; fastcdcMid := 4; fastcdcMax := 8; maskNormal := 1; maskTight := 3 |}.

Lemma fixed_chunker_correct_witness :
  exists c bs, NewFixed 1024 (Some demo_reader) = Ok c /\
    delivers BLAKE3 (fixed_Next BLAKE3) c [bs] /\ bs = lit "abcdefghijklmnopqrstuvwxyz".
Proof.
  eexists _, _. split; [reflexivity|].
  split; [|reflexivity].
  exact (proj1 (fixed_chunker_correct BLAKE3 eq_refl 1024 demo_reader _ _ EOF eq_refl eq_refl eq_refl)).
Defined.
Lemma rabin_chunker_correct_witness :
  exists c, NewRabin demo_rabin (Some demo_reader) = Ok c /\
    delivers BLAKE3 (rabin_Next BLAKE3 demo_rabin) c
      (lit <$> ["ab"; "cdef"; "ghij"; "klmn"; "opqr"; "stuv"; "wxyz"]%string).
Proof.
  eexists. split; [reflexivity|].
  apply (rabin_chunker_correct BLAKE3 eq_refl demo_rabin demo_reader _
           (lit "abcdefghijklmnopqrstuvwxyz") EOF).
  - split; vm_compute; done.
  - reflexivity.
  - reflexivity.
  - reflexivity.
  - vm_compute. reflexivity.
Defined.
Lemma fastcdc_chunker_correct_witness :
  exists c, NewFastCDC demo_cdc (Some demo_reader) = Ok c /\
    delivers BLAKE3 (fastcdc_Next BLAKE3 demo_cdc) c
      (lit <$> ["abc"; "de"; "fg"; "hi"; "jk"; "lm"; "no"; "pq"; "rs"; "tu"; "vw"; "xy"; "z"]%string).
Proof.
  eexists. split; [reflexivity|].
  apply (fastcdc_chunker_correct BLAKE3 eq_refl demo_cdc demo_reader _
           (lit "abcdefghijklmnopqrstuvwxyz") EOF).
  - split; vm_compute; done.
  - reflexivity.
  - reflexivity.
  - reflexivity.
  - vm_compute. reflexivity.
Defined.
