(* ===== verification/Wire.v ===== *)
(** * Protobuf messages (src/proto)

    The messages the modelled components exchange, as records with the fields the
    Go code reads (the generated code and the protobuf runtime are not modelled).
    [Proto] stands for [proto.Marshal]/[proto.Unmarshal] at one message type and
    [ProtoLaws] for what the repository relies on: what was marshalled unmarshals
    to itself, and a message whose strings are ASCII can be marshalled. *)
From S2P Require Import Prelude Mid.

Class Proto (A : Type) := {
  marshal : A -> result bytes;
  unmarshal : bytes -> result A;
}.

(** [proto3] string fields must be valid UTF-8; [texts] are the ones of [a]. *)
Class HasTexts (A : Type) := texts : A -> list bytes.

Class ProtoLaws (A : Type) `{Proto A, HasTexts A} : Prop := {
  unmarshal_marshal a bs : marshal a = Ok bs -> unmarshal bs = Ok a;
  marshal_ascii a : Forall (Forall is_ascii) (texts a) -> is_ok (marshal a) = true;
}.

Lemma marshal_inj `{ProtoLaws A} a1 a2 bs : marshal a1 = Ok bs -> marshal a2 = Ok bs -> a1 = a2.
Proof.
  intros E1%unmarshal_marshal E2%unmarshal_marshal. rewrite E1 in E2. by injection E2.
Qed.
Lemma marshal_ok `{ProtoLaws A} a :
  Forall (Forall is_ascii) (texts a) -> exists bs, marshal a = Ok bs /\ unmarshal bs = Ok a.
Proof.
  intros Ha%marshal_ascii. destruct (marshal a) as [bs|] eqn:E; [|done].
  exists bs. split; [done|]. by apply unmarshal_marshal.
Qed.

(** ** Messages *)
Record DAGNode := mkDAGNode { dn_Links : list bytes; dn_Data : bytes; dn_Mid : bytes }.
#[export] Instance DAGNode_texts : HasTexts DAGNode := λ n, dn_Mid n :: dn_Links n.

(** the enum is open: protobuf keeps an unknown number *)
Definition MemFSType : Type := Z.
Definition MemFSType_RAW : MemFSType := 0.
Definition MemFSType_FILE : MemFSType := 1.
Definition MemFSType_DIR : MemFSType := 2.
Definition MemFSType_SYMLINK : MemFSType := 3.
Definition MemFSType_METADATA : MemFSType := 4.

Record MemFSBlock := mkMemFSBlock { mb_Mid : bytes; mb_Size : Z }.
Record DirEntry := mkDirEntry { de_Name : bytes; de_Mid : bytes; de_Type : MemFSType; de_Size : Z }.
Record MemFSMeta := mkMemFSMeta { mm_MimeType : bytes; mm_Attrs : list (bytes * bytes) }.
Record MemFSNode := mkMemFSNode {
  mn_Type : MemFSType;
  mn_Data : bytes;
  mn_FileSize : Z;
  mn_Blocks : list MemFSBlock;
  mn_Entries : list DirEntry;
  mn_SymlinkTarget : bytes;
  mn_Meta : option MemFSMeta;
  mn_Mode : Z;
  mn_Mtime : Z;
}.
#[export] Instance MemFSNode_texts : HasTexts MemFSNode := λ n,
  mn_SymlinkTarget n :: map de_Name (mn_Entries n)
  ++ match mn_Meta n with
     | Some m => mm_MimeType m :: map fst (mm_Attrs m) ++ map snd (mm_Attrs m)
     | None => []
     end.

Record DescriptorBlock := mkDescriptorBlock { db_Mid : bytes; db_Size : Z; db_Index : Z }.
Record DescriptorErasure := mkDescriptorErasure {
  ds_DataShards : Z;
  ds_ParityShards : Z;
  ds_OriginalMids : list bytes;
  ds_ShardMids : list bytes;
}.
Record DescriptorPayload := mkDescriptorPayload {
  dp_RootMid : bytes;
  dp_TotalSize : Z;
  dp_BlockCount : Z;
  dp_Name : bytes;
  dp_MimeType : bytes;
  dp_CreatedAt : Z;
  dp_Chunker : bytes;
  dp_ChunkSize : Z;
  dp_Blocks : list DescriptorBlock;
  dp_Erasure : option DescriptorErasure;
  dp_BootstrapPeers : list bytes;
  dp_MemnsName : bytes;
  dp_Signature : bytes;
}.
#[export] Instance DescriptorPayload_texts : HasTexts DescriptorPayload := λ d,
  [dp_RootMid d; dp_Name d; dp_MimeType d; dp_Chunker d; dp_MemnsName d]
  ++ map db_Mid (dp_Blocks d) ++ dp_BootstrapPeers d
  ++ match dp_Erasure d with Some e => ds_OriginalMids e ++ ds_ShardMids e | None => [] end.

Record ErasureManifest := mkErasureManifest {
  em_OriginalMid : bytes;
  em_DataShards : Z;
  em_ParityShards : Z;
  em_ShardMids : list bytes;
  em_OriginalSize : Z;
}.
#[export] Instance ErasureManifest_texts : HasTexts ErasureManifest := λ m,
  em_OriginalMid m :: em_ShardMids m.

(** What the store and the DAG code unmarshal. *)
Class Protos := {
  #[global] proto_DAGNode :: Proto DAGNode;
  #[global] proto_MemFSNode :: Proto MemFSNode;
  #[global] proto_DescriptorPayload :: Proto DescriptorPayload;
  #[global] proto_ErasureManifest :: Proto ErasureManifest;
}.
Class ProtosLaws `{Protos} : Prop := {
  #[global] laws_DAGNode :: ProtoLaws DAGNode;
  #[global] laws_MemFSNode :: ProtoLaws MemFSNode;
  #[global] laws_DescriptorPayload :: ProtoLaws DescriptorPayload;
  #[global] laws_ErasureManifest :: ProtoLaws ErasureManifest;
}.

(** ** A concrete instance: a message type is countable, and encoded bit by bit; a
    [DAGNode] is the list of its strings, each with its bytes marked and an end mark. *)
Module ToyWire.
Fixpoint pos_bytes (p : positive) : bytes :=
  match p with
  | xH => []
  | xO p => Byte.x00 :: pos_bytes p
  | xI p => Byte.x01 :: pos_bytes p
  end.
Fixpoint bytes_pos (bs : bytes) : option positive :=
  match bs with
  | [] => Some xH
  | Byte.x00 :: bs => xO <$> bytes_pos bs
  | Byte.x01 :: bs => xI <$> bytes_pos bs
  | _ => None
  end.
Lemma bytes_pos_bytes p : bytes_pos (pos_bytes p) = Some p.
Proof. induction p as [p IH|p IH|]; simpl; [by rewrite IH..|done]. Qed.

Definition enc_str (s : bytes) : bytes := concat (map (λ b, [Byte.x01; b]) s) ++ [Byte.x00].
Fixpoint dec_strs (bs cur : bytes) : option (list bytes) :=
  match bs with
  | [] => if bool_decide (cur = []) then Some [] else None
  | Byte.x00 :: bs => cons (reverse cur) <$> dec_strs bs []
  | Byte.x01 :: b :: bs => dec_strs bs (b :: cur)
  | _ => None
  end.
Lemma dec_enc_str s rest cur :
  dec_strs (enc_str s ++ rest) cur = cons (reverse cur ++ s) <$> dec_strs rest [].
Proof.
  revert cur. induction s as [|b s IH]; intros cur; simpl; [by rewrite app_nil_r|].
  unfold enc_str in IH. rewrite IH, reverse_cons, <-app_assoc. done.
Qed.
Lemma dec_enc_strs l : dec_strs (concat (map enc_str l)) [] = Some l.
Proof.
  induction l as [|s l IH]; [done|]. cbn [map concat]. by rewrite dec_enc_str, IH.
Qed.
Definition node_strs (n : DAGNode) : list bytes := dn_Data n :: dn_Mid n :: dn_Links n.
Definition dag_proto : Proto DAGNode := {|
  marshal n := Ok (concat (map enc_str (node_strs n)));
  unmarshal bs :=
    match dec_strs bs [] with
    | Some (d :: m :: links) => Ok (mkDAGNode links d m)
    | _ => Err (New "proto")
    end;
|}.
Lemma dag_proto_laws : @ProtoLaws DAGNode dag_proto _.
Proof.
  split; [|done]. intros n bs E. assert (bs = concat (map enc_str (node_strs n))) as -> by by injection E.
  unfold unmarshal, dag_proto. rewrite dec_enc_strs. by destruct n.
Qed.

(** a file-system node is the list of its fields, the repeated ones packed into one string *)
Definition z_str (z : Z) : bytes := pos_bytes (encode z).
Definition str_z (s : bytes) : option Z := bytes_pos s ≫= decode.
Lemma str_z_str z : str_z (z_str z) = Some z.
Proof. unfold str_z, z_str. rewrite bytes_pos_bytes. apply decode_encode. Qed.
Definition pack (l : list bytes) : bytes := concat (map enc_str l).
Definition unpack (s : bytes) : option (list bytes) := dec_strs s [].
Lemma unpack_pack l : unpack (pack l) = Some l.
Proof. apply dec_enc_strs. Qed.

Definition block_strs (b : MemFSBlock) : list bytes := [mb_Mid b; z_str (mb_Size b)].
Fixpoint strs_blocks (l : list bytes) : option (list MemFSBlock) :=
  match l with
  | [] => Some []
  | m :: sz :: l => sz ← str_z sz; bs ← strs_blocks l; Some (mkMemFSBlock m sz :: bs)
  | _ => None
  end.
Lemma strs_block_strs l : strs_blocks (concat (map block_strs l)) = Some l.
Proof. induction l as [|[m sz] l IH]; [done|]. cbn. by rewrite str_z_str, IH. Qed.
Definition entry_strs (e : DirEntry) : list bytes := [de_Name e; de_Mid e; z_str (de_Type e); z_str (de_Size e)].
Fixpoint strs_entries (l : list bytes) : option (list DirEntry) :=
  match l with
  | [] => Some []
  | n :: m :: ty :: sz :: l =>
      ty ← str_z ty; sz ← str_z sz; es ← strs_entries l; Some (mkDirEntry n m ty sz :: es)
  | _ => None
  end.
Lemma strs_entry_strs l : strs_entries (concat (map entry_strs l)) = Some l.
Proof. induction l as [|[n m ty sz] l IH]; [done|]. cbn. by rewrite !str_z_str, IH. Qed.
Definition attr_strs (a : bytes * bytes) : list bytes := [a.1; a.2].
Fixpoint strs_attrs (l : list bytes) : option (list (bytes * bytes)) :=
  match l with
  | [] => Some []
  | k :: v :: l => cons (k, v) <$> strs_attrs l
  | _ => None
  end.
Lemma strs_attr_strs l : strs_attrs (concat (map attr_strs l)) = Some l.
Proof. induction l as [|[k v] l IH]; [done|]. cbn. by rewrite IH. Qed.
Definition meta_strs (m : option MemFSMeta) : list bytes :=
  match m with None => [] | Some m => mm_MimeType m :: concat (map attr_strs (mm_Attrs m)) end.
Definition strs_meta (l : list bytes) : option (option MemFSMeta) :=
  match l with [] => Some None | mime :: l => Some ∘ mkMemFSMeta mime <$> strs_attrs l end.
Lemma strs_meta_strs m : strs_meta (meta_strs m) = Some m.
Proof. destruct m as [[mime l]|]; [|done]. cbn. by rewrite strs_attr_strs. Qed.

Definition fs_strs (n : MemFSNode) : list bytes :=
  [z_str (mn_Type n); mn_Data n; z_str (mn_FileSize n); pack (concat (map block_strs (mn_Blocks n)));
   pack (concat (map entry_strs (mn_Entries n))); mn_SymlinkTarget n; pack (meta_strs (mn_Meta n));
   z_str (mn_Mode n); z_str (mn_Mtime n)].
Definition strs_fs (l : list bytes) : option MemFSNode :=
  match l with
  | [ty; data; sz; blocks; entries; target; meta; mode; mtime] =>
      ty ← str_z ty; sz ← str_z sz; blocks ← unpack blocks ≫= strs_blocks;
      entries ← unpack entries ≫= strs_entries; meta ← unpack meta ≫= strs_meta;
      mode ← str_z mode; mtime ← str_z mtime;
      Some (mkMemFSNode ty data sz blocks entries target meta mode mtime)
  | _ => None
  end.
Definition fs_proto : Proto MemFSNode := {|
  marshal n := Ok (pack (fs_strs n));
  unmarshal bs := match unpack bs ≫= strs_fs with Some n => Ok n | None => Err (New "proto") end;
|}.
Lemma fs_proto_laws : @ProtoLaws MemFSNode fs_proto _.
Proof.
  split; [|done]. intros n bs E. assert (bs = pack (fs_strs n)) as -> by by injection E.
  unfold unmarshal, fs_proto. rewrite unpack_pack. cbn [mbind option_bind]. unfold strs_fs, fs_strs.
  rewrite !str_z_str, !unpack_pack. cbn [mbind option_bind].
  rewrite strs_block_strs, strs_entry_strs, strs_meta_strs. cbn [mbind option_bind]. by destruct n.
Qed.

Definition dblock_strs (b : DescriptorBlock) : list bytes := [db_Mid b; z_str (db_Size b); z_str (db_Index b)].
Fixpoint strs_dblocks (l : list bytes) : option (list DescriptorBlock) :=
  match l with
  | [] => Some []
  | m :: sz :: ix :: l => sz ← str_z sz; ix ← str_z ix; bs ← strs_dblocks l; Some (mkDescriptorBlock m sz ix :: bs)
  | _ => None
  end.
Lemma strs_dblock_strs l : strs_dblocks (concat (map dblock_strs l)) = Some l.
Proof. induction l as [|[m sz ix] l IH]; [done|]. cbn. by rewrite !str_z_str, IH. Qed.
Definition derasure_strs (e : option DescriptorErasure) : list bytes :=
  match e with
  | None => []
  | Some e => [z_str (ds_DataShards e); z_str (ds_ParityShards e); pack (ds_OriginalMids e); pack (ds_ShardMids e)]
  end.
Definition strs_derasure (l : list bytes) : option (option DescriptorErasure) :=
  match l with
  | [] => Some None
  | [k; p; os; ss] =>
      k ← str_z k; p ← str_z p; os ← unpack os; ss ← unpack ss; Some (Some (mkDescriptorErasure k p os ss))
  | _ => None
  end.
Lemma strs_derasure_strs e : strs_derasure (derasure_strs e) = Some e.
Proof. destruct e as [[k p os ss]|]; [|done]. unfold strs_derasure, derasure_strs. by rewrite !str_z_str, !unpack_pack. Qed.
Definition desc_strs (d : DescriptorPayload) : list bytes :=
  [dp_RootMid d; z_str (dp_TotalSize d); z_str (dp_BlockCount d); dp_Name d; dp_MimeType d; z_str (dp_CreatedAt d);
   dp_Chunker d; z_str (dp_ChunkSize d); pack (concat (map dblock_strs (dp_Blocks d))); pack (derasure_strs (dp_Erasure d));
   pack (dp_BootstrapPeers d); dp_MemnsName d; dp_Signature d].
Definition strs_desc (l : list bytes) : option DescriptorPayload :=
  match l with
  | [root; total; count; name; mime; created; chunker; csize; blocks; er; peers; memns; sig] =>
      total ← str_z total; count ← str_z count; created ← str_z created; csize ← str_z csize;
      blocks ← unpack blocks ≫= strs_dblocks; er ← unpack er ≫= strs_derasure; peers ← unpack peers;
      Some (mkDescriptorPayload root total count name mime created chunker csize blocks er peers memns sig)
  | _ => None
  end.
Definition desc_proto : Proto DescriptorPayload := {|
  marshal d := Ok (pack (desc_strs d));
  unmarshal bs := match unpack bs ≫= strs_desc with Some d => Ok d | None => Err (New "proto") end;
|}.
Lemma desc_proto_laws : @ProtoLaws DescriptorPayload desc_proto _.
Proof.
  split; [|done]. intros d bs E. assert (bs = pack (desc_strs d)) as -> by by injection E.
  unfold unmarshal, desc_proto. rewrite unpack_pack. cbn [mbind option_bind]. unfold strs_desc, desc_strs.
  rewrite !str_z_str, !unpack_pack. cbn [mbind option_bind].
  rewrite strs_dblock_strs, strs_derasure_strs. cbn [mbind option_bind]. by destruct d.
Qed.
End ToyWire.

Definition toy_proto {A} `{Countable A} : Proto A := {|
  marshal a := Ok (ToyWire.pos_bytes (encode a));
  unmarshal bs :=
    match ToyWire.bytes_pos bs with
    | Some p => match decode p with Some a => Ok a | None => Err (New "proto") end
    | None => Err (New "proto")
    end;
|}.
Lemma toy_proto_laws {A} `{Countable A, HasTexts A} : @ProtoLaws A toy_proto _.
Proof.
  split; [|done]. intros a bs. cbn [marshal unmarshal toy_proto]. intros [= <-].
  by rewrite ToyWire.bytes_pos_bytes, decode_encode.
Qed.

#[local] Instance ErasureManifest_eq_dec : EqDecision ErasureManifest.
Proof. solve_decision. Defined.
#[local] Instance ErasureManifest_countable : Countable ErasureManifest.
Proof.
  refine (inj_countable' (λ n, (em_OriginalMid n, em_DataShards n, em_ParityShards n, em_ShardMids n,
      em_OriginalSize n)) (λ '(a, b, c, d, e), mkErasureManifest a b c d e) _).
  by intros [].
Defined.

Instance toy_protos : Protos := {|
  proto_DAGNode := ToyWire.dag_proto;
  proto_MemFSNode := ToyWire.fs_proto;
  proto_DescriptorPayload := ToyWire.desc_proto;
  proto_ErasureManifest := toy_proto;
|}.
Instance toy_protos_laws : ProtosLaws.
Proof. split; [apply ToyWire.dag_proto_laws|apply ToyWire.fs_proto_laws|apply ToyWire.desc_proto_laws|apply toy_proto_laws]. Qed.
