(* ===== verification/Blockstore.v ===== *)
(** * The Blockstore interface and the DAG walk (src/core/store: store.go, walk.go)

    [verifyContent] is the integrity check of every write.  [Blockstore] is the
    Go interface as far as core/dag, core/memfs and core/erasure use it, and
    [BlockstoreLaws] its contract: a successful [Put] makes exactly the data it was
    given readable, and no [Put] makes another block unreadable.  [WalkOptions] is
    the depth-first walk under Seal and GC, over any state [T] its callback
    threads; [walk_closed] says what a successful walk has visited. *)
From S2P Require Import Prelude Mid Wire.

Definition ErrNotFound : error := Sentinel "store: block not found".

(** [store.Block] *)
Record SBlock := mkSBlock { sb_MID : MID; sb_Data : bytes }.

(** ** Integrity *)
Section verify.
Context `{Multiformats} (alg : Z).

Definition verifyContent (m : MID) (data : bytes) : result unit :=
  want ← wrap "store: claim MID has no digest" (DigestBytes m);
  got ← FromBytes alg data;
  gotDigest ← wrap "store: derive digest" (DigestBytes got);
  if bool_decide (want = gotDigest) then Ok tt
  else Err (New "store: data does not hash to claimed MID").

(** [d] is what the MID [m] names. *)
Definition names (m : MID) (d : bytes) : Prop :=
  exists dg m', DigestBytes m = Ok dg /\ FromBytes alg d = Ok m' /\ DigestBytes m' = Ok dg.
End verify.

Section verify_facts.
Context `{Multiformats} `{!MultiformatsLaws} (alg : Z) (Halg : isSupportedHash alg = true).

Lemma verifyContent_names m d : verifyContent alg m d = Ok tt <-> names alg m d.
Proof.
  unfold verifyContent, names, wrap. split.
  - destruct (DigestBytes m) as [dg|] eqn:E1; simpl; [|done].
    destruct (FromBytes alg d) as [m'|] eqn:E2; simpl; [|done].
    destruct (DigestBytes m') as [dg'|] eqn:E3; simpl; [|done].
    case_bool_decide; [|done]. intros _. subst. exists dg', m'. done.
  - intros (dg & m' & E1 & E2 & E3). rewrite E1. simpl. rewrite E2. simpl. rewrite E3. simpl.
    by rewrite bool_decide_eq_true_2.
Qed.
Lemma verifyContent_ok_inv m d u : verifyContent alg m d = Ok u -> names alg m d.
Proof. destruct u. apply verifyContent_names. Qed.
Lemma FromBytes_names d c m :
  0 <= c < 2 ^ 64 -> FromBytesWithCodec alg d c = Ok m -> names alg m d.
Proof.
  intros Hc E. destruct (FromBytesWithCodec_digest alg d c m Halg Hc E)
    as (mh & x & Hs & Hx & _ & Hd).
  destruct (FromBytesWithCodec_sum alg d CodecRaw Halg) as (mh' & _ & _ & E'); [done|].
  destruct (FromBytesWithCodec_digest alg d CodecRaw _ Halg ltac:(done) E')
    as (mh'' & x'' & Hs'' & Hx'' & _ & Hd'').
  rewrite Hs in Hs''. injection Hs'' as <-. rewrite Hx in Hx''. injection Hx'' as <-.
  by eexists _, _.
Qed.
Lemma names_unique `{!CollisionFree alg} m d1 d2 :
  names alg m d1 -> names alg m d2 -> d1 = d2.
Proof.
  intros (dg & m1 & Hm & E1 & D1) (dg' & m2 & Hm' & E2 & D2).
  rewrite Hm in Hm'. injection Hm' as <-.
  destruct (FromBytesWithCodec_digest alg d1 CodecRaw m1 Halg ltac:(done) E1)
    as (mh1 & x1 & S1 & X1 & _ & G1).
  destruct (FromBytesWithCodec_digest alg d2 CodecRaw m2 Halg ltac:(done) E2)
    as (mh2 & x2 & S2 & X2 & _ & G2).
  eapply (collision_free (alg := alg)); try done. congruence.
Qed.
(** the digest does not depend on the codec *)
Lemma names_Hash m1 m2 d : Hash m1 = Hash m2 -> names alg m1 d -> names alg m2 d.
Proof. unfold names, DigestBytes. intros ->. done. Qed.
End verify_facts.

Lemma toy_names c d : 0 <= c < 2 ^ 64 -> names BLAKE3 (toy_mid c d) d.
Proof.
  intros Hc. destruct (toy_mid_ok c d Hc) as (E & _ & _). by eapply FromBytes_names.
Qed.
Lemma toy_raw_names d : names BLAKE3 (toy_mid CodecRaw d) d.
Proof. by apply toy_names. Qed.

(** ** The interface *)
Class Blockstore (S : Type) := {
  bs_Put : MID -> bytes -> M S unit;
  bs_Get : MID -> S -> result bytes;
  bs_Has : MID -> S -> result bool;
}.

(** The contract, for the states that satisfy [inv]. *)
Class BlockstoreLaws (S : Type) `{Multiformats, Blockstore S} (alg : Z) (inv : S -> Prop) : Prop := {
  put_spec m d s r s' :
    inv s -> wf_mid m -> bs_Put m d s = (r, s') ->
    inv s' /\
    (r = Ok tt -> names alg m d /\ bs_Get m s' = Ok d) /\
    (forall m' d', wf_mid m' -> names alg m' d' -> bs_Get m' s = Ok d' -> bs_Get m' s' = Ok d');
}.
(** Storage that accepts every block it should. *)
Class BlockstoreTotal (S : Type) `{Multiformats, Blockstore S} (alg : Z) (inv : S -> Prop) : Prop :=
  put_total m d s :
    inv s -> wf_mid m -> names alg m d -> exists s', bs_Put m d s = (Ok tt, s').

(** What one store state keeps of another. *)
Definition keeps {S : Type} `{Multiformats, Blockstore S} (alg : Z) (s s' : S) : Prop :=
  forall m d, wf_mid m -> names alg m d -> bs_Get m s = Ok d -> bs_Get m s' = Ok d.
#[export] Instance keeps_preorder {S : Type} `{Multiformats, Blockstore S} alg : PreOrder (keeps (S := S) alg).
Proof. split; [by intros ??|intros ??? H1 H2 m d ???; by apply H2, H1]. Qed.

Lemma put_keeps {S : Type} `{BlockstoreLaws S alg inv} m d s r s' :
  inv s -> wf_mid m -> bs_Put m d s = (r, s') -> inv s' /\ keeps alg s s'.
Proof. intros Hs Hm E. edestruct put_spec as (? & _ & ?); done. Qed.

(** ** Walk *)
Definition Unwrap (e : error) : option error :=
  match e with Wrap _ e => Some e | _ => None end.
Fixpoint Error (e : error) : string :=
  match e with
  | Sentinel n => n
  | New m => m
  | Wrap m e => m ++ ": " ++ Error e
  end%string.
Definition is_missing (e : error) : bool :=
  errors_is e ErrNotFound
  || bool_decide (Error e = "store: block not found"%string)
  || match Unwrap e with Some e' => errors_is e' ErrNotFound | None => false end.

Definition rights {A} (l : list (result A)) : list A :=
  omap (λ r, match r with Ok a => Some a | Err _ => None end) l.

Section children.
Context `{Multiformats, Protos}.

Definition tryParseDescriptor (data : bytes) : result DescriptorPayload :=
  let accept r := match r with
    | Ok d => if bool_decide (dp_RootMid d = []) then None else Some d
    | Err _ => None
    end in
  match accept (unmarshal data) with
  | Some d => Ok d
  | None =>
      if zlen data <? 5 + 32 then Err (New "descriptor: too short") else
      if bool_decide (take 4 data ≠ lit "MEMB") then Err (New "descriptor: invalid magic") else
      if negb (b2z (data !!! 4%nat) =? 1) then Err (New "descriptor: unsupported version") else
      match accept (unmarshal (take (length data - 32 - 5) (drop 5 data))) with
      | Some d => Ok d
      | None => Err (New "descriptor: failed to parse wrapped")
      end
  end.

(** the child MIDs a MemFS node names; the codec of a child is inferred *)
Definition block_child (b : MemFSBlock) : list MID :=
  if bool_decide (mb_Mid b = []) then [] else
  rights [FromMultihash (if 0 <? mb_Size b then CodecRaw else CodecMemFS) (mb_Mid b)].
Definition entry_child (e : DirEntry) : list MID :=
  if bool_decide (de_Mid e = []) then [] else
  rights [FromMultihash (if de_Type e =? MemFSType_RAW then CodecRaw else CodecMemFS) (de_Mid e)].

(** the classification of a block in [walk]: is it internal, and its children *)
Definition children (m : MID) (data : bytes) : bool * list MID :=
  let desc := match tryParseDescriptor data with
    | Ok d => if bool_decide (dp_Blocks d = []) then None else Some d
    | Err _ => None
    end in
  match desc with
  | Some d => (true, rights (Parse (dp_RootMid d) :: map (λ b, Parse (db_Mid b)) (dp_Blocks d)))
  | None =>
      if Codec m =? CodecMemFS then
        match unmarshal (A := MemFSNode) data with
        | Ok node =>
            if mn_Type node =? MemFSType_FILE then
              if bool_decide (mn_Data node ≠ []) && (zlen (mn_Blocks node) <=? 1)
              then (false, [])
              else (0 <? zlen (mn_Blocks node), mn_Blocks node ≫= block_child)
            else if mn_Type node =? MemFSType_DIR then
              (0 <? zlen (mn_Entries node), mn_Entries node ≫= entry_child)
            else (false, [])
        | Err _ => (false, [])
        end
      else
        match unmarshal (A := DAGNode) data with
        | Ok node =>
            if bool_decide (dn_Links node = []) then (false, [])
            else (true, rights (map Parse (dn_Links node)))
        | Err _ => (false, [])
        end
  end.
End children.

Definition largeRaw : Z := 16384.

Section walk.
Context `{Multiformats, Protos} {T : Type}.
Context (get : MID -> T -> result bytes) (getSize : option (MID -> T -> result Z)).
Context (ignoreMissing : bool) (visit : MID -> bool -> M T unit).

(** the state of the closure: the visited set and the caller's state *)
Definition visitM (m : MID) (leaf : bool) : M (gset bytes * T) unit := λ '(seen, t),
  let '(r, t') := visit m leaf t in (r, (seen, t')).

Fixpoint walk (fuel : nat) (m : MID) : M (gset bytes * T) unit := λ '(seen, t),
  match fuel with
  | O => (Err OutOfFuel, (seen, t))
  | S fuel =>
      if decide (String m ∈ seen) then (Ok tt, (seen, t)) else
      let seen := {[String m]} ∪ seen in
      match (match getSize with Some gs => gs m t | None => Ok (-1) end) with
      | Err e =>
          if ignoreMissing && is_missing e then (Ok tt, (seen, t))
          else (Err (Wrap "store: walk size" e), (seen, t))
      | Ok size =>
          if (Codec m =? CodecRaw) && (largeRaw <? size) then visitM m true (seen, t) else
          match get m t with
          | Err e =>
              if ignoreMissing && is_missing e then (Ok tt, (seen, t))
              else (Err (Wrap "store: walk get" e), (seen, t))
          | Ok data =>
              if (Codec m =? CodecRaw) && (largeRaw <? zlen data) then visitM m true (seen, t) else
              let '(isInternal, kids) := children m data in
              if isInternal then
                (_ ← visitM m false; for_each (walk fuel) kids) (seen, t)
              else visitM m true (seen, t)
          end
      end
  end.

Definition WalkOptions (fuel : nat) (root : MID) : M T unit := λ t,
  if IsZero root then (Err (New "store: zero root MID"), t) else
  let '(r, (_, t')) := walk fuel root (∅, t) in (r, t').
End walk.

Definition Walk `{Multiformats, Protos} {T} (get : MID -> T -> result bytes)
    (getSize : option (MID -> T -> result Z)) (visit : MID -> bool -> M T unit) :=
  WalkOptions get getSize false visit.

(** ** What a walk visits *)
Section children_facts.
Context `{Multiformats} `{!MultiformatsLaws} `{Protos}.

Lemma elem_of_rights {A} (l : list (result A)) a : a ∈ rights l <-> Ok a ∈ l.
Proof.
  unfold rights. rewrite list_elem_of_omap. split.
  - intros ([b|e] & Hin & E); [|done]. by injection E as ->.
  - intros Hin. by exists (Ok a).
Qed.
Lemma block_child_wf b m : m ∈ block_child b -> wf_mid m.
Proof.
  unfold block_child. case_bool_decide; [set_solver|].
  rewrite elem_of_rights, list_elem_of_singleton. intros E. symmetry in E.
  eapply FromMultihash_wf; [|done]. destruct (0 <? mb_Size b); apply codec_ranges.
Qed.
Lemma entry_child_wf e m : m ∈ entry_child e -> wf_mid m.
Proof.
  unfold entry_child. case_bool_decide; [set_solver|].
  rewrite elem_of_rights, list_elem_of_singleton. intros E. symmetry in E.
  eapply FromMultihash_wf; [|done]. destruct (_ =? _); apply codec_ranges.
Qed.
Lemma rights_Parse_wf l m : m ∈ rights (map Parse l) -> wf_mid m.
Proof.
  rewrite elem_of_rights. intros (s & E & _)%list_elem_of_fmap. symmetry in E. by eapply Parse_wf.
Qed.
Lemma children_wf m d m' : m' ∈ (children m d).2 -> wf_mid m'.
Proof.
  unfold children. destruct (match tryParseDescriptor d with Ok _ => _ | _ => _ end) as [dp|]; simpl.
  { intros Hin. eapply (rights_Parse_wf (dp_RootMid dp :: map db_Mid (dp_Blocks dp))).
    simpl. by rewrite map_map. }
  destruct (Codec m =? CodecMemFS).
  - destruct (unmarshal d) as [node|]; simpl; [|set_solver].
    destruct (mn_Type node =? MemFSType_FILE).
    { destruct (_ && _); simpl; [set_solver|]. intros (b & Hin & _)%list_elem_of_bind.
      by eapply block_child_wf. }
    destruct (mn_Type node =? MemFSType_DIR); simpl; [|set_solver].
    intros (e & Hin & _)%list_elem_of_bind. by eapply entry_child_wf.
  - destruct (unmarshal d) as [node|]; simpl; [|set_solver].
    case_bool_decide; simpl; [set_solver|]. apply rights_Parse_wf.
Qed.
End children_facts.

Section walk_facts.
Context `{Multiformats} `{!MultiformatsLaws} `{Protos} {T : Type}.
Context (get : MID -> T -> result bytes) (getSize : option (MID -> T -> result Z)).
Context (ignoreMissing : bool) (visit : MID -> bool -> M T unit).
Context (marked : MID -> T -> Prop).

Definition size_of (m : MID) (t : T) : result Z :=
  match getSize with Some gs => gs m t | None => Ok (-1) end.
(** two states the walk cannot tell apart *)
Definition same_reads (t t' : T) : Prop :=
  (forall m, get m t' = get m t) /\ (forall m, size_of m t' = size_of m t).
#[local] Instance same_reads_preorder : PreOrder same_reads.
Proof.
  split; [by intros ?|]. intros t1 t2 t3 [A1 A2] [B1 B2].
  split; intros m; [by rewrite B1|by rewrite B2].
Qed.

(** the callback: it does not disturb the reads, it marks, and it unmarks nothing *)
Record visitor : Prop := {
  vs_reads m leaf t r t' : visit m leaf t = (r, t') -> same_reads t t';
  vs_marks m leaf t t' : visit m leaf t = (Ok tt, t') -> marked m t';
  vs_keeps m leaf t r t' m' : visit m leaf t = (r, t') -> marked m' t -> marked m' t';
}.

Definition bigRaw (m : MID) (size : Z) : bool := (Codec m =? CodecRaw) && (largeRaw <? size).
(** the walk goes from [m] on to [m'] *)
Definition follows (t : T) (m m' : MID) : Prop := exists size data,
  size_of m t = Ok size /\ bigRaw m size = false /\ get m t = Ok data /\
  bigRaw m (zlen data) = false /\ (children m data).1 = true /\ m' ∈ (children m data).2.
Definition absent (t : T) (m : MID) : Prop := exists e, is_missing e = true /\
  (size_of m t = Err e \/ get m t = Err e).

Lemma follows_same t t' m m' : same_reads t t' -> follows t' m m' <-> follows t m m'.
Proof. intros [Hg Hs]. unfold follows. by setoid_rewrite Hg; setoid_rewrite Hs. Qed.
Lemma follows_wf t m m' : follows t m m' -> wf_mid m'.
Proof. intros (? & ? & _ & _ & _ & _ & _ & Hin). by eapply children_wf. Qed.
Lemma reach_same t t' m m' : same_reads t t' -> rtc (follows t') m m' <-> rtc (follows t) m m'.
Proof.
  intros Hs. split; (induction 1 as [|x y z Hf _ IH]; [done|]; eapply rtc_l; [|exact IH]);
    by apply (follows_same _ _ _ _ Hs).
Qed.

(** the outcome of a walk (or of a loop over [ms]) *)
Record walked (ms : list MID) (seen seen' : gset bytes) (t t' : T) : Prop := {
  wk_reads : same_reads t t';
  wk_keeps m : marked m t -> marked m t';
  wk_sub : seen ⊆ seen';
  wk_all m : m ∈ ms -> String m ∈ seen';
  wk_new s : s ∈ seen' -> s ∉ seen -> exists m m', m ∈ ms /\ wf_mid m' /\ s = String m' /\
    rtc (follows t) m m' /\ (marked m' t' \/ ignoreMissing = true /\ absent t m') /\
    forall m'', follows t m' m'' -> String m'' ∈ seen';
}.

Lemma walked_nil seen t : walked [] seen seen t t.
Proof. split; [done|done|done|set_solver|by intros]. Qed.
Lemma walked_cons m ms seen seen1 seen' t t1 t' :
  walked [m] seen seen1 t t1 -> walked ms seen1 seen' t1 t' -> walked (m :: ms) seen seen' t t'.
Proof.
  intros [R1 K1 S1 A1 N1] [R2 K2 S2 A2 N2]. split.
  - by etrans.
  - auto.
  - set_solver.
  - intros m0 [->|Hin]%elem_of_cons; [apply S2, A1; set_solver|by apply A2].
  - intros s Hs Hns. destruct (decide (s ∈ seen1)) as [Hs1|Hs1].
    + destruct (N1 s Hs1 Hns) as (m0 & m' & Hm0 & Hw & E & Hr & Hmk & Hf).
      exists m0, m'. split_and!; try done; [set_solver|destruct Hmk; auto|].
      intros m'' Hfm. by apply S2, Hf.
    + destruct (N2 s Hs Hs1) as (m0 & m' & Hm0 & Hw & E & Hr & Hmk & Hf).
      exists m0, m'. split_and!; try done; [set_solver|by apply (reach_same _ _ _ _ R1)| |].
      * destruct Hmk as [?|[? (e & He & Hab)]]; [by left|right]. split; [done|].
        exists e. split; [done|]. destruct R1 as [Rg Rs]. by rewrite <-Rg, <-Rs.
      * intros m'' Hfm. apply Hf. by apply (follows_same _ _ _ _ R1).
Qed.

Context (Hvisit : visitor).

(** a leaf, or a block that is not there: nothing to follow *)
Lemma walked_leaf m seen t t' :
  wf_mid m -> same_reads t t' -> (forall m', marked m' t -> marked m' t') ->
  (marked m t' \/ ignoreMissing = true /\ absent t m) ->
  (forall m', ¬ follows t m m') -> walked [m] seen ({[String m]} ∪ seen) t t'.
Proof.
  intros Hm Hr Hk Hmk Hno. split; [done|done|set_solver|set_solver|].
  intros s Hs Hns. exists m, m. assert (s = String m) as -> by set_solver.
  split_and!; try done; [set_solver|]. intros m'' Hf. by destruct (Hno m'').
Qed.
Lemma visitM_inv m leaf seen t seen' t' :
  visitM visit m leaf (seen, t) = (Ok tt, (seen', t')) ->
  seen' = seen /\ visit m leaf t = (Ok tt, t').
Proof. unfold visitM. destruct (visit m leaf t) as [r t1]. by intros [= -> <- <-]. Qed.

Lemma for_each_walked (f : MID -> M (gset bytes * T) unit) ms seen t seen' t' :
  (forall m seen t seen' t', m ∈ ms -> f m (seen, t) = (Ok tt, (seen', t')) ->
     walked [m] seen seen' t t') ->
  for_each f ms (seen, t) = (Ok tt, (seen', t')) -> walked ms seen seen' t t'.
Proof.
  intros Hf. revert seen t. induction ms as [|m ms IH]; intros seen t; cbn [for_each].
  { intros [= <- <-]. apply walked_nil. }
  intros ([] & [seen1 t1] & E1 & E2)%M_bind_inv.
  eapply walked_cons; [apply Hf; [set_solver|done]|].
  apply IH; [|done]. intros. apply Hf; [set_solver|done].
Qed.

Lemma walk_walked fuel m seen t seen' t' :
  wf_mid m -> walk get getSize ignoreMissing visit fuel m (seen, t) = (Ok tt, (seen', t')) ->
  walked [m] seen seen' t t'.
Proof using All.
  revert m seen t seen' t'. induction fuel as [|fuel IH]; intros m seen t seen' t' Hm; [done|].
  cbn [walk]. destruct (decide (String m ∈ seen)) as [Hin|Hnin].
  { intros [= <- <-]. split; [done|done|done|set_solver|done]. }
  fold (size_of m t). destruct (size_of m t) as [size|e] eqn:Es.
  2:{ destruct (ignoreMissing && is_missing e) eqn:Ei; [|done]. intros [= <- <-].
      apply andb_true_iff in Ei as [? ?]. apply walked_leaf; try done.
      - right. split; [done|]. exists e. auto.
      - intros m' (? & ? & E & _). congruence. }
  fold (bigRaw m size). destruct (bigRaw m size) eqn:Eb.
  { intros [-> Hv]%visitM_inv. apply walked_leaf; [done|by eapply vs_reads|by intros; eapply vs_keeps|left; by eapply vs_marks|].
    intros m' (sz & ? & E & Eb' & _). congruence. }
  destruct (get m t) as [data|e] eqn:Eg.
  2:{ destruct (ignoreMissing && is_missing e) eqn:Ei; [|done]. intros [= <- <-].
      apply andb_true_iff in Ei as [? ?]. apply walked_leaf; try done.
      - right. split; [done|]. exists e. auto.
      - intros m' (? & ? & _ & _ & E & _). congruence. }
  fold (bigRaw m (zlen data)). destruct (bigRaw m (zlen data)) eqn:Eb2.
  { intros [-> Hv]%visitM_inv. apply walked_leaf; [done|by eapply vs_reads|by intros; eapply vs_keeps|left; by eapply vs_marks|].
    intros m' (sz & d & _ & _ & E & Eb' & _). congruence. }
  destruct (children m data) as [isInternal kids] eqn:Ek. destruct isInternal.
  2:{ intros [-> Hv]%visitM_inv. apply walked_leaf; [done|by eapply vs_reads|by intros; eapply vs_keeps|left; by eapply vs_marks|].
      intros m' (sz & d & _ & _ & E & _ & Ec & _). rewrite Eg in E. injection E as <-.
      by rewrite Ek in Ec. }
  intros ([] & [seen1 t1] & E1 & E2)%M_bind_inv. apply visitM_inv in E1 as [-> Hv].
  assert (forall m', follows t m m' <-> m' ∈ kids) as Hkids.
  { intros m'. split.
    - intros (? & d & _ & _ & E & _ & _ & Hin). rewrite Eg in E. injection E as <-. by rewrite Ek in Hin.
    - intros Hin. exists size, data. rewrite Ek. split_and!; done. }
  assert (walked kids ({[String m]} ∪ seen) seen' t1 t') as [R K Sb A N].
  { eapply for_each_walked; [|done]. intros k sn tk sn' tk' Hin Ewk. eapply IH; [|done].
    by eapply follows_wf, Hkids. }
  pose proof (vs_reads Hvisit _ _ _ _ _ Hv) as Rv. split.
  - by etrans.
  - intros. by eapply K, (vs_keeps Hvisit).
  - set_solver.
  - set_solver.
  - intros s Hs Hns. destruct (decide (s = String m)) as [->|Hne].
    + exists m, m. split_and!; try done; [set_solver|left; by eapply K, (vs_marks Hvisit)|].
      intros m'' Hf. apply A. by apply Hkids.
    + destruct (N s Hs ltac:(set_solver)) as (k & m' & Hk & Hw & E & Hr & Hmk & Hf).
      exists m, m'. split_and!; try done; [set_solver| | |].
      * eapply rtc_l; [by apply Hkids|]. by apply (reach_same _ _ _ _ Rv).
      * destruct Hmk as [?|[? (e & He & Hab)]]; [by left|right]. split; [done|].
        exists e. split; [done|]. destruct Rv as [Rg Rs]. by rewrite <-Rg, <-Rs.
      * intros m'' Hfm. apply Hf. by apply (follows_same _ _ _ _ Rv).
Qed.

(** A successful walk has marked everything reachable from the root. *)
Lemma WalkOptions_closed fuel root t t' :
  wf_mid root -> WalkOptions get getSize ignoreMissing visit fuel root t = (Ok tt, t') ->
  same_reads t t' /\ (forall m, marked m t -> marked m t') /\
  forall m, rtc (follows t) root m -> marked m t' \/ ignoreMissing = true /\ absent t m.
Proof using All.
  intros Hm. unfold WalkOptions. rewrite wf_not_zero by done.
  destruct (walk _ _ _ _ fuel root (∅, t)) as [r [seen t1]] eqn:E. intros [= -> <-].
  apply walk_walked in E as [R K _ A N]; [|done]. split_and!; [done|done|].
  intros m Hr. assert (String m ∈ seen /\ wf_mid m) as [Hin Hw].
  { revert m Hr. apply rtc_ind_r; [split; [set_solver|done]|].
    intros m1 m2 _ Hf [Hin Hw]. destruct (N _ Hin ltac:(set_solver)) as (k & m' & _ & Hw' & E & _ & _ & Hcl).
    apply String_inj in E as <-; [|done..]. split; [by apply Hcl|by eapply follows_wf]. }
  destruct (N _ Hin ltac:(set_solver)) as (k & m' & _ & Hw' & E & _ & Hmk & _).
  by apply String_inj in E as <-.
Qed.

(** Termination: within a finite set of blocks closed under [follows], fuel for one
    level per block is enough. *)
Context (visit_fuel : forall m leaf t, (visit m leaf t).1 ≠ Err OutOfFuel).
Context (U : gset bytes).
Definition closed_under (t : T) : Prop := forall m m', String m ∈ U -> wf_mid m ->
  follows t m m' -> String m' ∈ U.

Lemma for_each_fuel (f : MID -> M (gset bytes * T) unit) ms seen t n :
  closed_under t -> (size (U ∖ seen) < n)%nat ->
  (forall m, m ∈ ms -> String m ∈ U /\ wf_mid m) ->
  (forall m seen t, closed_under t -> (size (U ∖ seen) < n)%nat -> String m ∈ U -> wf_mid m ->
     (f m (seen, t)).1 ≠ Err OutOfFuel) ->
  (forall m seen t seen' t', wf_mid m -> f m (seen, t) = (Ok tt, (seen', t')) ->
     walked [m] seen seen' t t') ->
  (for_each f ms (seen, t)).1 ≠ Err OutOfFuel.
Proof.
  intros Hcl Hn Hms Hf Hw. revert seen t Hcl Hn. induction ms as [|m ms IH]; intros seen t Hcl Hn; [done|].
  cbn [for_each]. destruct (Hms m) as [HmU Hm]; [set_solver|]. unfold mbind, M_bind.
  specialize (Hf m seen t Hcl Hn HmU Hm). destruct (f m (seen, t)) as [[[]|e] [seen1 t1]] eqn:E; [|done].
  apply Hw in E as [R _ Hs _ _]; [|done]. apply IH.
  - intros. apply Hms. set_solver.
  - intros m1 m2 ? ? Hfo. eapply Hcl; [done..|]. by apply (follows_same _ _ _ _ R).
  - eapply Nat.le_lt_trans; [|exact Hn]. apply subseteq_size. set_solver.
Qed.
Lemma walk_fuel fuel m seen t :
  closed_under t -> (size (U ∖ seen) < fuel)%nat -> String m ∈ U -> wf_mid m ->
  (walk get getSize ignoreMissing visit fuel m (seen, t)).1 ≠ Err OutOfFuel.
Proof using All.
  revert m seen t. induction fuel as [|fuel IH]; intros m seen t Hcl Hf HU Hm; [lia|].
  cbn [walk]. destruct (decide (String m ∈ seen)); [done|].
  fold (size_of m t). destruct (size_of m t) as [size|e] eqn:Es; [|by destruct (_ && _)].
  assert (forall leaf, (visitM visit m leaf ({[String m]} ∪ seen, t)).1 ≠ Err OutOfFuel) as Hv.
  { intros leaf. unfold visitM. specialize (visit_fuel m leaf t). by destruct (visit m leaf t). }
  fold (bigRaw m size). destruct (bigRaw m size) eqn:Eb; [apply Hv|].
  destruct (get m t) as [data|e] eqn:Eg; [|by destruct (_ && _)].
  fold (bigRaw m (zlen data)). destruct (bigRaw m (zlen data)) eqn:Eb2; [apply Hv|].
  destruct (children m data) as [isInternal kids] eqn:Ek. destruct isInternal; [|apply Hv].
  unfold mbind, M_bind. specialize (Hv false).
  destruct (visitM visit m false _) as [[[]|e] [seen1 t1]] eqn:Ev; [|done].
  apply visitM_inv in Ev as [-> Ev]. pose proof (vs_reads Hvisit _ _ _ _ _ Ev) as R.
  assert (forall k, k ∈ kids -> follows t m k) as Hk.
  { intros k Hk. exists size, data. rewrite Ek. done. }
  apply for_each_fuel with (n := fuel).
  - intros m1 m2 ? ? Hfo. eapply Hcl; [done..|]. by apply (follows_same _ _ _ _ R).
  - assert (U ∖ ({[String m]} ∪ seen) ⊂ U ∖ seen) as Hlt by set_solver.
    apply subset_size in Hlt. lia.
  - intros k Hk'. split; [|by eapply follows_wf, Hk]. eapply Hcl; [done..|by apply Hk].
  - intros. by apply IH.
  - intros. by eapply walk_walked.
Qed.
Lemma WalkOptions_fuel fuel root t :
  closed_under t -> (size U < fuel)%nat -> String root ∈ U -> wf_mid root ->
  (WalkOptions get getSize ignoreMissing visit fuel root t).1 ≠ Err OutOfFuel.
Proof using All.
  intros Hcl Hf HU Hm. unfold WalkOptions. rewrite wf_not_zero by done.
  pose proof (walk_fuel fuel root ∅ t Hcl) as Hw. rewrite difference_empty_L in Hw.
  specialize (Hw Hf HU Hm). by destruct (walk _ _ _ _ fuel root (∅, t)) as [r [seen t']].
Qed.
End walk_facts.

(** Whatever its outcome, a walk changes its state only through the callback. *)
Section walk_preserves.
Context `{Multiformats, Protos} {T : Type}.
Context (get : MID -> T -> result bytes) (getSize : option (MID -> T -> result Z)).
Context (ignoreMissing : bool) (visit : MID -> bool -> M T unit).
Context (R : T -> T -> Prop) `{!PreOrder R}.
Hypothesis visit_R : forall m leaf t, R t (visit m leaf t).2.

Lemma walk_preserves fuel m seen t :
  R t (walk get getSize ignoreMissing visit fuel m (seen, t)).2.2.
Proof using All.
  assert (forall m leaf seen t, R t (visitM visit m leaf (seen, t)).2.2) as Hv.
  { intros m' leaf seen' t'. specialize (visit_R m' leaf t'). unfold visitM.
    by destruct (visit m' leaf t'). }
  revert m seen t. induction fuel as [|fuel IH]; intros m seen t; [reflexivity|].
  cbn [walk]. destruct (decide _); [reflexivity|].
  destruct (match getSize with Some gs => _ | None => _ end); [|destruct (_ && _); reflexivity].
  destruct (_ && _); [apply Hv|]. destruct (get m t) as [data|]; [|destruct (_ && _); reflexivity].
  destruct (_ && _); [apply Hv|]. destruct (children m data) as [[] kids]; [|apply Hv].
  unfold mbind, M_bind. specialize (Hv m false ({[String m]} ∪ seen) t).
  destruct (visitM visit m false _) as [[[]|e] [sn t1]]; [|done]. simpl in Hv.
  etrans; [exact Hv|]. clear Hv. revert sn t1. induction kids as [|k kids IHk]; intros sn t1; [reflexivity|].
  cbn [for_each]. unfold mbind, M_bind. specialize (IH k sn t1).
  destruct (walk _ _ _ _ fuel k (sn, t1)) as [[[]|e] [sn2 t2]]; [|done]. simpl in IH.
  etrans; [exact IH|]. apply IHk.
Qed.
Lemma WalkOptions_preserves fuel root t :
  R t (WalkOptions get getSize ignoreMissing visit fuel root t).2.
Proof using All.
  unfold WalkOptions. destruct (IsZero root); [reflexivity|].
  pose proof (walk_preserves fuel root ∅ t) as HR.
  by destruct (walk _ _ _ _ fuel root (∅, t)) as [r [seen t']].
Qed.
End walk_preserves.

(** A walk visits only what the root reaches: a property [Q] of MIDs that [follows]
    preserves holds of every visited one. *)
Section walk_visits.
Context `{Multiformats, Protos} {T : Type}.
Context (get : MID -> T -> result bytes) (getSize : option (MID -> T -> result Z)).
Context (ignoreMissing : bool) (visit : MID -> bool -> M T unit).
Context (Q : MID -> Prop) (P : T -> Prop).
Hypothesis Q_follows : forall t m m', Q m -> follows get getSize t m m' -> Q m'.
Hypothesis P_visit : forall m leaf t, Q m -> P t -> P (visit m leaf t).2.

Lemma walk_visits fuel m seen t :
  Q m -> P t -> P (walk get getSize ignoreMissing visit fuel m (seen, t)).2.2.
Proof using All.
  assert (forall m leaf seen t, Q m -> P t -> P (visitM visit m leaf (seen, t)).2.2) as Hv.
  { intros m' leaf seen' t' HQ HP. specialize (P_visit m' leaf t' HQ HP). unfold visitM.
    by destruct (visit m' leaf t'). }
  revert m seen t. induction fuel as [|fuel IH]; intros m seen t HQ HP; [done|].
  cbn [walk]. destruct (decide _); [done|].
  fold (size_of getSize m t). destruct (size_of getSize m t) as [size|] eqn:Es; [|by destruct (_ && _)].
  fold (bigRaw m size). destruct (bigRaw m size) eqn:Eb; [by apply Hv|].
  destruct (get m t) as [data|] eqn:Eg; [|by destruct (_ && _)].
  fold (bigRaw m (zlen data)). destruct (bigRaw m (zlen data)) eqn:Eb2; [by apply Hv|].
  destruct (children m data) as [[] kids] eqn:Ek; [|by apply Hv].
  assert (forall k, k ∈ kids -> Q k) as Hkids.
  { intros k Hk. apply (Q_follows t m); [done|]. exists size, data. rewrite Ek. done. }
  unfold mbind, M_bind. specialize (Hv m false ({[String m]} ∪ seen) t HQ HP).
  destruct (visitM visit m false _) as [[[]|e] [sn t1]]; [|done]. simpl in Hv. clear -Hv IH Hkids.
  revert sn t1 Hv. induction kids as [|k kids IHk]; intros sn t1 Hv; [done|].
  cbn [for_each]. unfold mbind, M_bind. specialize (IH k sn t1 (Hkids k ltac:(set_solver)) Hv).
  destruct (walk _ _ _ _ fuel k (sn, t1)) as [[[]|e] [sn2 t2]]; [|done].
  apply IHk; [|done]. intros. apply Hkids. set_solver.
Qed.
Lemma WalkOptions_visits fuel root t :
  Q root -> P t -> P (WalkOptions get getSize ignoreMissing visit fuel root t).2.
Proof using All.
  intros HQ HP. unfold WalkOptions. destruct (IsZero root); [done|].
  pose proof (walk_visits fuel root ∅ t HQ HP) as HR.
  by destruct (walk _ _ _ _ fuel root (∅, t)) as [r [seen t']].
Qed.
End walk_visits.

(** The outcome of a walk whose reads do not depend on the threaded state, and whose
    callback never fails, does not depend on either. *)
Section walk_oblivious.
Context `{Multiformats, Protos} {T1 T2 : Type}.
Context (get1 : MID -> T1 -> result bytes) (size1 : option (MID -> T1 -> result Z)) (v1 : MID -> bool -> M T1 unit).
Context (get2 : MID -> T2 -> result bytes) (size2 : option (MID -> T2 -> result Z)) (v2 : MID -> bool -> M T2 unit).
Context (ignoreMissing : bool).
Hypothesis get_same : forall m t1 t2, get1 m t1 = get2 m t2.
Hypothesis size_same : forall m t1 t2, size_of size1 m t1 = size_of size2 m t2.
Hypothesis v1_ok : forall m leaf t, (v1 m leaf t).1 = Ok tt.
Hypothesis v2_ok : forall m leaf t, (v2 m leaf t).1 = Ok tt.

Definition same_outcome (x : result unit * (gset bytes * T1)) (y : result unit * (gset bytes * T2)) : Prop :=
  x.1 = y.1 /\ x.2.1 = y.2.1.
Lemma visitM_oblivious m leaf seen t1 t2 :
  same_outcome (visitM v1 m leaf (seen, t1)) (visitM v2 m leaf (seen, t2)).
Proof using v1_ok v2_ok.
  unfold visitM. specialize (v1_ok m leaf t1). specialize (v2_ok m leaf t2).
  destruct (v1 m leaf t1), (v2 m leaf t2). simpl in *. by subst.
Qed.
Lemma walk_oblivious fuel m seen t1 t2 :
  same_outcome (walk get1 size1 ignoreMissing v1 fuel m (seen, t1))
               (walk get2 size2 ignoreMissing v2 fuel m (seen, t2)).
Proof using All.
  revert m seen t1 t2. induction fuel as [|fuel IH]; intros m seen t1 t2; [done|].
  cbn [walk]. destruct (decide _); [done|].
  fold (size_of size1 m t1) (size_of size2 m t2). rewrite <-(size_same m t1 t2).
  destruct (size_of size1 m t1); [|by destruct (_ && _)].
  destruct (_ && _); [apply visitM_oblivious|]. rewrite <-(get_same m t1 t2).
  destruct (get1 m t1) as [data|]; [|by destruct (_ && _)].
  destruct (_ && _); [apply visitM_oblivious|].
  destruct (children m data) as [[] kids]; [|apply visitM_oblivious].
  unfold mbind, M_bind.
  destruct (visitM_oblivious m false ({[String m]} ∪ seen) t1 t2) as [Er Es].
  destruct (visitM v1 m false _) as [r1 [sn1 u1]], (visitM v2 m false _) as [r2 [sn2 u2]].
  simpl in Er, Es. subst r2 sn2. destruct r1 as [[]|]; [|done]. clear -IH.
  revert sn1 u1 u2. induction kids as [|k kids IHk]; intros sn u1 u2; [done|].
  cbn [for_each]. unfold mbind, M_bind. destruct (IH k sn u1 u2) as [Er Es].
  destruct (walk get1 _ _ _ fuel k (sn, u1)) as [r1 [sn1 w1]], (walk get2 _ _ _ fuel k (sn, u2)) as [r2 [sn2 w2]].
  simpl in Er, Es. subst r2 sn2. destruct r1 as [[]|]; [|done]. apply IHk.
Qed.
Lemma WalkOptions_oblivious fuel root t1 t2 :
  (WalkOptions get1 size1 ignoreMissing v1 fuel root t1).1 =
  (WalkOptions get2 size2 ignoreMissing v2 fuel root t2).1.
Proof using All.
  unfold WalkOptions. destruct (IsZero root); [done|].
  destruct (walk_oblivious fuel root ∅ t1 t2) as [Er _].
  by destruct (walk get1 _ _ _ fuel root (∅, t1)) as [r1 [sn1 w1]], (walk get2 _ _ _ fuel root (∅, t2)) as [r2 [sn2 w2]].
Qed.
End walk_oblivious.
