(* ===== verification/Objects.v ===== *)
(** * Object descriptors (src/core/store/objectinfo.go)

    [ObjectInfo] is the small JSON record kept per sealed MID; [SetObjectInfo] and
    [GetObjectInfo] store it through any store with metadata ([MetaStore]), and
    [SniffMime] is the table from file name extensions to content types. *)
From S2P Require Import Prelude Mid Wire Blockstore.

Record ObjectInfo := mkObjectInfo {
  oi_Name : bytes;
  oi_MimeType : bytes;
  oi_Size : Z;
  oi_IsRoot : bool;
}.
#[export] Instance ObjectInfo_eq_dec : EqDecision ObjectInfo.
Proof. solve_decision. Defined.

(** encoding/json on this type *)
Class ObjectJSON := {
  json_Marshal : ObjectInfo -> result bytes;
  json_Unmarshal : bytes -> result ObjectInfo;
}.
Class ObjectJSONLaws `{ObjectJSON} : Prop :=
  json_roundtrip i buf : json_Marshal i = Ok buf -> json_Unmarshal buf = Ok i.

(** the metadata side of a block store *)
Class MetaStore (St : Type) := {
  st_PutMeta : bytes -> bytes -> M St unit;
  st_GetMeta : bytes -> St -> result bytes;
}.
(** a successful [PutMeta] is what [GetMeta] reads, and other keys are not touched *)
Class MetaStoreLaws (St : Type) `{MetaStore St} (inv : St -> Prop) : Prop := {
  meta_put k v s s' : inv s -> st_PutMeta k v s = (Ok tt, s') ->
    inv s' /\ st_GetMeta k s' = Ok v /\ forall k', k' ≠ k -> st_GetMeta k' s' = st_GetMeta k' s;
}.

Section objects.
Context `{Multiformats, ObjectJSON} {St : Type} `{MetaStore St}.

Definition objectInfoKey (m : MID) : bytes := lit "obj/" ++ String m.
Definition zeroInfo : ObjectInfo := mkObjectInfo [] [] 0 false.

(** nothing is written for an info without name and type *)
Definition SetObjectInfo (m : MID) (info : ObjectInfo) : M St unit := λ s,
  if IsZero m then (Err (New "store: zero mid"), s) else
  if bool_decide (oi_Name info = []) && bool_decide (oi_MimeType info = []) then (Ok tt, s) else
  match json_Marshal info with
  | Err e => (Err e, s)
  | Ok buf => st_PutMeta (objectInfoKey m) buf s
  end.
Definition GetObjectInfo (m : MID) (s : St) : result ObjectInfo :=
  if IsZero m then Err (New "store: zero mid") else
  match st_GetMeta (objectInfoKey m) s with
  | Err e => if errors_is e ErrNotFound then Ok zeroInfo else Err e
  | Ok raw => match json_Unmarshal raw with Ok info => Ok info | Err _ => Ok zeroInfo end
  end.
End objects.

(** ** Content types *)
(** [strings.ToLower], on the ASCII letters and on the two other letters whose lower case
    is ASCII (the Kelvin sign and the dotted capital I): a name that differs elsewhere
    has no extension of the table. *)
Definition lower_ascii (b : byte) : byte :=
  if (65 <=? b2z b) && (b2z b <=? 90) then z2b (b2z b + 32) else b.
Fixpoint ToLower (s : bytes) : bytes :=
  match s with
  | Byte.xe2 :: Byte.x84 :: Byte.xaa :: s => Byte.x6b :: ToLower s
  | Byte.xc4 :: Byte.xb0 :: s => Byte.x69 :: ToLower s
  | b :: s => lower_ascii b :: ToLower s
  | [] => []
  end.
(** the text from the last dot on, if there is one *)
Fixpoint from_last_dot (s : bytes) : option bytes :=
  match s with
  | [] => None
  | b :: s' =>
      match from_last_dot s' with
      | Some e => Some e
      | None => if bool_decide (b = Byte.x2e) then Some s else None
      end
  end.
Definition mime_table : list (string * string) := [
  (".html", "text/html; charset=utf-8"); (".htm", "text/html; charset=utf-8");
  (".css", "text/css; charset=utf-8");
  (".js", "application/javascript; charset=utf-8"); (".mjs", "application/javascript; charset=utf-8");
  (".json", "application/json; charset=utf-8");
  (".txt", "text/plain; charset=utf-8"); (".log", "text/plain; charset=utf-8");
  (".md", "text/plain; charset=utf-8");
  (".svg", "image/svg+xml"); (".png", "image/png"); (".jpg", "image/jpeg"); (".jpeg", "image/jpeg");
  (".gif", "image/gif"); (".webp", "image/webp"); (".pdf", "application/pdf");
  (".zip", "application/zip"); (".tar", "application/x-tar"); (".gz", "application/gzip");
  (".mp3", "audio/mpeg"); (".mp4", "video/mp4"); (".webm", "video/webm")
]%string.
Definition octets : bytes := lit "application/octet-stream".
Definition SniffMime (name : bytes) : bytes :=
  if bool_decide (name = []) then octets else
  let ext := default [] (from_last_dot (ToLower name)) in
  match list_find (λ e : string * string, lit e.1 = ext) mime_table with
  | Some (_, (_, t)) => lit t
  | None => octets
  end.

Example SniffMime_upper : SniffMime (lit "Report.Final.PDF") = lit "application/pdf".
Proof. reflexivity. Qed.
Example SniffMime_none : SniffMime (lit "Makefile") = octets.
Proof. reflexivity. Qed.

(** ** Properties *)
Section facts.
Context `{Multiformats} `{!MultiformatsLaws} `{ObjectJSON} `{!ObjectJSONLaws}.
Context {St : Type} (inv : St -> Prop) `{MetaStoreLaws St inv}.

(** an object descriptor that was stored is read back unchanged, over any store whose
    metadata follows its contract; descriptors of other objects are not touched, and
    one without name and type is not written at all. *)
Theorem ObjectInfo_roundtrip m info s s' :
  inv s -> wf_mid m -> SetObjectInfo m info s = (Ok tt, s') ->
  inv s' /\
  (oi_Name info ≠ [] \/ oi_MimeType info ≠ [] -> GetObjectInfo m s' = Ok info) /\
  (oi_Name info = [] -> oi_MimeType info = [] -> s' = s) /\
  (forall m', wf_mid m' -> m' ≠ m -> GetObjectInfo m' s' = GetObjectInfo m' s).
Proof.
  intros Hs Hm. unfold SetObjectInfo. rewrite wf_not_zero by done.
  do 2 case_bool_decide; cbn [andb].
  { intros [= <-]. split_and!; [done|naive_solver|done|done]. }
  all: destruct (json_Marshal info) as [buf|] eqn:Ej; [|done];
    intros (Hs' & Hg & Ho)%meta_put; [|done]; (split_and!; [done| |done|]).
  1,3,5: intros _; unfold GetObjectInfo; rewrite wf_not_zero, Hg by done; by rewrite (json_roundtrip _ _ Ej).
  all: intros m' Hm' Hne; unfold GetObjectInfo; rewrite wf_not_zero by done;
    rewrite Ho; [done|]; intros E%(inj (app (lit "obj/"))); apply Hne; by apply String_inj.
Qed.
End facts.

(** ** Instances *)
#[local] Instance ObjectInfo_countable : Countable ObjectInfo.
Proof.
  refine (inj_countable' (λ n, (oi_Name n, oi_MimeType n, oi_Size n, oi_IsRoot n))
    (λ '(a, b, c, d), mkObjectInfo a b c d) _). by intros [].
Defined.
Instance toy_json : ObjectJSON := {|
  json_Marshal i := Ok (ToyWire.pos_bytes (encode i));
  json_Unmarshal bs :=
    match ToyWire.bytes_pos bs ≫= decode with Some i => Ok i | None => Err (New "json") end;
|}.
Instance toy_json_laws : ObjectJSONLaws.
Proof.
  intros i buf [= <-]. cbn [json_Unmarshal toy_json]. rewrite ToyWire.bytes_pos_bytes.
  cbn [mbind option_bind]. by rewrite decode_encode.
Qed.
(** a plain map is a metadata store *)
Instance map_meta : MetaStore (gmap bytes bytes) := {|
  st_PutMeta k v s := (Ok tt, <[k := v]> s);
  st_GetMeta k s := match s !! k with Some v => Ok v | None => Err ErrNotFound end;
|}.
Instance map_meta_laws : MetaStoreLaws (gmap bytes bytes) (λ _, True).
Proof.
  split. intros k v s s' _ [= <-]. split; [done|]. cbn [st_GetMeta map_meta].
  split; [by rewrite lookup_insert_eq|]. intros k' Hne. by rewrite lookup_insert_ne.
Qed.
Lemma ObjectInfo_roundtrip_witness :
  exists s', SetObjectInfo (toy_mid CodecRaw (lit "a")) (mkObjectInfo (lit "a.txt") [] 3 true) (∅ : gmap bytes bytes) = (Ok tt, s') /\
    GetObjectInfo (toy_mid CodecRaw (lit "a")) s' = Ok (mkObjectInfo (lit "a.txt") [] 3 true).
Proof.
  eexists. split; [reflexivity|].
  apply (ObjectInfo_roundtrip (λ _, True) (toy_mid CodecRaw (lit "a")) (mkObjectInfo (lit "a.txt") [] 3 true) (∅ : gmap bytes bytes) _);
    [exact I|apply toy_raw_wf|reflexivity|]. left. discriminate.
Defined.
