(* ===== verification/Memstore.v ===== *)
(** * The in-memory block store (src/core/store/store.go: [Memstore])

    The state is the struct (blocks and seals keyed by the MID string, the running
    byte count, the metadata); one definition per method.  [mem_ok] is the invariant:
    every block is what its key names and [sizeVal] is the total size; [Memstore]
    implements the [Blockstore] contract. *)
From S2P Require Import Prelude Mid Wire Blockstore Objects.

Record Memstore := mkMemstore {
  blocks : gmap bytes bytes;
  sizeVal : Z;
  meta : gmap bytes bytes;
  seals : gmap bytes bool;
}.
Definition NewMemstore : Memstore := mkMemstore ∅ 0 ∅ ∅.
Definition set_blocks (b : gmap bytes bytes) (sz : Z) (s : Memstore) : Memstore :=
  mkMemstore b sz (meta s) (seals s).
Definition set_meta (mt : gmap bytes bytes) (s : Memstore) : Memstore :=
  mkMemstore (blocks s) (sizeVal s) mt (seals s).
Definition set_seals (sl : gmap bytes bool) (s : Memstore) : Memstore :=
  mkMemstore (blocks s) (sizeVal s) (meta s) sl.

(** the [sizeVal] update around a write or a delete of [k] *)
Definition size_without (s : Memstore) (k : bytes) : Z :=
  match blocks s !! k with
  | Some old => u64 (sizeVal s - u64 (zlen old))
  | None => sizeVal s
  end.

Section ops.
Context `{Multiformats, Protos} (alg : Z).

Definition mem_Put (m : MID) (data : bytes) : M Memstore unit := λ s,
  match verifyContent alg m data with
  | Err e => (Err e, s)
  | Ok _ =>
      (Ok tt, set_blocks (<[String m := data]> (blocks s))
                         (u64 (size_without s (String m) + u64 (zlen data))) s)
  end.
Definition mem_PutBatch (bs : list SBlock) : M Memstore unit :=
  for_each (λ b, mem_Put (sb_MID b) (sb_Data b)) bs.
Definition mem_Get (m : MID) (s : Memstore) : result bytes :=
  match blocks s !! String m with Some b => Ok b | None => Err ErrNotFound end.
Definition mem_Has (m : MID) (s : Memstore) : result bool :=
  Ok (bool_decide (is_Some (blocks s !! String m))).
Definition mem_GetSize (m : MID) (s : Memstore) : result Z :=
  match blocks s !! String m with Some b => Ok (i64 (zlen b)) | None => Err ErrNotFound end.
Definition mem_Delete (m : MID) : M Memstore unit := λ s,
  (Ok tt, set_blocks (delete (String m) (blocks s)) (size_without s (String m)) s).

(** the iterations hand the callback every key that parses; the order of a Go map
    is unspecified, here it is the one of [map_to_list] *)
Definition mem_AllBlocks (s : Memstore) : list MID :=
  rights (map (λ kv, Parse kv.1) (map_to_list (blocks s))).
Definition mem_IterateBlocks {T} (fn : MID -> M T unit) (s : Memstore) : M T unit :=
  for_each fn (mem_AllBlocks s).
Definition mem_AllSealed (s : Memstore) : list MID :=
  rights (map (λ kv, Parse kv.1) (filter (λ kv, kv.2 = false) (map_to_list (seals s)))).
Definition mem_IterateSealed {T} (fn : MID -> M T unit) (s : Memstore) : M T unit :=
  for_each fn (mem_AllSealed s).

Definition mem_PutMeta (key value : bytes) : M Memstore unit := λ s,
  (Ok tt, set_meta (<[key := value]> (meta s)) s).
Definition mem_GetMeta (key : bytes) (s : Memstore) : result bytes :=
  match meta s !! key with Some v => Ok v | None => Err ErrNotFound end.
Definition mem_Size (s : Memstore) : result Z := Ok (sizeVal s).
Definition mem_Len (s : Memstore) : Z := Z.of_nat (size (blocks s)).
(** [DropAll] replaces the three maps and leaves [sizeVal] *)
Definition mem_DropAll : M Memstore unit := λ s, (Ok tt, mkMemstore ∅ (sizeVal s) ∅ ∅).

(** the callbacks of [Seal] and [Unseal]; the error of the walk is dropped *)
Definition seal_visit (root m : MID) (leaf : bool) : M Memstore unit := λ s,
  if Equal m root then (Ok tt, s)
  else if Codec m =? CodecMemFS then (Ok tt, set_seals (<[String m := true]> (seals s)) s)
  else (Ok tt, s).
Definition unseal_visit (m : MID) (leaf : bool) : M Memstore unit := λ s,
  if Codec m =? CodecMemFS then (Ok tt, set_seals (delete (String m) (seals s)) s)
  else (Ok tt, s).
Definition mem_Seal (fuel : nat) (root : MID) (recursive : bool) : M Memstore unit := λ s,
  let s := set_seals (<[String root := false]> (seals s)) s in
  if negb recursive then (Ok tt, s) else
  (Ok tt, (Walk mem_Get (Some mem_GetSize) (seal_visit root) fuel root s).2).
Definition mem_Unseal (fuel : nat) (root : MID) : M Memstore unit := λ s,
  let s := set_seals (delete (String root) (seals s)) s in
  (Ok tt, (Walk mem_Get (Some mem_GetSize) unseal_visit fuel root s).2).
Definition mem_IsSealed (root : MID) (s : Memstore) : result bool :=
  Ok (bool_decide (is_Some (seals s !! String root))).
Definition mem_GC : M Memstore Z := mret 0.

(** the children [DeleteRecursive] follows: neither descriptors nor the single
    inline block are special here *)
Definition delete_children (m : MID) (data : bytes) : list MID :=
  if Codec m =? CodecMemFS then
    match unmarshal (A := MemFSNode) data with
    | Ok node =>
        if mn_Type node =? MemFSType_FILE then mn_Blocks node ≫= block_child
        else if mn_Type node =? MemFSType_DIR then mn_Entries node ≫= entry_child
        else []
    | Err _ => []
    end
  else
    match unmarshal (A := DAGNode) data with
    | Ok node => rights (map Parse (dn_Links node))
    | Err _ => []
    end.
Fixpoint collect (fuel : nat) (bs : gmap bytes bytes) (m : MID) (reachable : gset bytes) : gset bytes :=
  match fuel with
  | O => reachable
  | S fuel =>
      if IsZero m then reachable else
      if decide (String m ∈ reachable) then reachable else
      match bs !! String m with
      | None => reachable
      | Some data =>
          foldl (λ acc k, collect fuel bs k acc) ({[String m]} ∪ reachable) (delete_children m data)
      end
  end.
(** the fuel: a level of the recursion collects a new key of [blocks] *)
Definition collected (root : MID) (s : Memstore) : gset bytes :=
  collect (S (size (blocks s))) (blocks s) root ∅.

Definition mem_DeleteRecursive (fuel : nat) (root : MID) : M Memstore (Z * Z) := λ s,
  if IsZero root then (Err (New "store: zero MID"), s) else
  let '(_, s) := mem_Unseal fuel root s in
  let reachable := collected root s in
  let gone := filter (λ kv, kv.1 ∈ reachable) (blocks s) in
  let freed := u64 (sumZ (λ kv, zlen kv.2) (map_to_list gone)) in
  let meta' := filter (λ kv, forall ids, ids ∈ reachable ->
                  kv.1 ≠ lit "obj/" ++ ids /\ kv.1 ≠ lit "ts/" ++ ids) (meta s) in
  (Ok (Z.of_nat (size gone), freed),
   mkMemstore (filter (λ kv, kv.1 ∉ reachable) (blocks s)) (u64 (sizeVal s - freed)) meta' (seals s)).

Definition mem_AllObjectMIDs `{ObjectJSON} (s : Memstore) : list MID :=
  rights (omap (λ kv,
    if HasPrefix kv.1 (lit "obj/") then
      match json_Unmarshal kv.2 with
      | Ok info => if oi_IsRoot info then Some (Parse (drop 4 kv.1)) else None
      | Err _ => None
      end
    else None) (map_to_list (meta s))).

#[global] Instance mem_blockstore : Blockstore Memstore := {|
  bs_Put := mem_Put;
  bs_Get := mem_Get;
  bs_Has := mem_Has;
|}.
End ops.

(** ** Facts *)
Definition weigh (f : bytes -> Z) (b : gmap bytes bytes) : Z :=
  sumZ (λ kv, f kv.2) (map_to_list b).
Definition total : gmap bytes bytes -> Z := weigh zlen.

Lemma weigh_insert_new f b k d : b !! k = None -> weigh f (<[k := d]> b) = f d + weigh f b.
Proof. intros E. unfold weigh. by rewrite (sumZ_Permutation _ _ _ (map_to_list_insert b k d E)). Qed.
Lemma weigh_delete f b k d : b !! k = Some d -> weigh f b = f d + weigh f (delete k b).
Proof. intros E. unfold weigh. by rewrite <-(sumZ_Permutation _ _ _ (map_to_list_delete b k d E)). Qed.
Lemma weigh_partition f (P : bytes * bytes -> Prop) `{!forall x, Decision (P x)} b :
  weigh f (filter P b) + weigh f (filter (λ x, ¬ P x) b) = weigh f b.
Proof.
  induction b as [|k d b Hk IH] using map_ind; [done|].
  rewrite (weigh_insert_new f b k d Hk), <-IH.
  assert (forall (Q : bytes * bytes -> Prop) `{!forall x, Decision (Q x)}, filter Q b !! k = None) as HN
    by (intros; apply map_lookup_filter_None_2; by left).
  destruct (decide (P (k, d))) as [HP|HP].
  - rewrite map_filter_insert_True by done.
    rewrite (map_filter_insert_False (λ x, ¬ P x)), delete_id by (done || tauto).
    rewrite weigh_insert_new by apply HN. lia.
  - rewrite map_filter_insert_False, delete_id by done.
    rewrite (map_filter_insert_True (λ x, ¬ P x)) by done.
    rewrite weigh_insert_new by apply HN. lia.
Qed.
Lemma weigh_size b : weigh (λ _, 1) b = Z.of_nat (size b).
Proof.
  induction b as [|k d b Hk IH] using map_ind; [done|].
  rewrite weigh_insert_new, map_size_insert_None by done. lia.
Qed.

Lemma u64_sub_l a b : u64 (u64 a - b) = u64 (a - b).
Proof. unfold u64. by rewrite Zminus_mod_idemp_l. Qed.
Lemma u64_sub_r a b : u64 (a - u64 b) = u64 (a - b).
Proof. unfold u64. by rewrite Zminus_mod_idemp_r. Qed.
Lemma u64_add_r a b : u64 (a + u64 b) = u64 (a + b).
Proof. unfold u64. by rewrite Zplus_mod_idemp_r. Qed.
Lemma u64_add_l' a b : u64 (u64 a + b) = u64 (a + b).
Proof. unfold u64. by rewrite Zplus_mod_idemp_l. Qed.

Section facts.
Context `{Multiformats} `{!MultiformatsLaws} `{Protos}.
Context (alg : Z) (Halg : isSupportedHash alg = true).

Record mem_ok (s : Memstore) : Prop := {
  mo_size : sizeVal s = u64 (total (blocks s));
  mo_names k d : blocks s !! k = Some d -> exists m, wf_mid m /\ k = String m /\ names alg m d;
}.

Lemma mem_ok_New : mem_ok NewMemstore.
Proof. by split. Qed.
Lemma size_without_ok s k : mem_ok s -> u64 (size_without s k) = u64 (total (delete k (blocks s))).
Proof.
  intros [Hs _]. unfold size_without. destruct (blocks s !! k) as [old|] eqn:E.
  - rewrite Hs. unfold total. rewrite (weigh_delete _ _ _ _ E), u64_sub_r, !u64_sub_l. unfold u64 at 1.
    unfold u64. rewrite Z.mod_mod by lia. f_equal. lia.
  - rewrite Hs, delete_id by done. unfold u64. by rewrite Z.mod_mod by lia.
Qed.

Lemma mem_Put_ok m d s r s' :
  mem_ok s -> wf_mid m -> mem_Put alg m d s = (r, s') ->
  mem_ok s' /\ (r = Ok tt /\ names alg m d /\ blocks s' = <[String m := d]> (blocks s) \/
                (exists e, r = Err e) /\ ¬ names alg m d /\ s' = s).
Proof using All.
  intros Hs Hm. unfold mem_Put. destruct (verifyContent alg m d) as [u|e] eqn:Ev.
  - apply verifyContent_ok_inv in Ev. intros [= <- <-]. split; [|by left]. split; simpl.
    + rewrite <-u64_add_l', size_without_ok, u64_add_l', u64_add_r by done. f_equal.
      unfold total. rewrite <-(insert_delete_eq (blocks s)), weigh_insert_new by apply lookup_delete_eq. lia.
    + intros k d'. destruct (decide (k = String m)) as [->|Hne].
      * rewrite lookup_insert_eq. intros [= <-]. by exists m.
      * rewrite lookup_insert_ne by done. apply Hs.
  - intros [= <- <-]. split; [done|]. right. split_and!; [by eexists| |done].
    intros Hn. apply verifyContent_names in Hn. by rewrite Hn in Ev.
Qed.
Lemma mem_Delete_ok m s r s' :
  mem_ok s -> mem_Delete m s = (r, s') -> mem_ok s' /\ blocks s' = delete (String m) (blocks s).
Proof using All.
  intros Hs [= <- <-]. split; [|done]. split; simpl.
  - assert (size_without s (String m) = u64 (size_without s (String m))) as ->.
    { unfold size_without. destruct Hs as [Hs _]. rewrite Hs.
      destruct (blocks s !! String m); unfold u64; rewrite Z.mod_mod; lia. }
    by apply size_without_ok.
  - intros k d [_ Hk]%lookup_delete_Some. by apply Hs.
Qed.

(** The in-memory store implements the blockstore contract. *)
#[global] Instance mem_laws `{!CollisionFree alg} :
  BlockstoreLaws Memstore (H0 := mem_blockstore alg) alg mem_ok.
Proof using All.
  split. intros m d s r s' Hs Hm E. cbn [bs_Put bs_Get mem_blockstore] in *.
  destruct (mem_Put_ok m d s r s' Hs Hm E) as [Hs' Hr]. split; [done|].
  destruct Hr as [(-> & Hn & Hb)|([e ->] & Hn & ->)]; [|done]. unfold mem_Get. split.
  - intros _. by rewrite Hb, lookup_insert_eq.
  - intros m' d' Hm' Hn'. rewrite Hb. destruct (decide (String m' = String m)) as [E'|Hne].
    + apply String_inj in E' as ->; [|done..]. rewrite lookup_insert_eq. intros _.
      by rewrite (names_unique alg Halg m d d' Hn Hn').
    + by rewrite lookup_insert_ne.
Qed.
#[global] Instance mem_total : BlockstoreTotal Memstore (H0 := mem_blockstore alg) alg mem_ok.
Proof using All.
  intros m d s Hs Hm Hn. cbn [bs_Put mem_blockstore]. unfold mem_Put.
  apply verifyContent_names in Hn. rewrite Hn. by eexists.
Qed.

(** *** Recursive deletion *)
Lemma delete_children_wf m d k : k ∈ delete_children m d -> wf_mid k.
Proof using All.
  unfold delete_children. destruct (Codec m =? CodecMemFS).
  - destruct (unmarshal d) as [node|]; simpl; [|set_solver].
    destruct (mn_Type node =? MemFSType_FILE).
    { intros (b & Hin & _)%list_elem_of_bind. by eapply block_child_wf. }
    destruct (mn_Type node =? MemFSType_DIR); [|set_solver].
    intros (e & Hin & _)%list_elem_of_bind. by eapply entry_child_wf.
  - destruct (unmarshal d) as [node|]; simpl; [|set_solver]. apply rights_Parse_wf.
Qed.

(** an edge of the graph of present blocks *)
Definition dedge (b : gmap bytes bytes) (m m' : MID) : Prop := exists d,
  b !! String m = Some d /\ m' ∈ delete_children m d /\ is_Some (b !! String m').

Record collects (b : gmap bytes bytes) (ms : list MID) (R R' : gset bytes) : Prop := {
  co_sub : R ⊆ R';
  co_dom : R' ⊆ dom b;
  co_all m : m ∈ ms -> is_Some (b !! String m) -> String m ∈ R';
  co_new s : s ∈ R' -> s ∉ R -> exists m m', m ∈ ms /\ wf_mid m' /\ s = String m' /\
    is_Some (b !! String m) /\ rtc (dedge b) m m' /\
    forall m'', dedge b m' m'' -> String m'' ∈ R';
}.
Lemma collects_nothing b m R : R ⊆ dom b -> ¬ is_Some (b !! String m) \/ String m ∈ R -> collects b [m] R R.
Proof.
  intros Hd Hm. split; [done|done| |by intros ???].
  intros m' ->%list_elem_of_singleton Hs. by destruct Hm.
Qed.

Lemma foldl_collects b fuel ks R :
  R ⊆ dom b -> (forall k, k ∈ ks -> wf_mid k) -> (size (dom b ∖ R) < fuel)%nat ->
  (forall m R, wf_mid m -> R ⊆ dom b -> (size (dom b ∖ R) < fuel)%nat ->
     collects b [m] R (collect fuel b m R)) ->
  collects b ks R (foldl (λ acc k, collect fuel b k acc) R ks).
Proof.
  intros Hd Hwf Hf Hc. revert R Hd Hf. induction ks as [|k ks IH]; intros R Hd Hf.
  { split; [done|done|set_solver|by intros]. }
  cbn [foldl]. destruct (Hc k R) as [S1 D1 A1 N1]; [apply Hwf; set_solver|done|done|].
  assert (collects b ks (collect fuel b k R)
            (foldl (λ acc k, collect fuel b k acc) (collect fuel b k R) ks)) as [S2 D2 A2 N2].
  { apply IH; [intros; apply Hwf; set_solver|done|].
    eapply Nat.le_lt_trans; [|exact Hf]. apply subseteq_size. set_solver. }
  split.
  - set_solver.
  - done.
  - intros m [->|Hin]%elem_of_cons Hs; [apply S2, A1; [set_solver|done]|by apply A2].
  - intros s Hs Hns. destruct (decide (s ∈ collect fuel b k R)) as [H1'|H1'].
    + destruct (N1 s H1' Hns) as (m & m' & Hm & Hw & E & Hsm & Hr & Hcl).
      exists m, m'. split_and!; try done; [set_solver|]. intros m'' He. by apply S2, Hcl.
    + destruct (N2 s Hs H1') as (m & m' & Hm & Hw & E & Hsm & Hr & Hcl).
      exists m, m'. split_and!; try done. set_solver.
Qed.
Lemma collect_collects fuel b m R :
  wf_mid m -> R ⊆ dom b -> (size (dom b ∖ R) < fuel)%nat -> collects b [m] R (collect fuel b m R).
Proof using All.
  revert m R. induction fuel as [|fuel IH]; intros m R Hm Hd Hf; [lia|]. cbn [collect].
  rewrite wf_not_zero by done. destruct (decide (String m ∈ R)) as [Hin|Hnin];
    [apply collects_nothing; auto|].
  destruct (b !! String m) as [d|] eqn:E.
  2:{ apply collects_nothing; [done|]. left. rewrite E. by intros [? ?]. }
  assert (String m ∈ dom b) as Hmd by by apply elem_of_dom_2 in E.
  destruct (foldl_collects b fuel (delete_children m d) ({[String m]} ∪ R)) as [S1 D1 A1 N1].
  - set_solver.
  - intros k. apply delete_children_wf.
  - assert (dom b ∖ ({[String m]} ∪ R) ⊂ dom b ∖ R) as Hlt%subset_size by set_solver. lia.
  - done.
  - split.
    + set_solver.
    + done.
    + set_solver.
    + intros s Hs Hns. destruct (decide (s = String m)) as [->|Hne].
      * exists m, m. split_and!; try done; [set_solver|].
        intros m'' (d' & E' & Hk & Hsome). rewrite E in E'. injection E' as <-. by apply A1.
      * destruct (N1 s Hs ltac:(set_solver)) as (k & m' & Hk & Hw & E' & Hsk & Hr & Hcl).
        exists m, m'. split_and!; try done; [set_solver|]. eapply rtc_l; [|done]. by exists d.
Qed.

(** what [DeleteRecursive] deletes: the present blocks reachable from the root
    through present blocks *)
Lemma collected_iff root s m :
  wf_mid root -> wf_mid m ->
  String m ∈ collected root s <->
  is_Some (blocks s !! String root) /\ rtc (dedge (blocks s)) root m.
Proof using All.
  intros Hroot Hm. unfold collected.
  destruct (collect_collects (S (size (blocks s))) (blocks s) root ∅ Hroot) as [_ D A N].
  { set_solver. }
  { rewrite difference_empty_L, size_dom. lia. }
  split.
  - intros Hin. destruct (N _ Hin) as (r & m' & ->%list_elem_of_singleton & Hw & E & Hs & Hr & _);
      [set_solver|]. by apply String_inj in E as ->.
  - intros [Hs Hr]. revert Hm. assert (wf_mid m /\ String m ∈ collect (S (size (blocks s))) (blocks s) root ∅) as [_ ?].
    { revert m Hr. apply rtc_ind_r; [split; [done|]; apply A; [set_solver|done]|].
      intros m1 m2 _ He [Hw1 Hin]. destruct He as (d & E & Hk & Hsome).
      split; [by eapply delete_children_wf|].
      destruct (N _ Hin) as (r & m' & _ & Hw & E' & _ & _ & Hcl); [set_solver|].
      apply String_inj in E' as <-; [|done..]. apply Hcl. by exists d. }
    done.
Qed.

(** seals never touch the blocks *)
Definition same_blocks (s s' : Memstore) : Prop := blocks s' = blocks s /\ sizeVal s' = sizeVal s.
#[local] Instance same_blocks_preorder : PreOrder same_blocks.
Proof. split; [done|]. intros s1 s2 s3 [E1 E2] [E3 E4]. split; congruence. Qed.
Lemma mem_Unseal_same fuel root s : same_blocks s (mem_Unseal fuel root s).2.
Proof.
  unfold mem_Unseal, Walk. cbn [snd].
  etrans; [|apply (WalkOptions_preserves _ _ _ _ same_blocks)]; [done|].
  intros m leaf t. unfold unseal_visit. by destruct (Codec m =? CodecMemFS).
Qed.
Lemma mem_Seal_same fuel root rec s : same_blocks s (mem_Seal fuel root rec s).2.
Proof.
  unfold mem_Seal. destruct (negb rec); [done|]. unfold Walk. cbn [snd].
  etrans; [|apply (WalkOptions_preserves _ _ _ _ same_blocks)]; [done|].
  intros m leaf t. unfold seal_visit. destruct (Equal m root); [done|].
    by destruct (Codec m =? CodecMemFS).
Qed.
Lemma same_blocks_ok s s' : same_blocks s s' -> mem_ok s -> mem_ok s'.
Proof. intros [E1 E2] [? ?]. split; [by rewrite E1, E2|by rewrite E1]. Qed.

Lemma mem_DeleteRecursive_ok fuel root s r s' :
  mem_ok s -> mem_DeleteRecursive fuel root s = (r, s') -> mem_ok s'.
Proof using All.
  intros Hs. unfold mem_DeleteRecursive. destruct (IsZero root); [by intros [= <- <-]|].
  destruct (mem_Unseal fuel root s) as [ru s1] eqn:Eu.
  assert (mem_ok s1) as [Hsz Hn].
  { eapply same_blocks_ok; [|done]. pose proof (mem_Unseal_same fuel root s) as HS. by rewrite Eu in HS. }
  intros [= <- <-]. split; simpl.
  - rewrite Hsz, u64_sub_l, u64_sub_r. f_equal.
    unfold total. rewrite <-(weigh_partition zlen (λ kv, kv.1 ∈ collected root s1) (blocks s1)).
    unfold weigh at 1. lia.
  - intros k d [E _]%map_lookup_filter_Some. by apply Hn.
Qed.
End facts.

(** ** Properties *)
Inductive mem_op :=
  | OpPut (m : MID) (d : bytes)
  | OpPutBatch (bs : list SBlock)
  | OpDelete (m : MID)
  | OpPutMeta (k v : bytes)
  | OpSeal (root : MID) (recursive : bool)
  | OpUnseal (root : MID)
  | OpDeleteRecursive (root : MID).
Definition wf_op `{Multiformats} (o : mem_op) : Prop :=
  match o with
  | OpPut m _ | OpDelete m | OpSeal m _ | OpUnseal m | OpDeleteRecursive m => wf_mid m
  | OpPutBatch bs => Forall (λ b, wf_mid (sb_MID b)) bs
  | OpPutMeta _ _ => True
  end.
Definition run_op `{Multiformats, Protos} (alg : Z) (fuel : nat) (o : mem_op) (s : Memstore) : Memstore :=
  match o with
  | OpPut m d => (mem_Put alg m d s).2
  | OpPutBatch bs => (mem_PutBatch alg bs s).2
  | OpDelete m => (mem_Delete m s).2
  | OpPutMeta k v => (mem_PutMeta k v s).2
  | OpSeal m r => (mem_Seal fuel m r s).2
  | OpUnseal m => (mem_Unseal fuel m s).2
  | OpDeleteRecursive m => (mem_DeleteRecursive fuel m s).2
  end.

Section properties.
Context `{Multiformats} `{!MultiformatsLaws} `{Protos}.
Context (alg : Z) (Halg : isSupportedHash alg = true).

Lemma run_op_ok fuel o s : wf_op o -> mem_ok alg s -> mem_ok alg (run_op alg fuel o s).
Proof using All.
  intros Hwf Hs. destruct o as [m d|bs|m|k v|m r|m|m]; simpl in *.
  - destruct (mem_Put alg m d s) as [r s'] eqn:E.
    by destruct (mem_Put_ok alg Halg m d s r s' Hs Hwf E).
  - unfold mem_PutBatch. revert s Hs. induction Hwf as [|b bs Hb _ IH]; intros s Hs; [done|].
    cbn [for_each]. unfold mbind, M_bind.
    destruct (mem_Put alg (sb_MID b) (sb_Data b) s) as [r s'] eqn:E.
    destruct (mem_Put_ok alg Halg _ _ s r s' Hs Hb E) as [? _]. destruct r; [by apply IH|done].
  - by destruct (mem_Delete_ok alg Halg m s _ _ Hs eq_refl).
  - by destruct Hs.
  - eapply same_blocks_ok; [apply mem_Seal_same|done].
  - eapply same_blocks_ok; [apply mem_Unseal_same|done].
  - destruct (mem_DeleteRecursive fuel m s) as [r s'] eqn:E. by eapply mem_DeleteRecursive_ok.
Qed.

(** invariant of the in-memory store: after any sequence of writes, batches, deletes,
    metadata writes, seals, unseals and recursive deletes, [Size] is the total length of the
    stored blocks (as a uint64) and every block is the data its key names, so [Get] never
    returns anything else.  [DropAll] is not among the operations: it leaves [Size] as it
    was ([DropAll_stale_size]). *)
Theorem Memstore_invariant fuel ops m d :
  Forall wf_op ops ->
  let s := foldl (λ s o, run_op alg fuel o s) NewMemstore ops in
  mem_Size s = Ok (u64 (total (blocks s))) /\
  (wf_mid m -> mem_Get m s = Ok d -> names alg m d).
Proof using All.
  intros Hops s. assert (mem_ok alg s) as [Hsz Hn].
  { subst s. assert (forall s0, mem_ok alg s0 -> mem_ok alg (foldl (λ s o, run_op alg fuel o s) s0 ops)) as Hrun.
    { induction Hops as [|o ops Ho _ IH]; intros s0 Hs0; [done|]. simpl. by apply IH, run_op_ok. }
    apply Hrun. apply mem_ok_New. }
  split; [unfold mem_Size; by rewrite Hsz|]. intros Hm. unfold mem_Get.
  destruct (blocks s !! String m) as [d'|] eqn:E; [|done]. intros [= <-].
  destruct (Hn _ _ E) as (m' & Hm' & Es & Hnm). by apply String_inj in Es as ->.
Qed.

(** a write to the in-memory store either stores exactly the verified data under
    its MID and leaves every other block alone, or (exactly when the data does not hash
    to the MID) is refused and changes nothing. *)
Theorem Memstore_Put m d s :
  mem_ok alg s -> wf_mid m ->
  exists r s', mem_Put alg m d s = (r, s') /\ mem_ok alg s' /\
    (r = Ok tt <-> names alg m d) /\
    (names alg m d -> mem_Get m s' = Ok d /\
       forall m', wf_mid m' -> m' ≠ m -> mem_Get m' s' = mem_Get m' s) /\
    (¬ names alg m d -> s' = s).
Proof using All.
  intros Hs Hm. destruct (mem_Put alg m d s) as [r s'] eqn:E. exists r, s'. split; [done|].
  destruct (mem_Put_ok alg Halg m d s r s' Hs Hm E) as [Hs' [(-> & Hn & Hb)|([e ->] & Hn & ->)]].
  - split_and!; try done. intros _. unfold mem_Get. rewrite Hb, lookup_insert_eq.
    split; [done|]. intros m' Hm' Hne. rewrite lookup_insert_ne; [done|].
    intros E'. apply Hne. by apply String_inj.
  - by split_and!.
Qed.

(** [DeleteRecursive] removes exactly the present blocks that can be reached from
    the root through present blocks (the recursion of [collect] never runs out of
    fuel), reports how many, and leaves every other block readable as before. *)
Theorem Memstore_DeleteRecursive fuel root s m :
  mem_ok alg s -> wf_mid root -> wf_mid m ->
  exists n freed s', mem_DeleteRecursive fuel root s = (Ok (n, freed), s') /\ mem_ok alg s' /\
    Z.of_nat (size (blocks s')) = Z.of_nat (size (blocks s)) - n /\
    (is_Some (blocks s !! String root) -> rtc (dedge (blocks s)) root m ->
       mem_Get m s' = Err ErrNotFound) /\
    (¬ (is_Some (blocks s !! String root) /\ rtc (dedge (blocks s)) root m) ->
       mem_Get m s' = mem_Get m s).
Proof using All.
  intros Hs Hroot Hm. destruct (mem_DeleteRecursive fuel root s) as [r s'] eqn:E.
  pose proof (mem_DeleteRecursive_ok alg Halg fuel root s r s' Hs E) as Hs'.
  unfold mem_DeleteRecursive in E. rewrite wf_not_zero in E by done.
  destruct (mem_Unseal fuel root s) as [ru s1] eqn:Eu.
  pose proof (mem_Unseal_same fuel root s) as [Hb _]. rewrite Eu in Hb. cbn [snd] in Hb.
  pose proof (collected_iff alg Halg root s1 m Hroot Hm) as Hiff. rewrite Hb in Hiff.
  injection E as <- <-. eexists _, _, _. split; [done|]. split; [done|].
  unfold mem_Get. cbn [blocks]. rewrite !Hb. split_and!.
  - rewrite <-!weigh_size, <-(weigh_partition _ (λ kv, kv.1 ∈ collected root s1) (blocks s)).
    lia.
  - intros Hsome Hr. assert (String m ∈ collected root s1) as Hin by by apply Hiff.
    replace (filter _ (blocks s) !! String m) with (@None bytes); [done|]. symmetry.
    apply map_lookup_filter_None_2. right. intros d _ Hn. by apply Hn.
  - intros Hn. assert (String m ∉ collected root s1) as Hnin by by rewrite Hiff.
    destruct (blocks s !! String m) as [d|] eqn:Ed.
    + by rewrite (map_lookup_filter_Some_2 _ _ _ _ Ed).
    + replace (filter _ (blocks s) !! String m) with (@None bytes); [done|]. symmetry.
      apply map_lookup_filter_None_2. by left.
Qed.
End properties.

(** ** The properties at concrete inputs *)
Definition demo_ops : list mem_op :=
  [OpPut (toy_mid CodecRaw (lit "abc")) (lit "abc");
   OpPut (toy_mid CodecRaw (lit "de")) (lit "de");
   OpSeal (toy_mid CodecRaw (lit "abc")) true;
   OpDelete (toy_mid CodecRaw (lit "de"))].
Definition demo_store : Memstore := foldl (λ s o, run_op BLAKE3 9 o s) NewMemstore demo_ops.
Lemma demo_store_ok : mem_ok BLAKE3 demo_store.
Proof.
  unfold demo_store. assert (Forall wf_op demo_ops) as Hw by (repeat constructor; apply toy_raw_wf).
  assert (forall s0, mem_ok BLAKE3 s0 ->
    mem_ok BLAKE3 (foldl (λ s o, run_op BLAKE3 9 o s) s0 demo_ops)) as Hrun.
  { induction Hw as [|o ops Ho _ IH]; intros s0 Hs0; [done|]. simpl. by apply IH, run_op_ok. }
  apply Hrun. apply mem_ok_New.
Qed.

Lemma Memstore_invariant_witness :
  mem_Size demo_store = Ok 3 /\ names BLAKE3 (toy_mid CodecRaw (lit "abc")) (lit "abc").
Proof.
  assert (Forall wf_op demo_ops) as Hw by (repeat constructor; apply toy_raw_wf).
  destruct (Memstore_invariant BLAKE3 eq_refl 9 demo_ops (toy_mid CodecRaw (lit "abc")) (lit "abc") Hw)
    as [Hsz Hget].
  split; [exact Hsz|]. apply Hget; [apply toy_raw_wf|vm_compute; reflexivity].
Defined.
Lemma Memstore_Put_witness :
  (mem_Put BLAKE3 (toy_mid CodecRaw (lit "x")) (lit "y") demo_store).2 = demo_store.
Proof.
  destruct (Memstore_Put BLAKE3 eq_refl (toy_mid CodecRaw (lit "x")) (lit "y") demo_store
              demo_store_ok (toy_raw_wf _)) as (r & s' & E & _ & Hr & _ & Hno).
  rewrite E. apply Hno. intros Hn. apply Hr in Hn as ->. vm_compute in E. discriminate E.
Defined.
Lemma Memstore_DeleteRecursive_witness :
  exists n freed s', mem_DeleteRecursive 9 (toy_mid CodecRaw (lit "abc")) demo_store = (Ok (n, freed), s') /\
    mem_Get (toy_mid CodecRaw (lit "abc")) s' = Err ErrNotFound.
Proof.
  destruct (Memstore_DeleteRecursive BLAKE3 eq_refl 9 (toy_mid CodecRaw (lit "abc")) demo_store
              (toy_mid CodecRaw (lit "abc")) demo_store_ok (toy_raw_wf _) (toy_raw_wf _))
    as (n & freed & s' & E & _ & _ & Hgone & _).
  exists n, freed, s'. split; [exact E|]. apply Hgone; [|constructor].
  eexists. vm_compute. reflexivity.
Defined.

(** [DropAll] leaves the running size behind: an empty store that reports bytes. *)
Lemma DropAll_stale_size :
  exists s', mem_DropAll demo_store = (Ok tt, s') /\ mem_Len s' = 0 /\ mem_Size s' = Ok 3.
Proof. eexists. split; [done|]. split; [done|]. vm_compute. done. Qed.

(** Both sides of the interface: the metadata of the in-memory store. *)
#[global] Instance mem_meta : MetaStore Memstore := {| st_PutMeta := mem_PutMeta; st_GetMeta := mem_GetMeta |}.
#[global] Instance mem_meta_laws : MetaStoreLaws Memstore (λ _, True).
Proof.
  split. intros k v s s' _ [= <-]. split; [done|]. cbn [st_GetMeta mem_meta]. unfold mem_GetMeta, set_meta. cbn [meta].
  split; [by rewrite lookup_insert_eq|]. intros k' Hne. by rewrite lookup_insert_ne.
Qed.
