(* ===== verification/Dag.v ===== *)
(** * Merkle DAGs over chunks (src/core/dag)

    [Build] is the streaming builder of dag.go with its stack of levels, run over
    any [Chunker] into any [Blockstore]; [consume] is the consumer of the parallel
    builder (parallel.go); [stream] is the resolver (resolve.go), which polls a
    store that other goroutines are changing; [Stat] is stats.go.  The reference is
    [batch], the level-complete reduction the comments of dag.go promise, and
    [Tree], the content a root MID stands for. *)
From S2P Require Import Prelude Mid GoIO Chunk Wire Blockstore Memstore.

(** [const Fanout = 174]; the definitions take the fanout as an argument. *)
Definition Fanout : nat := 174.

(** ** Nodes *)
Section node.
Context `{Multiformats, Protos} (alg : Z).

(** [Node.Links] panics on a malformed link. *)
Fixpoint Links (links : list bytes) : result (list MID) :=
  match links with
  | [] => Ok []
  | s :: links => m ← MustParse s; ms ← Links links; Ok (m :: ms)
  end.
Definition IsLeaf (n : DAGNode) : bool := bool_decide (dn_Links n = []).
Definition Node_MID (n : DAGNode) : result MID :=
  if bool_decide (dn_Mid n = []) then Ok zeroMID else MustParse (dn_Mid n).

Definition verifyBlock (m : MID) (data : bytes) : result unit :=
  want ← wrap "dag: claim MID has no digest" (DigestBytes m);
  gm ← FromBytes alg data;
  got ← wrap "dag: derive digest" (DigestBytes gm);
  if bool_decide (want = got) then Ok tt
  else Err (New "dag: block failed integrity check: data does not hash to claimed MID").

Definition isInternalNode (data : bytes) : option (list bytes) :=
  match unmarshal (A := DAGNode) data with
  | Err _ => None
  | Ok node =>
      if bool_decide (dn_Links node = []) || bool_decide (dn_Data node ≠ []) then None else
      match marshal (mkDAGNode (dn_Links node) [] []) with
      | Err _ => None
      | Ok remarshaled => if bool_decide (remarshaled = data) then Some (dn_Links node) else None
      end
  end.
End node.

(** ** Builder *)
Section builder.
Context `{Multiformats, Protos} (alg : Z) (F : nat) {St : Type} `{Blockstore St}.

(** [levelStack.collapse] *)
Definition collapse (kids : list MID) : M St MID :=
  if bool_decide (kids = []) then throw (New "dag: collapse called on empty group") else
  raw ← liftr (wrap "dag: marshal node" (marshal (mkDAGNode (map String kids) [] [])));
  nodeMID ← liftr (FromBytes alg raw);
  _ ← wrapM "dag: store internal" (bs_Put nodeMID raw);
  mret nodeMID.

(** [levelStack.push]: the argument is the buffers from [level] up.  On an error
    the stack is abandoned.  With a fanout below two the Go recursion never ends. *)
Fixpoint push (levels : list (list MID)) (m : MID) : M St (list (list MID)) :=
  match levels with
  | [] => if (1 <? F)%nat then mret [[m]] else throw OutOfFuel
  | lv :: rest =>
      let lv := lv ++ [m] in
      if (length lv <? F)%nat then mret (lv :: rest) else
      parent ← collapse lv;
      rest ← push rest parent;
      mret ([] :: rest)
  end.

Definition topmost (above : list (list MID)) : bool :=
  forallb (λ lv, bool_decide (lv = [])) above.

(** [levelStack.finalize]: the argument is the buffers from [i] up *)
Fixpoint finalize (fuel : nat) (levels : list (list MID)) : M St MID :=
  match fuel with
  | O => throw OutOfFuel
  | S fuel =>
      match levels with
      | [] => throw (New "dag: empty input")
      | [] :: rest => finalize fuel rest
      | (m :: more) as lv :: rest =>
          if bool_decide (more = []) && topmost rest then mret m else
          parent ← collapse lv;
          rest ← push rest parent;
          finalize fuel rest
      end
  end.
Definition finalize_fuel (levels : list (list MID)) : nat :=
  S (length levels + length (concat levels)).

Definition add_leaf (levels : list (list MID)) (leafMID : MID) (data : bytes)
    : M St (list (list MID)) :=
  _ ← wrapM "dag: store leaf" (bs_Put leafMID data);
  push levels leafMID.

(** the read loop of [Build]; it returns whether a leaf was seen, and the stack *)
Fixpoint build_loop {C} `{Chunker C} (fuel : nat) (c : C) (sawLeaf : bool)
    (levels : list (list MID)) : M St (bool * list (list MID)) :=
  match fuel with
  | O => throw OutOfFuel
  | S fuel =>
      match Next c with
      | (Err e, _) =>
          if errors_is e EOF then mret (sawLeaf, levels) else throw (Wrap "dag: read chunk" e)
      | (Ok blk, c') =>
          if BlockSize blk =? 0 then throw (New "dag: empty chunk") else
          leafMID ← liftr (BlockMID blk);
          if IsZero leafMID then throw (New "dag: chunk has zero MID") else
          levels ← add_leaf levels leafMID (Data blk);
          build_loop fuel c' true levels
      end
  end.

Definition Build {C} `{Chunker C} (fuel : nat) (c : C) : M St MID :=
  '(sawLeaf, levels) ← build_loop fuel c false [];
  if negb sawLeaf then throw (New "dag: empty input")
  else finalize (finalize_fuel levels) levels.
End builder.

(** ** Parallel builder *)
Record chunkJob := mkJob { cj_index : nat; cj_block : Block }.
Record processedChunk := mkProcessed { pc_index : nat; pc_leafMID : MID; pc_data : bytes }.

Section parallel.
Context `{Multiformats, Protos} (alg : Z) (F : nat) {St : Type} `{Blockstore St}.

(** the producer goroutine: the jobs it sends, and what it leaves in [errCh] *)
Fixpoint producer {C} `{Chunker C} (fuel : nat) (c : C) (idx : nat)
    : list chunkJob * option error :=
  match fuel with
  | O => ([], Some OutOfFuel)
  | S fuel =>
      match Next c with
      | (Err e, _) => ([], if errors_is e EOF then None else Some (Wrap "dag: read chunk" e))
      | (Ok blk, c') =>
          if BlockSize blk =? 0 then ([], Some (New "dag: empty chunk"))
          else let '(jobs, e) := producer fuel c' (S idx) in (mkJob idx blk :: jobs, e)
      end
  end.

(** one job of a worker goroutine *)
Definition worker_job (j : chunkJob) : result processedChunk :=
  m ← BlockMID (cj_block j);
  if IsZero m then Err (New "dag: chunk has zero MID")
  else Ok (mkProcessed (cj_index j) m (Data (cj_block j))).

(** the pipeline between the producer and the consumer: the error the producer
    will post when it stops, the jobs not yet taken, what each worker holds, the results in the order the consumer receives them, and
    [errCh] (capacity one). A worker that meets a bad chunk exits. *)
Record pipeline := mkPipeline {
  p_producer : option error;
  p_jobs : list chunkJob;
  p_workers : list (option chunkJob);
  p_results : list processedChunk;
  p_err : option error;
}.
Inductive pipeline_step : pipeline -> pipeline -> Prop :=
  | step_take pe j jobs ws1 ws2 rs e :
      pipeline_step (mkPipeline pe (j :: jobs) (ws1 ++ None :: ws2) rs e)
                    (mkPipeline pe jobs (ws1 ++ Some j :: ws2) rs e)
  | step_done pe j jobs ws1 ws2 rs e pc :
      worker_job j = Ok pc ->
      pipeline_step (mkPipeline pe jobs (ws1 ++ Some j :: ws2) rs e)
                    (mkPipeline pe jobs (ws1 ++ None :: ws2) (rs ++ [pc]) e)
  | step_fail pe j jobs ws1 ws2 rs e err :
      worker_job j = Err err ->
      pipeline_step (mkPipeline pe jobs (ws1 ++ Some j :: ws2) rs e)
                    (mkPipeline pe jobs (ws1 ++ ws2) rs (Some (default err e)))
  | step_producer err jobs ws rs e :
      pipeline_step (mkPipeline (Some err) jobs ws rs e)
                    (mkPipeline None jobs ws rs (Some (default err e))).
(** [results] is closed once every worker has exited: the producer has stopped,
    the queue is empty and nobody holds a job, or no worker is left *)
Definition pipeline_closed (p : pipeline) : Prop :=
  Forall (eq None) (p_workers p) /\
  (p_jobs p = [] /\ p_producer p = None \/ p_workers p = []).

(** the consumer: [pending] is drained in index order *)
Fixpoint drain_pending (fuel : nat) (pending : gmap nat processedChunk) (nextIdx : nat)
    (saw : bool) (levels : list (list MID))
    : M St (gmap nat processedChunk * nat * bool * list (list MID)) :=
  match fuel with
  | O => throw OutOfFuel
  | S fuel =>
      match pending !! nextIdx with
      | None => mret (pending, nextIdx, saw, levels)
      | Some pc =>
          levels ← add_leaf alg F levels (pc_leafMID pc) (pc_data pc);
          drain_pending fuel (delete nextIdx pending) (S nextIdx) true levels
      end
  end.
Fixpoint consume (results : list processedChunk) (pending : gmap nat processedChunk)
    (nextIdx : nat) (saw : bool) (levels : list (list MID)) : M St (bool * list (list MID)) :=
  match results with
  | [] => mret (saw, levels)
  | res :: results =>
      let pending := <[pc_index res := res]> pending in
      '(pending, nextIdx, saw, levels) ←
        drain_pending (S (size pending)) pending nextIdx saw levels;
      consume results pending nextIdx saw levels
  end.

(** the tail of [BuildParallel] once the pipeline has delivered [results] and
    left [err] in [errCh] *)
Definition BuildParallel_consumer (results : list processedChunk) (err : option error) : M St MID :=
  '(saw, levels) ← consume results ∅ 0 false [];
  match err with
  | Some e => throw e
  | None => if negb saw then throw (New "dag: empty input")
            else finalize alg F (finalize_fuel levels) levels
  end.
End parallel.

(** ** Resolver *)
Section resolver.
Context `{Multiformats, Protos} (alg : Z).
(** [rd t m] is what the [t]-th call of [Get] returns for [m]: the store may
    change between calls.  [visit] is the optional instrumentation hook. *)
Context (rd : nat -> MID -> result bytes) (visit : MID -> option error).

Definition attempts : nat := 50.
Fixpoint retry (k : nat) (t : nat) (m : MID) (last : error) : result bytes * nat :=
  match k with
  | O => (Err last, t)
  | S k => match rd t m with
           | Ok d => (Ok d, S t)
           | Err e => retry k (S t) m e
           end
  end.
Definition poll (t : nat) (m : MID) : result bytes * nat :=
  match rd t m with
  | Ok d => (Ok d, S t)
  | Err e => retry attempts (S t) m e
  end.

(** the bytes written to the pipe, the error that ended the walk, and the clock *)
Fixpoint resolve_walk (fuel : nat) (t : nat) (m : MID) : bytes * option error * nat :=
  match fuel with
  | O => ([], Some OutOfFuel, t)
  | S fuel =>
      match poll t m with
      | (Err e, t) => ([], Some (Wrap "dag: get" e), t)
      | (Ok data, t) =>
          match verifyBlock alg m data with
          | Err e => ([], Some e, t)
          | Ok _ =>
              match isInternalNode data with
              | Some links =>
                  match visit m with
                  | Some e => ([], Some e, t)
                  | None =>
                      (fix kids t links := match links with
                       | [] => ([], None, t)
                       | s :: links =>
                           match Parse s with
                           | Err e => ([], Some (Wrap "dag: parse link" e), t)
                           | Ok child =>
                               let '(out, err, t) := resolve_walk fuel t child in
                               match err with
                               | Some e => (out, Some e, t)
                               | None => let '(out', err', t') := kids t links in
                                         (out ++ out', err', t')
                               end
                           end
                       end) t links
                  end
              | None => (data, None, t)
              end
          end
      end
  end.

(** what a reader of the pipe sees: the bytes and the final error *)
Definition Resolve (fuel : nat) (root : MID) : result (bytes * error) :=
  if IsZero root then Err (New "dag: zero root MID") else
  let '(out, err, _) := resolve_walk fuel 0 root in
  Ok (out, default EOF err).
End resolver.

(** ** Stats *)
Record Stats := mkStats {
  st_Nodes : Z;
  st_Leaves : Z;
  st_Internal : Z;
  st_Depth : Z;
  st_Width : Z;
  st_Bytes : Z;
}.
Definition zeroStats : Stats := mkStats 0 0 0 0 0 0.

Section stats.
Context `{Multiformats, Protos} (alg : Z) (get : MID -> result bytes).

(** the [for _, s := range links] loop with its running maximum *)
Fixpoint max_child {T} (f : MID -> M T Z) (links : list bytes) (maxChild : Z) : M T Z :=
  match links with
  | [] => mret maxChild
  | s :: links =>
      child ← liftr (wrap "dag: parse link" (Parse s));
      d ← f child;
      max_child f links (if maxChild <? d then d else maxChild)
  end.

Fixpoint depthOnly {T} (fuel : nat) (m : MID) : M T Z :=
  match fuel with
  | O => throw OutOfFuel
  | S fuel =>
      data ← liftr (wrap "dag: get" (get m));
      match isInternalNode data with
      | None => mret 1
      | Some links => d ← max_child (depthOnly fuel) links 0; mret (u64 (d + 1))
      end
  end.

Definition count_leaf (size : Z) (st : Stats) : Stats :=
  mkStats (u64 (st_Nodes st + 1)) (u64 (st_Leaves st + 1)) (st_Internal st) (st_Depth st)
          (st_Width st) (u64 (st_Bytes st + size)).
Definition count_internal (size width : Z) (st : Stats) : Stats :=
  mkStats (u64 (st_Nodes st + 1)) (st_Leaves st) (u64 (st_Internal st + 1)) (st_Depth st)
          (if st_Width st <? width then width else st_Width st) (u64 (st_Bytes st + size)).

Fixpoint stat_walk (fuel : nat) (m : MID) : M (gset bytes * Stats) Z := λ '(seen, st),
  match fuel with
  | O => (Err OutOfFuel, (seen, st))
  | S fuel =>
      if decide (String m ∈ seen) then depthOnly (S fuel) m (seen, st) else
      let seen := {[String m]} ∪ seen in
      match get m with
      | Err e => (Err (Wrap "dag: get" e), (seen, st))
      | Ok data =>
          match verifyBlock alg m data with
          | Err e => (Err e, (seen, st))
          | Ok _ =>
              match isInternalNode data with
              | None => (Ok 1, (seen, count_leaf (zlen data) st))
              | Some links =>
                  (d ← max_child (stat_walk fuel) links 0; mret (u64 (d + 1)))
                    (seen, count_internal (zlen data) (zlen links) st)
              end
          end
      end
  end.

Definition Stat (fuel : nat) (root : MID) : result Stats :=
  if IsZero root then Err (New "dag: zero root MID") else
  match stat_walk fuel root (∅, zeroStats) with
  | (Ok depth, (_, st)) =>
      Ok (mkStats (st_Nodes st) (st_Leaves st) (st_Internal st) depth (st_Width st) (st_Bytes st))
  | (Err e, _) => Err e
  end.
End stats.

(** ** Reference: the level-complete reduction *)
Section batch.
Context {A : Type} (parent : list A -> A) (F : nat) (HF : (1 < F)%nat).

Fixpoint batch_fuel (fuel : nat) (l : list A) : option A :=
  match fuel, l with
  | O, _ | _, [] => None
  | _, [x] => Some x
  | S fuel, l => batch_fuel fuel (parent <$> chunks F l)
  end.
Definition batch (l : list A) : option A := batch_fuel (length l) l.

Lemma chunks_fmap_lt l : (1 < length l)%nat -> (length (parent <$> chunks F l) < length l)%nat.
Proof using HF. intros. rewrite length_fmap. apply chunks_length_lt; lia. Qed.
Lemma batch_fuel_S f x y l :
  batch_fuel (S f) (x :: y :: l) = batch_fuel f (parent <$> chunks F (x :: y :: l)).
Proof. done. Qed.
Lemma batch_fuel_enough f l : (length l ≤ f)%nat -> batch_fuel f l = batch l.
Proof using HF.
  unfold batch. revert l. induction f as [f IH] using lt_wf_ind. intros l Hl.
  destruct l as [|x [|y l]]; [destruct f; done|destruct f; simpl in *; [lia|done]|].
  pose proof (chunks_fmap_lt (x :: y :: l) ltac:(simpl; lia)) as Hlt.
  destruct f as [|f]; [simpl in Hl; lia|].
  cbn [length] in *. rewrite !batch_fuel_S.
  set (l' := parent <$> chunks F (x :: y :: l)) in *. rewrite (IH f) by lia.
  by rewrite (IH (S (length l))) by lia.
Qed.
Lemma batch_one x : batch [x] = Some x.
Proof. done. Qed.
Lemma batch_step l : (1 < length l)%nat -> batch l = batch (parent <$> chunks F l).
Proof using HF.
  intros Hl. pose proof (chunks_fmap_lt l Hl). unfold batch at 1.
  destruct l as [|x [|y l]]; simpl in Hl; [lia..|].
  cbn [length] in *. rewrite batch_fuel_S. apply batch_fuel_enough. lia.
Qed.

(** [levels] hold, bottom-up, what is left of the leaves [l] *)
Fixpoint Rep (levels : list (list A)) (l : list A) : Prop :=
  match levels with
  | [] => l = []
  | b :: rest => exists cs,
      l = concat cs ++ b /\ Forall (λ c, length c = F) cs /\ (length b < F)%nat /\
      Rep rest (parent <$> cs)
  end.
Lemma Rep_empty levels l : Rep levels l -> Forall (eq []) levels -> l = [].
Proof.
  revert l; induction levels as [|b levels IH]; simpl; [done|].
  intros l (cs & -> & _ & _ & HR) HF'. apply Forall_cons in HF' as [<- HF'].
  specialize (IH _ HR HF'). apply fmap_nil_inv in IH as ->. done.
Qed.
Lemma Rep_nil levels : Rep levels [] -> Forall (eq []) levels.
Proof using HF.
  induction levels as [|b levels IH]; simpl; [by constructor|].
  intros (cs & E & Hcs & _ & HR). symmetry in E. apply app_eq_nil in E as [E ->].
  constructor; [done|]. apply IH. destruct cs as [|c cs]; [done|].
  apply Forall_cons in Hcs as [Hc _]. apply app_eq_nil in E as [-> _]. simpl in Hc. lia.
Qed.
Lemma Rep_batch_skip rest l :
  l ≠ [] -> Rep ([] :: rest) l -> exists l', l' ≠ [] /\ Rep rest l' /\ batch l = batch l'.
Proof using HF.
  intros Hne (cs & -> & Hcs & _ & HR). rewrite app_nil_r in *.
  exists (parent <$> cs). destruct cs as [|c cs]; [done|]. split_and!; [done..|].
  rewrite batch_step.
  - rewrite <-(app_nil_r (concat _)), chunks_concat_app by (done || lia).
    by rewrite chunks_nil, app_nil_r.
  - apply Forall_cons in Hcs as [Hc _]. simpl. rewrite length_app. lia.
Qed.
Lemma Rep_batch_flush b rest l :
  b ≠ [] -> Rep (b :: rest) l -> (1 < length b)%nat \/ ¬ Forall (eq []) rest ->
  exists l', Rep rest l' /\ batch l = batch (l' ++ [parent b]).
Proof using HF.
  intros Hb (cs & -> & Hcs & Hlt & HR) Hbig. exists (parent <$> cs). split; [done|].
  rewrite batch_step.
  - rewrite chunks_concat_app by (done || lia).
    rewrite chunks_small, fmap_app by (done || lia). done.
  - rewrite length_app. destruct Hbig as [?|Hrest]; [lia|].
    destruct cs as [|c cs].
    + exfalso. by apply Hrest, Rep_nil.
    + apply Forall_cons in Hcs as [Hc _]. simpl. rewrite length_app. lia.
Qed.
End batch.

(** The reduction commutes with a map. *)
Lemma chunks_fmap {A B} (f : A -> B) F (l : list A) :
  chunks F (fmap (M:=list) f l) = fmap (M:=list) (fmap (M:=list) f) (chunks F l).
Proof.
  unfold chunks. rewrite length_fmap. generalize (length l). intros n.
  revert l. induction n as [|n IH]; intros l; [by destruct l|].
  destruct l as [|x l]; [done|]. rewrite fmap_cons. cbn [chunks_fuel].
  change (f x :: (f <$> l)) with (f <$> (x :: l)). rewrite (fmap_cons (fmap f)).
  f_equal; [by rewrite <-fmap_take|]. by rewrite <-fmap_drop, IH.
Qed.
Lemma batch_fuel_fmap {A B} (f : A -> B) (pa : list A -> A) (pb : list B -> B) F fuel (l : list A) :
  (forall g, f (pa g) = pb (fmap (M:=list) f g)) ->
  f <$> batch_fuel pa F fuel l = batch_fuel pb F fuel (fmap (M:=list) f l).
Proof.
  intros Hf. revert l. induction fuel as [|fuel IH]; intros l; [by destruct l|].
  destruct l as [|x [|y l]]; [done..|]. rewrite !fmap_cons, !batch_fuel_S.
  rewrite IH, <-!fmap_cons, chunks_fmap, <-!list_fmap_compose. f_equal.
  apply list_fmap_ext. intros i g _. apply Hf.
Qed.
Lemma batch_fmap {A B} (f : A -> B) (pa : list A -> A) (pb : list B -> B) F (l : list A) :
  (forall g, f (pa g) = pb (fmap (M:=list) f g)) -> f <$> batch pa F l = batch pb F (fmap (M:=list) f l).
Proof. intros Hf. unfold batch. rewrite length_fmap. by apply batch_fuel_fmap. Qed.
Lemma batch_concat F (HF : (1 < F)%nat) (l : list bytes) :
  l ≠ [] -> batch (@concat byte) F l = Some (concat l).
Proof.
  induction l as [l IH] using (induction_ltof1 _ length). intros Hne.
  destruct l as [|x [|y l]]; [done|by rewrite batch_one; simpl; rewrite app_nil_r|].
  rewrite batch_step by (done || simpl; lia). rewrite IH.
  - f_equal. generalize (x :: y :: l). clear -HF. intros l.
    rewrite <-(chunks_concat F ltac:(lia) l) at 2.
    induction (chunks F l) as [|g gs IH]; [done|]. rewrite fmap_cons. cbn [concat].
    by rewrite IH, concat_app.
  - unfold ltof. apply chunks_fmap_lt; simpl; lia.
  - by rewrite chunks_cons by (done || lia).
Qed.

(** ** The content of a DAG *)

(** The MID [collapse] computes for an internal node over [kids]. *)
Definition parent_mid `{Multiformats, Protos} (alg : Z) (kids : list MID) : MID :=
  match marshal (mkDAGNode (map String kids) [] []) with
  | Ok raw => match FromBytes alg raw with Ok m => m | Err _ => zeroMID end
  | Err _ => zeroMID
  end.
(** The root MID of the level-complete reduction over the leaves [ms]. *)
Definition batch_root `{Multiformats, Protos} (alg : Z) (F : nat) (ms : list MID) : option MID :=
  batch (parent_mid alg) F ms.

(** [Tree avail h m c]: the blocks under [m], all of them [avail]able, spell the
    content [c]; [h] bounds the height. *)
Fixpoint Tree `{Multiformats, Protos} (alg : Z) (avail : MID -> bytes -> Prop) (h : nat)
    (m : MID) (c : bytes) : Prop :=
  match h with
  | O => False
  | S h => exists d, names alg m d /\ avail m d /\
      match isInternalNode d with
      | None => c = d
      | Some links => exists cs, c = concat cs /\
          Forall2 (λ s c, exists child, Parse s = Ok child /\ Tree alg avail h child c) links cs
      end
  end.

Section tree.
Context `{Multiformats} `{!MultiformatsLaws} `{Protos} `{!ProtosLaws}.
Context (alg : Z) (Halg : isSupportedHash alg = true).

Lemma Tree_mono (avail avail' : MID -> bytes -> Prop) h h' m c :
  (forall m d, wf_mid m -> names alg m d -> avail m d -> avail' m d) -> (h ≤ h')%nat ->
  wf_mid m -> Tree alg avail h m c -> Tree alg avail' h' m c.
Proof.
  intros Hav. revert h' m c. induction h as [|h IH]; intros [|h'] m c Hh Hm; simpl; try (done || lia).
  intros (d & Hn & Ha & Hd). exists d. split_and!; [done|by apply Hav|].
  destruct (isInternalNode d) as [links|]; [|done].
  destruct Hd as (cs & -> & HF). exists cs. split; [done|].
  eapply Forall2_impl; [done|]. intros s c (child & Hp & HT). exists child. split; [done|].
  apply IH; [lia| |done]. by eapply Parse_wf.
Qed.
(** Under collision-freeness a MID has at most one content. *)
Lemma Tree_unique `{!CollisionFree alg} av1 av2 h1 h2 m c1 c2 :
  Tree alg av1 h1 m c1 -> Tree alg av2 h2 m c2 -> c1 = c2.
Proof.
  revert h2 m c1 c2. induction h1 as [|h1 IH]; intros [|h2] m c1 c2; simpl; try done.
  intros (d1 & Hn1 & _ & H1') (d2 & Hn2 & _ & H2').
  rewrite (names_unique alg Halg m d1 d2 Hn1 Hn2) in H1'.
  destruct (isInternalNode d2) as [links|]; [|congruence].
  destruct H1' as (cs1 & -> & HF1), H2' as (cs2 & -> & HF2). f_equal. clear -IH HF1 HF2.
  revert cs2 HF2. induction HF1 as [|s c1 links cs1 (ch & Hp & HT) _ IHF];
    intros cs2 HF2; inversion HF2 as [|? c2 ? cs2' (ch' & Hp' & HT')]; subst; [done|].
  rewrite Hp in Hp'. injection Hp' as <-. f_equal; [by eapply IH|by apply IHF].
Qed.

Lemma isInternalNode_marshal links raw :
  links ≠ [] -> marshal (mkDAGNode links [] []) = Ok raw -> isInternalNode raw = Some links.
Proof.
  intros Hne E. unfold isInternalNode. rewrite (unmarshal_marshal _ _ E). simpl.
  rewrite bool_decide_eq_false_2 by done. simpl. rewrite E.
  by rewrite bool_decide_eq_true_2.
Qed.
(** An internal node carries nothing but its links. *)
Lemma isInternalNode_inv d links :
  isInternalNode d = Some links -> links ≠ [] /\ marshal (mkDAGNode links [] []) = Ok d.
Proof.
  unfold isInternalNode. destruct (unmarshal d) as [[l da mi]|]; [|done]. simpl.
  case_bool_decide as E1; simpl; [done|]. case_bool_decide; [done|].
  destruct (marshal _) as [re|] eqn:E; [|done]. case_bool_decide; [|done].
  intros [= <-]. subst. done.
Qed.
Lemma parent_node kids :
  kids ≠ [] -> Forall wf_mid kids -> exists raw,
    marshal (mkDAGNode (map String kids) [] []) = Ok raw /\
    FromBytes alg raw = Ok (parent_mid alg kids) /\ wf_mid (parent_mid alg kids) /\
    isInternalNode raw = Some (map String kids).
Proof.
  intros Hne Hwf. unfold parent_mid.
  destruct (marshal_ok (mkDAGNode (map String kids) [] [])) as (raw & E & _).
  { constructor; [constructor|]. simpl. clear Hne.
    induction Hwf as [|m ms Hm _ IH]; constructor; [by apply String_ascii|done]. }
  exists raw. rewrite E.
  destruct (FromBytesWithCodec_sum alg raw CodecRaw Halg) as (mh & _ & _ & Em); [done|].
  unfold FromBytes. destruct (FromBytesWithCodec_wf alg raw CodecRaw _ Halg ltac:(done) Em).
  rewrite Em. split_and!; [done..|]. apply isInternalNode_marshal; [|done].
  by destruct kids.
Qed.
End tree.

Section build.
Context `{Multiformats} `{!MultiformatsLaws} `{Protos} `{!ProtosLaws}.
Context (alg : Z) (Halg : isSupportedHash alg = true) (F : nat) (HF : (1 < F)%nat).
Context {St : Type} `{Blockstore St} (inv : St -> Prop) `{!BlockstoreLaws St alg inv}.
Implicit Types (s : St) (x : MID * bytes).

(** the store refused a block it should take *)
Definition PutFails : Prop := exists m d s e s',
  inv s /\ wf_mid m /\ names alg m d /\ bs_Put m d s = (Err e, s').

Definition held s : MID -> bytes -> Prop := λ m d, bs_Get m s = Ok d.
(** [x]: a MID with the content stored under it *)
Definition subtree s x : Prop := wf_mid x.1 /\ exists h, Tree alg (held s) h x.1 x.2.
Definition parent2 (g : list (MID * bytes)) : MID * bytes := (parent_mid alg g.*1, concat g.*2).

Lemma subtree_keeps s s' x : keeps alg s s' -> subtree s x -> subtree s' x.
Proof.
  intros Hk [Hm [h HT]]. split; [done|]. exists h. eapply Tree_mono; [|done..].
  intros m d ???. by apply Hk.
Qed.
Lemma subtrees_keeps s s' (ls : list (list (MID * bytes))) :
  keeps alg s s' -> Forall (Forall (subtree s)) ls -> Forall (Forall (subtree s')) ls.
Proof.
  intros Hk Hl. eapply Forall_impl; [done|]. intros l Hl'. eapply Forall_impl; [done|].
  intros x. by apply subtree_keeps.
Qed.

(** what an operation that only adds blocks leaves behind *)
Definition grows s s' : Prop := inv s' /\ keeps alg s s'.
Lemma grows_trans s1 s2 s3 : grows s1 s2 -> grows s2 s3 -> grows s1 s3.
Proof. intros [? ?] [? ?]. split; [done|]. by etrans. Qed.
Lemma put_outcome m d s msg :
  inv s -> wf_mid m -> names alg m d ->
  exists r s', wrapM msg (bs_Put m d) s = (r, s') /\ grows s s' /\
    (r = Ok tt /\ bs_Get m s' = Ok d \/ (exists e, r = Err e) /\ PutFails).
Proof.
  intros Hs Hm Hn. unfold wrapM. destruct (bs_Put m d s) as [r s'] eqn:E.
  exists (wrap msg r), s'. split; [done|]. destruct (put_spec m d s r s' Hs Hm E) as (Hs' & Hr & Hk).
  split; [done|]. destruct r as [[]|e].
  - left. split; [done|]. by apply Hr.
  - right. split; [by eexists|]. by exists m, d, s, e, s'.
Qed.

Lemma subtree_parent s g raw :
  g ≠ [] -> Forall (subtree s) g ->
  marshal (mkDAGNode (map String g.*1) [] []) = Ok raw ->
  FromBytes alg raw = Ok (parent_mid alg g.*1) ->
  bs_Get (parent_mid alg g.*1) s = Ok raw -> subtree s (parent2 g).
Proof.
  intros Hne Hg Hraw Hp Hget.
  assert (Forall wf_mid g.*1) as Hwf.
  { apply Forall_fmap. eapply Forall_impl; [done|]. by intros x [? _]. }
  destruct (parent_node alg Halg g.*1) as (raw' & Hraw' & _ & Hwp & Hi); [by destruct g|done|].
  rewrite Hraw in Hraw'. injection Hraw' as <-. split; [done|].
  assert (exists h, Forall (λ x, Tree alg (held s) h x.1 x.2) g) as [h Hh].
  { clear Hne Hraw Hp Hget Hwf Hwp Hi raw. induction Hg as [|x g [Hx [h HT]] Hg' [h' IH]]; [by exists 0%nat|].
    exists (Nat.max h h'). constructor; [eapply Tree_mono; [by intros..| |done|done]; lia|].
    revert IH. clear Hx HT. induction Hg' as [|y g [Hy _] _ IHg]; intros IH; [constructor|].
    apply Forall_cons in IH as [IHy IH]. constructor; [|by apply IHg].
    eapply Tree_mono; [by intros..| |done|done]. lia. }
  exists (S h), raw. split; [by eapply (FromBytes_names alg Halg raw CodecRaw)|].
  split; [done|]. rewrite Hi. exists g.*2. split; [done|].
  clear Hne Hg Hraw Hp Hget Hwp Hi raw.
  induction Hh as [|x g Hx _ IH]; simpl in *; [constructor|].
  apply Forall_cons in Hwf as [Hw Hwf]. constructor; [|by apply IH].
  exists x.1. split; [by apply Parse_wf_String|done].
Qed.

Lemma collapse_spec g s :
  inv s -> g ≠ [] -> Forall (subtree s) g ->
  exists r s', collapse alg g.*1 s = (r, s') /\ grows s s' /\
    (r = Ok (parent2 g).1 /\ subtree s' (parent2 g) \/ (exists e, r = Err e) /\ PutFails).
Proof.
  intros Hs Hne Hg.
  assert (Forall wf_mid g.*1) as Hwf.
  { apply Forall_fmap. eapply Forall_impl; [done|]. by intros x [? _]. }
  destruct (parent_node alg Halg g.*1) as (raw & Hraw & Hp & Hwp & _); [by destruct g|done|].
  destruct (put_outcome (parent_mid alg g.*1) raw s "dag: store internal")
    as (r & s' & Eput & Hgr & Hr); [done..|by eapply (FromBytes_names alg Halg raw CodecRaw)|].
  unfold collapse. rewrite bool_decide_eq_false_2 by (by destruct g).
  rewrite Hraw. cbn [wrap]. unfold liftr at 1. erewrite M_bind_Ok by done.
  unfold liftr. erewrite M_bind_Ok by (by rewrite Hp).
  destruct Hr as [[-> Hget]|[[e ->] HPF]].
  - erewrite M_bind_Ok by done. eexists _, s'. split; [done|]. split; [done|]. left.
    split; [done|]. eapply subtree_parent; try done.
    eapply Forall_impl; [done|]. intros x. apply subtree_keeps, Hgr.
  - erewrite M_bind_Err by done. eexists _, s'. split; [done|]. split; [done|]. right.
    split; [by eexists|done].
Qed.

Abbreviation mids pl := (map (map fst) pl).
Definition failed {A} (r : result A) : Prop := (exists e, r = Err e) /\ PutFails.

Lemma push_spec pl l x s :
  inv s -> Rep parent2 F pl l -> Forall (Forall (subtree s)) pl -> subtree s x ->
  exists r s', push alg F (mids pl) x.1 s = (r, s') /\ grows s s' /\
    ((exists pl', r = Ok (mids pl') /\ Rep parent2 F pl' (l ++ [x]) /\
        Forall (Forall (subtree s')) pl' /\
        (length pl' + length (concat (mids pl')) ≤
           length pl + length (concat (mids pl)) + if decide (pl = []) then 2 else 1)%nat) \/
     failed r).
Proof.
  revert l x s. induction pl as [|b rest IH]; intros l x s Hs HR Hst Hx.
  { simpl in HR. subst l. simpl. destruct (Nat.ltb_spec 1 F); [|lia].
    exists (Ok [[x.1]]), s. split; [done|]. split; [done|]. left. exists [[x]].
    split_and!; [done| |by constructor; [constructor|]|simpl; lia].
    exists []. split_and!; [done|constructor|simpl; lia|done]. }
  simpl in HR. destruct HR as (cs & -> & Hcs & Hb & HR).
  apply Forall_cons in Hst as [Hstb Hst].
  assert (Forall (subtree s) (b ++ [x])) as Hbx by (apply Forall_app; split; [done|by constructor]).
  cbn [map push]. change (map fst b ++ [x.1]) with (map fst b ++ map fst [x]).
  rewrite <-map_app, length_map.
  destruct (Nat.ltb_spec (length (b ++ [x])) F) as [Hlt|Hge].
  { exists (Ok (mids ((b ++ [x]) :: rest))), s. split; [done|]. split; [done|]. left.
    exists ((b ++ [x]) :: rest). split; [done|]. split.
    - exists cs. by rewrite app_assoc.
    - split; [by constructor|]. cbn [map concat]. rewrite decide_False by done.
      rewrite !length_app, !length_map, length_app. simpl. lia. }
  assert (length (b ++ [x]) = F) as Hfull by (rewrite length_app in *; simpl in *; lia).
  destruct (collapse_spec (b ++ [x]) s Hs) as (r & s1 & E1 & Hg1 & Hr);
    [by destruct b|done|]. change (map fst (b ++ [x])) with ((b ++ [x]).*1).
  destruct Hr as [[-> Hp]|Hfail].
  2:{ destruct Hfail as [[e ->] HPF]. erewrite M_bind_Err by done.
      eexists _, s1. split; [done|]. split; [done|]. right. split; [by eexists|done]. }
  erewrite M_bind_Ok by done.
  destruct (IH (parent2 <$> cs) (parent2 (b ++ [x])) s1) as (r2 & s2 & E2 & Hg2 & Hr2);
    [apply Hg1|done|by eapply subtrees_keeps; [apply Hg1|]|done|].
  pose proof (grows_trans _ _ _ Hg1 Hg2) as Hg.
  destruct Hr2 as [(pl' & -> & HR' & Hst' & Hmu)|[[e ->] HPF]].
  - erewrite M_bind_Ok by done. eexists (Ok (mids ([] :: pl'))), s2. split; [done|].
    split; [done|]. left. exists ([] :: pl'). split; [done|]. split.
    + exists (cs ++ [b ++ [x]]). rewrite concat_app, fmap_app. simpl.
      rewrite !app_nil_r, app_assoc. split_and!; [done| |lia|done].
      apply Forall_app. split; [done|by constructor].
    + split; [by constructor|]. cbn [map concat length]. rewrite decide_False by done.
      rewrite ?length_app, ?length_map, ?length_fmap. rewrite length_app in Hfull. simpl in Hfull |- *.
      destruct (decide (rest = [])) as [->|]; simpl in *; lia.
  - erewrite M_bind_Err by done. eexists _, s2. split; [done|]. split; [done|].
    right. split; [by eexists|done].
Qed.

Lemma topmost_empty {A} (pl : list (list (A * bytes))) :
  forallb (λ lv, bool_decide (lv = [])) (map (map fst) pl) = true <-> Forall (eq []) pl.
Proof.
  induction pl as [|b pl IH]; simpl; [split; [by constructor|done]|].
  rewrite andb_true_iff, bool_decide_eq_true, IH, Forall_cons. split; intros [Hb Hpl];
    (split; [|done]); by destruct b.
Qed.

Lemma finalize_spec fuel pl l s :
  inv s -> l ≠ [] -> Rep parent2 F pl l -> Forall (Forall (subtree s)) pl ->
  (length pl + length (concat (mids pl)) < fuel)%nat ->
  exists r s', finalize alg F fuel (mids pl) s = (r, s') /\ grows s s' /\
    ((exists x, r = Ok x.1 /\ batch parent2 F l = Some x /\ subtree s' x) \/ failed r).
Proof.
  revert pl l s. induction fuel as [|fuel IH]; intros pl l s Hs Hne HR Hst Hf; [lia|].
  destruct pl as [|b rest]; [done|]. apply Forall_cons in Hst as [Hstb Hst].
  destruct b as [|x more].
  { destruct (Rep_batch_skip parent2 F HF rest l Hne HR) as (l' & Hne' & HR' & ->).
    cbn [map finalize]. apply IH; try done. simpl in Hf. lia. }
  set (b := x :: more) in *. cbn [map]. subst b. cbn [map finalize].
  set (b := x :: more) in *. change (x.1 :: map fst more) with (b.*1).
  destruct (bool_decide (map fst more = []) && topmost (mids rest)) eqn:Htop.
  { apply andb_true_iff in Htop as [Hm Htop]. apply bool_decide_eq_true in Hm.
    apply map_eq_nil in Hm as ->. apply topmost_empty in Htop.
    destruct HR as (cs & -> & _ & _ & HR). apply Rep_empty in HR; [|done].
    apply fmap_nil_inv in HR as ->. exists (Ok x.1), s. split; [done|]. split; [done|]. left.
    exists x. split_and!; [done..|]. by apply Forall_cons in Hstb as [? _]. }
  assert ((1 < length b)%nat \/ ¬ Forall (eq []) rest) as Hbig.
  { destruct more as [|y more]; [right|left; simpl; lia]. intros Hall.
    rewrite bool_decide_eq_true_2 in Htop by done. simpl in Htop.
    apply topmost_empty in Hall. unfold topmost in Htop. by rewrite Hall in Htop. }
  destruct (Rep_batch_flush parent2 F HF b rest l ltac:(done) HR Hbig) as (l' & HR' & Hbatch).
  destruct (collapse_spec b s Hs) as (r & s1 & E1 & Hg1 & Hr); [done..|].
  destruct Hr as [[-> Hp]|[[e ->] HPF]].
  2:{ erewrite M_bind_Err by done. eexists _, s1. split; [done|]. split; [done|]. right.
      split; [by eexists|done]. }
  erewrite M_bind_Ok by done.
  destruct (push_spec rest l' (parent2 b) s1) as (r2 & s2 & E2 & Hg2 & Hr2);
    [apply Hg1|done|by eapply subtrees_keeps; [apply Hg1|]|done|].
  destruct Hr2 as [(pl' & -> & HR2 & Hst2 & Hmu)|[[e ->] HPF]].
  2:{ erewrite M_bind_Err by done. eexists _, s2. split; [done|].
      split; [by eapply grows_trans|]. right. split; [by eexists|done]. }
  erewrite M_bind_Ok by done.
  destruct (IH pl' (l' ++ [parent2 b]) s2) as (r3 & s3 & E3 & Hg3 & Hr3);
    [apply Hg2|by destruct l'|done|done| |].
  { cbn [map concat length] in Hf. rewrite length_app, length_map in Hf.
    destruct (decide (rest = [])) as [->|]; simpl in *; [|lia].
    destruct Hbig as [Hbig|Hbig]; [simpl in Hbig; lia|]. by destruct Hbig. }
  exists r3, s3. split; [done|]. split; [by do 2 (eapply grows_trans; [done|])|].
  rewrite Hbatch. done.
Qed.

(** a block the chunkers deliver, whose data is not the encoding of an internal node *)
Record good_block (b : Block) : Prop := {
  gb_mid : BlockMID b = FromBytes alg (Data b);
  gb_size : BSize b ≠ 0;
  gb_leaf : isInternalNode (Data b) = None;
}.
Definition leaf (b : Block) : MID * bytes :=
  (match BlockMID b with Ok m => m | Err _ => zeroMID end, Data b).

Lemma good_leaf b : good_block b -> BlockMID b = Ok (leaf b).1 /\ wf_mid (leaf b).1 /\
  names alg (leaf b).1 (Data b).
Proof.
  intros [Hm _ _].
  destruct (FromBytesWithCodec_sum alg (Data b) CodecRaw Halg) as (mh & _ & _ & E); [done|].
  pose proof (FromBytesWithCodec_wf alg (Data b) CodecRaw _ Halg ltac:(done) E) as [Hwf _].
  fold (FromBytes alg (Data b)) in E. rewrite E in Hm. unfold leaf. rewrite Hm. simpl.
  split_and!; [done..|]. by eapply (FromBytes_names alg Halg (Data b) CodecRaw).
Qed.

Lemma add_leaf_spec pl l b s :
  inv s -> Rep parent2 F pl l -> Forall (Forall (subtree s)) pl -> good_block b ->
  exists r s', add_leaf alg F (mids pl) (leaf b).1 (Data b) s = (r, s') /\ grows s s' /\
    ((exists pl', r = Ok (mids pl') /\ Rep parent2 F pl' (l ++ [leaf b]) /\
        Forall (Forall (subtree s')) pl') \/ failed r).
Proof.
  intros Hs HR Hst Hb. destruct (good_leaf b Hb) as (Hbm & Hwf & Hn). unfold add_leaf.
  destruct (put_outcome (leaf b).1 (Data b) s "dag: store leaf" Hs Hwf Hn)
    as (r & s1 & E1 & Hg1 & [[-> Hget]|[[e ->] HPF]]).
  2:{ erewrite M_bind_Err by done. eexists _, s1. split; [done|]. split; [done|].
      right. split; [by eexists|done]. }
  erewrite M_bind_Ok by done.
  destruct (push_spec pl l (leaf b) s1) as (r & s2 & E2 & Hg2 & Hr).
  - apply Hg1.
  - done.
  - eapply subtrees_keeps; [apply Hg1|done].
  - split; [done|]. exists 1%nat, (Data b). split_and!; [done..|].
    by rewrite (gb_leaf b Hb).
  - exists r, s2. split; [done|]. split; [by eapply grows_trans|].
    destruct Hr as [(pl' & ? & ? & ? & _)|?]; [left; by exists pl'|by right].
Qed.

Context {C : Type} `{Chunker C}.

Lemma build_loop_spec fuel c blocks e saw pl l s :
  Yields c blocks e -> errors_is e EOF = true -> Forall good_block blocks ->
  (length blocks < fuel)%nat ->
  inv s -> Rep parent2 F pl l -> Forall (Forall (subtree s)) pl ->
  exists r s', build_loop alg F fuel c saw (mids pl) s = (r, s') /\ grows s s' /\
    ((exists pl', r = Ok (saw || negb (bool_decide (blocks = [])), mids pl') /\
        Rep parent2 F pl' (l ++ map leaf blocks) /\ Forall (Forall (subtree s')) pl') \/ failed r).
Proof.
  intros HY He. revert fuel saw pl l s.
  induction HY as [c c' e HN|c c' b bs e HN _ IH]; intros fuel saw pl l s Hgood Hf Hs HR Hst.
  { destruct fuel as [|fuel]; [simpl in Hf; lia|]. cbn [build_loop]. rewrite HN, He.
    exists (Ok (saw, mids pl)), s. split; [done|]. split; [done|]. left. exists pl.
    rewrite app_nil_r. by rewrite orb_false_r. }
  apply Forall_cons in Hgood as [Hb Hgood]. destruct fuel as [|fuel]; [simpl in Hf; lia|].
  destruct (good_leaf b Hb) as (Hbm & Hwf & Hn). cbn [build_loop]. rewrite HN.
  unfold BlockSize. destruct (Z.eqb_spec (BSize b) 0) as [E0|_]; [by destruct (gb_size b Hb)|].
  unfold liftr. erewrite M_bind_Ok by (by rewrite Hbm).
  rewrite wf_not_zero by done.
  destruct (add_leaf_spec pl l b s Hs HR Hst Hb) as (r1 & s1 & E1 & Hg1 & [(pl1 & -> & HR1 & Hst1)|[[e1 ->] HPF]]).
  2:{ erewrite M_bind_Err by done. eexists _, s1. split; [done|]. split; [done|].
      right. split; [by eexists|done]. }
  erewrite M_bind_Ok by done.
  destruct (IH He fuel true pl1 (l ++ [leaf b]) s1) as (r2 & s2 & E2 & Hg2 & Hr2);
    [done|simpl in Hf; lia|apply Hg1|done..|].
  exists r2, s2. split; [done|]. split; [by eapply grows_trans|].
  destruct Hr2 as [(pl2 & -> & HR2 & Hst2)|?]; [left|by right]. exists pl2.
  rewrite (bool_decide_eq_false_2 (b :: bs = [])), orb_true_r by done.
  split_and!; [done| |done]. by rewrite <-app_assoc in HR2.
Qed.

Lemma subtree_root l x :
  batch parent2 F l = Some x -> l ≠ [] ->
  batch_root alg F l.*1 = Some x.1 /\ x.2 = concat l.*2.
Proof.
  intros E Hne. split.
  - unfold batch_root. rewrite <-(batch_fmap fst parent2) by done. by rewrite E.
  - pose proof (batch_fmap snd parent2 (@concat byte) F l ltac:(done)) as Hs.
    rewrite E, batch_concat in Hs by (done || by destruct l). by injection Hs.
Qed.
Lemma leaves_fst bs : (map leaf bs).*1 = map (λ b, (leaf b).1) bs.
Proof. unfold fmap, list_fmap. induction bs as [|b bs IH]; simpl; [done|]. by f_equal. Qed.
Lemma leaves_snd bs : (map leaf bs).*2 = Data <$> bs.
Proof. induction bs as [|b bs IH]; [done|]. simpl. by f_equal. Qed.

(** what a finished build promises: the root of the level-complete reduction over
    the leaf MIDs, under which the store holds the concatenated data *)
Definition built (blocks : list Block) (r : result MID) (s' : St) : Prop :=
  exists root h, r = Ok root /\ wf_mid root /\
    batch_root alg F (map (λ b, (leaf b).1) blocks) = Some root /\
    Tree alg (held s') h root (concat (Data <$> blocks)).

Lemma finalize_built blocks pl s :
  inv s -> blocks ≠ [] -> Rep parent2 F pl (map leaf blocks) ->
  Forall (Forall (subtree s)) pl ->
  exists r s', finalize alg F (finalize_fuel (mids pl)) (mids pl) s = (r, s') /\ grows s s' /\
    (built blocks r s' \/ failed r).
Proof.
  intros Hs Hne HR Hst. assert (map leaf blocks ≠ []) as Hne' by (by destruct blocks).
  destruct (finalize_spec (finalize_fuel (mids pl)) pl (map leaf blocks) s)
    as (r & s' & E & Hg & Hr); [done..| |].
  { unfold finalize_fuel. rewrite length_map. lia. }
  exists r, s'. split; [done|]. split; [done|].
  destruct Hr as [(x & -> & Hb & Hwf & h & HT)|?]; [left|by right].
  destruct (subtree_root _ _ Hb Hne') as [Hroot Hc]. exists x.1, h.
  rewrite leaves_fst in Hroot. rewrite Hc, leaves_snd in HT. done.
Qed.
Lemma Build_spec fuel c blocks s :
  inv s -> Yields c blocks EOF -> blocks ≠ [] -> Forall good_block blocks ->
  (length blocks < fuel)%nat ->
  exists r s', Build alg F fuel c s = (r, s') /\ grows s s' /\ (built blocks r s' \/ failed r).
Proof.
  intros Hs HY Hne Hgood Hf.
  destruct (build_loop_spec fuel c blocks EOF false [] [] s)
    as (r1 & s1 & E1 & Hg1 & Hr1); [done..|by constructor|]. unfold Build.
  destruct Hr1 as [(pl & -> & HR & Hst)|[[e ->] HPF]].
  2:{ erewrite M_bind_Err by done. eexists _, s1. split; [done|]. split; [done|].
      right. split; [by eexists|done]. }
  erewrite M_bind_Ok by done. rewrite bool_decide_eq_false_2 by done. simpl negb. cbv match.
  destruct (finalize_built blocks pl s1) as (r2 & s2 & E2 & Hg2 & Hr2); [apply Hg1|done..|].
  exists r2, s2. split; [done|]. split; [by eapply grows_trans|done].
Qed.
End build.

(** ** The parallel builder is the sequential one *)
Section parallel_facts.
Context `{Multiformats} `{!MultiformatsLaws} `{Protos}.
Context (alg : Z) (Halg : isSupportedHash alg = true) (F : nat) {St : Type} `{Blockstore St}.

Fixpoint add_leaves (xs : list (MID * bytes)) (levels : list (list MID)) : M St (list (list MID)) :=
  match xs with
  | [] => mret levels
  | x :: xs => levels ← add_leaf alg F levels x.1 x.2; add_leaves xs levels
  end.

(** what both builders do once the leaves are known *)
Definition sequential (xs : list (MID * bytes)) (saw : bool) (levels : list (list MID))
    : M St (bool * list (list MID)) :=
  levels ← add_leaves xs levels; mret (saw || negb (bool_decide (xs = [])), levels).

Lemma sequential_cons x xs saw levels s :
  sequential (x :: xs) saw levels s =
  (levels ← add_leaf alg F levels x.1 x.2; sequential xs true levels) s.
Proof.
  unfold sequential. cbn [add_leaves]. unfold mbind, M_bind at 1 2 3.
  destruct (add_leaf alg F levels x.1 x.2 s) as [[lv|e] s1]; [|done].
  unfold mbind, M_bind. rewrite (bool_decide_eq_false_2 (x :: xs = [])) by done.
  by rewrite orb_true_r.
Qed.

Lemma build_loop_sequential {C} `{Chunker C} fuel c blocks e saw levels s :
  Yields c blocks e -> errors_is e EOF = true -> Forall (good_block alg) blocks ->
  (length blocks < fuel)%nat ->
  build_loop alg F fuel c saw levels s = sequential (map leaf blocks) saw levels s.
Proof using All.
  intros HY He. revert fuel saw levels s.
  induction HY as [c c' e HN|c c' b bs e HN _ IH]; intros [|fuel] saw levels s Hgood Hf;
    simpl in Hf; try lia; cbn [build_loop]; rewrite HN.
  { rewrite He. unfold sequential. simpl. by rewrite orb_false_r. }
  apply Forall_cons in Hgood as [Hb Hgood].
  destruct (good_leaf alg Halg b Hb) as (Hbm & Hwf & _).
  unfold BlockSize. destruct (Z.eqb_spec (BSize b) 0) as [E0|_]; [by destruct (gb_size _ b Hb)|].
  unfold liftr. erewrite M_bind_Ok by (by rewrite Hbm). rewrite wf_not_zero by done.
  rewrite map_cons, sequential_cons. unfold mbind, M_bind.
  change (leaf b).2 with (Data b).
  destruct (add_leaf alg F levels (leaf b).1 (Data b) s) as [[lv|e1] s1]; [|done].
  apply IH; [done..|lia].
Qed.

(** the jobs as the consumer should see them: the [i]-th carries index [i] *)
Variable pcs : list processedChunk.
Hypothesis pcs_index : forall i pc, pcs !! i = Some pc -> pc_index pc = i.
Definition pc_leaf (pc : processedChunk) : MID * bytes := (pc_leafMID pc, pc_data pc).

(** [pending] is what has arrived and not been added; [rs] has yet to arrive *)
Record consume_inv (pending : gmap nat processedChunk) (next : nat) (rs : list processedChunk) : Prop := {
  ci_pending i pc : pending !! i = Some pc <-> (next ≤ i)%nat /\ pcs !! i = Some pc /\ pc ∉ rs;
  ci_rest pc : pc ∈ rs -> (next ≤ pc_index pc)%nat /\ pcs !! (pc_index pc) = Some pc;
  ci_nodup : NoDup rs;
}.

Lemma consume_inv_arrive pending next res rs :
  consume_inv pending next (res :: rs) -> consume_inv (<[pc_index res := res]> pending) next rs.
Proof.
  intros [Hp Hr Hnd]. apply NoDup_cons in Hnd as [Hnew Hnd].
  destruct (Hr res ltac:(by left)) as [Hle Hres]. split; [|intros; apply Hr; by right|done].
  intros i pc. destruct (decide (i = pc_index res)) as [->|Hne].
  - rewrite lookup_insert_eq. split; [intros [= <-]; done|].
    intros (_ & E & _). rewrite Hres in E. done.
  - rewrite lookup_insert_ne, Hp by done. split; intros (Ha & Hb & Hc); split_and!; try done.
    + intros Hin. apply Hc. by right.
    + intros [->|?]%elem_of_cons; [|done]. apply pcs_index in Hb. done.
Qed.
Lemma consume_inv_drain pending next rs pc :
  consume_inv pending next rs -> pending !! next = Some pc ->
  consume_inv (delete next pending) (S next) rs.
Proof.
  intros [Hp Hr Hnd] Hpc. apply Hp in Hpc as Hpc'. destruct Hpc' as (_ & Hpcs & Hnin).
  split; [| |done].
  - intros i pc'. destruct (decide (i = next)) as [->|Hne].
    + rewrite lookup_delete_eq. split; [done|]. intros (? & _ & _). lia.
    + rewrite lookup_delete_ne, Hp by done. split; intros (? & ? & ?); split_and!; done || lia.
  - intros pc' Hin. destruct (Hr pc' Hin) as [Hle E]. split; [|done].
    destruct (decide (pc_index pc' = next)) as [E'|]; [|lia]. rewrite E' in E.
    rewrite Hpcs in E. injection E as ->. done.
Qed.

Lemma drain_sequential {A} (K : _ -> M St A) (R : nat -> bool -> list (list MID) -> M St A) rs :
  (forall pending next saw levels s, consume_inv pending next rs -> pending !! next = None ->
     K (pending, next, saw, levels) s = R next saw levels s) ->
  (forall next saw levels s pc, pcs !! next = Some pc ->
     R next saw levels s =
     (levels ← add_leaf alg F levels (pc_leafMID pc) (pc_data pc); R (S next) true levels) s) ->
  forall fuel pending next saw levels s,
    consume_inv pending next rs -> (size pending < fuel)%nat ->
    (drain_pending alg F fuel pending next saw levels ≫= K) s = R next saw levels s.
Proof using All.
  intros HK HR. induction fuel as [|fuel IH]; intros pending next saw levels s Hinv Hf; [lia|].
  cbn [drain_pending]. destruct (pending !! next) as [pc|] eqn:E.
  2:{ by apply HK. }
  apply (ci_pending _ _ _ Hinv) in E as Hpc. destruct Hpc as (_ & Hpcs & _).
  rewrite (HR _ _ _ _ pc) by done. unfold mbind, M_bind.
  destruct (add_leaf alg F levels (pc_leafMID pc) (pc_data pc) s) as [[lv|e] s1]; [|done].
  apply IH; [by eapply consume_inv_drain|].
  assert (size pending ≠ 0%nat) by (apply map_size_ne_0_lookup; by exists next, pc).
  rewrite map_size_delete, E. simpl. lia.
Qed.

Lemma consume_sequential rs pending next saw levels s :
  consume_inv pending next rs -> (rs = [] -> pending !! next = None) ->
  consume alg F rs pending next saw levels s =
  sequential (pc_leaf <$> drop next pcs) saw levels s.
Proof using All.
  revert pending next saw levels s.
  induction rs as [|res rs IH]; intros pending next saw levels s Hinv Hnone.
  - cbn [consume]. assert (drop next pcs = []) as ->.
    { apply drop_ge. destruct (decide (length pcs ≤ next)%nat) as [|Hlt]; [done|].
      destruct (lookup_lt_is_Some_2 pcs next) as [pc Hpc]; [lia|]. specialize (Hnone eq_refl).
      assert (pending !! next = Some pc) as E by (apply (ci_pending _ _ _ Hinv); split_and!; [lia|done|apply not_elem_of_nil]).
      by rewrite E in Hnone. }
    unfold sequential. simpl. by rewrite orb_false_r.
  - cbn [consume].
    apply (drain_sequential _ (λ next saw levels, sequential (pc_leaf <$> drop next pcs) saw levels) rs).
    + intros. by apply IH.
    + intros next' saw' levels' s' pc Hpc. rewrite (drop_S _ _ _ Hpc), fmap_cons.
      apply sequential_cons.
    + by apply consume_inv_arrive.
    + lia.
Qed.
End parallel_facts.

Section pipeline_facts.
Context `{Multiformats} `{!MultiformatsLaws}.
Context (alg : Z) (Halg : isSupportedHash alg = true).

Definition job_of (idx : nat) (b : Block) : chunkJob := mkJob idx b.
Definition processed (idx : nat) (b : Block) : processedChunk :=
  mkProcessed idx (leaf b).1 (Data b).
(** the pipeline at its start: the producer has everything still to send *)
Definition pipeline_init (workers : nat) (blocks : list Block) : pipeline :=
  mkPipeline None (imap job_of blocks) (replicate workers None) [] None.

Definition held_jobs (ws : list (option chunkJob)) : list chunkJob := omap id ws.
Definition done_job (j : chunkJob) : processedChunk := processed (cj_index j) (cj_block j).

Context `{Protos}.

Lemma good_worker_job j : good_block alg (cj_block j) -> worker_job j = Ok (done_job j).
Proof using All.
  intros Hb. destruct (good_leaf alg Halg _ Hb) as (Hbm & Hwf & _).
  unfold worker_job. rewrite Hbm. simpl. by rewrite wf_not_zero.
Qed.

(** nothing is lost, duplicated or invented on the way *)
Definition pipeline_inv (blocks : list Block) (workers : nat) (p : pipeline) : Prop :=
  p_producer p = None /\ p_err p = None /\ length (p_workers p) = workers /\
  Forall (λ j, good_block alg (cj_block j)) (held_jobs (p_workers p) ++ p_jobs p) /\
  p_results p ++ (done_job <$> held_jobs (p_workers p) ++ p_jobs p) ≡ₚ imap processed blocks.

Lemma held_jobs_app ws1 o ws2 :
  held_jobs (ws1 ++ o :: ws2) = held_jobs ws1 ++ match o with Some j => [j] | None => [] end ++ held_jobs ws2.
Proof. unfold held_jobs. rewrite omap_app. by destruct o. Qed.

Lemma pipeline_inv_step blocks workers p p' :
  pipeline_inv blocks workers p -> pipeline_step p p' -> pipeline_inv blocks workers p'.
Proof using All.
  intros (Hprod & He & Hlen & Hgood & HP) Hstep.
  destruct Hstep as [pe j jobs ws1 ws2 rs e|pe j jobs ws1 ws2 rs e pc Hj|pe j jobs ws1 ws2 rs e err Hj|err jobs ws rs e];
    simpl in *; unfold pipeline_inv; simpl; subst; rewrite ?held_jobs_app in *;
    rewrite ?length_app in *; simpl in *; [| | |done].
  - assert ((held_jobs ws1 ++ j :: held_jobs ws2) ++ jobs ≡ₚ
            (held_jobs ws1 ++ held_jobs ws2) ++ j :: jobs) as HPj by solve_Permutation.
    split_and!; [done..|by rewrite HPj|by rewrite HPj].
  - assert ((held_jobs ws1 ++ j :: held_jobs ws2) ++ jobs ≡ₚ
            j :: (held_jobs ws1 ++ held_jobs ws2) ++ jobs) as HPj by solve_Permutation.
    rewrite HPj in Hgood. apply Forall_cons in Hgood as [Hg Hgood].
    rewrite good_worker_job in Hj by done. injection Hj as <-.
    split_and!; [done..|]. rewrite <-HP, HPj, fmap_cons. solve_Permutation.
  - assert ((held_jobs ws1 ++ j :: held_jobs ws2) ++ jobs ≡ₚ
            j :: (held_jobs ws1 ++ held_jobs ws2) ++ jobs) as HPj by solve_Permutation.
    rewrite HPj in Hgood. apply Forall_cons in Hgood as [Hg Hgood].
    by rewrite good_worker_job in Hj.
Qed.
Lemma pipeline_inv_init blocks workers :
  Forall (good_block alg) blocks -> pipeline_inv blocks workers (pipeline_init workers blocks).
Proof using All.
  intros Hgood. unfold pipeline_inv, pipeline_init. simpl.
  assert (held_jobs (replicate workers None) = []) as -> by (by induction workers).
  split_and!; [done..|by rewrite length_replicate| |].
  - apply Forall_forall. intros j (i & b & -> & Hb)%elem_of_lookup_imap. simpl.
    eapply Forall_lookup_1; done.
  - simpl. rewrite fmap_imap. done.
Qed.

Lemma pipeline_results blocks workers p :
  Forall (good_block alg) blocks -> (0 < workers)%nat ->
  rtc pipeline_step (pipeline_init workers blocks) p -> pipeline_closed p ->
  p_err p = None /\ p_results p ≡ₚ imap processed blocks.
Proof using All.
  intros Hgood Hw Hrtc [Hidle Hend].
  assert (pipeline_inv blocks workers p) as (_ & He & Hlen & _ & HP).
  { revert Hrtc. apply (rtc_ind_r (λ p, pipeline_inv blocks workers p)).
    - by apply pipeline_inv_init.
    - intros p1 p2 _ Hstep Hinv. by eapply pipeline_inv_step. }
  split; [done|]. rewrite <-HP.
  assert (held_jobs (p_workers p) = []) as ->.
  { clear -Hidle. induction Hidle as [|o ws <- _ IH]; [done|]. apply IH. }
  destruct Hend as [[-> _]|E]; [by rewrite app_nil_r|]. rewrite E in Hlen. simpl in Hlen. lia.
Qed.

Lemma consume_inv_init blocks rs :
  rs ≡ₚ imap processed blocks -> consume_inv (imap processed blocks) ∅ 0 rs.
Proof.
  intros HP. split.
  - intros i pc. rewrite lookup_empty. split; [done|]. intros (_ & Hpc & Hn). exfalso. apply Hn.
    rewrite HP. by eapply list_elem_of_lookup_2.
  - intros pc Hin. rewrite HP in Hin. apply elem_of_lookup_imap in Hin as (i & b & -> & Hb).
    simpl. split; [lia|]. by rewrite list_lookup_imap, Hb.
  - rewrite HP. apply NoDup_alt. intros i j pc. rewrite !list_lookup_imap.
    destruct (blocks !! i), (blocks !! j); simpl; try done. intros [= <-] [= E _ _]. done.
Qed.
Lemma imap_processed_index blocks i pc :
  imap processed blocks !! i = Some pc -> pc_index pc = i.
Proof. rewrite list_lookup_imap. destruct (blocks !! i); simpl; [|done]. by intros [= <-]. Qed.
Lemma imap_processed_leaf blocks : pc_leaf <$> imap processed blocks = map leaf blocks.
Proof.
  rewrite fmap_imap. apply list_eq. intros i. rewrite list_lookup_imap, list_lookup_fmap.
  by destruct (blocks !! i).
Qed.
End pipeline_facts.

Section properties.
Context `{Multiformats} `{!MultiformatsLaws} `{Protos} `{!ProtosLaws}.
Context (alg : Z) (Halg : isSupportedHash alg = true).

(** C4: [Build] over a chunker that delivers non-empty, well-labelled blocks returns
    (unless the blockstore refuses a block it should take) the root of the
    level-complete reduction [batch_root] over the leaf MIDs, whatever the order in
    which the stack of levels flushed; afterwards every block the store held is still
    held, and the store holds a complete DAG under the root whose content is the
    concatenation of the chunks. *)
Theorem Build_correct F {St C} `{Blockstore St} `{Chunker C} (inv : St -> Prop)
    `{!BlockstoreLaws St alg inv} fuel (c : C) blocks (s : St) :
  (1 < F)%nat -> inv s -> Yields c blocks EOF -> blocks ≠ [] ->
  Forall (good_block alg) blocks -> (length blocks < fuel)%nat ->
  exists r s', Build alg F fuel c s = (r, s') /\ inv s' /\ keeps alg s s' /\
    ((exists root h, r = Ok root /\ wf_mid root /\
        batch_root alg F (map (λ b, (leaf b).1) blocks) = Some root /\
        Tree alg (λ m d, bs_Get m s' = Ok d) h root (concat (Data <$> blocks))) \/
     (exists e, r = Err e) /\ PutFails alg inv).
Proof using All.
  intros HF Hs HY Hne Hgood Hf.
  destruct (Build_spec alg Halg F HF inv fuel c blocks s) as (r & s' & E & [Hs' Hk] & Hr); [done..|].
  exists r, s'. by split_and!.
Qed.

(** C6: [BuildParallel] is [Build]: however the producer, the workers and the consumer
    interleave, once the pipeline has closed the consumer has made the same writes in
    the same order and returns the same result as the sequential builder, storage
    failures included. *)
Theorem BuildParallel_Build F {St C} `{Blockstore St} `{Chunker C} fuel (c : C) blocks workers p (s : St) :
  Yields c blocks EOF -> Forall (good_block alg) blocks -> (length blocks < fuel)%nat ->
  (0 < workers)%nat -> producer fuel c 0 = (p_jobs (pipeline_init workers blocks), None) /\
  (rtc pipeline_step (pipeline_init workers blocks) p -> pipeline_closed p ->
   BuildParallel_consumer alg F (p_results p) (p_err p) s = Build alg F fuel c s).
Proof using All.
  intros HY Hgood Hf Hw. split.
  - clear -HY Hgood Hf. simpl. unfold job_of.
    assert (forall idx, producer fuel c idx = (imap (λ i b, mkJob (idx + i) b) blocks, None)) as Hp.
    { remember EOF as e eqn:He. revert fuel Hf. induction HY as [c c' e HN|c c' b bs e HN HY IH];
        intros [|fuel] Hf idx; simpl in Hf; try lia; cbn [producer]; rewrite HN.
      - by subst e.
      - apply Forall_cons in Hgood as [Hb Hgood]. unfold BlockSize.
        destruct (Z.eqb_spec (BSize b) 0) as [E0|_]; [by destruct (gb_size _ b Hb)|].
        rewrite IH by (done || lia). simpl. rewrite Nat.add_0_r. do 2 f_equal.
        apply imap_ext. intros i x _. simpl. by rewrite Nat.add_succ_r. }
    rewrite Hp. done.
  - intros Hrtc Hcl. destruct (pipeline_results alg Halg blocks workers p) as [-> HP]; [done..|].
    unfold BuildParallel_consumer, Build. unfold mbind, M_bind at 1 2.
    rewrite (build_loop_sequential alg Halg F fuel c blocks EOF) by done.
    rewrite (consume_sequential alg Halg F (imap processed blocks) (imap_processed_index blocks)).
    + rewrite drop_0, imap_processed_leaf. done.
    + by apply consume_inv_init.
    + done.
Qed.

(** *** Resolver *)
Lemma verifyBlock_names m d u : verifyBlock alg m d = Ok u -> names alg m d.
Proof.
  unfold verifyBlock, names, wrap. destruct (DigestBytes m) as [dg|] eqn:E1; simpl; [|done].
  destruct (FromBytes alg d) as [m'|] eqn:E2; simpl; [|done].
  destruct (DigestBytes m') as [dg'|] eqn:E3; simpl; [|done].
  case_bool_decide; [|done]. intros _. subst. exists dg', m'. done.
Qed.
Lemma names_verifyBlock m d : names alg m d -> verifyBlock alg m d = Ok tt.
Proof.
  intros (dg & m' & E1 & E2 & E3). unfold verifyBlock, wrap. rewrite E1. simpl.
  rewrite E2. simpl. rewrite E3. simpl. by rewrite bool_decide_eq_true_2.
Qed.

Section walk.
Context (rd : nat -> MID -> result bytes) (visit : MID -> option error).

(** the loop over the links of an internal node *)
Fixpoint kids (walk : nat -> MID -> bytes * option error * nat) (t : nat) (links : list bytes)
    : bytes * option error * nat :=
  match links with
  | [] => ([], None, t)
  | s :: links =>
      match Parse s with
      | Err e => ([], Some (Wrap "dag: parse link" e), t)
      | Ok child =>
          let '(out, err, t) := walk t child in
          match err with
          | Some e => (out, Some e, t)
          | None => let '(out', err', t') := kids walk t links in (out ++ out', err', t')
          end
      end
  end.
Lemma resolve_walk_S fuel t m :
  resolve_walk alg rd visit (S fuel) t m =
  match poll rd t m with
  | (Err e, t) => ([], Some (Wrap "dag: get" e), t)
  | (Ok data, t) =>
      match verifyBlock alg m data with
      | Err e => ([], Some e, t)
      | Ok _ =>
          match isInternalNode data with
          | Some links =>
              match visit m with
              | Some e => ([], Some e, t)
              | None => kids (resolve_walk alg rd visit fuel) t links
              end
          | None => (data, None, t)
          end
      end
  end.
Proof.
  cbn [resolve_walk]. destruct (poll rd t m) as [[d|e] t']; [|done].
  destruct (verifyBlock alg m d); [|done]. destruct (isInternalNode d) as [links|]; [|done].
  destruct (visit m); [done|]. revert t'. induction links as [|s links IH]; intros t'; [done|].
  cbn [kids]. destruct (Parse s) as [child|]; [|done]. destruct (resolve_walk _ _ _ fuel t' child) as [[out [e|]] t2]; [done|].
  by rewrite IH.
Qed.

Definition output_of (c : bytes) (r : bytes * option error * nat) : Prop :=
  (exists rest, c = r.1.1 ++ rest) /\ (r.1.2 = None -> r.1.1 = c).

Lemma kids_output walk t links cs :
  Forall2 (λ s c, exists child, Parse s = Ok child /\ forall t, output_of c (walk t child)) links cs ->
  output_of (concat cs) (kids walk t links).
Proof.
  intros HF. revert t. induction HF as [|s c links cs (child & Hp & Hc) _ IH]; intros t.
  { by split; [exists []|]. }
  cbn [kids]. rewrite Hp. specialize (Hc t). destruct (walk t child) as [[out err] t1].
  destruct Hc as [[rest Hrest] Hall]. cbn [fst snd] in *. destruct err as [e|].
  - split; [|done]. exists (rest ++ concat cs). simpl. by rewrite Hrest, <-app_assoc.
  - rewrite (Hall eq_refl) in *. specialize (IH t1).
    destruct (kids walk t1 links) as [[out' err'] t2]. destruct IH as [[rest' Hr'] Hall'].
    cbn [fst snd] in *. split; cbn [fst snd].
    + exists rest'. cbn [concat]. by rewrite Hr', app_assoc.
    + intros E. cbn [concat]. by rewrite (Hall' E).
Qed.

Lemma resolve_walk_output `{!CollisionFree alg} fuel av h t m c :
  Tree alg av h m c -> output_of c (resolve_walk alg rd visit fuel t m).
Proof.
  revert fuel t m c. induction h as [|h IH]; intros fuel t m c; [done|].
  intros (d & Hn & _ & Hd). destruct fuel as [|fuel]; [split; [by exists c|done]|].
  rewrite resolve_walk_S. destruct (poll rd t m) as [[d'|e] t']; [|split; [by exists c|done]].
  destruct (verifyBlock alg m d') as [u|e] eqn:Ev; [|split; [by exists c|done]].
  apply verifyBlock_names in Ev. rewrite (names_unique alg Halg m d' d Ev Hn).
  destruct (isInternalNode d) as [links|].
  - destruct Hd as (cs & -> & HF). destruct (visit m); [split; [by eexists|done]|].
    apply kids_output. eapply Forall2_impl; [done|].
    intros s c (child & Hp & HT). exists child. split; [done|]. intros t2. by apply IH.
  - subst c. split; [|done]. exists []. by rewrite app_nil_r.
Qed.

(** every poll that looks for an [avail]able block finds it among its attempts,
    and reads no other data before *)
Definition settles (av : MID -> bytes -> Prop) : Prop := forall t m d, av m d ->
  exists k, (k ≤ attempts)%nat /\ rd (t + k)%nat m = Ok d /\
    forall j, (j < k)%nat -> exists e, rd (t + j)%nat m = Err e.

Lemma retry_found n t m d e k :
  (k < n)%nat -> rd (t + k)%nat m = Ok d ->
  (forall j, (j < k)%nat -> exists e, rd (t + j)%nat m = Err e) ->
  exists t', retry rd n t m e = (Ok d, t').
Proof.
  revert t e k. induction n as [|n IH]; intros t e k Hk Hd Hj; [lia|]. cbn [retry].
  destruct k as [|k].
  - rewrite Nat.add_0_r in Hd. rewrite Hd. by eexists.
  - destruct (Hj 0%nat ltac:(lia)) as [e' He]. rewrite Nat.add_0_r in He. rewrite He.
    apply (IH _ _ k); [lia|by rewrite Nat.add_succ_comm|].
    intros j Hj'. specialize (Hj (S j) ltac:(lia)). by rewrite Nat.add_succ_comm.
Qed.
Lemma poll_settles av t m d : settles av -> av m d -> exists t', poll rd t m = (Ok d, t').
Proof.
  intros Hs Ha. destruct (Hs t m d Ha) as (k & Hk & Hd & Hj). unfold poll. destruct k as [|k].
  - rewrite Nat.add_0_r in Hd. rewrite Hd. by eexists.
  - destruct (Hj 0%nat ltac:(lia)) as [e He]. rewrite Nat.add_0_r in He. rewrite He.
    apply (retry_found _ _ _ _ _ k); [lia|by rewrite Nat.add_succ_comm|].
    intros j Hj'. specialize (Hj (S j) ltac:(lia)). by rewrite Nat.add_succ_comm.
Qed.
Lemma resolve_walk_complete fuel av h t m c :
  settles av -> (forall m, visit m = None) -> (h ≤ fuel)%nat -> Tree alg av h m c ->
  exists t', resolve_walk alg rd visit fuel t m = (c, None, t').
Proof.
  intros Hs Hv. revert fuel t m c. induction h as [|h IH]; intros [|fuel] t m c Hh; simpl Tree;
    try (done || lia).
  intros (d & Hn & Ha & Hd). rewrite resolve_walk_S.
  destruct (poll_settles av t m d Hs Ha) as [t1 ->]. rewrite names_verifyBlock by done.
  destruct (isInternalNode d) as [links|]; [|subst; by eexists].
  destruct Hd as (cs & -> & HF). rewrite Hv. clear Ha Hn. revert t1.
  induction HF as [|s c links cs (child & Hp & HT) _ IHF]; intros t1; [by eexists|].
  cbn [kids]. rewrite Hp. destruct (IH fuel t1 child c ltac:(lia) HT) as [t2 ->].
  destruct (IHF t2) as [t3 ->]. by eexists.
Qed.
End walk.

Lemma verifyBlock_not_EOF m d : verifyBlock alg m d ≠ Err EOF.
Proof using All.
  unfold verifyBlock, wrap. destruct (DigestBytes m); simpl; [|done].
  destruct (FromBytesWithCodec_sum alg d CodecRaw Halg) as (mh & _ & _ & E); [done|].
  unfold FromBytes. rewrite E. simpl. destruct (DigestBytes _); simpl; [|done].
  by case_bool_decide.
Qed.
Lemma resolve_walk_not_EOF rd visit fuel t m :
  (forall m, visit m ≠ Some EOF) -> (resolve_walk alg rd visit fuel t m).1.2 ≠ Some EOF.
Proof using All.
  intros Hv. revert t m. induction fuel as [|fuel IH]; intros t m; [done|].
  rewrite resolve_walk_S. destruct (poll rd t m) as [[d|e] t1]; [|done].
  pose proof (verifyBlock_not_EOF m d) as Hne.
  destruct (verifyBlock alg m d) as [|e]; [|by intros [= ->]].
  destruct (isInternalNode d) as [links|]; [|done].
  pose proof (Hv m). destruct (visit m); [done|]. clear -IH. revert t1.
  induction links as [|s links IHl]; intros t1; [done|]. cbn [kids].
  destruct (Parse s) as [child|]; [|done]. specialize (IH t1 child).
  destruct (resolve_walk _ _ _ fuel t1 child) as [[out [e|]] t2]; [done|].
  specialize (IHl t2). by destruct (kids _ t2 links) as [[out' err'] t3].
Qed.

(** C5: integrity of the resolver: whatever the store serves, at whatever time
    (corrupted, substituted, missing or late blocks), the bytes [Resolve] writes for a
    root are a prefix of the root's content, and when the reader sees a clean EOF they
    are the content. *)
Theorem Resolve_integrity `{!CollisionFree alg} rd visit av fuel h root content out err :
  (forall m, visit m ≠ Some EOF) -> Tree alg av h root content ->
  Resolve alg rd visit fuel root = Ok (out, err) ->
  (exists rest, content = out ++ rest) /\ (err = EOF -> out = content).
Proof using All.
  intros Hv HT. unfold Resolve. destruct (IsZero root); [done|].
  pose proof (resolve_walk_output rd visit fuel av h 0 root content HT) as [Hpre Hall].
  pose proof (resolve_walk_not_EOF rd visit fuel 0 root Hv) as HE.
  destruct (resolve_walk alg rd visit fuel 0 root) as [[out' err'] t']. cbn [fst snd] in *.
  intros [= <- <-]. split; [done|]. destruct err' as [e|]; simpl; [by intros ->|]. by intros _; apply Hall.
Qed.

(** C1: what [Build] stored, [Resolve] gives back: for every chunker that delivers blocks of
    the wanted form ([good_block]: not empty, under the MID of its data, and the data does not
    itself read as a DAG node) into a store that accepts them, the resolver over
    the resulting store returns the concatenation of the chunks and a clean EOF, also when
    the blocks only become readable while it polls ([settles]); the fuel of both is a bound on
    the recursion, not on the answer.  (A chunk that reads as a node is taken for one:
    [leaf_read_as_node].) *)
Theorem Build_Resolve_roundtrip F {St C} `{Blockstore St} `{Chunker C} (inv : St -> Prop)
    `{!BlockstoreLaws St alg inv} `{!BlockstoreTotal St alg inv} (c : C) blocks (s : St) :
  (1 < F)%nat -> inv s -> Yields c blocks EOF -> blocks ≠ [] ->
  Forall (good_block alg) blocks ->
  exists root s' h, Build alg F (S (length blocks)) c s = (Ok root, s') /\
    forall rd visit fuel, settles rd (λ m d, bs_Get m s' = Ok d) ->
      (forall m, visit m = None) -> (h ≤ fuel)%nat ->
      Resolve alg rd visit fuel root = Ok (concat (Data <$> blocks), EOF).
Proof using All.
  intros HF Hs HY Hne Hgood.
  destruct (Build_spec alg Halg F HF inv (S (length blocks)) c blocks s)
    as (r & s' & E & _ & Hr); [done..|lia|].
  destruct Hr as [(root & h & -> & Hwf & _ & HT)|[_ (m & d & s0 & e & s1 & Hs0 & Hm & Hn & Hput)]].
  2:{ destruct (put_total (alg := alg) (inv := inv) m d s0 Hs0 Hm Hn) as [s2 Hput2].
      by rewrite Hput in Hput2. }
  exists root, s', h. split; [done|]. intros rd visit fuel Hset Hv Hf. unfold Resolve.
  rewrite wf_not_zero by done.
  destruct (resolve_walk_complete rd visit fuel _ h 0 root _ Hset Hv Hf HT) as [t' ->]. done.
Qed.
End properties.

(** ** Stats count every distinct block once *)
Section stat_facts.
Context `{Multiformats} `{!MultiformatsLaws} `{Protos} (alg : Z) (get : MID -> result bytes).

Definition edge (m m' : MID) : Prop := exists d links s,
  get m = Ok d /\ isInternalNode d = Some links /\ s ∈ links /\ Parse s = Ok m'.
Definition block_size (s : bytes) : Z :=
  match Parse s with Ok m => match get m with Ok d => zlen d | Err _ => 0 end | Err _ => 0 end.

(** the running totals, in terms of the set of blocks seen so far *)
Record counted (seen : gset bytes) (st : Stats) : Prop := {
  cn_nodes : st_Nodes st = u64 (Z.of_nat (size seen));
  cn_kinds : st_Nodes st = u64 (st_Leaves st + st_Internal st);
  cn_bytes : st_Bytes st = u64 (sumZ block_size (elements seen));
}.
(** [seen'] extends [seen] with blocks reachable from [m], each verified, each with
    all its children *)
Record explored (m : MID) (seen seen' : gset bytes) : Prop := {
  ex_sub : seen ⊆ seen';
  ex_new s : s ∈ seen' -> s ∉ seen -> exists m' d, wf_mid m' /\ s = String m' /\
    rtc edge m m' /\ get m' = Ok d /\ names alg m' d /\
    forall m'', edge m' m'' -> String m'' ∈ seen';
}.

Lemma u64_add_l a b : u64 (u64 a + b) = u64 (a + b).
Proof. unfold u64. by rewrite Zplus_mod_idemp_l. Qed.

Lemma counted_add m d seen st st' :
  wf_mid m -> get m = Ok d -> String m ∉ seen -> counted seen st ->
  st_Nodes st' = u64 (st_Nodes st + 1) -> st_Bytes st' = u64 (st_Bytes st + zlen d) ->
  (st_Leaves st' = u64 (st_Leaves st + 1) /\ st_Internal st' = st_Internal st \/
   st_Leaves st' = st_Leaves st /\ st_Internal st' = u64 (st_Internal st + 1)) ->
  counted ({[String m]} ∪ seen) st'.
Proof using All.
  intros Hm Hd Hnew [Hn Hk Hb] Hn' Hb' Hk'. split.
  - rewrite Hn', Hn, u64_add_l, size_union, size_singleton by set_solver. f_equal. lia.
  - rewrite Hn', Hk, u64_add_l. destruct Hk' as [[-> ->]|[-> ->]].
    + rewrite u64_add_l. f_equal. lia.
    + rewrite (Z.add_comm _ (u64 _)), u64_add_l. f_equal. lia.
  - rewrite Hb', Hb, u64_add_l.
    rewrite (sumZ_Permutation block_size (elements ({[String m]} ∪ seen)) (String m :: elements seen))
      by (by apply elements_union_singleton).
    simpl. unfold block_size at 2. rewrite Parse_wf_String, Hd by done. f_equal. lia.
Qed.

Lemma max_child_state {T} (f : MID -> M T Z) links mx :
  (forall m t, (f m t).2 = t) -> forall t, (max_child f links mx t).2 = t.
Proof.
  intros Hf. revert mx. induction links as [|s links IH]; intros mx t; [done|]. cbn [max_child].
  unfold liftr, mbind, M_bind. destruct (wrap _ _) as [child|]; [|done].
  specialize (Hf child t). destruct (f child t) as [[d|] t']; cbn [snd] in *; subst; [apply IH|done].
Qed.
Lemma depthOnly_state {T} fuel m (t : T) : (depthOnly get fuel m t).2 = t.
Proof.
  revert m t. induction fuel as [|fuel IH]; intros m t; [done|]. cbn [depthOnly].
  unfold liftr, mbind, M_bind. destruct (wrap _ _) as [d|]; [|done].
  destruct (isInternalNode d) as [links|]; [|done].
  pose proof (max_child_state (depthOnly get fuel) links 0 IH t) as Hs.
  by destruct (max_child _ links 0 t) as [[z|] t'].
Qed.
Lemma depthOnly_poly {T1 T2} fuel m (t1 : T1) (t2 : T2) :
  (depthOnly get fuel m t1).1 = (depthOnly get fuel m t2).1.
Proof.
  revert m t1 t2. induction fuel as [|fuel IH]; intros m t1 t2; [done|]. cbn [depthOnly].
  unfold liftr, mbind, M_bind. destruct (wrap _ _) as [d|]; [|done].
  destruct (isInternalNode d) as [links|]; [|done].
  assert (forall mx (t1 : T1) (t2 : T2), (max_child (depthOnly get fuel) links mx t1).1 =
                           (max_child (depthOnly get fuel) links mx t2).1) as Hm.
  { clear -IH. induction links as [|s links IHl]; intros mx t1 t2; [done|]. cbn [max_child].
    unfold liftr, mbind, M_bind. destruct (wrap _ _) as [child|]; [|done].
    pose proof (IH child t1 t2) as E. destruct (depthOnly get fuel child t1) as [r1 t1'],
      (depthOnly get fuel child t2) as [r2 t2']. cbn [fst] in E. subst r2.
    destruct r1; [apply IHl|done]. }
  specialize (Hm 0 t1 t2).
  destruct (max_child _ links 0 t1) as [r1 t1'], (max_child _ links 0 t2) as [r2 t2'].
  cbn [fst] in Hm. subst r2. by destruct r1.
Qed.
Definition depth_is (fuel : nat) (m : MID) (d : Z) : Prop := (depthOnly get fuel m tt).1 = Ok d.

Lemma explored_refl m seen : explored m seen seen.
Proof. split; [done|]. by intros s ??. Qed.

Lemma stat_walk_spec fuel m seen st d seen' st' :
  wf_mid m -> counted seen st -> stat_walk alg get fuel m (seen, st) = (Ok d, (seen', st')) ->
  depth_is fuel m d /\ counted seen' st' /\ explored m seen seen' /\ String m ∈ seen'.
Proof using All.
  revert m seen st d seen' st'.
  induction fuel as [|fuel IH]; intros m seen st d seen' st' Hm Hc; [done|].
  cbn [stat_walk]. destruct (decide (String m ∈ seen)) as [Hin|Hnin].
  { intros E. pose proof (depthOnly_state (S fuel) m (seen, st)) as Hs.
    pose proof (depthOnly_poly (S fuel) m tt (seen, st)) as Hp.
    unfold depth_is. rewrite Hp, E. rewrite E in Hs. injection Hs as -> ->.
    split_and!; [done|done|apply explored_refl|done]. }
  destruct (get m) as [data|] eqn:Eg; [|done].
  destruct (verifyBlock alg m data) as [u|] eqn:Ev; [|done].
  apply verifyBlock_names in Ev. unfold depth_is. cbn [depthOnly].
  rewrite Eg. unfold liftr at 1. cbn [wrap]. erewrite M_bind_Ok by done.
  destruct (isInternalNode data) as [links|] eqn:Ei.
  2:{ intros [= <- <- <-]. split; [done|]. split.
      { eapply counted_add; try done. by left. }
      split; [|set_solver]. split; [set_solver|]. intros s Hs Hns.
      assert (s = String m) as -> by set_solver. exists m, data. split_and!; try done.
      intros m'' (d' & l' & s' & E1 & E2 & _). rewrite Eg in E1. injection E1 as <-.
      by rewrite Ei in E2. }
  intros E. apply M_bind_inv in E as (dk & [seen2 st2] & E & Eret).
  injection Eret as <- <- <-.
  assert (counted ({[String m]} ∪ seen) (count_internal (zlen data) (zlen links) st)) as Hc1.
  { eapply counted_add; try done. by right. }
  assert (forall ls mx seen1 st1 dk, counted seen1 st1 -> (forall s, s ∈ ls -> s ∈ links) ->
    max_child (stat_walk alg get fuel) ls mx (seen1, st1) = (Ok dk, (seen2, st2)) ->
    (max_child (depthOnly get fuel) ls mx tt).1 = Ok dk /\ counted seen2 st2 /\
    seen1 ⊆ seen2 /\
    (forall s child, s ∈ ls -> Parse s = Ok child -> String child ∈ seen2) /\
    (forall s, s ∈ seen2 -> s ∉ seen1 -> exists m' d, wf_mid m' /\ s = String m' /\
      rtc edge m m' /\ get m' = Ok d /\ names alg m' d /\
      forall m'', edge m' m'' -> String m'' ∈ seen2)) as Hloop.
  { induction ls as [|s ls IHl]; intros mx seen1 st1 dk' Hc' Hsub.
    { intros [= <- <- <-]. split_and!; try done; set_solver. }
    cbn [max_child]. intros E1.
    apply M_bind_inv in E1 as (child & [sn0 st0] & Ep & E1). unfold liftr in Ep.
    injection Ep as Ep -> ->. destruct (Parse s) as [child'|] eqn:Es; [|done].
    simpl in Ep. injection Ep as ->.
    apply M_bind_inv in E1 as (dc & [sn1 st1'] & Ew & E1).
    pose proof (Parse_wf _ _ Es) as Hwc.
    destruct (IH child _ _ _ _ _ Hwc Hc' Ew) as (Hd & Hc2 & [Hex1 Hex2] & Hin2).
    destruct (IHl _ _ _ _ Hc2 ltac:(set_solver) E1) as (Hmx & Hc3 & Hs3 & Hall & Hnew).
    split_and!; [|done|set_solver| |].
    - cbn [max_child]. unfold liftr at 1. cbn [wrap]. erewrite M_bind_Ok by done.
      unfold depth_is in Hd. destruct (depthOnly get fuel child tt) as [r []] eqn:Edo.
      cbn [fst] in Hd. subst r. erewrite M_bind_Ok by done. done.
    - intros s' ch [->|Hin]%elem_of_cons Hp; [|by eapply Hall]. rewrite Es in Hp.
      injection Hp as <-. set_solver.
    - intros s' Hin Hnin'. destruct (decide (s' ∈ sn1)) as [H1'|H1'].
      + destruct (Hex2 s' H1' Hnin') as (m' & d' & ? & ? & Hr & ? & ? & Hcl).
        exists m', d'. split_and!; try done.
        * eapply rtc_l; [|done]. exists data, links, s. split_and!; try done. set_solver.
        * intros m'' Hedge. specialize (Hcl m'' Hedge). set_solver.
      + by apply Hnew. }
  destruct (Hloop links 0 _ _ _ Hc1 ltac:(done) E) as (Hmx & Hc2 & Hs2 & Hall & Hnew).
  destruct (max_child (depthOnly get fuel) links 0 tt) as [r []] eqn:Edo. cbn [fst] in Hmx.
  subst r. erewrite M_bind_Ok by done. split; [done|]. split; [done|].
  split; [|set_solver]. split; [set_solver|]. intros s Hin Hnin'.
  destruct (decide (s = String m)) as [->|Hne]; [|apply Hnew; set_solver].
  exists m, data. split_and!; try done.
  intros m'' (d' & l' & s' & E1 & E2 & Hin' & Hp). rewrite Eg in E1. injection E1 as <-.
  rewrite Ei in E2. injection E2 as <-. by eapply Hall.
Qed.
End stat_facts.

Section stat_properties.
Context `{Multiformats} `{!MultiformatsLaws} `{Protos} `{!ProtosLaws}.
Context (alg : Z) (Halg : isSupportedHash alg = true).

(** a successful [Stat] has verified and counted exactly the distinct blocks
    reachable from the root (a set closed under links): [Nodes] is their number,
    [Leaves + Internal] agrees with it, [Bytes] is their total size, and [Depth] is the
    depth the plain recursion [depthOnly] computes, although [Stat] stops descending at
    repeated blocks (counters are uint64). *)
Theorem Stat_correct get fuel root st :
  wf_mid root -> Stat alg get fuel root = Ok st ->
  exists seen : gset bytes,
    (forall m, wf_mid m -> String m ∈ seen <-> rtc (edge get) root m) /\
    (forall m, rtc (edge get) root m -> exists d, get m = Ok d /\ names alg m d) /\
    st_Nodes st = u64 (Z.of_nat (size seen)) /\
    st_Nodes st = u64 (st_Leaves st + st_Internal st) /\
    st_Bytes st = u64 (sumZ (block_size get) (elements seen)) /\
    depth_is get fuel root (st_Depth st).
Proof using All.
  intros Hm. unfold Stat. rewrite wf_not_zero by done.
  destruct (stat_walk alg get fuel root (∅, zeroStats)) as [[d|e] [seen st']] eqn:E; [|done].
  intros [= <-]. cbn [st_Nodes st_Leaves st_Internal st_Depth st_Bytes].
  destruct (stat_walk_spec alg get fuel root ∅ zeroStats d seen st' Hm) as (Hd & [Hn Hk Hb] & [_ Hnew] & Hin);
    [by split|done|].
  assert (forall m, rtc (edge get) root m -> wf_mid m /\ String m ∈ seen) as Hreach.
  { apply rtc_ind_r; [done|]. intros m1 m2 _ He [Hw1 Hin1].
    destruct (Hnew _ Hin1 ltac:(set_solver)) as (m' & d' & Hw & Es & _ & _ & _ & Hcl).
    apply String_inj in Es as <-; [|done..]. split; [|by apply Hcl].
    destruct He as (? & ? & ? & _ & _ & _ & Hp). by eapply Parse_wf. }
  exists seen. split_and!; try done.
  - intros m Hw. split; [|intros Hr; by apply Hreach]. intros Hs.
    destruct (Hnew _ Hs ltac:(set_solver)) as (m' & d' & Hw' & Es & Hr & _).
    by apply String_inj in Es as ->.
  - intros m Hr. destruct (Hreach m Hr) as [Hw Hs].
    destruct (Hnew _ Hs ltac:(set_solver)) as (m' & d' & Hw' & Es & _ & Hg & Hn' & _).
    apply String_inj in Es as ->; [|done..]. by exists d'.
Qed.

(** the resolver's classification is exact: a block is read as an internal node
    iff it is byte for byte the canonical encoding of a non-empty list of links, and
    it is then read with exactly those links; in particular whatever [collapse] wrote
    is recognised. *)
Theorem isInternalNode_iff data links :
  isInternalNode data = Some links <->
  links ≠ [] /\ marshal (mkDAGNode links [] []) = Ok data.
Proof.
  split; [apply isInternalNode_inv|]. intros [Hne E]. by apply isInternalNode_marshal.
Qed.
End stat_properties.

(** ** The properties at concrete inputs *)
Definition demo_block (d : bytes) : Block :=
  mkBlock d (String (toy_mid CodecRaw d)) (u64 (zlen d)).
Definition demo_blocks : list Block := demo_block <$> (lit <$> ["a"; "b"; "c"; "d"; "e"]%string).

(** a chunker that delivers a list of blocks *)
Definition list_Next : M (list Block) Block := λ bs,
  match bs with [] => (Err EOF, []) | b :: bs => (Ok b, bs) end.
#[local] Instance list_chunker : Chunker (list Block) := list_Next.
Lemma list_Yields bs : Yields bs bs EOF.
Proof. induction bs as [|b bs IH]; by econstructor. Qed.

Lemma demo_good : Forall (good_block BLAKE3) demo_blocks.
Proof.
  assert (forall d, BlockMID (demo_block d) = FromBytes BLAKE3 d) as HM.
  { intros d. destruct (toy_mid_ok CodecRaw d ltac:(done)) as (E & Hw & _).
    unfold BlockMID, MustParse, demo_block. simpl. rewrite bool_decide_eq_false_2.
    - by rewrite Parse_wf_String.
    - by rewrite wf_String. }
  repeat constructor; first [apply HM|vm_compute; done].
Qed.
#[local] Hint Extern 0 (Blockstore Memstore) => exact (mem_blockstore BLAKE3) : typeclass_instances.
#[local] Instance demo_laws : BlockstoreLaws Memstore BLAKE3 (mem_ok BLAKE3) := mem_laws BLAKE3 eq_refl.
#[local] Instance demo_total : BlockstoreTotal Memstore BLAKE3 (mem_ok BLAKE3) := mem_total BLAKE3 eq_refl.
Definition demo_dag : result MID * Memstore := Build BLAKE3 2 6 demo_blocks NewMemstore.
Definition demo_small : result MID * Memstore := Build BLAKE3 2 6 (take 2 demo_blocks) NewMemstore.
Definition demo_root : MID := match demo_small.1 with Ok m => m | Err _ => zeroMID end.
Definition demo_get (m : MID) : result bytes := mem_Get m demo_small.2.

Lemma demo_no_failure : ¬ PutFails (St := Memstore) BLAKE3 (mem_ok BLAKE3).
Proof.
  intros (m & d & s & e & s' & Hs & Hm & Hn & E).
  destruct (mem_total BLAKE3 eq_refl m d s Hs Hm Hn) as [s2 E2].
  assert (bs_Put m d s = (Ok tt, s2)) as E3 by exact E2. rewrite E in E3. discriminate E3.
Qed.

Lemma demo_tree :
  exists root h, demo_dag.1 = Ok root /\ wf_mid root /\
    Tree BLAKE3 (λ m d, mem_Get m demo_dag.2 = Ok d) h root (lit "abcde").
Proof.
  destruct (Build_spec BLAKE3 eq_refl 2 ltac:(lia) (mem_ok BLAKE3) 6 demo_blocks demo_blocks NewMemstore)
    as (r & s' & E & _ & [(root & h & -> & Hw & _ & HT)|[_ HPF]]);
    [apply mem_ok_New|apply list_Yields|discriminate|apply demo_good|simpl; lia| |].
  - exists root, h. unfold demo_dag. rewrite E. split; [reflexivity|]. split; [exact Hw|exact HT].
  - destruct (demo_no_failure HPF).
Qed.

Lemma Build_correct_witness :
  exists root h, demo_dag.1 = Ok root /\
    batch_root BLAKE3 2 (map (λ b, (leaf b).1) demo_blocks) = Some root /\
    Tree BLAKE3 (λ m d, mem_Get m demo_dag.2 = Ok d) h root (lit "abcde").
Proof.
  destruct (Build_correct BLAKE3 eq_refl 2 (mem_ok BLAKE3) 6 demo_blocks demo_blocks NewMemstore)
    as (r & s' & E & _ & _ & [(root & h & -> & _ & Hb & HT)|[_ HPF]]);
    [lia|apply mem_ok_New|apply list_Yields|discriminate|apply demo_good|simpl; lia| |].
  - exists root, h. unfold demo_dag. rewrite E. split_and!; [reflexivity|exact Hb|exact HT].
  - destruct (demo_no_failure HPF).
Defined.

Definition demo_pipeline : pipeline := mkPipeline None [] [None]
  [processed 0 (demo_block (lit "a")); processed 1 (demo_block (lit "b"))] None.
Lemma BuildParallel_Build_witness :
  BuildParallel_consumer BLAKE3 2 (p_results demo_pipeline) (p_err demo_pipeline) NewMemstore
  = Build BLAKE3 2 3 (demo_block <$> (lit <$> ["a"; "b"]%string)) NewMemstore.
Proof.
  assert (Forall (good_block BLAKE3) (demo_block <$> (lit <$> ["a"; "b"]%string))) as Hg.
  { pose proof demo_good as Hg. apply Forall_take with (n := 2%nat) in Hg. exact Hg. }
  eapply (BuildParallel_Build BLAKE3 eq_refl 2 3 (demo_block <$> (lit <$> ["a"; "b"]%string))
    (demo_block <$> (lit <$> ["a"; "b"]%string)) 1 demo_pipeline NewMemstore
    (list_Yields _) Hg); [simpl; lia|lia| |].
  - eapply rtc_l; [apply (step_take None _ _ [] [])|].
    eapply rtc_l; [apply (step_done None _ _ [] []); apply (good_worker_job BLAKE3 eq_refl); by inversion Hg|].
    eapply rtc_l; [apply (step_take None _ _ [] [])|].
    eapply rtc_l; [apply (step_done None _ _ [] []); apply (good_worker_job BLAKE3 eq_refl); by inversion Hg as [|? ? ? Hg']; inversion Hg'|].
    reflexivity.
  - split; [by repeat constructor|left; done].
Defined.

Lemma Build_Resolve_roundtrip_witness :
  exists root s' h, Build BLAKE3 2 6 demo_blocks NewMemstore = (Ok root, s') /\
    Resolve BLAKE3 (λ _ m, mem_Get m s') (λ _, None) h root = Ok (lit "abcde", EOF).
Proof.
  destruct (Build_Resolve_roundtrip BLAKE3 eq_refl 2 (mem_ok BLAKE3) demo_blocks demo_blocks NewMemstore)
    as (root & s' & h & E & HR);
    [lia|apply mem_ok_New|apply list_Yields|discriminate|apply demo_good|].
  exists root, s', h. split; [exact E|].
  apply HR; [|reflexivity|lia]. intros t m d Hd. exists 0%nat. split_and!; [lia|exact Hd|lia].
Defined.

Lemma Resolve_integrity_witness :
  exists root out err, demo_dag.1 = Ok root /\
    Resolve BLAKE3 (λ t m, if (t <? 2)%nat then mem_Get m demo_dag.2 else Ok (lit "forged"))
      (λ _, None) 9 root = Ok (out, err) /\
    exists rest, lit "abcde" = out ++ rest.
Proof.
  destruct demo_tree as (root & h & E & Hw & HT).
  destruct (Resolve BLAKE3 (λ t m, if (t <? 2)%nat then mem_Get m demo_dag.2 else Ok (lit "forged"))
    (λ _, None) 9 root) as [[out err]|e] eqn:HR.
  - exists root, out, err. split; [exact E|]. split; [exact HR|].
    refine (proj1 (Resolve_integrity BLAKE3 eq_refl _ _ _ 9 h root (lit "abcde") out err _ HT HR)).
    discriminate.
  - exfalso. revert HR. unfold Resolve. rewrite wf_not_zero by exact Hw.
    by destruct (resolve_walk _ _ _ 9 0 root) as [[? ?] ?].
Defined.

Lemma Stat_correct_witness :
  exists st (seen : gset bytes), Stat BLAKE3 demo_get 6 demo_root = Ok st /\
    st_Nodes st = 3 /\ st_Depth st = 2 /\ st_Nodes st = u64 (Z.of_nat (size seen)).
Proof.
  assert (wf_mid demo_root) as Hw.
  { destruct (Parse_wf (String demo_root) demo_root). { vm_compute. reflexivity. } by split. }
  destruct (Stat BLAKE3 demo_get 6 demo_root) as [st|] eqn:E; [|vm_compute in E; discriminate E].
  destruct (Stat_correct BLAKE3 eq_refl demo_get 6 demo_root st Hw E) as (seen & _ & _ & Hn & _).
  exists st, seen. split; [reflexivity|]. vm_compute in E. injection E as <-.
  split; [reflexivity|]. split; [reflexivity|exact Hn].
Defined.

(** A chunk that is itself the encoding of an internal node is resolved as one: the
    round trip needs [gb_leaf]. *)
Definition node_like : bytes :=
  match marshal (mkDAGNode [String (toy_mid CodecRaw (lit "abc"))] [] []) with
  | Ok raw => raw | Err _ => [] end.
Lemma isInternalNode_iff_witness :
  isInternalNode node_like = Some [String (toy_mid CodecRaw (lit "abc"))].
Proof. apply isInternalNode_iff. split; [discriminate|vm_compute; reflexivity]. Defined.
Definition misread : result (bytes * error) :=
  let '(r, s') := Build BLAKE3 174 3 [demo_block node_like]
      (mem_Put BLAKE3 (toy_mid CodecRaw (lit "abc")) (lit "abc") NewMemstore).2 in
  root ← r; Resolve BLAKE3 (λ _ m, mem_Get m s') (λ _, None) 5 root.
Lemma leaf_read_as_node : misread = Ok (lit "abc", EOF) /\ node_like ≠ lit "abc".
Proof. split; [vm_compute; reflexivity|vm_compute; discriminate]. Qed.
