(* ===== verification/Bloom.v ===== *)
(** * The counting bloom filter (src/core/store: counting_bloom.go)

    [CountingBloomFilter] with its 8-bit saturating counters, the FNV hash and the
    binary snapshot.  [represents c items] is the abstraction: [c] holds at
    least the multiset [items] (a saturated counter may hold anything).  [Remove] keeps it only for an
    item that is there, which is the condition the store above does not check. *)
From S2P Require Import Prelude.

Record CountingBloomFilter := mkCBF {
  cbf_m : Z;
  cbf_k : Z;
  cbf_counters : bytes;
  cbf_count : Z;
}.

(** The sizing formula is floating point: [raw_m]/[raw_k] are the values of the two
    expressions after their conversion to uint64, [Fp] the false positive rates. *)
Class Floats := {
  Fp : Type;
  fp_invalid : Fp -> bool;         (* p <= 0 || p >= 1.0 *)
  fp_nonpos : Fp -> bool;          (* p <= 0 *)
  fp_default : Fp;                 (* 0.001 *)
  raw_m : Z -> Fp -> Z;
  raw_k : Z -> Z -> Z;
}.
Definition calculateCBFEstimates `{Floats} (n : Z) (p : Fp) : Z * Z :=
  let m := u64 (raw_m n p) in
  let m := if m =? 0 then 1 else m in
  let k := u64 (raw_k m n) in
  let k := if k =? 0 then 1 else k in
  (m, k).
Definition NewCountingBloomFilter `{Floats} (n : Z) (p : Fp) : CountingBloomFilter :=
  let n := if n =? 0 then 10000000 else n in
  let p := if fp_invalid p then fp_default else p in
  let '(m, k) := calculateCBFEstimates n p in
  mkCBF m k (replicate (Z.to_nat m) Byte.x00) 0.

Definition hash64 (data : bytes) : Z * Z :=
  let h := foldl (λ h b, u64 (Z.lxor h (b2z b) * 1099511628211)) 14695981039346656037 data in
  let h2 := Z.lor (Z.shiftr h 32) (u64 (Z.shiftl h 32)) in
  (h, if h2 =? 0 then 0x9e3779b97f4a7c15 else h2).

(** [(h1 + i*h2) % c.m] *)
Definition cbf_index (m : Z) (data : bytes) (i : Z) : nat :=
  let '(h1, h2) := hash64 data in Z.to_nat (u64 (h1 + u64 (i * h2)) mod m).
Definition cbf_indices (m k : Z) (data : bytes) : list nat :=
  (λ i, cbf_index m data (Z.of_nat i)) <$> seq 0 (Z.to_nat k).

Definition incr (cs : bytes) (idx : nat) : bytes :=
  let c := cs !!! idx in if b2z c <? 255 then <[idx := z2b (b2z c + 1)]> cs else cs.
Definition decr (cs : bytes) (idx : nat) : bytes :=
  let c := cs !!! idx in
  if (0 <? b2z c) && (b2z c <? 255) then <[idx := z2b (b2z c - 1)]> cs else cs.

Definition cbf_Add (data : bytes) (c : CountingBloomFilter) : CountingBloomFilter :=
  if bool_decide (data = []) then c else
  if (cbf_m c =? 0) || (cbf_k c =? 0) then c else
  mkCBF (cbf_m c) (cbf_k c) (foldl incr (cbf_counters c) (cbf_indices (cbf_m c) (cbf_k c) data))
        (u64 (cbf_count c + 1)).
Definition cbf_Remove (data : bytes) (c : CountingBloomFilter) : CountingBloomFilter :=
  if bool_decide (data = []) then c else
  if (cbf_m c =? 0) || (cbf_k c =? 0) then c else
  mkCBF (cbf_m c) (cbf_k c) (foldl decr (cbf_counters c) (cbf_indices (cbf_m c) (cbf_k c) data))
        (if 0 <? cbf_count c then cbf_count c - 1 else cbf_count c).
Definition cbf_Test (data : bytes) (c : CountingBloomFilter) : bool :=
  if bool_decide (data = []) then true else
  if (cbf_m c =? 0) || (cbf_k c =? 0) || bool_decide (cbf_counters c = []) then true else
  forallb (λ idx, negb (b2z (cbf_counters c !!! idx) =? 0)) (cbf_indices (cbf_m c) (cbf_k c) data).

Definition MarshalBinary (c : CountingBloomFilter) : bytes :=
  PutUint64 (cbf_m c) ++ PutUint64 (cbf_k c) ++ PutUint64 (cbf_count c) ++ cbf_counters c.
(** the receiver is overwritten on success and untouched on an error *)
Definition UnmarshalBinary (data : bytes) : result CountingBloomFilter :=
  if zlen data <? 24 then Err (New "cbf: invalid binary payload length") else
  let m := Uint64 (take 8 data) in
  let k := Uint64 (take 8 (drop 8 data)) in
  let count := Uint64 (take 8 (drop 16 data)) in
  let counters := drop 24 data in
  if negb (zlen counters =? m) then Err (New "cbf: payload size mismatch") else
  Ok (mkCBF m k counters count).

(** ** Counters and the multiset they count *)

(** [counts cs l]: every counter is saturated or at least the number of hits in [l] *)
Definition counts (cs : bytes) (l : list nat) : Prop :=
  forall j c, cs !! j = Some c -> b2z c = 255 \/ Z.of_nat (length (filter (eq j) l)) <= b2z c.

Lemma filter_eq_cons j i (l : list nat) :
  length (filter (eq j) (i :: l)) = ((if decide (j = i) then 1 else 0) + length (filter (eq j) l))%nat.
Proof. rewrite filter_cons. by destruct (decide (j = i)). Qed.

Lemma incr_length cs i : length (incr cs i) = length cs.
Proof. unfold incr. destruct (_ <? _); [apply length_insert|done]. Qed.
Lemma decr_length cs i : length (decr cs i) = length cs.
Proof. unfold decr. destruct (_ && _); [apply length_insert|done]. Qed.
Lemma foldl_incr_length cs l : length (foldl incr cs l) = length cs.
Proof. revert cs. induction l as [|i l IH]; intros cs; simpl; [done|]. by rewrite IH, incr_length. Qed.
Lemma foldl_decr_length cs l : length (foldl decr cs l) = length cs.
Proof. revert cs. induction l as [|i l IH]; intros cs; simpl; [done|]. by rewrite IH, decr_length. Qed.

Lemma counts_incr cs i l : counts cs l -> counts (incr cs i) (i :: l).
Proof.
  intros Hc j c. rewrite filter_eq_cons. unfold incr.
  destruct (Z.ltb_spec (b2z (cs !!! i)) 255) as [Hlt|Hge].
  - destruct (decide (j = i)) as [->|Hne].
    + intros E. destruct (decide (i < length cs)%nat) as [Hi|Hi].
      2:{ rewrite list_insert_ge in E by lia. apply lookup_lt_Some in E. lia. }
      rewrite list_lookup_insert_eq in E by done. injection E as <-.
      destruct (lookup_lt_is_Some_2 cs i Hi) as [c0 Hc0].
      rewrite (list_lookup_total_correct _ _ _ Hc0) in *.
      rewrite b2z_z2b, Z.mod_small by (pose proof (b2z_bound c0); lia).
      destruct (Hc i c0 Hc0); lia.
    + rewrite list_lookup_insert_ne by done. apply Hc.
  - destruct (decide (j = i)) as [->|Hne]; [|apply Hc].
    intros E. rewrite (list_lookup_total_correct _ _ _ E) in Hge.
    pose proof (b2z_bound c). left. lia.
Qed.
Lemma counts_decr cs i l : counts cs (i :: l) -> counts (decr cs i) l.
Proof.
  intros Hc j c. unfold decr. pose proof (Hc j) as Hj. rewrite filter_eq_cons in Hj.
  destruct ((0 <? b2z (cs !!! i)) && (b2z (cs !!! i) <? 255)) eqn:Hb.
  - destruct (decide (j = i)) as [->|Hne].
    + intros E. destruct (decide (i < length cs)%nat) as [Hi|Hi].
      2:{ rewrite list_insert_ge in E by lia. apply lookup_lt_Some in E. lia. }
      rewrite list_lookup_insert_eq in E by done. injection E as <-.
      destruct (lookup_lt_is_Some_2 cs i Hi) as [c0 Hc0].
      rewrite (list_lookup_total_correct _ _ _ Hc0) in *.
      rewrite b2z_z2b, Z.mod_small by (pose proof (b2z_bound c0); lia).
      destruct (Hj c0 Hc0); lia.
    + rewrite list_lookup_insert_ne by done. apply Hj.
  - intros E. destruct (Hj c E) as [?|Hcnt]; [by left|].
    destruct (decide (j = i)) as [->|Hne]; [|by right].
    rewrite (list_lookup_total_correct _ _ _ E) in Hb. pose proof (b2z_bound c). left. lia.
Qed.
Lemma counts_perm cs l l' : l ≡ₚ l' -> counts cs l -> counts cs l'.
Proof. intros HP Hc j c E. rewrite <-HP. by apply Hc. Qed.
Lemma counts_foldl_incr cs l idxs : counts cs l -> counts (foldl incr cs idxs) (idxs ++ l).
Proof.
  revert cs l. induction idxs as [|i idxs IH]; intros cs l Hc; simpl; [done|].
  eapply counts_perm; [|apply IH, counts_incr, Hc]. by rewrite Permutation_middle.
Qed.
Lemma counts_foldl_decr cs l idxs : counts cs (idxs ++ l) -> counts (foldl decr cs idxs) l.
Proof. revert cs. induction idxs as [|i idxs IH]; intros cs Hc; simpl; [done|]. by apply IH, counts_decr. Qed.

(** [represents c items]: a well-formed filter that holds the multiset [items] *)
Record represents (c : CountingBloomFilter) (items : list bytes) : Prop := {
  rp_m : zlen (cbf_counters c) = cbf_m c;
  rp_k : 0 <= cbf_k c;
  rp_counts : 0 < cbf_m c ->
    counts (cbf_counters c) (items ≫= cbf_indices (cbf_m c) (cbf_k c));
}.
Lemma cbf_indices_lt m k d i : 0 < m -> i ∈ cbf_indices m k d -> (i < Z.to_nat m)%nat.
Proof.
  intros Hm (j & -> & _)%list_elem_of_fmap. unfold cbf_index. destruct (hash64 d).
  pose proof (Z.mod_pos_bound (u64 (z + u64 (Z.of_nat j * z0))) m Hm). lia.
Qed.

Lemma represents_perm c items items' : items ≡ₚ items' -> represents c items -> represents c items'.
Proof.
  intros HP [Hm Hk Hc]. split; [done..|]. intros H0. eapply counts_perm; [|by apply Hc].
  by apply bind_Permutation.
Qed.
Lemma represents_Add c d items :
  d ≠ [] -> represents c items -> represents (cbf_Add d c) (d :: items).
Proof.
  intros Hd [Hm Hk Hc]. unfold cbf_Add. rewrite bool_decide_eq_false_2 by done.
  destruct (Z.eqb_spec (cbf_m c) 0); simpl; [by split; [| |lia]|].
  destruct (Z.eqb_spec (cbf_k c) 0) as [E|]; simpl.
  - split; [done..|]. intros H0. simpl. unfold cbf_indices at 1. rewrite E. simpl.
    specialize (Hc H0). by rewrite E in Hc.
  - split; simpl; [unfold zlen in *; by rewrite foldl_incr_length|done|].
    intros H0. apply counts_foldl_incr. by apply Hc.
Qed.
Lemma represents_Remove c d items :
  d ≠ [] -> represents c (d :: items) -> represents (cbf_Remove d c) items.
Proof.
  intros Hd [Hm Hk Hc]. unfold cbf_Remove. rewrite bool_decide_eq_false_2 by done.
  destruct (Z.eqb_spec (cbf_m c) 0); simpl; [by split; [| |lia]|].
  destruct (Z.eqb_spec (cbf_k c) 0) as [E|]; simpl.
  - split; [done..|]. intros H0. specialize (Hc H0). simpl in Hc.
    unfold cbf_indices at 1 in Hc. rewrite E in *. done.
  - split; simpl; [unfold zlen in *; by rewrite foldl_decr_length|done|].
    intros H0. apply counts_foldl_decr. by apply Hc.
Qed.
Lemma represents_Test c d items : represents c items -> d ∈ items -> cbf_Test d c = true.
Proof.
  intros [Hm Hk Hc] Hin. unfold cbf_Test. case_bool_decide; [done|].
  destruct (_ || _ || _) eqn:Hz; [done|]. apply orb_false_iff in Hz as [Hz Hne].
  apply orb_false_iff in Hz as [Hm0 Hk0]. apply Z.eqb_neq in Hm0.
  assert (0 < cbf_m c) as Hpos by (pose proof (zlen_nonneg (cbf_counters c)); lia).
  apply Is_true_eq_true, forallb_True, Forall_forall. intros idx Hidx.
  pose proof (cbf_indices_lt _ _ _ _ Hpos Hidx) as Hlt.
  destruct (lookup_lt_is_Some_2 (cbf_counters c) idx) as [b Hb]; [unfold zlen in *; lia|].
  rewrite (list_lookup_total_correct _ _ _ Hb).
  assert (b2z b ≠ 0) as Hnz; [|by apply Z.eqb_neq in Hnz as ->].
  destruct (Hc Hpos idx b Hb) as [E|E]; [lia|].
  assert (idx ∈ filter (eq idx) (items ≫= cbf_indices (cbf_m c) (cbf_k c))) as Hf.
  { apply list_elem_of_filter. split; [done|]. apply list_elem_of_bind. by exists d. }
  destruct (filter _ _); [by apply not_elem_of_nil in Hf|simpl in E; lia].
Qed.

Lemma represents_New `{Floats} n p : represents (NewCountingBloomFilter n p) [].
Proof.
  unfold NewCountingBloomFilter, calculateCBFEstimates.
  set (n' := if n =? 0 then _ else _). set (p' := if fp_invalid p then _ else _).
  set (m := if u64 (raw_m n' p') =? 0 then 1 else _).
  assert (0 < m) as Hm.
  { subst m. generalize (u64_bound (raw_m n' p')). generalize (u64 (raw_m n' p')). intros z Hz.
    destruct (Z.eqb_spec z 0); lia. }
  split; simpl.
  - unfold zlen. rewrite length_replicate. lia.
  - generalize (u64_bound (raw_k m n')). generalize (u64 (raw_k m n')). intros z Hz.
    destruct (Z.eqb_spec z 0); lia.
  - intros _ j c _. right. pose proof (b2z_bound c). simpl. lia.
Qed.

(** whatever snapshot is accepted, stale or foreign, is a sound filter of nothing *)
Lemma represents_Unmarshal data c : UnmarshalBinary data = Ok c -> represents c [].
Proof.
  unfold UnmarshalBinary. destruct (_ <? _); [done|].
  destruct (Z.eqb_spec (zlen (drop 24 data)) (Uint64 (take 8 data))) as [E|]; simpl; [|done].
  intros [= <-]. split; cbn [cbf_m cbf_k cbf_counters].
  - done.
  - apply be_combine_bound.
  - intros _ j c _. right. pose proof (b2z_bound c). simpl. lia.
Qed.

(** A filter only ever grows under [Add]. *)
Lemma incr_nonzero cs i j : b2z (cs !!! j) ≠ 0 -> b2z (incr cs i !!! j) ≠ 0.
Proof.
  unfold incr. destruct (Z.ltb_spec (b2z (cs !!! i)) 255) as [Hlt|]; [|done].
  destruct (decide (i = j)) as [->|Hne].
  - destruct (decide (j < length cs)%nat).
    + rewrite list_lookup_total_insert_eq by done. rewrite b2z_z2b.
      pose proof (b2z_bound (cs !!! j)). rewrite Z.mod_small by lia. lia.
    + by rewrite list_insert_ge by lia.
  - by rewrite list_lookup_total_insert_ne.
Qed.
Lemma cbf_Add_Test d d' c : cbf_Test d' c = true -> cbf_Test d' (cbf_Add d c) = true.
Proof.
  unfold cbf_Add. case_bool_decide; [done|]. destruct ((cbf_m c =? 0) || (cbf_k c =? 0)) eqn:Hz; [done|].
  unfold cbf_Test. case_bool_decide; [done|]. cbn [cbf_m cbf_k cbf_counters]. rewrite Hz, !orb_false_l.
  assert (bool_decide (foldl incr (cbf_counters c) (cbf_indices (cbf_m c) (cbf_k c) d) = []) =
          bool_decide (cbf_counters c = [])) as ->.
  { apply bool_decide_ext. rewrite <-!length_zero_iff_nil. by rewrite foldl_incr_length. }
  destruct (bool_decide (cbf_counters c = [])); [done|].
  rewrite !forallb_forall. intros Ht idx Hin. specialize (Ht idx Hin).
  rewrite negb_true_iff, Z.eqb_neq in *. clear Hin.
  generalize (cbf_counters c), Ht. induction (cbf_indices (cbf_m c) (cbf_k c) d) as [|i l IH];
    intros cs Hcs; simpl; [done|]. by apply IH, incr_nonzero.
Qed.

(** ** Properties *)

Inductive bloom_op := BAdd (d : bytes) | BRemove (d : bytes).
Definition bloom_run (c : CountingBloomFilter) (o : bloom_op) : CountingBloomFilter :=
  match o with BAdd d => cbf_Add d c | BRemove d => cbf_Remove d c end.
(** [holds items ops items']: the multiset held, and that every removed item is there *)
Inductive holds : list bytes -> list bloom_op -> list bytes -> Prop :=
  | holds_nil items : holds items [] items
  | holds_add d items ops items' : d ≠ [] -> holds (d :: items) ops items' ->
      holds items (BAdd d :: ops) items'
  | holds_remove d items1 items ops items' : d ≠ [] -> items1 ≡ₚ d :: items ->
      holds items ops items' -> holds items1 (BRemove d :: ops) items'.

(** C10: no false negatives: a filter built from any sequence of [Add]s and of [Remove]s
    of items it holds at that moment (with multiplicity) answers [true] for every item
    it still holds, in spite of shared, saturated and repeated counters. *)
Theorem no_false_negatives `{Floats} n p ops items d :
  holds [] ops items -> d ∈ items ->
  cbf_Test d (foldl bloom_run (NewCountingBloomFilter n p) ops) = true.
Proof.
  intros Hh Hin. eapply represents_Test; [|exact Hin]. clear Hin.
  generalize (represents_New n p). generalize (NewCountingBloomFilter n p).
  induction Hh as [items|d0 items ops items' Hd _ IH|d0 items1 items ops items' Hd HP _ IH];
    intros c Hc; simpl; [done|..].
  - by apply IH, represents_Add.
  - apply IH, represents_Remove; [done|]. by eapply represents_perm.
Qed.

(** the snapshot codec is a bijection between the filters whose fields fit (as all
    filters made by [NewCountingBloomFilter] and by [UnmarshalBinary] do) and the
    accepted byte strings: what was marshalled is read back unchanged, what was read is
    marshalled back byte for byte, and nothing else is accepted. *)
Theorem snapshot_roundtrip c data :
  (0 <= cbf_m c < 2 ^ 64 -> 0 <= cbf_k c < 2 ^ 64 -> 0 <= cbf_count c < 2 ^ 64 ->
   zlen (cbf_counters c) = cbf_m c -> UnmarshalBinary (MarshalBinary c) = Ok c) /\
  (UnmarshalBinary data = Ok c -> MarshalBinary c = data /\ zlen (cbf_counters c) = cbf_m c).
Proof.
  split.
  - intros Hm Hk Hn Hl. unfold UnmarshalBinary, MarshalBinary.
    assert (forall z, length (PutUint64 z) = 8%nat) as H8 by apply PutUint64_length.
    rewrite !zlen_app. assert (forall z, zlen (PutUint64 z) = 8) as Hz by (intros; unfold zlen; by rewrite H8).
    rewrite !Hz. pose proof (zlen_nonneg (cbf_counters c)).
    destruct (Z.ltb_spec (8 + (8 + (8 + zlen (cbf_counters c)))) 24); [lia|].
    replace (drop 24 _) with (cbf_counters c).
    2:{ rewrite !app_assoc. symmetry. apply drop_app_length'. rewrite !length_app, !H8. done. }
    rewrite take_app_length' by (by rewrite H8).
    rewrite drop_app_length' by (by rewrite H8).
    rewrite take_app_length' by (by rewrite H8).
    rewrite (app_assoc (PutUint64 (cbf_m c))), drop_app_length' by (by rewrite length_app, !H8).
    rewrite take_app_length' by (by rewrite H8).
    rewrite !Uint64_PutUint64, Hl, Z.eqb_refl by done. simpl. by destruct c.
  - unfold UnmarshalBinary. destruct (Z.ltb_spec (zlen data) 24) as [|Hge]; [done|].
    destruct (Z.eqb_spec (zlen (drop 24 data)) (Uint64 (take 8 data))) as [E|]; simpl; [|done].
    intros [= <-]. split; [|done]. unfold MarshalBinary.
    cbn [cbf_m cbf_k cbf_counters cbf_count].
    assert (24 ≤ length data)%nat by (unfold zlen in Hge; lia).
    rewrite !PutUint64_Uint64 by (rewrite length_take, ?length_drop; lia).
    transitivity (take 8 data ++ take 8 (drop 8 data) ++ take 8 (drop 16 data) ++ drop 24 data); [done|].
    replace (drop 24 data) with (drop 8 (drop 16 data)) by by rewrite drop_drop.
    rewrite take_drop. replace (drop 16 data) with (drop 8 (drop 8 data)) by by rewrite drop_drop.
    by rewrite !take_drop.
Qed.

(** An instance of the sizing: two counters, one hash. *)
#[export] Instance toy_floats : Floats := {|
  Fp := unit;
  fp_invalid _ := false;
  fp_nonpos _ := false;
  fp_default := tt;
  raw_m n _ := n;
  raw_k _ _ := 1;
|}.
Definition demo_filter : CountingBloomFilter := @NewCountingBloomFilter toy_floats 2 tt.
Lemma no_false_negatives_witness :
  cbf_Test (lit "a") (foldl bloom_run demo_filter
    [BAdd (lit "a"); BAdd (lit "b"); BAdd (lit "a"); BRemove (lit "a"); BRemove (lit "b")]) = true.
Proof.
  apply (@no_false_negatives toy_floats 2 tt _ [lit "a"]); [|by left].
  apply holds_add; [discriminate|]. apply holds_add; [discriminate|]. apply holds_add; [discriminate|].
  eapply holds_remove; [discriminate|reflexivity|].
  eapply holds_remove; [discriminate|reflexivity|]. constructor.
Defined.
Lemma snapshot_roundtrip_witness :
  UnmarshalBinary (MarshalBinary demo_filter) = Ok demo_filter.
Proof.
  apply (proj1 (snapshot_roundtrip demo_filter []));
    [vm_compute; split; [discriminate|reflexivity]..|reflexivity].
Defined.
