(* ===== verification/Db.v ===== *)
(** * The key-value database (src/core/db/db.go)

    [DB] is the open Pebble database as the map it holds and the closed flag;
    iteration is in lexicographic key order, as Pebble iterates.  [scan_prefix] is the
    [SeekGE]/[HasPrefix]/[Next] loop the store runs over a key prefix;
    [scan_prefix_spec] shows that it meets exactly the keys with the prefix, in order.
    [Env] collects what the operating system and Pebble may answer during one call. *)
From S2P Require Import Prelude Mid.

(** ** Lexicographic order on byte strings *)
Fixpoint bytes_leb (a b : bytes) : bool :=
  match a, b with
  | [], _ => true
  | _ :: _, [] => false
  | x :: a, y :: b => if b2z x =? b2z y then bytes_leb a b else b2z x <? b2z y
  end.

Lemma bytes_leb_refl a : bytes_leb a a = true.
Proof. induction a as [|x a IH]; simpl; [done|]. by rewrite Z.eqb_refl. Qed.
Lemma bytes_leb_total a b : bytes_leb a b = true \/ bytes_leb b a = true.
Proof.
  revert b. induction a as [|x a IH]; intros [|y b]; simpl; auto.
  destruct (Z.eqb_spec (b2z x) (b2z y)) as [E|]; [rewrite E, Z.eqb_refl; apply IH|].
  destruct (Z.eqb_spec (b2z y) (b2z x)); [lia|]. rewrite !Z.ltb_lt. lia.
Qed.
Lemma bytes_leb_trans a b c : bytes_leb a b = true -> bytes_leb b c = true -> bytes_leb a c = true.
Proof.
  revert b c. induction a as [|x a IH]; intros [|y b] [|z c]; simpl; try done.
  destruct (Z.eqb_spec (b2z x) (b2z y)), (Z.eqb_spec (b2z y) (b2z z)), (Z.eqb_spec (b2z x) (b2z z));
    try lia; [apply IH|rewrite !Z.ltb_lt; lia..].
Qed.
Lemma bytes_leb_antisym a b : bytes_leb a b = true -> bytes_leb b a = true -> a = b.
Proof.
  revert b. induction a as [|x a IH]; intros [|y b]; simpl; try done.
  rewrite (Z.eqb_sym (b2z y)). destruct (Z.eqb_spec (b2z x) (b2z y)) as [E|].
  - apply (inj b2z) in E as ->. intros. f_equal. by apply IH.
  - rewrite !Z.ltb_lt. lia.
Qed.
(** what lies between a prefix and a key with that prefix has the prefix *)
Lemma HasPrefix_iff k p : HasPrefix k p = true <-> exists r, k = p ++ r.
Proof.
  split.
  - unfold HasPrefix. intros E%bool_decide_eq_true. exists (drop (length p) k).
    rewrite <-E at 1. by rewrite take_drop.
  - intros [r ->]. apply HasPrefix_app.
Qed.
Lemma bytes_leb_prefix p r : bytes_leb p (p ++ r) = true.
Proof. induction p as [|x p IH]; simpl; [done|]. by rewrite Z.eqb_refl. Qed.
Lemma between_prefix p r k :
  bytes_leb p k = true -> bytes_leb k (p ++ r) = true -> exists r', k = p ++ r'.
Proof.
  revert k. induction p as [|x p IH]; intros k; simpl; [by exists k|].
  destruct k as [|y k]; [done|]. simpl.
  destruct (Z.eqb_spec (b2z x) (b2z y)) as [E|], (Z.eqb_spec (b2z y) (b2z x)) as [E'|];
    rewrite ?Z.ltb_lt; try lia.
  intros H1 H2. apply (inj b2z) in E as ->. destruct (IH k H1 H2) as [r' ->]. by exists r'.
Qed.

Definition key_le (x y : bytes * bytes) : Prop := bytes_leb x.1 y.1 = true.
#[export] Instance key_le_dec : RelDecision key_le := λ x y, decide (bytes_leb x.1 y.1 = true).
#[export] Instance key_le_total : Total key_le.
Proof. intros x y. apply bytes_leb_total. Qed.
#[export] Instance key_le_trans : Transitive key_le.
Proof. intros x y z. apply bytes_leb_trans. Qed.

(** ** The environment of one call *)
Definition path : Type := bytes * bytes.
Record Env := mkEnv {
  now : Z;                              (* time.Now().Unix() *)
  io_get : bytes -> option error;       (* a read error of Pebble *)
  io_set : bytes -> option error;       (* a write error of Pebble *)
  io_commit : option error;
  io_iter : option error;
  io_mkdir : path -> option error;
  io_write : path -> option error;
  io_rename : path -> option error;
  io_readfile : path -> option error;   (* other than "does not exist" *)
}.
(** nothing fails *)
Definition calm (t : Z) : Env :=
  mkEnv t (λ _, None) (λ _, None) None None (λ _, None) (λ _, None) (λ _, None) (λ _, None).

(** ** The database *)
Definition ErrClosed : error := Sentinel "db: closed".
Definition ErrKeyNotFound : error := Sentinel "db: key not found".

Definition PrefixBlock : bytes := lit "/b/".
Definition PrefixDAG : bytes := lit "/d/".
Definition PrefixSeal : bytes := lit "/s/".
Definition PrefixMeta : bytes := lit "/m/".

Record DB := mkDB { kv : gmap bytes bytes; db_closed : bool }.

Fixpoint drop_while {A} (f : A -> bool) (l : list A) : list A :=
  match l with [] => [] | x :: l' => if f x then drop_while f l' else l end.
Fixpoint take_while {A} (f : A -> bool) (l : list A) : list A :=
  match l with [] => [] | x :: l' => if f x then x :: take_while f l' else [] end.

(** the entries in iteration order, from [SeekGE(key)] on *)
Definition SeekGE (key : bytes) (m : gmap bytes bytes) : list (bytes * bytes) :=
  drop_while (λ e, negb (bytes_leb key e.1)) (merge_sort key_le (map_to_list m)).
Definition scan_prefix (p : bytes) (m : gmap bytes bytes) : list (bytes * bytes) :=
  take_while (λ e, HasPrefix e.1 p) (SeekGE p m).

Section db.
Context (env : Env).

Definition db_Get (key : bytes) (d : DB) : result bytes :=
  if db_closed d then Err ErrClosed else
  match io_get env key with
  | Some e => Err e
  | None => match kv d !! key with Some v => Ok v | None => Err ErrKeyNotFound end
  end.
Definition db_Has (key : bytes) (d : DB) : result bool :=
  if db_closed d then Err ErrClosed else
  match io_iter env with
  | Some e => Err e
  | None => Ok (match SeekGE key (kv d) with e :: _ => bool_decide (e.1 = key) | [] => false end)
  end.
Definition db_Set (key value : bytes) : M DB unit := λ d,
  if db_closed d then (Err ErrClosed, d) else
  match io_set env key with
  | Some e => (Err e, d)
  | None => (Ok tt, mkDB (<[key := value]> (kv d)) (db_closed d))
  end.
Definition db_Delete (key : bytes) : M DB unit := λ d,
  if db_closed d then (Err ErrClosed, d) else
  match io_set env key with
  | Some e => (Err e, d)
  | None => (Ok tt, mkDB (delete key (kv d)) (db_closed d))
  end.
Definition db_NewIter (d : DB) : result (gmap bytes bytes) :=
  if db_closed d then Err ErrClosed else
  match io_iter env with Some e => Err e | None => Ok (kv d) end.
Definition db_Close : M DB unit := λ d, (Ok tt, mkDB (kv d) true).

(** a batch is the list of its operations, applied at once by [Commit] *)
Inductive batch_op := BSet (key value : bytes) | BDel (key : bytes).
Definition apply_op (m : gmap bytes bytes) (o : batch_op) : gmap bytes bytes :=
  match o with BSet k v => <[k := v]> m | BDel k => delete k m end.
Definition Commit (b : list batch_op) : M DB unit := λ d,
  match io_commit env with
  | Some e => (Err e, d)
  | None => (Ok tt, mkDB (foldl apply_op (kv d) b) (db_closed d))
  end.
End db.

(** ** Keys *)
Section keys.
Context `{Multiformats}.

Definition BlockKey (m : MID) : bytes := PrefixBlock ++ Bytes m.
Definition DagKey (m : MID) : bytes := PrefixDAG ++ Bytes m.
Definition SealKey (m : MID) : bytes := PrefixSeal ++ Bytes m.
Definition MetaKey (k : bytes) : bytes := PrefixMeta ++ k.
Definition TimestampKey (m : MID) : bytes := MetaKey (lit "ts/" ++ String m).
Definition PutTimestamp (env : Env) (m : MID) : batch_op :=
  BSet (TimestampKey m) (PutUint64 (u64 (now env))).
Definition ReadTimestamp (env : Env) (d : DB) (m : MID) : result Z :=
  match db_Get env (TimestampKey m) d with
  | Err e => if errors_is e ErrKeyNotFound then Ok 0 else Err e
  | Ok val => if zlen val <? 8 then Err (New "db: corrupt timestamp size") else Ok (Uint64 val)
  end.
End keys.

(** ** Prefix scans *)
Lemma drop_while_suffix {A} (f : A -> bool) l : exists l', l = l' ++ drop_while f l /\ Forall (λ x, f x = true) l'.
Proof.
  induction l as [|x l [l' [IH HF]]]; simpl; [by exists []|]. destruct (f x) eqn:E.
  - exists (x :: l'). simpl. split; [by f_equal|by constructor].
  - by exists [].
Qed.
Lemma drop_while_ge key l :
  StronglySorted key_le l ->
  Forall (λ e, bytes_leb key e.1 = true) (drop_while (λ e, negb (bytes_leb key e.1)) l).
Proof.
  induction 1 as [|x l Hs IH Hx]; simpl; [constructor|].
  destruct (bytes_leb key x.1) eqn:E; simpl; [|done]. constructor; [done|].
  eapply Forall_impl; [exact Hx|]. intros y Hy. by eapply bytes_leb_trans.
Qed.
Lemma sorted_entries m : StronglySorted key_le (merge_sort key_le (map_to_list m)).
Proof. apply StronglySorted_merge_sort; apply _. Qed.
Lemma elem_of_SeekGE key m e :
  e ∈ SeekGE key m <-> m !! e.1 = Some e.2 /\ bytes_leb key e.1 = true.
Proof.
  unfold SeekGE. set (l := merge_sort key_le (map_to_list m)).
  assert (forall e, e ∈ l <-> m !! e.1 = Some e.2) as Hl.
  { intros [k v]. subst l. rewrite merge_sort_Permutation. apply elem_of_map_to_list. }
  destruct (drop_while_suffix (λ e, negb (bytes_leb key e.1)) l) as (l' & E & HF).
  pose proof (drop_while_ge key l (sorted_entries m)) as Hge. rewrite Forall_forall in *.
  rewrite <-Hl. split.
  - intros Hin. split; [rewrite E; set_solver|by apply Hge].
  - intros [Hin Hk]. rewrite E in Hin. apply elem_of_app in Hin as [Hin|]; [|done].
    apply HF in Hin. by rewrite Hk in Hin.
Qed.
Lemma SeekGE_sorted key m : StronglySorted key_le (SeekGE key m).
Proof.
  unfold SeekGE. pose proof (sorted_entries m) as Hs.
  destruct (drop_while_suffix (λ e, negb (bytes_leb key e.1)) (merge_sort key_le (map_to_list m)))
    as (l' & E & _). rewrite E in Hs. by apply StronglySorted_app_1_r in Hs.
Qed.
Lemma db_Has_spec m key :
  match SeekGE key m with e :: _ => bool_decide (e.1 = key) | [] => false end =
  bool_decide (is_Some (m !! key)).
Proof.
  pose proof (elem_of_SeekGE key m) as Hin. pose proof (SeekGE_sorted key m) as Hs.
  destruct (SeekGE key m) as [|e l].
  - symmetry. apply bool_decide_eq_false. intros [v Hv].
    assert ((key, v) ∈ ([] : list (bytes * bytes))) as Hn by (apply Hin; split; [done|apply bytes_leb_refl]).
    by apply not_elem_of_nil in Hn.
  - apply bool_decide_ext. split.
    + intros <-. assert (e ∈ e :: l) as He by by left. apply Hin in He as [He _]. by eexists.
    + intros [v Hv].
      assert ((key, v) ∈ e :: l) as Hk by (apply Hin; split; [done|apply bytes_leb_refl]).
      assert (e ∈ e :: l) as He by by left. apply Hin in He as [_ He].
      apply elem_of_cons in Hk as [<-|Hk]; [done|].
      inversion Hs as [|? ? _ HF]; subst. rewrite Forall_forall in HF. specialize (HF _ Hk).
      unfold key_le in HF. simpl in HF. clear -He HF. revert He HF.
      generalize (e.1). intros a. revert a. induction key as [|x key IH]; intros [|y a]; simpl; try done.
      destruct (Z.eqb_spec (b2z x) (b2z y)) as [E|], (Z.eqb_spec (b2z y) (b2z x));
        rewrite ?Z.ltb_lt; try lia. intros. apply (inj b2z) in E as ->. f_equal. by apply IH.
Qed.

Lemma take_while_prefix p l :
  StronglySorted key_le l -> Forall (λ e, bytes_leb p e.1 = true) l ->
  forall e, e ∈ take_while (λ e, HasPrefix e.1 p) l <-> e ∈ l /\ HasPrefix e.1 p = true.
Proof.
  induction 1 as [|x l Hs IH Hx]; intros Hge e; simpl; [set_solver|].
  apply Forall_cons in Hge as [Hpx Hge]. destruct (HasPrefix x.1 p) eqn:E.
  - rewrite !elem_of_cons, IH by done. split.
    + intros [->|[? ?]]; auto.
    + intros [[->|?] ?]; auto.
  - split; [by intros ?%not_elem_of_nil|]. intros [Hin Hp]. exfalso.
    apply elem_of_cons in Hin as [->|Hin]; [by rewrite E in Hp|].
    rewrite Forall_forall in Hx. specialize (Hx e Hin).
    apply HasPrefix_iff in Hp as [r Hr]. unfold key_le in Hx. rewrite Hr in Hx.
    destruct (between_prefix p r x.1 Hpx Hx) as [r' Hr'].
    assert (HasPrefix x.1 p = true) as Hc by (apply HasPrefix_iff; by exists r').
    by rewrite E in Hc.
Qed.
Lemma take_while_sorted f (l : list (bytes * bytes)) :
  StronglySorted key_le l -> StronglySorted key_le (take_while f l).
Proof.
  induction 1 as [|x l Hs IH Hx]; simpl; [constructor|]. destruct (f x); constructor; [done|].
  clear -Hx. induction l as [|y l IHl]; simpl; [constructor|]. apply Forall_cons in Hx as [? ?].
  destruct (f y); constructor; auto.
Qed.
Lemma NoDup_take_while {A} (f : A -> bool) l : NoDup l -> NoDup (take_while f l).
Proof.
  induction 1 as [|x l Hx Hl IH]; simpl; [constructor|]. destruct (f x); constructor; [|done].
  intros Hin. apply Hx. clear -Hin. induction l as [|y l IH]; simpl in *; [by apply not_elem_of_nil in Hin|].
  destruct (f y); [|by apply not_elem_of_nil in Hin]. rewrite elem_of_cons in *. naive_solver.
Qed.
(** The scan meets exactly the entries whose key has the prefix, once each, in order. *)
Lemma elem_of_scan p m k v : (k, v) ∈ scan_prefix p m <-> m !! k = Some v /\ exists r, k = p ++ r.
Proof.
  unfold scan_prefix. rewrite take_while_prefix.
  - rewrite elem_of_SeekGE, HasPrefix_iff. simpl. split; [naive_solver|].
    intros [? [r ->]]. split_and!; [done|apply bytes_leb_prefix|by exists r].
  - apply SeekGE_sorted.
  - apply drop_while_ge, sorted_entries.
Qed.
Lemma scan_prefix_sorted p m : StronglySorted key_le (scan_prefix p m).
Proof. apply take_while_sorted, SeekGE_sorted. Qed.
Lemma scan_prefix_NoDup p m : NoDup (scan_prefix p m).
Proof.
  apply NoDup_take_while. unfold SeekGE.
  destruct (drop_while_suffix (λ e, negb (bytes_leb p e.1)) (merge_sort key_le (map_to_list m)))
    as (l' & E & _).
  assert (NoDup (merge_sort key_le (map_to_list m))) as Hnd
    by (rewrite merge_sort_Permutation; apply NoDup_map_to_list).
  rewrite E in Hnd. by apply NoDup_app in Hnd as (_ & _ & ?).
Qed.
