(* ===== verification/MemStore.v ===== *)
(** * The database-backed block store (src/core/store: pebble.go, bloom.go, gc_tracker.go)

    [MemStore] is the struct: the database, the directory of flat block files, the
    bloom index, the lifecycle flags and the write tracker of the garbage collector.
    Every method takes the [Env] of its call, so the error paths are there, and the
    plugin hooks as an optional record.  [store_inv] is the invariant; the store is
    shown to implement the [Blockstore] contract, bloom filter, flat files and codec
    sharing included. *)
From S2P Require Import Prelude Mid Wire Blockstore Objects Bloom Db.

Definition LargeBlockThreshold : Z := 1024 * 1024.

(** ** State *)
Section state.
Context `{Floats}.

Record bloomIndex := mkBloomIndex {
  bi_cbf : option CountingBloomFilter;
  bi_capacity : Z;
  bi_fpRate : Fp;
  bi_path : bytes;
  bi_closed : bool;
}.
Record BloomConfig := mkBloomConfig {
  bc_Capacity : Z;
  bc_FPRate : Fp;
  bc_Disabled : bool;
  bc_SnapshotPath : bytes;
}.

Record gcWriteTracker := mkTracker {
  gcActive : bool;
  activeBuffer : gset bytes;
  gracePeriod : Z;     (* seconds *)
}.

(** what the plugin framework is told *)
Inductive Event := AfterBlockPut (m : MID) (size : Z) | AfterBlockDel (m : MID).

Record MemStore := mkMemStore {
  ms_db : DB;
  ms_nil : bool;                 (* s.db == nil, after Close *)
  ms_files : gmap path bytes;    (* under blocksPath *)
  blocksPath : bytes;
  ms_bloom : option bloomIndex;
  ms_closed : bool;
  ms_dropping : bool;
  ms_tracker : option gcWriteTracker;
  ms_events : list Event;
  ms_snapshot : option bytes;    (* the bloom snapshot file *)
}.

Definition set_db (d : DB) (s : MemStore) : MemStore :=
  mkMemStore d (ms_nil s) (ms_files s) (blocksPath s) (ms_bloom s) (ms_closed s) (ms_dropping s)
             (ms_tracker s) (ms_events s) (ms_snapshot s).
Definition set_files (f : gmap path bytes) (s : MemStore) : MemStore :=
  mkMemStore (ms_db s) (ms_nil s) f (blocksPath s) (ms_bloom s) (ms_closed s) (ms_dropping s)
             (ms_tracker s) (ms_events s) (ms_snapshot s).
Definition set_bloom (b : option bloomIndex) (s : MemStore) : MemStore :=
  mkMemStore (ms_db s) (ms_nil s) (ms_files s) (blocksPath s) b (ms_closed s) (ms_dropping s)
             (ms_tracker s) (ms_events s) (ms_snapshot s).
Definition set_tracker (t : option gcWriteTracker) (s : MemStore) : MemStore :=
  mkMemStore (ms_db s) (ms_nil s) (ms_files s) (blocksPath s) (ms_bloom s) (ms_closed s)
             (ms_dropping s) t (ms_events s) (ms_snapshot s).
Definition log_event (e : Event) (s : MemStore) : MemStore :=
  mkMemStore (ms_db s) (ms_nil s) (ms_files s) (blocksPath s) (ms_bloom s) (ms_closed s)
             (ms_dropping s) (ms_tracker s) (ms_events s ++ [e]) (ms_snapshot s).

(** ** Bloom index *)
Definition set_cbf (c : option CountingBloomFilter) (b : bloomIndex) : bloomIndex :=
  mkBloomIndex c (bi_capacity b) (bi_fpRate b) (bi_path b) (bi_closed b).

(** [snapshot] is what reading [cfg.SnapshotPath] gives *)
Definition newBloomIndex (cfg : BloomConfig) (snapshot : result bytes) : bloomIndex :=
  let cap := if bc_Capacity cfg =? 0 then 10000000 else bc_Capacity cfg in
  let fp := if fp_nonpos (bc_FPRate cfg) then fp_default else bc_FPRate cfg in
  let idx c := mkBloomIndex (Some c) cap fp (bc_SnapshotPath cfg) false in
  let loaded :=
    if bool_decide (bc_SnapshotPath cfg = []) then None else
    match snapshot with
    | Ok data => match UnmarshalBinary data with Ok c => Some c | Err _ => None end
    | Err _ => None
    end in
  match loaded with
  | Some c => idx c
  | None => idx (NewCountingBloomFilter cap fp)
  end.

(** the loop over both namespaces; a key that is only the prefix is skipped *)
Definition scan_items (m : gmap bytes bytes) : list bytes :=
  [PrefixBlock; PrefixDAG] ≫= λ p,
    filter (λ raw, raw ≠ []) (map (λ e, drop (length p) e.1) (scan_prefix p m)).
Definition add_all (items : list bytes) (c : CountingBloomFilter) : CountingBloomFilter :=
  foldl (λ c d, cbf_Add d c) c items.

Definition fromDB (env : Env) (d : DB) (b : bloomIndex) : result bloomIndex :=
  let c := match bi_cbf b with
    | Some c => c
    | None => NewCountingBloomFilter (bi_capacity b) (bi_fpRate b)
    end in
  m ← db_NewIter env d;
  Ok (set_cbf (Some (add_all (scan_items m) c)) b).
Definition rebuildFromDB (env : Env) (d : DB) (b : bloomIndex) : result bloomIndex :=
  m ← db_NewIter env d;
  Ok (set_cbf (Some (add_all (scan_items m) (NewCountingBloomFilter (bi_capacity b) (bi_fpRate b)))) b).

Definition maybeTest (m : MID) (b : bloomIndex) : bool :=
  if IsZero m then true else
  match bi_cbf b with None => true | Some c => cbf_Test (Bytes m) c end.
Definition bloom_add (m : MID) (b : bloomIndex) : bloomIndex :=
  if IsZero m then b else set_cbf (cbf_Add (Bytes m) <$> bi_cbf b) b.
Definition recordDelete (m : MID) (b : bloomIndex) : bloomIndex :=
  if IsZero m then b else set_cbf (cbf_Remove (Bytes m) <$> bi_cbf b) b.
(** [s.bloom == nil || s.bloom.maybeTest(m)] *)
Definition maybe (m : MID) (s : MemStore) : bool :=
  match ms_bloom s with None => true | Some b => maybeTest m b end.

(** ** Write tracker *)
Definition DefaultGCGracePeriod : Z := 5 * 60.
Definition newGCWriteTracker (grace : Z) : gcWriteTracker :=
  mkTracker false ∅ (if grace <=? 0 then DefaultGCGracePeriod else grace).
Definition StartGC (g : gcWriteTracker) : gcWriteTracker := mkTracker true ∅ (gracePeriod g).
Definition EndGC (g : gcWriteTracker) : gcWriteTracker := mkTracker false ∅ (gracePeriod g).

Context `{Multiformats, Protos} (alg : Z).

Definition RecordWrite (m : MID) (g : gcWriteTracker) : gcWriteTracker :=
  if IsZero m then g else
  if gcActive g then mkTracker true ({[String m]} ∪ activeBuffer g) (gracePeriod g) else g.
(** [minAge] in seconds; [cutoff] is an uint64 of a possibly negative time *)
Definition IsProtected (env : Env) (m : MID) (writeTs minAge : Z) (g : gcWriteTracker) : bool :=
  if IsZero m then true else
  if gcActive g && bool_decide (String m ∈ activeBuffer g) then true else
  if 0 <? writeTs then
    let grace := gracePeriod g in
    let effectiveGrace := if minAge =? 0 then 0 else if minAge <? grace then minAge else grace in
    let cutoff := u64 (now env - effectiveGrace) in
    (cutoff <=? writeTs) && (0 <? effectiveGrace)
  else false.

(** ** Opening *)
Definition initBloom (env : Env) (cfg : BloomConfig) (snapshot : result bytes) (d : DB)
    : result (option bloomIndex) :=
  if bc_Disabled cfg then Ok None else
  b ← fromDB env d (newBloomIndex cfg snapshot); Ok (Some b).
(** over the database and the files found on disk *)
Definition NewMemStore (env : Env) (cfg : BloomConfig) (snapshot : result bytes) (path_ : bytes)
    (d : gmap bytes bytes) (f : gmap path bytes) : result MemStore :=
  b ← wrap "store: init bloom" (initBloom env cfg snapshot (mkDB d false));
  Ok (mkMemStore (mkDB d false) false f path_ b false false (Some (newGCWriteTracker 0)) [] None).

(** ** Files *)
Definition blockPath (m : MID) : path :=
  let s := String m in
  if (length s <? 3)%nat then (lit "xx", s ++ lit ".data")
  else (take 2 (drop (length s - 3) s), s ++ lit ".data").
Definition tmpFile (p : path) : path := (p.1, p.2 ++ lit ".tmp").
Definition has_files (s : MemStore) : bool := negb (bool_decide (blocksPath s = [])).

(** ** Methods *)
Definition enter : M MemStore unit := λ s,
  if ms_closed s || ms_dropping s || ms_nil s then (Err (New "store: closed"), s) else (Ok tt, s).
Definition get_state : M MemStore MemStore := λ s, (Ok s, s).
Definition modify (f : MemStore -> MemStore) : M MemStore unit := λ s, (Ok tt, f s).
Definition on_db {A} (f : M DB A) : M MemStore A := λ s,
  let '(r, d) := f (ms_db s) in (r, set_db d s).
Definition guard_error (b : bool) (e : error) : M MemStore unit := λ s,
  if b then (Err e, s) else (Ok tt, s).

Record StoreHooks := mkHooks {
  BeforeBlockPut : SBlock -> result (option SBlock);
  BeforeBlockGet : MID -> result MID;
  AfterBlockGet : MID -> bytes -> result bytes;
}.

(** the payload part of a write: large blocks go to a flat file, written under a
    temporary name and renamed, and the database keeps their length *)
Definition put_value (env : Env) (m : MID) (data : bytes) : M MemStore bytes := λ s,
  if has_files s && (LargeBlockThreshold <=? zlen data) then
    let fpath := blockPath m in
    match io_mkdir env fpath with
    | Some e => (Err (Wrap "store: create block dir" e), s)
    | None =>
        match io_write env fpath with
        | Some e => (Err (Wrap "store: write block file" e), s)
        | None =>
            let written := <[tmpFile fpath := data]> (ms_files s) in
            match io_rename env fpath with
            | Some e => (Err (Wrap "store: rename block file" e), set_files (delete (tmpFile fpath) written) s)
            | None => (Ok (PutUint64 (u64 (zlen data))),
                       set_files (<[fpath := data]> (delete (tmpFile fpath) written)) s)
            end
        end
    end
  else (Ok data, s).

Definition track (m : MID) (s : MemStore) : MemStore :=
  set_tracker (RecordWrite m <$> ms_tracker s) (set_bloom (bloom_add m <$> ms_bloom s) s).

Definition hooked (hooks : option StoreHooks) (m : MID) (data : bytes) : result (MID * bytes) :=
  match hooks with
  | None => Ok (m, data)
  | Some h =>
      blk ← BeforeBlockPut h (mkSBlock m data);
      Ok (match blk with Some b => (sb_MID b, sb_Data b) | None => (m, data) end)
  end.
Definition told (hooks : option StoreHooks) (e : Event) (s : MemStore) : MemStore :=
  match hooks with Some _ => log_event e s | None => s end.

Definition Put (env : Env) (hooks : option StoreHooks) (m : MID) (data : bytes) : M MemStore unit :=
  _ ← enter;
  _ ← guard_error (IsZero m) (New "store: zero MID");
  '(m, data) ← liftr (hooked hooks m data);
  _ ← liftr (verifyContent alg m data);
  val ← put_value env m data;
  _ ← on_db (Commit env [BSet (BlockKey m) val; PutTimestamp env m]);
  _ ← modify (track m);
  modify (told hooks (AfterBlockPut m (i64 (zlen data)))).

(** the first loop of [PutBatch]: the operations of the batch *)
Fixpoint batch_ops (env : Env) (hooks : option StoreHooks) (bs : list SBlock) : M MemStore (list batch_op) :=
  match bs with
  | [] => mret []
  | b :: bs =>
      _ ← guard_error (IsZero (sb_MID b)) (New "store: zero MID in batch");
      '(m, data) ← liftr (hooked hooks (sb_MID b) (sb_Data b));
      _ ← liftr (verifyContent alg m data);
      val ← put_value env m data;
      ops ← batch_ops env hooks bs;
      mret (BSet (BlockKey m) val :: PutTimestamp env m :: ops)
  end.
(** the second loop goes over the blocks as they were passed in *)
Definition PutBatch (env : Env) (hooks : option StoreHooks) (bs : list SBlock) : M MemStore unit :=
  if bool_decide (bs = []) then mret tt else
  _ ← enter;
  ops ← batch_ops env hooks bs;
  _ ← on_db (Commit env ops);
  for_each (λ b, modify (λ s,
    told hooks (AfterBlockPut (sb_MID b) (i64 (zlen (sb_Data b)))) (track (sb_MID b) s))) bs.

Definition PutDAG (env : Env) (m : MID) (data : bytes) : M MemStore unit :=
  _ ← enter;
  _ ← guard_error (IsZero m) (New "store: zero MID");
  _ ← liftr (verifyContent alg m data);
  val ← put_value env m data;
  _ ← on_db (Commit env [BSet (DagKey m) val; PutTimestamp env m]);
  modify (track m).

(** an 8-byte value may be the length of a flat file *)
Definition load (env : Env) (m : MID) (val : bytes) (s : MemStore) : result bytes :=
  if has_files s && (zlen val =? 8) then
    match io_readfile env (blockPath m) with
    | Some e => Err e
    | None => match ms_files s !! blockPath m with Some d => Ok d | None => Ok val end
    end
  else Ok val.

(** the lookup in both namespaces *)
Definition lookup_value (env : Env) (m : MID) (s : MemStore) : result bytes :=
  match db_Get env (BlockKey m) (ms_db s) with
  | Ok b => Ok b
  | Err e =>
      if negb (errors_is e ErrKeyNotFound) then Err e else
      match db_Get env (DagKey m) (ms_db s) with
      | Ok d => Ok d
      | Err e => if negb (errors_is e ErrKeyNotFound) then Err e else Err ErrNotFound
      end
  end.

Definition closed_or_nil (s : MemStore) : bool := ms_closed s || ms_dropping s || ms_nil s.
Definition Get (env : Env) (hooks : option StoreHooks) (m : MID) (s : MemStore) : result bytes :=
  if closed_or_nil s then Err (New "store: closed") else
  if IsZero m then Err (New "store: zero MID") else
  m ← (match hooks with Some h => BeforeBlockGet h m | None => Ok m end);
  if negb (maybe m s) then Err ErrNotFound else
  val ← lookup_value env m s;
  data ← load env m val s;
  match hooks with Some h => AfterBlockGet h m data | None => Ok data end.

Definition GetDAG (env : Env) (m : MID) (s : MemStore) : result bytes :=
  if closed_or_nil s then Err (New "store: closed") else
  if IsZero m then Err (New "store: zero MID") else
  match db_Get env (DagKey m) (ms_db s) with
  | Err e => Err (if errors_is e ErrKeyNotFound then ErrNotFound else e)
  | Ok val => load env m val s
  end.

Definition Has (env : Env) (m : MID) (s : MemStore) : result bool :=
  if closed_or_nil s then Err (New "store: closed") else
  if IsZero m then Err (New "store: zero MID") else
  if negb (maybe m s) then Ok false else
  match db_Has env (BlockKey m) (ms_db s) with
  | Ok true => Ok true
  | Err e => Err e
  | Ok false => db_Has env (DagKey m) (ms_db s)
  end.
Definition HasDAG (env : Env) (m : MID) (s : MemStore) : result bool :=
  if closed_or_nil s then Err (New "store: closed") else
  if IsZero m then Err (New "store: zero MID") else
  if negb (maybe m s) then Ok false else db_Has env (DagKey m) (ms_db s).

Definition remove_file (m : MID) (s : MemStore) : MemStore :=
  if has_files s then set_files (delete (blockPath m) (ms_files s)) s else s.
Definition forget (m : MID) (s : MemStore) : MemStore :=
  set_bloom (recordDelete m <$> ms_bloom s) s.

Definition Delete (env : Env) (hooks : option StoreHooks) (m : MID) : M MemStore unit :=
  _ ← enter;
  _ ← on_db (Commit env [BDel (BlockKey m); BDel (DagKey m);
        BDel (MetaKey (lit "obj/" ++ String m)); BDel (MetaKey (lit "ts/" ++ String m))]);
  _ ← modify (remove_file m);
  _ ← modify (forget m);
  modify (told hooks (AfterBlockDel m)).
Definition DeleteDAG (env : Env) (m : MID) : M MemStore unit :=
  _ ← enter;
  _ ← on_db (Commit env [BDel (DagKey m);
        BDel (MetaKey (lit "obj/" ++ String m)); BDel (MetaKey (lit "ts/" ++ String m))]);
  _ ← modify (remove_file m);
  modify (forget m).

Definition GetSize (env : Env) (m : MID) (s : MemStore) : result Z :=
  if closed_or_nil s then Err (New "store: closed") else
  let val := match db_Get env (BlockKey m) (ms_db s) with
    | Err e => if errors_is e ErrKeyNotFound then db_Get env (DagKey m) (ms_db s) else Err e
    | Ok v => Ok v
    end in
  match val with
  | Err e => Err (if errors_is e ErrKeyNotFound then ErrNotFound else e)
  | Ok v => Ok (if has_files s && (zlen v =? 8) then i64 (Uint64 v) else i64 (zlen v))
  end.

(** the size a database value stands for *)
Definition value_size (s : MemStore) (v : bytes) : Z :=
  if has_files s && (zlen v =? 8) then Uint64 v else u64 (zlen v).
Definition Size (env : Env) (s : MemStore) : result Z :=
  if closed_or_nil s then Err (New "store: closed") else
  m ← db_NewIter env (ms_db s);
  Ok (foldl (λ tot e, u64 (tot + value_size s e.2)) 0
        (scan_prefix PrefixBlock m ++ scan_prefix PrefixDAG m)).

(** the MIDs [IterateBlocks] hands to its callback: every key under both namespaces,
    as a raw MID, the first time it is met *)
Definition all_raw_mids (m : gmap bytes bytes) : list MID :=
  [PrefixBlock; PrefixDAG] ≫= λ p,
    rights (map (λ e, FromMultihash CodecRaw (drop (length p) e.1)) (scan_prefix p m)).
Fixpoint once (seen : gset bytes) (l : list MID) : list MID :=
  match l with
  | [] => []
  | m :: l => if decide (String m ∈ seen) then once seen l
              else m :: once ({[String m]} ∪ seen) l
  end.
Definition IterateBlocks {T} (env : Env) (fn : MID -> M T unit) (s : MemStore) : M T unit :=
  if closed_or_nil s then throw (New "store: closed") else
  m ← liftr (db_NewIter env (ms_db s));
  for_each fn (once ∅ (all_raw_mids m)).
Definition AllBlocks (env : Env) (s : MemStore) : result (list MID) :=
  if closed_or_nil s then Err (New "store: closed") else
  m ← db_NewIter env (ms_db s); Ok (once ∅ (all_raw_mids m)).

Definition PutMeta (env : Env) (key value : bytes) : M MemStore unit :=
  _ ← enter;
  _ ← guard_error (bool_decide (key = [])) (New "store: empty meta key");
  on_db (db_Set env (MetaKey key) value).
Definition GetMeta (env : Env) (key : bytes) (s : MemStore) : result bytes :=
  if closed_or_nil s then Err (New "store: closed") else
  match db_Get env (MetaKey key) (ms_db s) with
  | Err e => Err (if errors_is e ErrKeyNotFound then ErrNotFound else e)
  | Ok v => Ok v
  end.
Definition IterateMetaPrefix {T} (env : Env) (prefix : bytes) (fn : bytes -> M T unit) (s : MemStore) : M T unit :=
  if closed_or_nil s then throw (New "store: closed") else
  m ← liftr (db_NewIter env (ms_db s));
  for_each fn (map (λ e, drop (length PrefixMeta + length prefix) e.1) (scan_prefix (MetaKey prefix) m)).

(** [Close] is idempotent; the snapshot is written when the index has a path *)
Definition Close (env : Env) : M MemStore unit := λ s,
  if ms_closed s then (Ok tt, s) else
  let snap := match ms_bloom s with
    | Some b => if bi_closed b || bool_decide (bi_path b = []) then ms_snapshot s
                else match bi_cbf b with Some c => Some (MarshalBinary c) | None => ms_snapshot s end
    | None => ms_snapshot s
    end in
  (Ok tt, mkMemStore (mkDB (kv (ms_db s)) true) true (ms_files s) (blocksPath s) None true
            (ms_dropping s) (ms_tracker s) (ms_events s) snap).

Definition DropAll (env : Env) : M MemStore unit := λ s,
  if ms_closed s || ms_dropping s then (Err (New "store closed or dropping"), s) else
  match db_NewIter env (ms_db s) with
  | Err e => (Err e, s)
  | Ok m =>
      match Commit env (map (λ e, BDel e.1) (merge_sort key_le (map_to_list m))) (ms_db s) with
      | (Err e, _) => (Err (Wrap "store: drop all failed" e), s)
      | (Ok _, d) =>
          let s := set_db d s in
          let s := if has_files s then set_files ∅ s else s in
          match ms_bloom s with
          | None => (Ok tt, s)
          | Some b =>
              match rebuildFromDB env d b with
              | Ok b => (Ok tt, set_bloom (Some b) s)
              | Err e => (Err (Wrap "store: drop all failed" e), s)
              end
          end
      end
  end.
End state.

(** ** The invariant *)
Section invariant.
Context `{Floats, Multiformats} `{!MultiformatsLaws} `{Protos}.
Context (alg : Z) (Halg : isSupportedHash alg = true).
Implicit Types (s : MemStore) (m : MID) (h d v : bytes).

(** the two namespaces of blocks *)
Definition block_ns (p : bytes) : Prop := p = PrefixBlock \/ p = PrefixDAG.
(** the content named by a multihash *)
Definition hnames h d : Prop := names alg (mkMID 0 0 h []) d.
Lemma hnames_names m d : hnames (Hash m) d <-> names alg m d.
Proof. split; by apply names_Hash. Qed.

(** a database value for [h] is the content, or the length of a large one *)
Definition stored s h v : Prop := exists d, hnames h d /\
  (v = d /\ (has_files s = true -> zlen d < LargeBlockThreshold) \/
   has_files s = true /\ LargeBlockThreshold <= zlen d /\ v = PutUint64 (u64 (zlen d))).

Definition present s p h : nat := if decide (is_Some (kv (ms_db s) !! (p ++ h))) then 1 else 0.
Definition occurrences h (items : list bytes) : nat := length (filter (eq h) items).
(** the bloom filter holds every stored key, once per namespace *)
Definition bloom_covers s : Prop :=
  match ms_bloom s with
  | Some b => match bi_cbf b with
      | Some c => exists items, represents c items /\ forall h, h ≠ [] ->
          (present s PrefixBlock h + present s PrefixDAG h ≤ occurrences h items)%nat
      | None => True
      end
  | None => True
  end.

Record store_inv s : Prop := {
  si_stored p h v : block_ns p -> kv (ms_db s) !! (p ++ h) = Some v -> stored s h v;
  si_files m d : wf_mid m -> ms_files s !! blockPath m = Some d ->
    names alg m d /\ LargeBlockThreshold <= zlen d;
  si_bloom : bloom_covers s;
}.
Definition store_open s : Prop := closed_or_nil s = false /\ db_closed (ms_db s) = false.

Lemma PutUint64_zlen z : zlen (PutUint64 z) = 8.
Proof. unfold zlen. by rewrite PutUint64_length. Qed.

(** *** Keys and paths do not collide *)
Lemma block_ns_length p : block_ns p -> length p = 3%nat.
Proof. intros [->| ->]; done. Qed.
Lemma ns_inj p p' h h' : block_ns p -> block_ns p' -> p ++ h = p' ++ h' -> p = p' /\ h = h'.
Proof. intros Hp Hp' E. apply app_inj_1 in E; [done|]. by rewrite !block_ns_length. Qed.
Lemma ns_not_meta p h k : block_ns p -> p ++ h ≠ MetaKey k.
Proof. intros [->| ->]; done. Qed.
Lemma ns_not_seal p h m : block_ns p -> p ++ h ≠ SealKey m.
Proof. intros [->| ->]; done. Qed.

Lemma blockPath_snd m : (blockPath m).2 = String m ++ lit ".data".
Proof. unfold blockPath. by destruct (_ <? _)%nat. Qed.
Lemma blockPath_inj m m' : wf_mid m -> wf_mid m' -> blockPath m = blockPath m' -> m = m'.
Proof.
  intros Hm Hm' E%(f_equal snd). rewrite !blockPath_snd in E.
  apply app_inj_2 in E as [E _]; [|done]. by apply String_inj.
Qed.
Lemma tmp_not_block m m' : tmpFile (blockPath m) ≠ blockPath m'.
Proof using Type.
  intros E%(f_equal snd). unfold tmpFile in E. simpl in E. rewrite !blockPath_snd in E.
  apply (f_equal last) in E. rewrite <-app_assoc, !last_app in E. discriminate E.
Qed.

Lemma put_value_spec env m data s r s' :
  put_value env m data s = (r, s') ->
  exists f', s' = set_files f' s /\
    (forall m', wf_mid m' -> blockPath m' ≠ blockPath m -> f' !! blockPath m' = ms_files s !! blockPath m') /\
    (forall v, r = Ok v ->
      if has_files s && (LargeBlockThreshold <=? zlen data)
      then v = PutUint64 (u64 (zlen data)) /\ f' !! blockPath m = Some data
      else v = data /\ f' = ms_files s) /\
    (f' !! blockPath m = ms_files s !! blockPath m \/
     f' !! blockPath m = Some data /\ LargeBlockThreshold <= zlen data).
Proof using Type.
  unfold put_value. destruct (has_files s && _) eqn:Eb.
  2:{ intros [= <- <-]. exists (ms_files s). split; [by destruct s|]. split; [done|].
      split; [by intros v [= <-]|by left]. }
  assert (forall f, f = ms_files s -> set_files f s = s) as Hid by (intros f ->; by destruct s).
  destruct (io_mkdir env (blockPath m)).
  { intros [= <- <-]. exists (ms_files s). split_and!; [by rewrite Hid|done|done|by left]. }
  destruct (io_write env (blockPath m)).
  { intros [= <- <-]. exists (ms_files s). split_and!; [by rewrite Hid|done|done|by left]. }
  pose proof (tmp_not_block m) as Ht. apply andb_true_iff in Eb as [_ Hbig].
  apply Z.leb_le in Hbig. destruct (io_rename env (blockPath m)).
  - intros [= <- <-]. eexists. split; [done|]. split_and!; [|done|].
    + intros m' _ _. by rewrite delete_insert_eq, lookup_delete_ne by done.
    + left. by rewrite delete_insert_eq, lookup_delete_ne by done.
  - intros [= <- <-]. eexists. split; [done|]. split_and!.
    + intros m' _ Hne. rewrite lookup_insert_ne by done.
      by rewrite delete_insert_eq, lookup_delete_ne by done.
    + intros v [= <-]. by rewrite lookup_insert_eq.
    + right. by rewrite lookup_insert_eq.
Qed.

(** *** What is readable *)
Context `{!CollisionFree alg}.
Context (env : Env) (Hget : forall k, io_get env k = None) (Hread : forall p, io_readfile env p = None).

Record readable s m d : Prop := {
  rd_maybe : maybe m s = true;
  rd_key : exists p, block_ns p /\ is_Some (kv (ms_db s) !! (p ++ Hash m));
  rd_file : has_files s = true -> LargeBlockThreshold <= zlen d -> ms_files s !! blockPath m = Some d;
}.

Lemma lookup_value_eq m s : db_closed (ms_db s) = false ->
  lookup_value env m s =
  match kv (ms_db s) !! (PrefixBlock ++ Hash m) with
  | Some v => Ok v
  | None => match kv (ms_db s) !! (PrefixDAG ++ Hash m) with Some v => Ok v | None => Err ErrNotFound end
  end.
Proof using Hget.
  intros Hc. unfold lookup_value, db_Get, BlockKey, DagKey, Bytes. rewrite Hc, !Hget.
  destruct (kv (ms_db s) !! (PrefixBlock ++ Hash m)); [done|]. rewrite errors_is_refl. cbn [negb].
  by destruct (kv (ms_db s) !! (PrefixDAG ++ Hash m)).
Qed.

(** some key of [m] is stored *)
Definition holds_key s m : Prop := exists p, block_ns p /\ is_Some (kv (ms_db s) !! (p ++ Hash m)).
#[local] Instance holds_key_dec s m : Decision (holds_key s m).
Proof.
  destruct (decide (is_Some (kv (ms_db s) !! (PrefixBlock ++ Hash m)))) as [Hb|Hb].
  { left. exists PrefixBlock. by split; [left|]. }
  destruct (decide (is_Some (kv (ms_db s) !! (PrefixDAG ++ Hash m)))) as [Hd|Hd].
  { left. exists PrefixDAG. by split; [right|]. }
  right. intros (p & [->| ->] & Hk); contradiction.
Defined.
Lemma holds_key_or s m : holds_key s m <->
  is_Some (kv (ms_db s) !! (PrefixBlock ++ Hash m)) \/ is_Some (kv (ms_db s) !! (PrefixDAG ++ Hash m)).
Proof.
  split; [intros (p & [->| ->] & ?); auto|].
  intros [?|?]; [exists PrefixBlock|exists PrefixDAG]; (split; [|done]); [by left|by right].
Qed.
Lemma lookup_holds m s : store_open s -> holds_key s m -> exists v, lookup_value env m s = Ok v /\
  exists p, block_ns p /\ kv (ms_db s) !! (p ++ Hash m) = Some v.
Proof using Hget.
  intros [_ Hc] Hk%holds_key_or. rewrite lookup_value_eq by done.
  destruct (kv (ms_db s) !! (PrefixBlock ++ Hash m)) as [v|] eqn:E1.
  { exists v. split; [done|]. exists PrefixBlock. by split; [left|]. }
  destruct (kv (ms_db s) !! (PrefixDAG ++ Hash m)) as [v|] eqn:E2.
  { exists v. split; [done|]. exists PrefixDAG. by split; [right|]. }
  destruct Hk as [[? ?]|[? ?]]; done.
Qed.

(** a stored value loads as the content, when its file is there *)
Lemma load_stored s m d v :
  store_inv s -> wf_mid m -> names alg m d -> stored s (Hash m) v ->
  load env m v s = Ok d <->
  (has_files s = true -> LargeBlockThreshold <= zlen d -> ms_files s !! blockPath m = Some d).
Proof using All.
  intros Hs Hm Hn (d' & Hn' & Hv). apply hnames_names in Hn'.
  assert (d' = d) as -> by by eapply (names_unique alg Halg). unfold load. rewrite Hread.
  destruct Hv as [[-> Hsm]|(Hf & Hbig & ->)].
  - destruct (has_files s) eqn:Hf; simpl.
    2:{ by split. }
    specialize (Hsm eq_refl). split; [intros _ _ ?; lia|intros _].
    destruct (zlen d =? 8); [|done]. destruct (ms_files s !! blockPath m) as [d2|] eqn:E; [|done].
    apply (si_files s Hs m d2 Hm) in E as [Hn2 Hbig].
    assert (d2 = d) as -> by by eapply (names_unique alg Halg). lia.
  - rewrite Hf, PutUint64_zlen. cbn [andb]. change (8 =? 8) with true. cbn iota. split.
    + destruct (ms_files s !! blockPath m) as [d2|] eqn:E; [by intros [= ->]|].
      intros E2. injection E2 as E2. apply (f_equal zlen) in E2. rewrite PutUint64_zlen in E2.
      unfold LargeBlockThreshold in Hbig. lia.
    + intros E. by rewrite E.
Qed.

(** [Get] returns the named content exactly when it is readable. *)
Lemma Get_readable s m d :
  store_inv s -> store_open s -> wf_mid m -> names alg m d ->
  Get env None m s = Ok d <-> readable s m d.
Proof using All.
  intros Hs [Ho Hc] Hm Hn. unfold Get. rewrite Ho, wf_not_zero by done. cbn [mbind result_bind].
  destruct (maybe m s) eqn:Em; cbn [negb].
  2:{ split; [done|]. intros [E _ _]. congruence. }
  rewrite lookup_value_eq by done.
  assert (forall p v, block_ns p -> kv (ms_db s) !! (p ++ Hash m) = Some v ->
    (data ← load env m v s; Ok data) = Ok d <-> readable s m d) as Hcase.
  { intros p v Hp E. transitivity (load env m v s = Ok d); [by destruct (load env m v s)|].
    rewrite (load_stored s m d v Hs Hm Hn (si_stored s Hs p _ v Hp E)). split.
    - intros Hf. split; [done|by exists p|done].
    - by intros [_ _ ?]. }
  destruct (kv (ms_db s) !! (PrefixBlock ++ Hash m)) as [v|] eqn:E1.
  { apply (Hcase PrefixBlock); [by left|done]. }
  destruct (kv (ms_db s) !! (PrefixDAG ++ Hash m)) as [v|] eqn:E2.
  { apply (Hcase PrefixDAG); [by right|done]. }
  split; [done|]. intros [_ (p & [->| ->] & [v Hv]) _]; congruence.
Qed.

(** *** Writes *)
(** [Put] without hooks and [PutDAG], as one definition over the key prefix *)
Definition put_at (p : bytes) (wenv : Env) m d : M MemStore unit :=
  _ ← enter;
  _ ← guard_error (IsZero m) (New "store: zero MID");
  _ ← liftr (verifyContent alg m d);
  val ← put_value wenv m d;
  _ ← on_db (Commit wenv [BSet (p ++ Bytes m) val; PutTimestamp wenv m]);
  modify (track m).
Lemma Put_put_at wenv m d s : Put alg wenv None m d s = put_at PrefixBlock wenv m d s.
Proof using Type.
  unfold Put, put_at, mbind, M_bind. destruct (enter s) as [[[]|] s1]; [|done].
  destruct (guard_error _ _ s1) as [[[]|] s2]; [|done]. simpl.
  destruct (verifyContent alg m d); [|done]. destruct (put_value wenv m d s2) as [[v|] s3]; [|done].
  by destruct (on_db _ s3) as [[[]|] s4].
Qed.
Lemma PutDAG_put_at wenv m d s : PutDAG alg wenv m d s = put_at PrefixDAG wenv m d s.
Proof. done. Qed.

(** the value the database gets *)
Definition value_of s d : bytes :=
  if has_files s && (LargeBlockThreshold <=? zlen d) then PutUint64 (u64 (zlen d)) else d.
Definition new_kv (p : bytes) (wenv : Env) m d s : gmap bytes bytes :=
  <[TimestampKey m := PutUint64 (u64 (now wenv))]> (<[p ++ Hash m := value_of s d]> (kv (ms_db s))).

(** the files after a write of [d] under [m]: nothing else is touched *)
Record files_grow s m d (f' : gmap path bytes) : Prop := {
  fg_other m' : wf_mid m' -> blockPath m' ≠ blockPath m -> f' !! blockPath m' = ms_files s !! blockPath m';
  fg_self : f' !! blockPath m = ms_files s !! blockPath m \/
    f' !! blockPath m = Some d /\ LargeBlockThreshold <= zlen d;
}.

Lemma put_at_cases p wenv m d s r s' :
  wf_mid m -> put_at p wenv m d s = (r, s') ->
  (s' = s /\ r ≠ Ok tt) \/
  closed_or_nil s = false /\ names alg m d /\ exists f', files_grow s m d f' /\
    ((r ≠ Ok tt /\ s' = set_files f' s) \/
     (r = Ok tt /\
      s' = track m (set_db (mkDB (new_kv p wenv m d s) (db_closed (ms_db s))) (set_files f' s)) /\
      (has_files s = true -> LargeBlockThreshold <= zlen d -> f' !! blockPath m = Some d))).
Proof.
  intros Hm. unfold put_at, mbind, M_bind, enter. fold (closed_or_nil s).
  destruct (closed_or_nil s) eqn:Ho; [intros [= <- <-]; by left|].
  unfold guard_error. rewrite wf_not_zero by done. unfold liftr.
  destruct (verifyContent alg m d) as [[]|e] eqn:Ev; [|intros [= <- <-]; by left].
  apply verifyContent_ok_inv in Ev. destruct (put_value wenv m d s) as [rv s1] eqn:Ep.
  apply put_value_spec in Ep as (f' & -> & Ho' & Hv & Hs).
  assert (files_grow s m d f') as Hg by by split.
  intros E. right. split_and!; [done..|]. exists f'. split; [done|]. destruct rv as [v|e].
  2:{ injection E as <- <-. left. done. }
  specialize (Hv v eq_refl). revert E. unfold on_db, Commit. cbn [ms_db set_files].
  destruct (io_commit wenv) as [e|]; [intros [= <- <-]; left; by split|].
  intros [= <- <-]. right. split; [done|]. unfold new_kv, value_of, TimestampKey.
  destruct (has_files s && (LargeBlockThreshold <=? zlen d)) eqn:Eb.
  - destruct Hv as [-> Hfile]. split; [done|]. by intros.
  - destruct Hv as [-> ->]. split; [done|]. intros Hf Hb%Z.leb_le. by rewrite Hf, Hb in Eb.
Qed.

Lemma value_of_stored s m d : names alg m d -> stored s (Hash m) (value_of s d).
Proof.
  intros Hn. exists d. split; [by apply hnames_names|]. unfold value_of.
  destruct (has_files s); simpl; [|by left].
  destruct (Z.leb_spec LargeBlockThreshold (zlen d)); [by right|left; split; [done|by intros]].
Qed.
Lemma new_kv_ns p p' wenv m d s h :
  block_ns p -> block_ns p' ->
  new_kv p wenv m d s !! (p' ++ h) =
  if decide (p' = p /\ h = Hash m) then Some (value_of s d) else kv (ms_db s) !! (p' ++ h).
Proof.
  intros Hp Hp'. unfold new_kv. rewrite lookup_insert_ne by (symmetry; by apply ns_not_meta).
  destruct (decide _) as [[-> ->]|Hne]; [by rewrite lookup_insert_eq|].
  rewrite lookup_insert_ne; [done|]. intros E%ns_inj; [|done..]. naive_solver.
Qed.
Lemma files_grow_inv s m d f' m' d' :
  store_inv s -> wf_mid m -> wf_mid m' -> names alg m d -> files_grow s m d f' ->
  f' !! blockPath m' = Some d' -> names alg m' d' /\ LargeBlockThreshold <= zlen d'.
Proof.
  intros Hs Hm Hm' Hn [Ho Hself] E. destruct (decide (blockPath m' = blockPath m)) as [Ep|Hne].
  - apply blockPath_inj in Ep as ->; [|done..]. destruct Hself as [Hf|[Hf Hb]].
    + rewrite Hf in E. by apply (si_files s Hs).
    + rewrite Hf in E. by injection E as <-.
  - rewrite Ho in E by done. by apply (si_files s Hs).
Qed.
Lemma files_grow_keeps s m d f' m' d' :
  wf_mid m -> wf_mid m' -> names alg m d -> names alg m' d' -> files_grow s m d f' ->
  ms_files s !! blockPath m' = Some d' -> f' !! blockPath m' = Some d'.
Proof using All.
  intros Hm Hm' Hn Hn' [Ho Hself] E. destruct (decide (blockPath m' = blockPath m)) as [Ep|Hne].
  - apply blockPath_inj in Ep as ->; [|done..]. destruct Hself as [Hf|[Hf Hb]]; rewrite Hf; [done|].
    f_equal. by eapply (names_unique alg Halg).
  - by rewrite Ho.
Qed.

Lemma occurrences_cons h h' items :
  occurrences h (h' :: items) = ((if decide (h = h') then 1 else 0) + occurrences h items)%nat.
Proof using Type. unfold occurrences. rewrite filter_cons. by destruct (decide (h = h')). Qed.

(** *** A write keeps the invariant and every readable block *)
Lemma bloom_covers_files f s : bloom_covers (set_files f s) <-> bloom_covers s.
Proof. done. Qed.
Lemma bloom_covers_track p wenv m d s f :
  block_ns p -> wf_mid m -> bloom_covers s ->
  bloom_covers (track m (set_db (mkDB (new_kv p wenv m d s) (db_closed (ms_db s))) (set_files f s))).
Proof.
  intros Hp Hm. set (s' := track _ _).
  assert (forall p' h, block_ns p' -> present s' p' h ≤
      (if decide (p' = p /\ h = Hash m) then 1 else 0) + present s p' h)%nat as Hpr.
  { intros p' h Hp'. unfold present. subst s'. cbn [track ms_db kv set_tracker set_bloom set_db set_files].
    rewrite (new_kv_ns p p') by done. destruct (decide (p' = p /\ h = Hash m)); [|lia].
    destruct (decide _), (decide _); lia. }
  unfold bloom_covers. replace (ms_bloom s') with (bloom_add m <$> ms_bloom s) by done. clearbody s'.
  destruct (ms_bloom s) as [b|]; [|done]. cbn [fmap option_fmap option_map].
  unfold bloom_add. rewrite wf_not_zero by done. cbn [bi_cbf set_cbf].
  destruct (bi_cbf b) as [c|]; [|done]. cbn [fmap option_fmap option_map].
  intros (items & Hc & Hocc). exists (Hash m :: items).
  split; [apply represents_Add; [by apply wf_Hash_ne|done]|].
  intros h Hh. specialize (Hocc h Hh). rewrite occurrences_cons.
  pose proof (Hpr PrefixBlock h ltac:(by left)) as Ha. pose proof (Hpr PrefixDAG h ltac:(by right)) as Hb.
  assert (PrefixBlock ≠ PrefixDAG) as Hpp by done.
  destruct (decide (h = Hash m)) as [->|Hne].
  - destruct (decide (PrefixBlock = p /\ Hash m = Hash m)) as [[E1 _]|];
      destruct (decide (PrefixDAG = p /\ Hash m = Hash m)) as [[E2 _]|]; [congruence|lia..].
  - rewrite decide_False in Ha by naive_solver. rewrite decide_False in Hb by naive_solver. lia.
Qed.

Lemma maybe_track m m' s : maybe m' s = true -> maybe m' (track m s) = true.
Proof.
  unfold maybe, track. cbn [ms_bloom set_tracker set_bloom].
  destruct (ms_bloom s) as [b|]; [|done]. cbn [fmap option_fmap option_map]. unfold maybeTest, bloom_add.
  destruct (IsZero m'); [done|]. destruct (IsZero m); [done|]. cbn [bi_cbf set_cbf].
  destruct (bi_cbf b); [|done]. cbn [fmap option_fmap option_map]. apply cbf_Add_Test.
Qed.
(** no false negatives: what the database holds passes the filter *)
Lemma covered_maybe s m p :
  bloom_covers s -> block_ns p -> is_Some (kv (ms_db s) !! (p ++ Hash m)) -> maybe m s = true.
Proof.
  unfold bloom_covers, maybe, maybeTest. destruct (ms_bloom s) as [b|]; [|done].
  destruct (IsZero m) eqn:Ez; [done|]. destruct (bi_cbf b) as [c|]; [|done].
  intros (items & Hc & Hocc) Hp Hk. apply (represents_Test c _ items Hc).
  assert (Hash m ≠ []) as Hne by by apply bool_decide_eq_false in Ez.
  specialize (Hocc _ Hne). unfold present in Hocc.
  assert (0 < occurrences (Hash m) items)%nat as Hpos.
  { destruct Hp as [->| ->].
    - destruct (decide (is_Some (kv (ms_db s) !! (PrefixBlock ++ Hash m)))); [lia|done].
    - destruct (decide (is_Some (kv (ms_db s) !! (PrefixDAG ++ Hash m)))); [lia|done]. }
  unfold occurrences in Hpos. destruct (filter (eq (Hash m)) items) as [|x l] eqn:E; [simpl in Hpos; lia|].
  assert (x ∈ filter (eq (Hash m)) items) as Hx by (rewrite E; by left).
  apply list_elem_of_filter in Hx as [<- Hx]. done.
Qed.

(** at any moment, [maybe] is no further condition *)
Lemma readable_iff s m d : store_inv s ->
  readable s m d <->
  (exists p, block_ns p /\ is_Some (kv (ms_db s) !! (p ++ Hash m))) /\
  (has_files s = true -> LargeBlockThreshold <= zlen d -> ms_files s !! blockPath m = Some d).
Proof.
  intros Hs. split; [by intros [_ ? ?]|]. intros [(p & Hp & Hk) Hf]. split; [|by exists p|done].
  eapply covered_maybe; [apply (si_bloom s Hs)|done..].
Qed.

Lemma put_at_spec p wenv m d s r s' :
  block_ns p -> store_inv s -> wf_mid m -> put_at p wenv m d s = (r, s') ->
  store_inv s' /\ (store_open s -> store_open s') /\
  (r = Ok tt -> closed_or_nil s = false /\ names alg m d /\ readable s' m d) /\
  (forall m' d', wf_mid m' -> names alg m' d' -> readable s m' d' -> readable s' m' d').
Proof using All.
  intros Hp Hs Hm E. apply put_at_cases in E as [[-> Hr]|(Ho & Hn & f' & Hg & Hcase)]; [| |done].
  { split_and!; [done|done|by intros ->|done]. }
  destruct Hcase as [[Hr ->]|(-> & -> & Hfile)].
  - split_and!; [|done|by intros ->|].
    + split; [apply (si_stored s Hs)| |apply (si_bloom s Hs)].
      intros m' d' Hm'. by apply (files_grow_inv s m d f').
    + intros m' d' Hm' Hn' [Hb Hk Hf]. split; [done|done|]. intros Hx1 Hx2.
      apply (files_grow_keeps s m d f' m' d'); [done..|]. by apply Hf.
  - assert (store_inv (track m (set_db (mkDB (new_kv p wenv m d s) (db_closed (ms_db s))) (set_files f' s)))) as Hs'.
    { split.
      - intros p' h v Hp'. cbn [track ms_db kv set_tracker set_bloom set_db set_files].
        rewrite (new_kv_ns p p') by done. destruct (decide _) as [[-> ->]|].
        + intros [= <-]. by apply (value_of_stored s).
        + by apply (si_stored s Hs).
      - intros m' d' Hm'. by apply (files_grow_inv s m d f').
      - by apply bloom_covers_track, Hs. }
    split_and!; [done|done| |].
    + intros _. split_and!; [done|done|]. apply readable_iff; [done|]. split; [|done].
      exists p. split; [done|]. cbn [track ms_db kv set_tracker set_bloom set_db set_files].
      rewrite (new_kv_ns p p) by done. by rewrite decide_True.
    + intros m' d' Hm' Hn' [Hb (p' & Hp' & Hk) Hf]. split.
      * by apply maybe_track.
      * exists p'. split; [done|]. cbn [track ms_db kv set_tracker set_bloom set_db set_files].
        rewrite (new_kv_ns p p') by done. by destruct (decide _).
      * intros Hx1 Hx2. apply (files_grow_keeps s m d f' m' d'); [done..|]. by apply Hf.
Qed.

(** *** The store implements the [Blockstore] contract *)
Definition MemStore_blockstore (wenv : Env) : Blockstore MemStore := {|
  bs_Put := Put alg wenv None; bs_Get := Get env None; bs_Has := Has env |}.
Definition DAG_blockstore (wenv : Env) : Blockstore MemStore := {|
  bs_Put := PutDAG alg wenv; bs_Get := Get env None; bs_Has := Has env |}.
Definition sound s : Prop := store_inv s /\ store_open s.

Lemma put_at_laws p wenv m d s r s' :
  block_ns p -> sound s -> wf_mid m -> put_at p wenv m d s = (r, s') ->
  sound s' /\
  (r = Ok tt -> names alg m d /\ Get env None m s' = Ok d) /\
  (forall m' d', wf_mid m' -> names alg m' d' -> Get env None m' s = Ok d' -> Get env None m' s' = Ok d').
Proof using All.
  intros Hp [Hs Ho] Hm E. destruct (put_at_spec p wenv m d s r s' Hp Hs Hm E) as (Hs' & Ho' & Hok & Hk).
  specialize (Ho' Ho). split_and!; [by split| |].
  - intros Hr. destruct (Hok Hr) as (_ & Hn & Hrd). split; [done|]. by apply Get_readable.
  - intros m' d' Hm' Hn' Hg. apply Get_readable; [done..|]. apply Hk; [done..|]. by apply Get_readable.
Qed.

(** *** Deletions *)
Lemma occurrences_split h items : (0 < occurrences h items)%nat -> exists items', items ≡ₚ h :: items'.
Proof.
  unfold occurrences. intros Hpos. assert (h ∈ items) as Hin.
  { destruct (filter (eq h) items) as [|x l] eqn:E; [simpl in Hpos; lia|].
    assert (x ∈ filter (eq h) items) as Hx by (rewrite E; by left).
    by apply list_elem_of_filter in Hx as [<- Hx]. }
  by apply elem_of_Permutation in Hin.
Qed.
Lemma occurrences_perm h items items' : items ≡ₚ items' -> occurrences h items = occurrences h items'.
Proof using Type. intros E. unfold occurrences. by rewrite E. Qed.

Definition dropped (kv' : gmap bytes bytes) m s : MemStore :=
  forget m (remove_file m (set_db (mkDB kv' (db_closed (ms_db s))) s)).
Definition shrinks (kv' : gmap bytes bytes) m s : Prop := forall p h, block_ns p ->
  kv' !! (p ++ h) = if decide (h = Hash m) then None else kv (ms_db s) !! (p ++ h).

Lemma ms_bloom_dropped kv' m s : ms_bloom (dropped kv' m s) = recordDelete m <$> ms_bloom s.
Proof. unfold dropped, forget, remove_file. by destruct (has_files _). Qed.
Lemma ms_db_dropped kv' m s : ms_db (dropped kv' m s) = mkDB kv' (db_closed (ms_db s)).
Proof. unfold dropped, forget, remove_file. by destruct (has_files _). Qed.
Lemma has_files_dropped kv' m s : has_files (dropped kv' m s) = has_files s.
Proof.
  unfold dropped, forget, remove_file.
  set (b := has_files (set_db _ _)). by destruct b.
Qed.
Lemma ms_files_dropped kv' m m' s : wf_mid m -> wf_mid m' ->
  ms_files (dropped kv' m s) !! blockPath m' = ms_files s !! blockPath m' \/
  m' = m /\ ms_files (dropped kv' m s) !! blockPath m' = None.
Proof.
  intros Hm Hm'. unfold dropped, forget, remove_file. destruct (has_files _); cbn [ms_files set_bloom set_files set_db]; [|by left].
  destruct (decide (blockPath m' = blockPath m)) as [E|Hne].
  - right. apply blockPath_inj in E as ->; [|done..]. split; [done|]. apply lookup_delete_eq.
  - left. by rewrite lookup_delete_ne.
Qed.
Lemma open_dropped kv' m s : store_open s -> store_open (dropped kv' m s).
Proof. unfold store_open, dropped, forget, remove_file. by destruct (has_files _). Qed.

(** a deletion that takes at least one key per removal from the filter is sound *)
Lemma dropped_inv kv' m s :
  store_inv s -> wf_mid m ->
  (forall p h, block_ns p -> is_Some (kv' !! (p ++ h)) -> kv' !! (p ++ h) = kv (ms_db s) !! (p ++ h)) ->
  (exists p, block_ns p /\ is_Some (kv (ms_db s) !! (p ++ Hash m)) /\ kv' !! (p ++ Hash m) = None) ->
  store_inv (dropped kv' m s).
Proof using All.
  intros Hs Hm Hsub Hgone. split.
  - intros p h v Hp. rewrite ms_db_dropped. cbn [kv]. intros E. unfold stored. rewrite has_files_dropped.
    apply (si_stored s Hs p); [done|]. rewrite <-E. symmetry. by apply Hsub.
  - intros m' d Hm' E. destruct (ms_files_dropped kv' m m' s Hm Hm') as [E'|[_ E']]; [|congruence].
    apply (si_files s Hs); [done|congruence].
  - pose proof (si_bloom s Hs) as Hc. revert Hc. unfold bloom_covers. rewrite ms_bloom_dropped.
    destruct (ms_bloom s) as [b|]; [|done]. cbn [fmap option_fmap option_map]. unfold recordDelete.
    rewrite wf_not_zero by done. cbn [bi_cbf set_cbf]. destruct (bi_cbf b) as [c|]; [|done].
    cbn [fmap option_fmap option_map]. intros (items & Hc & Hocc).
    assert (forall p h, block_ns p -> present (dropped kv' m s) p h ≤ present s p h)%nat as Hle.
    { intros p h Hp. unfold present. rewrite ms_db_dropped. cbn [kv].
      destruct (decide (is_Some (kv' !! (p ++ h)))) as [Hk|]; [|lia].
      rewrite decide_True; [done|]. by rewrite <-Hsub. }
    pose proof (fun h => Hle PrefixBlock h ltac:(by left)) as HlB.
    pose proof (fun h => Hle PrefixDAG h ltac:(by right)) as HlD.
    assert (present (dropped kv' m s) PrefixBlock (Hash m) + present (dropped kv' m s) PrefixDAG (Hash m)
      < present s PrefixBlock (Hash m) + present s PrefixDAG (Hash m))%nat as Hlt.
    { destruct Hgone as (p & Hp & Hk & Hk'). specialize (HlB (Hash m)). specialize (HlD (Hash m)).
      assert (present (dropped kv' m s) p (Hash m) < present s p (Hash m))%nat as Hl.
      { unfold present. rewrite ms_db_dropped. cbn [kv]. rewrite Hk'.
        rewrite decide_False by (by intros [? ?]). rewrite decide_True by done. lia. }
      destruct Hp as [->| ->]; lia. }
    destruct (occurrences_split (Hash m) items) as [items' HP].
    { specialize (Hocc (Hash m) (wf_Hash_ne m Hm)). lia. }
    exists items'. split.
    + apply represents_Remove; [by apply wf_Hash_ne|]. by eapply represents_perm.
    + intros h Hh. specialize (Hocc h Hh). rewrite (occurrences_perm _ _ _ HP), occurrences_cons in Hocc.
      specialize (HlB h). specialize (HlD h). destruct (decide (h = Hash m)) as [->|]; lia.
Qed.
(** and it leaves every block of another hash readable *)
Lemma dropped_keeps kv' m s m' d :
  store_inv (dropped kv' m s) -> wf_mid m -> wf_mid m' -> Hash m' ≠ Hash m ->
  (forall p, block_ns p -> kv' !! (p ++ Hash m') = kv (ms_db s) !! (p ++ Hash m')) ->
  readable s m' d -> readable (dropped kv' m s) m' d.
Proof.
  intros Hs Hm Hm' Hne Hsame [_ (p & Hp & Hk) Hf]. apply readable_iff; [done|]. split.
  - exists p. split; [done|]. rewrite ms_db_dropped. cbn [kv]. by rewrite Hsame.
  - rewrite has_files_dropped. intros Hx1 Hx2. rewrite <-Hf by done.
    destruct (ms_files_dropped kv' m m' s Hm Hm') as [E|[-> _]]; done.
Qed.

(** ** Properties *)

(** C3: the database-backed store implements the block-store contract the DAG layer
    builds on, through [Put] and through [PutDAG]: a successful write makes exactly the
    verified data readable, no write (also one that fails half-way) makes any other
    verified block unreadable, whatever mix of inline values, flat files, codecs and
    bloom counters it touches; and when the disk does not fail, every block that
    hashes to its MID is accepted. *)
Theorem MemStore_implements_Blockstore wenv :
  @BlockstoreLaws MemStore _ (MemStore_blockstore wenv) alg sound /\
  @BlockstoreLaws MemStore _ (DAG_blockstore wenv) alg sound /\
  (forall t, wenv = calm t ->
    @BlockstoreTotal MemStore _ (MemStore_blockstore wenv) alg sound /\
    @BlockstoreTotal MemStore _ (DAG_blockstore wenv) alg sound).
Proof using All.
  split_and!.
  - split. intros m d s r s' Hs Hm E. change (Put alg wenv None m d s = (r, s')) in E.
    rewrite Put_put_at in E. by apply (put_at_laws PrefixBlock wenv m d s r s'); [left| | |].
  - split. intros m d s r s' Hs Hm E.
    by apply (put_at_laws PrefixDAG wenv m d s r s'); [right| | |].
  - intros t ->. assert (forall p m d s, sound s -> wf_mid m -> names alg m d ->
      exists s', put_at p (calm t) m d s = (Ok tt, s')) as Htot.
    { intros p m d s [_ [Ho _]] Hm Hn%(verifyContent_names). unfold put_at, mbind, M_bind, enter.
      fold (closed_or_nil s). rewrite Ho. unfold guard_error. rewrite wf_not_zero by done.
      unfold liftr. rewrite Hn. unfold put_value. destruct (_ && _); by eexists. }
    split; intros m d s Hs Hm Hn; [|by apply (Htot PrefixDAG)].
    destruct (Htot PrefixBlock m d s) as [s' E]; [done..|]. exists s'. change (Put alg (calm t) None m d s = (Ok tt, s')). by rewrite Put_put_at.
Qed.

(** reads are exact: [Has] answers whether a block or DAG key is stored (the bloom
    filter never hides one), [Get] reports [ErrNotFound] exactly for what [Has] denies,
    and otherwise returns the content the MID names; the one exception is a large block
    whose flat file is not under this MID's own name (it was written, or removed, under
    another codec), for which it returns the 8-byte length. *)
Theorem MemStore_reads m s :
  io_iter env = None -> sound s -> wf_mid m ->
  exists b, Has env m s = Ok b /\ (b = true <-> holds_key s m) /\
  (b = false -> Get env None m s = Err ErrNotFound) /\
  (b = true -> exists d, names alg m d /\
     (Get env None m s = Ok d \/
      has_files s = true /\ LargeBlockThreshold <= zlen d /\ ms_files s !! blockPath m = None /\
      Get env None m s = Ok (PutUint64 (u64 (zlen d))))).
Proof using All.
  intros Hit [Hs Ho] Hm.
  assert (holds_key s m -> maybe m s = true) as Hmaybe.
  { intros (p & Hp & Hk). eapply covered_maybe; [apply (si_bloom s Hs)|done..]. }
  assert (forall k, db_Has env k (ms_db s) = Ok (bool_decide (is_Some (kv (ms_db s) !! k)))) as Hhas.
  { intros k. unfold db_Has. rewrite (proj2 Ho), Hit. by rewrite db_Has_spec. }
  exists (bool_decide (holds_key s m)). split_and!.
  - unfold Has. rewrite (proj1 Ho), wf_not_zero by done.
    destruct (maybe m s) eqn:Em; cbn [negb].
    2:{ f_equal. symmetry. apply bool_decide_eq_false. intros Hk. specialize (Hmaybe Hk). congruence. }
    rewrite !Hhas. destruct (bool_decide _) eqn:E1.
    + f_equal. symmetry. apply bool_decide_eq_true, holds_key_or. left. by apply bool_decide_eq_true in E1.
    + f_equal. apply bool_decide_ext. rewrite holds_key_or. apply bool_decide_eq_false in E1.
      unfold BlockKey, DagKey, Bytes in *. tauto.
  - apply bool_decide_eq_true.
  - intros Hno%bool_decide_eq_false. unfold Get. rewrite (proj1 Ho), wf_not_zero by done.
    cbn [mbind result_bind]. destruct (maybe m s); [|done]. cbn [negb]. rewrite lookup_value_eq by apply Ho.
    rewrite holds_key_or in Hno. destruct (kv (ms_db s) !! (PrefixBlock ++ Hash m)); [naive_solver|].
    destruct (kv (ms_db s) !! (PrefixDAG ++ Hash m)); [naive_solver|done].
  - intros Hk%bool_decide_eq_true. destruct (lookup_holds m s Ho Hk) as (v & Hlk & p & Hp & Hv).
    pose proof (si_stored s Hs p _ v Hp Hv) as Hst. destruct Hst as (d & Hn & Hd).
    exists d. assert (names alg m d) as Hn' by by apply hnames_names. split; [done|].
    destruct (decide (has_files s = true /\ LargeBlockThreshold <= zlen d /\ ms_files s !! blockPath m = None))
      as [(Hf & Hb & Hfile)|Hno].
    + right. split_and!; [done..|]. unfold Get. rewrite (proj1 Ho), wf_not_zero by done.
      cbn [mbind result_bind]. rewrite Hmaybe by done. cbn [negb]. rewrite Hlk. cbn [mbind result_bind]. destruct Hd as [[-> Hsm]|(_ & _ & ->)].
      { specialize (Hsm Hf). lia. }
      unfold load. rewrite Hread, Hf, PutUint64_zlen. cbn [andb]. change (8 =? 8) with true. cbn iota.
      by rewrite Hfile.
    + left. apply Get_readable; [done..|]. apply readable_iff; [done|]. split; [done|].
      intros Hf Hb. destruct (ms_files s !! blockPath m) as [d'|] eqn:E; [|naive_solver].
      apply (si_files s Hs) in E as [Hn2 _]; [|done]. f_equal. by eapply (names_unique alg Halg).
Qed.

Lemma Delete_dropped denv m s : store_open s -> io_commit denv = None ->
  exists kv', Delete denv None m s = (Ok tt, dropped kv' m s) /\ shrinks kv' m s.
Proof.
  intros [Ho _] Hc. unfold Delete, mbind, M_bind, enter. fold (closed_or_nil s). rewrite Ho.
  unfold on_db, Commit. rewrite Hc. cbn [told modify]. eexists. split; [reflexivity|].
  intros p h Hp. cbn [foldl apply_op]. rewrite !lookup_delete_ne by (symmetry; by apply ns_not_meta).
  unfold BlockKey, DagKey, Bytes. destruct (decide (h = Hash m)) as [->|Hne].
  - destruct Hp as [->| ->]; [rewrite lookup_delete_ne by done|]; apply lookup_delete_eq.
  - rewrite !lookup_delete_ne; [done|intros E%ns_inj..]; [naive_solver|by left|done|naive_solver|by right|done].
Qed.

(** deleting a block that is there makes it (under all its codecs) unreadable, leaves
    every block with another hash readable, and keeps the invariant: in particular the
    bloom filter's counters stay sound.  ([Delete_absent_hides] shows why "that is
    there" is needed: the code does not check it.) *)
Theorem MemStore_Delete denv m s :
  sound s -> wf_mid m -> io_commit denv = None -> holds_key s m ->
  exists s', Delete denv None m s = (Ok tt, s') /\ sound s' /\
    (forall m', wf_mid m' -> Hash m' = Hash m -> Get env None m' s' = Err ErrNotFound) /\
    (forall m' d, wf_mid m' -> names alg m' d -> Hash m' ≠ Hash m ->
       Get env None m' s = Ok d -> Get env None m' s' = Ok d).
Proof using All.
  intros [Hs Ho] Hm Hc (p & Hp & Hk). destruct (Delete_dropped denv m s Ho Hc) as (kv' & E & Hsh).
  exists (dropped kv' m s).
  assert (store_inv (dropped kv' m s)) as Hs'.
  { apply dropped_inv; [done|done| |].
    - intros p' h Hp'. rewrite (Hsh p' h Hp'). destruct (decide _); [by intros [? ?]|done].
    - exists p. split_and!; [done|done|]. rewrite (Hsh p _ Hp). by rewrite decide_True. }
  assert (store_open (dropped kv' m s)) as Ho' by by apply open_dropped.
  split_and!; [done|by split| |].
  - intros m' Hm' EH. unfold Get. rewrite (proj1 Ho'), wf_not_zero by done. cbn [mbind result_bind].
    destruct (maybe m' _); [|done]. cbn [negb]. rewrite lookup_value_eq by apply Ho'. rewrite ms_db_dropped.
    cbn [kv]. rewrite (Hsh PrefixBlock) by by left. rewrite (Hsh PrefixDAG) by by right.
    by rewrite !decide_True.
  - intros m' d Hm' Hn Hne Hg. apply Get_readable; [done..|]. apply dropped_keeps; [done..| |by apply Get_readable].
    intros p' Hp'. rewrite (Hsh p' _ Hp'). by rewrite decide_False.
Qed.

(** *** Opening *)
Lemma elem_of_ns p : p ∈ [PrefixBlock; PrefixDAG] <-> block_ns p.
Proof using Type. by rewrite elem_of_cons, list_elem_of_singleton. Qed.
Lemma elem_of_scan_items kv0 h :
  h ≠ [] -> h ∈ scan_items kv0 <-> exists p, block_ns p /\ is_Some (kv0 !! (p ++ h)).
Proof using Type.
  intros Hh. unfold scan_items. rewrite list_elem_of_bind. split.
  - intros (p & Hin & Hp). apply list_elem_of_filter in Hin as [_ Hin].
    apply list_elem_of_fmap in Hin as ([k v] & -> & Hin). apply elem_of_scan in Hin as [Hk [r ->]].
    exists p. split; [by apply elem_of_ns|]. cbn [fst]. rewrite drop_app_length. by eexists.
  - intros (p & Hp & [v Hv]). exists p. split; [|by apply elem_of_ns].
    apply list_elem_of_filter. split; [done|]. apply list_elem_of_fmap. exists (p ++ h, v). cbn [fst].
    rewrite drop_app_length. split; [done|]. apply elem_of_scan. split; [done|]. by exists h.
Qed.
Lemma occurrences_app h l k : occurrences h (l ++ k) = (occurrences h l + occurrences h k)%nat.
Proof using Type. unfold occurrences. by rewrite filter_app, length_app. Qed.
Lemma occurrences_pos h l : h ∈ l -> (0 < occurrences h l)%nat.
Proof using Type.
  intros Hin. unfold occurrences. assert (h ∈ filter (eq h) l) as Hf by by apply list_elem_of_filter.
  destruct (filter (eq h) l); [by apply not_elem_of_nil in Hf|simpl; lia].
Qed.
(** the scan meets a key once per namespace *)
Lemma scan_items_occurrences kv0 h : h ≠ [] ->
  ((if decide (is_Some (kv0 !! (PrefixBlock ++ h))) then 1 else 0) +
   (if decide (is_Some (kv0 !! (PrefixDAG ++ h))) then 1 else 0) ≤ occurrences h (scan_items kv0))%nat.
Proof using Type.
  intros Hh. unfold scan_items. cbn [mbind list_bind]. rewrite app_nil_r, occurrences_app.
  assert (forall p, (if decide (is_Some (kv0 !! (p ++ h))) then 1 else 0) ≤
    occurrences h (filter (λ raw, raw ≠ []) (map (λ e : bytes * bytes, drop (length p) e.1) (scan_prefix p kv0))))%nat as Hp.
  { intros p. destruct (decide _) as [[v Hv]|]; [|lia]. apply occurrences_pos, list_elem_of_filter.
    split; [done|]. apply list_elem_of_fmap. exists (p ++ h, v). cbn [fst]. rewrite drop_app_length.
    split; [done|]. apply elem_of_scan. split; [done|]. by exists h. }
  pose proof (Hp PrefixBlock). pose proof (Hp PrefixDAG). lia.
Qed.
Lemma represents_add_all l c items :
  Forall (λ d, d ≠ []) l -> represents c items -> exists items',
    represents (add_all l c) items' /\ forall h, (occurrences h l ≤ occurrences h items')%nat.
Proof using Type.
  intros Hl Hc. assert (represents (add_all l c) (rev l ++ items)) as Hr.
  { revert c items Hc. unfold add_all. induction Hl as [|d l Hd _ IH]; intros c items Hc; simpl; [done|].
    rewrite <-app_assoc. by apply IH, represents_Add. }
  exists (rev l ++ items). split; [done|]. intros h. rewrite occurrences_app.
  erewrite (occurrences_perm h (rev l) l) by (symmetry; apply Permutation_rev). lia.
Qed.
Lemma scan_items_nonempty kv0 : Forall (λ d, d ≠ []) (scan_items kv0).
Proof using Type.
  apply Forall_forall. intros d. unfold scan_items. intros (p & Hin & _)%list_elem_of_bind.
  by apply list_elem_of_filter in Hin as [? _].
Qed.

(** opening a store over a directory in which every block key holds its content (or
    the length of a large one) gives a sound store, whatever bloom snapshot is found:
    an absent, unreadable, truncated, stale or foreign one included, since every stored
    key is added again. *)
Theorem NewMemStore_sound (oenv : Env) (cfg : BloomConfig) (snapshot : result bytes) (path_ : bytes) (kv0 : gmap bytes bytes) (f : gmap path bytes) s :
  NewMemStore oenv cfg snapshot path_ kv0 f = Ok s ->
  (forall p h v, block_ns p -> kv0 !! (p ++ h) = Some v -> stored s h v) ->
  (forall m x, wf_mid m -> f !! blockPath m = Some x -> names alg m x /\ LargeBlockThreshold <= zlen x) ->
  sound s.
Proof using Type.
  unfold NewMemStore. destruct (initBloom oenv cfg snapshot (mkDB kv0 false)) as [b|] eqn:Eb; [|done].
  cbn [wrap mbind result_bind]. intros [= <-] Hst Hf. split; [|done]. split; [done|done|].
  unfold bloom_covers. cbn [ms_bloom]. revert Eb. unfold initBloom. destruct (bc_Disabled cfg); [by intros [= <-]|].
  unfold fromDB, db_NewIter. cbn [db_closed kv].
  destruct (io_iter oenv); [done|]. cbn [mbind result_bind]. intros [= <-]. cbn [bi_cbf set_cbf].
  set (b0 := newBloomIndex cfg snapshot).
  assert (exists c, bi_cbf b0 = Some c /\ represents c []) as (c & -> & Hc).
  { subst b0. unfold newBloomIndex.
    destruct (bool_decide (bc_SnapshotPath cfg = [])); [eexists; split; [done|apply represents_New]|].
    destruct snapshot as [data|]; [|eexists; split; [done|apply represents_New]].
    destruct (UnmarshalBinary data) as [c|] eqn:Eu; eexists; (split; [done|]);
      [by eapply represents_Unmarshal|apply represents_New]. }
  destruct (represents_add_all (scan_items kv0) c [] (scan_items_nonempty kv0) Hc) as (items & Hr & Hocc).
  exists items. split; [done|]. intros h Hh. etrans; [|apply Hocc]. by apply scan_items_occurrences.
Qed.

(** *** Listing *)
Lemma elem_of_once seen l m :
  m ∈ once seen l -> m ∈ l /\ String m ∉ seen.
Proof.
  revert seen. induction l as [|x l IH]; intros seen; simpl; [set_solver|].
  destruct (decide (String x ∈ seen)) as [Hx|Hx].
  - intros [??]%IH. set_solver.
  - intros [->|[??]%IH]%elem_of_cons; set_solver.
Qed.
Lemma once_complete seen l m :
  m ∈ l -> String m ∈ seen \/ exists m', m' ∈ once seen l /\ String m' = String m.
Proof.
  revert seen. induction l as [|x l IH]; intros seen; simpl; [set_solver|].
  intros [->|Hin]%elem_of_cons.
  - destruct (decide (String x ∈ seen)); [by left|right]. exists x. set_solver.
  - destruct (decide (String x ∈ seen)); [by apply IH|].
    destruct (IH ({[String x]} ∪ seen) Hin) as [Hs|(m' & ? & ?)].
    + apply elem_of_union in Hs as [->%elem_of_singleton|]; [|by left]. right. exists x. set_solver.
    + right. exists m'. set_solver.
Qed.
Lemma once_NoDup seen l : NoDup (once seen l).
Proof.
  revert seen. induction l as [|x l IH]; intros seen; simpl; [constructor|].
  destruct (decide (String x ∈ seen)); [done|]. constructor; [|done]. intros [_ Hn]%elem_of_once. set_solver.
Qed.

(** [AllBlocks] (and the order of [IterateBlocks]) is exact: each stored multihash once,
    as its raw MID, also when it is stored under both prefixes. *)
Theorem AllBlocks_exact m s :
  io_iter env = None -> sound s -> wf_mid m ->
  exists l, AllBlocks env s = Ok l /\ NoDup l /\ (m ∈ l <-> Codec m = CodecRaw /\ holds_key s m).
Proof using All.
  intros Hit [_ [Ho Hc]] Hm. unfold AllBlocks, db_NewIter. rewrite Ho, Hc, Hit.
  eexists. split; [reflexivity|]. split; [apply once_NoDup|].
  assert (forall m', m' ∈ all_raw_mids (kv (ms_db s)) <-> exists p h, block_ns p /\
    is_Some (kv (ms_db s) !! (p ++ h)) /\ FromMultihash CodecRaw h = Ok m') as Hall.
  { intros m'. unfold all_raw_mids. rewrite list_elem_of_bind. split.
    - intros (p & Hin & Hp). rewrite elem_of_rights in Hin.
      apply list_elem_of_fmap in Hin as ([k v] & E & Hin). apply elem_of_scan in Hin as [Hk [r ->]].
      cbn [fst] in E. rewrite drop_app_length in E. exists p, r. split_and!; [by apply elem_of_ns|by eexists|done].
    - intros (p & h & Hp & [v Hv] & E). exists p. split; [|by apply elem_of_ns].
      rewrite elem_of_rights. apply list_elem_of_fmap. exists (p ++ h, v). cbn [fst].
      rewrite drop_app_length. split; [done|]. apply elem_of_scan. split; [done|]. by exists h. }
  assert (forall h m', FromMultihash CodecRaw h = Ok m' -> wf_mid m' /\ Codec m' = CodecRaw /\ Hash m' = h) as Hfm.
  { intros h m' E. by apply FromMultihash_wf. }
  split.
  - intros [Hin _]%elem_of_once. apply Hall in Hin as (p & h & Hp & Hk & E). apply Hfm in E as (_ & Hcd & <-).
    split; [done|]. by exists p.
  - intros [Hcd (p & Hp & Hk)].
    assert (FromMultihash CodecRaw (Hash m) = Ok m) as E.
    { rewrite FromMultihash_ok by (done || apply Hm). f_equal.
      destruct Hm as [Hx1 _ _ Hx2], m. unfold Codec in Hcd. simpl in *. by subst. }
    destruct (once_complete ∅ (all_raw_mids (kv (ms_db s))) m) as [Hx|(m' & Hin & Es)].
    { apply Hall. by exists p, (Hash m). }
    { set_solver. }
    assert (m' = m) as <-; [|done]. apply elem_of_once in Hin as Hin'. destruct Hin' as [Hin' _].
    apply Hall in Hin' as (? & ? & _ & _ & Ex). apply Hfm in Ex as (Hw & _). by apply String_inj.
Qed.

(** *** Seals and metadata live beside the blocks *)
Definition same_ns (D : DB) s : Prop := db_closed D = db_closed (ms_db s) /\
  forall p h, block_ns p -> kv D !! (p ++ h) = kv (ms_db s) !! (p ++ h).
Lemma same_ns_insert k v s : (forall p h, block_ns p -> p ++ h ≠ k) ->
  same_ns (mkDB (<[k := v]> (kv (ms_db s))) (db_closed (ms_db s))) s.
Proof. intros Hk. split; [done|]. intros p h Hp. cbn [kv]. rewrite lookup_insert_ne; [done|]. intros E. by eapply Hk. Qed.
Lemma same_ns_delete k s : (forall p h, block_ns p -> p ++ h ≠ k) ->
  same_ns (mkDB (delete k (kv (ms_db s))) (db_closed (ms_db s))) s.
Proof. intros Hk. split; [done|]. intros p h Hp. cbn [kv]. rewrite lookup_delete_ne; [done|]. intros E. by eapply Hk. Qed.

Lemma sound_same_ns D s : same_ns D s -> sound s -> sound (set_db D s).
Proof.
  intros [Hc Hk] [[Hst Hf Hb] [Ho Hcl]]. split; [|split; [done|by rewrite <-Hcl]]. split.
  - intros p h v Hp E. cbn [ms_db set_db] in E. rewrite Hk in E by done. by apply (Hst p).
  - done.
  - revert Hb. unfold bloom_covers. cbn [ms_bloom set_db]. destruct (ms_bloom s) as [b|]; [|done].
    destruct (bi_cbf b); [|done]. intros (items & Hc' & Hocc). exists items. split; [done|].
    intros h Hh. specialize (Hocc h Hh). unfold present in *. cbn [ms_db set_db].
    rewrite (Hk PrefixBlock) by by left. rewrite (Hk PrefixDAG) by by right. done.
Qed.
Lemma Get_same_ns D hooks m s : same_ns D s -> Get env hooks m (set_db D s) = Get env hooks m s.
Proof using Type.
  intros [Hc Hk]. unfold Get. change (closed_or_nil (set_db D s)) with (closed_or_nil s).
  destruct (closed_or_nil s); [done|]. destruct (IsZero m); [done|].
  destruct (match hooks with Some h => BeforeBlockGet h m | None => Ok m end) as [m'|]; [|done].
  cbn [mbind result_bind]. change (maybe m' (set_db D s)) with (maybe m' s).
  destruct (negb (maybe m' s)); [done|]. unfold lookup_value, db_Get. cbn [ms_db set_db].
  rewrite Hc. unfold BlockKey, DagKey, Bytes. rewrite (Hk PrefixBlock) by by left. by rewrite (Hk PrefixDAG) by by right.
Qed.

Definition MemStore_meta (wenv : Env) : MetaStore MemStore := {|
  st_PutMeta := PutMeta wenv; st_GetMeta := GetMeta env |}.
#[local] Instance MemStore_meta_laws wenv : @MetaStoreLaws MemStore (MemStore_meta wenv) sound.
Proof.
  split. intros k v s s' Hs. cbn [st_PutMeta st_GetMeta MemStore_meta]. unfold PutMeta, mbind, M_bind, enter.
  pose proof Hs as [_ [Ho Hcl]]. fold (closed_or_nil s). rewrite Ho. unfold guard_error.
  destruct (bool_decide (k = [])); [done|]. unfold on_db, db_Set. rewrite Hcl.
  destruct (io_set wenv (MetaKey k)); [done|]. intros [= <-].
  assert (same_ns (mkDB (<[MetaKey k := v]> (kv (ms_db s))) false) s) as Hn.
  { rewrite <-Hcl. apply same_ns_insert. intros p h Hp. by apply ns_not_meta. }
  split; [by apply sound_same_ns|]. unfold GetMeta. change (closed_or_nil (set_db _ s)) with (closed_or_nil s).
  rewrite Ho. unfold db_Get. cbn [ms_db set_db db_closed kv]. rewrite !Hget, Hcl, lookup_insert_eq.
  split; [done|]. intros k' Hne. rewrite Hget, lookup_insert_ne; [done|].
  intros E. apply Hne. by apply (inj (app PrefixMeta)).
Qed.

(** *** Batches *)
(** the part of the state a file write does not look at *)
Definition with_db (D : DB) (b : option bloomIndex) (t : option gcWriteTracker) s : MemStore :=
  set_db D (set_bloom b (set_tracker t s)).
Lemma put_value_with (D : DB) b t wenv m x s :
  put_value wenv m x (with_db D b t s) =
  let '(r, s') := put_value wenv m x s in (r, with_db D b t s').
Proof using Type.
  unfold put_value. change (has_files (with_db D b t s)) with (has_files s). destruct (_ && _); [|done].
  destruct (io_mkdir _ _); [done|]. destruct (io_write _ _); [done|]. by destruct (io_rename _ _).
Qed.
Lemma with_db_self s : with_db (ms_db s) (ms_bloom s) (ms_tracker s) s = s.
Proof. by destruct s. Qed.
Lemma put_value_frame wenv m x s r s' : put_value wenv m x s = (r, s') ->
  with_db (ms_db s) (ms_bloom s) (ms_tracker s) s' = s' /\ closed_or_nil s' = closed_or_nil s.
Proof using Type. intros (f' & -> & _)%put_value_spec. by destruct s. Qed.

Definition track_all (bs : list SBlock) s : MemStore := foldl (λ s b, track (sb_MID b) s) s bs.

Lemma track_all_with bs (D1 D2 : DB) b t s1 s2 b' t' :
  track_all bs (with_db D1 b t s1) = with_db D1 b' t' s1 ->
  track_all bs (with_db D2 b t s2) = with_db D2 b' t' s2.
Proof using Type.
  revert b t. induction bs as [|y bs IH]; intros b t.
  - unfold with_db. by intros [= -> ->].
  - cbn [track_all foldl]. unfold track_all in IH.
    replace (track (sb_MID y) (with_db D1 b t s1)) with
      (with_db D1 (bloom_add (sb_MID y) <$> b) (RecordWrite (sb_MID y) <$> t) s1) by done.
    replace (track (sb_MID y) (with_db D2 b t s2)) with
      (with_db D2 (bloom_add (sb_MID y) <$> b) (RecordWrite (sb_MID y) <$> t) s2) by done.
    apply IH.
Qed.

(** the batch and the single writes go through the same states, up to what is pending *)
Lemma batch_ops_puts wenv bs s ops s' (D : DB) b t :
  io_commit wenv = None -> closed_or_nil s = false ->
  batch_ops alg wenv None bs s = (Ok ops, s') ->
  exists b' t',
    for_each (λ x, Put alg wenv None (sb_MID x) (sb_Data x)) bs (with_db D b t s) =
      (Ok tt, with_db (mkDB (foldl apply_op (kv D) ops) (db_closed D)) b' t' s') /\
    track_all bs (with_db D b t s) = with_db D b' t' s.
Proof using Type.
  intros Hc. revert s ops s' D b t.
  induction bs as [|x bs IH]; intros s ops s' D b t Ho; cbn [batch_ops for_each].
  { intros [= <- <-]. exists b, t. split; [|done]. by destruct D. }
  unfold guard_error. unfold mbind at 1, M_bind at 1.
  destruct (IsZero (sb_MID x)) eqn:Ez; [done|]. unfold hooked at 1, liftr at 1. unfold mbind at 1, M_bind at 1.
  unfold liftr at 1. unfold mbind at 1, M_bind at 1.
  destruct (verifyContent alg (sb_MID x) (sb_Data x)) as [[]|] eqn:Ev; [|done].
  unfold mbind at 1, M_bind at 1. destruct (put_value wenv (sb_MID x) (sb_Data x) s) as [[v|] s1] eqn:Ep; [|done].
  unfold mbind at 1, M_bind at 1. destruct (batch_ops alg wenv None bs s1) as [[ops1|] s2] eqn:Eb; [|done].
  intros [= <- <-]. destruct (put_value_frame _ _ _ _ _ _ Ep) as [_ Ho1]. rewrite Ho in Ho1.
  set (kv1 := mkDB (<[TimestampKey (sb_MID x) := PutUint64 (u64 (now wenv))]>
                     (<[BlockKey (sb_MID x) := v]> (kv D))) (db_closed D)).
  destruct (IH s1 ops1 s2 kv1 (bloom_add (sb_MID x) <$> b) (RecordWrite (sb_MID x) <$> t) Ho1 Eb)
    as (b' & t' & Hfor & Htr).
  exists b', t'. split.
  - unfold mbind at 1, M_bind at 1.
    replace (Put alg wenv None (sb_MID x) (sb_Data x) (with_db D b t s)) with
      ((Ok tt, with_db kv1 (bloom_add (sb_MID x) <$> b) (RecordWrite (sb_MID x) <$> t) s1) : result unit * MemStore).
    { exact Hfor. }
    symmetry. rewrite Put_put_at. unfold put_at, mbind, M_bind, enter. fold (closed_or_nil (with_db D b t s)).
    change (closed_or_nil (with_db D b t s)) with (closed_or_nil s). rewrite Ho. unfold guard_error, liftr.
    rewrite Ez, Ev, put_value_with, Ep. unfold on_db, Commit. by rewrite Hc.
  - cbn [track_all foldl]. unfold track_all in Htr.
    replace (track (sb_MID x) (with_db D b t s)) with
      (with_db D (bloom_add (sb_MID x) <$> b) (RecordWrite (sb_MID x) <$> t) s) by done.
    by eapply track_all_with.
Qed.
Lemma track_all_db bs (D : DB) s : track_all bs (set_db D s) = set_db D (track_all bs s).
Proof using Type. revert s. induction bs as [|x bs IH]; intros s; [done|]. cbn [track_all foldl]. apply (IH (track (sb_MID x) s)). Qed.
Lemma for_each_modify {A T} (g : A -> T -> T) (l : list A) (t : T) :
  for_each (λ x t, (Ok tt, g x t)) l t = (Ok tt, foldl (λ t x, g x t) t l).
Proof. revert t. induction l as [|x l IH]; intros t; [done|]. cbn [for_each foldl]. apply IH. Qed.

(** the first loop touches nothing but flat files *)
Lemma batch_ops_frame wenv bs s : exists f', (batch_ops alg wenv None bs s).2 = set_files f' s.
Proof using Type.
  revert s. induction bs as [|x bs IH]; intros s; cbn [batch_ops].
  { exists (ms_files s). by destruct s. }
  unfold guard_error, hooked, liftr, mbind, M_bind.
  destruct (IsZero (sb_MID x)); [exists (ms_files s); by destruct s|].
  destruct (verifyContent alg (sb_MID x) (sb_Data x)); [|exists (ms_files s); by destruct s].
  destruct (put_value wenv (sb_MID x) (sb_Data x) s) as [[v|] s1] eqn:Ep;
    apply put_value_spec in Ep as (f1 & -> & _); [|by exists f1].
  destruct (IH (set_files f1 s)) as [f2 E]. exists f2.
  destruct (batch_ops alg wenv None bs (set_files f1 s)) as [[]]; cbn [snd] in *; by rewrite E.
Qed.
(** success is the single writes, failure is the first loop alone *)
Lemma PutBatch_run wenv bs s : closed_or_nil s = false ->
  match PutBatch alg wenv None bs s with
  | (Ok _, s') => for_each (λ x, Put alg wenv None (sb_MID x) (sb_Data x)) bs s = (Ok tt, s')
  | (Err e, s') => (batch_ops alg wenv None bs s).2 = s' /\
      ((batch_ops alg wenv None bs s).1 = Err e \/ io_commit wenv = Some e)
  end.
Proof using Type.
  intros Ho. unfold PutBatch. case_bool_decide as Hb; [subst; by cbn|].
  unfold mbind at 1, M_bind at 1. unfold enter. fold (closed_or_nil s). rewrite Ho.
  unfold mbind at 1, M_bind at 1. destruct (batch_ops_frame wenv bs s) as [f' Hf].
  destruct (batch_ops alg wenv None bs s) as [[ops|e] s1] eqn:Eb; cbn [snd fst] in *; [|by split; [|left]].
  unfold mbind at 1, M_bind at 1. unfold on_db, Commit. destruct (io_commit wenv) eqn:Hc.
  { split; [|by right]. subst s1. by destruct s. }
  unfold modify, told. rewrite for_each_modify.
  destruct (batch_ops_puts wenv bs s ops s1 (ms_db s) (ms_bloom s) (ms_tracker s) Hc Ho Eb)
    as (b' & t' & Hfor & Htr).
  rewrite with_db_self in Hfor, Htr. rewrite Hfor. f_equal. fold (track_all bs (set_db (mkDB (foldl apply_op (kv (ms_db s1)) ops) (db_closed (ms_db s1))) s1)).
  rewrite track_all_db. subst s1. change (ms_db (set_files f' s)) with (ms_db s).
  assert (forall bs s, track_all bs (set_files f' s) = set_files f' (track_all bs s)) as Hfiles.
  { clear. induction bs as [|x bs IH]; intros s; [done|]. cbn [track_all foldl]. apply (IH (track (sb_MID x) s)). }
  rewrite Hfiles, Htr. done.
Qed.

(** a batch is all or nothing: when [PutBatch] succeeds it leaves exactly the state that
    writing its blocks one after the other leaves (so every property of [Put] carries
    over), and when it fails the database, the bloom index and the write tracker are
    untouched (verified flat files may remain). *)
Theorem PutBatch_atomic wenv bs s :
  closed_or_nil s = false ->
  match PutBatch alg wenv None bs s with
  | (Ok _, s') => for_each (λ x, Put alg wenv None (sb_MID x) (sb_Data x)) bs s = (Ok tt, s')
  | (Err _, s') => exists f', s' = set_files f' s
  end.
Proof using Type.
  intros Ho. pose proof (PutBatch_run wenv bs s Ho) as Hr.
  destruct (PutBatch alg wenv None bs s) as [[?|e] s']; [done|]. destruct Hr as [<- _]. apply batch_ops_frame.
Qed.
End invariant.

(** ** Instances *)
Definition demo_cfg : BloomConfig := mkBloomConfig 2 tt false [].
Definition demo_open : MemStore :=
  match NewMemStore (calm 7) demo_cfg (Err EOF) (lit "blocks") ∅ ∅ with
  | Ok s => s
  | Err _ => mkMemStore (mkDB ∅ true) true ∅ [] None true true None [] None
  end.
Definition demo_mid (x : string) : MID := toy_mid CodecRaw (lit x).
(** one block written *)
Definition demo_one : MemStore := (Put BLAKE3 (calm 7) None (demo_mid "a") (lit "a") demo_open).2.
Lemma demo_open_sound : sound BLAKE3 demo_open.
Proof.
  assert (forall k : bytes, kv (ms_db demo_open) !! k = None) as Hkv by done.
  split; [|done]. split.
  - intros p h v _ E. by rewrite Hkv in E.
  - intros m d _ E. change (ms_files demo_open) with (∅ : gmap path bytes) in E. by rewrite lookup_empty in E.
  - exists []. split; [apply (@represents_New toy_floats 2 tt)|]. intros h _. unfold present. rewrite !Hkv.
    rewrite !decide_False by (by intros [? ?]). done.
Qed.
Lemma demo_one_sound : sound BLAKE3 demo_one.
Proof.
  destruct (put_at BLAKE3 PrefixBlock (calm 7) (demo_mid "a") (lit "a") demo_open) as [r s'] eqn:E.
  unfold demo_one. rewrite Put_put_at, E.
  by apply (put_at_laws BLAKE3 eq_refl (calm 7) ltac:(done) ltac:(done) PrefixBlock (calm 7)
    (demo_mid "a") (lit "a") demo_open r s'); [left|apply demo_open_sound|apply toy_raw_wf|].
Qed.

(** The deletion of a block that is not there takes counts of others out of the filter:
    the stored block [a] is hidden from [Has] and [Get] although the database holds it. *)
Lemma Delete_absent_hides :
  let s' := (Delete (calm 7) None (demo_mid "c") demo_one).2 in
  (Delete (calm 7) None (demo_mid "c") demo_one).1 = Ok tt /\
  Has (calm 7) (demo_mid "c") demo_one = Ok false /\
  Get (calm 7) None (demo_mid "a") demo_one = Ok (lit "a") /\
  Get (calm 7) None (demo_mid "a") s' = Err ErrNotFound /\
  kv (ms_db s') !! BlockKey (demo_mid "a") = Some (lit "a").
Proof. vm_compute. done. Qed.
(** [PutBatch] records the MIDs it was called with, not the ones its hooks put in their
    place: a batch whose hook maps [a] to [b] stores [b], and the filter hides it. *)
Definition rename_hooks : StoreHooks := mkHooks
  (λ _, Ok (Some (mkSBlock (demo_mid "b") (lit "b")))) (λ m, Ok m) (λ _ d, Ok d).
Lemma PutBatch_hook_hides :
  let r := PutBatch BLAKE3 (calm 7) (Some rename_hooks) [mkSBlock (demo_mid "a") (lit "a")] demo_open in
  r.1 = Ok tt /\ kv (ms_db r.2) !! BlockKey (demo_mid "b") = Some (lit "b") /\
  Get (calm 7) None (demo_mid "b") r.2 = Err ErrNotFound.
Proof. vm_compute. done. Qed.

Lemma MemStore_implements_Blockstore_witness :
  exists s', Put BLAKE3 (calm 7) None (demo_mid "b") (lit "b") demo_one = (Ok tt, s') /\
    Get (calm 7) None (demo_mid "b") s' = Ok (lit "b") /\ Get (calm 7) None (demo_mid "a") s' = Ok (lit "a").
Proof.
  destruct (MemStore_implements_Blockstore BLAKE3 eq_refl (calm 7) ltac:(done) ltac:(done) (calm 7))
    as (L & _ & T). destruct (T 7 eq_refl) as [T1 _].
  destruct (T1 (demo_mid "b") (lit "b") demo_one demo_one_sound (toy_raw_wf _) (toy_raw_names _)) as [s' E].
  exists s'. split; [exact E|].
  destruct (@put_spec _ _ _ _ _ L (demo_mid "b") (lit "b") demo_one _ s' demo_one_sound (toy_raw_wf _) E)
    as (_ & Hok & Hk).
  split; [apply Hok; reflexivity|]. apply Hk; [apply toy_raw_wf|apply toy_raw_names|]. vm_compute. reflexivity.
Defined.
Lemma MemStore_reads_witness : Get (calm 7) None (demo_mid "b") demo_one = Err ErrNotFound.
Proof.
  destruct (MemStore_reads BLAKE3 eq_refl (calm 7) ltac:(done) ltac:(done) (demo_mid "b") demo_one
    eq_refl demo_one_sound (toy_raw_wf _)) as (b & Hb & _ & Hno & _).
  apply Hno. vm_compute in Hb. injection Hb as <-. reflexivity.
Defined.
Lemma MemStore_Delete_witness :
  exists s', Delete (calm 8) None (demo_mid "a") demo_one = (Ok tt, s') /\
    Get (calm 9) None (demo_mid "a") s' = Err ErrNotFound.
Proof.
  destruct (MemStore_Delete BLAKE3 eq_refl (calm 9) ltac:(done) ltac:(done) (calm 8) (demo_mid "a") demo_one
    demo_one_sound (toy_raw_wf _) eq_refl) as (s' & E & _ & Hg & _).
  { exists PrefixBlock. split; [left; reflexivity|]. eexists. vm_compute. reflexivity. }
  exists s'. split; [exact E|]. apply Hg; [apply toy_raw_wf|reflexivity].
Defined.
Lemma NewMemStore_sound_witness : sound BLAKE3 demo_open.
Proof.
  apply (NewMemStore_sound BLAKE3 (calm 7) demo_cfg (Err EOF) (lit "blocks") ∅ ∅ demo_open eq_refl).
  - intros p h v _ E. rewrite lookup_empty in E. discriminate E.
  - intros m x _ E. rewrite lookup_empty in E. discriminate E.
Defined.
Lemma AllBlocks_exact_witness : exists l, AllBlocks (calm 7) demo_one = Ok l /\ demo_mid "a" ∈ l.
Proof.
  destruct (AllBlocks_exact BLAKE3 eq_refl (calm 7) ltac:(done) ltac:(done) (demo_mid "a") demo_one
    eq_refl demo_one_sound (toy_raw_wf _)) as (l & E & _ & Hin).
  exists l. split; [exact E|]. apply Hin. split; [reflexivity|].
  exists PrefixBlock. split; [left; reflexivity|]. eexists. vm_compute. reflexivity.
Defined.
Lemma PutBatch_atomic_witness :
  exists s', for_each (λ x, Put BLAKE3 (calm 7) None (sb_MID x) (sb_Data x))
    [mkSBlock (demo_mid "a") (lit "a"); mkSBlock (demo_mid "b") (lit "b")] demo_open = (Ok tt, s').
Proof.
  pose proof (PutBatch_atomic BLAKE3 (calm 7)
    [mkSBlock (demo_mid "a") (lit "a"); mkSBlock (demo_mid "b") (lit "b")] demo_open eq_refl) as E.
  destruct (PutBatch _ _ _ _ _) as [[u|e] s'] eqn:Ep; [exists s'; exact E|].
  exfalso. apply (f_equal fst) in Ep. vm_compute in Ep. discriminate Ep.
Defined.
