(* ===== verification/Seal.v ===== *)
(** * Seals (src/core/store/seal.go: Seal, Unseal, IsSealed, AllSealed, IterateSealed)

    A seal record pins the root it is stored under; its value is the codec, and the top
    bit marks a child recorded by a recursive seal.  [beside] is what sealing leaves
    alone: reads, metadata, the block keys and the soundness of the store.  A directory
    walk has fuel, as in Blockstore.v. *)
From S2P Require Import Prelude Mid Wire Blockstore Objects Memstore Bloom Db MemStore.

Definition ErrSealWalkIncomplete : error := Sentinel "store: seal walk incomplete".

Section seals.
Context `{Floats, Multiformats, Protos}.
Context (env : Env) (hooks : option StoreHooks) (fuel : nat).

(** the top bit of the record marks a child seal *)
Definition childBit : Z := 2 ^ 63.
Definition seal_value (m : MID) (child : bool) : bytes :=
  PutUint64 (if child then Z.lor (Codec m) childBit else Codec m).
Definition writeSeal (m : MID) (child : bool) : M MemStore unit :=
  on_db (db_Set env (SealKey m) (seal_value m child)).

Definition store_walk (visit : MID -> bool -> M MemStore unit) (root : MID) : M MemStore unit :=
  Walk (Get env hooks) (Some (GetSize env)) visit fuel root.

Definition seal_child (root m : MID) (leaf : bool) : M MemStore unit := λ s,
  if Equal m root then (Ok tt, s)
  else if Codec m =? CodecMemFS then (Ok tt, (writeSeal m true s).2)
  else (Ok tt, s).
Definition seal_walk (root : MID) : M MemStore unit := λ s,
  match store_walk (seal_child root) root s with
  | (Ok _, s) => (Ok tt, s)
  | (Err e, s) =>
      (Err (if errors_is e ErrNotFound then Wrap (Error e) ErrSealWalkIncomplete
            else Wrap "store: seal walk" e), s)
  end.
Definition Seal (root : MID) (recursive : bool) : M MemStore unit :=
  _ ← enter;
  _ ← guard_error (IsZero root) (New "store: zero MID");
  _ ← writeSeal root false;
  if negb recursive then mret tt else seal_walk root.

(** deleting a seal record: an absent one is no error *)
Definition dropSeal (m : MID) : M MemStore unit := λ s,
  match on_db (db_Delete env (SealKey m)) s with
  | (Ok _, s) => (Ok tt, s)
  | (Err e, s) => if errors_is e ErrKeyNotFound then (Ok tt, s) else (Err e, s)
  end.
Definition unseal_child (m : MID) (leaf : bool) : M MemStore unit :=
  if Codec m =? CodecMemFS then wrapM "store: unseal child" (dropSeal m) else mret tt.
Definition unseal_walk (root : MID) : M MemStore unit := λ s,
  match store_walk unseal_child root s with
  | (Ok _, s) => (Ok tt, s)
  | (Err e, s) => if errors_is e ErrNotFound then (Ok tt, s) else (Err e, s)
  end.
Definition Unseal (root : MID) : M MemStore unit :=
  _ ← enter;
  _ ← guard_error (IsZero root) (New "store: zero MID");
  _ ← dropSeal root;
  unseal_walk root.

Definition IsSealed (m : MID) (s : MemStore) : result bool :=
  if closed_or_nil s then Err (New "store: closed") else
  if IsZero m then Err (New "store: zero MID") else db_Has env (SealKey m) (ms_db s).

(** one record of the seal namespace: child seals and undecodable keys are skipped *)
Definition seal_entry (e : bytes * bytes) : option MID :=
  let raw := drop (length PrefixSeal) e.1 in
  let '(codec, isChild) :=
    if zlen e.2 =? 8 then
      let v := Uint64 e.2 in
      (Z.ldiff v childBit, negb (Z.land v childBit =? 0))
    else (CodecRaw, false) in
  if isChild then None else
  match FromMultihash codec raw with Ok m => Some m | Err _ => None end.
Definition sealed_roots (m : gmap bytes bytes) : list MID := omap seal_entry (scan_prefix PrefixSeal m).
Definition IterateSealed {T} (fn : MID -> M T unit) (s : MemStore) : M T unit :=
  if closed_or_nil s then throw (New "store: closed") else
  m ← liftr (db_NewIter env (ms_db s));
  for_each fn (sealed_roots m).
Definition AllSealed (s : MemStore) : result (list MID) :=
  if closed_or_nil s then Err (New "store: closed") else
  m ← db_NewIter env (ms_db s); Ok (sealed_roots m).

Definition ErasureKey (m : MID) : bytes := MetaKey (lit "erasure/" ++ String m).
Definition erasureShardMIDs (s : MemStore) (m : MID) : list MID :=
  match db_Get env (ErasureKey m) (ms_db s) with
  | Err _ => []
  | Ok raw =>
      if bool_decide (raw = []) then [] else
      match unmarshal (A := ErasureManifest) raw with
      | Err _ => []
      | Ok mf => rights (map Parse (em_ShardMids mf))
      end
  end.
End seals.

(** ** Seals *)
Section seal_facts.
Context `{Floats, Multiformats} `{!MultiformatsLaws} `{Protos}.
Context (alg : Z) (env : Env) (hooks : option StoreHooks) (fuel : nat).

(** what sealing and unsealing leave alone *)
Record beside (s s' : MemStore) : Prop := {
  bs_sound : sound alg s -> sound alg s';
  bs_reads hk m : Get env hk m s' = Get env hk m s;
  bs_open : closed_or_nil s' = closed_or_nil s /\ db_closed (ms_db s') = db_closed (ms_db s);
  bs_meta k : kv (ms_db s') !! MetaKey k = kv (ms_db s) !! MetaKey k;
  bs_kv p h : block_ns p -> kv (ms_db s') !! (p ++ h) = kv (ms_db s) !! (p ++ h);
  bs_bloom : ms_bloom s' = ms_bloom s;
}.
#[global] Instance beside_preorder : PreOrder beside.
Proof.
  split; [by intros s; split|]. intros a b c [S1 R1 [O1 C1] M1 K1 B1] [S2 R2 [O2 C2] M2 K2 B2].
  split; [auto|intros; by rewrite R2|split; congruence|intros; by rewrite M2|intros; by rewrite K2, ?K1|congruence].
Qed.
Lemma seal_not_ns m p h : block_ns p -> p ++ h ≠ SealKey m.
Proof. intros Hp. by apply ns_not_seal. Qed.
Lemma SealKey_inj m m' : SealKey m = SealKey m' <-> Hash m = Hash m'.
Proof. unfold SealKey, Bytes. split; [by intros ?%(inj (app PrefixSeal))|by intros ->]. Qed.

Lemma beside_db D s : same_ns D s -> (forall k, kv D !! MetaKey k = kv (ms_db s) !! MetaKey k) ->
  beside s (set_db D s).
Proof.
  intros Hn Hmeta. split; [| | |done|apply Hn|done].
  - by apply sound_same_ns.
  - intros. by apply Get_same_ns.
  - split; [done|]. apply Hn.
Qed.
Lemma set_db_self s : set_db (ms_db s) s = s.
Proof. by destruct s. Qed.

(** writing a record: the key is there, and no other record changes *)
Lemma writeSeal_spec m child s :
  beside s (writeSeal env m child s).2 /\
  (forall m', Hash m' ≠ Hash m -> kv (ms_db (writeSeal env m child s).2) !! SealKey m' = kv (ms_db s) !! SealKey m') /\
  (is_Some (kv (ms_db s) !! SealKey m) -> is_Some (kv (ms_db (writeSeal env m child s).2) !! SealKey m)) /\
  (db_closed (ms_db s) = false -> io_set env (SealKey m) = None ->
     (writeSeal env m child s).1 = Ok tt /\
     kv (ms_db (writeSeal env m child s).2) = <[SealKey m := seal_value m child]> (kv (ms_db s))).
Proof.
  unfold writeSeal, on_db, db_Set. destruct (db_closed (ms_db s)) eqn:Ec; cbn [fst snd]; [by rewrite set_db_self|].
  destruct (io_set env (SealKey m)); cbn [fst snd]; [by rewrite set_db_self|]. cbn [ms_db set_db kv]. split_and!.
  - apply beside_db; [rewrite <-Ec; apply same_ns_insert; intros; by apply seal_not_ns|].
    intros k. cbn [kv]. by rewrite lookup_insert_ne.
  - intros m' Hne. rewrite lookup_insert_ne; [done|]. by intros ?%SealKey_inj.
  - intros _. rewrite lookup_insert_eq. by eexists.
  - by intros.
Qed.
Lemma dropSeal_spec m s :
  beside s (dropSeal env m s).2 /\
  (forall m', kv (ms_db s) !! SealKey m' = None -> kv (ms_db (dropSeal env m s).2) !! SealKey m' = None) /\
  ((dropSeal env m s).1 = Ok tt -> io_set env (SealKey m) = None ->
     db_closed (ms_db s) = false -> kv (ms_db (dropSeal env m s).2) !! SealKey m = None).
Proof.
  unfold dropSeal, on_db, db_Delete. destruct (db_closed (ms_db s)) eqn:Ec.
  { destruct (errors_is _ _); cbn [fst snd]; by rewrite set_db_self. }
  destruct (io_set env (SealKey m)).
  { destruct (errors_is _ _); cbn [fst snd]; by rewrite set_db_self. }
  cbn [fst snd]. cbn [ms_db set_db kv]. split_and!.
  - apply beside_db; [rewrite <-Ec; apply same_ns_delete; intros; by apply seal_not_ns|].
    intros k. cbn [kv]. by rewrite lookup_delete_ne.
  - intros m' Hm'. destruct (decide (SealKey m = SealKey m')) as [->|]; [apply lookup_delete_eq|by rewrite lookup_delete_ne].
  - intros. apply lookup_delete_eq.
Qed.

(** a recursive seal adds records and removes none *)
Definition seals_grow s s' : Prop := beside s s' /\
  forall m, is_Some (kv (ms_db s) !! SealKey m) -> is_Some (kv (ms_db s') !! SealKey m).
#[local] Instance seals_grow_preorder : PreOrder seals_grow.
Proof. split; [by split|]. intros a b c [B1 K1] [B2 K2]. split; [by etrans|auto]. Qed.
Definition seals_shrink s s' : Prop := beside s s' /\
  forall m, kv (ms_db s) !! SealKey m = None -> kv (ms_db s') !! SealKey m = None.
#[local] Instance seals_shrink_preorder : PreOrder seals_shrink.
Proof. split; [by split|]. intros a b c [B1 K1] [B2 K2]. split; [by etrans|auto]. Qed.

Lemma writeSeal_grow m child s : seals_grow s (writeSeal env m child s).2.
Proof.
  destruct (writeSeal_spec m child s) as (Hb & Ho & Hk & _). split; [done|]. intros m' Hm'.
  destruct (decide (Hash m' = Hash m)) as [E|Hne]; [|by rewrite Ho].
  apply SealKey_inj in E. rewrite E in *. by apply Hk.
Qed.
Lemma seal_walk_grow root s : seals_grow s (seal_walk env hooks fuel root s).2.
Proof.
  unfold seal_walk. destruct (store_walk _ _ _ _ _ s) as [r s'] eqn:E.
  assert (seals_grow s s') as Hg.
  { replace s' with (store_walk env hooks fuel (seal_child env root) root s).2 by by rewrite E.
    apply (WalkOptions_preserves _ _ _ _ seals_grow). intros m leaf t. unfold seal_child.
    destruct (Equal m root); [done|]. destruct (Codec m =? CodecMemFS); [apply writeSeal_grow|done]. }
  by destruct r.
Qed.
Lemma unseal_walk_shrink root s : seals_shrink s (unseal_walk env hooks fuel root s).2.
Proof.
  unfold unseal_walk. destruct (store_walk _ _ _ _ _ s) as [r s'] eqn:E.
  assert (seals_shrink s s') as Hg.
  { replace s' with (store_walk env hooks fuel (unseal_child env) root s).2 by by rewrite E.
    apply (WalkOptions_preserves _ _ _ _ seals_shrink). intros m leaf t. unfold unseal_child.
    destruct (Codec m =? CodecMemFS); [|done]. unfold wrapM.
    destruct (dropSeal_spec m t) as (Hb & Hk & _). by destruct (dropSeal env m t). }
  destruct r; [done|]. by destruct (errors_is _ _).
Qed.

(** the record of a root is read back as that root *)
Lemma seal_entry_value m : wf_mid m -> codec m < 2 ^ 63 ->
  seal_entry (SealKey m, seal_value m false) = Some m.
Proof.
  intros Hm Hc. pose proof (wf_codec m Hm) as [H0' _]. unfold seal_entry, seal_value, SealKey, Bytes, Codec. cbn [fst snd].
  rewrite PutUint64_zlen, drop_app_length. change (8 =? 8) with true. cbn iota zeta.
  rewrite Uint64_PutUint64 by lia.
  assert (Z.land (codec m) childBit = 0) as Hl.
  { unfold childBit. apply Z.bits_inj'. intros n Hn. rewrite Z.land_spec, Z.bits_0, Z.pow2_bits_eqb by lia.
    destruct (Z.eqb_spec 63 n) as [<-|]; [|by rewrite andb_false_r]. rewrite andb_true_r.
    destruct (Z.eq_dec (codec m) 0) as [->|]; [apply Z.bits_0|]. apply Z.bits_above_log2; [lia|].
    apply Z.log2_lt_pow2; lia. }
  rewrite Hl. change (negb (0 =? 0)) with false. cbn iota.
  replace (Z.ldiff (codec m) childBit) with (codec m)
    by (pose proof (Z.lor_ldiff_and (codec m) childBit) as E; rewrite Hl, Z.lor_0_r in E; done).
  rewrite FromMultihash_ok by (apply Hm || (split; lia)). f_equal. destruct Hm as [Hx1 _ _ Hx2], m. simpl in *. by subst.
Qed.

Lemma IsSealed_spec m s : sound alg s -> wf_mid m -> io_iter env = None ->
  IsSealed env m s = Ok (bool_decide (is_Some (kv (ms_db s) !! SealKey m))).
Proof.
  intros [_ [Ho Hcl]] Hm Hit. unfold IsSealed, db_Has. rewrite Ho, wf_not_zero, Hcl, Hit by done. by rewrite db_Has_spec.
Qed.

(** sealing pins a root and disturbs no block: after [Seal] (recursive or not, and also
    when its walk found blocks missing) the root has a seal record and every read
    answers as before; a plain [Seal] succeeds, lists the root among the collector's
    roots, and leaves every other record alone; [Unseal] then removes the record. *)
Theorem Seal_pins root rec s r s' :
  sound alg s -> wf_mid root -> codec root < 2 ^ 63 ->
  io_set env (SealKey root) = None -> io_iter env = None ->
  Seal env hooks fuel root rec s = (r, s') ->
  sound alg s' /\ (forall hk m, Get env hk m s' = Get env hk m s) /\ IsSealed env root s' = Ok true /\
  (rec = false -> r = Ok tt /\
     (forall roots, AllSealed env s' = Ok roots -> root ∈ roots) /\
     (forall m, Hash m ≠ Hash root -> kv (ms_db s') !! SealKey m = kv (ms_db s) !! SealKey m)) /\
  (forall r2 s2, Unseal env hooks fuel root s' = (r2, s2) ->
     sound alg s2 /\ IsSealed env root s2 = Ok false).
Proof.
  intros Hs Hm Hcd Hset Hit. pose proof Hs as [_ [Ho Hcl]]. unfold Seal, mbind, M_bind, enter.
  fold (closed_or_nil s). rewrite Ho. unfold guard_error. rewrite wf_not_zero by done.
  destruct (writeSeal_spec root false s) as (Hb & Hother & _ & Hw). destruct (Hw Hcl Hset) as [Hw1 Hkv].
  destruct (writeSeal env root false s) as [rw s1] eqn:Ew. cbn [fst snd] in *. subst rw. intros E.
  assert (is_Some (kv (ms_db s1) !! SealKey root)) as Hk1 by (rewrite Hkv, lookup_insert_eq; by eexists).
  assert (seals_grow s1 s') as [Hb' Hg].
  { destruct rec; cbn [negb] in E; [|by injection E as <- <-].
    replace s' with (seal_walk env hooks fuel root s1).2 by by rewrite E. apply seal_walk_grow. }
  pose proof (bs_sound _ _ Hb' (bs_sound _ _ Hb Hs)) as Hs'. split_and!.
  - done.
  - intros hk m. by rewrite (bs_reads _ _ Hb'), (bs_reads _ _ Hb).
  - rewrite IsSealed_spec by done. f_equal. apply bool_decide_eq_true. by apply Hg.
  - intros ->. cbn [negb] in E. injection E as <- <-. split_and!; [done| |done].
    intros roots. unfold AllSealed, db_NewIter. destruct Hs' as [_ [-> ->]]. rewrite Hit. cbn [mbind result_bind].
    intros [= <-]. apply list_elem_of_omap. exists (SealKey root, seal_value root false).
    split; [|by apply seal_entry_value]. apply elem_of_scan. split; [by rewrite Hkv, lookup_insert_eq|by exists (Hash root)].
  - intros r2 s2. unfold Unseal, mbind, M_bind, enter. pose proof Hs' as [_ [Ho' Hcl']]. fold (closed_or_nil s').
    rewrite Ho'. unfold guard_error. rewrite wf_not_zero by done.
    destruct (dropSeal_spec root s') as (Hbd & _ & Hd).
    assert ((dropSeal env root s').1 = Ok tt) as Hd1 by (unfold dropSeal, on_db, db_Delete; by rewrite Hcl', Hset).
    specialize (Hd Hd1 Hset Hcl'). destruct (dropSeal env root s') as [rd s3] eqn:Ed. cbn [fst snd] in *. subst rd.
    intros Eu. destruct (unseal_walk_shrink root s3) as [Hb2 Hk2]. rewrite Eu in Hb2, Hk2. cbn [snd] in *.
    pose proof (bs_sound _ _ Hb2 (bs_sound _ _ Hbd Hs')) as Hs2. split; [done|].
    rewrite IsSealed_spec by done. f_equal. apply bool_decide_eq_false. rewrite (Hk2 root Hd). by intros [? ?].
Qed.
Lemma Seal_beside root rec s : beside s (Seal env hooks fuel root rec s).2.
Proof.
  unfold Seal, mbind, M_bind, enter. destruct (_ || _); [done|]. unfold guard_error.
  destruct (IsZero root); [done|]. destruct (writeSeal_spec root false s) as (Hb & _).
  destruct (writeSeal env root false s) as [[[]|e] s1]; [|done]. cbn [snd] in Hb. destruct rec; [|done].
  cbn [negb]. etrans; [exact Hb|]. apply (seal_walk_grow root s1).
Qed.
End seal_facts.

(** A child of a recursively sealed root loses its own pin: whatever record it had, it is
    a child record afterwards, which the collector does not list as a root. *)
Section demotion.
Context `{Floats, Multiformats} `{!MultiformatsLaws} `{Protos}.
Lemma seal_child_demotes env root m leaf s :
  wf_mid m -> Codec m = CodecMemFS -> Equal m root = false ->
  db_closed (ms_db s) = false -> io_set env (SealKey m) = None ->
  is_Some (kv (ms_db (seal_child env root m leaf s).2) !! SealKey m) /\
  m ∉ sealed_roots (kv (ms_db (seal_child env root m leaf s).2)).
Proof.
  intros Hm Hc He Hcl Hset. unfold seal_child. rewrite He, Hc. change (CodecMemFS =? CodecMemFS) with true. cbn iota.
  cbn [snd]. unfold writeSeal, on_db, db_Set. rewrite Hcl, Hset. cbn [snd ms_db set_db kv].
  split; [rewrite lookup_insert_eq; by eexists|].
  intros (e & Hin & Hsome)%list_elem_of_omap. destruct e as [k v].
  apply elem_of_scan in Hin as [Hk [r ->]]. unfold seal_entry in Hsome. cbn [fst snd] in Hsome.
  rewrite drop_app_length in Hsome. unfold seal_value in Hk. rewrite Hc in Hk.
  assert (forall cd, (match FromMultihash cd r with Ok m0 => Some m0 | Err _ => None end = Some m) -> r = Hash m) as Hr.
  { intros cd. unfold FromMultihash, fromCodecAndHashErr, build. case_bool_decide; [done|].
    destruct (wrap _ (mh_Decode r)); [|done]. cbn [mbind result_bind]. destruct (wrap _ (validateEnvelope r)); [|done].
    cbn. by intros [= <-]. }
  assert (r = Hash m) as ->.
  { destruct (zlen v =? 8); [destruct (negb _); [done|]|]; by eapply Hr. }
  unfold SealKey, Bytes in Hk. rewrite lookup_insert_eq in Hk. injection Hk as <-. vm_compute in Hsome. done.
Qed.
End demotion.

(** ** Instances *)
(** two blocks *)
Definition demo_two : MemStore := (Put BLAKE3 (calm 7) None (demo_mid "b") (lit "b") demo_one).2.
Lemma demo_two_sound : sound BLAKE3 demo_two.
Proof.
  unfold demo_two. destruct (put_at BLAKE3 PrefixBlock (calm 7) (demo_mid "b") (lit "b") demo_one) as [r s'] eqn:E.
  rewrite Put_put_at, E. by apply (put_at_laws BLAKE3 eq_refl (calm 7) ltac:(done) ltac:(done) PrefixBlock (calm 7)
    (demo_mid "b") (lit "b") demo_one r s'); [left|apply demo_one_sound|apply toy_raw_wf|].
Qed.
Lemma Seal_pins_witness :
  IsSealed (calm 7) (demo_mid "b") (Seal (calm 7) None 5 (demo_mid "b") true demo_two).2 = Ok true.
Proof.
  destruct (Seal (calm 7) None 5 (demo_mid "b") true demo_two) as [r s'] eqn:E.
  apply (Seal_pins BLAKE3 (calm 7) None 5 (demo_mid "b") true demo_two r s' demo_two_sound (toy_raw_wf _)
    ltac:(reflexivity) eq_refl eq_refl E).
Defined.
