(* ===== verification/Gc.v ===== *)
(** * Garbage collection (src/core/store/seal.go: GC, GCWithMinAge, erasureShardMIDs)

    [GCWithMinAge] is the collector as it is written: a mark phase over the sealed roots
    into a temporary database [tmp], then one sweep over a snapshot of the two block
    namespaces with batched deletes.  [cancelled n] is what the [n]-th poll of the context
    answers; the errors the code drops are dropped here.  Nothing else runs meanwhile: the
    sweep among concurrent writers is [GcRace]. *)
From S2P Require Import Prelude Mid Wire Blockstore Objects Memstore Bloom Db MemStore Seal.

Section gc_ops.
Context `{Floats, Multiformats, Protos}.
Context (env : Env) (hooks : option StoreHooks) (fuel : nat).
(** ** Garbage collection *)
(** [tenv] is the environment of the temporary database *)
Context (tenv : Env) (cancelled : nat -> option error).

Definition mark_one (key : bytes) (tmp : DB) : DB := (db_Set tenv key [Byte.x01] tmp).2.
Definition mark_visit (s : MemStore) (m : MID) (leaf : bool) : M DB unit := λ tmp,
  (Ok tt, foldl (λ tmp shard, mark_one (Bytes shard) tmp) (mark_one (Bytes m) tmp) (erasureShardMIDs env s m)).
(** the error of the walk is dropped *)
Definition mark_root (s : MemStore) (root : MID) (tmp : DB) : DB :=
  if IsZero root then tmp else
  (Walk (λ m _, Get env hooks m s) (Some (λ m _, GetSize env m s)) (mark_visit s) fuel root
     (mark_one (Bytes root) tmp)).2.
Fixpoint mark (s : MemStore) (poll : nat) (roots : list MID) (tmp : DB) : result DB :=
  match roots with
  | [] => Ok tmp
  | root :: roots =>
      match cancelled poll with
      | Some e => Err e
      | None => mark s (S poll) roots (mark_root s root tmp)
      end
  end.

Record Sweep := mkSweep {
  sw_store : MemStore;
  sw_batch : list batch_op;
  sw_count : Z;
  sw_freed : Z;
}.

Section sweep.
Context (tmp : DB) (minAge minAgeTs : Z).

Definition isReachable (raw : bytes) : bool :=
  match db_Has tenv raw tmp with Ok b => b | Err _ => false end.
Definition written_at (s : MemStore) (m : MID) : result Z := ReadTimestamp env (ms_db s) m.
(** the write tracker and the minimum age, which see the key as a raw MID *)
Definition spared (s : MemStore) (raw : bytes) : bool :=
  match FromMultihash CodecRaw raw with
  | Err _ => false
  | Ok m =>
      let writeTs := match written_at s m with Ok ts => ts | Err _ => 0 end in
      match ms_tracker s with
      | Some g => IsProtected env m writeTs minAge g
      | None => false
      end
      || (0 <? minAgeTs) && match written_at s m with Ok ts => minAgeTs <=? ts | Err _ => false end
  end.
Definition doomed (s : MemStore) (raw : bytes) : bool := negb (isReachable raw) && negb (spared s raw).

Definition flush (sw : Sweep) : result unit * Sweep :=
  match Commit env (sw_batch sw) (ms_db (sw_store sw)) with
  | (Err e, d) => (Err (Wrap "store: gc batch delete failed" e), mkSweep (set_db d (sw_store sw)) [] 0 (sw_freed sw))
  | (Ok _, d) => (Ok tt, mkSweep (set_db d (sw_store sw)) [] 0 (sw_freed sw))
  end.
Definition unlink (raw : bytes) (s : MemStore) : MemStore :=
  match FromMultihash CodecRaw raw with Ok m => remove_file m s | Err _ => s end.
Definition sweep_key (pfx : bytes) (e : bytes * bytes) : M Sweep unit := λ sw,
  let raw := drop (length pfx) e.1 in
  let s := sw_store sw in
  if negb (doomed s raw) then (Ok tt, sw) else
  let freed := u64 (sw_freed sw + u64 (zlen e.1 + value_size s e.2)) in
  let sw := mkSweep (unlink raw s) (sw_batch sw ++ [BDel e.1]) (sw_count sw + 1) freed in
  if 1000 <=? sw_count sw then flush sw else (Ok tt, sw).
(** the keys of the snapshot, with their prefix *)
Definition sweep_queue (snap : gmap bytes bytes) : list (bytes * (bytes * bytes)) :=
  [PrefixBlock; PrefixDAG] ≫= λ p, map (pair p) (scan_prefix p snap).
Fixpoint sweep (poll : nat) (queue : list (bytes * (bytes * bytes))) : M Sweep unit := λ sw,
  match queue with
  | [] => (Ok tt, sw)
  | (pfx, e) :: queue =>
      match cancelled poll with
      | Some err => (Err err, sw)
      | None =>
          match sweep_key pfx e sw with
          | (Err err, sw) => (Err err, sw)
          | (Ok _, sw) => sweep (S poll) queue sw
          end
      end
  end.
(** the last commit has its own message *)
Definition finish (sw : Sweep) : result Z * MemStore :=
  if 0 <? sw_count sw then
    match Commit env (sw_batch sw) (ms_db (sw_store sw)) with
    | (Err e, d) => (Err (Wrap "store: gc final batch delete failed" e), set_db d (sw_store sw))
    | (Ok _, d) => (Ok (sw_freed sw), set_db d (sw_store sw))
    end
  else (Ok (sw_freed sw), sw_store sw).
End sweep.

(** from the mark phase on; [tmp0] is the freshly opened temporary database *)
Definition collect_garbage (tmp0 : result DB) (minAge : Z) : M MemStore Z := λ s,
  match tmp0 with
  | Err e => (Err e, s)
  | Ok tmp0 =>
      match AllSealed env s with
      | Err e => (Err e, s)
      | Ok roots =>
          match mark s 0 roots tmp0 with
          | Err e => (Err e, s)
          | Ok tmp =>
              let minAgeTs := if 0 <? minAge then u64 (now env - minAge) else 0 in
              match db_NewIter env (ms_db s) with
              | Err e => (Err e, s)
              | Ok snap =>
                  match sweep tmp minAge minAgeTs (length roots) (sweep_queue snap) (mkSweep s [] 0 0) with
                  | (Err e, sw) => (Err e, sw_store sw)
                  | (Ok _, sw) => finish sw
                  end
              end
          end
      end
  end.
Definition track_with (f : gcWriteTracker -> gcWriteTracker) (s : MemStore) : MemStore :=
  set_tracker (f <$> ms_tracker s) s.
Definition tracked {A} (f : M MemStore A) : M MemStore A := λ s,
  let '(r, s) := f (track_with StartGC s) in (r, track_with EndGC s).
Definition GCWithMinAge (tmp0 : result DB) (minAge : Z) : M MemStore Z :=
  _ ← enter; tracked (collect_garbage tmp0 minAge).
Definition GC (tmp0 : result DB) : M MemStore Z := GCWithMinAge tmp0 0.
End gc_ops.

(** ** The mark phase *)
Section gc.
Context `{Floats, Multiformats} `{!MultiformatsLaws} `{Protos}.
Context (alg : Z) (Halg : isSupportedHash alg = true) `{!CollisionFree alg}.
Context (env : Env) (hooks : option StoreHooks) (fuel : nat) (tenv : Env) (cancelled : nat -> option error).
Implicit Types (s : MemStore) (m : MID) (h v : bytes) (t tmp : DB).

(** the temporary database works *)
Definition scratch_ok : Prop := (forall k, io_set tenv k = None) /\ io_iter tenv = None.

Definition is_marked h tmp : Prop := is_Some (kv tmp !! h).
Definition grows t t' : Prop := db_closed t' = db_closed t /\ forall h, is_marked h t -> is_marked h t'.
#[local] Instance grows_preorder : PreOrder grows.
Proof. split; [done|]. intros a b c [E1 Hx] [E2 Hy]. split; [congruence|auto]. Qed.

Lemma mark_one_grows key t : grows t (mark_one tenv key t).
Proof.
  unfold mark_one, db_Set. destruct (db_closed t) eqn:Ec; [done|]. destruct (io_set tenv key); [done|].
  split; [done|]. unfold is_marked. cbn [snd kv]. intros h Hh. by apply lookup_insert_is_Some'; right.
Qed.
Lemma mark_one_marks key t : scratch_ok -> db_closed t = false -> is_marked key (mark_one tenv key t).
Proof.
  intros [Hset _] Hc. unfold mark_one, db_Set. rewrite Hc, Hset. unfold is_marked. cbn [snd kv].
  rewrite lookup_insert_eq. by eexists.
Qed.
Lemma mark_all_grows (l : list MID) t : grows t (foldl (λ t sh, mark_one tenv (Bytes sh) t) t l).
Proof. revert t. induction l as [|m l IH]; intros t; [done|]. cbn [foldl]. etrans; [apply mark_one_grows|apply IH]. Qed.
Lemma mark_all_marks (l : list MID) t m : scratch_ok -> db_closed t = false -> m ∈ l ->
  is_marked (Hash m) (foldl (λ t sh, mark_one tenv (Bytes sh) t) t l).
Proof.
  intros Hs. revert t. induction l as [|x l IH]; intros t Hc; [by intros ?%not_elem_of_nil|].
  cbn [foldl]. intros [->|Hin]%elem_of_cons.
  - apply mark_all_grows. by apply mark_one_marks.
  - apply IH; [|done]. by rewrite (proj1 (mark_one_grows (Bytes x) t)).
Qed.
Lemma mark_visit_grows s m leaf t : grows t (mark_visit env tenv s m leaf t).2.
Proof. unfold mark_visit. cbn [snd]. etrans; [apply mark_one_grows|apply mark_all_grows]. Qed.

(** what one root pins: the walk, and the erasure shards of what it visits *)
Definition gc_get s : MID -> unit -> result bytes := λ m _, Get env hooks m s.
Definition gc_size s : option (MID -> unit -> result Z) := Some (λ m _, GetSize env m s).
Definition walk_ok s root : Prop :=
  Walk (gc_get s) (gc_size s) (λ _ _, mret tt) fuel root tt = (Ok tt, tt).
Definition pins s root m : Prop := exists m', rtc (follows (gc_get s) (gc_size s) tt) root m' /\
  (m = m' \/ m ∈ erasureShardMIDs env s m').

Definition gc_marked s m t : Prop := db_closed t = false ->
  is_marked (Hash m) t /\ forall sh, sh ∈ erasureShardMIDs env s m -> is_marked (Hash sh) t.
Lemma mark_visitor s : scratch_ok ->
  visitor (λ m (_ : DB), Get env hooks m s) (Some (λ m _, GetSize env m s)) (mark_visit env tenv s) (gc_marked s).
Proof.
  intros Hs. split.
  - by intros.
  - intros m leaf t t' [= <-] Hc.
    assert (db_closed t = false) as Hc0.
    { pose proof (mark_visit_grows s m leaf t) as [E _]. unfold mark_visit in E. cbn [snd] in E. congruence. }
    assert (db_closed (mark_one tenv (Bytes m) t) = false) as Hc1 by by rewrite (proj1 (mark_one_grows (Bytes m) t)).
    split; [apply mark_all_grows; by apply mark_one_marks|]. intros sh Hin. by apply mark_all_marks.
  - intros m leaf t r t' m' E Hm Hc. pose proof (mark_visit_grows s m leaf t) as [Ec Hg]. rewrite E in Ec, Hg.
    cbn [snd] in Ec, Hg. destruct Hm as [Ha Hb]; [congruence|]. split; [by apply Hg|]. intros. by apply Hg, Hb.
Qed.
Lemma mark_root_grows s root t : grows t (mark_root env hooks fuel tenv s root t).
Proof.
  unfold mark_root. destruct (IsZero root); [done|]. etrans; [apply mark_one_grows|].
  apply (WalkOptions_preserves _ _ _ _ grows). intros. apply mark_visit_grows.
Qed.
Lemma mark_root_pins s root t m :
  scratch_ok -> db_closed t = false -> wf_mid root -> walk_ok s root -> pins s root m ->
  is_marked (Hash m) (mark_root env hooks fuel tenv s root t).
Proof.
  intros Hs Hc Hr Hok (m' & Hreach & Hm). unfold mark_root. rewrite wf_not_zero by done.
  set (t0 := mark_one tenv (Bytes root) t).
  destruct (Walk (λ m (_ : DB), Get env hooks m s) (Some (λ m _, GetSize env m s)) (mark_visit env tenv s)
              fuel root t0) as [r t1] eqn:E.
  assert (r = Ok tt) as ->.
  { pose proof (WalkOptions_oblivious (λ m (_ : DB), Get env hooks m s) (Some (λ m _, GetSize env m s))
      (mark_visit env tenv s) (gc_get s) (gc_size s) (λ _ _, mret tt) false
      ltac:(done) ltac:(done) ltac:(done) ltac:(done) fuel root t0 tt) as Eo.
    unfold Walk in E. rewrite E in Eo. unfold walk_ok, Walk in Hok. rewrite Hok in Eo. done. }
  destruct (WalkOptions_closed _ _ _ _ _ (mark_visitor s Hs) fuel root t0 t1 Hr E) as (_ & _ & Hall).
  cbn [snd]. destruct (Hall m') as [Hmk|[? _]]; [|  |done].
  { clear -Hreach. induction Hreach as [|x y z (sz & d & Ha & Hb & Hc & Hd & He & Hf) _ IH]; [done|].
    eapply rtc_l; [|exact IH]. by exists sz, d. }
  assert (db_closed t1 = false) as Hc1.
  { pose proof (mark_root_grows s root t) as [Ec _]. unfold mark_root in Ec. rewrite wf_not_zero in Ec by done.
    fold t0 in Ec. rewrite E in Ec. cbn [snd] in Ec. congruence. }
  destruct (Hmk Hc1) as [Ha Hb]. destruct Hm as [->|Hin]; [done|by apply Hb].
Qed.
(** nothing but what the root pins is marked (and the root itself) *)
Lemma mark_root_only s root t h :
  wf_mid root -> is_marked h (mark_root env hooks fuel tenv s root t) ->
  is_marked h t \/ exists m, pins s root m /\ Hash m = h.
Proof.
  intros Hr. unfold mark_root. rewrite wf_not_zero by done.
  assert (forall key t h, is_marked h (mark_one tenv key t) -> is_marked h t \/ h = key) as Hone.
  { clear. intros key t h. unfold mark_one, db_Set. destruct (db_closed t); [by left|].
    destruct (io_set tenv key); [by left|]. unfold is_marked. cbn [snd kv].
    rewrite lookup_insert_is_Some. intros [->|[_ ?]]; [by right|by left]. }
  assert (forall (l : list MID) t h, is_marked h (foldl (λ t sh, mark_one tenv (Bytes sh) t) t l) ->
    is_marked h t \/ exists sh, sh ∈ l /\ Hash sh = h) as Hmany.
  { clear -Hone. induction l as [|x l IH]; intros t h; [by left|]. cbn [foldl].
    intros [Hm|(sh & Hin & <-)]%IH; [|right; exists sh; set_solver].
    apply Hone in Hm as [?| ->]; [by left|]. right. exists x. split; [by left|done]. }
  intros Hm. revert h Hm.
  apply (WalkOptions_visits _ _ _ _ (λ m, rtc (follows (gc_get s) (gc_size s) tt) root m)
    (λ t', forall h, is_marked h t' -> is_marked h t \/ exists m, pins s root m /\ Hash m = h)).
  - intros t' m m' Hx (sz & d & Ha & Hb & Hc & Hd & He & Hf). eapply rtc_r; [done|]. by exists sz, d.
  - intros m leaf t' Hreach HP h. unfold mark_visit. cbn [snd]. intros [Hm|(sh & Hin & <-)]%Hmany.
    + apply Hone in Hm as [?| ->]; [by apply HP|]. right. exists m. split; [|done]. exists m. auto.
    + right. exists sh. split; [|done]. exists m. auto.
  - done.
  - intros h Hm. apply Hone in Hm as [?| ->]; [by left|]. right. exists root. split; [|done].
    exists root. split; [done|by left].
Qed.

Lemma mark_grows s poll roots t t' : mark env hooks fuel tenv cancelled s poll roots t = Ok t' -> grows t t'.
Proof.
  revert poll t. induction roots as [|root roots IH]; intros poll t; cbn [mark]; [by intros [= <-]|].
  destruct (cancelled poll); [done|]. intros Hg%IH. etrans; [apply mark_root_grows|done].
Qed.
Lemma mark_pins s poll roots t t' root m :
  scratch_ok -> db_closed t = false -> mark env hooks fuel tenv cancelled s poll roots t = Ok t' ->
  root ∈ roots -> wf_mid root -> walk_ok s root -> pins s root m -> is_marked (Hash m) t'.
Proof.
  intros Hs Hc E Hin Hr Hok Hp. revert poll t Hc E Hin.
  induction roots as [|r0 roots IH]; intros poll t Hc E Hin; [by apply not_elem_of_nil in Hin|].
  cbn [mark] in E. destruct (cancelled poll); [done|]. apply elem_of_cons in Hin as [->|Hin].
  - apply (mark_grows _ _ _ _ _ E). by apply mark_root_pins.
  - eapply IH; [|exact E|done]. by rewrite (proj1 (mark_root_grows s r0 t)).
Qed.
Lemma mark_only s poll roots t t' h :
  mark env hooks fuel tenv cancelled s poll roots t = Ok t' -> Forall wf_mid roots -> is_marked h t' ->
  is_marked h t \/ exists root m, root ∈ roots /\ pins s root m /\ Hash m = h.
Proof.
  revert poll t. induction roots as [|r0 roots IH]; intros poll t; cbn [mark]; [intros [= <-]; by left|].
  destruct (cancelled poll); [done|]. intros E [Hr Hrs]%Forall_cons Hm.
  destruct (IH _ _ E Hrs Hm) as [Hm'|(root & m & ? & ? & ?)].
  - apply mark_root_only in Hm' as [?|(m & ? & ?)]; [by left| |done]. right. exists r0, m. set_solver.
  - right. exists root, m. set_solver.
Qed.

(** *** The sweep *)
Section sweep_facts.
Context (tmp : DB) (minAge minAgeTs : Z) (s0 : MemStore).
#[local] Abbreviation doomed0 := (doomed env tenv tmp minAge minAgeTs s0).

(** a key of a block namespace that the sweep may delete *)
Definition doomed_key (k : bytes) : Prop := exists p h, block_ns p /\ k = p ++ h /\ doomed0 h = true.
Definition doomed_path (p : path) : Prop := exists h m,
  FromMultihash CodecRaw h = Ok m /\ p = blockPath m /\ doomed0 h = true.

Definition with_data (D : gmap bytes bytes) (f : gmap path bytes) : MemStore :=
  set_files f (set_db (mkDB D (db_closed (ms_db s0))) s0).
(** what a sweep, finished or not, has done to the store *)
Record swept (s : MemStore) : Prop := {
  sp_frame : s = with_data (kv (ms_db s)) (ms_files s);
  sp_kv k : kv (ms_db s) !! k = kv (ms_db s0) !! k \/ kv (ms_db s) !! k = None /\ doomed_key k;
  sp_files p : ms_files s !! p = ms_files s0 !! p \/ ms_files s !! p = None /\ doomed_path p;
}.
Record sweeping (sw : Sweep) : Prop := {
  sg_store : swept (sw_store sw);
  sg_batch o : o ∈ sw_batch sw -> exists k, o = BDel k /\ doomed_key k;
  sg_count : sw_count sw = zlen (sw_batch sw);
}.
(** the database once the pending batch is committed *)
Definition eff (sw : Sweep) : gmap bytes bytes := foldl apply_op (kv (ms_db (sw_store sw))) (sw_batch sw).

Lemma swept_start : swept s0.
Proof.
  split; [|by left..]. unfold with_data. generalize s0. intros s. destruct s as [[Dk Dc]]. reflexivity.
Qed.

Lemma doomed_key_ns p h : block_ns p -> doomed_key (p ++ h) -> doomed0 h = true.
Proof. intros Hp (p' & h' & Hp' & E & Hd). by apply ns_inj in E as [_ ->]. Qed.
Lemma swept_meta s k : swept s -> kv (ms_db s) !! MetaKey k = kv (ms_db s0) !! MetaKey k.
Proof.
  intros Hs. destruct (sp_kv s Hs (MetaKey k)) as [E|[_ (p & h & Hp & E & _)]]; [done|].
  by destruct (ns_not_meta p h k Hp).
Qed.
(** deleting blocks changes no protection *)
Lemma doomed_swept s h : swept s -> doomed env tenv tmp minAge minAgeTs s h = doomed0 h.
Proof.
  intros Hs. unfold doomed, spared, written_at, ReadTimestamp, TimestampKey, db_Get.
  assert (ms_tracker s = ms_tracker s0) as -> by by rewrite (sp_frame s Hs).
  assert (db_closed (ms_db s) = db_closed (ms_db s0)) as -> by by rewrite (sp_frame s Hs).
  destruct (FromMultihash CodecRaw h) as [m|]; [|done]. by rewrite (swept_meta s _ Hs).
Qed.
Lemma has_files_swept s : swept s -> has_files s = has_files s0.
Proof. intros Hs. by rewrite (sp_frame s Hs). Qed.

Lemma apply_dels (b : list batch_op) (D : gmap bytes bytes) k :
  (forall o, o ∈ b -> exists k, o = BDel k /\ doomed_key k) ->
  foldl apply_op D b !! k = D !! k \/ foldl apply_op D b !! k = None /\ doomed_key k.
Proof.
  revert D. induction b as [|o b IH]; intros D Hb; [by left|]. cbn [foldl].
  destruct (Hb o) as (k0 & -> & Hk0); [by left|]. cbn [apply_op].
  destruct (IH (delete k0 D)) as [E|[E Hd]]; [intros; apply Hb; by right| |by right].
  rewrite E. destruct (decide (k0 = k)) as [->|Hne]; [right|left].
  - by rewrite lookup_delete_eq.
  - by rewrite lookup_delete_ne.
Qed.
Lemma commit_swept sw : sweeping sw ->
  swept (set_db (mkDB (eff sw) (db_closed (ms_db (sw_store sw)))) (sw_store sw)).
Proof.
  intros [Hs Hb _]. split.
  - rewrite (sp_frame _ Hs). done.
  - intros k. cbn [ms_db set_db kv]. unfold eff.
    destruct (apply_dels (sw_batch sw) (kv (ms_db (sw_store sw))) k Hb) as [E|[E Hd]]; [|by right].
    rewrite E. apply (sp_kv _ Hs).
  - apply (sp_files _ Hs).
Qed.
Lemma unlink_swept h s : swept s -> doomed0 h = true -> swept (unlink h s) /\ ms_db (unlink h s) = ms_db s.
Proof.
  intros Hs Hd. unfold unlink. destruct (FromMultihash CodecRaw h) as [m|] eqn:E; [|done].
  unfold remove_file. destruct (has_files s); [|done]. split; [|done]. split.
  - rewrite (sp_frame s Hs). done.
  - apply (sp_kv s Hs).
  - intros p. cbn [ms_files set_files]. destruct (decide (blockPath m = p)) as [<-|Hne].
    + right. rewrite lookup_delete_eq. split; [done|]. by exists h, m.
    + rewrite lookup_delete_ne by done. apply (sp_files s Hs).
Qed.

Lemma sweep_key_spec p h v sw r sw' :
  block_ns p -> sweeping sw -> sweep_key env tenv tmp minAge minAgeTs p (p ++ h, v) sw = (r, sw') ->
  swept (sw_store sw') /\
  (r = Ok tt -> sweeping sw' /\
    eff sw' = (if doomed0 h then delete (p ++ h) (eff sw) else eff sw) /\
    sw_freed sw' = if doomed0 h then u64 (sw_freed sw + u64 (zlen (p ++ h) + value_size s0 v)) else sw_freed sw).
Proof.
  intros Hp Hsw. pose proof Hsw as [Hs Hb Hc]. unfold sweep_key. cbn [fst snd]. rewrite drop_app_length, doomed_swept by done.
  destruct (doomed0 h) eqn:Ed; cbn [negb]; [|by intros [= <- <-]].
  destruct (unlink_swept h (sw_store sw) Hs Ed) as [Hs1 Hdb].
  replace (value_size (sw_store sw) v) with (value_size s0 v)
    by (unfold value_size; by rewrite (has_files_swept _ Hs)).
  set (sw1 := mkSweep (unlink h (sw_store sw)) (sw_batch sw ++ [BDel (p ++ h)]) (sw_count sw + 1) _).
  assert (sweeping sw1) as Hsw1.
  { split; cbn [sw_store sw_batch sw_count sw1]; [done| |].
    - intros o [Hin| ->%list_elem_of_singleton]%elem_of_app; [by apply Hb|].
      exists (p ++ h). split; [done|]. by exists p, h.
    - rewrite zlen_app, Hc. done. }
  assert (eff sw1 = delete (p ++ h) (eff sw)) as He.
  { unfold eff. cbn [sw_store sw_batch sw1]. by rewrite Hdb, foldl_app. }
  destruct (1000 <=? sw_count sw1).
  2:{ intros [= <- <-]. split; [done|]. by intros _. }
  unfold flush, Commit. destruct (io_commit env) as [e|].
  - intros [= <- <-]. split; [|done]. cbn [sw_store sw1]. rewrite Hdb.
    replace (set_db (ms_db (sw_store sw)) (unlink h (sw_store sw))) with (unlink h (sw_store sw)); [done|].
    rewrite <-Hdb. by destruct (unlink h (sw_store sw)).
  - intros [= <- <-]. fold (eff sw1). pose proof (commit_swept sw1 Hsw1) as Hcs. split; [done|].
    intros _. split_and!; [|done|done]. split; [done|by intros ? ?%not_elem_of_nil|done].
Qed.

(** the total of a finished sweep *)
Definition swept_size (queue : list (bytes * (bytes * bytes))) : Z :=
  sumZ (λ q, if doomed0 (drop (length q.1) q.2.1) then zlen q.2.1 + value_size s0 q.2.2 else 0) queue.
Definition wf_queue (queue : list (bytes * (bytes * bytes))) : Prop :=
  Forall (λ q, block_ns q.1 /\ exists h, q.2.1 = q.1 ++ h) queue.

Lemma sweep_spec queue poll sw r sw' :
  wf_queue queue -> sweeping sw ->
  sweep env tenv cancelled tmp minAge minAgeTs poll queue sw = (r, sw') ->
  swept (sw_store sw') /\
  (r = Ok tt -> sweeping sw' /\
    (forall k, eff sw' !! k = None <-> eff sw !! k = None \/
       exists q, q ∈ queue /\ q.2.1 = k /\ doomed0 (drop (length q.1) q.2.1) = true) /\
    u64 (sw_freed sw') = u64 (sw_freed sw + swept_size queue)).
Proof.
  intros Hq. revert poll sw. induction Hq as [|[p [k0 v]] queue [Hp [h Hk]] _ IH]; intros poll sw Hsw; cbn [sweep].
  { intros [= <- <-]. split; [apply Hsw|]. intros _. split_and!; [done| |].
    - intros k. split; [by left|]. intros [?|(q & Hin & _)]; [done|by apply not_elem_of_nil in Hin].
    - unfold swept_size. cbn [sumZ foldr]. f_equal. lia. }
  destruct (cancelled poll) as [err|]; [intros [= <- <-]; split; [apply Hsw|done]|].
  cbn [fst snd] in Hp, Hk. subst k0.
  destruct (sweep_key env tenv tmp minAge minAgeTs p (p ++ h, v) sw) as [r1 sw1] eqn:E1.
  destruct (sweep_key_spec p h v sw r1 sw1 Hp Hsw E1) as [Hs1 Hok].
  destruct r1 as [[]|e]; [|by intros [= <- <-]].
  destruct (Hok eq_refl) as (Hsw1 & He & Hf). intros E. destruct (IH _ _ Hsw1 E) as [Hs' Hok'].
  split; [done|]. intros Hr. destruct (Hok' Hr) as (Hsw' & Hkeys & Hfreed). split_and!; [done| |].
  - intros k. rewrite Hkeys, He. split.
    + intros [Hx|(q & Hin & Hqk & Hqd)]; [|right; exists q; split_and!; [by right|done..]].
      destruct (doomed0 h) eqn:Ed; [|by left]. destruct (decide (p ++ h = k)) as [<-|Hne].
      * right. exists (p, (p ++ h, v)). cbn [fst snd]. rewrite drop_app_length. split_and!; [by left|done..].
      * left. by rewrite lookup_delete_ne in Hx.
    + intros [Hx|(q & [->|Hin]%elem_of_cons & Hqk & Hqd)].
      * left. destruct (doomed0 h); [|done]. destruct (decide (p ++ h = k)) as [<-|Hne];
          [apply lookup_delete_eq|by rewrite lookup_delete_ne].
      * left. cbn [fst snd] in Hqk, Hqd. rewrite drop_app_length in Hqd. rewrite Hqd, <-Hqk. apply lookup_delete_eq.
      * right. by exists q.
  - rewrite Hfreed, Hf. unfold swept_size at 2. cbn [sumZ foldr fst snd]. rewrite drop_app_length.
    fold (sumZ (λ q : bytes * (bytes * bytes), if doomed0 (drop (length q.1) q.2.1) then zlen q.2.1 + value_size s0 q.2.2 else 0) queue).
    fold (swept_size queue). destruct (doomed0 h); [|f_equal; lia].
    rewrite u64_add_l', <-Z.add_assoc, (Z.add_comm (u64 (zlen _ + _))), Z.add_assoc, u64_add_r. f_equal. lia.
Qed.
Lemma finish_spec sw r s' :
  sweeping sw -> finish env sw = (r, s') ->
  swept s' /\ forall freed, r = Ok freed -> kv (ms_db s') = eff sw /\ freed = sw_freed sw.
Proof.
  intros Hsw. pose proof Hsw as [Hs _ Hc]. unfold finish. destruct (Z.ltb_spec 0 (sw_count sw)).
  - unfold Commit. destruct (io_commit env).
    + intros [= <- <-]. split; [|done]. replace (set_db _ _) with (sw_store sw) by by destruct (sw_store sw). done.
    + intros [= <- <-]. split; [by apply commit_swept|]. by intros freed [= <-].
  - intros [= <- <-]. split; [done|]. intros freed [= <-]. split; [|done]. unfold eff.
    destruct (sw_batch sw); [done|]. rewrite Hc in *. unfold zlen in *. simpl in *. lia.
Qed.
Lemma wf_sweep_queue snap : wf_queue (sweep_queue snap).
Proof.
  apply Forall_forall. intros [p [k v]] (p' & Hin & Hp)%list_elem_of_bind.
  apply list_elem_of_fmap in Hin as ([k' v'] & [= -> -> ->] & Hin). apply elem_of_scan in Hin as [_ [h ->]].
  split; [by apply elem_of_ns|by exists h].
Qed.
Lemma elem_of_sweep_queue snap p k v : (p, (k, v)) ∈ sweep_queue snap <->
  block_ns p /\ snap !! k = Some v /\ exists h, k = p ++ h.
Proof.
  unfold sweep_queue. rewrite list_elem_of_bind. split.
  - intros (p' & Hin & Hp). apply list_elem_of_fmap in Hin as ([k' v'] & [= -> -> ->] & Hin).
    apply elem_of_scan in Hin as [? ?]. split_and!; [by apply elem_of_ns|done..].
  - intros (Hp & Hk & Hh). exists p. split; [|by apply elem_of_ns]. apply list_elem_of_fmap.
    exists (k, v). split; [done|]. by apply elem_of_scan.
Qed.
End sweep_facts.

(** *** What a collection leaves *)
Lemma swept_sound tmp minAge minAgeTs s0 s :
  sound alg s0 -> swept tmp minAge minAgeTs s0 s -> sound alg s.
Proof.
  intros [[Hst Hf Hb] Ho] [Hfr Hkv Hfi].
  assert (store_open s) as Ho' by (rewrite Hfr; destruct Ho as [Ho Hcl]; by split). split; [|done]. split.
  - intros p h v Hp E. destruct (Hkv (p ++ h)) as [E'|[E' _]]; [|congruence].
    rewrite E' in E. destruct (Hst p h v Hp E) as (d & Hn & Hv). exists d. split; [done|].
    assert (has_files s = has_files s0) as -> by by rewrite Hfr. done.
  - intros m d Hm E. destruct (Hfi (blockPath m)) as [E'|[E' _]]; [|congruence]. apply Hf; [done|congruence].
  - revert Hb. unfold bloom_covers. assert (ms_bloom s = ms_bloom s0) as -> by by rewrite Hfr.
    destruct (ms_bloom s0) as [b|]; [|done]. destruct (bi_cbf b); [|done].
    intros (items & Hc & Hocc). exists items. split; [done|]. intros h Hh. specialize (Hocc h Hh).
    assert (forall p, present s p h ≤ present s0 p h)%nat as Hle.
    { intros p. unfold present. destruct (Hkv (p ++ h)) as [E|[E _]]; rewrite E; [done|].
      rewrite decide_False; [lia|by intros [? ?]]. }
    pose proof (Hle PrefixBlock). pose proof (Hle PrefixDAG). lia.
Qed.
Lemma swept_Get tmp minAge minAgeTs s0 s m :
  wf_mid m -> swept tmp minAge minAgeTs s0 s -> doomed env tenv tmp minAge minAgeTs s0 (Hash m) = false ->
  Get env None m s = Get env None m s0.
Proof.
  intros Hm [Hfr Hkv Hfi] Hd.
  assert (forall p, block_ns p -> kv (ms_db s) !! (p ++ Hash m) = kv (ms_db s0) !! (p ++ Hash m)) as Hk.
  { intros p Hp. destruct (Hkv (p ++ Hash m)) as [E|[_ Hdk]]; [done|].
    apply doomed_key_ns in Hdk; [congruence|done]. }
  assert (ms_files s !! blockPath m = ms_files s0 !! blockPath m) as Hfile.
  { destruct (Hfi (blockPath m)) as [E|[_ (h & m' & E & Ep & Hd')]]; [done|].
    apply FromMultihash_wf in E as (Hw & _ & <-); [|done].
    apply blockPath_inj in Ep as ->; [congruence|done..]. }
  assert (db_closed (ms_db s) = db_closed (ms_db s0)) as Hcl by by rewrite Hfr.
  assert (closed_or_nil s = closed_or_nil s0) as Hc by by rewrite Hfr.
  assert (forall m', maybe m' s = maybe m' s0) as Hmaybe by (intros; by rewrite Hfr).
  assert (has_files s = has_files s0) as Hhf by by rewrite Hfr.
  unfold Get. rewrite Hc. destruct (closed_or_nil s0); [done|]. destruct (IsZero m); [done|].
  cbn [mbind result_bind]. rewrite Hmaybe. unfold lookup_value, load, db_Get. rewrite Hcl, Hhf, Hfile.
  unfold BlockKey, DagKey, Bytes. rewrite (Hk PrefixBlock) by by left. rewrite (Hk PrefixDAG) by by right. done.
Qed.

Lemma isReachable_marked tmp h : scratch_ok -> db_closed tmp = false ->
  isReachable tenv tmp h = true <-> is_marked h tmp.
Proof.
  intros [_ Hit] Hc. unfold isReachable, db_Has. rewrite Hc, Hit, db_Has_spec. apply bool_decide_eq_true.
Qed.

(** a run of the collector: it stops before the sweep, or sweeps what is not marked *)
Lemma gc_outcome (tmp0 : result DB) minAge s r s' :
  sound alg s -> GCWithMinAge env hooks fuel tenv cancelled tmp0 minAge s = (r, s') ->
  (forall t, tmp0 = Ok t -> t = mkDB ∅ false) ->
  let s1 := track_with StartGC s in
  (exists e, r = Err e /\ s' = track_with EndGC s1) \/
  exists tmp s2, mark env hooks fuel tenv cancelled s1 0 (sealed_roots (kv (ms_db s))) (mkDB ∅ false) = Ok tmp /\
    db_closed tmp = false /\ s' = track_with EndGC s2 /\
    let minAgeTs := if 0 <? minAge then u64 (now env - minAge) else 0 in
    swept tmp minAge minAgeTs s1 s2 /\
    forall freed, r = Ok freed ->
      (forall k, kv (ms_db s2) !! k = None <-> kv (ms_db s) !! k = None \/ doomed_key tmp minAge minAgeTs s1 k) /\
      u64 freed = u64 (swept_size tmp minAge minAgeTs s1 (sweep_queue (kv (ms_db s)))).
Proof.
  intros [Hs [Ho Hcl]] E Ht s1. revert E. unfold GCWithMinAge, mbind, M_bind, enter. fold (closed_or_nil s).
  rewrite Ho. unfold tracked. fold s1. destruct (collect_garbage env hooks fuel tenv cancelled tmp0 minAge s1) as [r1 s2] eqn:E.
  intros [= <- <-]. revert E. unfold collect_garbage.
  destruct tmp0 as [t0|e]; [|intros [= <- <-]; left; by eexists]. rewrite (Ht t0 eq_refl).
  unfold AllSealed, db_NewIter. change (closed_or_nil s1) with (closed_or_nil s). rewrite Ho.
  change (ms_db s1) with (ms_db s). rewrite Hcl.
  destruct (io_iter env) as [e|]; [intros [= <- <-]; left; by eexists|]. cbn [mbind result_bind].
  destruct (mark _ _ _ _ _ s1 0 _ _) as [tmp|e] eqn:Em; [|intros [= <- <-]; left; by eexists].
  set (minAgeTs := if 0 <? minAge then _ else _). intros E. right. exists tmp, s2. split; [done|].
  split; [by rewrite (proj1 (mark_grows _ _ _ _ _ Em))|]. split; [done|]. cbn zeta.
  destruct (sweep env tenv cancelled tmp minAge minAgeTs _ _ _) as [rs sw] eqn:Es.
  assert (sweeping tmp minAge minAgeTs s1 (mkSweep s1 [] 0 0)) as Hsw0.
  { split; [apply swept_start|by intros ? ?%not_elem_of_nil|done]. }
  destruct (sweep_spec tmp minAge minAgeTs s1 _ _ _ _ _ (wf_sweep_queue (kv (ms_db s))) Hsw0 Es) as [Hsp Hok].
  destruct rs as [[]|e]; [|injection E as <- <-; by split].
  destruct (Hok eq_refl) as (Hsw & Hkeys & Hfr).
  destruct (finish_spec tmp minAge minAgeTs s1 sw r1 s2 Hsw E) as [Hs2 Hfin]. split; [done|].
  intros freed ->. destruct (Hfin freed eq_refl) as [Hkv ->]. rewrite Hkv. split; [|done].
  intros k. rewrite Hkeys. change (eff (mkSweep s1 [] 0 0)) with (kv (ms_db s)). split.
  - intros [?|([p [k0 v]] & Hin & <- & Hd)]; [by left|right]. apply elem_of_sweep_queue in Hin as (Hp & _ & h & ->).
    cbn [fst snd] in *. rewrite drop_app_length in Hd. by exists p, h.
  - intros [?|(p & h & Hp & -> & Hd)]; [by left|]. destruct (kv (ms_db s) !! (p ++ h)) as [v|] eqn:Ev; [right|by left].
    exists (p, (p ++ h, v)). cbn [fst snd]. rewrite drop_app_length. split_and!; [|done..].
    apply elem_of_sweep_queue. split_and!; [done..|by exists h].
Qed.
End gc.

(** ** Properties *)
Section gc_properties.
Context `{Floats, Multiformats} `{!MultiformatsLaws} `{Protos}.
Context (alg : Z) (Halg : isSupportedHash alg = true) `{!CollisionFree alg}.
Context (env : Env) (hooks : option StoreHooks) (fuel : nat) (tenv : Env) (cancelled : nat -> option error).
Context (Hscratch : scratch_ok tenv).

Lemma sealed_roots_wf D : Forall wf_mid (sealed_roots D).
Proof.
  apply Forall_forall. intros m (e & _ & Hin)%list_elem_of_omap. revert Hin. unfold seal_entry.
  destruct (zlen e.2 =? 8) eqn:E8.
  - destruct (negb _); [done|]. destruct (FromMultihash _ _) as [m'|] eqn:E; [|done]. intros [= <-].
    apply FromMultihash_wf in E as [? _]; [done|]. split; [apply Z.ldiff_nonneg; left; apply be_combine_bound|].
    eapply Z.le_lt_trans; [|apply (Uint64_bound e.2)]. apply Z.ldiff_le; [apply be_combine_bound|].
    apply Z.bits_inj'. intros n _. rewrite !Z.ldiff_spec, Z.bits_0. by destruct (Z.testbit (Uint64 e.2) n), (Z.testbit childBit n).
  - destruct (FromMultihash _ _) as [m'|] eqn:E; [|done]. intros [= <-]. by apply FromMultihash_wf in E as [? _].
Qed.

(** what the walk from a sealed root comes to, and the shards recorded for it, stay *)
Lemma gc_keeps_pinned (tmp0 : result DB) minAge s r s' root m0 m :
  sound alg s -> (forall t, tmp0 = Ok t -> t = mkDB ∅ false) -> GCWithMinAge env hooks fuel tenv cancelled tmp0 minAge s = (r, s') ->
  root ∈ sealed_roots (kv (ms_db s)) -> walk_ok env hooks fuel s root -> pins env hooks s root m0 ->
  wf_mid m -> Hash m = Hash m0 -> Get env None m s' = Get env None m s.
Proof using All.
  intros Hs Ht E Hin Hok Hp Hm EH.
  destruct (gc_outcome alg env hooks fuel tenv cancelled tmp0 minAge s r s' Hs E Ht) as [(e & -> & ->)|(tmp & s2 & Em & Hc & -> & Hsw & _)]; [done|].
  assert (sound alg (track_with StartGC s)) as Hs1 by by destruct Hs as [[? ? ?] ?].
  change (Get env None m (track_with EndGC s2)) with (Get env None m s2). change (Get env None m s) with (Get env None m (track_with StartGC s)).
  eapply swept_Get; [done|exact Hsw|]. unfold doomed. rewrite EH. assert (isReachable tenv tmp (Hash m0) = true) as ->; [|done].
  apply isReachable_marked; [done..|]. apply (mark_pins env hooks fuel tenv cancelled (track_with StartGC s) 0 _ (mkDB ∅ false) tmp root m0 Hscratch eq_refl Em Hin); [|done..].
  pose proof (sealed_roots_wf (kv (ms_db s))) as Hwf. rewrite Forall_forall in Hwf. by apply Hwf.
Qed.


(** with no minimum age and no write since the start, nothing is spared *)
Lemma spared_none s h : spared env 0 0 (track_with StartGC s) h = false.
Proof.
  unfold spared. destruct (FromMultihash CodecRaw h) as [m|] eqn:E; [|done].
  apply FromMultihash_wf in E as (Hw & _ & _); [|done]. change (0 <? 0) with false. cbn [andb]. rewrite orb_false_r.
  cbn [ms_tracker track_with set_tracker]. destruct (ms_tracker s) as [g|]; [|done]. cbn [fmap option_fmap option_map].
  unfold IsProtected. rewrite wf_not_zero by done. cbn [StartGC gcActive activeBuffer gracePeriod].
  rewrite bool_decide_eq_false_2 by set_solver. cbn [andb]. destruct (0 <? _); [|done].
  change (0 =? 0) with true. cbn iota zeta. change (0 <? 0) with false. by rewrite andb_false_r.
Qed.
Lemma sumZ_ext {A} (f g : A -> Z) l : (forall x, x ∈ l -> f x = g x) -> sumZ f l = sumZ g l.
Proof.
  induction l as [|x l IH]; intros Hfg; [done|]. cbn [sumZ foldr]. f_equal; [apply Hfg; by left|].
  apply IH. intros. apply Hfg. by right.
Qed.
(** the bytes of the entries of [s] that are gone in [s'] *)
Definition gone_size s s' : Z :=
  sumZ (λ e : bytes * bytes, if kv (ms_db s') !! e.1 is Some _ then 0 else zlen e.1 + value_size s e.2)
    (scan_prefix PrefixBlock (kv (ms_db s)) ++ scan_prefix PrefixDAG (kv (ms_db s))).

End gc_properties.

(** ** Instances *)
Definition never : nat -> option error := λ _, None.
Definition fresh_db : result DB := Ok (mkDB ∅ false).
(** two blocks, the first one sealed *)
Definition demo_gc : MemStore := (Seal (calm 7) None 5 (demo_mid "a") false demo_two).2.
Lemma demo_gc_sound : sound BLAKE3 demo_gc.
Proof. apply (bs_sound BLAKE3 (calm 7) _ _ (Seal_beside BLAKE3 (calm 7) None 5 _ _ _)), demo_two_sound. Qed.
Lemma calm_scratch t : scratch_ok (calm t).
Proof. done. Qed.

Lemma demo_roots : sealed_roots (kv (ms_db demo_gc)) = [demo_mid "a"].
Proof. vm_compute. reflexivity. Qed.

(** The minimum age protects raw blocks only: of two blocks written one second ago, a
    collection with a minimum age of 100 seconds deletes the MemFS one. *)
Definition young_memfs : MemStore :=
  (Put BLAKE3 (calm 1000) None (toy_mid CodecMemFS (lit "x")) (lit "x")
    (Put BLAKE3 (calm 1000) None (demo_mid "y") (lit "y") demo_open).2).2.
Lemma GC_ignores_memfs_age :
  let s' := (GCWithMinAge (calm 1001) None 5 (calm 1001) never fresh_db 100 young_memfs).2 in
  Get (calm 1001) None (demo_mid "y") s' = Ok (lit "y") /\
  Get (calm 1001) None (toy_mid CodecMemFS (lit "x")) s' = Err ErrNotFound.
Proof. vm_compute. done. Qed.
(** The collector drops the error of a walk: a sealed root with one missing child loses
    the children after it. *)
Definition torn_node : bytes :=
  match marshal (mkDAGNode [String (demo_mid "gone"); String (demo_mid "b")] [] []) with Ok d => d | Err _ => [] end.
Definition torn_store : MemStore :=
  (Seal (calm 7) None 5 (toy_mid CodecRaw torn_node) false
    (Put BLAKE3 (calm 7) None (toy_mid CodecRaw torn_node) torn_node demo_two).2).2.
Lemma GC_drops_siblings_of_missing :
  let s' := (GC (calm 8) None 5 (calm 8) never fresh_db torn_store).2 in
  Get (calm 8) None (demo_mid "b") torn_store = Ok (lit "b") /\
  (children (toy_mid CodecRaw torn_node) torn_node).2 = [demo_mid "gone"; demo_mid "b"] /\
  Get (calm 8) None (toy_mid CodecRaw torn_node) s' = Ok torn_node /\
  Get (calm 8) None (demo_mid "b") s' = Err ErrNotFound.
Proof. vm_compute. done. Qed.
