(* ===== verification/GcRace.v ===== *)
(** * Writes during a collection (src/core/store/seal.go, pebble.go, gc_tracker.go)

    [Gc] runs the sweep on its own.  Here the sweep and any number of [Put]s and [PutDAG]s
    run side by side: each is cut at every access to the database, the flat files, the
    bloom filter or the tracker, and the accesses interleave freely.  Run alone, the steps
    of the sweep are [Gc.sweep] and [Gc.finish], and those of a writer are [Put].  The
    write of a temporary file and its rename are one step, as the sweep touches neither;
    deletions by other callers are left out. *)
From S2P Require Import Prelude Mid Wire Blockstore Objects Memstore Bloom Db MemStore Seal Gc.

Section race_ops.
Context `{Floats, Multiformats, Protos} (alg : Z).

(** ** A writer *)
Inductive PutPhase :=
  | PStart
  | PFiled (val : bytes)      (* the content is verified and, when large, in its file *)
  | PCommitted                (* the batch is in the database *)
  | PIndexed                  (* the bloom filter has it *)
  | PDone                     (* recorded by the tracker: [Put] returns nil *)
  | PFailed (e : error).
Record Putter := mkPutter { pu_ns : bytes; pu_mid : MID; pu_data : bytes; pu_phase : PutPhase }.
Definition at_phase (ph : PutPhase) (w : Putter) : Putter := mkPutter (pu_ns w) (pu_mid w) (pu_data w) ph.

Definition put_file (env : Env) (m : MID) (data : bytes) : M MemStore bytes :=
  _ ← enter;
  _ ← guard_error (IsZero m) (New "store: zero MID");
  _ ← liftr (verifyContent alg m data);
  put_value env m data.
Definition put_commit (env : Env) (p : bytes) (m : MID) (val : bytes) : M MemStore unit :=
  on_db (Commit env [BSet (p ++ Bytes m) val; PutTimestamp env m]).
Definition index_block (m : MID) (s : MemStore) : MemStore := set_bloom (bloom_add m <$> ms_bloom s) s.
Definition record_block (m : MID) (s : MemStore) : MemStore := set_tracker (RecordWrite m <$> ms_tracker s) s.

Definition put_step (env : Env) (w : Putter) (s : MemStore) : Putter * MemStore :=
  match pu_phase w with
  | PStart =>
      match put_file env (pu_mid w) (pu_data w) s with
      | (Ok val, s) => (at_phase (PFiled val) w, s)
      | (Err e, s) => (at_phase (PFailed e) w, s)
      end
  | PFiled val =>
      match put_commit env (pu_ns w) (pu_mid w) val s with
      | (Ok _, s) => (at_phase PCommitted w, s)
      | (Err e, s) => (at_phase (PFailed e) w, s)
      end
  | PCommitted => (at_phase PIndexed w, index_block (pu_mid w) s)
  | PIndexed => (at_phase PDone w, record_block (pu_mid w) s)
  | PDone | PFailed _ => (w, s)
  end.

(** ** The sweep *)
Context (tenv : Env) (tmp : DB) (minAge minAgeTs : Z).
(** an entry of the snapshot, with its prefix *)
Definition Entry : Type := bytes * (bytes * bytes).
Definition raw_key (q : Entry) : bytes := drop (length q.1) q.2.1.

Inductive SweepPhase :=
  | SOpen                                     (* the marking is over; no iterator yet *)
  | SNext                                     (* the head of the loop *)
  | SJudge (q : Entry) (m : MID) (writeTs : Z)  (* the timestamp is read; the tracker is next *)
  | SAge (q : Entry) (m : MID)                (* not protected; the minimum age is next *)
  | SRemove (q : Entry)                       (* to be deleted *)
  | SCount                                    (* queued and unlinked *)
  | SDone (r : result Z).
(** [sr_passed]: the multihashes that [IsProtected] has been asked about and did not protect *)
Record Sweeper := mkSweeper {
  sr_phase : SweepPhase;
  sr_queue : list Entry;
  sr_batch : list batch_op;
  sr_count : Z;
  sr_freed : Z;
  sr_passed : list bytes;
}.
Definition to_phase (ph : SweepPhase) (sr : Sweeper) : Sweeper :=
  mkSweeper ph (sr_queue sr) (sr_batch sr) (sr_count sr) (sr_freed sr) (sr_passed sr).
Definition passed (q : Entry) (sr : Sweeper) : Sweeper :=
  mkSweeper (sr_phase sr) (sr_queue sr) (sr_batch sr) (sr_count sr) (sr_freed sr) (raw_key q :: sr_passed sr).
Definition emptied (sr : Sweeper) : Sweeper :=
  mkSweeper (sr_phase sr) (sr_queue sr) [] 0 (sr_freed sr) (sr_passed sr).

(** [poll] is what the context answers *)
Definition sweep_step (env : Env) (poll : option error) (sr : Sweeper) (s : MemStore) : Sweeper * MemStore :=
  match sr_phase sr with
  | SOpen =>
      match db_NewIter env (ms_db s) with
      | Err e => (to_phase (SDone (Err e)) sr, s)
      | Ok snap => (mkSweeper SNext (sweep_queue snap) [] 0 0 (sr_passed sr), s)
      end
  | SNext =>
      match sr_queue sr with
      | [] =>
          if 0 <? sr_count sr then
            match Commit env (sr_batch sr) (ms_db s) with
            | (Err e, d) => (to_phase (SDone (Err (Wrap "store: gc final batch delete failed" e))) sr, set_db d s)
            | (Ok _, d) => (to_phase (SDone (Ok (sr_freed sr))) sr, set_db d s)
            end
          else (to_phase (SDone (Ok (sr_freed sr))) sr, s)
      | q :: queue =>
          let sr := mkSweeper SNext queue (sr_batch sr) (sr_count sr) (sr_freed sr) (sr_passed sr) in
          match poll with
          | Some err => (to_phase (SDone (Err err)) sr, s)
          | None =>
              if isReachable tenv tmp (raw_key q) then (sr, s) else
              match FromMultihash CodecRaw (raw_key q) with
              | Err _ => (to_phase (SRemove q) (passed q sr), s)
              | Ok m => (to_phase (SJudge q m (match written_at env s m with Ok ts => ts | Err _ => 0 end)) sr, s)
              end
          end
      end
  | SJudge q m writeTs =>
      if match ms_tracker s with Some g => IsProtected env m writeTs minAge g | None => false end
      then (to_phase SNext sr, s)
      else (to_phase (if 0 <? minAgeTs then SAge q m else SRemove q) (passed q sr), s)
  | SAge q m =>
      if match written_at env s m with Ok ts => minAgeTs <=? ts | Err _ => false end
      then (to_phase SNext sr, s) else (to_phase (SRemove q) sr, s)
  | SRemove q =>
      (mkSweeper SCount (sr_queue sr) (sr_batch sr ++ [BDel q.2.1]) (sr_count sr + 1)
         (u64 (sr_freed sr + u64 (zlen q.2.1 + value_size s q.2.2))) (sr_passed sr), unlink (raw_key q) s)
  | SCount =>
      if 1000 <=? sr_count sr then
        match Commit env (sr_batch sr) (ms_db s) with
        | (Err e, d) => (to_phase (SDone (Err (Wrap "store: gc batch delete failed" e))) (emptied sr), set_db d s)
        | (Ok _, d) => (to_phase SNext (emptied sr), set_db d s)
        end
      else (to_phase SNext sr, s)
  | SDone _ => (sr, s)
  end.

(** ** The two together *)
Record Race := mkRace { ra_store : MemStore; ra_sweeper : Sweeper; ra_putters : list Putter }.
Inductive race_step : Race -> Race -> Prop :=
  | race_sweep env poll sr s ws sr' s' :
      sweep_step env poll sr s = (sr', s') -> race_step (mkRace s sr ws) (mkRace s' sr' ws)
  | race_put env i w s sr ws w' s' :
      ws !! i = Some w -> put_step env w s = (w', s') ->
      race_step (mkRace s sr ws) (mkRace s' sr (<[i := w']> ws)).
(** the writes that are made, from the start of the collection on *)
Definition race_start (s : MemStore) (jobs : list (bytes * MID * bytes)) : Race :=
  mkRace (track_with StartGC s) (mkSweeper SOpen [] [] 0 0 [])
    (map (λ j, mkPutter j.1.1 j.1.2 j.2 PStart) jobs).
End race_ops.

(** ** Run alone, the steps are the operations *)
Section solo.
Context `{Floats, Multiformats, Protos}.
Context (alg : Z) (env tenv : Env) (tmp : DB) (minAge minAgeTs : Z).
#[local] Abbreviation go := (λ st : Sweeper * MemStore, sweep_step tenv tmp minAge minAgeTs env None st.1 st.2).
Definition solo (st st' : Sweeper * MemStore) : Prop := st' = go st.
Definition sweeper_of (ph : SweepPhase) (queue : list Entry) (sw : Sweep) (ps : list bytes) : Sweeper * MemStore :=
  (mkSweeper ph queue (sw_batch sw) (sw_count sw) (sw_freed sw) ps, sw_store sw).

Lemma put_alone p m d s :
  exists w s', Nat.iter 4 (λ st, put_step alg env st.1 st.2) (mkPutter p m d PStart, s) = (w, s') /\
    put_at alg p env m d s = (match pu_phase w with PFailed e => Err e | _ => Ok tt end, s') /\
    (pu_phase w = PDone \/ exists e, pu_phase w = PFailed e).
Proof.
  unfold put_at. set (f := λ st : Putter * MemStore, put_step alg env st.1 st.2).
  change (Nat.iter 4 f (mkPutter p m d PStart, s)) with (f (f (f (f (mkPutter p m d PStart, s))))).
  assert (forall e s1, f (at_phase (PFailed e) (mkPutter p m d PStart), s1) = (at_phase (PFailed e) (mkPutter p m d PStart), s1)) as Hf by done.
  change (f (mkPutter p m d PStart, s)) with (put_step alg env (mkPutter p m d PStart) s).
  unfold put_step at 1, put_file. cbn [pu_phase pu_mid pu_data].
  unfold mbind, M_bind. destruct (enter s) as [[[]|e] s1]; [|cbn iota beta; rewrite !Hf; do 2 eexists; split; [done|]; eauto].
  destruct (guard_error (IsZero m) _ s1) as [[[]|e] s2]; [|cbn iota beta; rewrite !Hf; do 2 eexists; split; [done|]; eauto].
  destruct (liftr (verifyContent alg m d) s2) as [[[]|e] s3]; [|cbn iota beta; rewrite !Hf; do 2 eexists; split; [done|]; eauto].
  destruct (put_value env m d s3) as [[val|e] s4]; [|cbn iota beta; rewrite !Hf; do 2 eexists; split; [done|]; eauto].
  change (f (at_phase (PFiled val) (mkPutter p m d PStart), s4)) with (put_step alg env (mkPutter p m d (PFiled val)) s4).
  unfold put_step at 1, put_commit. cbn [pu_phase pu_mid pu_data pu_ns].
  destruct (on_db _ s4) as [[[]|e] s5]; do 2 eexists; (split; [reflexivity|]); (split; [done|]); [by left|right; by eexists].
Qed.

Lemma solo_next st st' : st' = go st -> rtc solo st st'.
Proof. intros ->. by apply rtc_once. Qed.

(** one round of the loop *)
Lemma sweep_key_alone q queue sw ps r sw' :
  sweep_key env tenv tmp minAge minAgeTs q.1 q.2 sw = (r, sw') ->
  exists ps', rtc solo (sweeper_of SNext (q :: queue) sw ps)
    (sweeper_of (match r with Ok _ => SNext | Err e => SDone (Err e) end) queue sw' ps').
Proof.
  unfold sweep_key. fold (raw_key q). unfold doomed, spared.
  assert (forall ps1, (let sw1 := mkSweep (unlink (raw_key q) (sw_store sw)) (sw_batch sw ++ [BDel q.2.1]) (sw_count sw + 1)
       (u64 (sw_freed sw + u64 (zlen q.2.1 + value_size (sw_store sw) q.2.2))) in
     if 1000 <=? sw_count sw1 then flush env sw1 else (Ok tt, sw1)) = (r, sw') ->
    rtc solo (sweeper_of (SRemove q) queue sw ps1)
      (sweeper_of (match r with Ok _ => SNext | Err e => SDone (Err e) end) queue sw' ps1)) as Hrm.
  { intros ps1 E. eapply rtc_l; [reflexivity|]. eapply rtc_l; [reflexivity|].
    unfold sweep_step at 1. cbn [sr_phase sweeper_of fst snd]. unfold sweep_step. cbn [fst snd sr_phase sr_count].
    cbn zeta in E. cbn [sw_count sw_batch sw_store] in E. destruct (1000 <=? sw_count sw + 1).
    2:{ injection E as <- <-. reflexivity. }
    unfold flush in E. cbn [sw_batch sw_store sw_freed] in E. cbn [sr_batch].
    destruct (Commit env _ _) as [[[]|e] d]; injection E as <- <-; reflexivity. }
  intros E. destruct (isReachable tenv tmp (raw_key q)) eqn:Er; cbn [negb andb] in E.
  { injection E as <- <-. exists ps. apply solo_next. unfold sweep_step. cbn [fst snd sr_phase sr_queue sweeper_of].
    by rewrite Er. }
  destruct (FromMultihash CodecRaw (raw_key q)) as [m|e] eqn:Em; cbn [negb] in E.
  2:{ exists (raw_key q :: ps). eapply rtc_l; [reflexivity|]. unfold sweep_step at 1.
      cbn [fst snd sr_phase sr_queue sweeper_of]. rewrite Er, Em. by apply Hrm. }
  set (ts := match written_at env (sw_store sw) m with Ok ts => ts | Err _ => 0 end) in *.
  set (b := match ms_tracker (sw_store sw) with Some g => IsProtected env m ts minAge g | None => false end) in *.
  assert (rtc solo (sweeper_of SNext (q :: queue) sw ps) (sweeper_of (SJudge q m ts) queue sw ps)) as Hj.
  { apply solo_next. unfold sweep_step. cbn [fst snd sr_phase sr_queue sweeper_of]. by rewrite Er, Em. }
  destruct b eqn:Eb; cbn [orb negb] in E.
  { injection E as <- <-. exists ps. etrans; [apply Hj|]. apply solo_next. unfold sweep_step.
    cbn [fst snd sr_phase sweeper_of]. fold b. by rewrite Eb. }
  assert (rtc solo (sweeper_of (SJudge q m ts) queue sw ps)
    (sweeper_of (if 0 <? minAgeTs then SAge q m else SRemove q) queue sw (raw_key q :: ps))) as Ha.
  { apply solo_next. unfold sweep_step. cbn [fst snd sr_phase sweeper_of]. fold b. by rewrite Eb. }
  destruct (0 <? minAgeTs); cbn [andb] in E.
  - set (c := match written_at env (sw_store sw) m with Ok ts => minAgeTs <=? ts | Err _ => false end) in *.
    exists (raw_key q :: ps). etrans; [apply Hj|]. etrans; [apply Ha|].
    eapply rtc_l; [reflexivity|]. unfold sweep_step at 1. cbn [fst snd sr_phase sweeper_of]. fold c.
    destruct c; cbn [negb] in E; [by injection E as <- <-|]. by apply Hrm.
  - exists (raw_key q :: ps). etrans; [apply Hj|]. etrans; [apply Ha|]. by apply Hrm.
Qed.

(** the whole sweep *)
Lemma sweep_alone queue poll sw ps :
  let done := match sweep env tenv (λ _, None) tmp minAge minAgeTs poll queue sw with
    | (Err e, sw) => (Err e, sw_store sw)
    | (Ok _, sw) => finish env sw
    end in
  exists st, rtc solo (sweeper_of SNext queue sw ps) st /\ sr_phase st.1 = SDone done.1 /\ st.2 = done.2.
Proof.
  cbn zeta. revert poll sw ps. induction queue as [|[p e] queue IH]; intros poll sw ps; cbn [sweep].
  - eexists. split; [by apply solo_next|]. unfold sweep_step, finish.
    cbn [fst snd sr_phase sr_queue sweeper_of sr_count sr_batch sr_freed].
    destruct (0 <? sw_count sw); [destruct (Commit env _ _) as [[[]|e] d]|]; split; reflexivity.
  - destruct (sweep_key env tenv tmp minAge minAgeTs p e sw) as [[[]|err] sw'] eqn:E.
    + destruct (sweep_key_alone (p, e) queue sw ps _ _ E) as [ps' Hk].
      destruct (IH (S poll) sw' ps') as (st & Hrun & Hph). exists st. split; [|done]. by etrans.
    + destruct (sweep_key_alone (p, e) queue sw ps _ _ E) as [ps' Hk]. eexists. split; [exact Hk|]. split; done.
Qed.
End solo.

(** ** What survives *)
Section race.
Context `{Floats, Multiformats} `{!MultiformatsLaws} `{Protos}.
Context (alg : Z) (Halg : isSupportedHash alg = true) `{!CollisionFree alg}.
Context (tenv : Env) (tmp : DB) (minAge minAgeTs : Z).
Implicit Types (s : MemStore) (m : MID) (h v : bytes).

(** [m] was recorded by the tracker of a running collection *)
Definition recorded m s : Prop := exists g,
  ms_tracker s = Some g /\ gcActive g = true /\ String m ∈ activeBuffer g.
Definition collecting s : Prop := exists g, ms_tracker s = Some g /\ gcActive g = true.
Definition filed m (d : bytes) s : Prop :=
  has_files s = true -> LargeBlockThreshold <= zlen d -> ms_files s !! blockPath m = Some d.
Definition keyed h s : Prop := exists p, block_ns p /\ is_Some (kv (ms_db s) !! (p ++ h)).
(** the bloom filter is well formed *)
Definition sized s : Prop :=
  match ms_bloom s with
  | Some b => match bi_cbf b with Some c => exists items, represents c items | None => True end
  | None => True
  end.
(** the store apart from its bloom filter, which lags behind the database *)
Definition bare s : MemStore := set_bloom None s.

Definition entry_ok (q : Entry) : Prop := block_ns q.1 /\ exists h, q.2.1 = q.1 ++ h.
Definition phase_ok (ps : list bytes) (ph : SweepPhase) : Prop :=
  match ph with
  | SJudge q m _ => entry_ok q /\ FromMultihash CodecRaw (raw_key q) = Ok m
  | SAge q _ | SRemove q => entry_ok q /\ raw_key q ∈ ps
  | _ => True
  end.
Record sweeper_ok (sr : Sweeper) : Prop := {
  so_queue : Forall entry_ok (sr_queue sr);
  so_phase : phase_ok (sr_passed sr) (sr_phase sr);
  so_batch o : o ∈ sr_batch sr -> exists p h, block_ns p /\ o = BDel (p ++ h) /\ h ∈ sr_passed sr;
}.
(** what a writer has done so far is still there, unless the sweep has passed its block *)
Definition putter_ok (ps : list bytes) s (w : Putter) : Prop :=
  let m := pu_mid w in let d := pu_data w in
  block_ns (pu_ns w) /\ wf_mid m /\
  match pu_phase w with
  | PStart | PFailed _ => True
  | PFiled v => names alg m d /\ v = value_of s d /\ (Hash m ∉ ps -> filed m d s)
  | PCommitted => names alg m d /\ (Hash m ∉ ps -> filed m d s /\ keyed (Hash m) s)
  | PIndexed => names alg m d /\ maybe m s = true /\ (Hash m ∉ ps -> filed m d s /\ keyed (Hash m) s)
  | PDone => names alg m d /\ maybe m s = true /\ recorded m s /\
      (Hash m ∉ ps -> filed m d s /\ keyed (Hash m) s)
  end.
Record race_inv (st : Race) : Prop := {
  ri_store : store_inv alg (bare (ra_store st));
  ri_open : store_open (ra_store st);
  ri_bloom : sized (ra_store st);
  ri_tracker : collecting (ra_store st);
  ri_sweeper : sweeper_ok (ra_sweeper st);
  ri_putters : Forall (putter_ok (sr_passed (ra_sweeper st)) (ra_store st)) (ra_putters st);
}.

(** what a step leaves of the store, for the blocks that are not among [ps] *)
Record keeps (ps : list bytes) s s' : Prop := {
  k_files : has_files s' = has_files s;
  k_filed m d : wf_mid m -> names alg m d -> Hash m ∉ ps -> filed m d s -> filed m d s';
  k_keyed h : h ∉ ps -> keyed h s -> keyed h s';
  k_maybe m : maybe m s = true -> maybe m s' = true;
  k_recorded m : recorded m s -> recorded m s';
  k_open : store_open s -> store_open s';
  k_sized : sized s -> sized s';
  k_tracker : collecting s -> collecting s';
}.
Lemma keeps_refl ps s : keeps ps s s.
Proof. by split. Qed.
Lemma putter_ok_mono ps ps' s s' w :
  ps ⊆ ps' -> keeps ps' s s' -> putter_ok ps s w -> putter_ok ps' s' w.
Proof.
  intros Hps Hk (Hp & Hm & Hw). split_and!; [done..|].
  assert (names alg (pu_mid w) (pu_data w) -> (Hash (pu_mid w) ∉ ps -> filed (pu_mid w) (pu_data w) s) ->
    Hash (pu_mid w) ∉ ps' -> filed (pu_mid w) (pu_data w) s') as Hf.
  { intros Hn Hf Hnin. apply Hk; [done..|]. apply Hf. set_solver. }
  assert ((Hash (pu_mid w) ∉ ps -> keyed (Hash (pu_mid w)) s) -> Hash (pu_mid w) ∉ ps' ->
    keyed (Hash (pu_mid w)) s') as Hky.
  { intros Hy Hnin. apply Hk; [done..|]. apply Hy. set_solver. }
  destruct (pu_phase w) as [|v| | | |e]; [done| | | | |done].
  - destruct Hw as (Hn & -> & Hw). split_and!; [done|unfold value_of; by rewrite (k_files _ _ _ Hk)|by apply Hf].
  - destruct Hw as (Hn & Hw). split; [done|]. intros Hnin. split; [by apply Hf; [|intros; apply Hw|]|].
    by apply Hky; [intros; apply Hw|].
  - destruct Hw as (Hn & Hb & Hw). split_and!; [done|by apply Hk|]. intros Hnin.
    split; [by apply Hf; [|intros; apply Hw|]|by apply Hky; [intros; apply Hw|]].
  - destruct Hw as (Hn & Hb & Hr & Hw). split_and!; [done|by apply Hk..|]. intros Hnin.
    split; [by apply Hf; [|intros; apply Hw|]|by apply Hky; [intros; apply Hw|]].
Qed.

(** *** Steps of the sweep *)
Lemma apply_del_free (k : bytes) (b : list batch_op) (D : gmap bytes bytes) :
  (forall o, o ∈ b -> exists k', o = BDel k' /\ k' ≠ k) -> foldl apply_op D b !! k = D !! k.
Proof.
  revert D. induction b as [|o b IH]; intros D Hb; [done|]. cbn [foldl].
  destruct (Hb o) as (k' & -> & Hne); [by left|]. rewrite IH by (intros o Ho; apply Hb; by right).
  by apply lookup_delete_ne.
Qed.
Lemma apply_del_sub (b : list batch_op) (D : gmap bytes bytes) (k : bytes) v :
  (forall o, o ∈ b -> exists k', o = BDel k') -> foldl apply_op D b !! k = Some v -> D !! k = Some v.
Proof.
  revert D. induction b as [|o b IH]; intros D Hb; [done|]. cbn [foldl].
  destruct (Hb o) as (k' & ->); [by left|]. intros E%IH; [|intros o Ho; apply Hb; by right].
  cbn [apply_op] in E. by apply lookup_delete_Some in E as [_ ?].
Qed.
(** a commit of the queued deletions *)
Lemma commit_keeps env sr s r d :
  sweeper_ok sr -> store_inv alg (bare s) -> Commit env (sr_batch sr) (ms_db s) = (r, d) ->
  keeps (sr_passed sr) s (set_db d s) /\ store_inv alg (bare (set_db d s)).
Proof.
  intros Hsr Hs. unfold Commit. destruct (io_commit env).
  { intros [= <- <-]. replace (set_db (ms_db s) s) with s by by destruct s. by split; [apply keeps_refl|]. }
  intros [= <- <-]. split.
  - split; try done.
    + intros h Hh (p & Hp & Hk). exists p. split; [done|]. cbn [ms_db set_db kv].
      rewrite apply_del_free; [done|]. intros o (p' & h' & Hp' & -> & Hin)%(so_batch sr Hsr).
      eexists. split; [done|]. intros [_ ->]%ns_inj; [done..].
  - split; [|apply Hs|done]. intros p h v Hp E. apply (si_stored alg _ Hs p h v Hp).
    cbn [bare set_bloom set_db ms_db kv] in E. eapply apply_del_sub; [|exact E].
    intros o (p' & h' & _ & -> & _)%(so_batch sr Hsr). by eexists.
Qed.
Lemma unlink_keeps h ps s : h ∈ ps -> store_inv alg (bare s) ->
  keeps ps s (unlink h s) /\ store_inv alg (bare (unlink h s)).
Proof.
  intros Hh Hs. unfold unlink. destruct (FromMultihash CodecRaw h) as [m|] eqn:E; [|by split; [apply keeps_refl|]].
  apply FromMultihash_wf in E as (Hm & _ & Eh); [|done]. unfold remove_file.
  destruct (has_files s) eqn:Ef; [|by split; [apply keeps_refl|]]. split.
  - split; try done. intros m' d Hm' _ Hnin Hf Hx Hb. cbn [ms_files set_files].
    rewrite lookup_delete_ne; [by apply Hf|]. intros Ep%blockPath_inj; [|done..]. subst m'. by rewrite Eh in Hnin.
  - split; [apply Hs| |done]. intros m' d Hm'. cbn [bare set_bloom set_files ms_files].
    intros [_ El]%lookup_delete_Some. by apply (si_files alg _ Hs).
Qed.

(** the tracker protects what it recorded *)
Lemma recorded_protected env m s ts : wf_mid m -> recorded m s ->
  match ms_tracker s with Some g => IsProtected env m ts minAge g | None => false end = true.
Proof.
  intros Hm (g & -> & Ha & Hb). unfold IsProtected. by rewrite wf_not_zero, Ha, bool_decide_eq_true_2 by done.
Qed.

Lemma sweep_step_ok env poll sr s sr' s' :
  sweeper_ok sr -> store_inv alg (bare s) -> store_open s ->
  sweep_step tenv tmp minAge minAgeTs env poll sr s = (sr', s') ->
  sweeper_ok sr' /\ store_inv alg (bare s') /\ keeps (sr_passed sr') s s' /\ sr_passed sr ⊆ sr_passed sr'.
Proof.
  intros Hsr Hs Ho. unfold sweep_step.
  assert (forall ph, phase_ok (sr_passed sr) ph -> sweeper_ok (to_phase ph sr)) as Hto
    by (intros ph Hph; split; [apply Hsr|done|apply Hsr]).
  assert (forall ph, phase_ok (sr_passed sr) ph -> (to_phase ph sr, s) = (sr', s') ->
    sweeper_ok sr' /\ store_inv alg (bare s') /\ keeps (sr_passed sr') s s' /\ sr_passed sr ⊆ sr_passed sr') as Hstay.
  { intros ph Hph [= <- <-]. split_and!; [by apply Hto|done|apply keeps_refl|done]. }
  pose proof (so_phase sr Hsr) as Hph. destruct (sr_phase sr) as [| |q m ts|q m|q| |r] eqn:Eph.
  - unfold db_NewIter. destruct Ho as [_ ->]. destruct (io_iter env); [by apply Hstay|].
    intros [= <- <-]. split_and!; [|done|apply keeps_refl|done]. split; [|done|by intros ? ?%not_elem_of_nil].
    apply wf_sweep_queue.
  - destruct (sr_queue sr) as [|q queue] eqn:Eq.
    + destruct (0 <? sr_count sr); [|by apply Hstay].
      destruct (Commit env (sr_batch sr) (ms_db s)) as [[[]|e] d] eqn:Ec; intros [= <- <-];
        destruct (commit_keeps env sr s _ d Hsr Hs Ec); split_and!; try done; by apply Hto.
    + pose proof (so_queue sr Hsr) as Hq. rewrite Eq in Hq. apply Forall_cons in Hq as [Hq Hqs].
      assert (forall ph ps, phase_ok ps ph -> sr_passed sr ⊆ ps ->
        sweeper_ok (mkSweeper ph queue (sr_batch sr) (sr_count sr) (sr_freed sr) ps)) as Hnew.
      { intros ph ps Hp Hps. split; [done..|]. intros o (p & h & ? & ? & ?)%(so_batch sr Hsr). exists p, h. set_solver. }
      destruct poll as [err|]; [intros [= <- <-]; split_and!; [by apply Hnew|done|apply keeps_refl|done]|].
      destruct (isReachable tenv tmp (raw_key q)).
      { intros [= <- <-]; split_and!; [by apply Hnew|done|apply keeps_refl|done]. }
      destruct (FromMultihash CodecRaw (raw_key q)) as [m|] eqn:Em; intros [= <- <-];
        (split_and!; [|done|apply keeps_refl|set_solver]); apply Hnew; set_solver.
  - destruct Hph as [Hq Em]. destruct (match ms_tracker s with Some g => _ | None => _ end); [by apply Hstay|].
    intros [= <- <-]. split_and!; [|done|apply keeps_refl|set_solver]. split; [apply Hsr| |].
    + cbn [sr_passed sr_phase to_phase passed]. destruct (0 <? minAgeTs); (split; [done|by left]).
    + intros o (p & h & ? & ? & ?)%(so_batch sr Hsr). exists p, h. split_and!; [done..|by right].
  - destruct (match written_at env s m with Ok t => _ | Err _ => _ end); by apply Hstay.
  - destruct Hph as [(Hp & h & Eh) Hin]. intros [= <- <-].
    destruct (unlink_keeps (raw_key q) (sr_passed sr) s Hin Hs). split_and!; [|done..].
    split; [apply Hsr|done|]. cbn [sr_batch sr_passed].
    intros o [Ho'| ->%list_elem_of_singleton]%elem_of_app; [by apply (so_batch sr Hsr)|].
    exists q.1, (raw_key q). split_and!; [done| |done]. unfold raw_key. by rewrite Eh, drop_app_length.
  - destruct (1000 <=? sr_count sr); [|by apply Hstay].
    assert (forall ph, phase_ok (sr_passed sr) ph -> sweeper_ok (to_phase ph (emptied sr))) as Hte
      by (intros ph Hp; split; [apply Hsr|done|by intros ? ?%not_elem_of_nil]).
    destruct (Commit env (sr_batch sr) (ms_db s)) as [[[]|e] d] eqn:Ec; intros [= <- <-];
      destruct (commit_keeps env sr s _ d Hsr Hs Ec); (split_and!; [by apply Hte|done..]).
  - intros [= <- <-]. split_and!; [done..|apply keeps_refl|done].
Qed.

(** *** Steps of a writer *)
Lemma file_step ps s m d f' :
  store_inv alg (bare s) -> wf_mid m -> names alg m d -> files_grow s m d f' ->
  keeps ps s (set_files f' s) /\ store_inv alg (bare (set_files f' s)).
Proof using All.
  intros Hs Hm Hn Hg. split.
  - split; try done. intros m' d' Hm' Hn' _ Hf Hx Hb. cbn [ms_files set_files].
    destruct Hg as [Ho Hself]. destruct (decide (blockPath m' = blockPath m)) as [Ep|Hne]; [|rewrite Ho by done; by apply Hf].
    specialize (Hf Hx Hb). apply blockPath_inj in Ep as ->; [|done..].
    destruct Hself as [->|[-> _]]; [done|]. f_equal. exact (names_unique alg Halg m d d' Hn Hn').
  - split; [apply Hs| |done]. intros m' d' Hm'. apply (files_grow_inv alg (bare s) m d f' m' d'); try done. by destruct Hg.
Qed.
Lemma commit_step ps env p s m d :
  store_inv alg (bare s) -> block_ns p -> wf_mid m -> names alg m d ->
  let s' := set_db (mkDB (new_kv p env m d s) (db_closed (ms_db s))) s in
  keeps ps s s' /\ store_inv alg (bare s') /\ keyed (Hash m) s'.
Proof.
  intros Hs Hp Hm Hn s'.
  assert (forall p' h, block_ns p' -> kv (ms_db s') !! (p' ++ h) =
    if decide (p' = p /\ h = Hash m) then Some (value_of s d) else kv (ms_db s) !! (p' ++ h)) as Hkv.
  { intros p' h Hp'. unfold s'. cbn [ms_db set_db kv]. by apply (new_kv_ns p p' env m d s h). }
  split_and!.
  - split; try done. intros h _ (p' & Hp' & Hk). exists p'. split; [done|]. rewrite Hkv by done. by destruct (decide _).
  - split; [|apply Hs|done]. intros p' h v Hp' E. change (kv (ms_db s') !! (p' ++ h) = Some v) in E.
    rewrite Hkv in E by done. destruct (decide _) as [[-> ->]|]; [|by apply (si_stored alg _ Hs p')].
    injection E as <-. by apply (value_of_stored alg s).
  - exists p. split; [done|]. rewrite Hkv, decide_True by done. by eexists.
Qed.
Lemma index_step ps s m : wf_mid m -> sized s -> store_inv alg (bare s) ->
  keeps ps s (index_block m s) /\ store_inv alg (bare (index_block m s)) /\ maybe m (index_block m s) = true.
Proof.
  intros Hm Hz Hs. split_and!.
  - split; try done.
    + intros m'. apply (maybe_track m m' s).
    + unfold sized, index_block. cbn [ms_bloom set_bloom]. destruct (ms_bloom s) as [b|]; [|done].
      cbn [fmap option_fmap option_map]. unfold bloom_add. rewrite wf_not_zero by done. cbn [bi_cbf set_cbf].
      destruct (bi_cbf b); [|done]. intros [items Hr]. exists (Hash m :: items).
      apply represents_Add; [by apply wf_Hash_ne|done].
  - split; [apply Hs|apply Hs|done].
  - unfold sized in Hz. unfold maybe, index_block. cbn [ms_bloom set_bloom]. destruct (ms_bloom s) as [b|]; [|done].
    cbn [fmap option_fmap option_map]. unfold maybeTest, bloom_add. rewrite wf_not_zero by done. cbn [bi_cbf set_cbf].
    destruct (bi_cbf b) as [c|]; [|done]. destruct Hz as [items Hr]. cbn [fmap option_fmap option_map].
    apply (represents_Test _ _ (Hash m :: items)); [|by left]. apply represents_Add; [by apply wf_Hash_ne|done].
Qed.
Lemma record_step ps s m : wf_mid m -> collecting s -> store_inv alg (bare s) ->
  keeps ps s (record_block m s) /\ store_inv alg (bare (record_block m s)) /\ recorded m (record_block m s).
Proof.
  intros Hm (g & Hg & Ha) Hs.
  assert (ms_tracker (record_block m s) = Some (mkTracker true ({[String m]} ∪ activeBuffer g) (gracePeriod g))) as Ht.
  { unfold record_block, RecordWrite. cbn [ms_tracker set_tracker]. rewrite Hg. cbn [fmap option_fmap option_map]. by rewrite wf_not_zero, Ha by done. }
  split_and!.
  - split; try done.
    + intros m' (g' & E & _ & Hin). rewrite Hg in E. injection E as <-. eexists. split; [exact Ht|]. split; [done|].
      apply elem_of_union. by right.
    + intros _. eexists. by split; [exact Ht|].
  - split; [apply Hs|apply Hs|done].
  - eexists. split; [exact Ht|]. split; [done|]. apply elem_of_union. left. by apply elem_of_singleton.
Qed.

Lemma put_step_ok env ps w s w' s' :
  putter_ok ps s w -> store_inv alg (bare s) -> sized s -> collecting s ->
  put_step alg env w s = (w', s') ->
  putter_ok ps s' w' /\ store_inv alg (bare s') /\ keeps ps s s'.
Proof using All.
  intros Hw Hs Hz Hg. pose proof Hw as (Hp & Hm & Hph). unfold put_step.
  assert (forall ph, (ph = PStart \/ exists e, ph = PFailed e) -> forall s1, putter_ok ps s1 (at_phase ph w)) as Htriv
    by (intros ph [->|[e ->]] s1; done).
  destruct w as [p m d ph]. cbn [pu_phase pu_ns pu_mid pu_data] in *. destruct ph as [|v| | | |e].
  - unfold put_file, mbind, M_bind, enter. fold (closed_or_nil s).
    destruct (closed_or_nil s); [intros [= <- <-]; by split_and!; [apply Htriv; eauto| |apply keeps_refl]|].
    unfold guard_error. rewrite wf_not_zero by done. unfold liftr.
    destruct (verifyContent alg m d) as [[]|e] eqn:Ev;
      [|intros [= <- <-]; by split_and!; [apply Htriv; eauto| |apply keeps_refl]].
    apply verifyContent_ok_inv in Ev. destruct (put_value env m d s) as [rv s1] eqn:Ep.
    apply put_value_spec in Ep as (f' & -> & Ho' & Hv & Hself).
    destruct (file_step ps s m d f' Hs Hm Ev) as [Hk Hi]; [by split|].
    destruct rv as [v|e]; intros [= <- <-]; [|by split_and!; [apply Htriv; eauto| |]]. split_and!; [|done..].
    split_and!; [done..|]. cbn [pu_phase at_phase pu_mid pu_data]. specialize (Hv v eq_refl). unfold value_of, filed.
    change (has_files (set_files f' s)) with (has_files s).
    destruct (has_files s && (LargeBlockThreshold <=? zlen d)) eqn:Eb.
    + destruct Hv as [-> Hf]. by split_and!.
    + destruct Hv as [-> _]. split_and!; [done..|]. intros _ Hf Hb%Z.leb_le. by rewrite Hf, Hb in Eb.
  - destruct Hph as (Hn & -> & Hf). unfold put_commit, on_db, Commit. destruct (io_commit env) as [e|].
    { intros [= <- <-]. replace (set_db (ms_db s) s) with s by by destruct s.
      by split_and!; [apply Htriv; eauto| |apply keeps_refl]. }
    intros [= <- <-]. destruct (commit_step ps env p s m d Hs Hp Hm Hn) as (Hk & Hi & Hkey).
    split_and!; [|done..]. split_and!; [done..|]. cbn [pu_phase at_phase pu_mid pu_data]. split; [done|].
    intros Hnin. split; [|done]. by apply Hf.
  - destruct Hph as (Hn & Hf). intros [= <- <-]. destruct (index_step ps s m Hm Hz Hs) as (Hk & Hi & Hb).
    split_and!; [|done..]. by split_and!.
  - destruct Hph as (Hn & Hb & Hf). intros [= <- <-]. destruct (record_step ps s m Hm Hg Hs) as (Hk & Hi & Hr).
    split_and!; [|done..]. by split_and!.
  - intros [= <- <-]. by split_and!; [| |apply keeps_refl].
  - intros [= <- <-]. by split_and!; [| |apply keeps_refl].
Qed.

(** *** Runs *)
#[local] Abbreviation step := (race_step alg tenv tmp minAge minAgeTs).
Lemma race_step_inv st st' : race_inv st -> step st st' -> race_inv st'.
Proof using All.
  intros [Hs Ho Hz Hg Hsr Hws] Hst. destruct Hst as [env poll sr s ws sr' s' E|env i w s sr ws w' s' Hi E];
    cbn [ra_store ra_sweeper ra_putters] in *.
  - destruct (sweep_step_ok env poll sr s sr' s' Hsr Hs Ho E) as (Hsr' & Hs' & Hk & Hps).
    split; cbn [ra_store ra_sweeper ra_putters]; [done|by apply Hk..|done|].
    eapply Forall_impl; [apply Hws|]. intros w. by apply putter_ok_mono.
  - pose proof (Forall_lookup_1 _ _ _ _ Hws Hi) as Hw.
    destruct (put_step_ok env _ w s w' s' Hw Hs Hz Hg E) as (Hw' & Hs' & Hk).
    split; cbn [ra_store ra_sweeper ra_putters]; [done|by apply Hk..|done|].
    apply Forall_insert; [|done]. eapply Forall_impl; [apply Hws|]. intros w1. by apply putter_ok_mono.
Qed.
Lemma race_run_inv st st' : race_inv st -> rtc step st st' -> race_inv st'.
Proof using All. intros Hi Hrun. induction Hrun as [|st st2 st3 Hst _ IH]; [done|]. by eapply IH, race_step_inv. Qed.

Lemma race_start_inv s jobs :
  sound alg s -> is_Some (ms_tracker s) -> Forall (λ j, block_ns j.1.1 /\ wf_mid j.1.2) jobs ->
  race_inv (race_start s jobs).
Proof.
  intros [Hs Ho] [g Hg] Hjobs. split; cbn [ra_store ra_sweeper ra_putters race_start].
  - split; [apply Hs|apply Hs|done].
  - done.
  - pose proof (si_bloom alg s Hs) as Hb. unfold sized. unfold bloom_covers in Hb.
    change (ms_bloom (track_with StartGC s)) with (ms_bloom s). destruct (ms_bloom s) as [b|]; [|done].
    destruct (bi_cbf b); [|done]. destruct Hb as (items & ? & _). by exists items.
  - exists (StartGC g). split; [|done]. unfold track_with. cbn [ms_tracker set_tracker]. by rewrite Hg.
  - split; [constructor|done|by intros ? ?%not_elem_of_nil].
  - apply Forall_fmap. eapply Forall_impl; [apply Hjobs|]. by intros [[p m] d] [? ?].
Qed.

(** a finished writer stays, and the sweep does not pass what it recorded *)
Lemma settled_step i p m d st st' :
  race_inv st -> Codec m = CodecRaw -> step st st' ->
  ra_putters st !! i = Some (mkPutter p m d PDone) -> Hash m ∉ sr_passed (ra_sweeper st) ->
  ra_putters st' !! i = Some (mkPutter p m d PDone) /\ Hash m ∉ sr_passed (ra_sweeper st').
Proof.
  intros [Hs Ho Hz Hg Hsr Hws] Hc Hst Hi Hnin.
  destruct Hst as [env poll sr s ws sr' s' E|env j w s sr ws w' s' Hj E]; cbn [ra_store ra_sweeper ra_putters] in *.
  2:{ split; [|done]. destruct (decide (i = j)) as [->|Hne]; [|by rewrite list_lookup_insert_ne].
      rewrite Hi in Hj. injection Hj as <-. injection E as <- <-. rewrite list_lookup_insert_eq; [done|].
      by eapply lookup_lt_Some. }
  split; [done|]. pose proof (Forall_lookup_1 _ _ _ _ Hws Hi) as (Hp & Hm & Hn & _ & Hr & _). cbn [pu_mid pu_data] in *.
  assert (FromMultihash CodecRaw (Hash m) = Ok m) as Hfm.
  { rewrite FromMultihash_ok by (done || apply Hm). f_equal. destruct Hm as [Hx1 _ _ Hx2], m.
    unfold Codec in Hc. simpl in *. by subst. }
  pose proof (so_phase sr Hsr) as Hph. revert E. unfold sweep_step.
  destruct (sr_phase sr) as [| |q m' ts|q m'|q| |r].
  - destruct (db_NewIter env (ms_db s)); by intros [= <- <-].
  - destruct (sr_queue sr) as [|q queue].
    + destruct (0 <? sr_count sr); [|by intros [= <- <-]]. destruct (Commit _ _ _) as [[]]; by intros [= <- <-].
    + destruct poll; [by intros [= <- <-]|]. destruct (isReachable tenv tmp (raw_key q)); [by intros [= <- <-]|].
      destruct (FromMultihash CodecRaw (raw_key q)) eqn:Em; intros [= <- <-]; [done|].
      cbn [sr_passed to_phase passed]. intros [E|?]%elem_of_cons; [|done]. congruence.
  - destruct Hph as [_ Em]. destruct (match ms_tracker s with Some g => _ | None => _ end) eqn:Et; [by intros [= <- <-]|].
    intros [= <- <-]. cbn [sr_passed to_phase passed]. intros [E|?]%elem_of_cons; [|done].
    rewrite <-E, Hfm in Em. injection Em as <-. pose proof (recorded_protected env m s ts Hm Hr). congruence.
  - destruct (match written_at env s m' with Ok t => _ | Err _ => _ end); by intros [= <- <-].
  - by intros [= <- <-].
  - destruct (1000 <=? sr_count sr); [|by intros [= <- <-]]. destruct (Commit _ _ _) as [[]]; by intros [= <- <-].
  - by intros [= <- <-].
Qed.

End race.

(** ** Schedules *)
Section schedules.
Context `{Floats, Multiformats, Protos}.
Context (alg : Z) (env tenv : Env) (tmp : DB) (minAge minAgeTs : Z).
(** [None] is a step of the sweep, [Some i] one of the [i]-th writer *)
Definition race_at (st : Race) (o : option nat) : Race :=
  match o with
  | None =>
      let '(sr, s) := sweep_step tenv tmp minAge minAgeTs env None (ra_sweeper st) (ra_store st) in
      mkRace s sr (ra_putters st)
  | Some i =>
      match ra_putters st !! i with
      | None => st
      | Some w => let '(w, s) := put_step alg env w (ra_store st) in
                  mkRace s (ra_sweeper st) (<[i := w]> (ra_putters st))
      end
  end.
Definition race_run (sched : list (option nat)) (st : Race) : Race := foldl race_at st sched.
Lemma race_run_steps sched st : rtc (race_step alg tenv tmp minAge minAgeTs) st (race_run sched st).
Proof.
  revert st. induction sched as [|o sched IH]; intros st; [constructor|]. change (race_run (o :: sched) st) with (race_run sched (race_at st o)).
  destruct o as [i|]; cbn [race_at].
  - destruct (ra_putters st !! i) as [w|] eqn:Ei; [|apply IH].
    destruct (put_step alg env w (ra_store st)) as [w' s'] eqn:E. eapply rtc_l; [|apply IH].
    destruct st as [s sr ws]. by eapply race_put.
  - destruct (sweep_step _ _ _ _ _ _ _ _) as [sr' s'] eqn:E. eapply rtc_l; [|apply IH].
    destruct st as [s sr ws]. by eapply race_sweep.
Qed.
End schedules.

(** the marking has reached the sealed [a] *)
Definition demo_marked : DB := mkDB {[Hash (demo_mid "a") := [Byte.x01]]} false.
Definition demo_race : list (option nat) -> Race -> Race :=
  race_run BLAKE3 (calm 8) (calm 8) demo_marked 0 0.


(** The sweep has found the unsealed [b] unprotected; [b] is written again, its [Put]
    returns without an error and is recorded; the final commit deletes it. *)
Definition window_open : Race :=
  demo_race (replicate 5 None ++ replicate 4 (Some 0))%nat (race_start demo_gc [(PrefixBlock, demo_mid "b", lit "b")]).
Lemma GC_loses_pending_write :
  ra_putters window_open = [mkPutter PrefixBlock (demo_mid "b") (lit "b") PDone] /\
  sr_passed (ra_sweeper window_open) = [Hash (demo_mid "b")] /\
  Get (calm 8) None (demo_mid "b") (ra_store window_open) = Ok (lit "b") /\
  let st := demo_race (replicate 20 None) window_open in
  sr_phase (ra_sweeper st) = SDone (Ok 6) /\
  Get (calm 8) None (demo_mid "b") (ra_store st) = Err ErrNotFound.
Proof. vm_compute. done. Qed.
