(* ===== verification/Delete.v ===== *)
(** * Recursive deletion and object listing (src/core/store/seal.go: DeleteRecursive,
    AllObjectMIDs)

    [collect_all] follows descriptors, MemFS nodes, DAG links and recorded erasure shards
    from a root; the keys are then deleted in batches of 100 and the bloom index is
    rebuilt.  The order of the Go map of reachable MIDs is a parameter. *)
From S2P Require Import Prelude Mid Wire Blockstore Objects Memstore Bloom Db MemStore Seal Gc.

Section delete_ops_def.
Context `{Floats, Multiformats, Protos}.
Context (env : Env) (hooks : option StoreHooks) (fuel : nat).
Definition object_children (m : MID) (data : bytes) : list MID :=
  let desc := match tryParseDescriptor data with
    | Ok d => if bool_decide (dp_RootMid d ≠ []) && (0 <? zlen (dp_Blocks d)) then Some d else None
    | Err _ => None
    end in
  match desc with
  | Some d => rights (Parse (dp_RootMid d) :: map (λ b, Parse (db_Mid b)) (dp_Blocks d))
  | None => delete_children m data
  end.
(** [reachable]: the MIDs met, in the order they were met *)
Fixpoint collect_all (n : nat) (s : MemStore) (m : MID) (reachable : list MID) : list MID :=
  match n with
  | O => reachable
  | S n =>
      if IsZero m then reachable else
      if decide (String m ∈ map String reachable) then reachable else
      let reachable := reachable ++ [m] in
      match Get env hooks m s with
      | Err _ => reachable
      | Ok data =>
          let acc := foldl (λ acc k, collect_all n s k acc) reachable (object_children m data) in
          foldl (λ acc k, collect_all n s k acc) acc (erasureShardMIDs env s m)
      end
  end.

(** one MID of a delete batch: the operations, whether a block went, its size *)
Definition delete_one (m : MID) (s : MemStore) : list batch_op * bool * Z :=
  let probe key := match db_Get env key (ms_db s) with
    | Ok v => ([BDel key], true, value_size s v)
    | Err _ => ([], false, 0)
    end in
  let '(o1, b1, z1) := probe (BlockKey m) in
  let '(o2, b2, z2) := probe (DagKey m) in
  (o1 ++ o2 ++ [BDel (MetaKey (lit "obj/" ++ String m)); BDel (MetaKey (lit "ts/" ++ String m))],
   b1 || b2, u64 (z1 + z2)).
Fixpoint delete_batch (ms : list MID) (ops : list batch_op) (n freed : Z) (s : MemStore)
    : list batch_op * Z * Z * MemStore :=
  match ms with
  | [] => (ops, n, freed, s)
  | m :: ms =>
      let '(o, b, z) := delete_one m s in
      if b then delete_batch ms (ops ++ o) (u64 (n + 1)) (u64 (freed + z)) (remove_file m s)
      else delete_batch ms (ops ++ o) n freed s
  end.
Fixpoint delete_batches (batches : list (list MID)) (n freed : Z) : M MemStore (Z * Z) := λ s,
  match batches with
  | [] => (Ok (n, freed), s)
  | ms :: batches =>
      let '(ops, n, freed, s) := delete_batch ms [] n freed s in
      match Commit env ops (ms_db s) with
      | (Err e, d) => (Err (Wrap "store: batch delete failed" e), set_db d s)
      | (Ok _, d) => delete_batches batches n freed (set_db d s)
      end
  end.
(** [order] is the iteration order of the Go map of reachable MIDs *)
Definition delete_reachable (order : list MID -> list MID) (root : MID) : M MemStore (Z * Z) := λ s,
  let mids := order (collect_all fuel s root []) in
  match delete_batches (chunks 100 mids) 0 0 s with
  | (Err e, s) => (Err e, s)
  | (Ok res, s) =>
      match ms_bloom s with
      | None => (Ok res, s)
      | Some b =>
          match rebuildFromDB env (ms_db s) b with
          | Err e => (Err (Wrap "store: bloom rebuild after delete" e), s)
          | Ok b => (Ok res, set_bloom (Some b) s)
          end
      end
  end.
Definition DeleteRecursive (order : list MID -> list MID) (root : MID) : M MemStore (Z * Z) :=
  _ ← enter;
  _ ← guard_error (IsZero root) (New "store: zero MID");
  (λ s, delete_reachable order root (Unseal env hooks fuel root s).2) : M MemStore (Z * Z).

Context `{ObjectJSON}.
Definition AllObjectMIDs (s : MemStore) : result (list MID) :=
  if closed_or_nil s then Err (New "store: closed") else
  m ← db_NewIter env (ms_db s);
  Ok (rights (omap (λ e : bytes * bytes,
    match json_Unmarshal e.2 with
    | Ok info => if oi_IsRoot info then Some (Parse (drop (length (MetaKey (lit "obj/"))) e.1)) else None
    | Err _ => None
    end) (scan_prefix (MetaKey (lit "obj/")) m))).
End delete_ops_def.

(** ** Recursive deletion *)
Section delete_facts.
Context `{Floats, Multiformats} `{!MultiformatsLaws} `{Protos}.
Context (alg : Z) (env : Env) (hooks : option StoreHooks) (fuel : nat).
Implicit Types (s : MemStore) (m : MID) (h v : bytes).

(** entries and files only disappear, and only entries of the hashes [hs] *)
Record purged (hs : list bytes) s s' : Prop := {
  pu_frame : s' = set_files (ms_files s') (set_db (mkDB (kv (ms_db s')) (db_closed (ms_db s))) s);
  pu_kv p h : block_ns p -> kv (ms_db s') !! (p ++ h) = kv (ms_db s) !! (p ++ h) \/
    kv (ms_db s') !! (p ++ h) = None /\ h ∈ hs;
  pu_files p : ms_files s' !! p = ms_files s !! p \/ ms_files s' !! p = None;
}.
Lemma purged_refl hs s : purged hs s s.
Proof. split; [by destruct s as [[] ?]|by left..]. Qed.
Lemma purged_trans hs s1 s2 s3 : purged hs s1 s2 -> purged hs s2 s3 -> purged hs s1 s3.
Proof.
  intros [F1 K1 P1] [F2 K2 P2]. split.
  - rewrite F2, F1. done.
  - intros p h Hp. destruct (K2 p h Hp) as [->|?]; [by apply K1|by right].
  - intros p. destruct (P2 p) as [->|?]; [by apply P1|by right].
Qed.
Lemma purged_mono hs hs' s s' : (forall h, h ∈ hs -> h ∈ hs') -> purged hs s s' -> purged hs' s s'.
Proof. intros Hsub [F K P]. split; [done| |done]. intros p h Hp. destruct (K p h Hp) as [?|[??]]; auto. Qed.
Lemma purged_sound hs s s' : sound alg s -> purged hs s s' -> sound alg s'.
Proof.
  intros [[Hst Hf Hb] [Ho Hcl]] [F K P].
  assert (has_files s' = has_files s) as Hhf by by rewrite F.
  split; [|by rewrite F]. split.
  - intros p h v Hp E. destruct (K p h Hp) as [E'|[E' _]]; [|congruence]. rewrite E' in E.
    destruct (Hst p h v Hp E) as (d & Hn & Hv). exists d. by rewrite Hhf.
  - intros m d Hm E. destruct (P (blockPath m)) as [E'|E']; [|congruence]. apply Hf; [done|congruence].
  - revert Hb. unfold bloom_covers. assert (ms_bloom s' = ms_bloom s) as -> by by rewrite F.
    destruct (ms_bloom s) as [b|]; [|done]. destruct (bi_cbf b); [|done].
    intros (items & Hc & Hocc). exists items. split; [done|]. intros h Hh. specialize (Hocc h Hh).
    assert (forall p, block_ns p -> present s' p h ≤ present s p h)%nat as Hle.
    { intros p Hp. unfold present. destruct (K p h Hp) as [E|[E _]]; rewrite E; [done|].
      rewrite decide_False; [lia|by intros [? ?]]. }
    pose proof (Hle PrefixBlock ltac:(by left)). pose proof (Hle PrefixDAG ltac:(by right)). lia.
Qed.

Context (Hget : forall k, io_get env k = None).

Definition delete_ops m s : list batch_op := (delete_one env m s).1.1.
Lemma delete_ops_apply m s D p h : db_closed (ms_db s) = false -> block_ns p ->
  (forall p, block_ns p -> D !! (p ++ Hash m) = kv (ms_db s) !! (p ++ Hash m) \/ D !! (p ++ Hash m) = None) ->
  foldl apply_op D (delete_ops m s) !! (p ++ h) = if decide (h = Hash m) then None else D !! (p ++ h).
Proof using Hget.
  intros Hcl Hp HD. unfold delete_ops, delete_one, db_Get. rewrite Hcl, !Hget. unfold BlockKey, DagKey, Bytes.
  pose proof (HD PrefixBlock ltac:(by left)) as HB. pose proof (HD PrefixDAG ltac:(by right)) as HDg.
  assert (forall k, p ++ h ≠ MetaKey k) as Hmeta by (intros; by apply ns_not_meta).
  assert (PrefixBlock ++ Hash m ≠ PrefixDAG ++ Hash m) as Hne by done.
  destruct (decide (h = Hash m)) as [->|Hh].
  - destruct (kv (ms_db s) !! (PrefixBlock ++ Hash m)), (kv (ms_db s) !! (PrefixDAG ++ Hash m));
      cbn [fst app foldl apply_op]; rewrite !lookup_delete_ne by (symmetry; apply Hmeta);
      destruct Hp as [->| ->]; rewrite ?lookup_delete_eq; try done;
      rewrite ?lookup_delete_ne by done; rewrite ?lookup_delete_eq; naive_solver.
  - assert (forall p', block_ns p' -> p' ++ Hash m ≠ p ++ h) as Hx.
    { intros p' Hp' E. apply ns_inj in E as [_ E]; [by apply Hh|done..]. }
    pose proof (Hx PrefixBlock ltac:(by left)). pose proof (Hx PrefixDAG ltac:(by right)).
    destruct (kv (ms_db s) !! (PrefixBlock ++ Hash m)), (kv (ms_db s) !! (PrefixDAG ++ Hash m));
      cbn [fst app foldl apply_op]; rewrite !lookup_delete_ne by (symmetry; apply Hmeta);
      by rewrite ?lookup_delete_ne by done.
Qed.

Lemma bind_ext {A B} (f g : A -> list B) l : (forall x, f x = g x) -> (l ≫= f) = (l ≫= g).
Proof. intros E. induction l as [|x l IH]; [done|]. cbn [mbind list_bind]. f_equal; [done|apply IH]. Qed.
Definition only_files s s' : Prop := s' = set_files (ms_files s') s /\
  forall p, ms_files s' !! p = ms_files s !! p \/ ms_files s' !! p = None.
Lemma remove_file_only m s : only_files s (remove_file m s).
Proof.
  unfold remove_file. destruct (has_files s); [|split; [by destruct s|by left]]. split; [done|].
  intros p. cbn [ms_files set_files]. destruct (decide (blockPath m = p)) as [<-|].
  - right. apply lookup_delete_eq.
  - left. by apply lookup_delete_ne.
Qed.
Lemma delete_batch_spec ms s ops n freed ops' n' freed' s' :
  delete_batch env ms ops n freed s = (ops', n', freed', s') ->
  only_files s s' /\ ops' = ops ++ (ms ≫= λ m, delete_ops m s).
Proof.
  revert s ops n freed. induction ms as [|m ms IH]; intros s ops n freed; cbn [delete_batch].
  { intros [= <- <- <- <-]. cbn. rewrite app_nil_r. split; [|done]. split; [by destruct s|by left]. }
  destruct (delete_one env m s) as [[o b] z] eqn:Eo. cbn [mbind list_bind].
  assert (delete_ops m s = o) as -> by (unfold delete_ops; by rewrite Eo). destruct b.
  - intros E. apply IH in E as [[F P] ->]. destruct (remove_file_only m s) as [F1 P1].
    assert (forall m', delete_ops m' (remove_file m s) = delete_ops m' s) as Hsame by (intros; by rewrite F1).
    split; [|rewrite <-app_assoc; do 2 f_equal; by apply bind_ext].
    split; [rewrite F, F1; done|]. intros p. destruct (P p) as [->|?]; [apply P1|by right].
  - intros E. apply IH in E as [? ->]. split; [done|]. by rewrite <-app_assoc.
Qed.

Lemma delete_all_ops ms s D p h : db_closed (ms_db s) = false -> block_ns p ->
  (forall p h, block_ns p -> D !! (p ++ h) = kv (ms_db s) !! (p ++ h) \/ D !! (p ++ h) = None) ->
  foldl apply_op D (ms ≫= λ m, delete_ops m s) !! (p ++ h) =
  if decide (h ∈ map Hash ms) then None else D !! (p ++ h).
Proof using Hget.
  intros Hcl. revert D p h. induction ms as [|m ms IH]; intros D p h Hp HD; cbn [mbind list_bind map].
  { by rewrite decide_False by (by apply not_elem_of_nil). }
  rewrite foldl_app. rewrite IH; [|done|].
  - rewrite (delete_ops_apply m s D p h Hcl Hp) by auto.
    destruct (decide (h = Hash m)) as [->|Hne].
    + rewrite (decide_True (P := Hash m ∈ Hash m :: _)) by by left. by destruct (decide _).
    + destruct (decide (h ∈ map Hash ms)).
      * by rewrite decide_True by by right.
      * rewrite decide_False; [done|]. by intros [?|?]%elem_of_cons.
  - intros p' h' Hp'. rewrite (delete_ops_apply m s D p' h' Hcl Hp') by auto.
    destruct (decide (h' = Hash m)); [by right|by apply HD].
Qed.

Lemma delete_batches_spec batches hs n freed s r s' :
  db_closed (ms_db s) = false -> (forall ms m, ms ∈ batches -> m ∈ ms -> Hash m ∈ hs) ->
  delete_batches env batches n freed s = (r, s') ->
  purged hs s s' /\
  (is_ok r = true -> forall p h, block_ns p -> kv (ms_db s') !! (p ++ h) =
     if decide (h ∈ map Hash (concat batches)) then None else kv (ms_db s) !! (p ++ h)).
Proof using Hget.
  revert n freed s. induction batches as [|ms batches IH]; intros n freed s Hcl Hhs; cbn [delete_batches].
  { intros [= <- <-]. split; [apply purged_refl|]. intros _ p h _. cbn [concat map].
    by rewrite decide_False by (by apply not_elem_of_nil). }
  destruct (delete_batch env ms [] n freed s) as [[[ops n1] freed1] s1] eqn:Eb.
  apply delete_batch_spec in Eb as [[F1 P1] ->]. cbn [app].
  assert (purged hs s s1) as Hp1 by (rewrite F1; split; [by destruct s as [[] ?]|by left|apply P1]).
  assert (ms_db s1 = ms_db s) as Hdb by by rewrite F1.
  unfold Commit. destruct (io_commit env) as [e|].
  { intros [= <- <-]. split; [|done]. by replace (set_db (ms_db s1) s1) with s1 by by destruct s1. }
  rewrite Hdb. set (D := foldl apply_op (kv (ms_db s)) (ms ≫= λ m, delete_ops m s)).
  assert (forall p h, block_ns p -> D !! (p ++ h) =
    if decide (h ∈ map Hash ms) then None else kv (ms_db s) !! (p ++ h)) as HD.
  { intros p h Hp. subst D. rewrite (delete_all_ops ms s _ p h Hcl Hp); [done|]. by left. }
  assert (purged hs s (set_db (mkDB D (db_closed (ms_db s))) s1)) as Hp2.
  { split.
    - rewrite F1. done.
    - intros p h Hp. cbn [ms_db set_db kv]. rewrite (HD p h Hp). destruct (decide _) as [Hin|]; [right|by left].
      split; [done|]. apply list_elem_of_fmap in Hin as (m & -> & Hin). by eapply Hhs; [left|].
    - apply P1. }
  intros E. apply IH in E as [Hp3 Hok]; [|done|].
  2:{ intros ms' m Hin. apply Hhs. by right. }
  split; [by eapply purged_trans|]. intros Hr p h Hp. rewrite (Hok Hr p h Hp). cbn [ms_db set_db kv concat].
  rewrite (HD p h Hp), map_app.
  destruct (decide (h ∈ map Hash (concat batches))) as [Hin|Hnin].
  - rewrite decide_True; [done|]. apply elem_of_app. by right.
  - destruct (decide (h ∈ map Hash ms)) as [Hin|Hnin'].
    + rewrite decide_True; [done|]. apply elem_of_app. by left.
    + rewrite decide_False; [done|]. by intros [?|?]%elem_of_app.
Qed.

(** *** What is collected *)
Definition cedge s m m' : Prop := exists data, Get env hooks m s = Ok data /\
  (m' ∈ object_children m data \/ m' ∈ erasureShardMIDs env s m).

Lemma object_children_wf m d k : k ∈ object_children m d -> wf_mid k.
Proof.
  unfold object_children. destruct (match tryParseDescriptor d with Ok _ => _ | _ => _ end) as [dp|].
  - intros Hin. eapply (rights_Parse_wf (dp_RootMid dp :: map db_Mid (dp_Blocks dp))). simpl. by rewrite map_map.
  - unfold delete_children. destruct (Codec m =? CodecMemFS).
    + destruct (unmarshal d) as [node|]; simpl; [|by intros ?%not_elem_of_nil].
      destruct (mn_Type node =? MemFSType_FILE).
      { intros (b & Hin & _)%list_elem_of_bind. by eapply block_child_wf. }
      destruct (mn_Type node =? MemFSType_DIR); [|by intros ?%not_elem_of_nil].
      intros (e & Hin & _)%list_elem_of_bind. by eapply entry_child_wf.
    + destruct (unmarshal d) as [node|]; simpl; [|by intros ?%not_elem_of_nil]. apply rights_Parse_wf.
Qed.
Lemma erasureShardMIDs_wf s m k : k ∈ erasureShardMIDs env s m -> wf_mid k.
Proof.
  unfold erasureShardMIDs. destruct (db_Get env _ _) as [raw|]; [|by intros ?%not_elem_of_nil].
  case_bool_decide; [by intros ?%not_elem_of_nil|]. destruct (unmarshal raw); [|by intros ?%not_elem_of_nil].
  apply rights_Parse_wf.
Qed.

Section collect.
Context (s : MemStore) (U : gset bytes).
Hypothesis U_closed : forall m m', wf_mid m -> String m ∈ U -> cedge s m m' -> String m' ∈ U.

Definition strs (l : list MID) : gset bytes := list_to_set (map String l).
Lemma elem_of_strs x l : x ∈ strs l <-> exists m, m ∈ l /\ x = String m.
Proof. unfold strs. rewrite elem_of_list_to_set, list_elem_of_fmap. naive_solver. Qed.

(** the outcome of collecting [ms] on top of [acc] *)
Record collected (ms acc acc' : list MID) : Prop := {
  cl_sub : strs acc ⊆ strs acc';
  cl_wf : Forall wf_mid acc -> Forall wf_mid acc';
  cl_all m : m ∈ ms -> String m ∈ strs acc';
  cl_new m : m ∈ acc' -> String m ∉ strs acc -> (exists m0, m0 ∈ ms /\ rtc (cedge s) m0 m) /\
    forall m', cedge s m m' -> String m' ∈ strs acc';
}.
Lemma collected_cons m ms acc acc1 acc2 :
  Forall wf_mid acc -> collected [m] acc acc1 -> collected ms acc1 acc2 -> collected (m :: ms) acc acc2.
Proof.
  intros Hacc [S1 W1 A1 N1] [S2 W2 A2 N2]. split.
  - set_solver.
  - auto.
  - intros m' [->|Hin]%elem_of_cons; [apply S2, A1; by left|by apply A2].
  - intros m' Hin Hn. destruct (decide (String m' ∈ strs acc1)) as [H1'|H1'].
    + pose proof H1' as (m1 & Hin1 & E)%elem_of_strs.
      assert (m1 = m') as ->.
      { apply String_inj; [| |done].
        - specialize (W1 Hacc). rewrite Forall_forall in W1. by apply W1.
        - specialize (W2 (W1 Hacc)). rewrite Forall_forall in W2. by apply W2. }
      destruct (N1 m' Hin1 Hn) as [(m0 & ->%list_elem_of_singleton & Hr) Hcl].
      split; [exists m; split; [by left|done]|]. intros m2 He. by apply S2, Hcl.
    + destruct (N2 m' Hin H1') as [(m0 & Hm0 & Hr) Hcl]. split; [|done]. exists m0. split; [by right|done].
Qed.
Lemma foldl_collected n ks acc :
  Forall wf_mid acc -> Forall wf_mid ks -> (forall k, k ∈ ks -> String k ∈ U) ->
  (size (U ∖ strs acc) < n)%nat ->
  (forall m acc, Forall wf_mid acc -> wf_mid m -> String m ∈ U -> (size (U ∖ strs acc) < n)%nat ->
     collected [m] acc (collect_all env hooks n s m acc)) ->
  collected ks acc (foldl (λ acc k, collect_all env hooks n s k acc) acc ks).
Proof.
  intros Hacc Hks HU Hn Hc. revert acc Hacc Hn. induction Hks as [|k ks Hk _ IH]; intros acc Hacc Hn.
  { split; [done|done|by intros ? ?%not_elem_of_nil|]. intros m Hin Hni. exfalso. apply Hni, elem_of_strs. eauto. }
  cbn [foldl]. assert (collected [k] acc (collect_all env hooks n s k acc)) as Hk1
    by (apply Hc; [done|done|apply HU; by left|done]).
  eapply collected_cons; [done|exact Hk1|]. apply IH.
  - intros. apply HU. by right.
  - by apply (cl_wf _ _ _ Hk1).
  - eapply Nat.le_lt_trans; [|exact Hn]. apply subseteq_size. pose proof (cl_sub _ _ _ Hk1). set_solver.
Qed.
Lemma collect_all_collected n m acc :
  Forall wf_mid acc -> wf_mid m -> String m ∈ U -> (size (U ∖ strs acc) < n)%nat ->
  collected [m] acc (collect_all env hooks n s m acc).
Proof using All.
  revert m acc. induction n as [|n IH]; intros m acc Hacc Hm HU Hn; [lia|]. cbn [collect_all].
  rewrite wf_not_zero by done.
  destruct (decide (String m ∈ map String acc)) as [Hin|Hnin].
  { split; [done|done| |].
    - intros m' ->%list_elem_of_singleton. by apply elem_of_list_to_set.
    - intros m' Hm' Hni. exfalso. apply Hni, elem_of_strs. eauto. }
  assert (forall x, x ∈ strs (acc ++ [m]) <-> x ∈ strs acc \/ x = String m) as Hsn.
  { intros x. rewrite !elem_of_strs. setoid_rewrite elem_of_app. setoid_rewrite list_elem_of_singleton. naive_solver. }
  assert (String m ∉ strs acc) as Hns by (unfold strs; by rewrite elem_of_list_to_set).
  assert (Forall wf_mid (acc ++ [m])) as Hacc' by (apply Forall_app; by split; [|apply Forall_singleton]).
  destruct (Get env hooks m s) as [data|e] eqn:Eg.
  2:{ split; [intros x Hx; apply Hsn; by left|done| |].
      - intros m' ->%list_elem_of_singleton. apply Hsn. by right.
      - intros m' Hm' Hni. apply elem_of_app in Hm' as [Hm'| ->%list_elem_of_singleton];
          [exfalso; apply Hni, elem_of_strs; eauto|].
        split; [exists m; split; [by left|done]|]. intros m2 (d & E & _). congruence. }
  set (kids := object_children m data) in *. set (sh := erasureShardMIDs env s m) in *.
  rewrite <-foldl_app.
  assert (forall k, k ∈ kids ++ sh <-> cedge s m k) as Hedge.
  { intros k. rewrite elem_of_app. split.
    - intros Hk. by exists data.
    - intros (d & E & Hk). rewrite Eg in E. by injection E as <-. }
  assert (collected (kids ++ sh) (acc ++ [m])
    (foldl (λ acc k, collect_all env hooks n s k acc) (acc ++ [m]) (kids ++ sh))) as [S1 W1 A1 N1].
  { apply foldl_collected; [done| | | |].
    - apply Forall_app. split; apply Forall_forall; intros k; [apply object_children_wf|apply erasureShardMIDs_wf].
    - intros k Hk%Hedge. by eapply U_closed.
    - assert (U ∖ strs (acc ++ [m]) ⊂ U ∖ strs acc) as Hlt%subset_size; [|lia].
      split; [intros x; rewrite !elem_of_difference, Hsn; tauto|]. intros Hsub.
      specialize (Hsub (String m)). rewrite !elem_of_difference, Hsn in Hsub. tauto.
    - done. }
  split.
  - intros x Hx. apply S1, Hsn. by left.
  - auto.
  - intros m' ->%list_elem_of_singleton. apply S1, Hsn. by right.
  - intros m' Hin Hni. destruct (decide (String m' = String m)) as [E|Hne].
    + apply String_inj in E as ->; [|specialize (W1 Hacc'); rewrite Forall_forall in W1; by apply W1|done].
      split; [exists m; split; [by left|done]|]. intros m2 He. by apply A1, Hedge.
    + destruct (N1 m' Hin) as [(k & Hk & Hr) Hcl].
      { rewrite Hsn. tauto. }
      split; [|done]. exists m. split; [by left|]. eapply rtc_l; [by apply Hedge|done].
Qed.

(** with fuel for one level per MID of [U], exactly what the root reaches *)
Lemma collect_all_iff n root m : wf_mid root -> String root ∈ U -> (size U < n)%nat ->
  m ∈ collect_all env hooks n s root [] <-> rtc (cedge s) root m.
Proof using All.
  intros Hr HU Hn. destruct (collect_all_collected n root []) as [_ W A N]; [done|done|done| |].
  { assert (U ∖ strs [] = U) as -> by set_solver. done. }
  specialize (W (Forall_nil_2 _)). rewrite Forall_forall in W. split.
  - intros Hin. destruct (N m Hin) as [(m0 & ->%list_elem_of_singleton & ?) _]; [set_solver|done].
  - assert (forall m, wf_mid m -> String m ∈ strs (collect_all env hooks n s root []) ->
      m ∈ collect_all env hooks n s root []) as Hmem.
    { intros m1 Hm1 (m2 & Hin & E)%elem_of_strs. apply String_inj in E as ->; [done|done|by apply W]. }
    revert m. apply rtc_ind_r.
    + apply Hmem; [done|]. apply A. by left.
    + intros m1 m2 _ He Hin. destruct (N m1 Hin) as [_ Hcl]; [set_solver|]. apply Hmem; [|by apply Hcl].
      destruct He as (d & _ & [Hk|Hk]); [by eapply object_children_wf|by eapply erasureShardMIDs_wf].
Qed.
End collect.
End delete_facts.

Section delete_property.
Context `{Floats, Multiformats} `{!MultiformatsLaws} `{Protos}.
Context (alg : Z) (env : Env) (hooks : option StoreHooks) (fuel : nat).
Implicit Types (s : MemStore) (m : MID) (h : bytes).

Lemma Unseal_beside root s : beside alg env s (Unseal env hooks fuel root s).2.
Proof.
  unfold Unseal, mbind, M_bind, enter. destruct (_ || _); [done|]. unfold guard_error.
  destruct (IsZero root); [done|].
  destruct (dropSeal_spec alg env root s) as (Hb & _). destruct (dropSeal env root s) as [[[]|e] s1]; [|done].
  cbn [snd] in Hb. etrans; [exact Hb|]. apply (unseal_walk_shrink alg env hooks fuel root s1).
Qed.

(** the bloom index rebuilt over the database covers it again *)
Lemma rebuild_sound s b b' : sound alg s -> ms_bloom s = Some b -> rebuildFromDB env (ms_db s) b = Ok b' ->
  sound alg (set_bloom (Some b') s).
Proof.
  intros [[Hst Hf _] Ho] _ Hr. split; [|done]. split; [done|done|]. revert Hr. unfold rebuildFromDB, db_NewIter.
  destruct (db_closed (ms_db s)); [done|]. destruct (io_iter env); [done|]. cbn [mbind result_bind].
  intros [= <-]. unfold bloom_covers. cbn [ms_bloom set_bloom bi_cbf set_cbf].
  destruct (represents_add_all (scan_items (kv (ms_db s))) _ [] (scan_items_nonempty (kv (ms_db s)))
    (represents_New (bi_capacity b) (bi_fpRate b))) as (items & Hr & Hocc).
  exists items. split; [exact Hr|]. intros h Hh. etrans; [|apply Hocc]. by apply scan_items_occurrences.
Qed.

Lemma cedge_beside s s' m m' : beside alg env s s' -> cedge env hooks s' m m' <-> cedge env hooks s m m'.
Proof.
  intros Hb. unfold cedge. assert (erasureShardMIDs env s' m = erasureShardMIDs env s m) as ->.
  { unfold erasureShardMIDs, db_Get, ErasureKey. rewrite (proj2 (bs_open _ _ _ _ Hb)).
    by rewrite (bs_meta _ _ _ _ Hb). }
  by rewrite (bs_reads _ _ _ _ Hb).
Qed.
Lemma cedge_reach_beside s s' m m' : beside alg env s s' -> rtc (cedge env hooks s') m m' <-> rtc (cedge env hooks s) m m'.
Proof.
  intros Hb. split; induction 1 as [|x y z Hxy _ IH]; [done| |done|];
    (eapply rtc_l; [|exact IH]); by apply (cedge_beside _ _ _ _ Hb).
Qed.
Lemma elem_of_chunks {A} (l : list A) ms x : ms ∈ chunks 100 l -> x ∈ ms -> x ∈ l.
Proof. intros Hms Hx. rewrite <-(chunks_concat 100 ltac:(lia) l). rewrite !list_elem_of_In in *.
  apply in_concat. by exists ms.
Qed.

(** an object reaches a hash *)
Definition object_holds s root h : Prop := exists m, rtc (cedge env hooks s) root m /\ Hash m = h.

(** C11: recursive deletion removes an object and nothing else: whatever the iteration order
    of the reachable set, a run that succeeds deletes, in both namespaces, exactly the
    keys of the MIDs the root reaches through stored content (descriptors, MemFS nodes,
    DAG links) and through recorded erasure shards; on every outcome the store stays
    sound (the bloom index is rebuilt) and no other hash loses an entry.  Fuel for one
    level per MID of a closed set is enough. *)
Theorem MemStore_DeleteRecursive (order : list MID -> list MID) (root : MID) s (r : result (Z * Z)) s' (U : gset bytes) :
  sound alg s -> wf_mid root -> (forall k, io_get env k = None) -> (forall l, order l ≡ₚ l) ->
  (forall m m', wf_mid m -> String m ∈ U -> cedge env hooks s m m' -> String m' ∈ U) ->
  String root ∈ U -> (size U < fuel)%nat ->
  DeleteRecursive env hooks fuel order root s = (r, s') ->
  sound alg s' /\
  (forall p h, block_ns p -> kv (ms_db s') !! (p ++ h) = kv (ms_db s) !! (p ++ h) \/
     kv (ms_db s') !! (p ++ h) = None /\ object_holds s root h) /\
  (is_ok r = true -> forall p h v, block_ns p ->
     kv (ms_db s') !! (p ++ h) = Some v <-> kv (ms_db s) !! (p ++ h) = Some v /\ ¬ object_holds s root h).
Proof.
  intros Hs Hm Hget Hord HU Hroot Hf. pose proof Hs as [_ [Ho Hcl]].
  unfold DeleteRecursive, mbind, M_bind, enter. fold (closed_or_nil s). rewrite Ho. unfold guard_error.
  rewrite wf_not_zero by done. pose proof (Unseal_beside root s) as Hb.
  set (s1 := (Unseal env hooks fuel root s).2) in *.
  unfold delete_reachable. set (mids := order _). destruct (delete_batches _ _ _ _ s1) as [rd s2] eqn:Ed.
  pose proof (bs_sound _ _ _ _ Hb Hs) as Hs1. pose proof Hs1 as [_ [_ Hcl1]].
  assert (forall h, h ∈ map Hash mids <-> object_holds s root h) as Hmids.
  { intros h. rewrite list_elem_of_fmap. unfold object_holds.
    assert (forall m, m ∈ mids <-> rtc (cedge env hooks s) root m) as Hm'; [|by setoid_rewrite Hm'; naive_solver].
    intros m. subst mids. rewrite Hord, <-(cedge_reach_beside _ _ _ _ Hb).
    apply (collect_all_iff alg env hooks fuel Hget s1 U); [|done..]. intros m1 m2 ? ? He. eapply HU; [done..|].
    by apply (cedge_beside _ _ _ _ Hb). }
  destruct (delete_batches_spec env Hget (chunks 100 mids) (map Hash mids) 0 0 s1 rd s2 Hcl1) as [Hp Hok]; [|done|].
  { intros ms m Hin Hx. apply list_elem_of_fmap. exists m. split; [done|]. by eapply elem_of_chunks. }
  rewrite chunks_concat in Hok by lia.
  pose proof (purged_sound alg _ _ _ Hs1 Hp) as Hs2.
  assert (forall p h, block_ns p -> kv (ms_db s2) !! (p ++ h) = kv (ms_db s) !! (p ++ h) \/
    kv (ms_db s2) !! (p ++ h) = None /\ object_holds s root h) as Hpart.
  { intros p h Hp'. rewrite <-(bs_kv _ _ _ _ Hb) by done. rewrite <-Hmids. by apply (pu_kv _ _ _ Hp). }
  assert (is_ok rd = true -> forall p h v, block_ns p ->
    kv (ms_db s2) !! (p ++ h) = Some v <-> kv (ms_db s) !! (p ++ h) = Some v /\ ¬ object_holds s root h) as Hex.
  { intros Hr p h v Hp'. rewrite (Hok Hr p h Hp'), (bs_kv _ _ _ _ Hb) by done. rewrite <-Hmids.
    destruct (decide (h ∈ map Hash mids)); naive_solver. }
  destruct rd as [res|e]; [|intros [= <- <-]; by split_and!].
  destruct (ms_bloom s2) as [b|] eqn:Eb; [|intros [= <- <-]; by split_and!].
  destruct (rebuildFromDB env (ms_db s2) b) as [b'|e] eqn:Er; intros [= <- <-]; split_and!; try done.
  by eapply rebuild_sound.
Qed.
End delete_property.

(** ** Instances *)
Lemma MemStore_DeleteRecursive_witness :
  exists s', DeleteRecursive (calm 8) None 5 reverse (demo_mid "a") demo_gc = (Ok (1, 1), s') /\ sound BLAKE3 s' /\
    kv (ms_db s') !! (PrefixBlock ++ Hash (demo_mid "a")) ≠ Some (lit "a").
Proof.
  destruct (DeleteRecursive (calm 8) None 5 reverse (demo_mid "a") demo_gc) as [r s'] eqn:E.
  assert (r = Ok (1, 1)) as -> by (apply (f_equal fst) in E; vm_compute in E; symmetry; exact E).
  exists s'. split; [reflexivity|].
  destruct (MemStore_DeleteRecursive BLAKE3 (calm 8) None 5 reverse (demo_mid "a") demo_gc (Ok (1, 1)) s'
    {[String (demo_mid "a")]} demo_gc_sound (toy_raw_wf _)) as (Hs' & _ & Hex).
  - reflexivity.
  - intros l. apply reverse_Permutation.
  - intros m m' Hm Hin%elem_of_singleton (data & Hd & Hk). apply String_inj in Hin as ->; [|exact Hm|apply toy_raw_wf].
    assert (data = lit "a") as -> by (vm_compute in Hd; injection Hd as <-; reflexivity).
    assert (object_children (demo_mid "a") (lit "a") = [] /\ erasureShardMIDs (calm 8) demo_gc (demo_mid "a") = [])
      as [E1 E2] by (vm_compute; split; reflexivity).
    rewrite E1, E2 in Hk. exfalso. destruct Hk as [Hk|Hk]; exact (not_elem_of_nil _ Hk).
  - by apply elem_of_singleton.
  - rewrite size_singleton. lia.
  - exact E.
  - split; [exact Hs'|]. intros Ha. apply (Hex eq_refl) in Ha as [_ Hno]; [|left; reflexivity].
    apply Hno. exists (demo_mid "a"). split; [constructor|reflexivity].
Defined.
