(* ===== verification/HashRing.v ===== *)
(** * Placement (src/core/shard: hashring.go, placement_store.go; src/net/memplace: placer.go)

    [HashRing] is the peer list with its failure domains; [Assign] is rendezvous hashing
    with the domain-aware selection.  The main facts: an assignment has the right size
    and no duplicates, spreads over domains and comes in the order of [goes_first]; membership
    changes disrupt it as little as possible.  [shardDistribution] is the placement plan computed from it. *)
From S2P Require Import Prelude Mid Blockstore Db.

Definition MinReplicas : Z := 1.
Definition MaxReplicas : Z := 64.

Record HashRing := mkRing { peers : list bytes; domains : gmap bytes bytes }.
Definition NewHashRing : HashRing := mkRing [] ∅.

Definition AddPeerWithDomain (peerID domain : bytes) (r : HashRing) : HashRing :=
  if bool_decide (peerID = []) then r else
  mkRing (if bool_decide (peerID ∈ peers r) then peers r else peers r ++ [peerID])
         (<[peerID := domain]> (domains r)).
Definition AddPeer (peerID : bytes) : HashRing -> HashRing := AddPeerWithDomain peerID [].

Fixpoint remove_first (x : bytes) (l : list bytes) : list bytes :=
  match l with
  | [] => []
  | p :: l => if bool_decide (p = x) then l else p :: remove_first x l
  end.
Definition RemovePeer (peerID : bytes) (r : HashRing) : HashRing :=
  mkRing (remove_first peerID (peers r)) (delete peerID (domains r)).
Definition Len (r : HashRing) : Z := zlen (peers r).

Record scored := mkScored { sc_peer : bytes; sc_domain : bytes; sc_score : Z }.
#[export] Instance scored_eq_dec : EqDecision scored.
Proof. solve_decision. Defined.

(** [sort.Slice] by score, highest first, and then by peer *)
Definition before (a b : scored) : bool :=
  if sc_score a =? sc_score b then bytes_leb (sc_peer a) (sc_peer b) else sc_score b <? sc_score a.
Definition ranks (a b : scored) : Prop := before a b = true.
#[export] Instance ranks_dec : RelDecision ranks := λ a b, decide (before a b = true).

(** the selection loop: the selected and the deferred entries; it stops when [replicas]
    are selected *)
Fixpoint select (replicas : nat) (scores : list scored) (selected : list bytes) (used : gset bytes)
    (deferred : list scored) : list bytes * list scored :=
  match scores with
  | [] => (selected, deferred)
  | sc :: scores =>
      if (replicas <=? length selected)%nat then (selected, deferred) else
      if bool_decide (sc_domain sc ≠ []) && bool_decide (sc_domain sc ∈ used)
      then select replicas scores selected used (deferred ++ [sc])
      else select replicas scores (selected ++ [sc_peer sc])
             (if bool_decide (sc_domain sc ≠ []) then {[sc_domain sc]} ∪ used else used) deferred
  end.
Fixpoint fill (replicas : nat) (deferred : list scored) (selected : list bytes) : list bytes :=
  match deferred with
  | [] => selected
  | sc :: deferred =>
      if (replicas <=? length selected)%nat then selected
      else fill replicas deferred (selected ++ [sc_peer sc])
  end.

(** the blocks planned for each peer *)
Abbreviation Distribution := (gmap bytes (list SBlock)).

Section ring.
Context `{Multiformats}.

Definition hrwScore (peer midBytes : bytes) : Z := Uint64 (sha256_Sum256 (peer ++ [Byte.x00] ++ midBytes)).
Definition score_of (r : HashRing) (m : MID) (p : bytes) : scored :=
mkScored p (default [] (domains r !! p)) (hrwScore p (String m)).
Definition ranking (r : HashRing) (m : MID) : list scored := merge_sort ranks (map (score_of r m) (peers r)).

Definition Assign (r : HashRing) (m : MID) (replicas : Z) : result (list bytes) :=
if IsZero m then Err (New "shard: zero MID") else
if replicas <? MinReplicas then Err (New "shard: replicas below minimum") else
if MaxReplicas <? replicas then Err (New "shard: replicas above maximum") else
if bool_decide (peers r = []) then Err (New "shard: no peers in ring") else
let scores := ranking r m in
let n := if zlen scores <? replicas then length scores else Z.to_nat replicas in
let '(selected, deferred) := select n scores [] ∅ [] in
Ok (fill n deferred selected).

Definition IsOwner (r : HashRing) (peerID : bytes) (m : MID) (replicas : Z) : bool :=
if bool_decide (peerID = []) || IsZero m then false else
match Assign r m replicas with
| Err _ => false
| Ok assigned => bool_decide (peerID ∈ assigned)
end.

(** [old] may be a nil pointer *)
Definition ComputeMigration (old : option HashRing) (newRing : option HashRing) (localPeerID : bytes)
  (mids : list MID) (replicas : Z) : list MID * list MID :=
match newRing with
| None => ([], [])
| Some newRing =>
    if bool_decide (localPeerID = []) then ([], []) else
    let was m := match old with Some r => IsOwner r localPeerID m replicas | None => false end in
    let is_ m := IsOwner newRing localPeerID m replicas in
    (filter (λ m, was m = false /\ is_ m = true) mids, filter (λ m, was m = true /\ is_ m = false) mids)
end.

(** *** Persistence *)
Class PeersJSON := {
peers_Marshal : list bytes -> result bytes;
peers_Unmarshal : bytes -> result (list bytes);
}.
Class PeersJSONLaws `{PeersJSON} : Prop :=
peers_roundtrip l buf : peers_Marshal l = Ok buf -> peers_Unmarshal buf = Ok l.
Definition keyRingPeers : bytes := lit "shard:ring:peers".
(** the store and the ring may be nil *)
Definition PersistPeers `{PeersJSON} (env : Env) (ps : list bytes) : M (option DB) unit := λ store,
  match store with
  | None => (Ok tt, None)
  | Some d =>
      match peers_Marshal ps with
      | Err e => (Err (Wrap "shard: marshal ring peers" e), store)
      | Ok data => let '(r, d) := db_Set env keyRingPeers data d in (r, Some d)
      end
  end.
Definition LoadPeers `{PeersJSON} (env : Env) (store : option DB) : M (option HashRing) unit := λ ring,
  match store, ring with
  | Some d, Some r =>
      match db_Get env keyRingPeers d with
      | Err e => if errors_is e ErrKeyNotFound then (Ok tt, ring) else (Err e, ring)
      | Ok data =>
          match peers_Unmarshal data with
          | Err e => (Err (Wrap "shard: unmarshal ring peers" e), ring)
          | Ok ps => (Ok tt, Some (foldl (λ r p, AddPeer p r) r ps))
          end
      end
  | _, _ => (Ok tt, ring)
  end.

(** *** The placement plan *)
(** the body of the loop over the shards *)
Definition dist_step (ring : HashRing) (self : bytes) (replicas : Z) (dist : Distribution) (blk : SBlock) : Distribution :=
  match Assign ring (sb_MID blk) replicas with
  | Err _ => dist
  | Ok owners => foldl (λ dist pid,
      if bool_decide (pid = self) then dist
      else <[pid := default [] (dist !! pid) ++ [blk]]> dist) dist owners
  end.
Definition shardDistribution (ring : option HashRing) (self : bytes) (replicas : Z) (shards : list SBlock) : Distribution :=
  match ring with
  | None => ∅
  | Some ring => foldl (dist_step ring self replicas) ∅ shards
  end.
(** [order] is the iteration order of the map; [push] and [announce] are the network *)
Definition PlaceShards {T : Type} (order : Distribution -> list (bytes * list SBlock))
  (push : option (bytes -> list SBlock -> M T unit)) (announce : option (MID -> M T unit))
  (ring : option HashRing) (self : bytes) (replicas : Z) (root : MID) (shards : list SBlock) : T -> Z * T := λ t,
match ring with
| None => (0, t)
| Some _ =>
    let dist := shardDistribution ring self replicas shards in
    let '(pushed, t) :=
      match push with
      | None => (0, t)
      | Some push => foldl (λ acc e, let '(n, t) := (acc : Z * T) in
          let '(r, t) := push e.1 e.2 t in (if is_ok r then n + zlen e.2 else n, t)) (0, t) (order dist)
      end in
    match announce with
    | None => (pushed, t)
    | Some announce => (pushed, (announce root t).2)
    end
end.
End ring.

(** ** The selection as a prefix of two lists *)
(** the first entry of each domain (and every entry without one), and the others *)
Fixpoint pass (used : gset bytes) (l : list scored) : list scored * list scored :=
  match l with
  | [] => ([], [])
  | sc :: l =>
      if bool_decide (sc_domain sc ≠ []) && bool_decide (sc_domain sc ∈ used)
      then let '(f, d) := pass used l in (f, sc :: d)
      else let '(f, d) := pass (if bool_decide (sc_domain sc ≠ []) then {[sc_domain sc]} ∪ used else used) l in
           (sc :: f, d)
  end.
Definition preference (l : list scored) : list scored := let '(f, d) := pass ∅ l in f ++ d.

Lemma fill_take n d sel : fill n d sel = sel ++ take (n - length sel) (map sc_peer d).
Proof.
  revert sel. induction d as [|sc d IH]; intros sel; cbn [fill map].
  { by rewrite take_nil, app_nil_r. }
  destruct (Nat.leb_spec n (length sel)) as [Hle|Hlt].
  - replace (n - length sel)%nat with 0%nat by lia. by rewrite app_nil_r.
  - rewrite IH, length_app. cbn [length]. replace (n - length sel)%nat with (S (n - (length sel + 1)))%nat by lia.
    cbn [take]. by rewrite <-app_assoc.
Qed.
Lemma select_pass n l sel used dfr : (length sel ≤ n)%nat ->
  let '(f, d) := pass used l in
  let '(s', d') := select n l sel used dfr in
  fill n d' s' = fill n (dfr ++ d) (sel ++ take (n - length sel) (map sc_peer f)).
Proof.
  revert sel used dfr. induction l as [|sc l IH]; intros sel used dfr Hn; cbn [pass select].
  { cbn [map]. by rewrite take_nil, !app_nil_r. }
  destruct (Nat.leb_spec n (length sel)) as [Hle|Hlt].
  { assert (length sel = n) as Hl by lia. replace (n - length sel)%nat with 0%nat by lia.
    assert (forall d, fill n d (sel ++ []) = sel) as Hf.
    { intros d. rewrite app_nil_r, fill_take. replace (n - length sel)%nat with 0%nat by lia. by rewrite app_nil_r. }
    assert (fill n dfr sel = sel) as Hf' by by rewrite <-(app_nil_r sel) at 1.
    destruct (bool_decide _ && bool_decide _); [destruct (pass used l)|destruct (pass _ l)]; cbn [take map];
      by rewrite Hf, Hf'. }
  destruct (bool_decide (sc_domain sc ≠ []) && bool_decide (sc_domain sc ∈ used)).
  - specialize (IH sel used (dfr ++ [sc]) Hn). destruct (pass used l) as [f d].
    destruct (select n l sel used (dfr ++ [sc])) as [s' d']. by rewrite IH, <-app_assoc.
  - set (used' := if bool_decide _ then _ else used).
    specialize (IH (sel ++ [sc_peer sc]) used' dfr). rewrite length_app in IH. cbn [length] in IH.
    specialize (IH ltac:(lia)). destruct (pass used' l) as [f d].
    destruct (select n l _ used' dfr) as [s' d']. rewrite IH. cbn [map].
    replace (n - length sel)%nat with (S (n - (length sel + 1)))%nat by lia. cbn [take]. by rewrite <-app_assoc.
Qed.
(** The code's selection is a prefix of the preference list. *)
Lemma select_preference n l : (let '(s, d) := select n l [] ∅ [] in fill n d s) = take n (map sc_peer (preference l)).
Proof.
  pose proof (select_pass n l [] ∅ [] ltac:(simpl; lia)) as Hs. unfold preference.
  destruct (pass ∅ l) as [f d]. destruct (select n l [] ∅ []) as [s d']. rewrite Hs. cbn [length app].
  rewrite fill_take, Nat.sub_0_r, length_take, length_map, map_app, take_app, length_map. f_equal. f_equal. lia.
Qed.

(** ** The order of the ranking *)
#[export] Instance ranks_total : Total ranks.
Proof.
  intros a b. unfold ranks, before. rewrite (Z.eqb_sym (sc_score b)).
  destruct (Z.eqb_spec (sc_score a) (sc_score b)); [apply bytes_leb_total|]. rewrite !Z.ltb_lt. lia.
Qed.
#[export] Instance ranks_trans : Transitive ranks.
Proof.
  intros a b c. unfold ranks, before.
  destruct (Z.eqb_spec (sc_score a) (sc_score b)), (Z.eqb_spec (sc_score b) (sc_score c)),
    (Z.eqb_spec (sc_score a) (sc_score c)); try lia; [apply bytes_leb_trans|rewrite ?Z.ltb_lt; lia..].
Qed.
Lemma ranks_antisym a b : ranks a b -> ranks b a -> sc_peer a = sc_peer b.
Proof.
  unfold ranks, before. rewrite (Z.eqb_sym (sc_score b)).
  destruct (Z.eqb_spec (sc_score a) (sc_score b)); [apply bytes_leb_antisym|]. rewrite !Z.ltb_lt. lia.
Qed.
Lemma StronglySorted_filter {A} (R : relation A) (P : A -> Prop) `{!forall x, Decision (P x)} l :
  StronglySorted R l -> StronglySorted R (filter P l).
Proof.
  induction 1 as [|x l Hl IH Hx]; [constructor|]. rewrite filter_cons. destruct (decide (P x)); [|done].
  constructor; [done|]. rewrite Forall_forall in Hx |- *. intros y [_ Hy]%list_elem_of_filter. by apply Hx.
Qed.
(** ** The preference list *)
Lemma pass_perm U l : (pass U l).1 ++ (pass U l).2 ≡ₚ l.
Proof.
  revert U. induction l as [|sc l IH]; intros U; cbn [pass]; [done|].
  destruct (_ && _).
  - specialize (IH U). destruct (pass U l) as [f d]. cbn [fst snd] in *. by rewrite <-Permutation_middle, IH.
  - match goal with |- context[pass ?U' l] => specialize (IH U'); destruct (pass U' l) as [f d] end.
    cbn [fst snd app] in *. by rewrite IH.
Qed.
Lemma preference_split l : preference l = (pass ∅ l).1 ++ (pass ∅ l).2.
Proof. unfold preference. by destruct (pass ∅ l). Qed.
Lemma preference_perm l : preference l ≡ₚ l.
Proof. rewrite preference_split. apply pass_perm. Qed.

(** the first pass takes one entry of each domain and all without a domain *)
Lemma pass_first U l f d : pass U l = (f, d) ->
  (forall sc, sc ∈ l -> sc ∈ f \/ sc ∈ d /\ sc_domain sc ≠ [] /\ (sc_domain sc ∈ U \/ exists sc', sc' ∈ f /\ sc_domain sc' = sc_domain sc)) /\
  (forall sc, sc ∈ f -> sc_domain sc = [] \/ sc_domain sc ∉ U) /\
  (forall i j a b, f !! i = Some a -> f !! j = Some b -> sc_domain a = sc_domain b -> sc_domain a ≠ [] -> i = j).
Proof.
  revert U f d. induction l as [|s l IH]; intros U f d; cbn [pass].
  { intros [= <- <-]. split_and!; [intros sc Hsc; by apply not_elem_of_nil in Hsc..|done]. }
  destruct (bool_decide_reflect (sc_domain s ≠ [])) as [Hne|He]; cbn [andb];
    [destruct (bool_decide_reflect (sc_domain s ∈ U)) as [Hin|Hout]|].
  - destruct (pass U l) as [f0 d0] eqn:E. intros [= <- <-]. apply IH in E as (H1 & H2 & H3). split_and!; [|done..].
    intros sc [->|Hsc]%elem_of_cons; [right; split_and!; [left|done|by left]|].
    destruct (H1 sc Hsc) as [|(? & ? & ?)]; [by left|right; split_and!; [by right|done..]].
  - destruct (pass ({[sc_domain s]} ∪ U) l) as [f0 d0] eqn:E. intros [= <- <-]. apply IH in E as (H1 & H2 & H3). split_and!.
    + intros sc [->|Hsc]%elem_of_cons; [left; left|].
      destruct (H1 sc Hsc) as [|(? & ? & [[E%elem_of_singleton|]%elem_of_union|(sc' & ? & ?)])]; [by left; right|right; split_and!; [done..|]..].
      * right. exists s. split; [left|done].
      * by left.
      * right. exists sc'. split; [by right|done].
    + intros sc [->|Hsc]%elem_of_cons; [by right|]. destruct (H2 sc Hsc) as [|Hn]; [by left|right].
      intros Hi. apply Hn. by apply elem_of_union_r.
    + intros [|i] [|j] a b Ha Hb Eab Hna; cbn [lookup list_lookup] in Ha, Hb; [done| | |].
      * injection Ha as <-. destruct (H2 b) as [|Hn]; [by eapply list_elem_of_lookup_2|congruence|].
        exfalso. apply Hn. apply elem_of_union_l, elem_of_singleton. congruence.
      * injection Hb as <-. destruct (H2 a) as [|Hn]; [by eapply list_elem_of_lookup_2|congruence|].
        exfalso. apply Hn. apply elem_of_union_l, elem_of_singleton. congruence.
      * f_equal. by eapply H3.
  - destruct (pass U l) as [f0 d0] eqn:E. intros [= <- <-]. apply IH in E as (H1 & H2 & H3).
    assert (sc_domain s = []) as Hs by (destruct (sc_domain s); [done|destruct He; done]). split_and!.
    + intros sc [->|Hsc]%elem_of_cons; [left; left|].
      destruct (H1 sc Hsc) as [|(? & ? & [|(sc' & ? & ?)])]; [by left; right|right; split_and!; [done..|]..]; [by left|].
      right. exists sc'. split; [by right|done].
    + intros sc [->|Hsc]%elem_of_cons; [by left|]. by apply H2.
    + intros [|i] [|j] a b Ha Hb Eab Hna; cbn [lookup list_lookup] in Ha, Hb; [done|congruence|congruence|].
      f_equal. by eapply H3.
Qed.

(** in a sorted ranking the first pass takes the best of each domain *)
Lemma pass_lead U l : StronglySorted ranks l -> forall sc, sc ∈ (pass U l).1 -> sc_domain sc ≠ [] ->
  forall x, x ∈ l -> sc_domain x = sc_domain sc -> ranks sc x.
Proof.
  intros Hl. revert U. induction Hl as [|s l Hl IH Hs]; intros U; cbn [pass]; [by intros sc ?%not_elem_of_nil|].
  rewrite Forall_forall in Hs. destruct (bool_decide_reflect (sc_domain s ≠ [])) as [Hne|He]; cbn [andb];
    [destruct (bool_decide_reflect (sc_domain s ∈ U)) as [Hin|Hout]|].
  - destruct (pass U l) as [f d] eqn:E. specialize (IH U). rewrite E in IH. cbn [fst] in *.
    intros sc Hsc Hd x [->|Hx]%elem_of_cons Ex; [|by apply IH].
    destruct (pass_first _ _ _ _ E) as (_ & H2 & _). destruct (H2 sc Hsc); [done|congruence].
  - destruct (pass _ l) as [f d] eqn:E. specialize (IH ({[sc_domain s]} ∪ U)). rewrite E in IH. cbn [fst] in *.
    intros sc [->|Hsc]%elem_of_cons Hd x [->|Hx]%elem_of_cons Ex; [by destruct (total ranks s s)|by apply Hs| |by apply IH].
    destruct (pass_first _ _ _ _ E) as (_ & H2 & _). destruct (H2 sc Hsc) as [|Hn]; [done|]. exfalso. apply Hn.
    apply elem_of_union_l, elem_of_singleton. done.
  - destruct (pass _ l) as [f d] eqn:E. specialize (IH U). rewrite E in IH. cbn [fst] in *.
    assert (sc_domain s = []) as Hsd by (destruct (sc_domain s); [done|destruct He; done]).
    intros sc [->|Hsc]%elem_of_cons Hd x [->|Hx]%elem_of_cons Ex; [done..|congruence|by apply IH].
Qed.
Lemma pass_sublist U l : sublist (pass U l).1 l /\ sublist (pass U l).2 l.
Proof.
  revert U. induction l as [|s l IH]; intros U; cbn [pass]; [done|]. destruct (_ && _).
  - destruct (IH U), (pass U l). split; by constructor.
  - match goal with |- context[pass ?U' l] => destruct (IH U'), (pass U' l) end. split; by constructor.
Qed.
Lemma StronglySorted_sublist {A} (R : relation A) l l' : sublist l' l -> StronglySorted R l -> StronglySorted R l'.
Proof.
  induction 1 as [|x l1 l2 Hl IH|x l1 l2 Hl IH]; intros Hs; [done| |]; apply StronglySorted_inv in Hs as [Hs Hx].
  - constructor; [by apply IH|]. rewrite Forall_forall in Hx |- *. intros y Hy. apply Hx. eapply elem_of_submseteq; [exact Hy|]. by apply sublist_submseteq.
  - by apply IH.
Qed.

(** [earlier x l l']: every entry of [l] other than [x] is in [l'], no later than in [l] *)
Definition earlier {A} (x : A) (l l' : list A) : Prop := forall n p, p ∈ take n l -> p = x \/ p ∈ take n l'.
Lemma earlier_refl {A} (x : A) l : earlier x l l.
Proof. intros n p. auto. Qed.
Lemma earlier_app {A} (x : A) k l l' : earlier x l l' -> earlier x (k ++ l) (k ++ l').
Proof.
  intros Hl n p. rewrite !take_app, !elem_of_app. intros [?|Hp]; [by right; left|].
  destruct (Hl _ _ Hp) as [|]; [by left|right; by right].
Qed.
(** dropping [x] and moving one later entry forward *)
Lemma earlier_replace {A} (x y : A) l1 l2 l3 : earlier x (x :: l1 ++ l2 ++ y :: l3) (l1 ++ y :: l2 ++ l3).
Proof.
  induction l1 as [|b l1 IH].
  - cbn [app]. intros [|n] p; cbn [take]; [by intros ?%not_elem_of_nil|].
    intros [->|Hp]%elem_of_cons; [by left|right]. rewrite elem_of_cons. rewrite take_app, elem_of_app in Hp |- *.
    destruct Hp as [?|Hp]; [tauto|]. destruct (n - length l2)%nat as [|m] eqn:E; cbn [take] in Hp; [by apply not_elem_of_nil in Hp|].
    apply elem_of_cons in Hp as [->|Hp]; [by left|]. right. right.
    apply elem_of_take in Hp as (i & Hi & Hlt). apply elem_of_take. exists i. split; [done|lia].
  - intros [|[|n]] p; cbn [take app]; [by intros ?%not_elem_of_nil|intros Hp%list_elem_of_singleton; by left|].
    intros [->|[->|Hp]%elem_of_cons]%elem_of_cons; [by left|right; left|].
    destruct (IH (S n) p) as [|Hq]; [cbn [take]; by right|by left|right; right; exact Hq].
Qed.
Lemma earlier_drop {A} (x : A) l : earlier x (x :: l) l.
Proof.
  intros [|n] p; cbn [take]; [by intros ?%not_elem_of_nil|]. intros [->|Hp]%elem_of_cons; [by left|right].
  apply elem_of_take in Hp as (i & Hi & Hlt). apply elem_of_take. exists i. split; [done|lia].
Qed.

(** releasing one domain lets at most one entry move from the second pass to the first *)
Lemma pass_release dm U l : dm ∉ U -> dm ≠ [] ->
  let '(f, d) := pass ({[dm]} ∪ U) l in let '(f', d') := pass U l in
  (f' = f /\ d' = d) \/
  exists y f1 f2 d1 d2, f = f1 ++ f2 /\ f' = f1 ++ y :: f2 /\ d = d1 ++ y :: d2 /\ d' = d1 ++ d2.
Proof.
  intros HU Hne. revert U HU. induction l as [|s l IH]; intros U HU; cbn [pass]; [by left|].
  destruct (bool_decide_reflect (sc_domain s ≠ [])) as [Hs|Hs]; cbn [andb].
  - destruct (decide (sc_domain s = dm)) as [Ed|Ed].
    + rewrite Ed, (bool_decide_eq_true_2 (dm ∈ {[dm]} ∪ U)) by set_solver. rewrite bool_decide_eq_false_2 by done.
      destruct (pass ({[dm]} ∪ U) l) as [f d]. right. exists s, [], f, [], d. done.
    + destruct (bool_decide_reflect (sc_domain s ∈ U)) as [Hin|Hout].
      * rewrite (bool_decide_eq_true_2 (sc_domain s ∈ {[dm]} ∪ U)) by set_solver.
        specialize (IH U HU). destruct (pass ({[dm]} ∪ U) l) as [f d], (pass U l) as [f' d'].
        destruct IH as [[-> ->]|(y & f1 & f2 & d1 & d2 & -> & -> & -> & ->)]; [by left|].
        right. exists y, f1, f2, (s :: d1), d2. done.
      * rewrite (bool_decide_eq_false_2 (sc_domain s ∈ {[dm]} ∪ U)) by set_solver.
        specialize (IH ({[sc_domain s]} ∪ U) ltac:(set_solver)).
        replace ({[dm]} ∪ ({[sc_domain s]} ∪ U)) with ({[sc_domain s]} ∪ ({[dm]} ∪ U)) in IH by set_solver.
        destruct (pass ({[sc_domain s]} ∪ ({[dm]} ∪ U)) l) as [f d], (pass ({[sc_domain s]} ∪ U) l) as [f' d'].
        destruct IH as [[-> ->]|(y & f1 & f2 & d1 & d2 & -> & -> & -> & ->)]; [by left|].
        right. exists y, (s :: f1), f2, d1, d2. done.
  - specialize (IH U HU). destruct (pass ({[dm]} ∪ U) l) as [f d], (pass U l) as [f' d'].
    destruct IH as [[-> ->]|(y & f1 & f2 & d1 & d2 & -> & -> & -> & ->)]; [by left|].
    right. exists y, (s :: f1), f2, d1, d2. done.
Qed.
(** taking one entry out of the ranking moves no other entry back in the preference list *)
Lemma pass_remove x k1 k2 U l1 l2 : earlier x (k1 ++ (pass U (l1 ++ x :: l2)).1 ++ k2 ++ (pass U (l1 ++ x :: l2)).2)
  (k1 ++ (pass U (l1 ++ l2)).1 ++ k2 ++ (pass U (l1 ++ l2)).2).
Proof.
  revert k1 k2 U. induction l1 as [|s l1 IH]; intros k1 k2 U; cbn [app pass].
  - destruct (bool_decide_reflect (sc_domain x ≠ [])) as [Hs|Hs]; cbn [andb];
      [destruct (bool_decide_reflect (sc_domain x ∈ U)) as [Hin|Hout]|].
    + destruct (pass U l2) as [f d]. cbn [fst snd]. repeat apply earlier_app. apply earlier_drop.
    + pose proof (pass_release _ _ l2 Hout Hs) as Hr. destruct (pass ({[sc_domain x]} ∪ U) l2) as [f d], (pass U l2) as [f' d'].
      cbn [fst snd]. apply earlier_app. destruct Hr as [[-> ->]|(y & f1 & f2 & d1 & d2 & -> & -> & -> & ->)]; [apply earlier_drop|].
      pose proof (earlier_replace x y f1 (f2 ++ k2 ++ d1) d2) as Hx.
      rewrite <-!app_assoc in Hx. rewrite <-!app_assoc. cbn [app] in *. by rewrite <-?app_assoc in *.
    + destruct (pass U l2) as [f d]. cbn [fst snd]. apply earlier_app. apply earlier_drop.
  - destruct (_ && _).
    + specialize (IH k1 (k2 ++ [s]) U). destruct (pass U (l1 ++ x :: l2)) as [f d], (pass U (l1 ++ l2)) as [f' d'].
      cbn [fst snd] in *. by rewrite <-!app_assoc in IH.
    + match goal with |- context[pass ?U' (l1 ++ l2)] => specialize (IH (k1 ++ [s]) k2 U');
        destruct (pass U' (l1 ++ x :: l2)) as [f d], (pass U' (l1 ++ l2)) as [f' d'] end.
      cbn [fst snd] in *. by rewrite <-!app_assoc in IH.
Qed.
Lemma preference_remove x l1 l2 : earlier x (preference (l1 ++ x :: l2)) (preference (l1 ++ l2)).
Proof. rewrite !preference_split. exact (pass_remove x [] [] ∅ l1 l2). Qed.

(** ** The ring invariant *)
Record ring_ok (r : HashRing) : Prop := {
  ring_nodup : NoDup (peers r);
  ring_named : [] ∉ peers r;
  ring_domains : forall p, p ∈ peers r <-> is_Some (domains r !! p);
}.
Definition domain (r : HashRing) (p : bytes) : bytes := default [] (domains r !! p).

Lemma NewHashRing_ok : ring_ok NewHashRing.
Proof.
  split; [constructor|apply not_elem_of_nil|]. intros p. cbn [NewHashRing peers domains]. rewrite lookup_empty.
  split; [by intros ?%not_elem_of_nil|by intros [? ?]].
Qed.
Lemma AddPeerWithDomain_ok p d r : ring_ok r -> ring_ok (AddPeerWithDomain p d r).
Proof.
  intros [H1 H2 H3]. unfold AddPeerWithDomain. destruct (bool_decide_reflect (p = [])) as [->|Hp]; [done|].
  assert (forall q, is_Some (<[p:=d]> (domains r) !! q) <-> q = p \/ q ∈ peers r) as Hd.
  { intros q. rewrite lookup_insert_is_Some, H3. destruct (decide (p = q)); naive_solver. }
  destruct (bool_decide_reflect (p ∈ peers r)) as [Hin|Hout]; split; cbn [peers domains]; try done.
  - intros q. rewrite Hd. naive_solver.
  - apply NoDup_app. split_and!; [done| |apply NoDup_singleton]. by intros q Hq ->%list_elem_of_singleton.
  - rewrite elem_of_app, list_elem_of_singleton. naive_solver.
  - intros q. rewrite Hd, elem_of_app, list_elem_of_singleton. tauto.
Qed.
Lemma remove_first_notin x l : x ∉ l -> remove_first x l = l.
Proof.
  induction l as [|p l IH]; [done|]. rewrite not_elem_of_cons. intros [Hx Hl]. cbn [remove_first].
  rewrite bool_decide_eq_false_2 by done. by rewrite IH.
Qed.
Lemma remove_first_app x l1 l2 : x ∉ l1 -> remove_first x (l1 ++ x :: l2) = l1 ++ l2.
Proof.
  induction l1 as [|p l IH]; cbn [app remove_first]; [by rewrite bool_decide_eq_true_2|].
  rewrite not_elem_of_cons. intros [Hx Hl]. rewrite bool_decide_eq_false_2 by done. by rewrite IH.
Qed.
Lemma RemovePeer_split x r : ring_ok r -> x ∈ peers r ->
  exists l1 l2, peers r = l1 ++ x :: l2 /\ peers (RemovePeer x r) = l1 ++ l2 /\ x ∉ l1 ++ l2.
Proof.
  intros [H1 _ _] Hx. apply list_elem_of_split in Hx as (l1 & l2 & E). exists l1, l2. rewrite E in H1.
  apply NoDup_app in H1 as (_ & Hn & [Hx2 _]%NoDup_cons).
  assert (x ∉ l1) as Hx1 by (intros Hx; apply (Hn x Hx); left).
  split_and!; [done|cbn [RemovePeer peers]; rewrite E; by apply remove_first_app|rewrite elem_of_app; tauto].
Qed.
Lemma RemovePeer_ok x r : ring_ok r -> ring_ok (RemovePeer x r).
Proof.
  intros Hr. pose proof Hr as [H1 H2 H3]. destruct (decide (x ∈ peers r)) as [Hx|Hx].
  - destruct (RemovePeer_split x r Hr Hx) as (l1 & l2 & E & E' & Hn). rewrite E in H1, H2, H3. split; rewrite ?E'.
    + rewrite NoDup_app in *. rewrite NoDup_cons in H1. split_and!; [tauto| |tauto]. intros q Hq Hq2.
      destruct H1 as (_ & H1 & _). apply (H1 q Hq). by right.
    + rewrite !elem_of_app, elem_of_cons in *. tauto.
    + intros q. cbn [RemovePeer domains]. rewrite lookup_delete_is_Some, <-H3, !elem_of_app, elem_of_cons.
      rewrite elem_of_app in Hn. naive_solver.
  - unfold RemovePeer. rewrite remove_first_notin by done. rewrite delete_id; [by destruct r|].
    apply eq_None_not_Some. by rewrite <-H3.
Qed.

Section assign.
Context `{Multiformats}.
Implicit Types (r : HashRing) (m : MID).

Lemma ranking_perm r m : map sc_peer (ranking r m) ≡ₚ peers r.
Proof.
unfold ranking. rewrite merge_sort_Permutation, map_map. cbn [score_of sc_peer]. by rewrite map_id.
Qed.
Lemma ranking_sorted r m : StronglySorted ranks (ranking r m).
Proof. apply StronglySorted_merge_sort; apply _. Qed.
Lemma ranking_entry r m sc : sc ∈ ranking r m -> sc = score_of r m (sc_peer sc).
Proof.
unfold ranking. rewrite merge_sort_Permutation. by intros (p & -> & _)%list_elem_of_fmap.
Qed.
Lemma ranking_length r m : length (ranking r m) = length (peers r).
Proof. rewrite <-(length_map sc_peer). by rewrite ranking_perm. Qed.

(** all peers, the most preferred first *)
Definition preferred r m : list bytes := map sc_peer (preference (ranking r m)).
Lemma preferred_perm r m : preferred r m ≡ₚ peers r.
Proof. unfold preferred. by rewrite preference_perm, ranking_perm. Qed.
Lemma Assign_preferred r m k : Assign r m k =
if IsZero m then Err (New "shard: zero MID") else
if k <? MinReplicas then Err (New "shard: replicas below minimum") else
if MaxReplicas <? k then Err (New "shard: replicas above maximum") else
if bool_decide (peers r = []) then Err (New "shard: no peers in ring") else
Ok (take (Z.to_nat k) (preferred r m)).
Proof.
unfold Assign. destruct (IsZero m), (k <? MinReplicas), (MaxReplicas <? k), (bool_decide (peers r = [])); try done.
cbv zeta. set (n := if zlen (ranking r m) <? k then length (ranking r m) else Z.to_nat k). pose proof (select_preference n (ranking r m)) as Hs.
destruct (select n (ranking r m) [] ∅ []) as [s d]. rewrite Hs. fold (preferred r m). f_equal.
unfold n. destruct (Z.ltb_spec (zlen (ranking r m)) k) as [Hlt|]; [|done].
assert (length (preferred r m) = length (ranking r m)) as Hl by by rewrite preferred_perm, ranking_length.
unfold zlen in Hlt. rewrite !firstn_all2 by lia. done.
Qed.
Lemma Assign_Ok_iff r m k l : Assign r m k = Ok l <->
(IsZero m = false /\ MinReplicas <= k <= MaxReplicas /\ peers r ≠ []) /\ l = take (Z.to_nat k) (preferred r m).
Proof.
rewrite Assign_preferred. destruct (IsZero m); [naive_solver|].
destruct (Z.ltb_spec k MinReplicas), (Z.ltb_spec MaxReplicas k), (bool_decide_reflect (peers r = []));
  try (split; [done|intros [(_ & ? & ?) _]; first [lia|done]]).
split; [intros [= <-]; split_and!; done || lia|by intros [_ ->]].
Qed.

(** ** Removal of a peer *)
Lemma ranking_remove r x m : ring_ok r -> x ∈ peers r -> exists sx l1 l2,
sc_peer sx = x /\ ranking r m = l1 ++ sx :: l2 /\ ranking (RemovePeer x r) m = l1 ++ l2.
Proof.
intros Hr Hx. pose proof (RemovePeer_ok x r Hr) as Hr'. destruct (RemovePeer_split x r Hr Hx) as (p1 & p2 & E & E' & Hn).
assert (score_of r m x ∈ ranking r m) as Hin.
{ unfold ranking. rewrite merge_sort_Permutation. by apply list_elem_of_fmap_2. }
apply list_elem_of_split in Hin as (l1 & l2 & El). exists (score_of r m x), l1, l2. split_and!; [done..|].
assert (l1 ++ l2 ≡ₚ ranking (RemovePeer x r) m) as Hp.
{ apply (Permutation_cons_inv (a := score_of r m x)). rewrite Permutation_middle, <-El. unfold ranking.
  rewrite !merge_sort_Permutation, E, E', !map_app, map_cons, <-Permutation_middle.
  assert (forall l : list bytes, x ∉ l -> map (score_of r m) l = map (score_of (RemovePeer x r) m) l) as Hm.
  { intros l Hl. apply map_ext_in. intros q Hq%list_elem_of_In. unfold score_of. cbn [RemovePeer domains].
    rewrite lookup_delete_ne; [done|]. by intros ->. }
  rewrite elem_of_app in Hn. rewrite !Hm by tauto. done. }
symmetry. apply (sorted_unique_key ranks sc_peer); [exact ranks_antisym| |done| |apply ranking_sorted].
- rewrite Hp, ranking_perm. apply Hr'.
- pose proof (ranking_sorted r m) as Hs. rewrite El in Hs.
  replace (l1 ++ l2) with (filter (λ sc, sc_peer sc ≠ x) (l1 ++ score_of r m x :: l2)); [by apply StronglySorted_filter|].
  pose proof (ring_nodup r Hr) as Hd. rewrite <-(ranking_perm r m), El, map_app, map_cons in Hd.
  apply NoDup_app in Hd as (_ & Hd1 & [Hd2 _]%NoDup_cons).
  assert (forall l : list scored, x ∉ map sc_peer l -> filter (λ sc, sc_peer sc ≠ x) l = l) as Hf.
  { intros l Hl. clear -Hl. induction l as [|a l IH]; [done|]. cbn [map] in Hl. rewrite not_elem_of_cons in Hl.
    rewrite filter_cons_True by naive_solver. by rewrite IH by tauto. }
  rewrite filter_app, filter_cons_False by (cbn [score_of sc_peer]; naive_solver). rewrite !Hf; [done|exact Hd2|].
  intros Hi. apply (Hd1 x Hi). left.
Qed.
Lemma preferred_remove r x m : ring_ok r -> x ∈ peers r -> earlier x (preferred r m) (preferred (RemovePeer x r) m).
Proof.
intros Hr Hx. destruct (ranking_remove r x m Hr Hx) as (sx & l1 & l2 & Hp & E & E'). unfold preferred. rewrite E, E'.
intros n p. rewrite !firstn_map. intros (sc & -> & Hsc)%list_elem_of_fmap.
destruct (preference_remove sx l1 l2 n sc Hsc) as [->|Hsc']; [by left|right]. by apply list_elem_of_fmap_2.
Qed.
End assign.

(** ** The spread over the domains *)
Lemma entry_domain `{Multiformats} r m sc : sc ∈ ranking r m -> sc_domain sc = domain r (sc_peer sc).
Proof. intros Hs. by rewrite (ranking_entry r m sc Hs). Qed.
Lemma peer_entry `{Multiformats} r m p : p ∈ peers r -> score_of r m p ∈ ranking r m.
Proof. intros Hp. unfold ranking. rewrite merge_sort_Permutation. by apply list_elem_of_fmap_2. Qed.
(** two selected peers of one domain: the first pass was exhausted *)
Lemma first_pass_exhausted `{Multiformats} r m n p q : p ≠ q -> domain r p = domain r q -> domain r p ≠ [] ->
  p ∈ take n (preferred r m) -> q ∈ take n (preferred r m) ->
  forall sc, sc ∈ (pass ∅ (ranking r m)).1 -> sc_peer sc ∈ take n (preferred r m).
Proof.
  intros Hpq Hd Hne. unfold preferred. rewrite preference_split. pose proof (pass_perm ∅ (ranking r m)) as Hperm.
  destruct (pass ∅ (ranking r m)) as [f d] eqn:E. cbn [fst snd] in *. apply pass_first in E as (_ & _ & H3).
  rewrite map_app, take_app, length_map. destruct (decide (n ≤ length f)%nat) as [Hn|Hn].
  - replace (n - length f)%nat with 0%nat by lia. cbn [take]. rewrite app_nil_r. intros Hp Hq. exfalso.
    apply elem_of_take in Hp as (i & Hi & _). apply elem_of_take in Hq as (j & Hj & _).
    rewrite list_lookup_fmap in Hi, Hj. apply fmap_Some in Hi as (a & Ha & ->). apply fmap_Some in Hj as (b & Hb & ->).
    assert (forall c x, f !! c = Some x -> sc_domain x = domain r (sc_peer x)) as He.
    { intros c x Hx. apply (entry_domain r m). rewrite <-Hperm. apply elem_of_app. left. by eapply list_elem_of_lookup_2. }
    pose proof (He _ _ Ha) as Ea. pose proof (He _ _ Hb) as Eb.
    pose proof (H3 i j a b Ha Hb ltac:(congruence) ltac:(congruence)). congruence.
  - intros _ _ sc Hsc. rewrite firstn_all2 by (rewrite length_map; lia). apply elem_of_app. left. by apply list_elem_of_fmap_2.
Qed.
Lemma spread `{Multiformats} r m n p q x : p ≠ q -> domain r p = domain r q -> domain r p ≠ [] ->
  p ∈ take n (preferred r m) -> q ∈ take n (preferred r m) -> x ∈ peers r ->
  x ∈ take n (preferred r m) \/ domain r x ≠ [] /\ exists y, y ∈ take n (preferred r m) /\ domain r y = domain r x.
Proof.
  intros Hpq Hd Hne Hp Hq Hx. pose proof (first_pass_exhausted r m n p q Hpq Hd Hne Hp Hq) as Hf.
  pose proof (pass_perm ∅ (ranking r m)) as Hperm. destruct (pass ∅ (ranking r m)) as [f d] eqn:E. cbn [fst snd] in *.
  apply pass_first in E as (H1 & _). destruct (H1 _ (peer_entry r m x Hx)) as [Hi|(_ & Hn & [?%not_elem_of_empty|(sc & Hsc & Esc)])]; [|done|].
  - left. exact (Hf _ Hi).
  - right. split; [exact Hn|]. exists (sc_peer sc). split; [by apply Hf|]. rewrite <-(entry_domain r m); [exact Esc|].
    rewrite <-Hperm. apply elem_of_app. by left.
Qed.
(** *** The order of an answer *)
(** a peer without a failure domain, or the best one of its domain *)
Definition leader `{Multiformats} r m p : Prop := domain r p = [] \/
  forall q, q ∈ peers r -> domain r q = domain r p -> ranks (score_of r m p) (score_of r m q).
(** leaders come first, and otherwise the higher score *)
Definition goes_first `{Multiformats} r m p q : Prop :=
  leader r m p /\ ¬ leader r m q \/ (leader r m p <-> leader r m q) /\ ranks (score_of r m p) (score_of r m q).

Lemma first_pass_leads `{Multiformats} r m sc : ring_ok r -> sc ∈ (pass ∅ (ranking r m)).1 -> leader r m (sc_peer sc).
Proof.
  intros Hr Hsc. assert (sc ∈ ranking r m) as Hin.
  { rewrite <-(pass_perm ∅ (ranking r m)), elem_of_app. by left. }
  unfold leader. rewrite <-(entry_domain r m) by done. destruct (decide (sc_domain sc = [])) as [|Hd]; [by left|right].
  intros q Hq Hdq. rewrite <-(ranking_entry r m sc Hin).
  apply (pass_lead ∅ _ (ranking_sorted r m) sc Hsc Hd); [by apply peer_entry|]. exact Hdq.
Qed.
Lemma second_pass_follows `{Multiformats} r m sc : ring_ok r -> sc ∈ (pass ∅ (ranking r m)).2 -> ¬ leader r m (sc_peer sc).
Proof.
  intros Hr Hsc. pose proof (pass_perm ∅ (ranking r m)) as Hperm. pose proof (pass_lead ∅ _ (ranking_sorted r m)) as Hlead.
  destruct (pass ∅ (ranking r m)) as [f d] eqn:E. cbn [fst snd] in *.
  assert (sc ∈ ranking r m) as Hin by (rewrite <-Hperm, elem_of_app; by right).
  assert (forall x, x ∈ f -> sc_peer x ≠ sc_peer sc) as Hne.
  { intros x Hx Ex. assert (NoDup (map sc_peer (f ++ d))) as Hnd by (rewrite Hperm, ranking_perm; apply Hr).
    rewrite map_app in Hnd. apply NoDup_app in Hnd as (_ & Hnd & _).
    apply (Hnd (sc_peer x)); [by apply list_elem_of_fmap_2|]. rewrite Ex. by apply list_elem_of_fmap_2. }
  destruct (pass_first _ _ _ _ E) as (H1 & _).
  destruct (H1 sc Hin) as [Hf|(_ & Hd & [?%not_elem_of_empty|(x & Hx & Ex)])]; [by destruct (Hne sc Hf)|done|].
  assert (x ∈ ranking r m) as Hxin by (rewrite <-Hperm, elem_of_app; by left).
  unfold leader. rewrite <-(entry_domain r m) by done. intros [?|Hl]; [done|].
  apply (Hne x Hx), ranks_antisym.
  - apply (Hlead x Hx); [congruence|done..].
  - rewrite (ranking_entry r m sc Hin), (ranking_entry r m x Hxin). cbn [score_of sc_peer]. apply Hl.
    + rewrite <-(ranking_perm r m). by apply list_elem_of_fmap_2.
    + by rewrite <-(entry_domain r m).
Qed.
Lemma preferred_sorted `{Multiformats} r m : ring_ok r -> StronglySorted (goes_first r m) (preferred r m).
Proof.
  intros Hr. unfold preferred. rewrite preference_split, map_app.
  destruct (pass_sublist ∅ (ranking r m)) as [Hf Hd]. pose proof (ranking_sorted r m) as Hs.
  pose proof (λ sc, first_pass_leads r m sc Hr) as Hlf. pose proof (λ sc, second_pass_follows r m sc Hr) as Hld.
  pose proof (StronglySorted_sublist ranks _ _ Hf Hs) as Hsf. pose proof (StronglySorted_sublist ranks _ _ Hd Hs) as Hsd.
  assert (forall sc, sc ∈ (pass ∅ (ranking r m)).1 \/ sc ∈ (pass ∅ (ranking r m)).2 -> sc = score_of r m (sc_peer sc)) as He.
  { intros sc Hsc. apply ranking_entry. rewrite <-(pass_perm ∅ (ranking r m)), elem_of_app. done. }
  destruct (pass ∅ (ranking r m)) as [f d]. cbn [fst snd] in *. clear Hf Hd.
  assert (StronglySorted (goes_first r m) (map sc_peer d)) as Hsd'.
  { clear Hsf Hlf. induction Hsd as [|a l Hl IH Ha]; [constructor|]. cbn [map]. rewrite Forall_forall in Ha. constructor.
    - apply IH; [intros; apply Hld; by right|]. intros sc [|]; apply He; [by left|right; by right].
    - apply Forall_fmap, Forall_forall. intros b Hb. right.
      split; [split; intros Hx; [destruct (Hld a ltac:(left) Hx)|destruct (Hld b ltac:(by right) Hx)]|].
      rewrite <-(He a), <-(He b) by (right; first [by left|by right]). by apply Ha. }
  induction Hsf as [|a l Hl IH Ha]; [done|]. cbn [map app]. rewrite Forall_forall in Ha. constructor.
  - apply IH; [intros; apply Hlf; by right|]. intros sc [|]; apply He; [left; by right|by right].
  - apply Forall_app. split; apply Forall_fmap, Forall_forall; intros b Hb.
    + right. split; [split; intros _; [apply Hlf; by right|apply Hlf; left]|].
      rewrite <-(He a), <-(He b) by (left; first [by left|by right]). by apply Ha.
    + left. split; [apply Hlf; left|by apply Hld].
Qed.

Lemma remove_added x d r : ring_ok r -> x ≠ [] -> x ∉ peers r -> RemovePeer x (AddPeerWithDomain x d r) = r.
Proof.
  intros Hr Hne Hx. unfold AddPeerWithDomain, RemovePeer. rewrite !bool_decide_eq_false_2 by done. cbn [peers domains].
  rewrite remove_first_app, app_nil_r by done. rewrite delete_insert_id; [by destruct r|].
  apply eq_None_not_Some. by rewrite <-(ring_domains r Hr).
Qed.
Lemma IsOwner_iff `{Multiformats} r p m k : ring_ok r ->
  IsOwner r p m k = true <-> IsZero m = false /\ MinReplicas <= k <= MaxReplicas /\ p ∈ take (Z.to_nat k) (preferred r m).
Proof.
  intros Hr. unfold IsOwner. destruct (IsZero m) eqn:Hz.
  { rewrite orb_true_r. naive_solver. }
  destruct (bool_decide_reflect (p = [])) as [->|Hp]; cbn [orb].
  { split; [done|]. intros (_ & _ & Hin%subseteq_take). rewrite preferred_perm in Hin. by destruct (ring_named r Hr). }
  destruct (Assign r m k) as [l|e] eqn:E.
  - apply Assign_Ok_iff in E as [(_ & Hk & _) ->]. rewrite bool_decide_eq_true. tauto.
  - split; [done|]. intros (_ & Hk & Hin). exfalso.
    assert (Assign r m k = Ok (take (Z.to_nat k) (preferred r m))) as E'; [|by rewrite E' in E].
    apply Assign_Ok_iff. split_and!; try done || lia. intros En. apply subseteq_take in Hin.
    rewrite preferred_perm, En in Hin. by apply not_elem_of_nil in Hin.
Qed.
Lemma IsOwner_leave `{Multiformats} r x p m k : ring_ok r -> x ∈ peers r -> p ≠ x ->
  IsOwner r p m k = true -> IsOwner (RemovePeer x r) p m k = true.
Proof.
  intros Hr Hx Hp. rewrite !IsOwner_iff by first [done|by apply RemovePeer_ok]. intros (? & ? & Hin). split_and!; try done || lia.
  by destruct (preferred_remove r x m Hr Hx _ _ Hin).
Qed.
Lemma take_same {A} (x : A) l l' n : NoDup l -> NoDup l' -> length l = S (length l') -> x ∈ l ->
  earlier x l l' -> x ∉ take n l -> take n l ≡ₚ take n l'.
Proof.
  intros Hnd Hnd' Hlen Hx He Hn. apply submseteq_length_Permutation.
  - apply NoDup_submseteq; [eapply sublist_NoDup; [exact Hnd|apply sublist_take]|].
    intros p Hp. destruct (He n p Hp) as [->|]; done.
  - rewrite !length_take. destruct (decide (length l ≤ n)%nat); [|lia]. rewrite firstn_all2 in Hn by done. done.
Qed.
Lemma IsOwner_unaffected `{Multiformats} r x p m k : ring_ok r -> x ∈ peers r -> IsOwner r x m k = false ->
  IsOwner (RemovePeer x r) p m k = IsOwner r p m k.
Proof.
  intros Hr Hx Hn. pose proof (RemovePeer_ok x r Hr) as Hr'. apply eq_bool_prop_intro. rewrite !Is_true_true, !IsOwner_iff by done.
  destruct (decide (IsZero m = false /\ MinReplicas <= k <= MaxReplicas)) as [Hc|Hc]; [|naive_solver].
  assert (take (Z.to_nat k) (preferred r m) ≡ₚ take (Z.to_nat k) (preferred (RemovePeer x r) m)) as Hp.
  { apply (take_same x).
    - rewrite preferred_perm. apply Hr.
    - rewrite preferred_perm. apply Hr'.
    - rewrite !preferred_perm. destruct (RemovePeer_split x r Hr Hx) as (l1 & l2 & -> & -> & _).
      rewrite !length_app. cbn [length]. lia.
    - by rewrite preferred_perm.
    - by apply preferred_remove.
    - intros Hin. apply not_true_iff_false in Hn. apply Hn. apply IsOwner_iff; [done|]. tauto. }
  by rewrite Hp.
Qed.

Lemma add_removed x r : ring_ok r -> x ∈ peers r ->
  AddPeerWithDomain x (domain r x) (RemovePeer x r) = mkRing (peers (RemovePeer x r) ++ [x]) (domains r).
Proof.
  intros Hr Hx. assert (x ≠ []) as Hne by (intros ->; by destruct (ring_named r Hr)).
  destruct (RemovePeer_split x r Hr Hx) as (l1 & l2 & _ & E & Hn). unfold AddPeerWithDomain.
  rewrite !bool_decide_eq_false_2 by first [done|by rewrite E]. f_equal. cbn [RemovePeer domains]. unfold domain.
  apply (ring_domains r Hr) in Hx as [d Hd]. rewrite Hd. cbn [default]. rewrite insert_delete_eq. by apply insert_id.
Qed.
Lemma filter_none {A} (P : A -> Prop) `{!forall x, Decision (P x)} l : (forall x, ~ P x) -> filter P l = [].
Proof. intros Hn. induction l as [|x l IH]; [done|]. by rewrite filter_cons_False. Qed.
Lemma migration_minimal `{Multiformats} r x local mids k : ring_ok r -> x ∈ peers r -> local ≠ x ->
  (exists given, ComputeMigration (Some (RemovePeer x r)) (Some r) local mids k = ([], given) /\
     forall m, m ∈ given -> IsOwner r x m k = true) /\
  (exists taken, ComputeMigration (Some r) (Some (RemovePeer x r)) local mids k = (taken, []) /\
     forall m, m ∈ taken -> IsOwner r x m k = true).
Proof.
  intros Hr Hx Hl. cbn [ComputeMigration].
  assert (forall m, IsOwner r local m k = true -> IsOwner (RemovePeer x r) local m k = true) as H1 by (intros m; by apply IsOwner_leave).
  assert (forall m, IsOwner (RemovePeer x r) local m k = true -> IsOwner r local m k = false -> IsOwner r x m k = true) as H2.
  { intros m Ht Hf. apply not_false_iff_true. intros Hn. rewrite (IsOwner_unaffected r x) in Ht by done. congruence. }
  destruct (bool_decide (local = [])).
  { split; exists []; (split; [done|intros m Hm; by apply not_elem_of_nil in Hm]). }
  split; eexists; (split; [f_equal; apply filter_none; intros m [Ha Hb]; first [specialize (H1 m Ha)|specialize (H1 m Hb)]; congruence|]);
    intros m [[Ha Hb] _]%list_elem_of_filter; by apply H2.
Qed.

Lemma owners_fold (self : bytes) (blk : SBlock) (owners : list bytes) (dist : Distribution) (pid : bytes) : NoDup owners ->
  foldl (λ dist pid, if bool_decide (pid = self) then dist
      else <[pid := default [] (dist !! pid) ++ [blk]]> dist) dist owners !! pid =
  if bool_decide (pid ≠ self) && bool_decide (pid ∈ owners) then Some (default [] (dist !! pid) ++ [blk]) else dist !! pid.
Proof.
  revert dist. induction owners as [|o os IH]; intros dist Hnd; cbn [foldl].
  { rewrite (bool_decide_eq_false_2 (pid ∈ [])) by apply not_elem_of_nil. by rewrite andb_false_r. }
  apply NoDup_cons in Hnd as [Ho Hnd]. rewrite IH by done. clear IH.
  destruct (bool_decide_reflect (pid ≠ self)) as [Hps|Hps]; cbn [andb].
  - destruct (decide (pid = o)) as [->|Hne].
    + rewrite (bool_decide_eq_false_2 (o ∈ os)), (bool_decide_eq_true_2 (o ∈ o :: os)) by first [done|left].
      rewrite (bool_decide_eq_false_2 (o = self)) by done. by rewrite lookup_insert_eq.
    + assert (bool_decide (pid ∈ o :: os) = bool_decide (pid ∈ os)) as ->.
      { apply bool_decide_ext. rewrite elem_of_cons. naive_solver. }
      destruct (bool_decide (o = self)); [done|]. by rewrite lookup_insert_ne.
  - assert (pid = self) as -> by (by destruct (decide (pid = self))).
    destruct (bool_decide_reflect (o = self)); [done|]. by rewrite lookup_insert_ne.
Qed.
Lemma dist_step_lookup `{Multiformats} (r : HashRing) (self : bytes) (k : Z) (dist : Distribution) (blk : SBlock) (pid : bytes) : ring_ok r ->
  dist_step r self k dist blk !! pid =
  if bool_decide (pid ≠ self) && IsOwner r pid (sb_MID blk) k then Some (default [] (dist !! pid) ++ [blk]) else dist !! pid.
Proof.
  intros Hr. pose proof (IsOwner_iff r pid (sb_MID blk) k Hr) as Ho. unfold dist_step.
  destruct (Assign r (sb_MID blk) k) as [l|e] eqn:E.
  - pose proof E as [(Hz & Hk & _) Hl]%Assign_Ok_iff. rewrite owners_fold.
    + replace (IsOwner r pid (sb_MID blk) k) with (bool_decide (pid ∈ l)); [done|]. apply eq_bool_prop_intro.
      rewrite !Is_true_true, Ho, bool_decide_eq_true, <-Hl. tauto.
    + rewrite Hl. eapply sublist_NoDup; [|apply sublist_take]. rewrite preferred_perm. apply Hr.
  - unfold IsOwner in *. rewrite E in *. destruct (bool_decide (pid = []) || IsZero (sb_MID blk)); by rewrite andb_false_r.
Qed.
Lemma distribution_from `{Multiformats} (r : HashRing) (self : bytes) (k : Z) (shards : list SBlock) (dist : Distribution) (pid : bytes) : ring_ok r ->
  foldl (dist_step r self k) dist shards !! pid =
  let mine := filter (λ blk, IsOwner r pid (sb_MID blk) k = true) shards in
  if bool_decide (pid = self) || bool_decide (mine = []) then dist !! pid else Some (default [] (dist !! pid) ++ mine).
Proof.
  intros Hr. revert dist. induction shards as [|blk shards IH]; intros dist; cbn [foldl]; cbv zeta.
  { rewrite filter_nil, (bool_decide_eq_true_2 (_ = [])) by done. by rewrite orb_true_r. }
  rewrite IH, dist_step_lookup by done. rewrite filter_cons. cbv zeta.
  destruct (bool_decide_reflect (pid = self)) as [->|Hne].
  { by rewrite (bool_decide_eq_false_2 (self ≠ self)) by auto. }
  rewrite (bool_decide_eq_true_2 (pid ≠ self)) by done. cbn [orb andb].
  destruct (IsOwner r pid (sb_MID blk) k).
  - rewrite decide_True by done. rewrite (bool_decide_eq_false_2 (_ :: _ = [])) by done. cbn [default].
    destruct (bool_decide_reflect (filter (λ blk0, IsOwner r pid (sb_MID blk0) k = true) shards = [])) as [->|]; [done|].
    cbn [from_option]. unfold id. by rewrite <-app_assoc.
  - by rewrite decide_False.
Qed.

(** ** Persistence *)
Lemma AddPeers_fresh ps r : NoDup ps -> [] ∉ ps -> (forall p, p ∈ ps -> p ∉ peers r) ->
  peers (foldl (λ r p, AddPeer p r) r ps) = peers r ++ ps.
Proof.
  revert r. induction ps as [|p ps IH]; intros r Hnd Hne Hf; cbn [foldl]; [by rewrite app_nil_r|].
  apply NoDup_cons in Hnd as [Hp Hnd]. apply not_elem_of_cons in Hne as [Hne Hne'].
  assert (peers (AddPeer p r) = peers r ++ [p]) as E.
  { unfold AddPeer, AddPeerWithDomain. rewrite !bool_decide_eq_false_2 by first [done|by apply Hf; left]. done. }
  rewrite IH; [by rewrite E, <-app_assoc|done..|]. intros q Hq. rewrite E, elem_of_app, list_elem_of_singleton.
  intros [Hin| ->]; [|done]. apply (Hf q); [by right|done].
Qed.
(** [AddPeer] and [LoadPeers] set the domain of a peer the ring knows to the empty one *)
Lemma AddPeer_resets_domain p r : p ≠ [] -> domain (AddPeer p r) p = [].
Proof.
  intros Hp. unfold AddPeer, AddPeerWithDomain, domain. rewrite bool_decide_eq_false_2 by done.
  cbn [domains]. by rewrite lookup_insert_eq.
Qed.
Lemma LoadPeers_resets_domain `{PeersJSON} ps r p : p ∈ ps -> p ≠ [] -> domain (foldl (λ r p, AddPeer p r) r ps) p = [].
Proof.
  intros Hp Hne. apply list_elem_of_split in Hp as (l1 & l2 & ->). rewrite foldl_app. cbn [foldl].
  generalize (foldl (λ r p, AddPeer p r) r l1). clear l1. intros r0. pose proof (AddPeer_resets_domain p r0 Hne) as Hd.
  revert Hd. generalize (AddPeer p r0). induction l2 as [|q l2 IH]; intros r1 Hd; cbn [foldl]; [done|]. apply IH.
  destruct (decide (q = p)) as [->|Hq]; [by apply AddPeer_resets_domain|].
  unfold AddPeer, AddPeerWithDomain, domain in *. destruct (bool_decide (q = [])); [done|]. cbn [domains].
  by rewrite lookup_insert_ne.
Qed.
Lemma Persist_Load `{PeersJSON} `{!PeersJSONLaws} env env' ps d d' :
  NoDup ps -> [] ∉ ps -> io_get env' keyRingPeers = None ->
  PersistPeers env ps (Some d) = (Ok tt, Some d') ->
  exists r, LoadPeers env' (Some d') (Some NewHashRing) = (Ok tt, Some r) /\ peers r = ps /\ ring_ok r.
Proof.
  intros Hnd Hne Hio. unfold PersistPeers, db_Set, LoadPeers, db_Get. destruct (peers_Marshal ps) as [data|] eqn:E; [|done].
  destruct (db_closed d) eqn:Hc; [done|]. destruct (io_set env keyRingPeers); [done|]. intros [= <-].
  cbn [db_closed kv]. rewrite Hio, lookup_insert_eq, (peers_roundtrip _ _ E). eexists. split; [done|]. split.
  - rewrite AddPeers_fresh; [done..|]. intros p _. apply not_elem_of_nil.
  - clear. assert (forall r, ring_ok r -> ring_ok (foldl (λ r p, AddPeer p r) r ps)) as Hf; [|apply Hf, NewHashRing_ok].
    induction ps as [|p ps IH]; intros r Hr; [done|]. apply IH. by apply AddPeerWithDomain_ok.
Qed.

Section theorems.
Context `{Multiformats}.
Implicit Types (r : HashRing) (m : MID) (k : Z).

(** C23: for a ring kept by its operations, [Assign] answers exactly when the MID is set,
    the replica count is between 1 and 64 and a peer is registered; the answer has
    min(replicas, peers) different peers of the ring, in the order of preference, and every
    peer left out comes after all of them: the leaders first - the peers without a failure
    domain and the best scored one of each domain -, then the others, each kind by score,
    the highest first, and equal scores by name.  So the answer is determined.  When two of
    its peers share a failure domain, it has every peer without a domain and a peer of every
    domain of the ring. *)
Theorem Assign_spec r m k : ring_ok r ->
  (is_ok (Assign r m k) = true <-> IsZero m = false /\ MinReplicas <= k <= MaxReplicas /\ peers r ≠ []) /\
  forall l, Assign r m k = Ok l ->
    zlen l = Z.min k (Len r) /\ NoDup l /\ (forall p, p ∈ l -> p ∈ peers r) /\
    (forall p q, p ∈ l -> q ∈ l -> p ≠ q -> domain r p = domain r q -> domain r p ≠ [] ->
      forall x, x ∈ peers r -> x ∈ l \/ domain r x ≠ [] /\ exists y, y ∈ l /\ domain r y = domain r x) /\
    StronglySorted (goes_first r m) l /\
    (forall p q, p ∈ l -> q ∈ peers r -> q ∉ l -> goes_first r m p q).
Proof.
  intros Hr. split.
  { destruct (Assign r m k) as [l|e] eqn:E; cbn [is_ok].
    - apply Assign_Ok_iff in E as [E _]. tauto.
    - split; [done|]. intros Hc. assert (Assign r m k = Ok (take (Z.to_nat k) (preferred r m))) as E' by by apply Assign_Ok_iff.
      by rewrite E' in E. }
  intros l ((_ & Hk & _) & ->)%Assign_Ok_iff. pose proof (preferred_perm r m) as Hp. unfold MinReplicas, MaxReplicas in Hk. split_and!.
  - unfold Len, zlen. rewrite length_take, Hp. lia.
  - eapply sublist_NoDup; [|apply sublist_take]. rewrite Hp. apply Hr.
  - intros p Hpl. rewrite <-Hp. eapply subseteq_take. exact Hpl.
  - intros p q ? Hq Hpq Hd Hne x Hx. by apply (spread r m _ p q).
  - eapply StronglySorted_sublist; [apply sublist_take|by apply preferred_sorted].
  - intros p q Hpl Hq Hn. rewrite <-Hp, <-(take_drop (Z.to_nat k) (preferred r m)) in Hq.
    apply elem_of_app in Hq as [?|Hq]; [done|]. pose proof (preferred_sorted r m Hr) as Hs.
    rewrite <-(take_drop (Z.to_nat k) (preferred r m)) in Hs. by eapply StronglySorted_app_1_elem_of.
Qed.

(** the placement plan gives each remote peer exactly the shards it owns, in the order of
    the shard set and as often as they occur there; it never names this node and has no
    empty entry. *)
Theorem shardDistribution_exact r self k shards : ring_ok r ->
  forall pid, shardDistribution (Some r) self k shards !! pid =
    let mine := filter (λ blk, IsOwner r pid (sb_MID blk) k = true) shards in
    if bool_decide (pid = self) || bool_decide (mine = []) then None else Some mine.
Proof.
  intros Hr pid. pose proof (distribution_from r self k shards ∅ pid Hr) as Hd. cbn [shardDistribution].
  rewrite Hd, lookup_empty. cbn [default app]. by destruct (bool_decide (pid = self)).
Qed.

(** minimal disruption.  When a peer leaves, every other owner of a MID stays an owner,
    and if the peer was not an owner the owners are the same; a peer that joins undoes its
    leaving.  So on a join no other peer gains a MID and what it loses the new peer owns;
    on a leave no other peer loses a MID, and what it gains the peer that left owned. *)
Theorem minimal_disruption r x : ring_ok r -> x ∈ peers r ->
  (forall p m k, p ≠ x -> IsOwner r p m k = true -> IsOwner (RemovePeer x r) p m k = true) /\
  (forall p m k, IsOwner r x m k = false -> IsOwner (RemovePeer x r) p m k = IsOwner r p m k) /\
  (forall d, domain r x = d -> AddPeerWithDomain x d (RemovePeer x r) = mkRing (peers (RemovePeer x r) ++ [x]) (domains r)) /\
  (forall r0 d, ring_ok r0 -> x ∉ peers r0 -> RemovePeer x (AddPeerWithDomain x d r0) = r0) /\
  (forall local mids k, local ≠ x ->
     (exists given, ComputeMigration (Some (RemovePeer x r)) (Some r) local mids k = ([], given) /\
        forall m, m ∈ given -> IsOwner r x m k = true) /\
     (exists taken, ComputeMigration (Some r) (Some (RemovePeer x r)) local mids k = (taken, []) /\
        forall m, m ∈ taken -> IsOwner r x m k = true)).
Proof.
  intros Hr Hx. assert (x ≠ []) as Hne by (intros ->; by destruct (ring_named r Hr)). split_and!.
  - intros p m k Hp. by apply IsOwner_leave.
  - intros p m k. by apply IsOwner_unaffected.
  - intros d <-. by apply add_removed.
  - intros r0 d H0 Hx0. by apply remove_added.
  - intros local mids k Hl. by apply migration_minimal.
Qed.
End theorems.

(** ** Witnesses: four peers, two of them in one domain *)
Definition demo_ring : HashRing :=
  AddPeer (lit "d") (AddPeerWithDomain (lit "c") (lit "rack2")
    (AddPeerWithDomain (lit "b") (lit "rack1") (AddPeerWithDomain (lit "a") (lit "rack1") NewHashRing))).
Lemma demo_ring_ok : ring_ok demo_ring.
Proof. repeat apply AddPeerWithDomain_ok. apply NewHashRing_ok. Qed.
Example demo_assign : Assign demo_ring demo_mid 3 = Ok (lit <$> ["d"; "c"; "b"]%string).
Proof. vm_compute. reflexivity. Qed.
Example demo_assign_all : Assign demo_ring demo_mid 9 = Ok (lit <$> ["d"; "c"; "b"; "a"]%string).
Proof. vm_compute. reflexivity. Qed.

(** with failure domains the answer is not ordered by score: the second best peer comes last *)
Definition demo_racks : HashRing :=
  AddPeer (lit "b") (AddPeerWithDomain (lit "c") (lit "rack") (AddPeerWithDomain (lit "d") (lit "rack") NewHashRing)).
Lemma answer_not_by_score :
  map sc_peer (ranking demo_racks demo_mid) = lit <$> ["d"; "c"; "b"]%string /\
  Assign demo_racks demo_mid 3 = Ok (lit <$> ["d"; "b"; "c"]%string).
Proof. split; vm_compute; reflexivity. Qed.

Definition demo_four : list bytes := lit <$> ["d"; "c"; "b"; "a"]%string.
Lemma Assign_spec_witness : exists l, Assign demo_ring demo_mid 4 = Ok l /\ zlen l = 4 /\
  lit "d" ∈ l.
Proof.
  exists demo_four. split; [vm_compute; reflexivity|].
  destruct (Assign_spec demo_ring demo_mid 4 demo_ring_ok) as [_ Hs].
  destruct (Hs demo_four ltac:(vm_compute; reflexivity)) as (Hl & _ & _ & Hd & _).
  split; [exact Hl|].
  destruct (Hd (lit "a") (lit "b") ltac:(vm_compute; repeat constructor) ltac:(vm_compute; repeat constructor) ltac:(done)
    ltac:(vm_compute; reflexivity) ltac:(done) (lit "d") ltac:(vm_compute; repeat constructor)) as [Hx|[Hx _]]; [exact Hx|].
  exfalso. apply Hx. vm_compute. reflexivity.
Defined.
Lemma minimal_disruption_witness :
  IsOwner (RemovePeer (lit "c") demo_ring) (lit "d") demo_mid 2 = true /\
  (exists taken, ComputeMigration (Some demo_ring) (Some (RemovePeer (lit "c") demo_ring)) (lit "b") [demo_mid] 2 = (taken, [])).
Proof.
  destruct (minimal_disruption demo_ring (lit "c") demo_ring_ok ltac:(vm_compute; repeat constructor)) as (H1 & _ & _ & _ & H5).
  split; [apply H1; [done|vm_compute; reflexivity]|].
  destruct (H5 (lit "b") [demo_mid] 2 ltac:(done)) as [_ (taken & E & _)]. exists taken. exact E.
Defined.
Lemma shardDistribution_exact_witness : exists blk,
  shardDistribution (Some demo_ring) (lit "d") 2 [blk; blk] !! lit "c" = Some [blk; blk].
Proof.
  exists (mkSBlock demo_mid (lit "x")). rewrite (shardDistribution_exact demo_ring (lit "d") 2 _ demo_ring_ok). vm_compute. reflexivity.
Defined.
