(* ===== verification/MemNode.v ===== *)
(** * File-system nodes (src/core/memfs: node.go, dir.go)

    A [*Node] is the protobuf message [MemFSNode]; this file has its typed accessors, the
    value forms of its block references and directory entries, parsing and printing, and
    the order of directory entries.  The main facts: a child MID survives the round trip
    through its stored multihash, and the order of a directory with distinct names does
    not depend on the order it was given in. *)
From S2P Require Import Prelude Mid Wire Blockstore Db.

Definition TypeRaw : MemFSType := MemFSType_RAW.
Definition TypeFile : MemFSType := MemFSType_FILE.
Definition TypeDir : MemFSType := MemFSType_DIR.
Definition TypeSymlink : MemFSType := MemFSType_SYMLINK.
Definition TypeMetadata : MemFSType := MemFSType_METADATA.

(** the value forms of the messages [MemFSBlock] and [DirEntry]: the child is a MID *)
Record FSBlock := mkFSBlock { fb_Mid : MID; fb_Size : Z }.
Record FSEntry := mkFSEntry { fe_Name : bytes; fe_Mid : MID; fe_Type : MemFSType; fe_Size : Z }.
#[export] Instance FSEntry_eq_dec : EqDecision FSEntry.
Proof. unfold MemFSType. solve_decision. Defined.

Definition NewDirEntry (name : bytes) (child : MID) (typ : MemFSType) (size : Z) : FSEntry :=
  mkFSEntry name child typ size.
(** a [DirEntryPair] is such a tuple *)
Definition EntriesFromPairs (pairs : list (bytes * MID * MemFSType * Z)) : list FSEntry :=
  map (λ '(name, m, typ, size), NewDirEntry name m typ size) pairs.

(** [sort.Slice] by name.  It is not stable in general: only the order of entries with
    different names is fixed by the code. *)
Definition name_le (a b : FSEntry) : Prop := bytes_leb (fe_Name a) (fe_Name b) = true.
#[export] Instance name_le_dec : RelDecision name_le := λ a b, decide (bytes_leb (fe_Name a) (fe_Name b) = true).
#[export] Instance name_le_total : Total name_le.
Proof. intros a b. apply bytes_leb_total. Qed.
#[export] Instance name_le_trans : Transitive name_le.
Proof. intros a b c. apply bytes_leb_trans. Qed.
Definition sortDirEntries (entries : list FSEntry) : list FSEntry := merge_sort name_le entries.

Lemma sortDirEntries_perm l : sortDirEntries l ≡ₚ l.
Proof. apply merge_sort_Permutation. Qed.
Lemma sortDirEntries_canonical l1 l2 :
  NoDup (map fe_Name l1) -> l1 ≡ₚ l2 -> sortDirEntries l1 = sortDirEntries l2.
Proof.
  intros Hnd Hp. apply (sorted_unique_key name_le fe_Name).
  - intros a b. apply bytes_leb_antisym.
  - by rewrite sortDirEntries_perm.
  - by rewrite !sortDirEntries_perm.
  - apply StronglySorted_merge_sort; apply _.
  - apply StronglySorted_merge_sort; apply _.
Qed.

(** a time is its [UnixNano]; the zero [time.Time] *)
Definition zeroTime : Z := -6795364578871345152.
Definition ModeDir : Z := 2 ^ 31.
Definition ModeSymlink : Z := 2 ^ 27.

Section node.
Context `{Multiformats, Protos}.
Implicit Types n : MemFSNode.

Definition emptyNode : MemFSNode := mkMemFSNode 0 [] 0 [] [] [] None 0 0.
Definition NewNode (pb : option MemFSNode) : MemFSNode := default emptyNode pb.
Definition IsFile n : bool := mn_Type n =? TypeFile.
Definition IsDir n : bool := mn_Type n =? TypeDir.
Definition IsSymlink n : bool := mn_Type n =? TypeSymlink.
Definition IsRaw n : bool := mn_Type n =? TypeRaw.
Definition IsMetadata n : bool := mn_Type n =? TypeMetadata.

(** a MID from what a node stores of it; only a MID text keeps its own codec *)
Definition midFromBytesWithCodec (b : bytes) (defaultCodec : Z) : MID :=
  if bool_decide (b = []) then zeroMID else
  let fallback := match FromMultihash defaultCodec b with
                  | Ok m => m
                  | Err _ => mkMID 0 0 b []
                  end in
  if (3 <? zlen b) && bool_decide (take 3 b = lit "mem")
  then match Parse b with Ok m => m | Err _ => fallback end
  else fallback.
Definition midFromBytes (b : bytes) : MID := midFromBytesWithCodec b CodecMemFS.

Definition block_value (b : MemFSBlock) : FSBlock :=
  mkFSBlock (midFromBytesWithCodec (mb_Mid b) (if 0 <? mb_Size b then CodecRaw else CodecMemFS)) (mb_Size b).
Definition BlocksValue n : list FSBlock := map block_value (mn_Blocks n).
Definition entry_value (e : DirEntry) : FSEntry :=
  mkFSEntry (de_Name e) (midFromBytes (de_Mid e)) (de_Type e) (de_Size e).
Definition EntriesValue n : list FSEntry := map entry_value (mn_Entries n).
Definition EntriesSorted n : list FSEntry := sortDirEntries (EntriesValue n).
Definition MetaValue n : MemFSMeta := default (mkMemFSMeta [] []) (mn_Meta n).

Definition sum64 (l : list Z) : Z := foldl (λ total x, u64 (total + x)) 0 l.
Definition TotalSize n : Z :=
  if IsFile n then
    if 0 <? mn_FileSize n then mn_FileSize n else sum64 (map fb_Size (BlocksValue n))
  else if IsDir n then sum64 (map fe_Size (EntriesValue n))
  else zlen (mn_Data n).
Definition BlockCount n : Z := zlen (mn_Blocks n).
Definition EntryCount n : Z := zlen (mn_Entries n).

Definition Serialize n : result bytes := marshal n.
Definition Deserialize (data : bytes) : result MemFSNode :=
  if bool_decide (data = []) then Err (New "memfs: empty node bytes") else unmarshal data.
Definition ParseNode (data : bytes) : result MemFSNode := wrap "memfs: parse node" (Deserialize data).
Definition Node_MID (alg : Z) n : result MID :=
  raw ← wrap "memfs: marshal node" (Serialize n); FromBytesWithCodec alg raw CodecMemFS.
Definition MustMID (alg : Z) n : result MID :=
  match Node_MID alg n with Ok m => Ok m | Err _ => Err (panic "memfs: MustMID") end.

Definition Mode n : Z :=
  if mn_Mode n =? 0 then
    if IsDir n then Z.lor ModeDir 493 else if IsSymlink n then Z.lor ModeSymlink 511 else 420
  else mn_Mode n.
Definition MTime n : Z := if mn_Mtime n =? 0 then zeroTime else mn_Mtime n.
Definition MimeType n : bytes := match mn_Meta n with None => [] | Some m => mm_MimeType m end.
Definition Node_Bytes n : bytes := mn_Data n.
Definition SymlinkTarget n : bytes := mn_SymlinkTarget n.
End node.

(** A multihash of a supported algorithm starts with its one-byte code, none of which is
    the letter m. *)
Class BinaryMultihash `{Multiformats} : Prop :=
  multihash_not_text mh : validateEnvelope mh = Ok tt -> take 3 mh ≠ lit "mem".
(** A message with a field away from its default is not encoded as the empty string. *)
Class NodeBytes `{Protos} : Prop :=
  node_bytes (n : MemFSNode) raw : marshal n = Ok raw -> mn_Type n ≠ 0 -> raw ≠ [].

Section facts.
Context `{Multiformats} `{!MultiformatsLaws} `{!BinaryMultihash} `{Protos} `{!ProtosLaws} `{!NodeBytes}.

(** what a node stores of a MID gives it back, under the codec asked for *)
Lemma midFromBytes_wf m : wf_mid m -> midFromBytesWithCodec (Bytes m) (codec m) = m.
Proof.
  intros Hm. unfold midFromBytesWithCodec, Bytes. pose proof (wf_Hash_ne m Hm).
  rewrite (bool_decide_eq_false_2 (Hash m = [])), (bool_decide_eq_false_2 (take 3 _ = _))
    by first [done|apply multihash_not_text, Hm].
  rewrite andb_false_r, FromMultihash_ok by apply Hm. destruct m, Hm; simpl in *. by subst.
Qed.
Lemma block_value_of m (size : Z) : wf_mid m -> codec m = (if 0 <? size then CodecRaw else CodecMemFS) ->
  block_value (mkMemFSBlock (Bytes m) size) = mkFSBlock m size.
Proof. intros Hm Hc. unfold block_value. cbn [mb_Mid mb_Size]. by rewrite <-Hc, midFromBytes_wf. Qed.

(** a stored entry, read back *)
Definition entry_proto (e : FSEntry) : DirEntry := mkDirEntry (fe_Name e) (Bytes (fe_Mid e)) (fe_Type e) (fe_Size e).
Lemma entry_value_of e : wf_mid (fe_Mid e) -> codec (fe_Mid e) = CodecMemFS -> entry_value (entry_proto e) = e.
Proof.
  intros Hm Hc. unfold entry_value, entry_proto, midFromBytes. cbn [de_Name de_Mid de_Type de_Size].
  rewrite <-Hc, midFromBytes_wf by done. by destruct e.
Qed.

Lemma sum64_app l k : sum64 (l ++ k) = foldl (λ total x, u64 (total + x)) (sum64 l) k.
Proof. unfold sum64. by rewrite foldl_app. Qed.
Lemma sum64_mod l : sum64 l = u64 (sumZ id l).
Proof.
  induction l as [|x l IH] using rev_ind; [done|]. rewrite sum64_app, IH, sumZ_app. cbn [foldl sumZ foldr].
  unfold u64, id. rewrite Z.add_0_r. by rewrite Z.add_mod_idemp_l by lia.
Qed.

Lemma marshal_node_parse n raw : marshal n = Ok raw -> mn_Type n ≠ 0 -> ParseNode raw = Ok n.
Proof.
  intros E Hne. unfold ParseNode, Deserialize. rewrite bool_decide_eq_false_2 by (by eapply node_bytes).
  by rewrite (unmarshal_marshal _ _ E).
Qed.
End facts.

Instance toy_binary : BinaryMultihash.
Proof.
  intros [|c mh]; [done|]. unfold validateEnvelope. cbn. intros Hv [= -> _].
  by destruct (zlen (drop 0 mh) =? 0).
Qed.
Instance toy_node_bytes : NodeBytes.
Proof.
  intros n raw. cbn [marshal proto_MemFSNode toy_protos ToyWire.fs_proto]. intros [= <-] _.
  unfold ToyWire.pack, ToyWire.fs_strs, ToyWire.enc_str. cbn [map concat]. by destruct (concat (map _ (ToyWire.z_str (mn_Type n)))).
Qed.
