(* ===== verification/MemFile.v ===== *)
(** * Files (src/core/memfs: builder.go AddFile, reader.go)

    A file is stored as raw chunks under a tree of FILE nodes.  [push]/[finalize] are the
    level stack that builds the tree; the pipeline of goroutines around it is in AddFile.v, the
    reader of a tree in MemRead.v. *)
From S2P Require Import Prelude Mid GoIO Wire Blockstore Objects Db MemNode.

(** ** The store as the builder uses it *)
Class BatchStore (St : Type) := bs_PutBatch : list SBlock -> M St unit.
Class FileStoreLaws (St : Type) `{Multiformats, Blockstore St, BatchStore St, MetaStore St}
    (alg : Z) (inv : St -> Prop) : Prop := {
  #[global] fs_blocks :: BlockstoreLaws St alg inv;
  putbatch_spec bs s r s' : inv s -> Forall (λ b, wf_mid (sb_MID b)) bs -> bs_PutBatch bs s = (r, s') ->
    inv s' /\ keeps alg s s' /\
    (r = Ok tt -> Forall (λ b, names alg (sb_MID b) (sb_Data b) /\ bs_Get (sb_MID b) s' = Ok (sb_Data b)) bs);
  putmeta_spec k v s r s' : inv s -> st_PutMeta k v s = (r, s') -> inv s' /\ keeps alg s s';
}.
(** storage that takes every block and record it should *)
Class FileStoreTotal (St : Type) `{Multiformats, Blockstore St, BatchStore St, MetaStore St}
    (alg : Z) (inv : St -> Prop) : Prop := {
  #[global] fs_put_total :: BlockstoreTotal St alg inv;
  putbatch_total bs s : inv s -> Forall (λ b, wf_mid (sb_MID b) /\ names alg (sb_MID b) (sb_Data b)) bs ->
    exists s', bs_PutBatch bs s = (Ok tt, s');
  putmeta_total k v s : inv s -> exists s', st_PutMeta k v s = (Ok tt, s');
}.

(** the arguments of [AddFile] *)
Record FileArgs := mkFileArgs {
  fa_name : bytes;
  fa_mode : Z;
  fa_mtime : Z;      (* mtime.UnixNano() *)
  fa_mime : bytes;
  fa_maxBlk : Z;     (* the builder's block size *)
}.
Record AddResult := mkAddResult { ar_MID : MID; ar_Size : Z; ar_Block : Z }.
#[export] Instance AddResult_eq_dec : EqDecision AddResult.
Proof. solve_decision. Defined.

(** ** The level stack *)
Record memfsBlockRef := mkRef { br_mid : MID; br_size : Z }.
Record memfsLevelStack := mkStack {
  levels : list (list memfsBlockRef);
  totalSize : Z;
  totalLeafs : Z;
  singleData : bytes;   (* nil when there is not exactly one leaf *)
}.
Definition newStack : memfsLevelStack := mkStack [] 0 0 [].

Section stack.
Context `{Multiformats, Protos, ObjectJSON} (alg : Z) (F : nat) {St : Type} `{Blockstore St, MetaStore St}.

Definition with_attrs (mtime : Z) (mime : bytes) (pb : MemFSNode) : MemFSNode :=
  mkMemFSNode (mn_Type pb) (mn_Data pb) (mn_FileSize pb) (mn_Blocks pb) (mn_Entries pb) (mn_SymlinkTarget pb)
    (if bool_decide (mime ≠ []) then Some (mkMemFSMeta mime []) else mn_Meta pb)
    (mn_Mode pb) (if 0 <? mtime then mtime else mn_Mtime pb).
(** marshal a node and store it under its MID *)
Definition put_node (marshalling storing : string) (pb : MemFSNode) : M St MID :=
  raw ← liftr (wrap marshalling (marshal pb));
  rootMID ← liftr (FromBytesWithCodec alg raw CodecMemFS);
  _ ← wrapM storing (bs_Put rootMID raw);
  mret rootMID.
Definition set_info (name mime : bytes) (size : Z) (m : MID) : M St unit :=
  if bool_decide (name ≠ []) then
    wrapM "memfs: set objectinfo" (SetObjectInfo m (mkObjectInfo name mime size false))
  else mret tt.

(** the reference a parent at [level] + 1 keeps of a child: only raw blocks have a size *)
Definition block_ref (level : nat) (c : memfsBlockRef) : MemFSBlock :=
  mkMemFSBlock (Bytes (br_mid c)) (if (level =? 0)%nat then br_size c else 0).
Definition collapse (level : nat) (children : list memfsBlockRef) : M St memfsBlockRef :=
  if bool_decide (children = []) then throw (New "memfs: collapse called on empty group") else
  let groupSize := sum64 (map br_size children) in
  nodeMID ← put_node "memfs: marshal intermediate" "memfs: store intermediate"
    (mkMemFSNode MemFSType_FILE [] groupSize (map (block_ref level) children) [] [] None 0 0);
  mret (mkRef nodeMID groupSize).

(** the argument is the buffers from [level] up; with a fanout below two the Go recursion
    does not end *)
Fixpoint push (level : nat) (lvs : list (list memfsBlockRef)) (ref : memfsBlockRef)
    : M St (list (list memfsBlockRef)) :=
  match lvs with
  | [] => if (1 <? F)%nat then mret [[ref]] else throw OutOfFuel
  | lv :: rest =>
      let lv := lv ++ [ref] in
      if (length lv <? F)%nat then mret (lv :: rest) else
      parentRef ← collapse level lv;
      rest ← push (S level) rest parentRef;
      mret ([] :: rest)
  end.
Definition pushLeaf (m : MID) (size : Z) (rawData : bytes) (st : memfsLevelStack) : M St memfsLevelStack :=
  let totalLeafs' := u64 (totalLeafs st + 1) in
  lvs ← push 0 (levels st) (mkRef m size);
  mret (mkStack lvs (u64 (totalSize st + size)) totalLeafs' (if totalLeafs' =? 1 then rawData else [])).

Definition topmost (above : list (list memfsBlockRef)) : bool :=
  forallb (λ lv, bool_decide (lv = [])) above.

Definition buildRoot (a : FileArgs) (st : memfsLevelStack) (level : nat) (children : list memfsBlockRef) : M St AddResult :=
  let data := if (totalLeafs st =? 1) && (0 <? zlen (singleData st)) && (zlen (singleData st) <=? fa_maxBlk a)
              then singleData st else [] in
  let blocks := match data, children with
                | _ :: _, c :: _ => [mkMemFSBlock (Bytes (br_mid c)) (br_size c)]
                | _, _ => map (block_ref level) children
                end in
  rootMID ← put_node "memfs: marshal root file node" "memfs: store root file node"
    (with_attrs (fa_mtime a) (fa_mime a)
      (mkMemFSNode MemFSType_FILE data (totalSize st) blocks [] [] None (u32 (fa_mode a)) 0));
  _ ← set_info (fa_name a) (fa_mime a) (totalSize st) rootMID;
  mret (mkAddResult rootMID (totalSize st) (totalLeafs st)).

(** the loop of [finalize] over the buffers from [level] up *)
Fixpoint finalize_levels (a : FileArgs) (st : memfsLevelStack) (fuel level : nat) (lvs : list (list memfsBlockRef))
    : M St AddResult :=
  match fuel with
  | O => throw OutOfFuel
  | S fuel =>
      match lvs with
      | [] => throw (New "memfs: empty file")
      | [] :: rest => finalize_levels a st fuel (S level) rest
      | lv :: rest =>
          if topmost rest then buildRoot a st level lv else
          parentRef ← collapse level lv;
          rest ← push (S level) rest parentRef;
          finalize_levels a st fuel (S level) rest
      end
  end.
Definition finalize_fuel (lvs : list (list memfsBlockRef)) : nat := S (length lvs + length (concat lvs)).
Definition finalize (a : FileArgs) (st : memfsLevelStack) : M St AddResult :=
  if totalLeafs st =? 0 then
    rootMID ← put_node "memfs: marshal empty file node" "memfs: store empty file node"
      (with_attrs (fa_mtime a) (fa_mime a) (mkMemFSNode MemFSType_FILE [] 0 [] [] [] None (u32 (fa_mode a)) 0));
    _ ← set_info (fa_name a) (fa_mime a) 0 rootMID;
    mret (mkAddResult rootMID 0 0)
  else finalize_levels a st (finalize_fuel (levels st)) 0 (levels st).
End stack.

(** ** The builder's MIDs do not depend on the store *)
#[local] Instance null_blocks : Blockstore unit := {|
  bs_Put _ _ := mret tt; bs_Get _ _ := Err ErrNotFound; bs_Has _ _ := Ok false |}.
#[local] Instance null_meta : MetaStore unit := {| st_PutMeta _ _ := mret tt; st_GetMeta _ _ := Err ErrNotFound |}.

Section pure.
Context `{Multiformats, Protos, ObjectJSON} (alg : Z) (F : nat) {St : Type} `{Blockstore St, MetaStore St}.
Implicit Types s : St.

(** what succeeds over some store gives the same over the store that takes everything *)
Definition agrees {A} (m : M St A) (p : M unit A) : Prop := forall s x s', m s = (Ok x, s') -> p tt = (Ok x, tt).
Lemma agrees_ret {A} (x : A) : agrees (mret x) (mret x).
Proof. intros s y s'. by intros [= <- <-]. Qed.
Lemma agrees_lift {A} (r : result A) : agrees (liftr r) (liftr r).
Proof. intros s y s'. by intros [= -> <-]. Qed.
Lemma agrees_throw {A} e (p : M unit A) : agrees (throw e) p.
Proof. done. Qed.
Lemma agrees_bind {A B} (m : M St A) (p : M unit A) (f : A -> M St B) (g : A -> M unit B) :
  agrees m p -> (forall x, agrees (f x) (g x)) -> agrees (m ≫= f) (p ≫= g).
Proof.
  intros Hm Hf s x s' (a & s1 & E1 & E2)%M_bind_inv. erewrite M_bind_Ok by by eapply Hm. by eapply Hf.
Qed.
Lemma agrees_put msg m d : agrees (wrapM msg (bs_Put m d)) (wrapM msg (bs_Put m d)).
Proof. intros s [] s' _. done. Qed.
Lemma put_node_agrees m1 m2 pb : agrees (put_node alg m1 m2 pb) (put_node alg m1 m2 pb).
Proof.
  unfold put_node. repeat (apply agrees_bind; [|intros ?]); first [apply agrees_lift|apply agrees_put|apply agrees_ret].
Qed.
Lemma set_info_agrees name mime size m : agrees (set_info name mime size m) (set_info name mime size m).
Proof.
  unfold set_info. destruct (bool_decide (name ≠ [])); [|apply agrees_ret]. intros s x s'. unfold wrapM, SetObjectInfo.
  destruct (IsZero m); [done|]. destruct (_ && _); [by intros [= <- <-]|].
  destruct (json_Marshal _); [|done]. destruct (st_PutMeta _ _ s) as [[[]|] s1]; [|done]. by intros [= <- <-].
Qed.
Lemma collapse_agrees level g : agrees (collapse alg level g) (collapse alg level g).
Proof.
  unfold collapse. destruct (bool_decide (g = [])); [apply agrees_throw|].
  apply agrees_bind; [apply put_node_agrees|intros ?; apply agrees_ret].
Qed.
Lemma push_agrees level lvs ref : agrees (push alg F level lvs ref) (push alg F level lvs ref).
Proof.
  revert level ref. induction lvs as [|lv rest IH]; intros level ref; cbn [push].
  { destruct (1 <? F)%nat; [apply agrees_ret|apply agrees_throw]. }
  destruct (length (lv ++ [ref]) <? F)%nat; [apply agrees_ret|].
  apply agrees_bind; [apply collapse_agrees|intros p]. apply agrees_bind; [apply IH|intros r; apply agrees_ret].
Qed.
Lemma pushLeaf_agrees m size d st : agrees (pushLeaf alg F m size d st) (pushLeaf alg F m size d st).
Proof. unfold pushLeaf. apply agrees_bind; [apply push_agrees|intros ?; apply agrees_ret]. Qed.
Lemma buildRoot_agrees a st level g : agrees (buildRoot alg a st level g) (buildRoot alg a st level g).
Proof.
  unfold buildRoot. cbv zeta. apply agrees_bind; [apply put_node_agrees|intros m].
  apply agrees_bind; [apply set_info_agrees|intros ?; apply agrees_ret].
Qed.
Lemma finalize_agrees a st : agrees (finalize alg F a st) (finalize alg F a st).
Proof.
  unfold finalize. destruct (totalLeafs st =? 0).
  { apply agrees_bind; [apply put_node_agrees|intros m]. apply agrees_bind; [apply set_info_agrees|intros ?; apply agrees_ret]. }
  generalize (finalize_fuel (levels st)) as fuel. intros fuel. generalize (levels st) as lvs, 0%nat as level.
  induction fuel as [|fuel IH]; intros lvs level; cbn [finalize_levels]; [apply agrees_throw|].
  destruct lvs as [|[|c lv] rest]; [apply agrees_throw|apply IH|]. destruct (topmost rest); [apply buildRoot_agrees|].
  apply agrees_bind; [apply collapse_agrees|intros p]. apply agrees_bind; [apply push_agrees|intros r]. apply IH.
Qed.
End pure.

(** ** The tree under a reference *)
Section tree.
Context `{Multiformats} `{Protos} (alg : Z) {St : Type} `{Blockstore St}.

Definition inner_node (level : nat) (kids : list memfsBlockRef) : MemFSNode :=
  mkMemFSNode MemFSType_FILE [] (sum64 (map br_size kids)) (map (block_ref level) kids) [] [] None 0 0.
Fixpoint file_tree (s : St) (h : nat) (r : memfsBlockRef) (ds : list bytes) : Prop :=
  match h with
  | O => exists d, ds = [d] /\ 0 < zlen d < 2 ^ 63 /\ br_size r = zlen d /\
      FromBytes alg d = Ok (br_mid r) /\ bs_Get (br_mid r) s = Ok d
  | S h => exists kids dss raw, kids ≠ [] /\ ds = concat dss /\ Forall2 (file_tree s h) kids dss /\
      br_size r = sum64 (map br_size kids) /\ marshal (inner_node h kids) = Ok raw /\
      FromBytesWithCodec alg raw CodecMemFS = Ok (br_mid r) /\ bs_Get (br_mid r) s = Ok raw
  end.
(** the buffers from height [h] up hold the chunks [ds], the topmost buffer first *)
Fixpoint holds (s : St) (h : nat) (lvs : list (list memfsBlockRef)) (ds : list bytes) : Prop :=
  match lvs with
  | [] => ds = []
  | lv :: rest => exists ds' dss, ds = ds' ++ concat dss /\ holds s (S h) rest ds' /\ Forall2 (file_tree s h) lv dss
  end.
End tree.

Lemma zlen_concat_ge (ds : list bytes) : Forall (λ d, 0 < zlen d) ds -> zlen ds <= zlen (concat ds).
Proof.
  induction 1 as [|d ds Hd _ IH]; [done|]. cbn [concat]. rewrite zlen_app.
  change (zlen (d :: ds)) with (zlen ([d] ++ ds)). rewrite zlen_app. change (zlen [d]) with 1. lia.
Qed.

Section build.
Context `{Multiformats} `{!MultiformatsLaws} `{Protos} `{!ProtosLaws} `{ObjectJSON}.
Context (alg : Z) (Halg : isSupportedHash alg = true) (F : nat) (HF : (1 < F)%nat).
Context {St : Type} `{Blockstore St} `{BatchStore St} `{MetaStore St} (inv : St -> Prop) `{!FileStoreLaws St alg inv}.
Implicit Types s : St.

(** the store refused something it should take, or JSON failed on a record *)
Definition StoreFails : Prop :=
  (exists m d s e s', inv s /\ wf_mid m /\ names alg m d /\ bs_Put m d s = (Err e, s')) \/
  (exists bs s e s', inv s /\ Forall (λ b, wf_mid (sb_MID b) /\ names alg (sb_MID b) (sb_Data b)) bs /\
     bs_PutBatch bs s = (Err e, s')) \/
  (exists k v s e s', inv s /\ st_PutMeta k v s = (Err e, s')) \/
  (exists i e, json_Marshal i = Err e).
Definition grows s s' : Prop := inv s' /\ keeps alg s s'.
Lemma grows_refl s : inv s -> grows s s.
Proof. done. Qed.
Lemma grow_trans s1 s2 s3 : grows s1 s2 -> grows s2 s3 -> grows s1 s3.
Proof. intros [? ?] [? ?]. split; [done|]. by etrans. Qed.

(** [m] run in [s] only adds to the store, and ends in [post] unless the store fails *)
Definition ends {A} (m : M St A) s (post : A -> St -> Prop) : Prop :=
  exists r s', m s = (r, s') /\ grows s s' /\
    ((exists x, r = Ok x /\ post x s') \/ (exists e, r = Err e) /\ StoreFails).
Lemma ends_ret {A} (x : A) s (post : A -> St -> Prop) : inv s -> post x s -> ends (mret x) s post.
Proof. intros Hs Hp. exists (Ok x), s. split_and!; [done..|]. left. by exists x. Qed.
Lemma ends_bind {A B} (m : M St A) (f : A -> M St B) s P (Q : B -> St -> Prop) :
  ends m s P -> (forall x s1, grows s s1 -> P x s1 -> ends (f x) s1 Q) -> ends (m ≫= f) s Q.
Proof.
  intros (r & s1 & E & Hg & [(x & -> & Hx)|[[e ->] Hf]]) Hnext.
  - destruct (Hnext x s1 Hg Hx) as (r2 & s2 & E2 & Hg2 & Hr2). exists r2, s2.
    rewrite (M_bind_Ok _ _ _ _ _ E). split_and!; [done| |done]. by eapply grow_trans.
  - exists (Err e), s1. rewrite (M_bind_Err _ _ _ _ _ E). split_and!; [done..|]. right. split; [by eexists|done].
Qed.
Lemma ends_impl {A} (m : M St A) s (P Q : A -> St -> Prop) :
  ends m s P -> (forall x s', grows s s' -> P x s' -> Q x s') -> ends m s Q.
Proof.
  intros (r & s1 & E & Hg & Hr) HPQ. exists r, s1. split_and!; [done..|].
  destruct Hr as [(x & -> & Hx)|?]; [left|by right]. exists x. split; [done|]. by apply HPQ.
Qed.
Lemma ends_lift {A} (x : A) s (post : A -> St -> Prop) r : inv s -> r = Ok x -> post x s -> ends (liftr r) s post.
Proof. intros Hs -> Hp. by apply ends_ret. Qed.

Lemma put_ends msg m d s : inv s -> wf_mid m -> names alg m d ->
  ends (wrapM msg (bs_Put m d)) s (λ _ s', bs_Get m s' = Ok d).
Proof.
  intros Hs Hm Hn. unfold ends, wrapM. destruct (bs_Put m d s) as [r s'] eqn:E.
  destruct (put_spec m d s r s' Hs Hm E) as (Hs' & Hr & Hk). exists (wrap msg r), s'. split_and!; [done..|].
  destruct r as [[]|e].
  - left. exists tt. split; [done|]. by apply Hr.
  - right. split; [by eexists|]. left. by exists m, d, s, e, s'.
Qed.
(** what is stored under a node's MID *)
Definition node_at (pb : MemFSNode) (m : MID) s : Prop := exists raw,
  marshal pb = Ok raw /\ FromBytesWithCodec alg raw CodecMemFS = Ok m /\ bs_Get m s = Ok raw.
Lemma put_node_ends m1 m2 pb s : inv s -> Forall (Forall is_ascii) (texts pb) ->
  ends (put_node alg m1 m2 pb) s (node_at pb).
Proof.
  intros Hs Ht. destruct (marshal_ok pb Ht) as (raw & Hraw & _).
  destruct (FromBytesWithCodec_sum alg raw CodecMemFS Halg ltac:(done)) as (mh & _ & _ & Em).
  pose proof (FromBytesWithCodec_wf alg raw CodecMemFS _ Halg ltac:(done) Em) as [Hw _].
  unfold put_node. eapply ends_bind.
  { apply (ends_lift raw _ (λ x _, x = raw)); [done|by rewrite Hraw|done]. }
  intros raw' s1 [Hs1 _] ->. eapply ends_bind.
  { apply (ends_lift _ _ (λ x _, Ok x = FromBytesWithCodec alg raw CodecMemFS) _ Hs1 Em). done. }
  intros m s2 [Hs2 _] E. rewrite Em in E. injection E as ->. eapply ends_bind.
  { apply put_ends; [done|done|]. apply (FromBytes_names alg Halg raw CodecMemFS); [done|exact Em]. }
  intros [] s3 [Hs3 _] Hg. apply ends_ret; [done|]. by exists raw.
Qed.
Lemma set_info_ends name mime size m s : inv s -> wf_mid m -> ends (set_info name mime size m) s (λ _ _, True).
Proof.
  intros Hs Hm. unfold set_info. destruct (bool_decide (name ≠ [])); [|by apply ends_ret].
  unfold ends, wrapM, SetObjectInfo. rewrite wf_not_zero by done. destruct (_ && _).
  { exists (Ok tt), s. split_and!; [done..|]. left. by exists tt. }
  destruct (json_Marshal _) as [buf|e] eqn:Ej.
  2:{ eexists _, s. split_and!; [done..|]. right. split; [by eexists|]. do 3 right. by eexists _, e. }
  destruct (st_PutMeta _ buf s) as [r s'] eqn:E. pose proof (putmeta_spec _ _ _ _ _ Hs E) as [? ?].
  eexists _, s'. split_and!; [done..|]. destruct r as [[]|e]; [left; by exists tt|right].
  split; [by eexists|]. right. right. left. by eexists _, _, s, e, s'.
Qed.

Lemma file_tree_keeps s s' h r ds : keeps alg s s' -> file_tree alg s h r ds -> file_tree alg s' h r ds.
Proof.
  intros Hk. revert r ds. induction h as [|h IH]; intros r ds; cbn [file_tree].
  - intros (d & Hd & Hl & Hsz & Hm & Hg). exists d. split_and!; try done; try lia.
    destruct (FromBytesWithCodec_wf alg d CodecRaw _ Halg ltac:(done) Hm) as [Hw _].
    apply Hk; [done| |done]. by eapply (FromBytes_names alg Halg d CodecRaw).
  - intros (kids & dss & raw & Hne & Hds & Hkids & Hsz & Hraw & Hm & Hg). exists kids, dss, raw. split_and!; try done.
    + eapply Forall2_impl; [done|]. intros; by apply IH.
    + destruct (FromBytesWithCodec_wf alg raw CodecMemFS _ Halg ltac:(done) Hm) as [Hw _].
      apply Hk; [done| |done]. by eapply (FromBytes_names alg Halg raw CodecMemFS).
Qed.
Lemma trees_keep s s' h lv dss : keeps alg s s' -> Forall2 (file_tree alg s h) lv dss -> Forall2 (file_tree alg s' h) lv dss.
Proof. intros Hk Hf. eapply Forall2_impl; [done|]. intros. by eapply file_tree_keeps. Qed.
Lemma holds_keeps s s' h lvs ds : keeps alg s s' -> holds alg s h lvs ds -> holds alg s' h lvs ds.
Proof.
  intros Hk. revert h ds. induction lvs as [|lv rest IH]; intros h ds; cbn [holds]; [done|].
  intros (ds' & dss & -> & Hr & Hlv). exists ds', dss. split_and!; [done|by apply IH|by eapply trees_keep].
Qed.

Lemma collapse_ends level g dss s : inv s -> g ≠ [] -> Forall2 (file_tree alg s level) g dss ->
  ends (collapse alg level g) s (λ p s', file_tree alg s' (S level) p (concat dss)).
Proof.
  intros Hs Hne Hg. unfold collapse. rewrite bool_decide_eq_false_2 by done. cbv zeta. eapply ends_bind.
  { apply put_node_ends; [done|]. repeat constructor. }
  intros m s1 [Hs1 Hk] (raw & Hraw & Hm & Hget). apply ends_ret; [done|].
  exists g, dss, raw. split_and!; try done. by eapply trees_keep.
Qed.
Lemma push_ends level lvs ref ds dr s : inv s -> holds alg s level lvs ds -> file_tree alg s level ref dr ->
  ends (push alg F level lvs ref) s (λ lvs' s', holds alg s' level lvs' (ds ++ dr) /\ lvs' ≠ [] /\
    (length lvs' + length (concat lvs') ≤ length lvs + length (concat lvs) + if decide (lvs = []) then 2 else 1)%nat).
Proof.
  revert level ref ds dr s. induction lvs as [|lv rest IH]; intros level ref ds dr s Hs Hh Hr; cbn [push].
  { cbn [holds] in Hh. subst ds. destruct (Nat.ltb_spec 1 F); [|lia]. apply ends_ret; [done|]. split; [|split; [done|simpl; lia]].
    exists [], [dr]. cbn [concat app]. rewrite app_nil_r. split_and!; [done..|]. by repeat constructor. }
  destruct Hh as (ds' & dss & -> & Hrest & Hlv).
  assert (Forall2 (file_tree alg s level) (lv ++ [ref]) (dss ++ [dr])) as Hlv' by (apply Forall2_app; [done|by constructor]).
  destruct (Nat.ltb_spec (length (lv ++ [ref])) F) as [Hlt|Hge].
  { apply ends_ret; [done|]. split; [|split; [done|cbn [concat]; rewrite decide_False by done; rewrite !length_app; simpl; lia]].
    exists ds', (dss ++ [dr]). rewrite concat_app. cbn [concat]. rewrite app_nil_r, app_assoc. done. }
  eapply ends_bind; [apply (collapse_ends level (lv ++ [ref]) (dss ++ [dr])); [done|by destruct lv|done]|].
  intros p s1 [Hs1 Hk1] Hp. eapply ends_bind; [apply (IH (S level) p ds'); [done|by eapply holds_keeps|done]|].
  intros rest' s2 [Hs2 Hk2] (Hh2 & Hne2 & Hmu). apply ends_ret; [done|]. split.
  - exists (ds' ++ concat (dss ++ [dr])), []. split_and!; [|done|constructor].
    rewrite concat_app. cbn [concat]. by rewrite !app_nil_r, <-!app_assoc.
  - split; [done|]. cbn [concat length app]. rewrite decide_False by done. rewrite length_app in Hge |- *. cbn [length] in *.
    destruct (decide (rest = [])) as [->|]; simpl in *; lia.
Qed.

(** ** Files *)
(** the FILE node under [m] and the tree below it spell [content] *)
Definition file_at s (m : MID) (content : bytes) : Prop := exists level children dss pb,
  node_at pb m s /\ mn_Type pb = MemFSType_FILE /\ mn_FileSize pb = zlen content /\ zlen content < 2 ^ 63 /\
  mn_Blocks pb = map (block_ref level) children /\ Forall2 (file_tree alg s level) children dss /\
  content = concat (concat dss).
Lemma node_at_wf pb m s : node_at pb m s -> wf_mid m /\ codec m = CodecMemFS.
Proof. intros (raw & _ & Hm & _). by eapply (FromBytesWithCodec_wf alg raw CodecMemFS). Qed.
Lemma node_at_keeps pb m s s' : keeps alg s s' -> node_at pb m s -> node_at pb m s'.
Proof.
  intros Hk Hn. pose proof (node_at_wf _ _ _ Hn) as [Hw _]. destruct Hn as (raw & Hr & Hm & Hg).
  exists raw. split_and!; [done..|]. apply Hk; [done| |done]. by eapply (FromBytes_names alg Halg raw CodecMemFS).
Qed.
Lemma file_at_keeps s s' m c : keeps alg s s' -> file_at s m c -> file_at s' m c.
Proof.
  intros Hk (l & ch & dss & pb & Hn & Hty & Hsz & Hlt & Hb & Htr & Hc). exists l, ch, dss, pb.
  split_and!; [by eapply node_at_keeps|done..|by eapply trees_keep|done].
Qed.

Record stack_ok s (st : memfsLevelStack) (ds : list bytes) : Prop := {
  so_holds : holds alg s 0 (levels st) ds;
  so_size : totalSize st = zlen (concat ds);
  so_leafs : totalLeafs st = zlen ds;
  so_single : singleData st = match ds with [d] => d | _ => [] end;
  so_none : ds = [] -> levels st = [];
  so_one : forall d, ds = [d] -> exists r, levels st = [[r]];
}.
Lemma newStack_ok s : stack_ok s newStack [].
Proof. by split. Qed.
Lemma stack_ok_keeps s s' st ds : keeps alg s s' -> stack_ok s st ds -> stack_ok s' st ds.
Proof. intros Hk [Hh ? ? ? ? ?]. split; try done. by eapply holds_keeps. Qed.

Lemma pushLeaf_ends st ds d m s : inv s -> stack_ok s st ds ->
  Forall (λ d, 0 < zlen d) (ds ++ [d]) -> zlen (concat (ds ++ [d])) < 2 ^ 63 ->
  FromBytes alg d = Ok m -> bs_Get m s = Ok d ->
  ends (pushLeaf alg F m (zlen d) d st) s (λ st' s', stack_ok s' st' (ds ++ [d])).
Proof.
  intros Hs [Hh Hsz Hlf _ Hnone _] Hpos Hlen Hm Hg. pose proof (zlen_concat_ge _ Hpos) as Hle.
  apply Forall_app in Hpos as [_ Hd]. apply Forall_cons in Hd as [Hd _].
  assert (zlen (concat (ds ++ [d])) = zlen (concat ds) + zlen d) as Ecat.
  { rewrite concat_app, zlen_app. cbn [concat]. by rewrite app_nil_r. }
  assert (zlen (ds ++ [d]) = zlen ds + 1) as Eds by by rewrite zlen_app.
  rewrite Ecat, ?Eds in *. pose proof (zlen_nonneg ds). pose proof (zlen_nonneg (concat ds)).
  unfold pushLeaf. cbv zeta. eapply (ends_bind _ _ _ (λ lvs s', (holds alg s' 0 lvs (ds ++ [d]) /\ lvs ≠ []) /\
    (ds = [] -> exists r, lvs = [[r]]))).
  { destruct ds as [|d0 ds0].
    - rewrite Hnone by done. cbn [push]. destruct (Nat.ltb_spec 1 F); [|lia]. apply ends_ret; [done|].
      split_and!; [|done|intros _; by eexists]. exists [], [[d]]. split_and!; [done..|]. constructor; [|constructor].
      exists d. split_and!; done || lia.
    - eapply ends_impl; [apply (push_ends 0 (levels st) (mkRef m (zlen d)) (d0 :: ds0) [d]); [done..|]; exists d; split_and!; done || lia|].
      intros lvs s1 _ (Hl & Hne & _). split_and!; done. }
  intros lvs s1 [Hs1 Hk1] [[Hl Hne] Hone]. rewrite Hsz, Hlf, !u64_small by lia. apply ends_ret; [done|].
  split; cbn [levels totalSize totalLeafs singleData]; [done|done|done| | |].
  - destruct ds as [|d0 [|d1 ds]]; [done|..]; match goal with |- context[?x =? 1] => destruct (Z.eqb_spec x 1) as [E|]; [unfold zlen in E; simpl in E; lia|done] end.
  - by destruct ds.
  - intros d' E. apply Hone. by destruct ds as [|d0 [|]].
Qed.

(** ** The end of the build *)
Lemma holds_topmost s h lv rest ds : topmost rest = true -> holds alg s h (lv :: rest) ds ->
  exists dss, ds = concat dss /\ Forall2 (file_tree alg s h) lv dss.
Proof.
  intros Ht (ds' & dss & -> & Hr & Hlv). exists dss. split; [|done].
  assert (ds' = []) as ->; [|done]. clear Hlv. revert h ds' Hr. induction rest as [|l rest IH]; intros h ds' Hr; [done|].
  cbn [topmost forallb] in Ht. apply andb_true_iff in Ht as [Hl%bool_decide_eq_true Ht]. subst l.
  destruct Hr as (d2 & dss2 & -> & Hr & Hf). inversion Hf; subst. rewrite (IH Ht _ _ Hr). done.
Qed.

Definition file_result s (res : AddResult) (ds : list bytes) : Prop :=
  file_at s (ar_MID res) (concat ds) /\ ar_Size res = zlen (concat ds) /\ ar_Block res = zlen ds.

Lemma put_file_ends m1 m2 a (name mime : bytes) pb (level : nat) children dss s size blocks :
  inv s -> Forall is_ascii (fa_mime a) -> mn_Type pb = MemFSType_FILE -> mn_FileSize pb = zlen (concat (concat dss)) ->
  zlen (concat (concat dss)) < 2 ^ 63 -> mn_Blocks pb = map (block_ref level) children ->
  mn_Entries pb = [] -> mn_SymlinkTarget pb = [] -> mn_Meta pb = None ->
  Forall2 (file_tree alg s level) children dss ->
  ends (rootMID ← put_node alg m1 m2 (with_attrs (fa_mtime a) (fa_mime a) pb);
        _ ← set_info name mime size rootMID;
        mret (mkAddResult rootMID size blocks)) s
    (λ res s', file_at s' (ar_MID res) (concat (concat dss)) /\ ar_Size res = size /\ ar_Block res = blocks).
Proof.
  intros Hs Ha Hty Hsz Hlt Hb He Hsy Hme Htr. eapply ends_bind.
  { apply put_node_ends; [done|]. unfold texts, MemFSNode_texts, with_attrs. cbn. rewrite He, Hsy, Hme.
    repeat constructor. destruct (bool_decide _); [|constructor]. cbn. constructor; [exact Ha|constructor]. }
  intros m s1 [Hs1 Hk1] Hn. eapply ends_bind; [apply set_info_ends; [done|by eapply node_at_wf]|].
  intros _ s2 [Hs2 Hk2] _. apply ends_ret; [done|]. split; [|done].
  eapply file_at_keeps; [exact Hk2|]. exists level, children, dss, (with_attrs (fa_mtime a) (fa_mime a) pb).
  split_and!; [done..|by eapply trees_keep|done].
Qed.
Lemma buildRoot_ends a st level lv rest ds s : inv s -> Forall is_ascii (fa_mime a) ->
  holds alg s level (lv :: rest) ds -> topmost rest = true -> zlen (concat ds) < 2 ^ 63 ->
  totalSize st = zlen (concat ds) -> totalLeafs st = zlen ds ->
  (totalLeafs st = 1 -> level = 0%nat /\ exists r, lv = [r]) ->
  ends (buildRoot alg a st level lv) s (λ res s', file_result s' res ds).
Proof.
  intros Hs Ha Hh Ht Hlt Hsz Hlf Hone. destruct (holds_topmost _ _ _ _ _ Ht Hh) as (dss & -> & Hlv).
  unfold buildRoot. cbv zeta. unfold file_result.
  eapply ends_impl; [apply (put_file_ends _ _ a _ _ _ level lv dss)|]; try done.
  - destruct (Z.eqb_spec (totalLeafs st) 1) as [E|]; cbn [andb]; [|done].
    destruct (Hone E) as [-> [r ->]]. destruct ((0 <? _) && _); [|done]. by destruct (singleData st).
  - intros res s' _ (Hf & E1 & E2). split_and!; [done|by rewrite E1|by rewrite E2].
Qed.
Lemma finalize_levels_ends a st fuel level lvs ds s : inv s -> Forall is_ascii (fa_mime a) ->
  holds alg s level lvs ds -> ds ≠ [] -> zlen (concat ds) < 2 ^ 63 ->
  totalSize st = zlen (concat ds) -> totalLeafs st = zlen ds ->
  (totalLeafs st = 1 -> level = 0%nat /\ exists r, lvs = [[r]]) ->
  (length lvs + length (concat lvs) < fuel)%nat ->
  ends (finalize_levels alg F a st fuel level lvs) s (λ res s', file_result s' res ds).
Proof.
  intros Hs Ha Hh Hne Hlt Hsz Hlf. revert level lvs s Hs Hh.
  induction fuel as [|fuel IH]; intros level lvs s Hs Hh Hone Hfuel; [lia|]. cbn [finalize_levels].
  destruct lvs as [|[|c lv] rest]; [done| |].
  - apply IH; [done| | |cbn [length concat app] in Hfuel; lia].
    + destruct Hh as (ds' & dss & -> & Hr & Hf). inversion Hf; subst. cbn [concat]. by rewrite app_nil_r.
    + intros E. destruct (Hone E) as [_ [r Er]]. done.
  - destruct (topmost rest) eqn:Ht.
    { eapply buildRoot_ends; try done. intros E. destruct (Hone E) as [-> [r [= -> -> _]]]. split; [done|by eexists]. }
    destruct Hh as (ds' & dss & -> & Hrest & Hlv).
    eapply ends_bind; [apply (collapse_ends level (c :: lv) dss); done|]. intros p s1 [Hs1 Hk1] Hp.
    eapply ends_bind; [apply (push_ends (S level) rest p ds' (concat dss)); [done|by eapply holds_keeps|done]|].
    intros rest' s2 [Hs2 Hk2] (Hh2 & Hne2 & Hmu). apply IH; [done..| |].
    + intros E. destruct (Hone E) as [_ [r [= _ _ ->]]]. done.
    + cbn [length concat] in Hfuel. rewrite length_app in Hfuel. cbn [length] in Hfuel.
      destruct (decide (rest = [])) as [->|]; [done|]. lia.
Qed.
Lemma finalize_ends a st ds s : inv s -> Forall is_ascii (fa_mime a) -> stack_ok s st ds ->
  Forall (λ d, 0 < zlen d) ds -> zlen (concat ds) < 2 ^ 63 ->
  ends (finalize alg F a st) s (λ res s', file_result s' res ds).
Proof.
  intros Hs Ha [Hh Hsz Hlf _ Hnone Hone] Hpos Hlt. unfold finalize. rewrite Hlf.
  destruct (Z.eqb_spec (zlen ds) 0) as [E%zlen_0|Hne].
  { subst ds. eapply ends_impl; [apply (put_file_ends _ _ a _ _ _ 0 [] [])|]; done. }
  assert (ds ≠ []) as Hne' by by intros ->. eapply finalize_levels_ends; try done.
  - rewrite Hlf. intros E. split; [done|]. destruct ds as [|d [|]]; [done| |].
    + destruct (Hone d eq_refl) as [r ->]. by exists r.
    + unfold zlen in E. simpl in E. lia.
  - unfold finalize_fuel. lia.
Qed.
End build.
