(* ===== verification/FileStores.v ===== *)
(** * The stores behind the file system

    Both block stores of src/core/store serve the file-system code: the in-memory store and
    the database store meet [FileStoreLaws], and the in-memory one never fails
    ([FileStoreTotal]). *)
From S2P Require Import Prelude Mid Wire Blockstore Objects Memstore Bloom Db MemStore MemNode MemFile.

Section puts.
Context `{Multiformats} (alg : Z) {St : Type} `{Blockstore St} (inv : St -> Prop) `{!BlockstoreLaws St alg inv}.
Definition put_each (bs : list SBlock) : M St unit := for_each (λ b, bs_Put (sb_MID b) (sb_Data b)) bs.
(** single writes one after the other meet the contract of a batch *)
Lemma put_each_spec bs (s : St) r s' : inv s -> Forall (λ b, wf_mid (sb_MID b)) bs -> put_each bs s = (r, s') ->
  inv s' /\ keeps alg s s' /\
  (r = Ok tt -> Forall (λ b, names alg (sb_MID b) (sb_Data b) /\ bs_Get (sb_MID b) s' = Ok (sb_Data b)) bs).
Proof.
  intros Hs Hwf. revert s Hs. unfold put_each. induction Hwf as [|b bs Hb Hwf IH]; intros s Hs; cbn [for_each].
  { intros [= <- <-]. done. }
  unfold mbind, M_bind. destruct (bs_Put (sb_MID b) (sb_Data b) s) as [r1 s1] eqn:E1.
  destruct (put_spec _ _ _ _ _ Hs Hb E1) as (Hs1 & Hok & Hk1). destruct r1 as [[]|e]; [|by intros [= <- <-]].
  destruct (Hok eq_refl) as [Hn Hg]. intros E. destruct (IH s1 Hs1 E) as (Hs' & Hk & Hall).
  split_and!; [done| |].
  - etrans; [exact Hk1|exact Hk].
  - intros Hr. constructor; [|by apply Hall]. split; [done|]. by apply Hk.
Qed.
End puts.

(** ** The in-memory store *)
Section memory.
Context `{Multiformats} `{!MultiformatsLaws} `{Protos} (alg : Z) (Halg : isSupportedHash alg = true) `{!CollisionFree alg}.
#[local] Instance mem_blocks : Blockstore Memstore := mem_blockstore alg.
#[global] Instance mem_batch : BatchStore Memstore := mem_PutBatch alg.
#[local] Instance mem_laws' : BlockstoreLaws Memstore alg (mem_ok alg) := mem_laws alg Halg.
Lemma mem_file_laws : FileStoreLaws Memstore alg (mem_ok alg).
Proof.
  split; [apply _| |].
  - intros bs s r s' Hs Hwf E. by eapply (put_each_spec alg (mem_ok alg)).
  - intros k v s r s' Hs [= <- <-]. split; [|by intros m d]. destruct Hs as [Hsz Hn]. by split.
Qed.
Lemma mem_file_total : FileStoreTotal Memstore alg (mem_ok alg).
Proof.
  split.
  - apply (mem_total alg Halg).
  - intros bs s Hs Hb. unfold bs_PutBatch, mem_batch, mem_PutBatch. revert s Hs.
    induction Hb as [|b bs [Hw Hn] _ IH]; intros s Hs; cbn [for_each]; [by eexists|].
    destruct (mem_total alg Halg (sb_MID b) (sb_Data b) s Hs Hw Hn) as [s1 E1].
    cbn [bs_Put mem_blocks mem_blockstore] in E1. erewrite M_bind_Ok by exact E1. apply IH.
    by apply (mem_Put_ok alg Halg _ _ _ _ _ Hs Hw E1).
  - intros k v s Hs. by eexists.
Qed.
End memory.

(** ** The database store *)
Section database.
Context `{Floats, Multiformats} `{!MultiformatsLaws} `{Protos} (alg : Z) (Halg : isSupportedHash alg = true) `{!CollisionFree alg}.
Context (env : Env) (Hget : forall k, io_get env k = None) (Hread : forall p, io_readfile env p = None) (wenv : Env).
#[local] Instance db_blocks : Blockstore MemStore := MemStore_blockstore alg env wenv.
#[local] Instance db_meta : MetaStore MemStore := MemStore_meta env wenv.
#[local] Instance db_batch : BatchStore MemStore := PutBatch alg wenv None.
#[local] Instance db_laws : BlockstoreLaws MemStore alg (sound alg).
Proof.
  split. intros m d s r s' Hs Hm E. cbn [bs_Put bs_Get db_blocks MemStore_blockstore] in *. rewrite Put_put_at in E.
  by apply (put_at_laws alg Halg env Hget Hread PrefixBlock wenv m d s r s'); [left| | |].
Qed.

(** flat files written by a batch that fails leave a sound store *)
Lemma batch_ops_sound bs s r s' : sound alg s -> Forall (λ b, wf_mid (sb_MID b)) bs ->
  batch_ops alg wenv None bs s = (r, s') -> sound alg s' /\ keeps alg s s'.
Proof.
  intros Hs Hwf. revert s r s' Hs. induction Hwf as [|b bs Hb _ IH]; intros s r s' Hs; cbn [batch_ops].
  { by intros [= <- <-]. }
  unfold guard_error, hooked, liftr, mbind, M_bind. destruct (IsZero (sb_MID b)); [by intros [= <- <-]|].
  destruct (verifyContent alg (sb_MID b) (sb_Data b)) as [[]|] eqn:Ev; [|by intros [= <- <-]].
  apply verifyContent_ok_inv in Ev.
  destruct (put_value wenv (sb_MID b) (sb_Data b) s) as [rv s1] eqn:Ep.
  pose proof Ep as (f' & -> & Ho & _ & Hself)%put_value_spec.
  assert (sound alg (set_files f' s) /\ keeps alg s (set_files f' s)) as [Hs1 Hk1].
  { pose proof Hs as [Hinv Hop]. assert (files_grow s (sb_MID b) (sb_Data b) f') as Hg by by split.
    assert (store_inv alg (set_files f' s)) as Hinv'.
    { split; [apply (si_stored alg s Hinv)| |apply (si_bloom alg s Hinv)]. intros m' d' Hm'. by apply (files_grow_inv alg s (sb_MID b) (sb_Data b) f'). }
    split; [by split|]. intros m d Hm Hn Hrd. cbn [bs_Get db_blocks MemStore_blockstore] in *.
    apply (Get_readable alg Halg env Hget Hread) in Hrd as [? ? Hf]; [|done..].
    apply (Get_readable alg Halg env Hget Hread); [done..|]. split; [done|done|]. intros Hx1 Hx2.
    apply (files_grow_keeps alg Halg env Hget Hread s (sb_MID b) (sb_Data b) f'); [done..|]. by apply Hf. }
  destruct rv as [v|e]; [|by intros [= <- <-]].
  destruct (batch_ops alg wenv None bs (set_files f' s)) as [r2 s2] eqn:E2.
  destruct (IH _ _ _ Hs1 E2) as [Hs2 Hk2]. destruct r2; intros [= <- <-]; (split; [done|by etrans]).
Qed.
Lemma db_file_laws : FileStoreLaws MemStore alg (sound alg).
Proof.
  split; [apply _| |].
  - intros bs s r s' Hs Hwf E. pose proof Hs as [_ [Ho _]]. pose proof (PutBatch_run alg wenv bs s Ho) as Hr.
    unfold bs_PutBatch, db_batch in E. rewrite E in Hr. destruct r as [[]|e].
    + by eapply (put_each_spec alg (sound alg)).
    + destruct Hr as [Hs' _]. destruct (batch_ops alg wenv None bs s) as [r1 s1] eqn:Eb. cbn [snd] in Hs'. subst s1.
      destruct (batch_ops_sound bs s r1 s' Hs Hwf Eb). done.
  - intros k v s r s' Hs. cbn [st_PutMeta db_meta MemStore_meta]. unfold PutMeta, mbind, M_bind, enter.
    pose proof Hs as [_ [Ho Hcl]]. fold (closed_or_nil s). rewrite Ho. unfold guard_error.
    destruct (bool_decide (k = [])); [by intros [= <- <-]|]. unfold on_db, db_Set. rewrite Hcl.
    destruct (io_set wenv (MetaKey k)).
    { intros [= <- <-]. replace (set_db (ms_db s) s) with s by by destruct s. done. }
    intros [= <- <-].
    assert (same_ns (mkDB (<[MetaKey k := v]> (kv (ms_db s))) false) s) as Hn.
    { rewrite <-Hcl. apply same_ns_insert. intros p h Hp. by apply ns_not_meta. }
    split; [by apply sound_same_ns|]. intros m d _ _. cbn [bs_Get db_blocks MemStore_blockstore]. by rewrite Get_same_ns.
Qed.
End database.
