(* ===== verification/AddFile.v ===== *)
(** * The add pipeline (src/core/memfs/builder.go: AddFile)

    A producer reads the chunker, workers hash the chunks and store them in batches of 32,
    and the consumer restores the order and feeds the level stack; the channels are bounded.
    [fs_step] makes one step of one goroutine; a run interleaves such steps, in any order, with the
    writes of other users of the store.  With erasure coding (off by default) the workers hand the chunks
    on to erasure workers, which [AddFile] waits for when it fails; what these write is left to
    the other users of the store.  [AddFile_correct]: whatever the schedule, the result is that of the
    chunks pushed in order, and the store holds the file; [AddFile_terminates]: every run comes
    to an end without erasure coding, and with it for files of fewer chunks than the channel of results
    holds.  [failure_hangs], [overflow_panics]: longer files with it can hang or take the process down. *)
From S2P Require Import Prelude Mid GoIO Wire Blockstore Objects Memstore Db MemNode MemFile FileStores.

Record chunkResult := mkChunkResult { cr_idx : nat; cr_mid : MID; cr_data : bytes }.
Definition batchSize : nat := 32.

(** the goroutines of erasure coding *)
Record erasing := mkErasing {
  er_enabled : bool;
  er_open : bool;                            (* erasureCh and resCh are not closed *)
  er_queue : list (MID * bytes);             (* erasureCh *)
  er_blocked : list (MID * bytes);           (* the goroutines that wait to send to it *)
  er_running : nat;                          (* the workers that are not done *)
  er_panic : bool;                           (* the process has panicked *)
}.
Record pipe (St : Type) := mkPipe {
  p_store : St;
  p_src : list bytes;                        (* the chunks not yet read *)
  p_end : option error;                      (* the read error after them, None for EOF *)
  p_idx : nat;
  p_open : bool;                             (* workCh is not closed *)
  p_queue : list (nat * bytes);              (* workCh *)
  p_workers : list (list chunkResult);       (* the batch of each worker *)
  p_sending : list (list (result chunkResult)); (* what each worker has still to send of a flush *)
  p_results : list (result chunkResult);     (* resCh *)
  p_pending : gmap nat chunkResult;
  p_next : nat;
  p_stack : memfsLevelStack;
  p_out : option (result AddResult);         (* how the consumer has ended *)
  p_erasing : erasing;
}.
Arguments mkPipe {St}. Arguments p_store {St}. Arguments p_src {St}. Arguments p_end {St}.
Arguments p_idx {St}. Arguments p_open {St}. Arguments p_queue {St}. Arguments p_workers {St}. Arguments p_sending {St}.
Arguments p_results {St}. Arguments p_pending {St}. Arguments p_next {St}. Arguments p_stack {St}.
Arguments p_out {St}. Arguments p_erasing {St}.
(** what [AddFile] has returned: with an error it waits for the goroutines of erasure coding *)
Definition returned {St} (p : pipe St) : option (result AddResult) :=
  match p_out p with
  | Some (Err e) => if (er_running (p_erasing p) =? 0)%nat && bool_decide (er_blocked (p_erasing p) = []) then Some (Err e) else None
  | out => out
  end.
(** the capacities of the channels, for [workers] workers *)
Definition cap_work (workers : nat) : nat := workers * 16.
Definition cap_results (workers : nat) : nat := workers * 16.
Definition cap_erasure (workers : nat) : nat := workers * 64.

Inductive choice := Produce | Take (worker : nat) | Flush (worker : nat) | Send (worker : nat) | Consume | Finish
  | Close | SendTask (task : nat) | Encode | Leave.

Section pipeline.
Context `{Multiformats, Protos, ObjectJSON} (alg : Z) (F : nat) {St : Type} `{Blockstore St, BatchStore St, MetaStore St}.
Context (a : FileArgs).
Implicit Types p : pipe St.

(** the inner loop of the consumer *)
Fixpoint drain_results (fuel : nat) (pending : gmap nat chunkResult) (next : nat) (st : memfsLevelStack)
    : M St (gmap nat chunkResult * nat * memfsLevelStack) :=
  match fuel with
  | O => throw OutOfFuel
  | S fuel =>
      match pending !! next with
      | None => mret (pending, next, st)
      | Some item =>
          st ← pushLeaf alg F (cr_mid item) (u64 (zlen (cr_data item))) (cr_data item) st;
          drain_results fuel (delete next pending) (S next) st
      end
  end.

Definition produce p : option (pipe St) :=
  match p with mkPipe s src e idx open queue ws sd rs pend next st out er =>
    match src with
    | d :: src =>
        if (length queue <? cap_work (length ws))%nat
        then Some (mkPipe s src e (S idx) open (queue ++ [(idx, d)]) ws sd rs pend next st out er) else None
    | [] =>
        if open then
          match e with
          | None => Some (mkPipe s [] e idx false queue ws sd rs pend next st out er)
          | Some err => if (length rs <? cap_results (length ws))%nat
                        then Some (mkPipe s [] e idx false queue ws sd (rs ++ [Err err]) pend next st out er) else None
          end
        else None
    end
  end.
(** the task of a chunk: a goroutine of its own waits when the channel is full *)
Definition queue_task (workers : nat) (m : MID) (d : bytes) (er : erasing) : erasing :=
  match er with mkErasing enabled open queue blocked running panicked =>
    if negb enabled then er else
    if (length queue <? cap_erasure workers)%nat then mkErasing enabled open (queue ++ [(m, d)]) blocked running panicked
    else mkErasing enabled open queue (blocked ++ [(m, d)]) running panicked
  end.
Definition take_work (w : nat) p : option (pipe St) :=
  match p with mkPipe s src e idx open queue ws sd rs pend next st out er =>
    match queue, ws !! w, sd !! w with
    | (i, d) :: queue, Some batch, Some [] =>
        if (length batch <? batchSize)%nat then
          match FromBytes alg d with
          | Ok m => Some (mkPipe s src e idx open queue (<[w := batch ++ [mkChunkResult i m d]]> ws) sd rs pend next st out
                            (queue_task (length ws) m d er))
          | Err _ => None
          end
        else None
    | _, _, _ => None
    end
  end.
Definition raw_batch (batch : list chunkResult) : list SBlock := map (λ r, mkSBlock (cr_mid r) (cr_data r)) batch.
Definition flushRaw (w : nat) p : option (pipe St) :=
  match p with mkPipe s src e idx open queue ws sd rs pend next st out er =>
    match ws !! w, sd !! w with
    | Some batch, Some [] =>
        if (0 <? length batch)%nat && ((length batch =? batchSize)%nat || (bool_decide (queue = []) && negb open)) then
          let '(r, s) := bs_PutBatch (raw_batch batch) s in
          let sent := match r with
                      | Ok _ => map Ok batch
                      | Err e => map (λ _, Err (Wrap "memfs: store raw block" e)) batch
                      end in
          Some (mkPipe s src e idx open queue (<[w := []]> ws) (<[w := sent]> sd) rs pend next st out er)
        else None
    | _, _ => None
    end
  end.
Definition send_result (w : nat) p : option (pipe St) :=
  match p with mkPipe s src e idx open queue ws sd rs pend next st out er =>
    match sd !! w with
    | Some (r :: sent) =>
        if (length rs <? cap_results (length ws))%nat
        then Some (mkPipe s src e idx open queue ws (<[w := sent]> sd) (rs ++ [r]) pend next st out er) else None
    | _ => None
    end
  end.
Definition consume_result p : option (pipe St) :=
  match p with mkPipe s src e idx open queue ws sd rs pend next st out er =>
    match out, rs with
    | None, Err err :: rs => Some (mkPipe s src e idx open queue ws sd rs pend next st (Some (Err err)) er)
    | None, Ok res :: rs =>
        let pend := <[cr_idx res := res]> pend in
        match drain_results (S (size pend)) pend next st s with
        | (Ok (pend, next, st), s) => Some (mkPipe s src e idx open queue ws sd rs pend next st None er)
        | (Err err, s) => Some (mkPipe s src e idx open queue ws sd rs pend next st (Some (Err err)) er)
        end
    | _, _ => None
    end
  end.
(** the workers are done: their channel is closed and empty, and they have sent everything *)
Definition workers_done (open : bool) (queue : list (nat * bytes)) (ws : list (list chunkResult)) (sd : list (list (result chunkResult))) : bool :=
  negb open && bool_decide (queue = []) && forallb (λ b, bool_decide (length b = 0%nat)) ws && forallb (λ l, bool_decide (length l = 0%nat)) sd.
(** a goroutine closes [erasureCh] and [resCh] then; to close a channel panics those that wait to send to it *)
Definition close_channels p : option (pipe St) :=
  match p with mkPipe s src e idx open queue ws sd rs pend next st out (mkErasing enabled eopen tasks blocked running panicked) =>
    if eopen && workers_done open queue ws sd
    then Some (mkPipe s src e idx open queue ws sd rs pend next st out
                 (mkErasing enabled false tasks blocked running (negb (bool_decide (blocked = [])))))
    else None
  end.
(** [resCh] is closed and empty: the loop of the consumer ends *)
Definition finish p : option (pipe St) :=
  match p with mkPipe s src e idx open queue ws sd rs pend next st out er =>
    match out, er_open er, rs with
    | None, false, [] =>
        let '(r, s) := finalize alg F a st s in
        Some (mkPipe s src e idx open queue ws sd rs pend next st (Some r) er)
    | _, _, _ => None
    end
  end.
(** a waiting goroutine sends its task, an erasure worker takes one, or finds the channel closed and empty *)
Definition send_task (workers i : nat) (er : erasing) : option erasing :=
  match er with mkErasing enabled open queue blocked running panicked =>
    match blocked !! i with
    | Some task => if open && (length queue <? cap_erasure workers)%nat
                   then Some (mkErasing enabled open (queue ++ [task]) (delete i blocked) running panicked) else None
    | None => None
    end
  end.
Definition encode_task (er : erasing) : option erasing :=
  match er with
  | mkErasing enabled open (_ :: queue) blocked (S running) panicked => Some (mkErasing enabled open queue blocked (S running) panicked)
  | _ => None
  end.
Definition leave (er : erasing) : option erasing :=
  match er with mkErasing enabled false [] blocked (S running) panicked => Some (mkErasing enabled false [] blocked running panicked) | _ => None end.
Definition on_erasing (f : erasing -> option erasing) p : option (pipe St) :=
  match p with mkPipe s src e idx open queue ws sd rs pend next st out er =>
    er ← f er; Some (mkPipe s src e idx open queue ws sd rs pend next st out er)
  end.
Definition fs_step (c : choice) p : option (pipe St) :=
  if er_panic (p_erasing p) then None else
  match c with
  | Produce => produce p
  | Take w => take_work w p
  | Flush w => flushRaw w p
  | Send w => send_result w p
  | Consume => consume_result p
  | Finish => finish p
  | Close => close_channels p
  | SendTask i => on_erasing (send_task (length (p_workers p)) i) p
  | Encode => on_erasing encode_task p
  | Leave => on_erasing leave p
  end.
Definition run (cs : list choice) p : option (pipe St) := foldl (λ o c, o ≫= fs_step c) (Some p) cs.

(** one goroutine's step, or a write of somebody else *)
Inductive add_step (others : St -> St -> Prop) : pipe St -> pipe St -> Prop :=
  | step_own c p p' : fs_step c p = Some p' -> add_step others p p'
  | step_others s s' src e idx open queue ws sd rs pend next st out er :
      others s s' -> add_step others (mkPipe s src e idx open queue ws sd rs pend next st out er)
                                      (mkPipe s' src e idx open queue ws sd rs pend next st out er).

Definition start_pipe (erasure : bool) (workers : nat) (ds : list bytes) (e : option error) (s : St) : pipe St :=
  mkPipe s ds e 0 true [] (replicate workers []) (replicate workers []) [] ∅ 0 newStack None
    (mkErasing erasure true [] [] (if erasure then Nat.max 4 (2 * workers) else 0) false).
(** [AddFile] with the chunker [c] and [workers] processors; the fuel bounds the chunks *)
Definition AddFile_start {C : Type} `{Chunker C} (erasure : bool) (fuel : nat) (c : C) (workers : nat) (s : St) : pipe St :=
  let '(blocks, e) := drain fuel c in
  start_pipe erasure (Nat.max 2 workers) (map Data blocks)
    (if errors_is e EOF then None else Some (Wrap "memfs: read chunk" e)) s.
End pipeline.

(** ** The result the chunks determine *)
Section reference.
Context `{Multiformats, Protos, ObjectJSON} (alg : Z) (F : nat) {St : Type} `{Blockstore St, MetaStore St}.
Definition push_chunk (d : bytes) (st : memfsLevelStack) : M St memfsLevelStack :=
  m ← liftr (FromBytes alg d); pushLeaf alg F m (u64 (zlen d)) d st.
Fixpoint push_chunks (ds : list bytes) (st : memfsLevelStack) : M St memfsLevelStack :=
  match ds with
  | [] => mret st
  | d :: ds => st ← push_chunk d st; push_chunks ds st
  end.
Definition build_file (a : FileArgs) (ds : list bytes) : M St AddResult :=
  st ← push_chunks ds newStack; finalize alg F a st.
End reference.
(** the result for the chunks [ds], which no store is needed for *)
Definition file_of `{Multiformats, Protos, ObjectJSON} (alg : Z) (F : nat) (a : FileArgs) (ds : list bytes) : result AddResult :=
  (build_file (St := unit) (H2 := null_blocks) (H3 := null_meta) alg F a ds tt).1.

Ltac pipe_cbn := cbn [p_store p_src p_end p_idx p_open p_queue p_workers p_sending p_results p_pending p_next p_stack p_out p_erasing
  produce take_work flushRaw send_result consume_result finish close_channels on_erasing] in *.

Section facts.
Context `{Multiformats} `{!MultiformatsLaws} `{Protos} `{!ProtosLaws} `{ObjectJSON}.
Context (alg : Z) (Halg : isSupportedHash alg = true) (F : nat) (HF : (1 < F)%nat).
Context {St : Type} `{Blockstore St} `{BatchStore St} `{MetaStore St} (inv : St -> Prop) `{!FileStoreLaws St alg inv}.
Context (a : FileArgs) (Ha : Forall is_ascii (fa_mime a)).
Context (ds : list bytes) (Hpos : Forall (λ d, 0 < zlen d) ds) (Hlen : zlen (concat ds) < 2 ^ 63).
Context (err : option error) (s0 : St).
Implicit Types (s : St) (p : pipe St).
#[local] Existing Instance null_blocks.
#[local] Existing Instance null_meta.

(** the chunk [i] under its MID *)
Definition work (i : nat) (d : bytes) : Prop := ds !! i = Some d.
Definition hashed (r : chunkResult) : Prop := work (cr_idx r) (cr_data r) /\ FromBytes alg (cr_data r) = Ok (cr_mid r).
Definition stored s (r : chunkResult) : Prop := hashed r /\ bs_Get (cr_mid r) s = Ok (cr_data r).
(** the failures that end [AddFile] with an error *)
Definition Failed : Prop := StoreFails alg inv \/ err ≠ None.
Definition result_ok s (r : result chunkResult) : Prop :=
  match r with Ok r => stored s r | Err _ => Failed end.
(** the results that the consumer has not had, sent or not *)
Definition flight p : list (result chunkResult) := p_results p ++ concat (p_sending p).
(** where the chunk [i], once read, can be, unless a failure is on its way *)
Definition somewhere (queue : list (nat * bytes)) (ws : list (list chunkResult)) (rs : list (result chunkResult))
    (pend : gmap nat chunkResult) (next i : nat) : Prop :=
  (i < next)%nat \/ (exists d, (i, d) ∈ queue) \/ (exists b r, b ∈ ws /\ r ∈ b /\ cr_idx r = i) \/
  (exists r, Ok r ∈ rs /\ cr_idx r = i) \/ is_Some (pend !! i) \/ (exists e, Err e ∈ rs).
Definition final_ok s (r : result AddResult) : Prop :=
  match r with
  | Ok res => err = None /\ file_of alg F a ds = Ok res /\ file_result alg s res ds
  | Err _ => Failed
  end.
Record pipe_ok p : Prop := {
  ok_store : grows alg inv s0 (p_store p);
  ok_end : p_end p = err;
  ok_src : p_src p = drop (p_idx p) ds /\ (p_idx p ≤ length ds)%nat;
  ok_closed : p_open p = false -> p_src p = [] /\ (err ≠ None -> (exists e, Err e ∈ flight p) \/ p_out p ≠ None);
  ok_queue : Forall (λ w, work w.1 w.2) (p_queue p);
  ok_workers : Forall (Forall hashed) (p_workers p);
  ok_results : Forall (result_ok (p_store p)) (flight p);
  ok_pending : map_Forall (λ i r, i = cr_idx r /\ stored (p_store p) r) (p_pending p);
  ok_next : (p_next p ≤ length ds)%nat /\ (p_out p = None -> p_pending p !! p_next p = None);
  ok_where : forall i, (i < p_idx p)%nat -> p_out p = None ->
    somewhere (p_queue p) (p_workers p) (flight p) (p_pending p) (p_next p) i;
  ok_stack : p_out p = None -> stack_ok alg (p_store p) (p_stack p) (take (p_next p) ds) /\
    push_chunks alg F (take (p_next p) ds) newStack tt = (Ok (p_stack p), tt);
  ok_out : forall r, p_out p = Some r -> final_ok (p_store p) r;
  ok_done : er_open (p_erasing p) = false -> workers_done (p_open p) (p_queue p) (p_workers p) (p_sending p) = true;
}.

Lemma stored_keeps s s' r : keeps alg s s' -> stored s r -> stored s' r.
Proof.
  intros Hk [[Hw Hm] Hg]. split; [done|]. apply Hk; [| |done].
  - by eapply (FromBytesWithCodec_wf alg (cr_data r) CodecRaw).
  - by eapply (FromBytes_names alg Halg (cr_data r) CodecRaw).
Qed.
Lemma result_keeps s s' r : keeps alg s s' -> result_ok s r -> result_ok s' r.
Proof. intros Hk. destruct r as [r|]; cbn; [by apply stored_keeps|done]. Qed.
Lemma results_keep s s' rs : keeps alg s s' -> Forall (result_ok s) rs -> Forall (result_ok s') rs.
Proof. intros Hk Hf. eapply Forall_impl; [done|]. intros r. by apply result_keeps. Qed.
Lemma pending_keeps s s' (pend : gmap nat chunkResult) : keeps alg s s' ->
  map_Forall (λ i r, i = cr_idx r /\ stored s r) pend -> map_Forall (λ i r, i = cr_idx r /\ stored s' r) pend.
Proof. intros Hk Hf i r Hi. destruct (Hf i r Hi). split; [done|]. by eapply stored_keeps. Qed.
Lemma final_keeps s s' r : keeps alg s s' -> final_ok s r -> final_ok s' r.
Proof.
  intros Hk. destruct r as [res|]; cbn; [|done]. intros (He & Hf & Hr). split_and!; [done..|].
  destruct Hr as (Hr & ? & ?). split_and!; try done. by eapply file_at_keeps.
Qed.

Lemma start_ok erasure n : inv s0 -> pipe_ok (start_pipe erasure n ds err s0).
Proof.
  intros Hs. assert (flight (start_pipe erasure n ds err s0) = []) as Hfl by (unfold flight; cbn; by induction n).
  split; try rewrite Hfl; cbn; try done.
  - rewrite drop_0. split; [done|lia].
  - apply Forall_replicate. constructor.
  - split; [lia|done].
  - intros i Hi. lia.
Qed.

(** ** Each step keeps the invariant *)
Lemma flight_new (sd : list (list (result chunkResult))) (w : nat) b : sd !! w = Some b ->
  exists rest, concat sd ≡ₚ b ++ rest /\ forall b', concat (<[w := b']> sd) ≡ₚ b' ++ rest.
Proof.
  revert w. induction sd as [|x sd IH]; intros [|w]; try done.
  - intros [= ->]. by exists (concat sd).
  - intros Hw. destruct (IH w Hw) as (rest & E & E'). exists (x ++ rest). split.
    + cbn [concat]. rewrite E. rewrite !app_assoc. by rewrite (Permutation_app_comm x b).
    + intros b'. change (<[S w:=b']> (x :: sd)) with (x :: <[w:=b']> sd). cbn [concat]. rewrite (E' b'), !app_assoc. by rewrite (Permutation_app_comm x b').
Qed.
Lemma somewhere_more queue ws fl fl' pend next i : (forall x, x ∈ fl -> x ∈ fl') ->
  somewhere queue ws fl pend next i -> somewhere queue ws fl' pend next i.
Proof.
  intros Hin [?|[?|[?|[(r & Hr & ?)|[?|(e & He)]]]]]; unfold somewhere; [tauto..| |tauto|].
  - do 3 right. left. exists r. split; [by apply Hin|done].
  - do 5 right. exists e. by apply Hin.
Qed.
(** the workers are done for good *)
Lemma not_done queue ws sd w b x l open : workers_done open queue ws sd = true ->
  open = true \/ queue ≠ [] \/ (ws !! w = Some b /\ b ≠ []) \/ sd !! w = Some (x :: l) -> False.
Proof.
  unfold workers_done. intros [[[Ho Hq]%andb_true_iff Hw]%andb_true_iff Hs]%andb_true_iff. rewrite forallb_forall in Hw, Hs.
  apply bool_decide_eq_true in Hq. intros [->|[?|[[Hb Hne]|Hx]]]; [done|done| |].
  - specialize (Hw b ltac:(apply list_elem_of_In; by eapply list_elem_of_lookup_2)). apply bool_decide_eq_true in Hw. by destruct b.
  - specialize (Hs _ ltac:(apply list_elem_of_In; by eapply list_elem_of_lookup_2)). by apply bool_decide_eq_true in Hs.
Qed.
Lemma queue_task_open n m d er : er_open (queue_task n m d er) = er_open er.
Proof. destruct er as [[] open queue blocked running panicked]; [|done]. cbn. by case_match. Qed.
Lemma produce_ok p p' : pipe_ok p -> produce p = Some p' -> pipe_ok p'.
Proof.
  destruct p as [s src e idx open queue ws sd rs pend next st out er]. intros [Hst He [Hsrc Hidx] Hcl Hq Hw Hr Hp Hn Hwh Hs Ho Hd]. unfold flight in *. pipe_cbn.
  destruct src as [|d src].
  - destruct open; [|done]. intros E.
    assert (exists new, p' = mkPipe s [] e idx false queue ws sd (rs ++ new) pend next st out er /\ Forall (result_ok s) new /\ (err ≠ None -> exists e, Err e ∈ new)) as (new & -> & Hnew & Herr).
    { subst e. destruct err as [e|] eqn:Ee.
      - destruct (_ <? _)%nat; [|done]. injection E as <-. exists [Err e]. split; [done|]. split; [|intros _; exists e; by left]. constructor; [right; by rewrite Ee|constructor].
      - injection E as <-. exists []. by rewrite app_nil_r. }
    assert (forall x, x ∈ rs ++ concat sd -> x ∈ (rs ++ new) ++ concat sd) as Hin by (intros x; rewrite !elem_of_app; tauto).
    split; unfold flight; pipe_cbn; try done.
    + intros _. split; [done|]. intros Hne. left. destruct (Herr Hne) as [e0 He0]. exists e0. rewrite !elem_of_app. tauto.
    + apply Forall_app in Hr as [Hr1 Hr2]. by rewrite !Forall_app.
    + intros i Hi Hout. eapply somewhere_more; [exact Hin|by apply Hwh].
    + intros Hop. exfalso. apply (not_done queue ws sd 0 [] (Err (New "")) [] true); [by apply Hd|by left].
  - destruct (_ <? _)%nat; [|done]. intros [= <-]. assert (ds !! idx = Some d) as Hdi.
    { assert (drop idx ds !! 0%nat = Some d) as E by by rewrite <-Hsrc. by rewrite lookup_drop, Nat.add_0_r in E. }
    assert (open = true) as -> by (destruct open; [done|]; by destruct (Hcl eq_refl)).
    assert (S idx ≤ length ds)%nat as Hidx' by (apply lookup_lt_Some in Hdi; lia). split; unfold flight; pipe_cbn; try done.
    + split; [|done]. rewrite <-Nat.add_1_r, <-drop_drop, <-Hsrc. done.
    + apply Forall_app. split; [done|]. by repeat constructor.
    + intros i Hi Hout. destruct (decide (i = idx)) as [->|].
      * right. left. exists d. apply elem_of_app. right. by left.
      * destruct (Hwh i ltac:(lia) Hout) as [?|[(d' & Hd')|[?|[?|?]]]]; unfold somewhere; [tauto| |tauto..].
        right. left. exists d'. apply elem_of_app. by left.
Qed.
Lemma batch_in (ws : list (list chunkResult)) (w : nat) (b b' : list chunkResult) x : ws !! w = Some b -> x ∈ ws -> x = b \/ x ∈ <[w := b']> ws.
Proof.
  intros Hw Hx. apply list_elem_of_lookup in Hx as [j Hj]. destruct (decide (j = w)) as [->|Hne]; [left; congruence|right].
  apply (list_elem_of_lookup_2 _ j). by rewrite list_lookup_insert_ne.
Qed.
Lemma batch_new (ws : list (list chunkResult)) (w : nat) (b b' : list chunkResult) : ws !! w = Some b -> b' ∈ <[w := b']> ws.
Proof.
  intros Hw. apply (list_elem_of_lookup_2 _ w). apply list_lookup_insert_eq. by apply lookup_lt_Some in Hw.
Qed.
Lemma take_ok w p p' : pipe_ok p -> take_work alg w p = Some p' -> pipe_ok p'.
Proof.
  destruct p as [s src e idx open queue ws sd rs pend next st out er]. intros [Hst He Hsrc Hcl Hq Hw Hr Hp Hn Hwh Hs Ho Hd]. unfold flight in *. pipe_cbn.
  destruct queue as [|[i d] queue]; [done|]. destruct (ws !! w) as [b|] eqn:Eb; [|done]. destruct (sd !! w) as [[|x l]|] eqn:Es; try done.
  destruct (length b <? batchSize)%nat; [|done]. destruct (FromBytes alg d) as [m|] eqn:Em; [|done]. intros [= <-].
  apply Forall_cons in Hq as [Hid Hq]. set (b' := b ++ [mkChunkResult i m d]). split; unfold flight; pipe_cbn; try done.
  - apply Forall_insert; [done|]. apply Forall_app. split; [by eapply (Forall_lookup_1 (Forall hashed))|]. by repeat constructor.
  - intros j Hj Hout. destruct (Hwh j Hj Hout) as [?|[(d' & Hd')|[(b0 & r & Hb0 & Hr0 & Hi)|[?|?]]]]; unfold somewhere; [tauto| | |tauto..].
    + apply elem_of_cons in Hd' as [[= -> ->]|Hd'].
      * right. right. left. exists b', (mkChunkResult i m d). split_and!; [by eapply batch_new| |done].
        apply elem_of_app. right. by left.
      * right. left. by exists d'.
    + right. right. left. destruct (batch_in ws w b b' b0 Eb Hb0) as [->|Hb].
      * exists b', r. split_and!; [by eapply batch_new| |done]. apply elem_of_app. by left.
      * by exists b0, r.
  - rewrite queue_task_open. intros Hop. exfalso. apply (not_done ((i, d) :: queue) ws sd w b (Err (New "")) [] open); [by apply Hd|]. right. by left.
Qed.
Lemma flush_ok w p p' : pipe_ok p -> flushRaw w p = Some p' -> pipe_ok p'.
Proof.
  destruct p as [s src e idx open queue ws sd rs pend next st out er]. intros [Hst He Hsrc Hcl Hq Hw Hr Hp Hn Hwh Hs Ho Hd]. unfold flight in *. pipe_cbn.
  destruct (ws !! w) as [b|] eqn:Eb; [|done]. destruct (sd !! w) as [[|x l]|] eqn:Es; try done.
  destruct (Nat.ltb_spec 0 (length b)) as [Hlb|]; [|done]. destruct (_ && _); [|done]. destruct (bs_PutBatch (raw_batch b) s) as [r s1] eqn:Eput. cbv zeta. intros [= <-].
  pose proof (Forall_lookup_1 _ _ _ _ Hw Eb) as Hb.
  assert (Forall (λ x, wf_mid (sb_MID x) /\ names alg (sb_MID x) (sb_Data x)) (raw_batch b)) as Hb'.
  { apply Forall_fmap. eapply Forall_impl; [exact Hb|]. intros x [_ Hm]. cbn.
    split; [by eapply (FromBytesWithCodec_wf alg (cr_data x) CodecRaw)|by eapply (FromBytes_names alg Halg (cr_data x) CodecRaw)]. }
  destruct Hst as [Hs0 Hk0]. destruct (putbatch_spec (raw_batch b) s r s1 Hs0) as (Hs1 & Hk1 & Hok); [|done|].
  { eapply Forall_impl; [exact Hb'|]. by intros x [? _]. }
  set (sent := match r with Ok _ => map Ok b | Err e0 => map (λ _, Err (Wrap "memfs: store raw block" e0)) b end).
  destruct (flight_new sd w [] Es) as (rest & Hold & Hnew). specialize (Hnew sent). cbn [app] in Hold.
  assert (rs ++ concat (<[w := sent]> sd) ≡ₚ (rs ++ concat sd) ++ sent) as Hfl by (rewrite Hnew, Hold, <-!app_assoc; by rewrite (Permutation_app_comm sent rest)).
  assert (forall x, x ∈ rs ++ concat sd -> x ∈ rs ++ concat (<[w := sent]> sd)) as Hin by (intros x; rewrite Hfl, !elem_of_app; tauto).
  assert (forall x, x ∈ sent -> x ∈ rs ++ concat (<[w := sent]> sd)) as Hin' by (intros x; rewrite Hfl, !elem_of_app; tauto).
  split; unfold flight; pipe_cbn; try done.
  - split; [done|]. by etrans.
  - intros Hop. destruct (Hcl Hop) as [? Hce]. split; [done|]. intros Hne. destruct (Hce Hne) as [[e0 He0]|?]; [left|by right].
    exists e0. by apply Hin.
  - apply Forall_insert; [done|constructor].
  - rewrite Hfl. apply Forall_app. split; [by eapply results_keep|]. unfold sent. destruct r as [[]|e0].
    + specialize (Hok eq_refl). apply Forall_fmap in Hok. apply Forall_fmap. rewrite Forall_forall in Hb, Hok |- *.
      intros x Hx. split; [by apply Hb|]. by apply (Hok x Hx).
    + apply Forall_fmap. apply Forall_forall. intros x _. left. right. left. by exists (raw_batch b), s, e0, s1.
  - by eapply pending_keeps.
  - intros j Hj Hout. destruct (Hwh j Hj Hout) as [?|[?|[(b0 & x & Hb0 & Hx & Hi)|Hrest]]];
      [unfold somewhere; tauto..| |apply (somewhere_more _ _ _ _ _ _ _ Hin); unfold somewhere; tauto].
    destruct (batch_in ws w b [] b0 Eb Hb0) as [->|Hin0]; [|right; right; left; by exists b0, x].
    assert (Ok x ∈ sent \/ exists e0, Err e0 ∈ sent) as [Hx'|[e0 He0]].
    { unfold sent. destruct r as [[]|e0]; [left; by apply list_elem_of_fmap_2|right; eexists; by apply (list_elem_of_fmap_2 (λ _, Err (Wrap _ e0)) b x)]. }
    + do 3 right. left. exists x. split; [by apply Hin'|done].
    + do 5 right. exists e0. by apply Hin'.
  - intros Hout. destruct (Hs Hout). split; [|done]. by eapply stack_ok_keeps.
  - intros r1 Hr1. eapply final_keeps; [done|]. by apply Ho.
  - intros Hop. exfalso. apply (not_done queue ws sd w b (Err (New "")) [] open); [by apply Hd|]. right. right. left. split; [done|]. by destruct b; [simpl in Hlb; lia|].
Qed.

Lemma push_chunks_snoc l d m st st1 st2 : FromBytes alg d = Ok m ->
  push_chunks alg F l st tt = (Ok st1, tt) -> pushLeaf alg F m (u64 (zlen d)) d st1 tt = (Ok st2, tt) ->
  push_chunks alg F (l ++ [d]) st tt = (Ok st2, tt).
Proof.
  intros Hm. revert st. induction l as [|x l IH]; intros st; cbn [push_chunks app].
  - intros [= <-] E. unfold push_chunk. unfold liftr. rewrite Hm.
    erewrite M_bind_Ok; [done|]. erewrite M_bind_Ok by done. exact E.
  - intros (st' & [] & E1 & E2)%M_bind_inv E. erewrite M_bind_Ok by exact E1. by apply IH.
Qed.
Lemma take_concat_le n : zlen (concat (take n ds)) <= zlen (concat ds).
Proof.
  rewrite <-(take_drop n ds) at 2. rewrite concat_app, zlen_app. pose proof (zlen_nonneg (concat (drop n ds))). lia.
Qed.
Definition queued s (pend : gmap nat chunkResult) : Prop := map_Forall (λ i r, i = cr_idx r /\ stored s r) pend.
Definition in_order s (next : nat) (st : memfsLevelStack) : Prop :=
  (next ≤ length ds)%nat /\ stack_ok alg s st (take next ds) /\ push_chunks alg F (take next ds) newStack tt = (Ok st, tt).
Lemma drain_ok fuel pend next st s : inv s -> queued s pend -> in_order s next st -> (size pend < fuel)%nat ->
  exists r s1, drain_results alg F fuel pend next st s = (r, s1) /\ grows alg inv s s1 /\
    match r with
    | Ok (pend', next', st') => queued s1 pend' /\ in_order s1 next' st' /\ pend' !! next' = None /\ (next ≤ next')%nat /\
        (forall i, is_Some (pend !! i) -> (i < next')%nat \/ is_Some (pend' !! i))
    | Err _ => StoreFails alg inv
    end.
Proof.
  revert pend next st s. induction fuel as [|fuel IH]; intros pend next st s Hs Hq Ho Hf; [lia|]. cbn [drain_results].
  destruct (pend !! next) as [item|] eqn:En.
  2:{ exists (Ok (pend, next, st)), s. split_and!; try done. intros i Hi. by right. }
  destruct (Hq _ _ En) as [Hidx [[Hw Hm] Hg]]. destruct Ho as (Hn & Hst & Hp). unfold work in Hw. rewrite <-Hidx in Hw.
  set (d := cr_data item) in *. set (m := cr_mid item) in *.
  assert (take (S next) ds = take next ds ++ [d]) as Etk by by apply take_S_r.
  assert (0 < zlen d) as Hd by exact (Forall_lookup_1 _ _ _ _ Hpos Hw).
  assert (zlen d < 2 ^ 63) as Hd63.
  { pose proof (take_concat_le (S next)) as Hle. rewrite Etk, concat_app, zlen_app in Hle. cbn [concat] in Hle.
    rewrite app_nil_r in Hle. pose proof (zlen_nonneg (concat (take next ds))). lia. }
  destruct (pushLeaf_ends alg Halg F HF inv st (take next ds) d m s) as (r & s1 & E & [Hs1 Hk1] & Hr); try done.
  { rewrite <-Etk. by apply Forall_take. }
  { rewrite <-Etk. pose proof (take_concat_le (S next)). lia. }
  rewrite <-(u64_small (zlen d)) in E by lia.
  destruct Hr as [(st1 & -> & Hst1)|[[e ->] Hfail]].
  2:{ erewrite M_bind_Err by exact E. exists (Err e), s1. split_and!; [done|by split|done]. }
  erewrite M_bind_Ok by exact E.
  destruct (IH (delete next pend) (S next) st1 s1 Hs1) as (r & s2 & E2 & Hg2 & Hr2).
  - intros i x Hi. apply lookup_delete_Some in Hi as [_ Hi]. destruct (Hq i x Hi). split; [done|]. by eapply stored_keeps.
  - split_and!; [apply lookup_lt_Some in Hw; lia|by rewrite Etk|]. rewrite Etk. eapply push_chunks_snoc; [exact Hm|exact Hp|].
    exact (pushLeaf_agrees alg F m _ d st s st1 s1 E).
  - rewrite map_size_delete_Some by done. pose proof (map_size_ne_0_lookup_2 pend next ltac:(by eexists)). lia.
  - exists r, s2. split_and!; [done|by eapply grow_trans|]. destruct r as [[[pend' next'] st']|]; [|done].
    destruct Hr2 as (? & ? & ? & Hle & Hall). split_and!; try done; [lia|]. intros i Hi.
    destruct (decide (i = next)) as [->|Hne]; [left; lia|]. apply Hall. by rewrite lookup_delete_ne.
Qed.
Lemma send_ok w p p' : pipe_ok p -> send_result w p = Some p' -> pipe_ok p'.
Proof.
  destruct p as [s src e idx open queue ws sd rs pend next st out er]. intros [Hst He Hsrc Hcl Hq Hw Hr Hp Hn Hwh Hs Ho Hd]. unfold flight in *. pipe_cbn.
  destruct (sd !! w) as [[|x l]|] eqn:Es; try done. destruct (_ <? _)%nat; [|done]. intros [= <-].
  destruct (flight_new sd w (x :: l) Es) as (rest & Hold & Hnew). specialize (Hnew l).
  assert ((rs ++ [x]) ++ concat (<[w := l]> sd) ≡ₚ rs ++ concat sd) as Hfl by by rewrite Hnew, Hold, <-app_assoc.
  assert (forall y, y ∈ rs ++ concat sd -> y ∈ (rs ++ [x]) ++ concat (<[w := l]> sd)) as Hin by (intros y; by rewrite Hfl).
  split; unfold flight; pipe_cbn; try done.
  - intros Hop. destruct (Hcl Hop) as [? Hce]. split; [done|]. intros Hne. destruct (Hce Hne) as [[e0 He0]|?]; [left|by right]. exists e0. by apply Hin.
  - by rewrite Hfl.
  - intros i Hi Hout. eapply somewhere_more; [exact Hin|by apply Hwh].
  - intros Hop. exfalso. apply (not_done queue ws sd w [] x l open); [by apply Hd|]. by do 3 right.
Qed.
Lemma consume_ok p p' : pipe_ok p -> consume_result alg F p = Some p' -> pipe_ok p'.
Proof.
  destruct p as [s src e idx open queue ws sd rs pend next st out er]. intros [Hst He Hsrc Hcl Hq Hw Hr Hp Hn Hwh Hs Ho Hd]. unfold flight in *. pipe_cbn.
  destruct out as [out|]; [done|]. destruct rs as [|[res|e0] rs]; [done| |]; cbn [app] in *; apply Forall_cons in Hr as [Hres Hr].
  - set (pend1 := <[cr_idx res := res]> pend).
    destruct (Hs eq_refl) as [Hs1 Hs2]. destruct Hst as [Hinv Hkp].
    destruct (drain_ok (S (size pend1)) pend1 next st s) as (r & s1 & E & [Hs1' Hk1] & Hpost); [done| | |lia|].
    { apply map_Forall_insert_2; [done|done]. }
    { split_and!; [apply Hn|done..]. }
    rewrite E. assert (Forall (result_ok s1) (rs ++ concat sd)) as Hrs1 by by eapply results_keep.
    destruct r as [[[pend' next'] st']|e1]; intros [= <-].
    + destruct Hpost as (Hq' & (Hn' & Hst' & Hp') & Hnone & Hle & Hall). split; unfold flight; pipe_cbn; try done.
      * split; [done|]. by etrans.
      * intros Hop. destruct (Hcl Hop) as [? Hce]. split; [done|]. intros Hne. destruct (Hce Hne) as [[e0 He0]|?]; [left|by right].
        exists e0. by apply elem_of_cons in He0 as [?|?].
      * intros i Hi _. destruct (Hwh i Hi eq_refl) as [?|[?|[?|[(x & Hx & Hxi)|[?|(e0 & He0)]]]]]; unfold somewhere; [left; lia|tauto..| | |].
        -- apply elem_of_cons in Hx as [[= ->]|?]; [|do 3 right; left; by exists x].
           destruct (Hall i) as [?|?]; [subst i pend1; by rewrite lookup_insert_eq|by left|tauto].
        -- destruct (Hall i) as [?|?]; [|by left|tauto]. subst pend1.
           destruct (decide (i = cr_idx res)) as [->|]; [by rewrite lookup_insert_eq|by rewrite lookup_insert_ne].
        -- do 5 right. exists e0. by apply elem_of_cons in He0 as [?|?].
    + split; unfold flight; pipe_cbn; try done.
      * split; [done|]. by etrans.
      * intros Hop. destruct (Hcl Hop) as [? _]. split; [done|]. by right.
      * eapply pending_keeps; [exact Hk1|]. by apply map_Forall_insert_2.
      * split; [apply Hn|done].
      * intros r [= <-]. by left.
  - intros [= <-]. split; unfold flight; pipe_cbn; try done.
    + intros Hop. destruct (Hcl Hop) as [? _]. split; [done|]. by right.
    + split; [apply Hn|done].
    + by intros r [= <-].
Qed.
Lemma finish_ok p p' : pipe_ok p -> finish alg F a p = Some p' -> pipe_ok p'.
Proof.
  destruct p as [s src e idx open queue ws sd rs pend next st out er]. intros [Hst He [Hsrc Hidx] Hcl Hq Hw Hr Hp [Hn Hnone] Hwh Hs Ho Hd]. unfold flight in *. pipe_cbn.
  destruct out as [|]; [done|]. destruct (er_open er) eqn:Eo; [done|]. destruct rs; [|done].
  specialize (Hd eq_refl). pose proof Hd as Hdone. unfold workers_done in Hd. apply andb_true_iff in Hd as [[[Hop Hqe]%andb_true_iff Ews]%andb_true_iff Esd].
  destruct open; [done|]. apply bool_decide_eq_true in Hqe as ->. rewrite forallb_forall in Ews, Esd.
  assert (concat sd = []) as Hfl.
  { clear -Esd. induction sd as [|l sd IH]; [done|]. cbn [concat]. rewrite IH by (intros; apply Esd; by right).
    specialize (Esd l ltac:(by left)). apply bool_decide_eq_true, length_zero_iff_nil in Esd. by rewrite Esd. }
  rewrite Hfl in *. cbn [app] in *.
  destruct (Hcl eq_refl) as [-> Hce]. destruct (Hs eq_refl) as [Hst1 Hst2].
  assert (err = None) as Herr.
  { destruct (decide (err = None)) as [|Hne]; [done|]. destruct (Hce Hne) as [[e1 He1%not_elem_of_nil]|]; done. }
  assert (next = length ds) as Hlast.
  { apply (f_equal length) in Hsrc. rewrite length_drop in Hsrc. cbn [length] in Hsrc.
    destruct (decide (next < length ds)%nat) as [Hlt|]; [|lia]. exfalso.
    destruct (Hwh next ltac:(lia) eq_refl) as [?|[[d Hd%not_elem_of_nil]|[(b & r & Hb & Hx & _)|[(r & Hx%not_elem_of_nil & _)|[Hx|[e0 Hx%not_elem_of_nil]]]]]]; [lia|done| |done| |done].
    - specialize (Ews b ltac:(by apply list_elem_of_In)). apply bool_decide_eq_true, length_zero_iff_nil in Ews as ->.
      by apply not_elem_of_nil in Hx.
    - rewrite (Hnone eq_refl) in Hx. by destruct Hx. }
  subst next. rewrite firstn_all in Hst1, Hst2.
  destruct (finalize_ends alg Halg F HF inv a st ds s) as (r & s1 & E & [Hs1 Hk1] & Hres); [apply Hst|done..|].
  rewrite E. intros [= <-]. split; unfold flight; pipe_cbn; rewrite ?Hfl; try done.
  - destruct Hst as [_ Hk]. split; [done|]. by etrans.
  - by eapply pending_keeps.
  - intros r0 [= <-]. destruct Hres as [(res & -> & Hres)|[[e0 ->] Hf]]; [|by left]. cbn. split_and!; [done| |done].
    unfold file_of, build_file. erewrite M_bind_Ok by exact Hst2.
    by rewrite (finalize_agrees alg F a st s res s1 E).
Qed.
Lemma close_ok p p' : pipe_ok p -> close_channels p = Some p' -> pipe_ok p'.
Proof.
  destruct p as [s src e idx open queue ws sd rs pend next st out [enabled eopen tasks blocked running panicked]].
  intros [Hst He Hsrc Hcl Hq Hw Hr Hp Hn Hwh Hs Ho Hd]. pipe_cbn. destruct eopen; [|done]. cbn [andb].
  destruct (workers_done open queue ws sd) eqn:Ed; [|done]. intros [= <-]. by split.
Qed.
Lemma erasing_ok f p p' : (forall er er', f er = Some er' -> er_open er' = er_open er) -> pipe_ok p -> on_erasing f p = Some p' -> pipe_ok p'.
Proof.
  intros Hf. destruct p as [s src e idx open queue ws sd rs pend next st out er]. intros [Hst He Hsrc Hcl Hq Hw Hr Hp Hn Hwh Hs Ho Hd]. pipe_cbn.
  destruct (f er) as [er'|] eqn:E; [|done]. cbn. intros [= <-]. split; try done. cbn [p_erasing]. by rewrite (Hf _ _ E).
Qed.
Lemma send_task_open n i er er' : send_task n i er = Some er' -> er_open er' = er_open er.
Proof. destruct er as [? ? ? blocked ? ?]. cbn. destruct (blocked !! i); [|done]. destruct (_ && _); [|done]. by intros [= <-]. Qed.
Lemma encode_open er er' : encode_task er = Some er' -> er_open er' = er_open er.
Proof. destruct er as [? ? [|] ? [|] ?]; cbn; try done. by intros [= <-]. Qed.
Lemma leave_open er er' : leave er = Some er' -> er_open er' = er_open er.
Proof. destruct er as [? [] [|] ? [|] ?]; cbn; try done. by intros [= <-]. Qed.
Lemma others_ok others s s' src e idx open queue ws sd rs pend next st out er :
  (forall s s', inv s -> others s s' -> grows alg inv s s') -> others s s' ->
  pipe_ok (mkPipe s src e idx open queue ws sd rs pend next st out er) ->
  pipe_ok (mkPipe s' src e idx open queue ws sd rs pend next st out er).
Proof.
  intros Hoth Hss [Hst He Hsrc Hcl Hq Hw Hr Hp Hn Hwh Hs Ho Hd]. pipe_cbn. destruct Hst as [Hi Hk].
  destruct (Hoth s s' Hi Hss) as [Hi' Hk']. split; pipe_cbn; try done.
  - split; [done|]. by etrans.
  - by eapply results_keep.
  - by eapply pending_keeps.
  - intros Hout. destruct (Hs Hout). split; [|done]. by eapply stack_ok_keeps.
  - intros r Hr0. eapply final_keeps; [done|]. by apply Ho.
Qed.
Lemma fs_step_ok c p p' : pipe_ok p -> fs_step alg F a c p = Some p' -> pipe_ok p'.
Proof.
  unfold fs_step. destruct (er_panic _); [done|].
  destruct c; [apply produce_ok|apply take_ok|apply flush_ok|apply send_ok|apply consume_ok|apply finish_ok|apply close_ok|..].
  - apply erasing_ok. intros er er'. apply send_task_open.
  - apply erasing_ok, encode_open.
  - apply erasing_ok, leave_open.
Qed.
Lemma add_step_ok others p p' : (forall s s', inv s -> others s s' -> grows alg inv s s') ->
  pipe_ok p -> add_step alg F a others p p' -> pipe_ok p'.
Proof. intros Hoth Hp Hs. destruct Hs; [by eapply fs_step_ok|by eapply others_ok]. Qed.
Lemma reachable_ok others erasure n p : (forall s s', inv s -> others s s' -> grows alg inv s s') -> inv s0 ->
  rtc (add_step alg F a others) (start_pipe erasure n ds err s0) p -> pipe_ok p.
Proof.
  intros Hoth Hs Hr. pose proof (start_ok erasure n Hs) as Hp. revert Hp.
  induction Hr as [|p1 p2 p3 Hstep _ IH]; intros Hp; [done|]. apply IH. by eapply add_step_ok.
Qed.

(** ** Progress *)
Definition work_left p : nat :=
  (7 * length (p_src p) + (if p_open p then 3 else 0) + 6 * length (p_queue p) + 3 * length (concat (p_workers p)) + 2 * length (concat (p_sending p))
   + length (p_results p) + match p_out p with None => 1 | Some _ => 0 end
   + length (er_queue (p_erasing p)) + 2 * length (er_blocked (p_erasing p)) + er_running (p_erasing p) + (if er_open (p_erasing p) then 1 else 0))%nat.
Lemma concat_insert {A} (ws : list (list A)) (w : nat) b b' : ws !! w = Some b ->
  (length (concat (<[w := b']> ws)) + length b = length (concat ws) + length b')%nat.
Proof.
  revert w. induction ws as [|x ws IH]; intros [|w]; try done.
  - intros [= ->]. cbn. rewrite !length_app. lia.
  - intros Hw. specialize (IH w Hw). change (<[S w:=b']> (x :: ws)) with (x :: <[w:=b']> ws). cbn [concat].
    rewrite !length_app. lia.
Qed.
(** a run has this many workers, of erasure coding as many as there are until their channel is closed, and
    what is on its way is bounded by what there was to read *)
Record geared (erasure : bool) (n : nat) p : Prop := {
  ge_workers : length (p_workers p) = n;
  ge_sending : length (p_sending p) = n;
  ge_batch : Forall (λ b, length b ≤ batchSize)%nat (p_workers p);
  ge_on : er_enabled (p_erasing p) = erasure;
  ge_off : erasure = false -> er_blocked (p_erasing p) = [] /\ er_running (p_erasing p) = 0%nat;
  ge_running : er_open (p_erasing p) = true -> er_running (p_erasing p) = (if erasure then Nat.max 4 (2 * n) else 0)%nat;
  ge_flight : (length (p_results p) + length (concat (p_sending p)) + length (concat (p_workers p)) + length (p_queue p) + length (p_src p)
    + (if p_open p then 1 else 0) ≤ length ds + 1)%nat;
  ge_tasks : (length (er_queue (p_erasing p)) + length (er_blocked (p_erasing p)) + length (p_queue p) + length (p_src p) ≤ length ds)%nat;
}.
(** no goroutine waits for the channel of erasure coding, and there was no panic *)
Definition unblocked p : Prop := er_blocked (p_erasing p) = [] /\ er_panic (p_erasing p) = false.
Lemma queue_task_spec erasure n m d er : er_enabled er = erasure -> let er' := queue_task n m d er in
  er_enabled er' = erasure /\ er_open er' = er_open er /\ er_running er' = er_running er /\ er_panic er' = er_panic er /\
  (if erasure then length (er_queue er') + length (er_blocked er') = S (length (er_queue er) + length (er_blocked er)) else er' = er)%nat /\
  ((erasure = true -> (length (er_queue er) < cap_erasure n)%nat) -> er_blocked er' = er_blocked er) /\
  (length (er_queue er') + 2 * length (er_blocked er') ≤ 2 + length (er_queue er) + 2 * length (er_blocked er))%nat.
Proof.
  intros He. destruct er as [en o q b r pn]. cbn [er_enabled] in He. subst en. unfold queue_task.
  destruct erasure; cbn [negb]; [|cbn [er_enabled er_open er_queue er_blocked er_running er_panic]; split_and!; (done || lia)].
  destruct (Nat.ltb_spec (length q) (cap_erasure n)) as [Hl|Hl]; cbn [er_enabled er_open er_queue er_blocked er_running er_panic]; rewrite ?length_app; cbn [length];
    split_and!; try (done || lia); intros Hc; specialize (Hc eq_refl); lia.
Qed.
Lemma start_geared erasure n : geared erasure n (start_pipe erasure n ds err s0).
Proof.
  assert (forall (A : Type) n, concat (replicate n (@nil A)) = []) as Hnil by (intros A k; by induction k).
  split; cbn [start_pipe p_workers p_sending p_erasing p_results p_queue p_src p_open er_enabled er_blocked er_running er_open er_queue length];
    rewrite ?Hnil, ?length_replicate; try done.
  all: try (by intros ->); try (cbn; lia). apply Forall_replicate. cbn. lia.
Qed.
Lemma start_unblocked erasure n : unblocked (start_pipe erasure n ds err s0).
Proof. done. Qed.
Lemma step_geared erasure n c p p' : pipe_ok p -> geared erasure n p -> fs_step alg F a c p = Some p' -> geared erasure n p' /\ (work_left p' < work_left p)%nat.
Proof.
  intros Hok [Gw Gs Gb Gon Goff Grun Gfl Gt]. pose proof (ok_closed _ Hok) as Hclosed. unfold fs_step. destruct (er_panic _); [done|].
  destruct p as [s src e idx open queue ws sd rs pend next st out er]. unfold work_left. destruct c; pipe_cbn.
  - destruct src as [|d src].
    + destruct open; [|done]. destruct e as [e|]; [destruct (_ <? _)%nat; [|done]|]; intros [= <-]; split; [split| |split|]; pipe_cbn; rewrite ?length_app; cbn [length] in *; (done || lia).
    + assert (open = true) as -> by (destruct open; [done|]; by destruct (Hclosed eq_refl)).
      destruct (_ <? _)%nat; [|done]. intros [= <-]. split; [split|]; pipe_cbn; rewrite ?length_app; cbn [length] in *; (done || lia).
  - destruct queue as [|[i d] queue]; [done|]. destruct (ws !! worker) as [b|] eqn:Eb; [|done]. destruct (sd !! worker) as [[|? ?]|]; try done.
    destruct (Nat.ltb_spec (length b) batchSize); [|done]. destruct (FromBytes alg d) as [m|]; [|done]. intros [= <-].
    pose proof (concat_insert ws worker b (b ++ [mkChunkResult i m d]) Eb) as Hc. rewrite length_app in Hc.
    destruct (queue_task_spec erasure (length ws) m d er Gon) as (Q1 & Q2 & Q3 & Q4 & Q5 & Q6 & Q7). cbn [length] in *.
    split; [split|]; pipe_cbn; rewrite ?length_insert, ?Q2, ?Q3; try (done || lia).
    + apply Forall_insert; [done|]. rewrite length_app. cbn [length]. lia.
    + intros Hoff. subst erasure. rewrite Hoff in Q5. rewrite Q5. by apply Goff.
    + destruct erasure; [lia|]. rewrite Q5. lia.
  - destruct (ws !! worker) as [b|] eqn:Eb; [|done]. destruct (sd !! worker) as [[|? ?]|] eqn:Es; try done.
    destruct (Nat.ltb_spec 0 (length b)); cbn [andb]; [|done].
    destruct (_ || _); [|done]. destruct (bs_PutBatch _ s) as [r s1]. cbv zeta. intros [= <-].
    set (sent := match r with Ok _ => _ | Err _ => _ end). assert (length sent = length b) as Hl by (destruct r; apply length_map).
    pose proof (concat_insert ws worker b [] Eb) as Hc. pose proof (concat_insert sd worker [] sent Es) as Hc'. cbn [length] in *.
    split; [split|]; pipe_cbn; rewrite ?length_insert; try (done || lia). apply Forall_insert; [done|]. cbn [length]. lia.
  - destruct (sd !! worker) as [[|x l]|] eqn:Es; try done. destruct (_ <? _)%nat; [|done]. intros [= <-].
    pose proof (concat_insert sd worker (x :: l) l Es) as Hc. cbn [length] in *.
    split; [split|]; pipe_cbn; rewrite ?length_insert, ?length_app; cbn [length]; (done || lia).
  - destruct out; [done|]. destruct rs as [|[res|e0] rs]; [done| |].
    + destruct (drain_results _ _ _ _ _ _ s) as [[[[? ?] ?]|] ?]; intros [= <-]; cbn [length] in *; (split; [split|]; pipe_cbn; (done || lia)).
    + intros [= <-]. cbn [length] in *. split; [split|]; pipe_cbn; (done || lia).
  - destruct out; [done|]. destruct (er_open er) eqn:Eo; [done|]. destruct rs; [|done].
    destruct (finalize alg F a st s) as [r s1]. intros [= <-]. split; [split|]; pipe_cbn; rewrite ?Eo; (done || lia).
  - destruct er as [enabled eopen tasks blocked running panicked]. destruct eopen; [|done]. cbn [andb].
    destruct (workers_done open queue ws sd); [|done]. intros [= <-].
    cbn [er_enabled er_open er_queue er_blocked er_running] in *. split; [split|]; pipe_cbn; cbn [er_enabled er_open er_queue er_blocked er_running]; (done || lia).
  - destruct er as [enabled eopen tasks blocked running panicked]. cbn [send_task]. destruct (blocked !! task) as [t|] eqn:Et; [|done].
    destruct (_ && _); [|done]. cbn. intros [= <-]. pose proof (length_delete blocked task ltac:(by eexists)) as Hdel. apply lookup_lt_Some in Et.
    cbn [er_enabled er_open er_queue er_blocked er_running] in *. rewrite ?length_app in *. cbn [length] in *.
    split; [split|]; pipe_cbn; cbn [er_enabled er_open er_queue er_blocked er_running]; rewrite ?length_app; cbn [length]; try (done || lia).
    intros Hoff. destruct (Goff Hoff) as [-> _]. cbn in Et. lia.
  - destruct er as [enabled eopen [|t tasks] blocked [|running] panicked]; cbn [encode_task mbind option_bind]; try done. intros [= <-]. cbn [er_enabled er_open er_queue er_blocked er_running length] in *.
    split; [split|]; pipe_cbn; cbn [er_enabled er_open er_queue er_blocked er_running]; (done || lia).
  - destruct er as [enabled [] [|t tasks] blocked [|running] panicked]; cbn [leave mbind option_bind]; try done. intros [= <-]. cbn [er_enabled er_open er_queue er_blocked er_running length] in *.
    split; [split|]; pipe_cbn; cbn [er_enabled er_open er_queue er_blocked er_running length]; try (done || lia). all: intros Hoff; by destruct (Goff Hoff).
Qed.
Lemma step_unblocked erasure n c p p' : geared erasure n p -> unblocked p ->
  (forall w, c = Take w -> erasure = true -> (length (er_queue (p_erasing p)) < cap_erasure n)%nat) ->
  fs_step alg F a c p = Some p' -> unblocked p'.
Proof.
  intros [Gw Gs Gb Gon Goff Grun Gfl Gt] [Hb Hpn] Htake. unfold fs_step. rewrite Hpn. unfold unblocked.
  destruct p as [s src e idx open queue ws sd rs pend next st out er]. destruct c; pipe_cbn.
  - destruct src as [|d src]; [destruct open; [|done]; destruct e as [e|]|]; try (destruct (_ <? _)%nat; [|done]); by intros [= <-].
  - destruct queue as [|[i d] queue]; [done|]. destruct (ws !! worker) as [b|] eqn:Eb; [|done]. destruct (sd !! worker) as [[|? ?]|]; try done.
    destruct (_ <? _)%nat; [|done]. destruct (FromBytes alg d) as [m|]; [|done]. intros [= <-]. cbn [p_erasing].
    destruct (queue_task_spec erasure (length ws) m d er Gon) as (_ & _ & _ & Q4 & _ & Q6 & _). rewrite Q4, Q6; [done|].
    intros He. rewrite Gw. by apply (Htake worker).
  - destruct (ws !! worker) as [b|]; [|done]. destruct (sd !! worker) as [[|? ?]|]; try done. destruct (_ && _); [|done].
    destruct (bs_PutBatch _ s) as [r s1]. cbv zeta. by intros [= <-].
  - destruct (sd !! worker) as [[|x l]|]; try done. destruct (_ <? _)%nat; [|done]. by intros [= <-].
  - destruct out; [done|]. destruct rs as [|[res|e0] rs]; [done| |]; [destruct (drain_results _ _ _ _ _ _ s) as [[[[? ?] ?]|] ?]|]; by intros [= <-].
  - destruct out; [done|]. destruct (er_open er); [done|]. destruct rs; [|done]. destruct (finalize alg F a st s). by intros [= <-].
  - destruct er as [enabled eopen tasks blocked running panicked]. destruct (_ && _); [|done]. intros [= <-]. cbn in *. by rewrite Hb.
  - destruct er as [enabled eopen tasks blocked running panicked]. cbn in *. by rewrite Hb.
  - destruct er as [enabled eopen [|t tasks] blocked [|running] panicked]; cbn in *; try done. by intros [= <-].
  - destruct er as [enabled [] [|t tasks] blocked [|running] panicked]; cbn in *; try done. by intros [= <-].
Qed.
Lemma nonempty_worker {A} (l : list (list A)) : forallb (λ b, bool_decide (length b = 0%nat)) l = false -> exists w x b, l !! w = Some (x :: b).
Proof.
  induction l as [|b l IH]; [done|]. cbn [forallb]. intros [E|E]%andb_false_iff.
  - apply bool_decide_eq_false in E. destruct b as [|x b]; [done|]. by exists 0%nat, x, b.
  - destruct (IH E) as (w & x & b' & ?). by exists (S w), x, b'.
Qed.
(** with room for results a goroutine of the pipeline can move until all is sent *)
Lemma moves erasure n p : pipe_ok p -> geared erasure n p -> unblocked p -> (0 < n)%nat ->
  (p_open p = true \/ concat (p_sending p) ≠ [] -> length (p_results p) < cap_results n)%nat ->
  (exists c p', fs_step alg F a c p = Some p') \/ workers_done (p_open p) (p_queue p) (p_workers p) (p_sending p) = true /\ er_open (p_erasing p) = false.
Proof.
  intros Hok [Gw Gs Gb _ _ _ _ _] [_ Hpn] Hn Hroom. unfold fs_step. rewrite Hpn. clear Hpn.
  destruct p as [s src e idx open queue ws sd rs pend next st out er]. pose proof (ok_queue _ Hok) as Hq. pipe_cbn. subst n.
  destruct (forallb (λ b, bool_decide (length b = 0%nat)) sd) eqn:Esd.
  2:{ left. destruct (nonempty_worker _ Esd) as (w & x & l & Hw). exists (Send w). pipe_cbn. rewrite Hw.
      assert (concat sd ≠ []) as Hne by (intros E; destruct (flight_new sd w _ Hw) as (rest & Hold & _); rewrite E in Hold; by apply Permutation_nil_l in Hold).
      destruct (Nat.ltb_spec (length rs) (cap_results (length ws))); [by eexists|]. specialize (Hroom (or_intror Hne)). lia. }
  assert (forall w, (w < length ws)%nat -> sd !! w = Some []) as Hsd.
  { intros w Hw. destruct (lookup_lt_is_Some_2 sd w ltac:(lia)) as [l Hl]. rewrite Hl. f_equal. rewrite forallb_forall in Esd.
    specialize (Esd l ltac:(apply list_elem_of_In; by eapply list_elem_of_lookup_2)). by apply bool_decide_eq_true, length_zero_iff_nil in Esd. }
  destruct queue as [|[i d] queue].
  - destruct src as [|d src].
    2:{ left. exists Produce. pipe_cbn. cbn [length]. destruct (Nat.ltb_spec 0 (cap_work (length ws))); [by eexists|unfold cap_work in *; lia]. }
    destruct open.
    { left. exists Produce. pipe_cbn. destruct e; [|by eexists]. destruct (Nat.ltb_spec (length rs) (cap_results (length ws))); [by eexists|].
      specialize (Hroom (or_introl eq_refl)). lia. }
    destruct (forallb (λ b, bool_decide (length b = 0%nat)) ws) eqn:Ews.
    + destruct er as [enabled eopen tasks blocked running panicked]. destruct eopen.
      * left. exists Close. pipe_cbn. unfold workers_done. rewrite Ews, Esd. by eexists.
      * right. split; [|done]. unfold workers_done. by rewrite Ews, Esd.
    + left. destruct (nonempty_worker _ Ews) as (w & x & b & Hw). exists (Flush w). pipe_cbn. rewrite Hw, (Hsd w) by by eapply lookup_lt_Some.
      cbn [length Nat.ltb Nat.leb negb]. rewrite bool_decide_eq_true_2, orb_true_r by done. cbn [andb]. destruct (bs_PutBatch _ s). by eexists.
  - left. destruct ws as [|b ws]; [simpl in Hn; lia|]. apply Forall_cons in Gb as [Hb _]. pose proof (Hsd 0%nat ltac:(simpl; lia)) as Hs0.
    destruct (decide (length b < batchSize)%nat) as [Hlt|Hge].
    + exists (Take 0). pipe_cbn. rewrite Hs0. cbn [lookup list_lookup]. destruct (Nat.ltb_spec (length b) batchSize); [|lia].
      destruct (FromBytesWithCodec_sum alg d CodecRaw Halg ltac:(done)) as (mh & _ & _ & Em). unfold FromBytes. rewrite Em. by eexists.
    + exists (Flush 0). pipe_cbn. rewrite Hs0. cbn [lookup list_lookup]. destruct (Nat.eqb_spec (length b) batchSize); [|lia].
      assert (0 < length b)%nat by (unfold batchSize in *; lia). destruct (Nat.ltb_spec 0 (length b)); [|lia].
      cbn [andb orb]. destruct (bs_PutBatch _ s). by eexists.
Qed.
(** while the consumer runs, and afterwards when nothing it has left is waited for, or all of it fits into the channel *)
Lemma step_exists erasure n p : pipe_ok p -> geared erasure n p -> unblocked p -> (0 < n)%nat ->
  p_out p = None \/ erasure = false \/ (length ds < cap_results n)%nat -> returned p = None -> exists c p', fs_step alg F a c p = Some p'.
Proof.
  intros Hok G C Hn Hcase Hret. destruct (p_out p) as [out|] eqn:Eo.
  - destruct Hcase as [?|Hcase]; [done|]. unfold returned in Hret. rewrite Eo in Hret. destruct out as [|e0]; [done|]. destruct C as [Hb Hpn].
    rewrite Hb, bool_decide_eq_true_2, andb_true_r in Hret by done. destruct (Nat.eqb_spec (er_running (p_erasing p)) 0) as [|Hrun]; [done|].
    destruct Hcase as [->|Hsmall]; [by destruct (ge_off _ _ _ G eq_refl)|].
    destruct (moves erasure n p Hok G (conj Hb Hpn) Hn) as [?|[Hd Hc]]; [|done|].
    { pose proof (ge_flight _ _ _ G) as Hfl. intros [Ho|Hs]; [rewrite Ho in Hfl; lia|].
      destruct (concat (p_sending p)) as [|x l]; [done|]. cbn [length] in Hfl. lia. }
    destruct p as [s src e idx open queue ws sd rs pend next st out' [enabled eopen [|t tasks] blocked [|running] panicked]]; cbn in *; subst; try done.
    + exists Leave. by eexists.
    + exists Encode. by eexists.
  - destruct (p_results p) as [|r rs] eqn:Er.
    + destruct (moves erasure n p Hok G C Hn) as [?|[Hd Hc]]; [|done|].
      { rewrite Er. cbn [length]. unfold cap_results. lia. }
      exists Finish. destruct C as [_ Hpn]. unfold fs_step. rewrite Hpn. destruct p as [s src e idx open queue ws sd rs pend next st out er]. pipe_cbn. subst. rewrite Hc.
      destruct (finalize alg F a st s). by eexists.
    + exists Consume. destruct C as [_ Hpn]. unfold fs_step. rewrite Hpn. destruct p as [s src e idx open queue ws sd rs' pend next st out er]. pipe_cbn. subst.
      destruct r as [res|e0]; [|by eexists]. destruct (drain_results _ _ _ _ _ _ s) as [[[[? ?] ?]|] ?]; by eexists.
Qed.
Lemma reachable_geared others erasure n p : (forall s s', inv s -> others s s' -> grows alg inv s s') -> inv s0 ->
  rtc (add_step alg F a others) (start_pipe erasure n ds err s0) p -> geared erasure n p.
Proof.
  intros Hoth Hs Hr. pose proof (start_geared erasure n) as Hg. pose proof (start_ok erasure n Hs) as Hp. revert Hg Hp.
  induction Hr as [|p1 p2 p3 Hstep _ IH]; intros Hg Hp; [done|]. apply IH; [|by eapply add_step_ok].
  destruct Hstep as [c q1 q2 Hc|]; [by eapply step_geared|]. destruct Hg. by split.
Qed.
Lemma reachable_unblocked others erasure n p : (forall s s', inv s -> others s s' -> grows alg inv s s') -> inv s0 ->
  erasure = false \/ (length ds ≤ cap_erasure n)%nat ->
  rtc (add_step alg F a others) (start_pipe erasure n ds err s0) p -> unblocked p.
Proof.
  intros Hoth Hs Hsmall Hr. pose proof (start_geared erasure n) as Hg. pose proof (start_ok erasure n Hs) as Hp. pose proof (start_unblocked erasure n) as Hc. revert Hg Hp Hc.
  induction Hr as [|p1 p2 p3 Hstep _ IH]; intros Hg Hp Hc; [done|]. apply IH; [|by eapply add_step_ok|].
  - destruct Hstep as [c q1 q2 E|]; [by eapply step_geared|]. destruct Hg. by split.
  - destruct Hstep as [c q1 q2 E|]; [|done]. apply (step_unblocked erasure n c q1 q2 Hg Hc); [|done]. intros w -> He.
    destruct Hsmall as [->|Hsmall]; [done|]. pose proof (ge_tasks _ _ _ Hg) as Ht. unfold fs_step in E. destruct (er_panic _); [done|].
    destruct q1 as [s src e idx open queue ws sd rs pend next st out er]. pipe_cbn. destruct queue as [|[i d] queue]; [done|]. cbn [length] in Ht. lia.
Qed.
End facts.

(** ** Running the pipeline under a scheduler *)
Section scheduler.
Context `{Multiformats, Protos, ObjectJSON} (alg : Z) (F : nat) {St : Type} `{Blockstore St, BatchStore St, MetaStore St}.
Context (a : FileArgs).
(** [pick] chooses the next step; the fuel bounds the steps.  Where no step is possible [AddFile] does not return, or the process
    is down: [OutOfFuel] *)
Fixpoint run_pick (pick : pipe St -> choice) (fuel : nat) (p : pipe St) : result AddResult * St :=
  match fuel, returned p with
  | _, Some r => (r, p_store p)
  | O, None => (Err OutOfFuel, p_store p)
  | S fuel, None =>
      match fs_step alg F a (pick p) p with
      | Some p => run_pick pick fuel p
      | None => (Err OutOfFuel, p_store p)
      end
  end.
Definition AddFile_with (pick : pipe St -> choice) (erasure : bool) (workers : nat) (ds : list bytes) (err : option error) : M St AddResult := λ s,
  let p := start_pipe erasure workers ds err s in run_pick pick (S (work_left p)) p.
(** a scheduler that never waits while some goroutine can run, and under which the workers of erasure coding keep up: no
    chunk is taken while their channel is full *)
Record busy (pick : pipe St -> choice) : Prop := {
  busy_on p c p' : fs_step alg F a c p = Some p' -> is_Some (fs_step alg F a (pick p) p);
  busy_room p w p' : pick p = Take w -> fs_step alg F a (pick p) p = Some p' -> (0 < er_running (p_erasing p))%nat ->
    (length (er_queue (p_erasing p)) < cap_erasure (length (p_workers p)))%nat;
}.
(** the first choice that is enabled *)
Definition greedy (p : pipe St) : choice :=
  let all := Encode :: Produce :: Finish :: Consume :: Close :: Leave :: (Send <$> seq 0 (length (p_sending p))) ++
             (SendTask <$> seq 0 (length (er_blocked (p_erasing p)))) ++
             (Take <$> seq 0 (length (p_workers p))) ++ (Flush <$> seq 0 (length (p_workers p))) in
  match list_find (λ c, is_Some (fs_step alg F a c p)) all with
  | Some (_, c) => c
  | None => Finish
  end.
End scheduler.

Section scheduler_facts.
Context `{Multiformats} `{!MultiformatsLaws} `{Protos} `{!ProtosLaws} `{ObjectJSON}.
Context (alg : Z) (Halg : isSupportedHash alg = true) (F : nat) (HF : (1 < F)%nat).
Context {St : Type} `{Blockstore St} `{BatchStore St} `{MetaStore St} (inv : St -> Prop) `{!FileStoreLaws St alg inv}.
Context (a : FileArgs) (Ha : Forall is_ascii (fa_mime a)).
Implicit Types (p : pipe St) (pick : pipe St -> choice).

Lemma run_pick_spec pick erasure ds err s0 n fuel p :
  Forall (λ d, 0 < zlen d) ds -> zlen (concat ds) < 2 ^ 63 -> busy alg F a pick -> (0 < n)%nat ->
  pipe_ok alg F inv a ds err s0 p -> geared ds erasure n p -> unblocked p -> (work_left p < fuel)%nat ->
  exists r p', run_pick alg F a pick fuel p = (r, p_store p') /\ pipe_ok alg F inv a ds err s0 p' /\
    (p_out p' = Some r \/ (exists e, r = Err e) /\ exists e, p_out p' = Some (Err e)).
Proof.
  intros Hpos Hlen Hb Hn. revert p. induction fuel as [|fuel IH]; intros p Hp Hg Hc Hf; [lia|]. cbn [run_pick].
  destruct (returned p) as [r|] eqn:Eo.
  { exists r, p. split_and!; [done|done|]. left. unfold returned in Eo. destruct (p_out p) as [[|]|]; try done. by destruct (_ && _). }
  destruct (fs_step alg F a (pick p) p) as [p2|] eqn:E2.
  - destruct (step_geared alg F HF inv a ds err s0 erasure n (pick p) p p2 Hp Hg E2) as [Hg2 Hdec]. apply IH.
    + by eapply fs_step_ok.
    + done.
    + apply (step_unblocked alg F HF a ds erasure n (pick p) p p2 Hg Hc); [|done]. intros w Hw He. rewrite <-(ge_workers _ _ _ _ Hg).
      apply (busy_room _ _ _ _ Hb p w p2 Hw E2). destruct (er_open (p_erasing p)) eqn:Eop.
      * rewrite (ge_running _ _ _ _ Hg Eop), He. lia.
      * exfalso. pose proof (ok_done _ _ _ _ _ _ _ _ Hp Eop) as Hd. rewrite Hw in E2. unfold fs_step in E2. destruct (er_panic _); [done|].
        destruct p as [s src e idx open queue ws sd rs pend next st out er]. pipe_cbn. destruct queue as [|[i d] queue]; [done|].
        apply (not_done ((i, d) :: queue) ws sd 0 [] (Err (New "")) [] open Hd). right. by left.
    + lia.
  - exists (Err OutOfFuel), p. split_and!; [done|done|]. right. split; [by eexists|].
    assert (forall c p', fs_step alg F a c p = Some p' -> False) as Hstuck.
    { intros c p' E. destruct (busy_on _ _ _ _ Hb p c p' E) as [? ?]. congruence. }
    destruct (p_out p) as [[res|e]|] eqn:Eout; [|by exists e|]; exfalso.
    + unfold returned in Eo. by rewrite Eout in Eo.
    + destruct (step_exists alg Halg F HF inv a ds err s0 erasure n p Hp Hg Hc Hn (or_introl Eout) Eo) as (c & p' & E). by apply (Hstuck c p').
Qed.
(** under a busy scheduler [AddFile] returns, with the file stored or a failure to blame *)
Lemma AddFile_with_spec pick erasure n ds err s : Forall (λ d, 0 < zlen d) ds -> zlen (concat ds) < 2 ^ 63 ->
  busy alg F a pick -> (0 < n)%nat -> inv s ->
  exists r s', AddFile_with alg F a pick erasure n ds err s = (r, s') /\ grows alg inv s s' /\
    ((exists res, r = Ok res /\ err = None /\ file_of alg F a ds = Ok res /\ file_result alg s' res ds) \/
     (exists e, r = Err e) /\ (StoreFails alg inv \/ err ≠ None)).
Proof.
  intros Hpos Hlen Hb Hn Hs.
  assert (pipe_ok alg F inv a ds err s (start_pipe erasure n ds err s)) as Hp by by apply start_ok.
  destruct (run_pick_spec pick erasure ds err s n (S (work_left (start_pipe erasure n ds err s))) _ Hpos Hlen Hb Hn Hp ltac:(by eapply start_geared) ltac:(by eapply start_unblocked) (le_n _))
    as (r & p' & E & Hp' & Ho).
  exists r, (p_store p'). split; [exact E|]. split; [apply Hp'|]. destruct Ho as [Ho|[[e ->] [e' Ho]]]; pose proof (ok_out _ _ _ _ _ _ _ _ Hp' _ Ho) as Hr.
  - destruct r as [res|e]; [left; exists res|right; split; [by eexists|exact Hr]]. destruct Hr as (? & ? & ?). done.
  - right. split; [by eexists|exact Hr].
Qed.

Lemma greedy_busy : busy alg F a (greedy alg F a).
Proof.
  split.
  - intros p c p' E. unfold greedy.
    set (all := Encode :: _). destruct (list_find _ all) as [[i c']|] eqn:Ef.
    { by apply list_find_Some in Ef as (_ & ? & _). }
    exfalso. apply list_find_None in Ef. rewrite Forall_forall in Ef. apply (Ef c); [|by eexists].
    unfold fs_step in E. destruct (er_panic _); [done|]. clear Ef.
    assert (forall A (f : nat -> A) (i k : nat), (i < k)%nat -> f i ∈ f <$> seq 0 k) as Hin by (intros A f i k Hi; apply list_elem_of_fmap_2, elem_of_seq; lia).
    destruct p as [s src e idx open queue ws sd rs pend next st out er]. subst all.
    destruct c as [|w|w|w| | | |i| |]; cbn [p_workers p_sending p_erasing]; rewrite ?elem_of_cons, ?elem_of_app; try tauto; pipe_cbn.
    + assert (Take w ∈ Take <$> seq 0 (length ws)); [|tauto]. apply Hin. destruct queue as [|[]]; [done|].
      destruct (ws !! w) eqn:Ew; [|done]. by apply lookup_lt_Some in Ew.
    + assert (Flush w ∈ Flush <$> seq 0 (length ws)); [|tauto]. apply Hin. destruct (ws !! w) eqn:Ew; [|done]. by apply lookup_lt_Some in Ew.
    + assert (Send w ∈ Send <$> seq 0 (length sd)); [|tauto]. apply Hin. destruct (sd !! w) eqn:Ew; [|done]. by apply lookup_lt_Some in Ew.
    + assert (SendTask i ∈ SendTask <$> seq 0 (length (er_blocked er))); [|tauto]. apply Hin. destruct er as [enabled eopen tasks blocked running panicked]. cbn in *.
      destruct (blocked !! i) eqn:Ew; [|done]. by apply lookup_lt_Some in Ew.
  - intros p w p' Hp E Hrun. rewrite Hp in E.
    assert (er_queue (p_erasing p) = []) as ->.
    { destruct (er_queue (p_erasing p)) as [|t tasks] eqn:Eq; [done|]. exfalso. revert Hp. unfold greedy. set (all := Encode :: _).
      assert (is_Some (fs_step alg F a Encode p)) as He.
      { unfold fs_step in *. destruct (er_panic _); [done|]. destruct p as [s src e idx open queue ws sd rs pend next st out [enabled eopen tasks' blocked [|running] panicked]];
          cbn in *; subst; [lia|]. by eexists. }
      unfold all. cbn [list_find]. by rewrite decide_True. }
    cbn [length]. unfold fs_step in E. destruct (er_panic _); [done|]. destruct p as [s src e idx open queue ws sd rs pend next st out er]. pipe_cbn.
    destruct queue as [|[]]; [done|]. destruct (ws !! w) eqn:Ew; [|done]. apply lookup_lt_Some in Ew. unfold cap_erasure. lia.
Qed.
End scheduler_facts.

(** ** Properties *)
Section properties.
Context `{Multiformats} `{!MultiformatsLaws} `{Protos} `{!ProtosLaws} `{ObjectJSON}.
Context (alg : Z) (Halg : isSupportedHash alg = true) (F : nat) (HF : (1 < F)%nat).
Context {St : Type} `{Blockstore St} `{BatchStore St} `{MetaStore St} (inv : St -> Prop) `{!FileStoreLaws St alg inv}.

(** C20: whatever the interleaving of producer, workers, consumer and other writers of the
    store, a successful [AddFile] returns the result the chunks determine (the chunks pushed
    in order, no store involved), the read ended in EOF, and the store holds the complete file
    tree over the content; it fails only when reading, the store or JSON does.  In every
    case the store has only grown. *)
Theorem AddFile_correct a ds err s0 others erasure workers p r :
  Forall is_ascii (fa_mime a) -> Forall (λ d, 0 < zlen d) ds -> zlen (concat ds) < 2 ^ 63 ->
  inv s0 -> (forall s s', inv s -> others s s' -> grows alg inv s s') ->
  rtc (add_step alg F a others) (start_pipe erasure workers ds err s0) p -> p_out p = Some r ->
  grows alg inv s0 (p_store p) /\
  match r with
  | Ok res => err = None /\ file_of alg F a ds = Ok res /\ file_result alg (p_store p) res ds
  | Err _ => StoreFails alg inv \/ err ≠ None
  end.
Proof.
  intros Ha Hpos Hlen Hs Hoth Hr Hout.
  pose proof (reachable_ok alg Halg F HF inv a Ha ds Hpos Hlen err s0 others erasure workers p Hoth Hs Hr) as Hp.
  split; [apply Hp|]. exact (ok_out _ _ _ _ _ _ _ _ Hp r Hout).
Qed.

(** C21: [AddFile] ends: when erasure coding is off, or the file has fewer chunks than the channel of results holds
    (sixteen per worker), then until it has returned some goroutine can always take a step, no goroutine panics,
    and every step of a goroutine uses up part of a finite amount of work, whatever the other writers do in
    between.  For longer files with erasure coding it need not end ([failure_hangs], [overflow_panics]). *)
Theorem AddFile_terminates a ds err s0 others erasure workers p :
  Forall is_ascii (fa_mime a) -> Forall (λ d, 0 < zlen d) ds -> zlen (concat ds) < 2 ^ 63 ->
  inv s0 -> (forall s s', inv s -> others s s' -> grows alg inv s s') -> (0 < workers)%nat ->
  erasure = false \/ (length ds < cap_results workers)%nat ->
  rtc (add_step alg F a others) (start_pipe erasure workers ds err s0) p ->
  (returned p = None -> exists c p', fs_step alg F a c p = Some p') /\
  (forall c p', fs_step alg F a c p = Some p' -> (work_left p' < work_left p)%nat) /\
  (forall p', add_step alg F a others p p' -> (work_left p' ≤ work_left p)%nat) /\
  er_panic (p_erasing p) = false.
Proof.
  intros Ha Hpos Hlen Hs Hoth Hw Hcase Hr.
  pose proof (reachable_ok alg Halg F HF inv a Ha ds Hpos Hlen err s0 others erasure workers p Hoth Hs Hr) as Hp.
  pose proof (reachable_geared alg Halg F HF inv a Ha ds Hpos Hlen err s0 others erasure workers p Hoth Hs Hr) as Hg.
  assert (unblocked p) as Hc.
  { apply (reachable_unblocked alg Halg F HF inv a Ha ds Hpos Hlen err s0 others erasure workers p Hoth Hs); [|done].
    destruct Hcase as [?|Hl]; [by left|right]. unfold cap_results, cap_erasure in *. lia. }
  assert (forall c p', fs_step alg F a c p = Some p' -> (work_left p' < work_left p)%nat) as Hdec.
  { intros c p' E. by destruct (step_geared alg F HF inv a ds err s0 erasure workers c p p' Hp Hg E). }
  split_and!; [|done| |apply Hc].
  - intros Hret. apply (step_exists alg Halg F HF inv a ds err s0 erasure workers p Hp Hg Hc Hw); [by right|done].
  - intros p' Hstep. inversion Hstep as [c p1 p2 E|]; subst; [apply Nat.lt_le_incl; by eapply Hdec|done].
Qed.
End properties.

(** ** Witnesses: three chunks, fanout two, two workers; the second chunk is stored first *)
Section demo.
#[local] Instance demo_blocks : Blockstore Memstore := mem_blockstore BLAKE3.
#[local] Instance demo_batch : BatchStore Memstore := mem_PutBatch BLAKE3.
Definition demo_args : FileArgs := mkFileArgs (lit "a.txt") 420 0 (lit "text/plain") 262144.
Definition demo_chunks : list bytes := lit <$> ["hel"; "lo "; "you"]%string.
Definition demo_schedule : list choice :=
  [Produce; Produce; Take 0; Take 1; Produce; Produce; Take 0; Flush 1; Send 1; Consume; Flush 0; Send 0; Send 0; Close; Consume; Consume; Finish].
Definition demo_start : pipe Memstore := start_pipe false 2 demo_chunks None NewMemstore.
Definition demo_end : pipe Memstore := default demo_start (run BLAKE3 2 demo_args demo_schedule demo_start).

Lemma run_steps cs (p p' : pipe Memstore) : run BLAKE3 2 demo_args cs p = Some p' ->
  rtc (add_step BLAKE3 2 demo_args (λ _ _, False)) p p'.
Proof.
  assert (forall cs, foldl (λ o c, o ≫= fs_step BLAKE3 2 demo_args c) None cs = None) as Hnone.
  { intros cs'. induction cs' as [|c cs' IH]; [done|exact IH]. }
  unfold run. revert p. induction cs as [|c cs IH]; intros p; cbn [foldl]; [by intros [= ->]|]. cbn [mbind option_bind].
  destruct (fs_step BLAKE3 2 demo_args c p) as [p1|] eqn:E; [|by rewrite Hnone].
  intros Hr. eapply rtc_l; [by apply step_own with c|]. by apply IH.
Qed.
Lemma demo_reachable : rtc (add_step BLAKE3 2 demo_args (λ _ _, False)) demo_start demo_end.
Proof.
  apply (run_steps demo_schedule). unfold demo_end.
  assert (bool_decide (is_Some (p_out <$> run BLAKE3 2 demo_args demo_schedule demo_start)) = true) as E by (vm_compute; reflexivity).
  destruct (run BLAKE3 2 demo_args demo_schedule demo_start); [done|]. by apply bool_decide_eq_true in E as [? ?].
Qed.
Lemma demo_ok : pipe_ok BLAKE3 2 (mem_ok BLAKE3) demo_args demo_chunks None NewMemstore demo_end.
Proof.
  apply (reachable_ok (St := Memstore) BLAKE3 eq_refl 2 ltac:(lia) (mem_ok BLAKE3)
    (FileStoreLaws0 := mem_file_laws BLAKE3 eq_refl)) with (others := λ _ _, False) (erasure := false) (n := 2%nat).
  - repeat constructor; vm_compute; reflexivity.
  - repeat constructor; vm_compute; reflexivity.
  - vm_compute. reflexivity.
  - intros s s' _ [].
  - apply mem_ok_New.
  - exact demo_reachable.
Qed.

Lemma AddFile_correct_witness : exists res, p_out demo_end = Some (Ok res) /\
  file_of BLAKE3 2 demo_args demo_chunks = Ok res /\ ar_Size res = 9.
Proof.
  assert (exists res, p_out demo_end = Some (Ok res)) as [res E] by (vm_compute; eexists; reflexivity).
  exists res. split; [exact E|].
  destruct (AddFile_correct (St := Memstore) BLAKE3 eq_refl 2 ltac:(lia) (mem_ok BLAKE3)
    (FileStoreLaws0 := mem_file_laws BLAKE3 eq_refl) demo_args demo_chunks None NewMemstore (λ _ _, False) false 2 demo_end (Ok res))
    as [_ (_ & Hf & _ & Hsz & _)].
  - repeat constructor; vm_compute; reflexivity.
  - repeat constructor; vm_compute; reflexivity.
  - vm_compute. reflexivity.
  - apply mem_ok_New.
  - intros s s' _ [].
  - exact demo_reachable.
  - exact E.
  - split; [exact Hf|]. rewrite Hsz. vm_compute. reflexivity.
Defined.
Lemma AddFile_terminates_witness : exists c p', fs_step BLAKE3 2 demo_args c demo_start = Some p' /\ (work_left p' < work_left demo_start)%nat.
Proof.
  destruct (AddFile_terminates (St := Memstore) BLAKE3 eq_refl 2 ltac:(lia) (mem_ok BLAKE3)
    (FileStoreLaws0 := mem_file_laws BLAKE3 eq_refl) demo_args demo_chunks None NewMemstore (λ _ _, False) false 2 demo_start)
    as (Hex & Hdec & _).
  - repeat constructor; vm_compute; reflexivity.
  - repeat constructor; vm_compute; reflexivity.
  - vm_compute. reflexivity.
  - apply mem_ok_New.
  - intros s s' _ [].
  - lia.
  - by left.
  - apply rtc_refl.
  - destruct (Hex eq_refl) as (c & p' & E). exists c, p'. split; [exact E|]. exact (Hdec c p' E).
Defined.

(** runs under a fixed order of preference *)
Fixpoint drive `{BatchStore Memstore} (order : list choice) (fuel : nat) (p : pipe Memstore) : pipe Memstore :=
  match fuel with
  | O => p
  | S fuel =>
      match list_find (λ c, is_Some (fs_step BLAKE3 174 demo_args c p)) order with
      | Some (_, c) => match fs_step BLAKE3 174 demo_args c p with Some p => drive order fuel p | None => p end
      | None => p
      end
  end.
Lemma drive_reachable `{BatchStore Memstore} order fuel p : rtc (add_step BLAKE3 174 demo_args (λ _ _, False)) p (drive order fuel p).
Proof.
  revert p. induction fuel as [|fuel IH]; intros p; [done|]. cbn [drive]. destruct (list_find _ order) as [[i c]|]; [|done].
  destruct (fs_step BLAKE3 174 demo_args c p) as [p'|] eqn:E; [|done]. eapply rtc_l; [by apply step_own with c|apply IH].
Qed.
Definition bytes_each (n : nat) : list bytes := (λ i, [z2b (Z.of_nat i)]) <$> seq 0 n.
(** the store is full when the first batch comes: the consumer waits for the erasure workers, these for the end of the
    worker, and the worker for room in the channel of results *)
Definition full_store : BatchStore Memstore := λ _ s, (Err (New "disk full"), s).
Definition hung : pipe Memstore := drive (H := full_store) [Produce; Take 0; Flush 0; Send 0; Encode; Consume] 300 (start_pipe true 1 (bytes_each 40) None NewMemstore).
Lemma failure_hangs : rtc (add_step (H3 := full_store) BLAKE3 174 demo_args (λ _ _, False)) (start_pipe true 1 (bytes_each 40) None NewMemstore) hung /\
  returned hung = None /\ forall c, fs_step (H3 := full_store) BLAKE3 174 demo_args c hung = None.
Proof.
  split; [apply (drive_reachable (H := full_store))|]. split; [vm_compute; reflexivity|].
  intros c. destruct c as [|[|w]|[|w]|[|w]| | | |i| |]; vm_compute; reflexivity.
Qed.
(** 66 chunks and erasure workers that are slower than the rest: two goroutines wait to send when the channel is closed *)
Definition overflowed : pipe Memstore := drive [Produce; Take 0; Flush 0; Send 0; Consume; Close; Finish] 600 (start_pipe true 1 (bytes_each 66) None NewMemstore).
Lemma overflow_panics : rtc (add_step BLAKE3 174 demo_args (λ _ _, False)) (start_pipe true 1 (bytes_each 66) None NewMemstore) overflowed /\
  er_panic (p_erasing overflowed) = true /\ returned overflowed = None.
Proof. split; [apply drive_reachable|]. vm_compute. split; reflexivity. Qed.
End demo.
