(* ===== verification/MemRead.v ===== *)
(** * Reading the file system (src/core/memfs: reader.go, resolver.go, stat.go, walk.go)

    [Resolve], [ResolvePath], [Open], [Stat] and [Walk] fetch nodes from the block store;
    [reader] is the seekable reader of a file.  [reader_refines]: it behaves as a position
    in the content.  [AddFile_Open_roundtrip]: what was added is read back. *)
From S2P Require Import Prelude Mid GoIO Wire Blockstore Objects Memstore Db MemNode MemFile FileStores AddFile.

(** ** The resolver *)
Section resolver.
Context `{Multiformats, Protos} (get : MID -> result bytes).

Definition Resolve (m : MID) : result MemFSNode :=
  if IsZero m then Err (New "memfs: zero MID") else
  raw ← wrap "memfs: get" (get m);
  ParseNode raw.

(** the segments between slashes, without the empty ones; [seg] is the one being read *)
Fixpoint split_from (seg p : bytes) : list bytes :=
  match p with
  | [] => if bool_decide (seg = []) then [] else [seg]
  | b :: p =>
      if bool_decide (b = Byte.x2f)
      then (if bool_decide (seg = []) then [] else [seg]) ++ split_from [] p
      else split_from (seg ++ [b]) p
  end.
Definition splitPath (p : bytes) : list bytes := split_from [] p.

Definition find_entry (name : bytes) (entries : list FSEntry) : option FSEntry :=
  snd <$> list_find (λ e, fe_Name e = name) entries.
Fixpoint resolve_segs (current : MemFSNode) (segs : list bytes) : result MemFSNode :=
  match segs with
  | [] => Ok current
  | seg :: segs =>
      if negb (IsDir current) then Err (New "memfs: not a directory") else
      match find_entry seg (EntriesValue current) with
      | None => Err (New "memfs: no such entry")
      | Some found =>
          current ← wrap "memfs: resolve" (Resolve (fe_Mid found));
          resolve_segs current segs
      end
  end.
Definition ResolvePath (root : MID) (path : bytes) : result MemFSNode :=
  if bool_decide (path = []) then Resolve root else
  current ← Resolve root;
  resolve_segs current (splitPath path).

(** ** Stat and Walk *)
Record Stat_t := mkStat {
  st_MID : MID;
  st_Type : MemFSType;
  st_Size : Z;
  st_BlockCount : Z;
  st_Mode : Z;
  st_MTime : Z;
  st_MimeType : bytes;
  st_Entries : list FSEntry;
  st_Target : bytes;
}.
Definition Stat (m : MID) : result Stat_t :=
  node ← Resolve m;
  Ok (mkStat m (mn_Type node) (TotalSize node) (BlockCount node) (Mode node) (MTime node) (MimeType node)
        (if IsDir node then EntriesSorted node else []) (SymlinkTarget node)).
Definition MustStat (m : MID) : result Stat_t :=
  match Stat m with Ok st => Ok st | Err _ => Err (panic "memfs: MustStat") end.

(** the callback [fn] sees the path, the node and the error, and threads a state *)
Context {T : Type} (fn : bytes -> option MemFSNode -> option error -> M T unit).
Fixpoint walk (fuel : nat) (m : MID) (path : bytes) : M T unit :=
  match fuel with
  | O => throw OutOfFuel
  | S fuel =>
      match Resolve m with
      | Err e => fn path None (Some e)
      | Ok node =>
          _ ← fn path (Some node) None;
          if negb (IsDir node) then mret tt else
          for_each (λ e, walk fuel (fe_Mid e)
                           (if bool_decide (path = []) then fe_Name e else path ++ [Byte.x2f] ++ fe_Name e))
                   (EntriesValue node)
      end
  end.
Definition Walk (fuel : nat) (root : MID) : M T unit := walk fuel root [].
End resolver.

(** ** The reader *)
Record reader := mkReader {
  rd_file : MemFSNode;
  rd_blocks : list MID;
  rd_pos : Z;
  rd_cur : nat;
  rd_buf : option bytes;
  rd_bufUsed : nat;
}.

Section reader.
Context `{Multiformats, Protos} (get : MID -> result bytes).

(** the loop over the blocks of one node; [inner] flattens a child node *)
Fixpoint flat_blocks (inner : MemFSNode -> result (list MID)) (bs : list FSBlock) : result (list MID) :=
  match bs with
  | [] => Ok []
  | b :: bs =>
      here ←
        (if 0 <? fb_Size b then Ok [fb_Mid b] else
         raw ← wrap "memfs: get child" (get (fb_Mid b));
         match unmarshal (A := MemFSNode) raw with
         | Ok child => if IsFile child && (0 <? zlen (mn_Blocks child)) then inner child else Ok [fb_Mid b]
         | Err _ => Ok [fb_Mid b]
         end);
      out ← flat_blocks inner bs;
      Ok (here ++ out)
  end.
Fixpoint flattenFileBlocks (fuel : nat) (n : MemFSNode) : result (list MID) :=
  match fuel with
  | O => Err OutOfFuel
  | S fuel =>
      if negb (IsFile n) then Err (New "memfs: not a file") else
      flat_blocks (flattenFileBlocks fuel) (BlocksValue n)
  end.
Definition newReader (fuel : nat) (file : MemFSNode) : result reader :=
  flat ← flattenFileBlocks fuel file;
  Ok (mkReader file flat 0 0 None 0).
Definition Open (fuel : nat) (m : MID) : result reader :=
  node ← Resolve get m;
  if negb (IsFile node) then Err (New "memfs: not a file") else newReader fuel node.

(** [Read(p)] with [len(p) = k] *)
Definition rd_Read (k : nat) (r : reader) : result bytes * reader :=
  if i64 (mn_FileSize (rd_file r)) <=? rd_pos r then (Err EOF, r) else
  match rd_blocks r !! rd_cur r with
  | None => (Err EOF, r)
  | Some m =>
      match (match rd_buf r with Some b => Ok (b, rd_bufUsed r) | None => b ← wrap "memfs: read block" (get m); Ok (b, 0%nat) end) with
      | Err e => (Err e, r)
      | Ok (buf, used) =>
          let p := take k (drop used buf) in
          let used := (used + length p)%nat in
          let pos := i64 (rd_pos r + zlen p) in
          (Ok p, if (length buf <=? used)%nat
                 then mkReader (rd_file r) (rd_blocks r) pos (S (rd_cur r)) None 0
                 else mkReader (rd_file r) (rd_blocks r) pos (rd_cur r) (Some buf) used)
      end
  end.

(** the block that holds [target], and the bytes before it *)
Fixpoint find_block (target sum : Z) (i : nat) (blocks : list MID) : result (option (nat * Z)) :=
  match blocks with
  | [] => Ok None
  | bm :: blocks =>
      raw ← wrap "memfs: get size for block" (get bm);
      if target <? i64 (sum + zlen raw) then Ok (Some (i, sum))
      else find_block target (i64 (sum + zlen raw)) (S i) blocks
  end.
Definition rd_Seek (offset whence : Z) (r : reader) : result Z * reader :=
  let size := i64 (mn_FileSize (rd_file r)) in
  match (if whence =? 0 then Some offset else if whence =? 1 then Some (i64 (rd_pos r + offset))
         else if whence =? 2 then Some (i64 (size + offset)) else None) with
  | None => (Err (New "memfs: invalid whence"), r)
  | Some target =>
      if target <? 0 then (Err (New "memfs: negative seek"), r) else
      if target =? rd_pos r then (Ok (rd_pos r), r) else
      match find_block target 0 0 (rd_blocks r) with
      | Err e => (Err e, r)
      | Ok None => (Ok size, mkReader (rd_file r) (rd_blocks r) size (length (rd_blocks r)) None 0)
      | Ok (Some (newCur, sum)) =>
          match rd_blocks r !! newCur with
          | None => (Err (panic "index out of range"), r)
          | Some m =>
              match wrap "memfs: refetch block" (get m) with
              | Err e => (Err e, mkReader (rd_file r) (rd_blocks r) (rd_pos r) newCur (rd_buf r) (rd_bufUsed r))
              | Ok raw => (Ok target, mkReader (rd_file r) (rd_blocks r) target newCur (Some raw) (Z.to_nat (i64 (target - sum))))
              end
          end
      end
  end.
Definition rd_Close (r : reader) : reader := mkReader (rd_file r) (rd_blocks r) (rd_pos r) (rd_cur r) None 0.

(** a client that reads to the end with a buffer of [k] bytes *)
Fixpoint read_all (fuel k : nat) (r : reader) : bytes * error :=
  match fuel with
  | O => ([], OutOfFuel)
  | S fuel =>
      match rd_Read k r with
      | (Err e, _) => ([], e)
      | (Ok p, r) => let '(out, e) := read_all fuel k r in (p ++ out, e)
      end
  end.
End reader.

(** ** The reader as a position in the content *)
Section refine.
Context (get : MID -> result bytes).
Implicit Types (r : reader) (c : bytes).

Record reads_as r c : Prop := {
  ra_size : i64 (mn_FileSize (rd_file r)) = zlen c;
  ra_small : zlen c < 2 ^ 63;
  ra_pieces : exists pieces, Forall2 (λ m d, get m = Ok d) (rd_blocks r) pieces /\
    Forall (λ d, 0 < zlen d) pieces /\ concat pieces = c /\
    match rd_buf r with
    | None => rd_bufUsed r = 0%nat /\ (rd_cur r ≤ length pieces)%nat /\ rd_pos r = zlen (concat (take (rd_cur r) pieces))
    | Some b => pieces !! rd_cur r = Some b /\ (rd_bufUsed r < length b)%nat /\
        rd_pos r = zlen (concat (take (rd_cur r) pieces)) + Z.of_nat (rd_bufUsed r)
    end;
}.

Lemma piece_at (pieces : list bytes) i d : pieces !! i = Some d ->
  drop (length (concat (take i pieces))) (concat pieces) = d ++ concat (drop (S i) pieces) /\
  zlen (concat pieces) = zlen (concat (take i pieces)) + zlen d + zlen (concat (drop (S i) pieces)).
Proof.
  intros Hd. assert (concat pieces = concat (take i pieces) ++ d ++ concat (drop (S i) pieces)) as ->.
  { rewrite <-(take_drop_middle _ _ _ Hd) at 1. by rewrite concat_app. }
  rewrite drop_app_length, !zlen_app. split; [done|lia].
Qed.
Lemma reads_as_pos r c : reads_as r c -> 0 <= rd_pos r <= zlen c.
Proof.
  intros [_ _ (pieces & _ & _ & <- & Hb)]. destruct (rd_buf r) as [b|].
  - destruct Hb as (Hb & Hu & ->). destruct (piece_at _ _ _ Hb) as [_ ->].
    pose proof (zlen_nonneg (concat (take (rd_cur r) pieces))). pose proof (zlen_nonneg (concat (drop (S (rd_cur r)) pieces))).
    unfold zlen at 4. lia.
  - destruct Hb as (_ & _ & ->). rewrite <-(take_drop (rd_cur r) pieces) at 3. rewrite concat_app, zlen_app.
    pose proof (zlen_nonneg (concat (take (rd_cur r) pieces))). pose proof (zlen_nonneg (concat (drop (rd_cur r) pieces))). lia.
Qed.
Lemma drop_pos c (n m : nat) (z : Z) : z = Z.of_nat n + Z.of_nat m -> drop (Z.to_nat z) c = drop m (drop n c).
Proof. intros ->. rewrite drop_drop. f_equal. lia. Qed.

(** [Read] delivers the next bytes, at least one and at most [k], or EOF at the end *)
Lemma Read_spec k r c : reads_as r c ->
  if rd_pos r =? zlen c then rd_Read get k r = (Err EOF, r) else
  exists n r', rd_Read get k r = (Ok (take n (drop (Z.to_nat (rd_pos r)) c)), r') /\ (n ≤ k)%nat /\ ((0 < k)%nat -> (0 < n)%nat) /\
    rd_pos r + Z.of_nat n <= zlen c /\ reads_as r' c /\ rd_pos r' = rd_pos r + Z.of_nat n.
Proof.
  intros Hra. pose proof (reads_as_pos r c Hra) as Hpos. destruct Hra as [Hsz Hsm (pieces & Hp & Hne & Hc & Hb)].
  unfold rd_Read. rewrite Hsz. destruct (Z.eqb_spec (rd_pos r) (zlen c)) as [E|E].
  { destruct (Z.leb_spec (zlen c) (rd_pos r)); [done|lia]. }
  destruct (Z.leb_spec (zlen c) (rd_pos r)) as [|Hlt]; [lia|].
  assert (exists d used, pieces !! rd_cur r = Some d /\ (used < length d)%nat /\
    rd_pos r = zlen (concat (take (rd_cur r) pieces)) + Z.of_nat used /\
    (match rd_buf r with Some b => Ok (b, rd_bufUsed r)
     | None => match rd_blocks r !! rd_cur r with Some m => b ← wrap "memfs: read block" (get m); Ok (b, 0%nat) | None => Err EOF end end)
    = Ok (d, used)) as (d & used & Hd & Hu & Hpe & Hbuf).
  { destruct (rd_buf r) as [b|]; [destruct Hb as (? & ? & ?); by exists b, (rd_bufUsed r)|]. destruct Hb as (_ & Hcur & Hpe).
    destruct (pieces !! rd_cur r) as [d|] eqn:Ed.
    2:{ apply lookup_ge_None in Ed. rewrite firstn_all2, Hc in Hpe by done. lia. }
    exists d, 0%nat. destruct (Forall2_lookup_r _ _ _ _ _ Hp Ed) as (m & Hm & Hg). rewrite Hm, Hg.
    pose proof (Forall_lookup_1 _ _ _ _ Hne Ed) as Hd0. cbn beta in Hd0. unfold zlen in Hd0. split_and!; [done|lia|lia|done]. }
  assert (is_Some (rd_blocks r !! rd_cur r)) as [m Hm].
  { apply lookup_lt_is_Some. rewrite (Forall2_length _ _ _ Hp). by apply lookup_lt_Some in Hd. }
  rewrite Hm in Hbuf |- *. rewrite Hbuf. cbv zeta.
  destruct (piece_at _ _ _ Hd) as [Edrop Elen]. rewrite Hc in Edrop, Elen.
  assert (zlen d = Z.of_nat (length d)) as Ezd by done. pose proof (zlen_nonneg (concat (drop (S (rd_cur r)) pieces))) as Hrest.
  assert (drop (Z.to_nat (rd_pos r)) c = drop used d ++ concat (drop (S (rd_cur r)) pieces)) as Ec.
  { rewrite (drop_pos c (length (concat (take (rd_cur r) pieces))) used) by (rewrite Hpe; unfold zlen; lia).
    rewrite Edrop. by rewrite drop_app_le by lia. }
  set (n := length (take k (drop used d))).
  assert (n = Nat.min k (length d - used)) as En by (unfold n; by rewrite length_take, length_drop).
  assert (take k (drop used d) = take n (drop (Z.to_nat (rd_pos r)) c)) as Et.
  { rewrite Ec, take_app_le by (rewrite length_drop; lia). unfold n. rewrite length_take.
    by rewrite <-take_take, (firstn_all2 (n := length (drop used d))) by lia. }
  fold n. assert (zlen (take k (drop used d)) = Z.of_nat n) as -> by done. rewrite i64_small by lia. rewrite Et.
  eexists n, _. split; [done|]. split; [lia|]. split; [lia|]. split; [lia|].
  destruct (Nat.leb_spec (length d) (used + n)) as [Hend|Hmore]; (split; [|done]).
  - split; [done|done|]. exists pieces. split_and!; [done..|]. cbn [rd_buf rd_cur rd_pos rd_bufUsed].
    rewrite (take_S_r _ _ _ Hd), concat_app, zlen_app. cbn [concat]. rewrite app_nil_r.
    apply lookup_lt_Some in Hd. split_and!; [done|lia|lia].
  - split; [done|done|]. exists pieces. split_and!; [done..|]. cbn [rd_buf rd_cur rd_pos rd_bufUsed]. split_and!; [done|lia|lia].
Qed.
Lemma find_block_spec target pieces blocks sum i0 : Forall2 (λ m d, get m = Ok d) blocks pieces ->
  0 <= sum <= target -> sum + zlen (concat pieces) < 2 ^ 63 ->
  (sum + zlen (concat pieces) <= target /\ find_block get target sum i0 blocks = Ok None) \/
  exists i d, pieces !! i = Some d /\ let before := sum + zlen (concat (take i pieces)) in
    before <= target < before + zlen d /\ find_block get target sum i0 blocks = Ok (Some ((i0 + i)%nat, before)).
Proof.
  intros Hp. revert sum i0. induction Hp as [|m d blocks pieces Hm _ IH]; intros sum i0 Hsum Hlt; cbn [find_block].
  { left. split; [|done]. change (zlen (concat [])) with 0. lia. }
  cbn [concat] in Hlt. rewrite zlen_app in Hlt. pose proof (zlen_nonneg d). pose proof (zlen_nonneg (concat pieces)).
  rewrite Hm. cbn [wrap mbind result_bind]. rewrite i64_small by lia. destruct (Z.ltb_spec target (sum + zlen d)) as [Hin|Hout].
  - right. exists 0%nat, d. split; [done|]. cbn [take concat]. cbv zeta. change (zlen (@nil byte)) with 0.
    rewrite Z.add_0_r, Nat.add_0_r. split; [lia|done].
  - destruct (IH (sum + zlen d) (S i0) ltac:(lia) ltac:(lia)) as [[Hle E]|(i & d' & Hi & Hb & E)].
    + left. cbn [concat]. rewrite zlen_app. split; [lia|done].
    + right. exists (S i), d'. split; [done|]. cbn [take concat]. cbv zeta. rewrite zlen_app, E.
      rewrite Z.add_assoc, <-plus_n_Sm. split; [exact Hb|done].
Qed.
(** the position a [Seek] asks for *)
Definition seek_target r c (offset whence : Z) : option Z :=
  if whence =? 0 then Some offset else if whence =? 1 then Some (i64 (rd_pos r + offset))
  else if whence =? 2 then Some (i64 (zlen c + offset)) else None.
(** [Seek] moves to the target, or to the end when the target lies behind it *)
Lemma Seek_spec offset whence r c : reads_as r c ->
  match seek_target r c offset whence with
  | None => exists e, rd_Seek get offset whence r = (Err e, r)
  | Some target =>
      if target <? 0 then exists e, rd_Seek get offset whence r = (Err e, r) else
      exists r', rd_Seek get offset whence r = (Ok (Z.min target (zlen c)), r') /\ reads_as r' c /\ rd_pos r' = Z.min target (zlen c)
  end.
Proof.
  intros Hra. pose proof (reads_as_pos r c Hra) as Hpos. unfold rd_Seek, seek_target. rewrite (ra_size r c Hra).
  destruct (if whence =? 0 then _ else _) as [target|]; [|by eexists].
  destruct (Z.ltb_spec target 0) as [|Hge]; [by eexists|]. destruct (Z.eqb_spec target (rd_pos r)) as [->|Hne].
  { exists r. rewrite Z.min_l by lia. done. }
  pose proof Hra as [Hsz Hsm (pieces & Hp & Hne' & Hc & _)]. cbv zeta.
  destruct (find_block_spec target pieces (rd_blocks r) 0 0 Hp) as [[Hle ->]|(i & d & Hi & Hb & ->)]; [lia|rewrite Hc; lia| |].
  - rewrite Hc in Hle. eexists. split; [by rewrite Z.min_r by lia|]. split; [|cbn; lia].
    split; [done|done|]. exists pieces. split_and!; [done..|]. cbn [rd_buf rd_cur rd_pos rd_bufUsed].
    rewrite (Forall2_length _ _ _ Hp), firstn_all, Hc. done.
  - cbv zeta in Hb. rewrite Z.add_0_l in Hb |- *. rewrite Nat.add_0_l.
    destruct (Forall2_lookup_r _ _ _ _ _ Hp Hi) as (m & Hm & Hg). rewrite Hm, Hg. cbn [wrap].
    destruct (piece_at _ _ _ Hi) as [_ Elen]. rewrite Hc in Elen.
    pose proof (zlen_nonneg (concat (drop (S i) pieces))). pose proof (zlen_nonneg (concat (take i pieces))).
    rewrite Z.min_l by lia. eexists. split; [done|]. split; [|done].
    split; [done|done|]. exists pieces. split_and!; [done..|]. cbn [rd_buf rd_cur rd_pos rd_bufUsed].
    rewrite i64_small by lia. unfold zlen in *. split_and!; [done|lia|lia].
Qed.
Lemma read_all_spec fuel k r c : reads_as r c -> (0 < k)%nat -> (Z.to_nat (zlen c - rd_pos r) < fuel)%nat ->
  read_all get fuel k r = (drop (Z.to_nat (rd_pos r)) c, EOF).
Proof.
  revert r. induction fuel as [|fuel IH]; intros r Hra Hk Hf; [lia|]. cbn [read_all].
  pose proof (Read_spec k r c Hra) as Hr. pose proof (reads_as_pos r c Hra). destruct (Z.eqb_spec (rd_pos r) (zlen c)) as [E|E].
  - rewrite Hr, E, skipn_all2; [done|]. unfold zlen. lia.
  - destruct Hr as (n & r' & -> & _ & Hn & Hle & Hra' & Epos). specialize (Hn Hk). rewrite (IH r' Hra' Hk) by lia. rewrite Epos.
    f_equal. rewrite Z2Nat.inj_add, Nat2Z.id by lia. by rewrite <-drop_drop, take_drop.
Qed.
End refine.

(** ** Opening a file *)
Section open.
Context `{Multiformats} `{!MultiformatsLaws} `{!BinaryMultihash} `{Protos} `{!ProtosLaws} `{!NodeBytes}.
Context (alg : Z) (Halg : isSupportedHash alg = true) {St : Type} `{Blockstore St}.
Implicit Types s : St.

Lemma Resolve_node s pb m : node_at alg pb m s -> mn_Type pb ≠ 0 -> Resolve (λ m, bs_Get m s) m = Ok pb.
Proof.
  intros Hn Hty. pose proof (node_at_wf alg Halg _ _ _ Hn) as [Hw _]. destruct Hn as (raw & Hraw & _ & Hg).
  unfold Resolve. rewrite wf_not_zero, Hg by done. cbn [wrap mbind result_bind]. by apply marshal_node_parse.
Qed.
Lemma block_value_leaf d r : FromBytes alg d = Ok (br_mid r) -> 0 < br_size r ->
  block_value (block_ref 0 r) = mkFSBlock (br_mid r) (br_size r).
Proof.
  intros Hm Hsz. destruct (FromBytesWithCodec_wf alg d CodecRaw _ Halg ltac:(done) Hm) as [Hw Hc].
  unfold block_ref. cbn [Nat.eqb]. apply block_value_of; [done|]. rewrite Hc. by destruct (Z.ltb_spec 0 (br_size r)); [|lia].
Qed.
Lemma block_value_inner h raw r : FromBytesWithCodec alg raw CodecMemFS = Ok (br_mid r) ->
  block_value (block_ref (S h) r) = mkFSBlock (br_mid r) 0.
Proof.
  intros Hm. destruct (FromBytesWithCodec_wf alg raw CodecMemFS _ Halg ltac:(done) Hm) as [Hw Hc].
  unfold block_ref. cbn [Nat.eqb]. by apply block_value_of.
Qed.
Lemma flatten_level s fuel level children dss node :
  (level < fuel)%nat -> Forall2 (file_tree alg s level) children dss ->
  mn_Type node = MemFSType_FILE -> mn_Blocks node = map (block_ref level) children ->
  exists ms, flattenFileBlocks (λ m, bs_Get m s) fuel node = Ok ms /\
    Forall2 (λ m d, bs_Get m s = Ok d) ms (concat dss) /\ Forall (λ d, 0 < zlen d) (concat dss).
Proof.
  revert level children dss node. induction fuel as [|fuel IH]; intros level children dss node Hl Hf Hty Hb; [lia|].
  cbn [flattenFileBlocks]. unfold IsFile, BlocksValue. rewrite Hty, Hb. cbn [negb Z.eqb]. clear Hty Hb node.
  change (MemFSType_FILE =? TypeFile) with true. cbn [negb].
  induction Hf as [|r ds children dss Hr _ IHf]; cbn [map flat_blocks concat]; [by exists []|].
  destruct IHf as (ms & Ems & Hms & Hpos). destruct level as [|h].
  - destruct Hr as (d & -> & Hd & Hsz & Hm & Hg). rewrite (block_value_leaf d) by (done || lia). cbn [fb_Size fb_Mid].
    destruct (Z.ltb_spec 0 (br_size r)); [|lia]. cbn [mbind result_bind]. rewrite Ems.
    exists (br_mid r :: ms). split_and!; [done|by constructor|]. constructor; [lia|done].
  - destruct Hr as (kids & kdss & raw & Hne & -> & Hk & _ & Hraw & Hm & Hg). rewrite (block_value_inner h raw) by done.
    cbn [fb_Size fb_Mid Z.ltb Z.compare]. rewrite Hg. cbn [wrap mbind result_bind].
    rewrite (unmarshal_marshal _ _ Hraw). unfold inner_node, IsFile. cbn [mn_Type mn_Blocks].
    change (MemFSType_FILE =? TypeFile) with true. cbn [andb].
    destruct (Z.ltb_spec 0 (zlen (map (block_ref h) kids))) as [_|Hz].
    2:{ exfalso. apply Hne. destruct kids; [done|]. unfold zlen in Hz. simpl in Hz. lia. }
    destruct (IH h kids kdss (inner_node h kids) ltac:(lia) Hk eq_refl eq_refl) as (ms1 & E1 & Hms1 & Hpos1).
    unfold inner_node in E1. rewrite E1. cbn [mbind result_bind]. rewrite Ems. cbn [mbind result_bind].
    exists (ms1 ++ ms). split_and!; [done|by apply Forall2_app|by apply Forall_app].
Qed.
(** a file in the store opens as a reader of its content *)
Lemma Open_file s m c : file_at alg s m c -> exists fuel0, forall fuel, (fuel0 ≤ fuel)%nat ->
  exists r, Open (λ m, bs_Get m s) fuel m = Ok r /\ reads_as (λ m, bs_Get m s) r c /\ rd_pos r = 0.
Proof.
  intros (level & children & dss & pb & Hn & Hty & Hsz & Hlt & Hb & Hf & ->). exists (S level). intros fuel Hfuel.
  destruct (flatten_level s fuel level children dss pb ltac:(lia) Hf Hty Hb) as (ms & Ems & Hms & Hpos).
  unfold Open, newReader. rewrite (Resolve_node s pb m Hn) by by rewrite Hty. cbn [mbind result_bind].
  unfold IsFile. rewrite Hty. change (MemFSType_FILE =? TypeFile) with true. cbn [negb]. rewrite Ems. cbn [mbind result_bind].
  eexists. split; [done|]. split; [|done]. split; cbn [rd_file rd_blocks rd_pos rd_cur rd_buf rd_bufUsed].
  - rewrite Hsz. apply i64_small. pose proof (zlen_nonneg (concat (concat dss))). lia.
  - done.
  - exists (concat dss). split_and!; [done..|lia|done].
Qed.
End open.

(** ** The specification of a seekable reader: a position in the content *)
Inductive rd_op := OpRead (k : nat) | OpSeek (offset whence : Z).
Inductive rd_obs := GotBytes (p : bytes) | GotPos (z : Z) | GotEOF | GotError.
Definition ask_target (c : bytes) (pos offset whence : Z) : option Z :=
  if whence =? 0 then Some offset else if whence =? 1 then Some (i64 (pos + offset))
  else if whence =? 2 then Some (i64 (zlen c + offset)) else None.
Inductive content_step (c : bytes) : Z -> rd_op -> rd_obs -> Z -> Prop :=
  | step_eof k : content_step c (zlen c) (OpRead k) GotEOF (zlen c)
  | step_read pos k n : 0 <= pos -> (n ≤ k)%nat -> ((0 < k)%nat -> (0 < n)%nat) -> pos + Z.of_nat n <= zlen c -> pos < zlen c ->
      content_step c pos (OpRead k) (GotBytes (take n (drop (Z.to_nat pos) c))) (pos + Z.of_nat n)
  | step_bad_whence pos offset whence : ask_target c pos offset whence = None ->
      content_step c pos (OpSeek offset whence) GotError pos
  | step_negative pos offset whence t : ask_target c pos offset whence = Some t -> t < 0 ->
      content_step c pos (OpSeek offset whence) GotError pos
  | step_seek pos offset whence t : ask_target c pos offset whence = Some t -> 0 <= t ->
      content_step c pos (OpSeek offset whence) (GotPos (Z.min t (zlen c))) (Z.min t (zlen c)).
Inductive content_run (c : bytes) : Z -> list rd_op -> list rd_obs -> Z -> Prop :=
  | run_nil pos : content_run c pos [] [] pos
  | run_cons pos o obs pos1 ops obss pos2 : content_step c pos o obs pos1 -> content_run c pos1 ops obss pos2 ->
      content_run c pos (o :: ops) (obs :: obss) pos2.
Definition rd_do (get : MID -> result bytes) (o : rd_op) (r : reader) : rd_obs * reader :=
  match o with
  | OpRead k => let '(x, r) := rd_Read get k r in
      (match x with Ok p => GotBytes p | Err e => if errors_is e EOF then GotEOF else GotError end, r)
  | OpSeek offset whence => let '(x, r) := rd_Seek get offset whence r in
      (match x with Ok z => GotPos z | Err _ => GotError end, r)
  end.
Fixpoint rd_run (get : MID -> result bytes) (ops : list rd_op) (r : reader) : list rd_obs * reader :=
  match ops with
  | [] => ([], r)
  | o :: ops => let '(obs, r) := rd_do get o r in let '(obss, r) := rd_run get ops r in (obs :: obss, r)
  end.
Lemma rd_do_step get o r c : reads_as get r c ->
  exists obs r', rd_do get o r = (obs, r') /\ content_step c (rd_pos r) o obs (rd_pos r') /\ reads_as get r' c.
Proof.
  intros Hra. pose proof (reads_as_pos get r c Hra). destruct o as [k|offset whence]; cbn [rd_do].
  - pose proof (Read_spec get k r c Hra) as Hr. destruct (Z.eqb_spec (rd_pos r) (zlen c)) as [E|E].
    + rewrite Hr. exists GotEOF, r. split_and!; [done| |done]. rewrite E. constructor.
    + destruct Hr as (n & r' & -> & Hk & Hn & Hle & Hra' & Ep). eexists _, r'. split_and!; [done| |done]. rewrite Ep. constructor; (done || lia).
  - pose proof (Seek_spec get offset whence r c Hra) as Hr. fold (ask_target c (rd_pos r) offset whence) in Hr.
    change (seek_target r c offset whence) with (ask_target c (rd_pos r) offset whence) in Hr.
    destruct (ask_target c (rd_pos r) offset whence) as [t|] eqn:Et.
    + destruct (Z.ltb_spec t 0) as [Hneg|Hge].
      * destruct Hr as [e ->]. exists GotError, r. split_and!; [done|by eapply step_negative|done].
      * destruct Hr as (r' & -> & Hra' & Ep). eexists _, r'. split_and!; [done| |done]. rewrite Ep. by apply step_seek.
    + destruct Hr as [e ->]. exists GotError, r. split_and!; [done|by apply step_bad_whence|done].
Qed.

(** ** Properties *)
Section properties.
Context `{Multiformats} `{!MultiformatsLaws} `{!BinaryMultihash} `{Protos} `{!ProtosLaws} `{!NodeBytes} `{ObjectJSON}.
Context (alg : Z) (Halg : isSupportedHash alg = true) (F : nat) (HF : (1 < F)%nat).
Context {St : Type} `{Blockstore St} `{BatchStore St} `{MetaStore St} (inv : St -> Prop) `{!FileStoreLaws St alg inv}.

(** C22: the reader refines a position in the content: opened on a stored file of any tree
    depth, every sequence of reads and seeks gives what the position gives - reads deliver
    the next bytes of the content (at least one, at most what was asked), EOF exactly at
    the end, seeks land on their target or at the end, negative targets and unknown
    origins are refused without effect. *)
Theorem reader_refines s m c : file_at alg s m c ->
  exists fuel0, forall fuel, (fuel0 ≤ fuel)%nat -> exists r, Open (λ m, bs_Get m s) fuel m = Ok r /\
    forall ops, exists obss r', rd_run (λ m, bs_Get m s) ops r = (obss, r') /\ content_run c 0 ops obss (rd_pos r').
Proof.
  intros Hf. destruct (Open_file alg Halg s m c Hf) as [fuel0 Hopen]. exists fuel0. intros fuel Hfuel.
  destruct (Hopen fuel Hfuel) as (r & Hr & Hra & Hpos). exists r. split; [done|]. intros ops. rewrite <-Hpos.
  clear Hpos Hr Hopen Hfuel. revert r Hra. induction ops as [|o ops IH]; intros r Hra; cbn [rd_run].
  { exists [], r. split; [done|constructor]. }
  destruct (rd_do_step _ o r c Hra) as (obs & r1 & -> & Hstep & Hra1).
  destruct (IH r1 Hra1) as (obss & r2 & -> & Hrun). exists (obs :: obss), r2. split; [done|by econstructor].
Qed.

(** C19: what [AddFile] stored is read back: after any run of the add pipeline that ends in
    success, in the store it leaves and in every later store that kept its blocks, opening
    the returned MID and reading to the end, with any buffer size, gives the chunks in
    order and then EOF. *)
Theorem AddFile_Open_roundtrip a ds err s0 others erasure workers p res s :
  Forall is_ascii (fa_mime a) -> Forall (λ d, 0 < zlen d) ds -> zlen (concat ds) < 2 ^ 63 ->
  inv s0 -> (forall s s', inv s -> others s s' -> grows alg inv s s') ->
  rtc (add_step alg F a others) (start_pipe erasure workers ds err s0) p -> p_out p = Some (Ok res) ->
  keeps alg (p_store p) s ->
  exists fuel0, forall fuel k, (fuel0 ≤ fuel)%nat -> (0 < k)%nat -> exists r,
    Open (λ m, bs_Get m s) fuel (ar_MID res) = Ok r /\
    read_all (λ m, bs_Get m s) (S (Z.to_nat (ar_Size res))) k r = (concat ds, EOF).
Proof.
  intros Ha Hpos Hlen Hs Hoth Hr Hout Hk.
  pose proof (reachable_ok alg Halg F HF inv a Ha ds Hpos Hlen err s0 others erasure workers p Hoth Hs Hr) as Hp.
  destruct (ok_out _ _ _ _ _ _ _ _ Hp _ Hout) as (_ & _ & Hf & Hsz & _).
  assert (file_at alg s (ar_MID res) (concat ds)) as Hf' by (eapply file_at_keeps; eassumption).
  destruct (Open_file alg Halg s _ _ Hf') as [fuel0 Hopen]. exists fuel0. intros fuel k Hfuel Hk0.
  destruct (Hopen fuel Hfuel) as (r & Hro & Hra & Hp0). exists r. split; [done|].
  rewrite (read_all_spec _ _ k r (concat ds) Hra Hk0) by (rewrite Hp0, Hsz, Z.sub_0_r; lia). by rewrite Hp0.
Qed.
End properties.

(** ** Witnesses: the file of three chunks and two levels *)
Section demo.
#[local] Existing Instance demo_blocks.
#[local] Existing Instance demo_batch.
Definition demo_root : MID := match p_out demo_end with Some (Ok res) => ar_MID res | _ => zeroMID end.
Definition demo_get (m : MID) : result bytes := bs_Get m (p_store demo_end).
Example demo_open_read :
  match Open demo_get 5 demo_root with
  | Ok r => (rd_run demo_get [OpRead 5; OpSeek (-2) 2; OpRead 9; OpRead 1] r).1
  | Err _ => []
  end = [GotBytes (lit "hel"); GotPos 7; GotBytes (lit "ou"); GotEOF].
Proof. vm_compute. reflexivity. Qed.

Lemma demo_file : file_at BLAKE3 (p_store demo_end) demo_root (lit "hello you").
Proof.
  assert (bool_decide (is_Some (p_out demo_end ≫= λ r, if is_ok r then Some tt else None)) = true) as E0 by (vm_compute; reflexivity).
  apply bool_decide_eq_true in E0 as [u E0]. destruct (p_out demo_end) as [[res|e]|] eqn:E; [|discriminate E0..].
  destruct (ok_out _ _ _ _ _ _ _ _ demo_ok _ E) as (_ & _ & Hf & _). unfold demo_root. rewrite E. exact Hf.
Qed.
Lemma reader_refines_witness : exists fuel r, Open demo_get fuel demo_root = Ok r /\
  exists obss r', rd_run demo_get [OpRead 4] r = (obss, r') /\ content_run (lit "hello you") 0 [OpRead 4] obss (rd_pos r').
Proof.
  destruct (reader_refines (St := Memstore) BLAKE3 eq_refl (p_store demo_end) demo_root (lit "hello you") demo_file) as [fuel0 Hr].
  destruct (Hr fuel0 (le_n _)) as (r & Ho & Hops). exists fuel0, r. split; [exact Ho|]. exact (Hops [OpRead 4]).
Defined.
Lemma AddFile_Open_roundtrip_witness : exists fuel r, Open demo_get fuel demo_root = Ok r /\
  read_all demo_get 10 4 r = (lit "hello you", EOF).
Proof.
  assert (exists res, p_out demo_end = Some (Ok res)) as [res E] by (vm_compute; eexists; reflexivity).
  assert (ar_MID res = demo_root /\ ar_Size res = 9) as [Em Es].
  { unfold demo_root. rewrite E. split; [reflexivity|]. vm_compute in E. injection E as <-. reflexivity. }
  destruct (AddFile_Open_roundtrip (St := Memstore) BLAKE3 eq_refl 2 ltac:(lia) (mem_ok BLAKE3)
    (FileStoreLaws0 := mem_file_laws BLAKE3 eq_refl) demo_args demo_chunks None NewMemstore (λ _ _, False) false 2 demo_end res (p_store demo_end))
    as [fuel0 Hr].
  - repeat constructor; vm_compute; reflexivity.
  - repeat constructor; vm_compute; reflexivity.
  - vm_compute. reflexivity.
  - apply mem_ok_New.
  - intros s s' _ [].
  - exact demo_reachable.
  - exact E.
  - reflexivity.
  - destruct (Hr fuel0 4%nat (le_n _) ltac:(lia)) as (r & Ho & Hread). rewrite Em in Ho. rewrite Es in Hread. exists fuel0, r.
    split; [exact Ho|exact Hread].
Defined.
End demo.
