(* ===== verification/MemBuild.v ===== *)
(** * Building files and directories (src/core/memfs/builder.go)

    [Builder_AddFile] is AddFile from the reader on: the chunker the builder is configured
    with, then the pipeline of AddFile.v.  [AddDir] and [AddSymlink] store one node each.
    [Builder_AddFile_spec]: the content of the reader ends up in the store, with every
    chunker; [AddDir_ends]: so does the sorted directory. *)
From S2P Require Import Prelude Mid GoIO Chunk Wire Blockstore Objects Memstore Db MemNode MemFile FileStores AddFile MemRead.

(** ** The builder *)
Record Builder := mkBuilder { bd_blk : Z; bd_chunker : bytes; bd_erasure : bool }.
Definition NewBuilder : Builder := mkBuilder DefaultBlockSize [] false.
Definition WithBlockSize (n : Z) (b : Builder) : Builder :=
  let n := if n <? MinBlockSize then MinBlockSize else n in
  let n := if MaxBlockSize <? n then MaxBlockSize else n in
  mkBuilder n (bd_chunker b) (bd_erasure b).
Definition WithChunker (chunker : bytes) (b : Builder) : Builder := mkBuilder (bd_blk b) chunker (bd_erasure b).
Definition WithErasure (enable : bool) (b : Builder) : Builder := mkBuilder (bd_blk b) (bd_chunker b) enable.
Definition builder_ok (b : Builder) : Prop := MinBlockSize <= bd_blk b <= MaxBlockSize.
Lemma NewBuilder_ok : builder_ok NewBuilder.
Proof. done. Qed.
Lemma WithBlockSize_ok n b : builder_ok (WithBlockSize n b).
Proof.
  unfold builder_ok, WithBlockSize. cbn [bd_blk]. unfold MinBlockSize, MaxBlockSize.
  destruct (Z.ltb_spec n 1024); destruct (Z.ltb_spec (4 * 1024 * 1024) n); try lia;
    by destruct (Z.ltb_spec (4 * 1024 * 1024) 1024).
Qed.

Section source.
Context `{Multiformats} (alg : Z).
(** a chunker read to its end: the chunks, and the error other than EOF that ended it *)
Definition chunks_of {C : Type} (next : M C Block) (fuel : nat) (c : C) : list bytes * option error :=
  let '(blocks, e) := drain (H := next) fuel c in
  (map Data blocks, if errors_is e EOF then None else Some (Wrap "memfs: read chunk" e)).
(** the chunker of the builder over [r]; a reader that gives [n] bytes gives at most [n] chunks *)
Definition chunk_source (b : Builder) (r : Reader) : result (list bytes * option error) :=
  let fuel := S (rd_measure r) in
  wrap "memfs: chunker"
    (if bool_decide (bd_chunker b = lit "rabin") then c ← NewRabin rabin_params (Some r); Ok (chunks_of (rabin_Next alg rabin_params) fuel c)
     else if bool_decide (bd_chunker b = lit "fastcdc") then c ← NewFastCDC fastcdc_params (Some r); Ok (chunks_of (fastcdc_Next alg fastcdc_params) fuel c)
     else c ← NewFixed (bd_blk b) (Some r); Ok (chunks_of (fixed_Next alg) fuel c)).
(** the cut the chunker makes of the content *)
Definition chunk_cut (b : Builder) (bs : bytes) : list bytes :=
  if bool_decide (bd_chunker b = lit "rabin") then rabin_spec rabin_params bs
  else if bool_decide (bd_chunker b = lit "fastcdc") then fastcdc_spec fastcdc_params bs
  else chunks (Z.to_nat (bd_blk b)) bs.
End source.

Section build.
Context `{Multiformats, Protos, ObjectJSON} (alg : Z) (F : nat) {St : Type} `{Blockstore St, BatchStore St, MetaStore St}.
Context (pick : FileArgs -> pipe St -> choice) (workers : nat).

Definition Builder_AddFile (b : Builder) (name : bytes) (r : Reader) (mode mtime : Z) (mime : bytes) : M St AddResult :=
  '(ds, err) ← liftr (chunk_source alg b r);
  let a := mkFileArgs name mode mtime mime (bd_blk b) in
  AddFile_with alg F a (pick a) (bd_erasure b) (Nat.max 2 workers) ds err.

Definition AddDir (name : bytes) (entries : list FSEntry) (mode mtime : Z) : M St AddResult :=
  let sorted := sortDirEntries entries in
  let total := sum64 (map fe_Size sorted) in
  rootMID ← put_node alg "memfs: marshal dir" "memfs: store dir"
    (with_attrs mtime [] (mkMemFSNode MemFSType_DIR [] 0 [] (map entry_proto sorted) [] None (u32 mode) 0));
  _ ← set_info name (lit "inode/directory") total rootMID;
  mret (mkAddResult rootMID total 1).

Definition AddSymlink (name target : bytes) (mode mtime : Z) : M St AddResult :=
  rootMID ← put_node alg "memfs: marshal symlink" "memfs: store symlink"
    (with_attrs mtime [] (mkMemFSNode MemFSType_SYMLINK [] 0 [] [] target None (u32 mode) 0));
  mret (mkAddResult rootMID (u64 (zlen target)) 1).
End build.

(** ** What the chunkers deliver *)
Section chunk_facts.
Context `{Multiformats} `{!MultiformatsLaws} (alg : Z) (Halg : isSupportedHash alg = true).

Lemma content_measure r : (length (content r).1 ≤ rd_measure r)%nat.
Proof.
  induction r as [|[bs [e|]] r IH]; simpl; [lia|lia|]. destruct (content r) as [c e]. simpl in *. rewrite length_app. lia.
Qed.
Lemma is_block_data ds blocks : Forall2 (is_block alg) ds blocks -> map Data blocks = ds.
Proof.
  induction 1 as [|d b ds blocks Hb _ IH]; [done|]. cbn [map]. rewrite IH. f_equal.
  unfold is_block, makeBlock in Hb. destruct (FromBytes alg d); [|done]. by injection Hb as <-.
Qed.
Lemma zlen_concat_le (ds : list bytes) : Forall (λ d, 0 < zlen d) ds -> (length ds ≤ length (concat ds))%nat.
Proof. intros Hd%zlen_concat_ge. unfold zlen in Hd. lia. Qed.
Lemma chunks_of_spec {C : Type} (next : M C Block) (c : C) blocks ds r :
  Yields (H := next) c blocks EOF -> Forall2 (is_block alg) ds blocks -> Forall (λ d, 0 < zlen d) ds ->
  concat ds = (content r).1 -> chunks_of next (S (rd_measure r)) c = (ds, None).
Proof.
  intros HY HF Hpos Hc. unfold chunks_of. rewrite (Yields_drain (H := next) c blocks EOF) by
    (done || (rewrite <-(Forall2_length _ _ _ HF); pose proof (zlen_concat_le ds Hpos); rewrite Hc in *; pose proof (content_measure r); lia)).
  by rewrite (is_block_data ds).
Qed.
(** the chunker delivers its cut of the content, in non-empty chunks *)
Lemma chunk_source_spec b r bs e : builder_ok b -> content r = (bs, e) -> errors_is e EOF = true ->
  chunk_source alg b r = Ok (chunk_cut b bs, None) /\ concat (chunk_cut b bs) = bs /\ Forall (λ d, 0 < zlen d) (chunk_cut b bs).
Proof.
  intros Hb Hc He. unfold chunk_source, chunk_cut.
  destruct (bool_decide (bd_chunker b = lit "rabin")); [|destruct (bool_decide (bd_chunker b = lit "fastcdc"))].
  - destruct (rabin_yields alg Halg rabin_params r _ bs e eq_refl Hc He) as (blocks & HY & HF).
    assert (Forall (λ d, 0 < zlen d) (rabin_spec rabin_params bs)) as Hpos.
    { destruct (sizes_but_last (rabin_spec rabin_params bs) (rabinMin rabin_params) (rabinMax rabin_params)) as [Hs _]; [apply rabin_params_ok| |].
      - intros ds' d. apply rabin_split_sizes; [apply rabin_params_ok|]. vm_compute. reflexivity.
      - eapply Forall_impl; [exact Hs|]. intros d [? _]. done. }
    split_and!; [|apply rabin_spec_concat|done]. unfold NewRabin. cbn [mbind result_bind wrap].
    erewrite chunks_of_spec by (done || (by rewrite Hc, rabin_spec_concat)). done.
  - destruct (fastcdc_yields alg Halg fastcdc_params fastcdc_params_ok r _ bs e eq_refl Hc He) as (blocks & HY & HF).
    assert (Forall (λ d, 0 < zlen d) (fastcdc_spec fastcdc_params bs)) as Hpos.
    { destruct (sizes_but_last (fastcdc_spec fastcdc_params bs) (fastcdcMin fastcdc_params) (fastcdcMax fastcdc_params)) as [Hs _]; [apply fastcdc_params_ok| |].
      - intros ds' d. apply fastcdc_spec_sizes, fastcdc_params_ok.
      - eapply Forall_impl; [exact Hs|]. intros d [? _]. done. }
    split_and!; [|apply fastcdc_spec_concat, fastcdc_params_ok|done]. unfold NewFastCDC. cbn [mbind result_bind wrap].
    erewrite chunks_of_spec by (done || (by rewrite Hc, fastcdc_spec_concat by apply fastcdc_params_ok)). done.
  - assert (0 < Z.to_nat (bd_blk b))%nat as Hn by (unfold builder_ok, MinBlockSize in Hb; lia).
    destruct (fixed_yields alg Halg r (bd_blk b) false bs e ltac:(lia) Hc He) as (blocks & HY & HF).
    assert (Forall (λ d, 0 < zlen d) (chunks (Z.to_nat (bd_blk b)) bs)) as Hpos.
    { eapply Forall_impl; [by apply chunks_sizes|]. intros d [? _]. unfold zlen. lia. }
    split_and!; [|by apply chunks_concat|done]. unfold NewFixed, builder_ok in *.
    destruct (Z.ltb_spec (bd_blk b) MinBlockSize); [lia|]. destruct (Z.ltb_spec MaxBlockSize (bd_blk b)); [lia|].
    cbn [mbind result_bind wrap]. erewrite chunks_of_spec by (done || (by rewrite Hc, chunks_concat)). done.
Qed.
End chunk_facts.

(** ** One file, one node *)
Section node_facts.
Context `{Multiformats} `{!MultiformatsLaws} `{Protos} `{!ProtosLaws} `{ObjectJSON}.
Context (alg : Z) (Halg : isSupportedHash alg = true) (F : nat) (HF : (1 < F)%nat).
Context {St : Type} `{Blockstore St} `{BatchStore St} `{MetaStore St} (inv : St -> Prop) `{!FileStoreLaws St alg inv}.
Context (pick : FileArgs -> pipe St -> choice) (Hpick : forall a, busy alg F a (pick a)) (workers : nat).
Implicit Types s : St.

Lemma ends_ok {A} (m : M St A) s post x s' : ends alg inv m s post -> m s = (Ok x, s') -> grows alg inv s s' /\ post x s'.
Proof.
  intros (r & s1 & E & Hg & Hr) E'. rewrite E' in E. injection E as <- <-. split; [done|].
  destruct Hr as [(y & [= <-] & Hy)|[[e [=]] _]]. done.
Qed.
Lemma file_at_mid s m c : file_at alg s m c -> wf_mid m /\ codec m = CodecMemFS.
Proof. intros (level & ch & dss & pb & Hn & _). by eapply node_at_wf. Qed.
(** the content of the reader is in the store, under every chunker and block size *)
Lemma Builder_AddFile_spec b name r mode mtime mime bs e s : inv s -> builder_ok b -> Forall is_ascii mime ->
  content r = (bs, e) -> errors_is e EOF = true -> zlen bs < 2 ^ 63 ->
  exists x s', Builder_AddFile alg F pick workers b name r mode mtime mime s = (x, s') /\ grows alg inv s s' /\
    ((exists res, x = Ok res /\ file_of alg F (mkFileArgs name mode mtime mime (bd_blk b)) (chunk_cut b bs) = Ok res /\
        file_at alg s' (ar_MID res) bs /\ ar_Size res = zlen bs /\ ar_Block res = zlen (chunk_cut b bs)) \/
     (exists e, x = Err e) /\ StoreFails alg inv).
Proof.
  intros Hs Hb Hm Hc He Hlen. destruct (chunk_source_spec alg Halg b r bs e Hb Hc He) as (Esrc & Ecat & Hpos).
  unfold Builder_AddFile, liftr. rewrite Esrc. unfold mbind, M_bind. set (a := mkFileArgs name mode mtime mime (bd_blk b)).
  destruct (AddFile_with_spec alg Halg F HF inv a Hm (pick a) (bd_erasure b) (Nat.max 2 workers) (chunk_cut b bs) None s) as (x & s' & E & Hg & Hx);
    [done|by rewrite Ecat|apply Hpick|lia|done|]. exists x, s'. split_and!; [done|done|].
  destruct Hx as [(res & -> & _ & Hf & Hres)|[He' [Hfail|[]]]]; [left|right; by split|done].
  unfold file_result in Hres. rewrite Ecat in Hres. destruct Hres as (? & ? & ?). exists res. done.
Qed.

(** a directory node over [entries] *)
Definition dir_at s (m : MID) (entries : list FSEntry) : Prop := exists pb,
  node_at alg pb m s /\ mn_Type pb = MemFSType_DIR /\ mn_Entries pb = map entry_proto (sortDirEntries entries).
Lemma AddDir_ends name entries mode mtime s : inv s -> Forall (λ e, Forall is_ascii (fe_Name e)) entries ->
  ends alg inv (AddDir alg name entries mode mtime) s (λ res s', dir_at s' (ar_MID res) entries /\
    wf_mid (ar_MID res) /\ codec (ar_MID res) = CodecMemFS /\ ar_Size res = sum64 (map fe_Size (sortDirEntries entries)) /\ ar_Block res = 1).
Proof.
  intros Hs Hn. unfold AddDir. cbv zeta. eapply ends_bind.
  { apply (put_node_ends alg Halg inv); [done|]. unfold texts, MemFSNode_texts. cbn. constructor; [constructor|].
    rewrite app_nil_r, map_map. apply Forall_fmap. cbn. by rewrite sortDirEntries_perm. }
  intros m s1 [Hs1 _] Hnode. pose proof (node_at_wf alg Halg _ _ _ Hnode) as [Hw Hc]. eapply ends_bind; [by apply set_info_ends|].
  intros _ s2 [Hs2 Hk2] _. apply ends_ret; [done|]. split_and!; [|done..]. eexists. split_and!; [by eapply node_at_keeps|done|done].
Qed.
Lemma dir_at_keeps s s' m es : keeps alg s s' -> dir_at s m es -> dir_at s' m es.
Proof. intros Hk (pb & Hn & ?). exists pb. split; [by eapply node_at_keeps|done]. Qed.
(** the order in which the entries are given does not matter *)
Lemma AddDir_perm name es1 es2 mode mtime : NoDup (map fe_Name es1) -> es1 ≡ₚ es2 ->
  AddDir alg (St := St) name es1 mode mtime = AddDir alg name es2 mode mtime.
Proof. intros Hnd Hp. unfold AddDir. by rewrite (sortDirEntries_canonical es1 es2). Qed.
End node_facts.
