(* ===== verification/MemTree.v ===== *)
(** * Directories from a stream of files (src/core/memfs/builder.go, AddDirectoryStream)

    The files of the stream are stored one by one and put into a tree of directories, which
    is then stored bottom up.  [tree_at] says that a tree is in the store; [tree_get] walks
    the tree as [ResolvePath] walks the nodes.
    [AddDirectoryStream_paths]: every path of the stream resolves to its file. *)
From S2P Require Import Prelude Mid GoIO Chunk Wire Blockstore Objects Memstore Db MemNode MemFile FileStores AddFile MemRead MemBuild.

(** ** Paths *)
(** [strings.Split(s, "/")] *)
Fixpoint split_slash (seg s : bytes) : list bytes :=
  match s with
  | [] => [seg]
  | b :: s => if bool_decide (b = Byte.x2f) then seg :: split_slash [] s else split_slash (seg ++ [b]) s
  end.
Definition ReplaceBackslash (s : bytes) : bytes := map (λ b, if bool_decide (b = Byte.x5c) then Byte.x2f else b) s.
(** [path.Clean] of a rooted path, as its elements: empty and dot elements go, a dot-dot
    takes away its predecessor, and at the root nothing *)
Definition clean_step (parts : list bytes) (seg : bytes) : list bytes :=
  if bool_decide (seg = []) || bool_decide (seg = lit ".") then parts
  else if bool_decide (seg = lit "..") then removelast parts
  else parts ++ [seg].
Definition clean_parts (p : bytes) : list bytes := foldl clean_step [] (split_slash [] (ReplaceBackslash p)).

(** ** The tree of a stream *)
(** [treeNode]: a file, or a directory with its map of children as a list *)
Inductive tree :=
  | TFile (m : MID) (size : Z)
  | TDir (children : list (bytes * tree)).
Fixpoint child (name : bytes) (cs : list (bytes * tree)) : option tree :=
  match cs with
  | [] => None
  | c :: cs => if bool_decide (c.1 = name) then Some c.2 else child name cs
  end.
Fixpoint set_child (name : bytes) (t : tree) (cs : list (bytes * tree)) : list (bytes * tree) :=
  match cs with
  | [] => [(name, t)]
  | c :: cs => if bool_decide (c.1 = name) then (name, t) :: cs else c :: set_child name t cs
  end.
(** the walk down from a directory; [None] is the panic on the nil map of a file node *)
Fixpoint insert_file (parts : list bytes) (leaf : tree) (cs : list (bytes * tree)) : option (list (bytes * tree)) :=
  match parts with
  | [] => Some cs
  | [part] => Some (set_child part leaf cs)
  | part :: parts =>
      match child part cs with
      | None => below ← insert_file parts leaf []; Some (set_child part (TDir below) cs)
      | Some (TDir below) => below ← insert_file parts leaf below; Some (set_child part (TDir below) cs)
      | Some (TFile _ _) => None
      end
  end.

(** Go ranges over a map in any order: [shuffle] is the order of each directory *)
Section shuffle.
Context (shuffle : list (bytes * tree) -> list (bytes * tree)).
Fixpoint shuffle_tree (t : tree) : tree :=
  match t with
  | TFile m size => TFile m size
  | TDir cs => TDir (shuffle (map (λ c, (c.1, shuffle_tree c.2)) cs))
  end.
End shuffle.

Record StreamEntry := mkStreamEntry { se_Path : bytes; se_R : Reader }.
Section stream.
Context `{Multiformats, Protos, ObjectJSON} (alg : Z) (F : nat) {St : Type} `{Blockstore St, BatchStore St, MetaStore St}.
Context (pick : FileArgs -> pipe St -> choice) (workers : nat) (b : Builder) (shuffle : list (bytes * tree) -> list (bytes * tree)).

Definition panicM {A} (msg : string) : M St A := throw (panic msg).
(** the first loop: every file is stored and put into the tree *)
Fixpoint add_entries (entries : list StreamEntry) (cs : list (bytes * tree)) : M St (list (bytes * tree)) :=
  match entries with
  | [] => mret cs
  | e :: entries =>
      let parts := clean_parts (se_Path e) in
      match last parts with
      | None => add_entries entries cs
      | Some name =>
          res ← wrapM "memfs: add file" (Builder_AddFile alg F pick workers b name (se_R e) 420 zeroTime (SniffMime name));
          match insert_file parts (TFile (ar_MID res) (ar_Size res)) cs with
          | None => panicM "assignment to entry in nil map"
          | Some cs => add_entries entries cs
          end
      end
  end.
Definition tree_type (t : tree) : MemFSType := match t with TFile _ _ => TypeFile | TDir _ => TypeDir end.
(** the second pass, bottom up: the entries of a directory, then the directory *)
Definition build_entries (build : bytes -> tree -> M St (MID * Z * Z)) : list (bytes * tree) -> M St (list FSEntry) :=
  fix go cs :=
    match cs with
    | [] => mret []
    | c :: cs =>
        '(childMID, childSize, _) ← build c.1 c.2;
        es ← go cs;
        mret (mkFSEntry c.1 childMID (tree_type c.2) childSize :: es)
    end.
Fixpoint buildDir (name : bytes) (t : tree) : M St (MID * Z * Z) :=
  match t with
  | TFile m size => mret (m, size, 1)
  | TDir children =>
      dirEntries ← build_entries buildDir children;
      res ← AddDir alg name dirEntries 493 zeroTime;
      mret (ar_MID res, ar_Size res, ar_Block res)
  end.
Definition AddDirectoryStream (entries : list StreamEntry) : M St AddResult :=
  if bool_decide (length entries = 0%nat) then throw (New "memfs: no entries") else
  cs ← add_entries entries [];
  '(m, size, block) ← buildDir [] (shuffle_tree shuffle (TDir cs));
  mret (mkAddResult m size block).
End stream.


(** ** Walking a tree *)
Fixpoint tree_get (parts : list bytes) (t : tree) : option tree :=
  match parts, t with
  | [], _ => Some t
  | part :: parts, TDir cs => child part cs ≫= tree_get parts
  | _ :: _, TFile _ _ => None
  end.
(** the names of a directory are distinct, and text *)
Inductive tree_ok : tree -> Prop :=
  | file_ok m size : tree_ok (TFile m size)
  | dir_ok cs : NoDup (map fst cs) -> Forall (λ c : bytes * tree, Forall is_ascii c.1 /\ tree_ok c.2) cs -> tree_ok (TDir cs).
Fixpoint tree_induct (P : tree -> Prop) (Hf : forall m size, P (TFile m size))
    (Hd : forall cs, Forall (λ c, P c.2) cs -> P (TDir cs)) (t : tree) : P t :=
  match t with
  | TFile m size => Hf m size
  | TDir cs => Hd cs ((fix go (cs : list (bytes * tree)) : Forall (λ c, P c.2) cs :=
      match cs with
      | [] => List.Forall_nil (λ c : bytes * tree, P c.2)
      | c :: cs => List.Forall_cons (λ c : bytes * tree, P c.2) c cs (tree_induct P Hf Hd c.2) (go cs)
      end) cs)
  end.
Lemma tree_dir_inv cs : tree_ok (TDir cs) ->
  NoDup (map fst cs) /\ Forall (λ c : bytes * tree, Forall is_ascii c.1 /\ tree_ok c.2) cs.
Proof. by inversion 1. Qed.

Lemma empty_dir_ok : tree_ok (TDir []).
Proof. constructor; [apply NoDup_nil_2|constructor]. Qed.

Lemma child_Some (name : bytes) (cs : list (bytes * tree)) t : NoDup (map fst cs) -> child name cs = Some t <-> (name, t) ∈ cs.
Proof.
  intros Hnd. induction cs as [|[n c] cs IH]; cbn [child]; [by rewrite elem_of_nil|].
  apply NoDup_cons in Hnd as [Hn Hnd]. rewrite elem_of_cons. cbn [fst snd]. case_bool_decide as E; [subst n|].
  - split; [intros [= ->]; by left|]. intros [[= ->]|Hin]; [done|]. exfalso. apply Hn.
    apply list_elem_of_fmap. by exists (name, t).
  - rewrite IH by done. naive_solver.
Qed.
Lemma child_set (part name : bytes) t cs : child part (set_child name t cs) = if bool_decide (part = name) then Some t else child part cs.
Proof.
  induction cs as [|[n c] cs IH]; cbn [set_child child fst snd].
  { repeat case_bool_decide; congruence. }
  destruct (bool_decide_reflect (n = name)) as [->|]; cbn [child fst snd]; repeat case_bool_decide; congruence.
Qed.
Lemma set_child_ok name t cs : tree_ok (TDir cs) -> Forall is_ascii name -> tree_ok t -> tree_ok (TDir (set_child name t cs)).
Proof.
  intros [Hnd Hcs]%tree_dir_inv Hn Ht.
  assert (map fst (set_child name t cs) = if bool_decide (name ∈ map fst cs) then map fst cs else map fst cs ++ [name]) as Efst.
  { clear Hnd Hcs. induction cs as [|[n c] cs IH]; cbn [set_child map fst]; [done|].
    destruct (bool_decide_reflect (n = name)) as [->|]; cbn [map fst]; [by rewrite bool_decide_eq_true_2 by by left|].
    rewrite IH. repeat case_bool_decide; set_solver. }
  constructor.
  - rewrite Efst. case_bool_decide; [done|]. apply NoDup_app. split_and!; [done|set_solver|apply NoDup_singleton].
  - clear Efst Hnd. induction Hcs as [|[n c] cs [Ha Hc] Hcs IH]; cbn [set_child fst]; [by repeat constructor|].
    case_bool_decide; (constructor; [by split|done]).
Qed.
Lemma child_ok name cs t : tree_ok (TDir cs) -> child name cs = Some t -> tree_ok t.
Proof.
  intros [Hnd Hcs]%tree_dir_inv Hc%child_Some; [|done]. rewrite Forall_forall in Hcs. by apply (Hcs _ Hc).
Qed.
Lemma set_child_snd (P : tree -> Prop) name t cs : P t -> Forall (λ c : bytes * tree, P c.2) cs -> Forall (λ c : bytes * tree, P c.2) (set_child name t cs).
Proof. intros Ht. induction 1; cbn [set_child]; [by repeat constructor|]. case_bool_decide; by constructor. Qed.

(** ** What an insertion does to the tree *)
Lemma insert_file_ok parts leaf cs cs' : tree_ok (TDir cs) -> Forall (Forall is_ascii) parts -> tree_ok leaf ->
  insert_file parts leaf cs = Some cs' -> tree_ok (TDir cs').
Proof.
  intros Hcs Hp Hl. revert cs cs' Hcs. induction Hp as [|part parts Ha Hp IH]; intros cs cs' Hcs; [by intros [= <-]|].
  cbn [insert_file]. destruct parts as [|q parts]; [intros [= <-]; by apply set_child_ok|].
  destruct (child part cs) as [[m size|below]|] eqn:Ec; [done|..].
  - destruct (insert_file (q :: parts) leaf below) as [b|] eqn:E; [|done]. intros [= <-]. apply set_child_ok; [done|done|].
    apply (IH below b); [by eapply child_ok|done].
  - destruct (insert_file (q :: parts) leaf []) as [b|] eqn:E; [|done]. intros [= <-]. apply set_child_ok; [done|done|].
    by apply (IH [] b empty_dir_ok).
Qed.
Lemma insert_file_get parts leaf cs cs' : parts ≠ [] -> insert_file parts leaf cs = Some cs' -> tree_get parts (TDir cs') = Some leaf.
Proof.
  revert cs cs'. induction parts as [|part parts IH]; intros cs cs' Hne; [done|].
  cbn [insert_file tree_get]. destruct parts as [|q parts].
  { intros [= <-]. rewrite child_set, bool_decide_eq_true_2 by done. done. }
  destruct (child part cs) as [[m size|below]|] eqn:Ec; [done|..].
  - destruct (insert_file (q :: parts) leaf below) as [b|] eqn:E; [|done]. intros [= <-].
    rewrite child_set, bool_decide_eq_true_2 by done. cbn [mbind option_bind]. by apply (IH below).
  - destruct (insert_file (q :: parts) leaf []) as [b|] eqn:E; [|done]. intros [= <-].
    rewrite child_set, bool_decide_eq_true_2 by done. cbn [mbind option_bind]. by apply (IH []).
Qed.
(** the files that are not below the new one stay, and no other file appears *)
Lemma insert_file_other parts leaf cs cs' q m size : ~ parts `prefix_of` q -> insert_file parts leaf cs = Some cs' ->
  tree_get q (TDir cs') = Some (TFile m size) <-> tree_get q (TDir cs) = Some (TFile m size).
Proof.
  revert cs cs' q. induction parts as [|part parts IH]; intros cs cs' q Hq; [exfalso; apply Hq, prefix_nil|].
  destruct q as [|q0 q]; [done|]. cbn [insert_file tree_get].
  assert (q0 = part -> ~ parts `prefix_of` q) as Hq' by (intros -> Hp; apply Hq; by apply prefix_cons).
  destruct parts as [|p1 parts].
  { intros [= <-]. rewrite child_set. case_bool_decide as E; [|done]. exfalso. apply (Hq' E), prefix_nil. }
  destruct (child part cs) as [[m' size'|below]|] eqn:Ec; [done|..].
  - destruct (insert_file (p1 :: parts) leaf below) as [b|] eqn:E; [|done]. intros [= <-]. rewrite child_set.
    case_bool_decide as E0; [|done]. subst q0. rewrite Ec. cbn [mbind option_bind]. by apply IH; [apply Hq'|].
  - destruct (insert_file (p1 :: parts) leaf []) as [b|] eqn:E; [|done]. intros [= <-]. rewrite child_set.
    case_bool_decide as E0; [|done]. subst q0. rewrite Ec. cbn [mbind option_bind].
    rewrite (IH [] b q) by (done || by apply Hq'). split; [|done]. by destruct q.
Qed.
(** the only reason to fail is a file above the new one *)
Lemma insert_file_total parts leaf cs : (forall q m size, tree_get q (TDir cs) = Some (TFile m size) -> ~ (q `prefix_of` parts /\ q ≠ parts)) ->
  is_Some (insert_file parts leaf cs).
Proof.
  revert cs. induction parts as [|part parts IH]; intros cs Hcs; [by eexists|].
  cbn [insert_file]. destruct parts as [|p1 parts]; [by eexists|].
  destruct (child part cs) as [[m size|below]|] eqn:Ec.
  - exfalso. apply (Hcs [part] m size); [cbn [tree_get]; by rewrite Ec|]. split; [|done]. apply prefix_cons, prefix_nil.
  - destruct (IH below) as [b ->]; [|by eexists]. intros q m size Hq [Hp Hne]. apply (Hcs (part :: q) m size).
    + cbn [tree_get]. by rewrite Ec.
    + split; [by apply prefix_cons|]. by intros [= ->].
  - destruct (IH []) as [b ->]; [|by eexists]. intros q m size Hq. by destruct q.
Qed.
Lemma tree_get_app p q t : tree_get (p ++ q) t = tree_get p t ≫= tree_get q.
Proof.
  revert t. induction p as [|part p IH]; intros t; [done|]. cbn [app tree_get]. destruct t as [|cs]; [done|].
  destruct (child part cs); [apply IH|done].
Qed.
Lemma tree_get_nil q m size : tree_get q (TDir []) ≠ Some (TFile m size).
Proof. by destruct q. Qed.

(** the order of the maps changes no path *)
Section shuffle_facts.
Context (shuffle : list (bytes * tree) -> list (bytes * tree)) (Hshuffle : forall cs, shuffle cs ≡ₚ cs).
Lemma shuffled_names cs : map fst (shuffle (map (λ c, (c.1, shuffle_tree shuffle c.2)) cs)) ≡ₚ map fst cs.
Proof. rewrite Hshuffle, map_map. done. Qed.
Lemma shuffle_ok t : tree_ok t -> tree_ok (shuffle_tree shuffle t).
Proof.
  induction t as [m size|cs IH] using tree_induct; [done|]. intros [Hnd Hcs]%tree_dir_inv. cbn [shuffle_tree]. constructor.
  - by rewrite shuffled_names.
  - rewrite Hshuffle. apply Forall_fmap. rewrite Forall_forall in *. intros c Hc. destruct (Hcs c Hc). split; [done|]. by apply IH.
Qed.
Lemma shuffle_get q t : tree_ok t -> tree_get q (shuffle_tree shuffle t) = shuffle_tree shuffle <$> tree_get q t.
Proof.
  revert t. induction q as [|part q IH]; intros t Ht; [done|]. destruct t as [m size|cs]; [done|].
  pose proof (shuffle_ok _ Ht) as Hs. cbn [shuffle_tree tree_get] in *. apply tree_dir_inv in Hs as [Hnd _].
  destruct (child part cs) as [t|] eqn:Ec.
  - pose proof (child_ok _ _ _ Ht Ec) as Ht'. apply tree_dir_inv in Ht as [Hnd' _]. apply child_Some in Ec; [|done].
    assert (child part (shuffle (map (λ c, (c.1, shuffle_tree shuffle c.2)) cs)) = Some (shuffle_tree shuffle t)) as ->.
    { apply child_Some; [done|]. rewrite Hshuffle. apply list_elem_of_fmap. by exists (part, t). }
    cbn [mbind option_bind]. by apply IH.
  - cbn [mbind option_bind]. destruct (child part (shuffle _)) as [t'|] eqn:Es; [|done]. exfalso.
    apply child_Some in Es; [|done]. rewrite Hshuffle in Es. apply list_elem_of_fmap in Es as ([n t] & [= -> ->] & Hin).
    apply tree_dir_inv in Ht as [Hnd' _]. apply (child_Some _ _ _ Hnd') in Hin. cbn [fst] in Ec. congruence.
Qed.
End shuffle_facts.

(** ** The elements of a path are text *)
Lemma foldl_Forall {A B} (P : B -> Prop) (Q : A -> Prop) (f : A -> B -> A) a l :
  Q a -> Forall P l -> (forall a b, Q a -> P b -> Q (f a b)) -> Q (foldl f a l).
Proof. intros Ha Hl Hf. revert a Ha. induction Hl as [|b l Hb _ IH]; intros a Ha; [done|]. cbn [foldl]. apply IH. by apply Hf. Qed.
Lemma split_slash_ascii (p seg : bytes) : Forall is_ascii p -> Forall is_ascii seg -> Forall (Forall is_ascii) (split_slash seg p).
Proof.
  intros Hp. revert seg. induction Hp as [|c p Hc _ IH]; intros seg Hseg; cbn [split_slash]; [by repeat constructor|].
  case_bool_decide; [constructor; [done|]; apply IH; constructor|]. apply IH. apply Forall_app. by repeat constructor.
Qed.
Lemma clean_step_ascii acc seg : Forall (Forall is_ascii) acc -> Forall is_ascii seg -> Forall (Forall is_ascii) (clean_step acc seg).
Proof.
  intros Hacc Hs. unfold clean_step. destruct (_ || _); [done|]. case_bool_decide.
  - destruct acc as [|y acc _] using rev_ind; [done|]. rewrite removelast_last. by apply Forall_app in Hacc as [? _].
  - apply Forall_app. by repeat constructor.
Qed.
Lemma clean_parts_ascii p : Forall is_ascii p -> Forall (Forall is_ascii) (clean_parts p).
Proof.
  intros Hp. assert (Forall is_ascii (ReplaceBackslash p)) as Hr.
  { unfold ReplaceBackslash. apply Forall_fmap. eapply Forall_impl; [exact Hp|]. intros c Hc. cbn. by case_bool_decide. }
  pose proof (split_slash_ascii _ [] Hr ltac:(constructor)) as Hl. unfold clean_parts.
  apply (foldl_Forall (Forall is_ascii) (Forall (Forall is_ascii))); [constructor|done|]. apply clean_step_ascii.
Qed.
Lemma SniffMime_ascii name : Forall is_ascii (SniffMime name).
Proof.
  unfold SniffMime. case_bool_decide; [by repeat constructor|].
  destruct (list_find _ mime_table) as [[i [e t]]|] eqn:E; [|by repeat constructor].
  apply list_find_Some in E as (Hi & _). assert (Forall (λ x : string * string, Forall is_ascii (lit x.2)) mime_table) as Ht.
  { repeat constructor. }
  rewrite Forall_forall in Ht. apply (Ht (e, t)). by eapply list_elem_of_lookup_2.
Qed.

(** ** A tree in the store *)
Section store.
Context `{Multiformats} `{!MultiformatsLaws} `{!BinaryMultihash} `{Protos} `{!ProtosLaws} `{!NodeBytes} `{ObjectJSON}.
Context (alg : Z) (Halg : isSupportedHash alg = true) (F : nat) (HF : (1 < F)%nat).
Context {St : Type} `{Blockstore St} `{BatchStore St} `{MetaStore St} (inv : St -> Prop) `{!FileStoreLaws St alg inv}.
Implicit Types s : St.

Inductive tree_at s : tree -> MID -> Prop :=
  | at_file m size c : file_at alg s m c -> tree_at s (TFile m size) m
  | at_dir cs es m : dir_at alg s m es ->
      Forall2 (λ (c : bytes * tree) e, fe_Name e = c.1 /\ tree_at s c.2 (fe_Mid e)) cs es -> tree_at s (TDir cs) m.
Definition entry_at s (c : bytes * tree) (e : FSEntry) : Prop := fe_Name e = c.1 /\ tree_at s c.2 (fe_Mid e).
(** the files of the tree are in the store *)
Definition files_at s (t : tree) : Prop := forall q m size, tree_get q t = Some (TFile m size) -> exists c, file_at alg s m c.

Lemma tree_at_keeps s s' t m : keeps alg s s' -> tree_at s t m -> tree_at s' t m.
Proof.
  intros Hk. revert m. induction t as [m' size|cs IH] using tree_induct; intros m Hm; inversion Hm as [? ? c Hf|? es ? Hd Hes]; subst; clear Hm.
  - econstructor. by eapply file_at_keeps.
  - econstructor; [by eapply dir_at_keeps|]. clear Hd. revert IH.
    induction Hes as [|c e cs es [Hn Ht] _ IHes]; intros IH; constructor.
    + apply Forall_cons in IH as [IH _]. split; [done|]. by apply IH.
    + apply IHes. by apply Forall_cons in IH as [_ IH].
Qed.
Lemma tree_at_mid s t m : tree_at s t m -> wf_mid m /\ codec m = CodecMemFS.
Proof.
  inversion 1 as [? ? c Hf|? es ? (pb & Hn & _) Hes]; subst; [by eapply file_at_mid|by eapply node_at_wf].
Qed.
Lemma files_at_keeps s s' t : keeps alg s s' -> files_at s t -> files_at s' t.
Proof. intros Hk Hf q m size Hq. destruct (Hf q m size Hq) as [c Hc]. exists c. by eapply file_at_keeps. Qed.
Lemma files_at_child s cs c : NoDup (map fst cs) -> files_at s (TDir cs) -> c ∈ cs -> files_at s c.2.
Proof.
  intros Hnd Hf Hc q m size Hq. apply (Hf (c.1 :: q) m size). cbn [tree_get].
  rewrite (proj2 (child_Some c.1 cs c.2 Hnd)) by by destruct c. done.
Qed.

(** the two passes over a directory leave the tree in the store *)
Lemma build_entries_ends cs s :
  Forall (λ c : bytes * tree, forall s, inv s -> files_at s c.2 ->
    ends alg inv (buildDir alg c.1 c.2) s (λ r s', tree_at s' c.2 r.1.1)) cs ->
  inv s -> Forall (λ c : bytes * tree, files_at s c.2) cs ->
  ends alg inv (build_entries (buildDir alg) cs) s (λ es s', Forall2 (entry_at s') cs es).
Proof.
  intros Hb. revert s. induction Hb as [|c cs Hb _ IH]; intros s Hs Hf; cbn [build_entries]; [by apply ends_ret|].
  apply Forall_cons in Hf as [Hc Hf]. eapply ends_bind; [by apply Hb|]. intros [[m size] block] s1 [Hs1 Hk1] Ht. cbn [fst] in Ht.
  eapply ends_bind; [apply IH; [done|]; eapply Forall_impl; [exact Hf|]; intros ?; by apply files_at_keeps|].
  intros es s2 [Hs2 Hk2] Hes. apply ends_ret; [done|]. constructor; [|done]. split; [done|]. by eapply tree_at_keeps.
Qed.
Lemma buildDir_ends t : tree_ok t -> forall name s, inv s -> files_at s t ->
  ends alg inv (buildDir alg name t) s (λ r s', tree_at s' t r.1.1).
Proof.
  induction t as [m size|cs IH] using tree_induct; intros Ht name s Hs Hf; cbn [buildDir].
  { apply ends_ret; [done|]. destruct (Hf [] m size eq_refl) as [c Hc]. by econstructor. }
  apply tree_dir_inv in Ht as [Hnd Hok]. eapply ends_bind.
  { apply (build_entries_ends cs s); [|done|].
    - rewrite Forall_forall in *. intros c Hc s1 Hs1 Hf1. apply IH; [done|by apply Hok|done|done].
    - apply Forall_forall. intros c Hc. by eapply files_at_child. }
  intros es s1 [Hs1 Hk1] Hes. eapply ends_bind.
  { apply (AddDir_ends alg Halg inv name es 493 zeroTime s1 Hs1). clear -Hes Hok.
    induction Hes as [|c e cs es [Hn _] _ IH]; [done|]. apply Forall_cons in Hok as [[Ha _] Hok].
    constructor; [by rewrite Hn|by apply IH]. }
  intros res s2 [Hs2 Hk2] (Hd & _). apply ends_ret; [done|]. econstructor; [exact Hd|].
  eapply Forall2_impl; [exact Hes|]. intros c e [Hn Hc]. split; [done|]. by eapply tree_at_keeps.
Qed.

(** ** Resolving a path *)
Lemma find_entry_in e es : NoDup (map fe_Name es) -> e ∈ es -> find_entry (fe_Name e) es = Some e.
Proof.
  intros Hnd He. unfold find_entry. apply list_elem_of_lookup in He as [i Hi].
  replace (list_find (λ e0, fe_Name e0 = fe_Name e) es) with (Some (i, e)); [done|]. symmetry. apply list_find_Some.
  split_and!; [done|done|]. intros j e' Hj Hlt Hn. enough (j = i) by lia.
  eapply (NoDup_lookup (map fe_Name es)); [done|..]; apply list_lookup_fmap_Some; eauto.
Qed.
Lemma tree_at_node s t m : tree_at s t m -> exists pb, Resolve (λ m, bs_Get m s) m = Ok pb /\
  match t with
  | TFile _ _ => True
  | TDir cs => IsDir pb = true /\ exists es, Forall2 (entry_at s) cs es /\ EntriesValue pb = sortDirEntries es
  end.
Proof.
  inversion 1 as [m' size c Hf|cs es m' (pb & Hn & Hty & Hes) Hall]; subst.
  - destruct Hf as (level & ch & dss & pb & Hn & Hty & _). exists pb. split; [|done].
    apply (Resolve_node alg Halg s pb m Hn). by rewrite Hty.
  - exists pb. split; [apply (Resolve_node alg Halg s pb m Hn); by rewrite Hty|]. unfold IsDir. rewrite Hty. split; [done|].
    exists es. split; [done|]. unfold EntriesValue. rewrite Hes, map_map.
    assert (Forall (λ e, entry_value (entry_proto e) = e) (sortDirEntries es)) as Hv.
    { rewrite sortDirEntries_perm. apply Forall_forall. intros e [i Hi]%list_elem_of_lookup.
      destruct (Forall2_lookup_r _ _ _ _ _ Hall Hi) as (c & _ & _ & Ht). apply tree_at_mid in Ht as [? ?]. by apply entry_value_of. }
    clear -Hv. induction Hv as [|e l He _ IH]; [done|]. cbn [map]. by rewrite He, IH.
Qed.
(** walking the nodes is walking the tree *)
Lemma tree_resolves s q : forall t m t', tree_ok t -> tree_at s t m -> tree_get q t = Some t' ->
  exists pb m', Resolve (λ m, bs_Get m s) m = Ok pb /\ tree_at s t' m' /\
    resolve_segs (λ m, bs_Get m s) pb q = Resolve (λ m, bs_Get m s) m'.
Proof.
  induction q as [|part q IH]; intros t m t' Hok Ht Hq; destruct (tree_at_node s t m Ht) as (pb & Hpb & Hdir).
  { injection Hq as <-. exists pb, m. done. }
  destruct t as [|cs]; [done|]. cbn [tree_get] in Hq. destruct (child part cs) as [t1|] eqn:Ec; [|done].
  destruct Hdir as (Hd & es & Hes & Ev). pose proof (child_ok _ _ _ Hok Ec) as Hok1.
  apply tree_dir_inv in Hok as [Hnd _]. apply child_Some in Ec; [|done].
  assert (map fe_Name es = map fst cs) as En by (clear -Hes; induction Hes as [|c e cs es [Hn _] _ IHe]; [done|]; cbn [map]; by rewrite Hn, IHe).
  assert (exists e, e ∈ es /\ entry_at s (part, t1) e) as (e & He & Hname & Ht1).
  { apply list_elem_of_lookup in Ec as [i Hi]. destruct (Forall2_lookup_l _ _ _ _ _ Hes Hi) as (e & Hei & Hent).
    exists e. split; [by eapply list_elem_of_lookup_2|done]. }
  destruct (IH t1 (fe_Mid e) t' Hok1 Ht1 Hq) as (pb1 & m' & E1 & Ht' & E2). exists pb, m'. split_and!; [done|done|].
  cbn [resolve_segs]. rewrite Hd, Ev. cbn [negb]. cbn [fst] in Hname. rewrite <-Hname, find_entry_in.
  - rewrite E1. cbn [wrap mbind result_bind]. exact E2.
  - rewrite sortDirEntries_perm, En. done.
  - by rewrite sortDirEntries_perm.
Qed.
(** and what is found is in the tree *)
Lemma tree_resolves_inv s q node : forall t m pb, tree_ok t -> tree_at s t m -> Resolve (λ m, bs_Get m s) m = Ok pb ->
  resolve_segs (λ m, bs_Get m s) pb q = Ok node ->
  exists t' m', tree_get q t = Some t' /\ tree_at s t' m' /\ Resolve (λ m, bs_Get m s) m' = Ok node.
Proof.
  induction q as [|part q IH]; intros t m pb Hok Ht Hpb Hq; cbn [resolve_segs] in Hq.
  { injection Hq as <-. by exists t, m. }
  destruct (tree_at_node s t m Ht) as (pb' & Hpb' & Hdir). assert (pb' = pb) as -> by congruence.
  destruct (IsDir pb) eqn:Ed; [|done]. cbn [negb] in Hq. destruct t as [m1 size|cs].
  { exfalso. inversion Ht as [? ? c Hf|]; subst. destruct Hf as (level & ch & dss & pb2 & Hn & Hty & _).
    rewrite (Resolve_node alg Halg s pb2 m Hn) in Hpb by by rewrite Hty. injection Hpb as <-. unfold IsDir in Ed. by rewrite Hty in Ed. }
  destruct Hdir as (_ & es & Hes & Ev). destruct (find_entry part (EntriesValue pb)) as [found|] eqn:Ef; [|done].
  unfold find_entry in Ef. apply fmap_Some in Ef as ([i e] & Ef & ->). apply list_find_Some in Ef as (Hi & Hn & _). cbn [snd] in *.
  rewrite Ev in Hi. apply list_elem_of_lookup_2 in Hi. rewrite sortDirEntries_perm in Hi. apply list_elem_of_lookup in Hi as [k Hk].
  destruct (Forall2_lookup_r _ _ _ _ _ Hes Hk) as (c & Hc & Hname & Htc).
  destruct (Resolve _ (fe_Mid e)) as [pb1|] eqn:Er; [|done]. cbn [wrap mbind result_bind] in Hq.
  assert (child part cs = Some c.2) as Hch.
  { apply tree_dir_inv in Hok as [Hnd _]. apply child_Some; [done|]. apply list_elem_of_lookup_2 in Hc. rewrite <-Hn, Hname. by destruct c. }
  destruct (IH c.2 (fe_Mid e) pb1 (child_ok _ _ _ Hok Hch) Htc Er Hq) as (t' & m' & Hg & Ht' & Hr).
  exists t', m'. cbn [tree_get]. by rewrite Hch.
Qed.

(** ** The files of the stream *)
Definition src_bytes (e : StreamEntry) : bytes := (content (se_R e)).1.
Definition src_parts (e : StreamEntry) : list bytes := clean_parts (se_Path e).
(** a source that ends in EOF, with a name that is text *)
Definition src_ok (e : StreamEntry) : Prop :=
  Forall is_ascii (se_Path e) /\ errors_is (content (se_R e)).2 EOF = true /\ zlen (src_bytes e) < 2 ^ 63.
(** no later entry has the path of the [i]-th or one above it *)
Definition survives (entries : list StreamEntry) (i : nat) (e : StreamEntry) : Prop := forall j e', (i < j)%nat ->
  entries !! j = Some e' -> src_parts e' ≠ [] -> ~ src_parts e' `prefix_of` src_parts e.
(** no entry lies below an earlier file *)
Definition no_conflict (entries : list StreamEntry) : Prop := forall i j e e', (i < j)%nat ->
  entries !! i = Some e -> entries !! j = Some e' -> src_parts e ≠ [] -> src_parts e `prefix_of` src_parts e' -> src_parts e = src_parts e'.

Record tree_inv s (seen : list StreamEntry) (cs : list (bytes * tree)) : Prop := {
  ti_ok : tree_ok (TDir cs);
  ti_from q m size : tree_get q (TDir cs) = Some (TFile m size) ->
    exists e, e ∈ seen /\ src_parts e = q /\ file_at alg s m (src_bytes e);
  ti_last i e : seen !! i = Some e -> src_parts e ≠ [] -> survives seen i e ->
    exists m size, tree_get (src_parts e) (TDir cs) = Some (TFile m size) /\ file_at alg s m (src_bytes e);
}.
Lemma tree_inv_start s : tree_inv s [] [].
Proof. split; [apply empty_dir_ok|by intros q m size ?%tree_get_nil|done]. Qed.
Lemma survives_app seen e i e1 : survives (seen ++ [e]) i e1 -> (i < length seen)%nat ->
  survives seen i e1 /\ (src_parts e ≠ [] -> ~ src_parts e `prefix_of` src_parts e1).
Proof.
  intros Hsv Hi. split.
  - intros j e' Hj He'. apply (Hsv j e' Hj). by apply lookup_app_l_Some.
  - apply (Hsv (length seen) e Hi). by apply list_lookup_middle.
Qed.
Lemma tree_inv_skip s seen e cs : src_parts e = [] -> tree_inv s seen cs -> tree_inv s (seen ++ [e]) cs.
Proof.
  intros He [Hok Hf Hl]. split; [done|..].
  - intros q m size Hq. destruct (Hf q m size Hq) as (e1 & ? & ?). exists e1. set_solver.
  - intros i e1 [Hi|[Hi Hx]]%lookup_app_Some Hne Hsv.
    + apply (Hl i); [done|done|]. apply (survives_app seen e); [done|by eapply lookup_lt_Some].
    + apply list_lookup_singleton_Some in Hx as [_ ->]. done.
Qed.
Lemma tree_inv_add s s' seen e cs cs' m size : tree_inv s seen cs -> keeps alg s s' -> src_parts e ≠ [] ->
  Forall (Forall is_ascii) (src_parts e) -> file_at alg s' m (src_bytes e) ->
  insert_file (src_parts e) (TFile m size) cs = Some cs' -> tree_inv s' (seen ++ [e]) cs'.
Proof.
  intros [Hok Hf Hl] Hk Hne Ha Hm Hins. split.
  - apply (insert_file_ok (src_parts e) (TFile m size) cs); [done|done|constructor|done].
  - intros q m1 size1 Hq. destruct (decide (src_parts e `prefix_of` q)) as [[r ->]|Hn].
    + rewrite tree_get_app, (insert_file_get _ _ _ _ Hne Hins) in Hq. destruct r; [|done]. injection Hq as <- <-.
      exists e. rewrite app_nil_r. set_solver.
    + apply (insert_file_other _ _ _ _ _ _ _ Hn Hins) in Hq. destruct (Hf _ _ _ Hq) as (e1 & ? & ? & ?).
      exists e1. split_and!; [set_solver|done|by eapply file_at_keeps].
  - intros i e1 Hi Hne1 Hsv. apply lookup_app_Some in Hi as [Hi|[Hi Hx]].
    + destruct (survives_app seen e i e1 Hsv) as [Hs1 Hn]; [by eapply lookup_lt_Some|].
      destruct (Hl i e1 Hi Hne1 Hs1) as (m1 & size1 & Hq & Hf1). exists m1, size1.
      split; [|by eapply file_at_keeps]. apply (insert_file_other _ _ _ _ _ _ _ (Hn Hne) Hins). done.
    + apply list_lookup_singleton_Some in Hx as [_ <-]. exists m, size. split; [|done]. by eapply insert_file_get.
Qed.

Lemma ends_wrap {A} msg (m : M St A) s post : ends alg inv m s post -> ends alg inv (wrapM msg m) s post.
Proof.
  intros (r & s1 & E & Hg & Hr). unfold ends, wrapM. rewrite E. exists (wrap msg r), s1. split_and!; [done|apply Hg..|].
  destruct Hr as [(x & -> & Hx)|[[e ->] Hf]]; [left; by exists x|right; split; [by eexists|done]].
Qed.

Context (pick : FileArgs -> pipe St -> choice) (Hpick : forall a, busy alg F a (pick a)) (workers : nat).
Context (b : Builder) (Hb : builder_ok b).

Lemma stored_file name e s : inv s -> src_ok e ->
  ends alg inv (Builder_AddFile alg F pick workers b name (se_R e) 420 zeroTime (SniffMime name)) s
    (λ res s', file_at alg s' (ar_MID res) (src_bytes e)).
Proof.
  intros Hs (_ & He & Hlen). unfold src_bytes in *. destruct (content (se_R e)) as [bs er] eqn:Ec. cbn [fst snd] in *.
  destruct (Builder_AddFile_spec alg Halg F HF inv pick Hpick workers b name (se_R e) 420 zeroTime (SniffMime name) bs er s)
    as (x & s' & E & Hg & Hx); [done|done|apply SniffMime_ascii|done..|]. exists x, s'. split_and!; [done|apply Hg..|].
  destruct Hx as [(res & -> & _ & Hf & _)|Hx]; [left; by exists res|by right].
Qed.
Lemma no_conflict_insert s seen e entries cs m size : no_conflict (seen ++ e :: entries) -> tree_inv s seen cs ->
  is_Some (insert_file (src_parts e) (TFile m size) cs).
Proof.
  intros Hnc [_ Hf _]. apply insert_file_total. intros q m1 size1 Hq [Hpre Hne].
  destruct (Hf q m1 size1 Hq) as (e1 & [i Hi]%list_elem_of_lookup & <- & _). apply Hne.
  apply (Hnc i (length seen) e1 e); [by eapply lookup_lt_Some|by apply lookup_app_l_Some|by apply list_lookup_middle| |done].
  intros E0. rewrite E0 in Hq. by destruct cs.
Qed.
Lemma add_entries_ends entries : forall seen cs s, no_conflict (seen ++ entries) -> Forall src_ok entries ->
  inv s -> tree_inv s seen cs ->
  ends alg inv (add_entries alg F pick workers b entries cs) s (λ cs' s', tree_inv s' (seen ++ entries) cs').
Proof.
  induction entries as [|e entries IH]; intros seen cs s Hnc Hok Hs Hinv; cbn [add_entries].
  { apply ends_ret; [done|]. by rewrite app_nil_r. }
  apply Forall_cons in Hok as [He Hok]. replace (seen ++ e :: entries) with ((seen ++ [e]) ++ entries) in * by by rewrite <-app_assoc.
  fold (src_parts e). destruct (last (src_parts e)) as [name|] eqn:El.
  2:{ apply last_None in El. apply IH; [done..|]. by apply tree_inv_skip. }
  assert (src_parts e ≠ []) as Hne by (intros E0; by rewrite E0 in El).
  eapply ends_bind; [apply ends_wrap; by apply stored_file|]. intros res s1 [Hs1 Hk1] Hf. cbv beta in Hf.
  destruct (no_conflict_insert s seen e entries cs (ar_MID res) (ar_Size res)) as [cs' Ei]; [by rewrite <-app_assoc in Hnc|done|].
  rewrite Ei. apply IH; [done..|]. eapply tree_inv_add; [done..| |done|exact Ei]. apply clean_parts_ascii, He.
Qed.
End store.

(** ** The result the sources determine *)
Section reference.
Context `{Multiformats, Protos, ObjectJSON} (alg : Z) (F : nat) (b : Builder).
Fixpoint entries_ref (entries : list StreamEntry) (cs : list (bytes * tree)) : result (list (bytes * tree)) :=
  match entries with
  | [] => Ok cs
  | e :: entries =>
      match last (src_parts e) with
      | None => entries_ref entries cs
      | Some name =>
          res ← file_of alg F (mkFileArgs name 420 zeroTime (SniffMime name) (bd_blk b)) (chunk_cut b (src_bytes e));
          match insert_file (src_parts e) (TFile (ar_MID res) (ar_Size res)) cs with
          | None => Err (panic "assignment to entry in nil map")
          | Some cs => entries_ref entries cs
          end
      end
  end.
Definition dir_ref (name : bytes) (t : tree) : result (MID * Z * Z) :=
  (buildDir (St := unit) (H2 := null_blocks) (H4 := null_meta) alg name t tt).1.
(** the stream without a store, a scheduler or an order of the maps *)
Definition stream_ref (entries : list StreamEntry) : result AddResult :=
  cs ← entries_ref entries []; '(m, size, block) ← dir_ref [] (TDir cs); Ok (mkAddResult m size block).
End reference.

Section reference_facts.
#[local] Existing Instance null_blocks.
#[local] Existing Instance null_meta.
Context `{Multiformats, Protos, ObjectJSON} (alg : Z).
(** what [buildDir] computes, over no store *)
Inductive built : bytes -> tree -> MID * Z * Z -> Prop :=
  | built_file name m size : built name (TFile m size) (m, size, 1)
  | built_dir name cs es res :
      Forall2 (λ (c : bytes * tree) e, exists r, built c.1 c.2 r /\ e = mkFSEntry c.1 r.1.1 (tree_type c.2) r.1.2) cs es ->
      AddDir (St := unit) alg name es 493 zeroTime tt = (Ok res, tt) -> built name (TDir cs) (ar_MID res, ar_Size res, ar_Block res).
Definition built_entry (c : bytes * tree) (e : FSEntry) : Prop :=
  exists r, built c.1 c.2 r /\ e = mkFSEntry c.1 r.1.1 (tree_type c.2) r.1.2.

Lemma AddDir_agrees {St} `{Blockstore St, MetaStore St} name es mode mtime :
  agrees (AddDir (St := St) alg name es mode mtime) (AddDir alg name es mode mtime).
Proof.
  unfold AddDir. cbv zeta. apply agrees_bind; [apply put_node_agrees|intros m].
  apply agrees_bind; [apply set_info_agrees|intros ?; apply agrees_ret].
Qed.
Lemma buildDir_built {St} `{Blockstore St, MetaStore St} t : forall name (s : St) r s',
  buildDir alg name t s = (Ok r, s') -> built name t r.
Proof.
  induction t as [m size|cs IH] using tree_induct; intros name s r s'; cbn [buildDir]; [intros [= <- <-]; constructor|].
  intros (es & s1 & E1 & (res & s2 & E2 & [= <- <-])%M_bind_inv)%M_bind_inv.
  econstructor; [|by eapply AddDir_agrees]. clear E2 s2. revert s s1 es E1.
  induction IH as [|c cs Hc _ IHcs]; intros s s1 es; cbn [build_entries]; [intros [= <- <-]; constructor|].
  intros ([[m size] block] & s2 & E1 & (es' & s3 & E2 & [= <- <-])%M_bind_inv)%M_bind_inv.
  constructor; [|by eapply IHcs]. exists (m, size, block). split; [by eapply Hc|done].
Qed.
Lemma built_shuffle shuffle t : (forall cs, shuffle cs ≡ₚ cs) -> tree_ok t -> forall name r,
  built name (shuffle_tree shuffle t) r -> built name t r.
Proof.
  intros Hsh. induction t as [m size|cs IH] using tree_induct; intros Ht name r; [done|]. cbn [shuffle_tree].
  inversion 1 as [|? ? es res Hes Hd]; subst.
  destruct (Permutation_Forall2 (Hsh _) Hes) as (es' & Hp & Hes').
  assert (NoDup (map fe_Name es')) as Hnd.
  { apply tree_dir_inv in Ht as [Hnd _]. replace (map fe_Name es') with (map fst cs); [done|]. clear -Hes'. revert es' Hes'.
    induction cs as [|c cs IHc]; intros es'; inversion 1 as [|? ? ? ? (r & _ & ->) Hl]; subst; [done|]. cbn [map fe_Name]. f_equal. by apply IHc. }
  rewrite (AddDir_perm alg name es es') in Hd by (done || by rewrite Hp).
  econstructor; [|exact Hd]. apply tree_dir_inv in Ht as [_ Hok]. clear -IH Hes' Hok. revert es' Hes'.
  induction cs as [|c cs IHc]; intros es'; inversion 1 as [|? ? ? ? (r & Hr & ->) Hl]; subst; [constructor|].
  apply Forall_cons in IH as [Hc IH]. apply Forall_cons in Hok as [[_ Hokc] Hok]. constructor; [|by apply IHc].
  exists r. split; [by apply Hc|]. by destruct c as [? []].
Qed.
Lemma built_ref name t r : built name t r -> buildDir (St := unit) alg name t tt = (Ok r, tt).
Proof.
  revert name r. induction t as [m size|cs IH] using tree_induct; intros name r; inversion 1 as [|? ? es res Hes Hd]; subst; [done|].
  cbn [buildDir]. assert (build_entries (buildDir alg) cs tt = (Ok es, tt)) as E.
  { clear -IH Hes. induction Hes as [|c e cs es (r & Hr & ->) _ IHes]; [done|]. apply Forall_cons in IH as [Hc IH].
    cbn [build_entries]. rewrite (M_bind_Ok _ _ _ _ _ (Hc _ _ Hr)). destruct r as [[m size] block].
    by rewrite (M_bind_Ok _ _ _ _ _ (IHes IH)). }
  by rewrite (M_bind_Ok _ _ _ _ _ E), (M_bind_Ok _ _ _ _ _ Hd).
Qed.
End reference_facts.

(** ** Properties *)
Section properties.
Context `{Multiformats} `{!MultiformatsLaws} `{!BinaryMultihash} `{Protos} `{!ProtosLaws} `{!NodeBytes} `{ObjectJSON}.
Context (alg : Z) (Halg : isSupportedHash alg = true) (F : nat) (HF : (1 < F)%nat).
Context {St : Type} `{Blockstore St} `{BatchStore St} `{MetaStore St} (inv : St -> Prop) `{!FileStoreLaws St alg inv}.

(** the first pass computes what the sources determine *)
Lemma add_entries_ref pick workers b entries : (forall a, busy alg F a (pick a)) -> builder_ok b -> Forall src_ok entries ->
  forall cs s cs' s', inv s -> tree_ok (TDir cs) -> add_entries alg F pick workers b entries cs s = (Ok cs', s') ->
  entries_ref alg F b entries cs = Ok cs' /\ tree_ok (TDir cs').
Proof.
  intros Hpick Hb. induction 1 as [|e entries He _ IH]; intros cs s cs' s' Hs Ht; cbn [add_entries entries_ref]; [by intros [= <- _]|].
  fold (src_parts e). destruct (last (src_parts e)) as [name|] eqn:El; [|by apply IH].
  unfold wrapM, mbind, M_bind, result_bind.
  destruct He as (Ha & He & Hlen). unfold src_bytes in *. destruct (content (se_R e)) as [bs er] eqn:Ec. cbn [fst snd] in *.
  destruct (Builder_AddFile_spec alg Halg F HF inv pick Hpick workers b name (se_R e) 420 zeroTime (SniffMime name) bs er s)
    as (x & s1 & -> & [Hs1 _] & Hx); [done|done|apply SniffMime_ascii|done..|].
  destruct Hx as [(res & -> & -> & _)|[[err ->] _]]; cbn [wrap]; [|done].
  destruct (insert_file (src_parts e) _ cs) as [cs1|] eqn:Ei; [|done]. apply IH; [done|].
  eapply insert_file_ok; [exact Ht|by apply clean_parts_ascii|constructor|exact Ei].
Qed.

(** what a success leaves: a tree of the store whose files are those of the stream *)
Lemma AddDirectoryStream_tree pick workers b shuffle entries s :
  (forall a, busy alg F a (pick a)) -> builder_ok b -> (forall cs, shuffle cs ≡ₚ cs) ->
  entries ≠ [] -> Forall src_ok entries -> no_conflict entries -> inv s ->
  ends alg inv (AddDirectoryStream alg F pick workers b shuffle entries) s (λ res s', exists t,
    tree_ok t /\ tree_at alg s' t (ar_MID res) /\ files_at alg s' t /\ (exists cs, t = TDir cs) /\
    forall i e, entries !! i = Some e -> src_parts e ≠ [] -> survives entries i e ->
      exists m size, tree_get (src_parts e) t = Some (TFile m size) /\ file_at alg s' m (src_bytes e)).
Proof.
  intros Hpick Hb Hsh Hne Hok Hnc Hs. unfold AddDirectoryStream.
  rewrite bool_decide_eq_false_2 by by destruct entries. eapply ends_bind.
  { apply (add_entries_ends alg Halg F HF inv pick Hpick workers b Hb entries [] [] s Hnc Hok Hs). apply tree_inv_start. }
  intros cs s1 [Hs1 _] [Htree Hfrom Hlast]. cbn [app] in Hfrom, Hlast. pose proof (shuffle_ok shuffle Hsh _ Htree) as Htree'.
  assert (files_at alg s1 (shuffle_tree shuffle (TDir cs))) as Hfiles.
  { intros q m size Hq. rewrite shuffle_get in Hq by done. apply fmap_Some in Hq as ([m' size'|] & Hq & [= <- <-]).
    destruct (Hfrom _ _ _ Hq) as (e & _ & _ & Hf). by eexists. }
  eapply ends_bind; [by apply (buildDir_ends alg Halg F HF inv _ Htree' [] s1 Hs1)|].
  intros [[m size] block] s2 [Hs2 Hk2] Hroot. cbn [fst] in Hroot. apply ends_ret; [done|]. cbn [ar_MID].
  exists (shuffle_tree shuffle (TDir cs)). split_and!; [done|done|by apply (files_at_keeps alg Halg F HF s1 s2)|by eexists|].
  intros i e Hi Hparts Hsv. destruct (Hlast i e Hi Hparts Hsv) as (m1 & size1 & Hq & Hf). exists m1, size1.
  split; [by rewrite shuffle_get, Hq by done|]. by apply (file_at_keeps alg Halg F HF s1 s2).
Qed.


(** the result of [AddDirectoryStream] depends on the sources alone: whatever the block
    store holds, however the goroutines of the files are scheduled and in whatever order Go
    ranges over the maps of children, a success returns the root MID that the chunks of the
    files, their cleaned paths and the sorted directories determine. *)
Theorem AddDirectoryStream_reference pick workers b shuffle entries s res s' :
  (forall a, busy alg F a (pick a)) -> builder_ok b -> (forall cs, shuffle cs ≡ₚ cs) -> Forall src_ok entries -> inv s ->
  AddDirectoryStream alg F pick workers b shuffle entries s = (Ok res, s') -> stream_ref alg F b entries = Ok res.
Proof.
  intros Hpick Hb Hsh Hok Hs. unfold AddDirectoryStream, stream_ref. case_bool_decide; [done|].
  intros (cs & s1 & E1 & ([[m size] block] & s2 & E2 & [= <- <-])%M_bind_inv)%M_bind_inv.
  destruct (add_entries_ref pick workers b entries Hpick Hb Hok [] s cs s1 Hs empty_dir_ok E1) as [-> Ht].
  cbn [mbind result_bind]. unfold dir_ref. apply buildDir_built in E2.
  by rewrite (built_ref alg [] (TDir cs) (m, size, block) (built_shuffle alg shuffle (TDir cs) Hsh Ht [] _ E2)).
Qed.
End properties.

(** ** Witnesses: five sources, two of them with the same path *)
Section demo.
#[local] Existing Instance demo_blocks.
#[local] Existing Instance demo_batch.
Definition demo_source (path text : string) : StreamEntry := mkStreamEntry (lit path) [(lit text, Some EOF)].
Definition demo_entries : list StreamEntry :=
  [demo_source "docs/a.txt" "old"; demo_source "readme" "hello"; demo_source "./docs\b/../b.txt" "bee"; demo_source "/" "nothing"; demo_source "docs/a.txt" "new"].
Definition demo_pick (a : FileArgs) : pipe Memstore -> choice := greedy BLAKE3 2 a.
Definition demo_add := AddDirectoryStream BLAKE3 2 demo_pick 4 NewBuilder reverse demo_entries NewMemstore.
Example demo_add_ok : match demo_add with
  | (Ok res, s) => match ResolvePath (λ m, bs_Get m s) (ar_MID res) (lit "docs/b.txt") with Ok n => (ar_Size res, mn_Data n) | _ => (0, []) end
  | _ => (0, []) end = (11, lit "bee").
Proof. vm_compute. reflexivity. Qed.

Lemma demo_sources_ok : Forall src_ok demo_entries.
Proof. repeat constructor. Qed.
Lemma demo_no_conflict : no_conflict demo_entries.
Proof.
  assert (Forall (λ e, Forall (λ e', src_parts e ≠ [] -> src_parts e `prefix_of` src_parts e' -> src_parts e = src_parts e') demo_entries) demo_entries) as Hall.
  { repeat constructor; intros Hne [k Hk]; vm_compute in Hk, Hne |- *; congruence. }
  intros i j e e' _ Hi Hj. rewrite Forall_forall in Hall. specialize (Hall e (list_elem_of_lookup_2 _ _ _ Hi)).
  rewrite Forall_forall in Hall. apply Hall. by eapply list_elem_of_lookup_2.
Qed.
Lemma demo_survives : survives demo_entries 2 (demo_source "./docs\b/../b.txt" "bee").
Proof.
  assert (Forall (λ e', src_parts e' ≠ [] -> ~ src_parts e' `prefix_of` src_parts (demo_source "./docs\b/../b.txt" "bee")) (drop 3 demo_entries)) as Hall.
  { unfold demo_entries. cbn [drop]. repeat constructor; intros Hne [k Hk]; vm_compute in Hne, Hk; congruence. }
  intros j e' Hj He'. rewrite Forall_forall in Hall. apply Hall, list_elem_of_lookup. exists (j - 3)%nat.
  rewrite lookup_drop. by replace (3 + (j - 3))%nat with j by lia.
Qed.
Lemma AddDirectoryStream_reference_witness : exists res, demo_add.1 = Ok res /\ stream_ref BLAKE3 2 NewBuilder demo_entries = Ok res.
Proof.
  assert (exists res s', demo_add = (Ok res, s')) as (res & s' & E).
  { assert (is_ok demo_add.1 = true) as E0 by (vm_compute; reflexivity). destruct demo_add as [[res|] s']; [by exists res, s'|done]. }
  exists res. rewrite E. split; [done|].
  apply (AddDirectoryStream_reference (St := Memstore) BLAKE3 eq_refl 2 ltac:(lia) (mem_ok BLAKE3)
    (FileStoreLaws0 := mem_file_laws BLAKE3 eq_refl) demo_pick 4 NewBuilder reverse demo_entries NewMemstore res s').
  - intros a. apply greedy_busy. lia.
  - exact NewBuilder_ok.
  - intros cs. apply reverse_Permutation.
  - exact demo_sources_ok.
  - apply mem_ok_New.
  - exact E.
Defined.
(** a file below a file: the tree has no map to put it in *)
Lemma file_below_file_panics : (AddDirectoryStream BLAKE3 2 demo_pick 4 NewBuilder reverse
  [demo_source "a" "x"; demo_source "a/b" "y"] NewMemstore).1 = Err (panic "assignment to entry in nil map").
Proof. vm_compute. reflexivity. Qed.
End demo.
