(* ===== verification/MemWalk.v ===== *)
(** * Directories from a file system (src/core/memfs/builder.go, AddDirectoryFromFS)

    [fs.WalkDir] is the sequence of its callbacks; the paths are those of an [fs.FS], clean
    and relative.  Files and links are stored as the walk meets them, the directories
    afterwards, deepest first, each from the bucket of its children.
    [symlink_is_listed_as_file]: the entry of a link in its directory says TypeFile. *)
From S2P Require Import Prelude Mid GoIO Chunk Wire Blockstore Objects Memstore Db MemNode MemFile FileStores AddFile MemRead MemBuild.

(** ** Paths of an [fs.FS] *)
Definition hasPathPrefix (s prefix : bytes) : bool :=
  if bool_decide (prefix = lit ".") then true else
  if (length s <? length prefix)%nat then false else
  if negb (bool_decide (take (length prefix) s = prefix)) then false else
  if (length s =? length prefix)%nat then true else
  bool_decide (s !! length prefix = Some Byte.x2f).
Definition filepathRel (base p : bytes) : result bytes :=
  let base := if bool_decide (base = []) then lit "." else base in
  if bool_decide (p = base) then Ok (lit ".") else
  if bool_decide (base = lit ".") then
    let rel := if (2 <? length p)%nat && bool_decide (take 2 p = lit "./") then drop 2 p else p in
    Ok (if bool_decide (rel = []) then lit "." else rel)
  else if negb (hasPathPrefix p base) then Err (New "memfs: path is not under the root") else
  let rel := drop (length base) p in
  let rel := if bool_decide (head rel = Some Byte.x2f) then tail rel else rel in
  Ok (if bool_decide (rel = []) then lit "." else rel).
(** [path.Dir] and [path.Base] of a clean relative path *)
Fixpoint split_last (p : bytes) : option (bytes * bytes) :=
  match p with
  | [] => None
  | b :: p' =>
      match split_last p' with
      | Some (d, n) => Some (b :: d, n)
      | None => if bool_decide (b = Byte.x2f) then Some ([], p') else None
      end
  end.
Definition path_Base (p : bytes) : bytes := match split_last p with Some (_, n) => n | None => p end.
Definition path_Dir (p : bytes) : bytes := match split_last p with Some (d, _) => d | None => lit "." end.
Definition depth (p : bytes) : nat := length (filter (λ b, b = Byte.x2f) p).

(** ** The walk *)
Inductive WalkKind :=
  | WDir
  | WLink (target : result bytes)      (* fs.ReadLink *)
  | WFile (open : result Reader).      (* fsys.Open *)
Record WalkEntry := mkWalkEntry {
  we_path : bytes;
  we_err : option error;
  we_info : result (Z * Z);            (* the permissions, the time *)
  we_kind : WalkKind;
}.
Record pending := mkPending { pd_relPath : bytes; pd_isDir : bool; pd_entry : AddResult }.
(** deeper first, then the later path first *)
Definition pending_le (a b : pending) : Prop :=
  (if (depth (pd_relPath a) =? depth (pd_relPath b))%nat then bytes_leb (pd_relPath b) (pd_relPath a)
   else (depth (pd_relPath b) <? depth (pd_relPath a))%nat) = true.
#[export] Instance pending_le_dec : RelDecision pending_le := λ a b, bool_eq_dec _ true.

Section walk.
Context `{Multiformats, Protos, ObjectJSON} (alg : Z) (F : nat) {St : Type} `{Blockstore St, BatchStore St, MetaStore St}.
Context (pick : FileArgs -> pipe St -> choice) (workers : nat) (b : Builder).

Definition walk_entry (root : bytes) (e : WalkEntry) (stack : list pending) : M St (list pending) :=
  match we_err e with
  | Some walkErr => throw walkErr
  | None =>
      rel ← liftr (filepathRel root (we_path e));
      if bool_decide (rel = lit ".") then mret stack else
      '(perm, mt) ← liftr (we_info e);
      match we_kind e with
      | WLink target =>
          tgt ← liftr target;
          r ← AddSymlink alg (path_Base rel) tgt perm mt;
          mret (stack ++ [mkPending rel false r])
      | WDir => mret (stack ++ [mkPending rel true (mkAddResult zeroMID 0 0)])
      | WFile open =>
          f ← liftr open;
          r ← Builder_AddFile alg F pick workers b (path_Base rel) f perm mt (SniffMime (path_Base rel));
          mret (stack ++ [mkPending rel false r])
      end
  end.
Fixpoint walk_entries (root : bytes) (es : list WalkEntry) (stack : list pending) : M St (list pending) :=
  match es with
  | [] => mret stack
  | e :: es => stack ← walk_entry root e stack; walk_entries root es stack
  end.

Definition parent_of (p : bytes) : bytes := let d := path_Dir p in if bool_decide (d = lit ".") then [] else d.
Definition bucket_add (p : bytes) (e : FSEntry) (byParent : gmap bytes (list FSEntry)) : gmap bytes (list FSEntry) :=
  <[parent_of p := default [] (byParent !! parent_of p) ++ [e]]> byParent.
Definition bucket_files (stack : list pending) : gmap bytes (list FSEntry) :=
  foldl (λ byParent p, if pd_isDir p then byParent else
    bucket_add (pd_relPath p) (mkFSEntry (path_Base (pd_relPath p)) (ar_MID (pd_entry p)) TypeFile (ar_Size (pd_entry p))) byParent) ∅ stack.
Fixpoint add_dirs (stack : list pending) (byParent : gmap bytes (list FSEntry)) : M St (gmap bytes (list FSEntry)) :=
  match stack with
  | [] => mret byParent
  | p :: stack =>
      if negb (pd_isDir p) then add_dirs stack byParent else
      r ← AddDir alg (path_Base (pd_relPath p)) (default [] (byParent !! pd_relPath p)) 493 zeroTime;
      add_dirs stack (bucket_add (pd_relPath p) (mkFSEntry (path_Base (pd_relPath p)) (ar_MID r) TypeDir (ar_Size r)) byParent)
  end.
Definition AddDirectoryFromFS (root : bytes) (entries : list WalkEntry) : M St AddResult :=
  let root := if bool_decide (root = []) then lit "." else root in
  stack ← walk_entries root entries [];
  byParent ← add_dirs (merge_sort pending_le stack) (bucket_files stack);
  AddDir alg (lit ".") (default [] (byParent !! [])) 493 zeroTime.
End walk.

(** ** A small tree: a file two levels down, and a link next to it *)
Section demo.
#[local] Existing Instance demo_blocks.
#[local] Existing Instance demo_batch.
Definition walk_file (p text : string) : WalkEntry := mkWalkEntry (lit p) None (Ok (420, 0)) (WFile (Ok [(lit text, Some EOF)])).
Definition walk_dir (p : string) : WalkEntry := mkWalkEntry (lit p) None (Ok (493, 0)) WDir.
Definition walk_link (p target : string) : WalkEntry := mkWalkEntry (lit p) None (Ok (511, 0)) (WLink (Ok (lit target))).
Definition demo_walk : result AddResult * Memstore :=
  AddDirectoryFromFS BLAKE3 2 (λ a, greedy BLAKE3 2 a) 4 NewBuilder (lit "site")
    [walk_dir "site"; walk_dir "site/docs"; walk_file "site/docs/a.txt" "hello"; walk_link "site/docs/b" "a.txt"; walk_dir "site/empty"] NewMemstore.
Definition demo_walk_at (path : string) : result MemFSNode :=
  match demo_walk with (Ok res, s) => ResolvePath (λ m, bs_Get m s) (ar_MID res) (lit path) | (Err e, _) => Err e end.
Example walk_file_found : (mn_Data <$> demo_walk_at "docs/a.txt") = Ok (lit "hello").
Proof. vm_compute. reflexivity. Qed.
Example walk_empty_found : (EntryCount <$> demo_walk_at "empty") = Ok 0.
Proof. vm_compute. reflexivity. Qed.
(** the node under b is a link; its directory lists it as a file *)
Lemma symlink_is_listed_as_file :
  (mn_Type <$> demo_walk_at "docs/b") = Ok TypeSymlink /\
  (map fe_Type ∘ EntriesValue <$> demo_walk_at "docs") = Ok [TypeFile; TypeFile].
Proof. split; vm_compute; reflexivity. Qed.
End demo.
