(* ===== verification/Erasure.v ===== *)
(** * Erasure coding (src/core/erasure/erasure.go)

    The Reed-Solomon arithmetic is third-party code: [ReedSolomon] is the part of its
    interface the repository calls, [RSLaws] what its documentation promises for one
    configuration, and the parity code of one extra shard an instance.  [Encode] and
    [Decode] are the block coder with its manifest, [EncodeStream] and [DecodeStream] the
    streaming one.
    [Decode_Encode]: any k of the n shards give the block back, whatever the others hold.
    [DecodeStream_spec]: the streaming pair agrees exactly when k divides the chunk size. *)
From S2P Require Import Prelude Mid GoIO Wire Blockstore.

(** ** Configurations *)
Definition DefaultDataShards : Z := 10.
Definition DefaultParityShards : Z := 4.
Definition MinShards : Z := 2.
Definition MaxShards : Z := 256.
Record Config := mkConfig { DataShards : Z; ParityShards : Z }.
#[export] Instance Config_eq_dec : EqDecision Config.
Proof. solve_decision. Defined.
Definition DefaultConfig : Config := mkConfig DefaultDataShards DefaultParityShards.
Definition AdaptiveConfig (size : Z) : Config :=
  if size <=? 0 then DefaultConfig else
  if size <? 64 * 1024 then mkConfig 2 1 else
  if size <? 1024 * 1024 then mkConfig 4 2 else
  if size <? 10 * 1024 * 1024 then mkConfig 8 3 else
  DefaultConfig.
Definition NewConfig (data parity : Z) : result Config :=
  if data <? MinShards then Err (New "erasure: data shards below minimum") else
  if parity <? 0 then Err (New "erasure: parity shards must be non-negative") else
  if MaxShards <? data + parity then Err (New "erasure: total shards above maximum") else
  Ok (mkConfig data parity).
Definition config_ok (c : Config) : Prop :=
  MinShards <= DataShards c /\ 0 <= ParityShards c /\ DataShards c + ParityShards c <= MaxShards.
Lemma NewConfig_ok data parity c : NewConfig data parity = Ok c <-> c = mkConfig data parity /\ config_ok c.
Proof.
  unfold NewConfig, config_ok, MinShards, MaxShards. destruct (Z.ltb_spec data 2); [|destruct (Z.ltb_spec parity 0); [|destruct (Z.ltb_spec 256 (data + parity))]].
  all: split; [|intros [-> (? & ? & ?)]; simpl in *; first [lia|done]].
  all: intros [= <-]. simpl. split; [done|lia].
Qed.
Lemma AdaptiveConfig_ok size : config_ok (AdaptiveConfig size).
Proof.
  unfold AdaptiveConfig, config_ok.
  destruct (size <=? 0); [done|]. destruct (size <? 64 * 1024); [done|]. destruct (size <? 1024 * 1024); [done|]. by destruct (size <? 10 * 1024 * 1024).
Qed.

(** ** The coder *)
(** a nil shard is [None] *)
Class ReedSolomon := {
  rs_New : Config -> result unit;
  rs_Split : Config -> bytes -> result (list bytes);
  rs_Encode : Config -> list bytes -> result (list bytes);
  rs_Reconstruct : Config -> list (option bytes) -> result (list (option bytes));
  rs_Join : Config -> list (option bytes) -> Z -> result bytes;
  rs_Verify : Config -> list (option bytes) -> result bool;
}.
Definition shard_len (k len : Z) : Z := (len + k - 1) / k.
Definition present (shards : list (option bytes)) : Z := zlen (omap id shards).
Definition total (c : Config) : Z := DataShards c + ParityShards c.
(** What the documentation of the coder says, for one configuration: a block is split into
    equal shards, zero-padded; encoding fills the parity shards; a consistent shard set is
    restored from any k of its shards, and from no fewer; joining concatenates the data shards
    up to the size asked for, if they are that long. *)
Class RSLaws `{ReedSolomon} (c : Config) : Prop := {
  rs_new : rs_New c = Ok tt;
  rs_split data : data ≠ [] -> exists shards pad, rs_Split c data = Ok shards /\
    zlen shards = total c /\ Forall (λ s, zlen s = shard_len (DataShards c) (zlen data)) shards /\
    concat (take (Z.to_nat (DataShards c)) shards) = data ++ pad;
  rs_encode shards len : 0 < len -> zlen shards = total c -> Forall (λ s, zlen s = len) shards ->
    exists coded, rs_Encode c shards = Ok coded /\ zlen coded = total c /\ Forall (λ s, zlen s = len) coded /\
      take (Z.to_nat (DataShards c)) coded = take (Z.to_nat (DataShards c)) shards /\ rs_Verify c (Some <$> coded) = Ok true;
  rs_reconstruct coded shards : zlen coded = total c -> Forall (λ s, s ≠ []) coded -> rs_Verify c (Some <$> coded) = Ok true ->
    Forall2 (λ o d, o = None \/ o = Some d) shards coded -> DataShards c <= present shards ->
    rs_Reconstruct c shards = Ok (Some <$> coded);
  rs_complete shards shards' len : zlen shards = total c -> Forall (λ o, o = None \/ exists s, o = Some s /\ zlen s = len) shards ->
    rs_Reconstruct c shards = Ok shards' -> exists l, shards' = Some <$> l /\ zlen l = total c /\ Forall (λ s, zlen s = len) l;
  rs_too_few shards : zlen shards = total c -> present shards < DataShards c -> is_ok (rs_Reconstruct c shards) = false;
  rs_join ds rest size : zlen ds = DataShards c -> 0 <= size <= zlen (concat ds) ->
    rs_Join c ((Some <$> ds) ++ rest) size = Ok (take (Z.to_nat size) (concat ds));
  rs_short ds rest size : zlen ds = DataShards c -> zlen (concat ds) < size ->
    is_ok (rs_Join c ((Some <$> ds) ++ rest) size) = false;
}.

(** *** An instance: two data shards and their bytewise sum *)
Module ToyRS.
Definition add (a b : byte) : byte := z2b (b2z a + b2z b).
Definition sub (p a : byte) : byte := z2b (b2z p - b2z a).
Lemma sub_add a b : sub (add a b) a = b.
Proof.
  unfold sub, add. apply (inj b2z). rewrite !b2z_z2b. pose proof (b2z_bound a). pose proof (b2z_bound b).
  rewrite Zminus_mod_idemp_l. replace (b2z a + b2z b - b2z a) with (b2z b) by lia. by apply Z.mod_small.
Qed.
Lemma add_comm a b : add a b = add b a.
Proof. unfold add. by rewrite Z.add_comm. Qed.
Definition sums : bytes -> bytes -> bytes := zip_with add.
Definition diffs : bytes -> bytes -> bytes := zip_with sub.
Lemma diffs_sums_l a b : length a = length b -> diffs (sums a b) a = b.
Proof. revert b. induction a as [|x a IH]; intros [|y b] Hl; try done. cbn. rewrite sub_add. f_equal. apply IH. by injection Hl. Qed.
Lemma sums_comm a b : sums a b = sums b a.
Proof. revert b. induction a as [|x a IH]; intros [|y b]; try done. cbn. by rewrite add_comm, IH. Qed.
Lemma sums_len a b n : zlen a = n -> zlen b = n -> zlen (sums a b) = n.
Proof. unfold zlen, sums. rewrite length_zip_with. lia. Qed.
Lemma diffs_len a b n : zlen a = n -> zlen b = n -> zlen (diffs a b) = n.
Proof. unfold zlen, diffs. rewrite length_zip_with. lia. Qed.
Definition split (d : bytes) : list bytes :=
  let n := ((length d + 1) / 2)%nat in let p := d ++ replicate (2 * n - length d) Byte.x00 in
  [take n p; drop n p; replicate n Byte.x00].
Definition encode (shards : list bytes) : result (list bytes) :=
  match shards with [a; b; _] => Ok [a; b; sums a b] | _ => Err (New "shards") end.
Definition reconstruct (shards : list (option bytes)) : result (list (option bytes)) :=
  match shards with
  | [Some a; Some b; Some p] => Ok [Some a; Some b; Some p]
  | [Some a; Some b; None] => Ok [Some a; Some b; Some (sums a b)]
  | [Some a; None; Some p] => Ok [Some a; Some (diffs p a); Some p]
  | [None; Some b; Some p] => Ok [Some (diffs p b); Some b; Some p]
  | _ => Err (New "too few shards")
  end.
Definition join (shards : list (option bytes)) (size : Z) : result bytes :=
  match shards with
  | Some a :: Some b :: _ => if size <=? zlen (a ++ b) then Ok (take (Z.to_nat size) (a ++ b)) else Err (New "short data")
  | _ => Err (New "too few shards")
  end.
Definition verify (shards : list (option bytes)) : result bool :=
  match shards with [Some a; Some b; Some p] => Ok (bool_decide (length a = length b /\ p = sums a b)) | _ => Err (New "too few shards") end.
End ToyRS.
#[export] Instance toy_rs : ReedSolomon := {|
  rs_New _ := Ok tt; rs_Split _ d := Ok (ToyRS.split d); rs_Encode _ := ToyRS.encode;
  rs_Reconstruct _ := ToyRS.reconstruct; rs_Join _ := ToyRS.join; rs_Verify _ := ToyRS.verify |}.
Definition toy_config : Config := mkConfig 2 1.
Lemma zlen_3 {A} (l : list A) : zlen l = 3 -> exists a b c, l = [a; b; c].
Proof. destruct l as [|a [|b [|c [|]]]]; unfold zlen; simpl; try lia. by eexists _, _, _. Qed.
Lemma zlen_2 {A} (l : list A) : zlen l = 2 -> exists a b, l = [a; b].
Proof. destruct l as [|a [|b [|]]]; unfold zlen; simpl; try lia. by eexists _, _. Qed.
#[export] Instance toy_rs_laws : RSLaws toy_config.
Proof.
  split.
  - done.
  - intros data Hne. cbn [rs_Split toy_rs]. unfold ToyRS.split. set (n := ((length data + 1) / 2)%nat).
    assert (length data ≤ 2 * n /\ 2 * n ≤ length data + 1)%nat as [H1 H2].
    { unfold n. pose proof (Nat.div_mod (length data + 1) 2 ltac:(lia)). pose proof (Nat.mod_upper_bound (length data + 1) 2 ltac:(lia)). lia. }
    eexists _, (replicate (2 * n - length data) Byte.x00). split_and!; [done|done| |].
    + change (DataShards toy_config) with 2. assert (shard_len 2 (zlen data) = Z.of_nat n) as ->.
      { unfold shard_len, zlen, n. rewrite Nat2Z.inj_div, Nat2Z.inj_add. f_equal. lia. }
      repeat constructor; unfold zlen; rewrite ?length_take, ?length_drop, ?length_app, ?length_replicate; lia.
    + cbn [take firstn Z.to_nat Pos.to_nat]. change (Z.to_nat (DataShards toy_config)) with 2%nat. cbn [take firstn concat].
      by rewrite app_nil_r, take_drop.
  - intros shards len _ (a & b & c & ->)%zlen_3 Hl. rewrite !Forall_cons in Hl. destruct Hl as (Ha & Hb & _).
    exists [a; b; ToyRS.sums a b]. split_and!; [done|done| |done|].
    + repeat constructor; [done|done|by apply ToyRS.sums_len].
    + cbn. rewrite bool_decide_eq_true_2; [done|]. split; [unfold zlen in *; lia|done].
  - intros coded shards (a & b & c & ->)%zlen_3 _ Hv Hf Hp. cbn in Hv. injection Hv as [Hlen ->]%bool_decide_eq_true.
    assert (zlen shards = 3) as (oa & ob & oc & ->)%zlen_3 by (unfold zlen; by rewrite (Forall2_length _ _ _ Hf)).
    rewrite !Forall2_cons in Hf. destruct Hf as (Ha & Hb & Hc & _).
    cbn [rs_Reconstruct toy_rs].
    destruct Ha as [->| ->], Hb as [->| ->], Hc as [->| ->]; try (exfalso; by vm_compute in Hp); cbn [ToyRS.reconstruct fmap list_fmap]; [|by rewrite ToyRS.diffs_sums_l|done|done].
    rewrite ToyRS.sums_comm, ToyRS.diffs_sums_l by done. by rewrite ToyRS.sums_comm.
  - intros shards shards' len (oa & ob & oc & ->)%zlen_3 Hl. rewrite !Forall_cons in Hl. destruct Hl as (Ha & Hb & Hc & _). cbn [rs_Reconstruct toy_rs].
    destruct Ha as [->|(a & -> & Ha)], Hb as [->|(b & -> & Hb)], Hc as [->|(c & -> & Hc)]; cbn [ToyRS.reconstruct]; try done; intros [= <-].
    + exists [ToyRS.diffs c b; b; c]. split_and!; [done|done|]. repeat constructor; [by apply ToyRS.diffs_len|done..].
    + exists [a; ToyRS.diffs c a; c]. split_and!; [done|done|]. repeat constructor; [done|by apply ToyRS.diffs_len|done].
    + exists [a; b; ToyRS.sums a b]. split_and!; [done|done|]. repeat constructor; [done|done|by apply ToyRS.sums_len].
    + exists [a; b; c]. split_and!; [done|done|]. by repeat constructor.
  - intros shards ([a|] & [b|] & [c|] & ->)%zlen_3 Hp; try (by vm_compute in Hp); done.
  - intros ds rest size (a & b & ->)%zlen_2 Hsz. cbn [concat] in *. rewrite app_nil_r in *. cbn. by destruct (Z.leb_spec size (zlen (a ++ b))); [|lia].
  - intros ds rest size (a & b & ->)%zlen_2 Hsz. cbn [concat] in *. rewrite app_nil_r in *. cbn. by destruct (Z.leb_spec size (zlen (a ++ b))); [lia|].
Qed.

(** ** Blocks *)
Record Shard := mkShard { sh_Index : Z; sh_Data : bytes; sh_ShardMID : MID; sh_Original : MID }.
Record Encoded := mkEncoded { en_OriginalMID : MID; en_OriginalSize : Z; en_Shards : list Shard; en_Manifest : ErasureManifest }.

Section coder.
Context `{Multiformats, ReedSolomon} (alg : Z) (cfg : Config).

Definition NewEncoder : result unit :=
  _ ← NewConfig (DataShards cfg) (ParityShards cfg); wrap "erasure: build encoder" (rs_New cfg).
Definition Encode (data : bytes) : result Encoded :=
  if bool_decide (length data = 0%nat) then Err (New "erasure: cannot encode empty block") else
  original ← FromBytes alg data;
  shards ← wrap "erasure: split" (rs_Split cfg data);
  shards ← wrap "erasure: encode" (rs_Encode cfg shards);
  mids ← mapM (FromBytes alg) shards;
  Ok (mkEncoded original (zlen data)
    (imap (λ i (x : bytes * MID), mkShard (Z.of_nat i) x.1 x.2 original) (zip shards mids))
    (mkErasureManifest (String original) (u32 (DataShards cfg)) (u32 (ParityShards cfg)) (map String mids) (u64 (zlen data)))).

Definition VerifyShard (shardData expectedMIDStr : bytes) : bool :=
  match Parse expectedMIDStr with
  | Err _ => false
  | Ok expectedMID => match FromBytes alg shardData with Ok gotMID => Equal gotMID expectedMID | Err _ => false end
  end.
(** the shards that do not match their MID are dropped *)
Fixpoint drop_corrupt (shards : list (option bytes)) (mids : list bytes) : result (list (option bytes)) :=
  match shards, mids with
  | [], _ => Ok []
  | None :: shards, _ => cons None <$> drop_corrupt shards (tail mids)
  | Some _ :: _, [] => Err (New "erasure: shard index exceeds manifest MIDs")
  | Some s :: shards, m :: mids => cons (if VerifyShard s m then Some s else None) <$> drop_corrupt shards mids
  end.
Definition Decode (shards : list (option bytes)) (manifest : option ErasureManifest) : result bytes :=
  match manifest with
  | None => Err (New "erasure: nil manifest")
  | Some manifest =>
      if negb (em_DataShards manifest =? DataShards cfg) then Err (New "erasure: manifest data shards") else
      if negb (em_ParityShards manifest =? ParityShards cfg) then Err (New "erasure: manifest parity shards") else
      if negb (zlen shards =? total cfg) then Err (New "erasure: shard count") else
      shards ← drop_corrupt shards (em_ShardMids manifest);
      shards ← wrap "erasure: reconstruct" (rs_Reconstruct cfg shards);
      buf ← wrap "erasure: join" (rs_Join cfg shards (zlen (default [] (mjoin (head shards))) * DataShards cfg));
      if zlen buf <? i64 (em_OriginalSize manifest) then Err (New "erasure: reconstructed buffer smaller than original size") else
      if zlen buf <? em_OriginalSize manifest then Err (panic "slice bounds out of range") else
      let trimmed := take (Z.to_nat (em_OriginalSize manifest)) buf in
      want ← wrap "erasure: parse manifest original MID" (Parse (em_OriginalMid manifest));
      got ← FromBytes alg trimmed;
      if Equal got want then Ok trimmed else Err (New "erasure: recovered bytes do not match manifest original MID")
  end.

Definition Verify (shards : list (option bytes)) : result bool := rs_Verify cfg shards.
Definition VerifyPartial (shards : list (option bytes)) : result bool :=
  if negb (zlen shards =? total cfg) then Err (New "erasure: shard count") else
  if present shards <? DataShards cfg then Err (New "erasure: insufficient shards to verify") else
  shards ← wrap "erasure: reconstruct for verify" (rs_Reconstruct cfg shards);
  rs_Verify cfg shards.
Definition InlineValidator_Verify (manifest : option ErasureManifest) (index : Z) (data : bytes) : bool :=
  match manifest with
  | None => false
  | Some m => if index <? 0 then false else
      match em_ShardMids m !! Z.to_nat index with Some s => VerifyShard data s | None => false end
  end.
End coder.

Lemma concat_same_len (ds : list bytes) n : Forall (λ s, zlen s = n) ds -> zlen (concat ds) = n * zlen ds.
Proof.
  induction 1 as [|d ds Hd _ IH]; [simpl; unfold zlen; simpl; lia|]. cbn [concat]. rewrite zlen_app, IH, Hd. unfold zlen. simpl. lia.
Qed.

(** ** What the block coder guarantees *)
Section block_facts.
Context `{Multiformats} `{!MultiformatsLaws} (alg : Z) (Halg : isSupportedHash alg = true) `{!CollisionFree alg}.
Context `{ReedSolomon} (cfg : Config) (Hcfg : config_ok cfg) `{!RSLaws cfg}.

Lemma FromBytes_ok d : exists m, FromBytes alg d = Ok m /\ wf_mid m.
Proof.
  destruct (FromBytesWithCodec_sum alg d CodecRaw Halg ltac:(done)) as (mh & _ & _ & E). eexists. split; [exact E|].
  by destruct (FromBytesWithCodec_wf alg d CodecRaw _ Halg ltac:(done) E).
Qed.
Lemma FromBytes_Equal d1 d2 m1 m2 : FromBytes alg d1 = Ok m1 -> FromBytes alg d2 = Ok m2 -> Equal m1 m2 = true -> d1 = d2.
Proof.
  intros E1 E2 Eq. assert (Hash m2 = Hash m1) as Eh.
  { unfold Equal in Eq. destruct (codec m1 =? codec m2); [|done]. by apply bool_decide_eq_true in Eq. }
  apply (names_unique alg Halg m1); [by eapply (FromBytes_names alg Halg _ CodecRaw)|].
  apply (names_Hash alg m2); [done|]. by eapply (FromBytes_names alg Halg _ CodecRaw).
Qed.
Lemma Equal_refl m : Equal m m = true.
Proof. unfold Equal. by rewrite Z.eqb_refl, bool_decide_eq_true_2. Qed.
(** a shard passes under a MID exactly when it is the shard of that MID *)
Lemma VerifyShard_spec s d m : FromBytes alg d = Ok m -> VerifyShard alg s (String m) = bool_decide (s = d).
Proof.
  intros Hm. destruct (FromBytesWithCodec_wf alg d CodecRaw _ Halg ltac:(done) Hm) as [Hw _].
  unfold VerifyShard. rewrite Parse_wf_String by done. destruct (FromBytes_ok s) as (m' & E & _). rewrite E.
  case_bool_decide as Es; [subst s|].
  - rewrite Hm in E. injection E as <-. apply Equal_refl.
  - destruct (Equal m' m) eqn:Eq; [|done]. exfalso. apply Es. by eapply FromBytes_Equal.
Qed.

(** the shards that are still what the encoder made *)
Definition intact (shards : list (option bytes)) (coded : list bytes) : Z :=
  zlen (filter (λ x : option bytes * bytes, x.1 = Some x.2) (zip shards coded)).
Lemma drop_corrupt_spec shards coded mids : length shards = length coded -> Forall2 (λ d m, FromBytes alg d = Ok m) coded mids ->
  exists shards', drop_corrupt alg shards (map String mids) = Ok shards' /\
    Forall2 (λ o d, o = None \/ o = Some d) shards' coded /\ present shards' = intact shards coded.
Proof.
  intros Hl Hm. revert shards Hl. induction Hm as [|d m coded mids Hd _ IH]; intros [|o shards] Hl; try done.
  { exists []. done. }
  injection Hl as Hl. destruct (IH shards Hl) as (shards' & E & Hf & Hp). cbn [map drop_corrupt tail]. rewrite E.
  destruct o as [s|].
  - rewrite (VerifyShard_spec s d m Hd). exists ((if bool_decide (s = d) then Some s else None) :: shards'). split; [done|].
    unfold intact, present in *. cbn [zip zip_with]. rewrite filter_cons. cbn [fst snd]. case_bool_decide as Es.
    + subst s. rewrite decide_True by done. split; [constructor; [by right|done]|]. cbn [omap list_omap id]. unfold zlen in *. simpl. lia.
    + rewrite decide_False by congruence. split; [constructor; [by left|done]|]. exact Hp.
  - exists (None :: shards'). split; [done|]. unfold intact, present in *. cbn [zip zip_with]. rewrite filter_cons, decide_False by done.
    split; [constructor; [by left|done]|exact Hp].
Qed.

Lemma mids_of ds : exists mids, mapM (FromBytes alg) ds = Ok mids /\ Forall2 (λ d m, FromBytes alg d = Ok m) ds mids.
Proof.
  induction ds as [|d ds (mids & E & Hm)]; [by exists []|]. destruct (FromBytes_ok d) as (m & Ed & _).
  exists (m :: mids). cbn [mapM]. rewrite Ed. cbn [mbind result_bind]. rewrite E. split; [done|by constructor].
Qed.
Lemma Encode_spec data : data ≠ [] -> zlen data < 2 ^ 63 -> exists en original coded mids,
  Encode alg cfg data = Ok en /\ FromBytes alg data = Ok original /\ map sh_Data (en_Shards en) = coded /\
  Forall2 (λ d m, FromBytes alg d = Ok m) coded mids /\ zlen coded = total cfg /\
  Forall (λ s, zlen s = shard_len (DataShards cfg) (zlen data)) coded /\
  (exists pad, concat (take (Z.to_nat (DataShards cfg)) coded) = data ++ pad) /\ rs_Verify cfg (Some <$> coded) = Ok true /\
  en_Manifest en = mkErasureManifest (String original) (DataShards cfg) (ParityShards cfg) (map String mids) (zlen data).
Proof.
  intros Hne Hlen. unfold Encode. rewrite bool_decide_eq_false_2 by by destruct data.
  destruct (FromBytes_ok data) as (original & Eo & _). rewrite Eo. cbn [mbind result_bind].
  destruct (rs_split data Hne) as (shards & pad & -> & Hl & Hs & Hcat). cbn [wrap mbind result_bind].
  assert (0 < zlen data) as Hpos by (destruct data; [done|unfold zlen; simpl; lia]). destruct Hcfg as (Hk & Hp & Hn). unfold MinShards, MaxShards in *.
  assert (0 < shard_len (DataShards cfg) (zlen data)) as Hsl by (unfold shard_len; apply Z.div_str_pos; lia).
  destruct (rs_encode shards _ Hsl Hl Hs) as (coded & -> & Hlc & Hsc & Htake & Hv). cbn [wrap mbind result_bind].
  destruct (mids_of coded) as (mids & -> & Hm).
  cbn [mbind result_bind]. eexists _, original, coded, mids. split_and!; [done|done| |done|done|done|exists pad; by rewrite Htake|done|].
  - cbn [en_Shards]. assert (forall k, map sh_Data (imap (λ i (x : bytes * MID), mkShard (Z.of_nat (k + i)%nat) x.1 x.2 original) (zip coded mids)) = coded) as Hmap.
    { clear -Hm. induction Hm as [|d m coded mids _ _ IH]; intros k; [done|]. cbn [zip zip_with imap map sh_Data fst]. f_equal.
      rewrite <-(IH (S k)) at 2. f_equal. unfold compose. apply imap_ext. intros i x _. cbn. f_equal. lia. }
    exact (Hmap 0%nat).
  - cbn [en_Manifest]. rewrite !u32_small, u64_small by lia. done.
Qed.
(** decoding under the manifest of an encoding *)
Lemma Decode_intact data original coded mids shards : data ≠ [] -> zlen data < 2 ^ 63 ->
  FromBytes alg data = Ok original -> Forall2 (λ d m, FromBytes alg d = Ok m) coded mids -> zlen coded = total cfg ->
  Forall (λ s, zlen s = shard_len (DataShards cfg) (zlen data)) coded ->
  (exists pad, concat (take (Z.to_nat (DataShards cfg)) coded) = data ++ pad) -> rs_Verify cfg (Some <$> coded) = Ok true ->
  zlen shards = total cfg ->
  let decoded := Decode alg cfg shards (Some (mkErasureManifest (String original) (DataShards cfg) (ParityShards cfg) (map String mids) (zlen data))) in
  (DataShards cfg <= intact shards coded -> decoded = Ok data) /\ (intact shards coded < DataShards cfg -> is_ok decoded = false).
Proof.
  intros Hne Hlen Eo Hm Hl Hs [pad Hcat] Hv Hsh. cbv zeta.
  destruct (drop_corrupt_spec shards coded mids) as (shards' & Ed & Hf & Hp); [unfold zlen in *; lia|done|].
  assert (zlen shards' = total cfg) as Hsh' by (rewrite <-Hl; unfold zlen; by rewrite (Forall2_length _ _ _ Hf)).
  unfold Decode. cbn [em_DataShards em_ParityShards em_ShardMids em_OriginalSize em_OriginalMid].
  rewrite !Z.eqb_refl, Hsh, Z.eqb_refl, Ed. cbn [negb mbind result_bind].
  split; intros Hk.
  2:{ pose proof (rs_too_few shards' Hsh' ltac:(lia)) as Hf'. by destruct (rs_Reconstruct cfg shards'). }
  pose proof Hcfg as (Hk2 & Hpar & Hn). unfold MinShards, MaxShards, total in *. assert (0 < zlen data) as Hpos by (destruct data; [done|unfold zlen; simpl; lia]).
  assert (0 < shard_len (DataShards cfg) (zlen data)) as Hsl by (unfold shard_len; apply Z.div_str_pos; lia).
  rewrite (rs_reconstruct coded shards' Hl) by
    (done || lia || (eapply Forall_impl; [exact Hs|]; intros d Hd ->; change (zlen (@nil byte)) with 0 in Hd; lia)).
  cbn [wrap mbind result_bind].
  set (k := DataShards cfg) in *. set (ds := take (Z.to_nat k) coded).
  assert (Some <$> coded = (Some <$> ds) ++ (Some <$> drop (Z.to_nat k) coded)) as Ecut by (unfold ds; by rewrite <-fmap_app, take_drop).
  assert (zlen ds = k) as Hds by (unfold ds, zlen in *; rewrite length_take; lia).
  assert (zlen (concat ds) = shard_len k (zlen data) * k) as Hcl.
  { rewrite (concat_same_len ds (shard_len k (zlen data))), Hds; [done|]. by apply Forall_take. }
  assert (zlen (default [] (mjoin (head (Some <$> coded)))) = shard_len k (zlen data)) as ->.
  { destruct Hs as [|d0 coded Hd0 _]; [unfold zlen in Hl; simpl in Hl; lia|exact Hd0]. }
  rewrite Ecut, <-Hcl.
  rewrite (rs_join ds (Some <$> drop (Z.to_nat k) coded) (zlen (concat ds)) Hds) by (split; [apply zlen_nonneg|done]).
  cbn [wrap mbind result_bind]. fold ds in Hcat. rewrite firstn_all2 by (unfold zlen; lia). rewrite Hcat, zlen_app.
  rewrite i64_small by lia. pose proof (zlen_nonneg pad). destruct (Z.ltb_spec (zlen data + zlen pad) (zlen data)); [lia|].
  destruct (FromBytesWithCodec_wf alg data CodecRaw _ Halg ltac:(done) Eo) as [Hw _]. rewrite Parse_wf_String by done.
  cbn [wrap mbind result_bind]. replace (take (Z.to_nat (zlen data)) (data ++ pad)) with data by (unfold zlen; rewrite Nat2Z.id, take_app_length; done).
  rewrite Eo. cbn [mbind result_bind]. by rewrite Equal_refl.
Qed.
(** what decodes is what the manifest names *)
Lemma Decode_names shards mf d : Decode alg cfg shards (Some mf) = Ok d -> exists want got,
  Parse (em_OriginalMid mf) = Ok want /\ FromBytes alg d = Ok got /\ Equal got want = true.
Proof.
  unfold Decode. destruct (negb _); [done|]. destruct (negb _); [done|]. destruct (negb _); [done|].
  destruct (drop_corrupt _ _ _) as [sh|]; [|done]. cbn [mbind result_bind]. destruct (wrap _ (rs_Reconstruct _ _)) as [sh'|]; [|done]. cbn [mbind result_bind].
  destruct (wrap _ (rs_Join _ _ _)) as [buf|]; [|done]. cbn [mbind result_bind]. destruct (_ <? _); [done|]. destruct (_ <? _); [done|]. cbv zeta.
  destruct (wrap _ (Parse _)) as [want|] eqn:Ep; [|done]. cbn [mbind result_bind]. destruct (FromBytes _ _) as [got|] eqn:Eg; [|done]. cbn [mbind result_bind].
  destruct (Equal got want) eqn:Eq; [|done]. intros [= <-]. exists want, got. split_and!; [|done|done].
  by destruct (Parse (em_OriginalMid mf)); [injection Ep as ->|].
Qed.
End block_facts.

Lemma Forall2_Some_complete (shards : list (option bytes)) coded :
  Forall2 (λ o d, o = None \/ o = Some d) shards coded -> Forall (λ o, o = None \/ exists s, o = Some s /\ s ∈ coded) shards.
Proof.
  induction 1 as [|o d shards coded Ho _ IH]; constructor.
  - destruct Ho as [->| ->]; [by left|right]. exists d. split; [done|by left].
  - eapply Forall_impl; [exact IH|]. intros o' [->|(s & -> & Hs)]; [by left|right]. exists s. split; [done|by right].
Qed.
(** ** Properties *)
Section properties.
Context `{Multiformats} `{!MultiformatsLaws} (alg : Z) (Halg : isSupportedHash alg = true) `{!CollisionFree alg}.
Context `{ReedSolomon}.

(** C16: erasure coding keeps a block recoverable: [Encode] of any non-empty block succeeds,
    and [Decode] under the manifest it made gives the block back from every set of shards of
    which at least k are intact, whatever the other positions hold (missing or corrupt
    shards, in any mixture); with fewer than k intact shards it reports an error. *)
Theorem Decode_Encode cfg data : config_ok cfg -> RSLaws cfg -> data ≠ [] -> zlen data < 2 ^ 63 ->
  exists en, Encode alg cfg data = Ok en /\ zlen (en_Shards en) = total cfg /\ forall shards, zlen shards = total cfg ->
    let k_intact := DataShards cfg <=? intact shards (map sh_Data (en_Shards en)) in
    if k_intact then Decode alg cfg shards (Some (en_Manifest en)) = Ok data
    else is_ok (Decode alg cfg shards (Some (en_Manifest en))) = false.
Proof.
  intros Hcfg Hlaws Hne Hlen.
  destruct (Encode_spec alg Halg cfg Hcfg data Hne Hlen) as (en & original & coded & mids & E & Eo & Ec & Hm & Hl & Hs & Hcat & Hv & Em).
  exists en. split; [done|]. split; [rewrite <-Hl, <-Ec; unfold zlen; by rewrite length_map|]. intros shards Hsh. cbv zeta. rewrite Ec, Em.
  destruct (Decode_intact alg Halg cfg Hcfg data original coded mids shards Hne Hlen Eo Hm Hl Hs Hcat Hv Hsh) as [Hok Hfew].
  destruct (Z.leb_spec (DataShards cfg) (intact shards coded)); [by apply Hok|by apply Hfew].
Qed.
End properties.

(** ** Witnesses: a block in two data shards and one parity shard *)
Definition demo_block : bytes := lit "hello".
Definition demo_shards : list (option bytes) := [None; Some (lit "lo" ++ [Byte.x00]); Some (ToyRS.sums (lit "hel") (lit "lo" ++ [Byte.x00]))].
Lemma Decode_Encode_witness : exists en, Encode BLAKE3 toy_config demo_block = Ok en /\
  Decode BLAKE3 toy_config demo_shards (Some (en_Manifest en)) = Ok demo_block /\
  is_ok (Decode BLAKE3 toy_config [Some (lit "xxx"); None; Some (lit "yyy")] (Some (en_Manifest en))) = false.
Proof.
  destruct (Decode_Encode BLAKE3 eq_refl toy_config demo_block) as (en & E & _ & Hd).
  - vm_compute. split_and!; discriminate.
  - exact toy_rs_laws.
  - discriminate.
  - vm_compute. reflexivity.
  - exists en. split; [exact E|]. pose proof (Hd demo_shards eq_refl) as H1. pose proof (Hd [Some (lit "xxx"); None; Some (lit "yyy")] eq_refl) as H2.
    assert (map sh_Data (en_Shards en) = match Encode BLAKE3 toy_config demo_block with Ok en => map sh_Data (en_Shards en) | Err _ => [] end) as Es by by rewrite E.
    cbv zeta in H1, H2. rewrite Es in H1, H2. vm_compute (_ <=? _) in H1. vm_compute (_ <=? _) in H2. split; [exact H1|exact H2].
Defined.
(** a manifest from elsewhere: a size that is negative as an int passes the check and the slice is out of range *)
Lemma Decode_huge_size_panics :
  match Encode BLAKE3 toy_config demo_block with
  | Ok en => let m := en_Manifest en in
      Decode BLAKE3 toy_config demo_shards (Some (mkErasureManifest (em_OriginalMid m) (em_DataShards m) (em_ParityShards m) (em_ShardMids m) (2 ^ 63)))
  | Err e => Err e
  end = Err (panic "slice bounds out of range").
Proof. vm_compute. reflexivity. Qed.
