(* ===== verification/ErasureStream.v ===== *)
(** * Streaming erasure coding (src/core/erasure/erasure.go, EncodeStream and DecodeStream)

    A stream is coded chunk by chunk, each of 64 KiB and the last one padded; shard i of every
    chunk goes to writer i.  A writer is the bytes it received, a reader the bytes it still
    gives: a read that fails or comes up short leaves nothing behind.  The stream hashers see
    what is written, so their sum is that of the whole content.
    [DecodeStream_spec]: the streams of k readers give the content back exactly when k
    divides the chunk size; otherwise no non-empty stream is ever decoded. *)
From S2P Require Import Prelude Mid GoIO Wire Blockstore Erasure.

Definition UnexpectedEOF : error := Sentinel "io.ErrUnexpectedEOF".
Definition chunkSize : nat := N.to_nat 65536.
Lemma chunkSize_Z : Z.of_nat chunkSize = 65536.
Proof. unfold chunkSize. by rewrite N_nat_Z. Qed.
Lemma chunkSize_pos : 0 < Z.of_nat chunkSize.
Proof. rewrite chunkSize_Z. done. Qed.
#[global] Opaque chunkSize.

Section stream.
Context `{Multiformats, ReedSolomon} (alg : Z) (cfg : Config).

(** [streamHasher]: the sum of what was written, as a MID *)
Definition SumMID (hash : Z) (written : bytes) : result MID :=
  mh ← mh_Sum written hash; FromCodecAndHash 1 CodecRaw mh.

Definition pad_chunk (d : bytes) : bytes := d ++ replicate (chunkSize - length d) Byte.x00.
Definition encode_chunk (d : bytes) : result (list bytes) :=
  shards ← wrap "erasure: stream split" (rs_Split cfg (pad_chunk d));
  wrap "erasure: stream encode" (rs_Encode cfg shards).
(** [werr i] is the error of writer i, if it has one *)
Fixpoint write_shards (werr : nat -> option error) (i : nat) (shards outs : list bytes) : result unit * list bytes :=
  match shards, outs with
  | s :: shards, o :: outs =>
      match werr i with
      | Some e => (Err (Wrap "erasure: stream write shard" e), o :: outs)
      | None => let '(r, outs) := write_shards werr (S i) shards outs in (r, (o ++ s) :: outs)
      end
  | _, _ => (Ok tt, outs)
  end.
Definition encode_chunks (werr : nat -> option error) : list bytes -> M (list bytes) unit :=
  for_each (λ d, shards ← liftr (encode_chunk d); write_shards werr 0 shards).
(** the manifest, and what each of the [n] writers received *)
Definition EncodeStream (r : Reader) (n : nat) (werr : nat -> option error) : result ErasureManifest * list bytes :=
  if negb (Z.of_nat n =? total cfg) then (Err (New "erasure: writer count"), replicate n []) else
  let '(bs, e) := content r in
  match encode_chunks werr (chunks chunkSize bs) (replicate n []) with
  | (Err e, outs) => (Err e, outs)
  | (Ok _, outs) =>
      if negb (errors_is e EOF || errors_is e UnexpectedEOF) then (Err e, outs) else
      (originalMID ← wrap "erasure: stream sum original" (SumMID alg bs);
       shardMids ← mapM (λ o, wrap "erasure: stream sum shard" (SumMID alg o)) outs;
       Ok (mkErasureManifest (String originalMID) (u32 (DataShards cfg)) (u32 (ParityShards cfg)) (map String shardMids) (u64 (zlen bs))), outs)
  end.

(** one [io.ReadFull] of a shard *)
Definition read_shard (size : nat) (r : option bytes) : option bytes * option bytes :=
  match r with
  | None => (None, None)
  | Some b => if (size <=? length b)%nat then (Some (take size b), Some (drop size b)) else (None, Some [])
  end.
Definition shardSize : nat := Z.to_nat (Z.of_nat chunkSize / DataShards cfg).
Fixpoint decode_chunks (werr : option error) (fuel : nat) (remaining : Z) (readers : list (option bytes)) (out : bytes) : result unit * bytes :=
  if remaining <=? 0 then (Ok tt, out) else
  match fuel with
  | O => (Err OutOfFuel, out)
  | S fuel =>
      let reads := map (read_shard shardSize) readers in
      match shards ← wrap "erasure: stream reconstruct" (rs_Reconstruct cfg (map fst reads));
            wrap "erasure: stream join" (rs_Join cfg shards (Z.of_nat chunkSize)) with
      | Err e => (Err e, out)
      | Ok chunkBytes =>
          let toWrite := Z.min (zlen chunkBytes) remaining in
          match werr with
          | Some e => (Err (Wrap "erasure: stream write" e), out)
          | None => decode_chunks werr fuel (remaining - toWrite) (map snd reads) (out ++ take (Z.to_nat toWrite) chunkBytes)
          end
      end
  end.
(** one round per chunk *)
Definition decode_fuel (size : Z) : nat := S (Z.to_nat (size / Z.of_nat chunkSize)).
Definition DecodeStream (readers : list (option bytes)) (werr : option error) (manifest : option ErasureManifest) : result unit * bytes :=
  match manifest with
  | None => (Err (New "erasure: nil manifest"), [])
  | Some manifest =>
      if negb (zlen readers =? total cfg) then (Err (New "erasure: reader count"), []) else
      match wantMID ← wrap "erasure: parse expected original MID" (Parse (em_OriginalMid manifest));
            decodedMh ← wrap "erasure: decode manifest multihash" (mh_Decode (Hash wantMID)); Ok (wantMID, Code decodedMh) with
      | Err e => (Err e, [])
      | Ok (wantMID, hash) =>
          match decode_chunks werr (decode_fuel (em_OriginalSize manifest)) (em_OriginalSize manifest) readers [] with
          | (Err e, out) => (Err e, out)
          | (Ok _, out) =>
              (gotMID ← wrap "erasure: stream sum original" (SumMID hash out);
               if Equal gotMID wantMID then Ok tt else Err (New "erasure: stream recovered bytes do not match expected MID"), out)
          end
      end
  end.
End stream.

(** ** What the streams carry *)
Lemma zlen_ne (bs : bytes) : bs ≠ [] -> 0 < zlen bs.
Proof. destruct bs; [done|]. intros _. unfold zlen. simpl. lia. Qed.
(** the shards of every chunk, column by column *)
Fixpoint columns (n : nat) (css : list (list bytes)) : list bytes :=
  match css with
  | [] => replicate n []
  | cs :: css => zip_with app cs (columns n css)
  end.
Lemma columns_length n css : Forall (λ cs, length cs = n) css -> length (columns n css) = n.
Proof.
  induction 1 as [|cs css Hl _ IH]; cbn [columns]; [apply length_replicate|]. rewrite length_zip_with. lia.
Qed.
Lemma zip_app_assoc (l1 l2 l3 : list bytes) : zip_with app (zip_with app l1 l2) l3 = zip_with app l1 (zip_with app l2 l3).
Proof. revert l2 l3. induction l1 as [|a l1 IH]; intros [|b l2] [|c l3]; try done. cbn. by rewrite IH, <-app_assoc. Qed.
Lemma zip_app_nil (l : list bytes) n : length l = n -> zip_with app l (replicate n []) = l.
Proof. revert n. induction l as [|a l IH]; intros [|n]; try done. intros [= Hl]. cbn. by rewrite app_nil_r, IH. Qed.
Lemma zip_nil_app (l : list bytes) n : length l = n -> zip_with app (replicate n []) l = l.
Proof. revert n. induction l as [|a l IH]; intros [|n]; try done. intros [= Hl]. cbn. by rewrite IH. Qed.

Lemma write_shards_ok i shards outs : length shards = length outs ->
  write_shards (λ _, None) i shards outs = (Ok tt, zip_with app outs shards).
Proof.
  revert i outs. induction shards as [|s shards IH]; intros i [|o outs] Hl; try done. cbn. rewrite IH by (by injection Hl). done.
Qed.

Section facts.
Context `{Multiformats} `{!MultiformatsLaws} (alg : Z) (Halg : isSupportedHash alg = true).
Context `{ReedSolomon} (cfg : Config) (Hcfg : config_ok cfg) `{!RSLaws cfg}.
Definition nn : nat := Z.to_nat (total cfg).
Definition kk : nat := Z.to_nat (DataShards cfg).

Lemma config_nat : Z.of_nat nn = total cfg /\ Z.of_nat kk = DataShards cfg /\ (2 ≤ kk)%nat /\ (kk ≤ 256)%nat /\ (kk ≤ nn)%nat.
Proof. unfold nn, kk, total. destruct Hcfg as (? & ? & ?). unfold MinShards, MaxShards in *. lia. Qed.
Lemma SumMID_FromBytes d : SumMID alg d = FromBytes alg d.
Proof.
  destruct (FromBytesWithCodec_sum alg d CodecRaw Halg ltac:(done)) as (mh & Es & Hv & E).
  unfold SumMID, FromBytes. rewrite E, Es. cbn [mbind result_bind]. unfold FromCodecAndHash.
  pose proof (FromMultihash_ok CodecRaw mh ltac:(done) Hv) as Ef. unfold FromMultihash in Ef. change cidVersion1 with 1 in Ef. by rewrite Ef.
Qed.
Lemma pad_chunk_length d : (length d ≤ chunkSize)%nat -> length (pad_chunk d) = chunkSize.
Proof. intros. unfold pad_chunk. rewrite length_app, length_replicate. lia. Qed.

(** the shards [cs] of the chunk [d] *)
Definition coded_chunk (d : bytes) (cs : list bytes) : Prop :=
  encode_chunk cfg d = Ok cs /\ length cs = nn /\ Forall (λ s, zlen s = shard_len (DataShards cfg) (Z.of_nat chunkSize)) cs /\
  (exists pad, concat (take kk cs) = pad_chunk d ++ pad) /\ rs_Verify cfg (Some <$> cs) = Ok true.
Lemma encode_chunk_spec d : (length d ≤ chunkSize)%nat -> exists cs, coded_chunk d cs.
Proof.
  intros Hd. pose proof config_nat as (Hn & Hk & ? & ? & ?). pose proof (pad_chunk_length d Hd) as Hp. pose proof chunkSize_Z as Hc.
  assert (pad_chunk d ≠ []) as Hne by (intros E; rewrite E in Hp; simpl in Hp; lia).
  destruct (rs_split _ Hne) as (shards & pad & Es & Hl & Hs & Hcat).
  replace (zlen (pad_chunk d)) with (Z.of_nat chunkSize) in Hs by (unfold zlen; lia).
  assert (0 < shard_len (DataShards cfg) (Z.of_nat chunkSize)) as Hsl by (unfold shard_len; apply Z.div_str_pos; lia).
  destruct (rs_encode shards _ Hsl Hl Hs) as (cs & Ec & Hlc & Hsc & Ht & Hv). exists cs. split_and!.
  - unfold encode_chunk. rewrite Es. cbn [wrap mbind result_bind]. by rewrite Ec.
  - unfold zlen in Hlc. lia.
  - done.
  - exists pad. unfold kk. by rewrite Ht.
  - done.
Qed.
Lemma coded_chunks bs : exists css, Forall2 coded_chunk (chunks chunkSize bs) css.
Proof.
  assert (Forall (λ d, (length d ≤ chunkSize)%nat) (chunks chunkSize bs)) as Hl.
  { eapply Forall_impl; [apply chunks_sizes; pose proof chunkSize_Z; lia|]. intros d [_ ?]. done. }
  induction Hl as [|d ds Hd _ (css & IH)]; [by exists []|]. destruct (encode_chunk_spec d Hd) as [cs Hcs].
  exists (cs :: css). by constructor.
Qed.
Lemma encode_chunks_spec ds css outs : Forall2 coded_chunk ds css -> length outs = nn ->
  encode_chunks cfg (λ _, None) ds outs = (Ok tt, zip_with app outs (columns nn css)).
Proof.
  intros Hc. revert outs. induction Hc as [|d cs ds css Hd _ IH]; intros outs Hl; cbn [encode_chunks for_each columns].
  { by rewrite zip_app_nil. }
  destruct Hd as (E & Hlc & _). assert (length cs = length outs) as Hlen by lia.
  erewrite M_bind_Ok; [|erewrite M_bind_Ok by (unfold liftr; by rewrite E); by apply write_shards_ok].
  fold (encode_chunks cfg (λ _, None) ds). rewrite IH by (rewrite length_zip_with; lia). by rewrite zip_app_assoc.
Qed.
Lemma sum_mids ds : exists mids, mapM (λ o, wrap "erasure: stream sum shard" (SumMID alg o)) ds = Ok mids.
Proof.
  induction ds as [|o ds (mids & E)]; [by exists []|].
  destruct (FromBytes_ok alg Halg o) as (m & Ed & _). exists (m :: mids). cbn [mapM]. rewrite (SumMID_FromBytes o), Ed.
  cbn [wrap mbind result_bind]. by rewrite E.
Qed.
(** a stream of any length is encoded *)
Lemma EncodeStream_spec r bs e : content r = (bs, e) -> errors_is e EOF = true -> zlen bs < 2 ^ 63 ->
  exists css mf original, Forall2 coded_chunk (chunks chunkSize bs) css /\
    EncodeStream alg cfg r nn (λ _, None) = (Ok mf, columns nn css) /\ length (columns nn css) = nn /\
    FromBytes alg bs = Ok original /\ em_OriginalMid mf = String original /\ em_OriginalSize mf = zlen bs.
Proof.
  intros Hr He Hlen. destruct (coded_chunks bs) as [css Hcss]. pose proof config_nat as (Hn & _).
  assert (length (columns nn css) = nn) as Hcol.
  { apply columns_length. clear -Hcss. induction Hcss as [|d cs ds css (_ & Hl & _) _ IH]; by constructor. }
  destruct (FromBytes_ok alg Halg bs) as (original & Eo & _).
  destruct (sum_mids (columns nn css)) as [mids Em].
  exists css. eexists _, original. split_and!; [done| |done|done|..].
  - unfold EncodeStream. rewrite Hn, Z.eqb_refl, Hr. cbn [negb].
    rewrite (encode_chunks_spec _ css) by (done || apply length_replicate). rewrite zip_nil_app by done. rewrite He. cbn [orb negb].
    rewrite SumMID_FromBytes, Eo. cbn [wrap mbind result_bind]. by rewrite Em.
  - done.
  - cbn [em_OriginalSize]. rewrite u64_small by (pose proof (zlen_nonneg bs); lia). done.
Qed.

(** ** Reading them back *)
Lemma shards_ne cs : Forall (λ s, zlen s = shard_len (DataShards cfg) (Z.of_nat chunkSize)) cs -> Forall (λ s : bytes, s ≠ []) cs.
Proof.
  pose proof config_nat as (_ & Hk & ? & ? & ?). pose proof chunkSize_Z. intros Hs. eapply Forall_impl; [exact Hs|]. intros d Hd ->. change (zlen (@nil byte)) with 0 in Hd.
  unfold shard_len in Hd. pose proof (Z.div_str_pos (Z.of_nat chunkSize + DataShards cfg - 1) (DataShards cfg)). lia.
Qed.
(** enough of the readers still give their column *)
Definition avail (readers : list (option bytes)) (cols : list bytes) : Prop :=
  Forall2 (λ o c, o = None \/ o = Some c) readers cols /\ DataShards cfg <= present readers.
Lemma read_round (readers : list (option bytes)) (cs cols : list bytes) (size : nat) : Forall (λ s, length s = size) cs -> length cs = length cols ->
  Forall2 (λ o c, o = None \/ o = Some c) readers (zip_with app cs cols) ->
  let reads := map (read_shard size) readers in
  Forall2 (λ o c, o = None \/ o = Some c) (map fst reads) cs /\ Forall2 (λ o c, o = None \/ o = Some c) (map snd reads) cols /\
  present (map fst reads) = present readers /\ present (map snd reads) = present readers.
Proof.
  intros Hs. revert readers cols. induction Hs as [|c cs Hc _ IH]; intros readers [|col cols] Hl; try done.
  { inversion 1. done. }
  injection Hl as Hl. cbn [zip_with]. inversion 1 as [|o ? readers' ? Ho Hr]; subst. destruct (IH readers' cols Hl Hr) as (H1' & H2' & P1 & P2).
  cbn [map]. destruct Ho as [->| ->]; cbn [read_shard fst snd].
  { split_and!; [constructor; [by left|done]|constructor; [by left|done]|exact P1|exact P2]. }
  destruct (Nat.leb_spec (length c) (length (c ++ col))) as [_|Hlt]; [|rewrite length_app in Hlt; lia]. cbn [fst snd].
  rewrite take_app_length, drop_app_length. unfold present in *. cbn [omap list_omap id]. unfold zlen in *. cbn [length].
  split_and!; [constructor; [by right|done]|constructor; [by right|done]|lia|lia].
Qed.
Lemma take_pad_chunk bs : bs ≠ [] ->
  take (Z.to_nat (Z.min (Z.of_nat chunkSize) (zlen bs))) (pad_chunk (take chunkSize bs)) = take chunkSize bs.
Proof.
  intros Hne. unfold zlen. rewrite <-Nat2Z.inj_min, Nat2Z.id. unfold pad_chunk. rewrite <-length_take. by rewrite take_app_length.
Qed.
Lemma decode_chunks_ok bs : (DataShards cfg | Z.of_nat chunkSize) -> forall css fuel readers out,
  Forall2 coded_chunk (chunks chunkSize bs) css -> avail readers (columns nn css) -> zlen bs <= Z.of_nat chunkSize * Z.of_nat fuel ->
  decode_chunks cfg None fuel (zlen bs) readers out = (Ok tt, out ++ bs).
Proof.
  intros Hdiv. pose proof config_nat as (Hn & Hk & Hk2 & _ & Hkn). pose proof chunkSize_Z as Hcz.
  assert (shard_len (DataShards cfg) (Z.of_nat chunkSize) = Z.of_nat (shardSize cfg)) as Hsl.
  { destruct Hdiv as [q Hq]. unfold shard_len, shardSize. rewrite Hq, Z.div_mul by lia.
    replace (q * DataShards cfg + DataShards cfg - 1) with (DataShards cfg - 1 + q * DataShards cfg) by lia.
    rewrite Z.div_add, Z.div_small by lia. assert (0 <= q) by nia. lia. }
  induction bs as [|bs Hne IH] using (chunks_ind chunkSize ltac:(lia)); intros css fuel readers out Hcss [Hav Hp] Hf.
  { destruct fuel; cbn; by rewrite app_nil_r. }
  rewrite (chunks_cons chunkSize ltac:(lia)) in Hcss by done. inversion Hcss as [|? cs ? css' (_ & Hlc & Hsc & (pad & Hcat) & Hv) Hcss']; subst.
  pose proof (zlen_ne bs Hne) as Hpos.
  assert (length (columns nn css') = nn) as Hcol.
  { apply columns_length. clear -Hcss'. induction Hcss' as [|d cs ds css (_ & Hl & _) _ IH]; by constructor. }
  destruct (read_round readers cs (columns nn css') (shardSize cfg)) as (Hr1 & Hr2 & P1 & P2); [|lia|exact Hav|].
  { eapply Forall_impl; [exact Hsc|]. intros d Hd. unfold zlen in Hd. lia. }
  destruct fuel as [|fuel]; [lia|].
  cbn [decode_chunks]. destruct (Z.leb_spec (zlen bs) 0) as [|_]; [lia|]. cbv zeta.
  assert (zlen cs = total cfg) as Hlt by (unfold zlen; lia).
  assert (DataShards cfg <= present (map fst (map (read_shard (shardSize cfg)) readers))) as Hp1 by lia.
  rewrite (rs_reconstruct cs _ Hlt (shards_ne cs Hsc) Hv Hr1 Hp1).
  cbn [wrap mbind result_bind].
  replace (Some <$> cs) with ((Some <$> take kk cs) ++ (Some <$> drop kk cs)) by by rewrite <-fmap_app, take_drop.
  assert (zlen (take kk cs) = DataShards cfg) as Hds by (unfold zlen; rewrite length_take, Hlc; lia).
  assert (length (pad_chunk (take chunkSize bs)) = chunkSize) as Hpl by (apply pad_chunk_length; rewrite length_take; lia).
  rewrite (rs_join (take kk cs) _ (Z.of_nat chunkSize) Hds) by (rewrite Hcat, zlen_app; unfold zlen at 1; pose proof (zlen_nonneg pad); lia).
  cbn [wrap mbind result_bind]. rewrite Hcat, Nat2Z.id, (take_app_length' _ _ chunkSize) by (symmetry; exact Hpl).
  replace (zlen (pad_chunk (take chunkSize bs))) with (Z.of_nat chunkSize) by (unfold zlen; lia). rewrite take_pad_chunk by done.
  replace (zlen bs - Z.min (Z.of_nat chunkSize) (zlen bs)) with (zlen (drop chunkSize bs)) by (unfold zlen; rewrite length_drop; lia).
  rewrite (IH css'); [by rewrite <-app_assoc, take_drop|done|split; [exact Hr2|lia]|].
  unfold zlen in *. rewrite length_drop. nia.
Qed.

(** shards cut short never join to a chunk *)
Lemma read_shard_len size r : (read_shard size r).1 = None \/ exists s, (read_shard size r).1 = Some s /\ zlen s = Z.of_nat size.
Proof.
  destruct r as [b|]; [|by left]. cbn [read_shard]. destruct (Nat.leb_spec size (length b)); [right|by left].
  exists (take size b). split; [done|]. unfold zlen. rewrite length_take. lia.
Qed.
Lemma decode_chunks_short werr fuel remaining readers out : ~ (DataShards cfg | Z.of_nat chunkSize) -> zlen readers = total cfg -> 0 < remaining ->
  is_ok (decode_chunks cfg werr fuel remaining readers out).1 = false.
Proof.
  intros Hdiv Hl Hr. pose proof config_nat as (Hn & Hk & Hk2 & _ & Hkn). pose proof chunkSize_Z as Hcz.
  destruct fuel as [|fuel]; cbn [decode_chunks]; destruct (Z.leb_spec remaining 0); try lia; [done|]. cbv zeta.
  set (reads := map fst (map (read_shard (shardSize cfg)) readers)).
  assert (zlen reads = total cfg) as Hlr by (unfold reads, zlen; rewrite !length_map; exact Hl).
  assert (Forall (λ o, o = None \/ exists s, o = Some s /\ zlen s = Z.of_nat (shardSize cfg)) reads) as Hlen.
  { unfold reads. rewrite map_map. apply Forall_fmap, Forall_forall. intros o _. apply read_shard_len. }
  destruct (rs_Reconstruct cfg reads) as [shards|e] eqn:Er; [|done]. cbn [wrap mbind result_bind].
  destruct (rs_complete reads shards _ Hlr Hlen Er) as (l & -> & Hll & Hl').
  replace (Some <$> l) with ((Some <$> take kk l) ++ (Some <$> drop kk l)) by by rewrite <-fmap_app, take_drop.
  assert (zlen (take kk l) = DataShards cfg) as Hds by (unfold zlen in *; rewrite length_take; lia).
  assert (zlen (concat (take kk l)) < Z.of_nat chunkSize) as Hshort.
  { rewrite (concat_same_len _ (Z.of_nat (shardSize cfg))) by by apply Forall_take. rewrite Hds. unfold shardSize.
    rewrite Z2Nat.id by (apply Z.div_pos; lia). pose proof (Z.div_mod (Z.of_nat chunkSize) (DataShards cfg) ltac:(lia)).
    pose proof (Z.mod_pos_bound (Z.of_nat chunkSize) (DataShards cfg) ltac:(lia)).
    assert (Z.of_nat chunkSize mod DataShards cfg ≠ 0) by (intros E; apply Hdiv; by apply Z.mod_divide; [lia|]). lia. }
  pose proof (rs_short (take kk l) (Some <$> drop kk l) _ Hds Hshort) as Hf. by destruct (rs_Join cfg _ _).
Qed.
End facts.

(** ** Properties *)
(** the streaming coder on 64 KiB chunks: every stream that ends in EOF is encoded, and the
    manifest names its content.  When the number k of data shards divides the chunk size, k
    readers that still give their shards - the others missing - make [DecodeStream] write
    exactly the content.  When it does not divide, as with the default of 10, no set of
    readers ever makes it succeed on a non-empty stream. *)
Theorem DecodeStream_spec `{Multiformats} `{!MultiformatsLaws} `{ReedSolomon} alg cfg r bs e :
  isSupportedHash alg = true -> config_ok cfg -> RSLaws cfg -> content r = (bs, e) -> errors_is e EOF = true -> zlen bs < 2 ^ 63 ->
  exists mf outs, EncodeStream alg cfg r (Z.to_nat (total cfg)) (λ _, None) = (Ok mf, outs) /\
    (exists m, FromBytes alg bs = Ok m /\ em_OriginalMid mf = String m) /\
    (if Z.of_nat chunkSize mod DataShards cfg =? 0
     then forall readers, Forall2 (λ o c, o = None \/ o = Some c) readers outs -> DataShards cfg <= present readers ->
       DecodeStream cfg readers None (Some mf) = (Ok tt, bs)
     else bs ≠ [] -> forall readers werr, is_ok (DecodeStream cfg readers werr (Some mf)).1 = false).
Proof.
  intros Halg Hcfg Hlaws Hr He Hlen. pose proof (config_nat cfg Hcfg) as (Hn & Hk & Hk2 & _). pose proof chunkSize_pos as Hcz.
  destruct (EncodeStream_spec alg Halg cfg Hcfg r bs e Hr He Hlen) as (css & mf & original & Hcss & Een & Hcol & Eo & Em & Es).
  assert (DataShards cfg ≠ 0) as Hk0 by lia.
  exists mf, (columns (nn cfg) css). split; [exact Een|]. split; [exists original; split; [exact Eo|exact Em]|].
  destruct (FromBytesWithCodec_sum alg bs CodecRaw Halg ltac:(done)) as (mh & Esum & Hv & Efb).
  assert (original = mkMID 1 CodecRaw mh (Prefix ++ cid_String CodecRaw mh)) as Horig by (unfold FromBytes in Eo; congruence).
  assert (wf_mid original) as Hw by by destruct (FromBytesWithCodec_wf alg bs CodecRaw original Halg ltac:(done) Eo).
  destruct (Sum_decodes _ _ _ Esum) as (_ & dg & Hdec).
  assert (forall readers werr, zlen readers = total cfg -> DecodeStream cfg readers werr (Some mf) =
    match decode_chunks cfg werr (decode_fuel (zlen bs)) (zlen bs) readers [] with
    | (Err e, out) => (Err e, out)
    | (Ok _, out) => (gotMID ← wrap "erasure: stream sum original" (SumMID alg out);
        if Equal gotMID original then Ok tt else Err (New "erasure: stream recovered bytes do not match expected MID"), out)
    end) as Hdecode.
  { intros readers werr Hl. unfold DecodeStream. rewrite Hl, Z.eqb_refl, Em, Es, Parse_wf_String by done. cbn [negb wrap mbind result_bind].
    rewrite Horig at 1. cbn [Hash]. rewrite Hdec. cbn [wrap mbind result_bind Code]. done. }
  destruct (Z.eqb_spec (Z.of_nat chunkSize mod DataShards cfg) 0) as [Hz|Hz].
  - intros readers Hav Hp. rewrite Hdecode by (unfold zlen; rewrite (Forall2_length _ _ _ Hav); lia).
    rewrite (decode_chunks_ok cfg Hcfg bs) with (css := css); [|exact (proj1 (Z.mod_divide _ _ Hk0) Hz)|exact Hcss|split; [exact Hav|exact Hp]|].
    + cbn [app]. rewrite (SumMID_FromBytes alg Halg), Eo. cbn [wrap mbind result_bind]. by rewrite Equal_refl.
    + unfold decode_fuel. pose proof (Z.div_mod (zlen bs) (Z.of_nat chunkSize) ltac:(lia)). pose proof (zlen_nonneg bs).
      pose proof (Z.mod_pos_bound (zlen bs) (Z.of_nat chunkSize) ltac:(lia)). pose proof (Z.div_pos (zlen bs) (Z.of_nat chunkSize) ltac:(lia) ltac:(lia)). nia.
  - intros Hne readers werr. destruct (Z.eqb_spec (zlen readers) (total cfg)) as [Hl|Hl].
    + rewrite Hdecode by done. pose proof (decode_chunks_short cfg Hcfg werr (decode_fuel (zlen bs)) (zlen bs) readers []) as Hs.
      destruct (decode_chunks _ _ _ _ _ _) as [[[]|err] out]; [|done]. exfalso. cbn in Hs. 
      assert (true = false) by (apply Hs; [intros Hd; apply Hz; exact (proj2 (Z.mod_divide _ _ Hk0) Hd)|exact Hl|exact (zlen_ne bs Hne)]). done.
    + unfold DecodeStream. by destruct (Z.eqb_spec (zlen readers) (total cfg)).
Qed.

(** ** Witness: one short chunk, the second data shard lost *)
Definition demo_stream : Reader := [(lit "hel", None); (lit "lo", Some EOF)].
Definition demo_encoded := EncodeStream BLAKE3 toy_config demo_stream 3 (λ _, None).
Lemma demo_outs : length demo_encoded.2 = 3%nat.
Proof. vm_compute. reflexivity. Qed.
Lemma DecodeStream_spec_witness : exists mf a b c, demo_encoded = (Ok mf, [a; b; c]) /\
  DecodeStream toy_config [Some a; None; Some c] None (Some mf) = (Ok tt, lit "hello").
Proof.
  destruct (DecodeStream_spec BLAKE3 toy_config demo_stream (lit "hello") EOF) as (mf & outs & E & _ & Hd).
  - reflexivity.
  - split_and!; discriminate.
  - exact toy_rs_laws.
  - reflexivity.
  - reflexivity.
  - reflexivity.
  - change (demo_encoded = (Ok mf, outs)) in E. pose proof demo_outs as Hl. rewrite E in Hl. cbn [snd] in Hl.
    destruct outs as [|a [|b [|c [|]]]]; try discriminate Hl. exists mf, a, b, c. split; [exact E|].
    rewrite chunkSize_Z in Hd. change (65536 mod DataShards toy_config =? 0) with true in Hd. cbn match in Hd. apply Hd.
    + constructor; [by right|]. constructor; [by left|]. constructor; [by right|constructor].
    + discriminate.
Defined.
(** the default configuration: shards of 6554 bytes are written and 6553 are read *)
Lemma default_does_not_divide : Z.of_nat chunkSize mod DataShards DefaultConfig = 6.
Proof. rewrite chunkSize_Z. reflexivity. Qed.
