(* ===== verification/Repair.v ===== *)
(** * Erasure manifests and repair (src/core/erasure: manifest_store.go, repair.go)

    The manifest of a block is kept in the metadata of the store.  [RepairMID] reads the
    shards a manifest names, and puts back the ones that are missing; [AuditAndRepair] does so
    for every manifest of the store.
    [AuditAndRepair_heals]: one cycle restores every block of which k shards can be read. *)
From S2P Require Import Prelude Mid GoIO Wire Blockstore Objects Memstore Erasure.

(** ** Manifests in the metadata *)
Section manifests.
Context `{Multiformats, Protos} {St : Type} `{MetaStore St}.
Definition ManifestMetaKey (m : MID) : bytes := lit "erasure/" ++ String m.
Definition ManifestRootKey (leaf : MID) : bytes := lit "erasure_root/" ++ String leaf.
Definition SetManifestRoot (leaf root : MID) : M St unit :=
  if IsZero leaf || IsZero root then throw (New "erasure: zero mid") else
  st_PutMeta (ManifestRootKey leaf) (String root).
Definition GetManifestRoot (leaf : MID) (s : St) : result MID :=
  if IsZero leaf then Err (New "erasure: zero mid") else
  match st_GetMeta (ManifestRootKey leaf) s with
  | Err e => if errors_is e ErrNotFound then Ok zeroMID else Err e
  | Ok raw => wrap "erasure: parse stored root" (Parse raw)
  end.
Definition SetManifest (m : MID) (manifest : option ErasureManifest) : M St unit :=
  if IsZero m then throw (New "erasure: zero mid") else
  match manifest with
  | None => mret tt
  | Some manifest =>
      buf ← liftr (wrap "erasure: marshal manifest" (marshal manifest));
      st_PutMeta (ManifestMetaKey m) buf
  end.
Definition GetManifest (m : MID) (s : St) : result (option ErasureManifest) :=
  if IsZero m then Err (New "erasure: zero mid") else
  match st_GetMeta (ManifestMetaKey m) s with
  | Err e => if errors_is e ErrNotFound then Ok None else Err e
  | Ok raw => Some <$> wrap "erasure: unmarshal manifest" (unmarshal raw)
  end.
End manifests.

(** ** Repair *)
Section repair.
Context `{Multiformats, Protos, ReedSolomon} (alg : Z) {St : Type} `{Blockstore St, MetaStore St}.

(** the shard a manifest entry names, if it is there and intact *)
Definition fetch_shard (s : St) (smStr : bytes) : option bytes :=
  match Parse smStr with
  | Err _ => None
  | Ok sm =>
      match bs_Get sm s with
      | Ok data => if (0 <? zlen data) && VerifyShard alg data smStr then Some data else None
      | Err _ => None
      end
  end.
(** the shards that the store does not have are put; failed writes are not counted *)
Fixpoint put_missing (shards : list (option bytes)) (mids : list bytes) (repairedCount : Z) : M St Z := λ s,
  match shards, mids with
  | sData :: shards, smStr :: mids =>
      match sData with
      | None => put_missing shards mids repairedCount s
      | Some sData =>
          if bool_decide (smStr = []) then put_missing shards mids repairedCount s else
          match Parse smStr with
          | Err _ => put_missing shards mids repairedCount s
          | Ok sm =>
              match bs_Has sm s with
              | Ok true => put_missing shards mids repairedCount s
              | _ =>
                  match bs_Put sm sData s with
                  | (Ok _, s) => put_missing shards mids (repairedCount + 1) s
                  | (Err _, s) => put_missing shards mids repairedCount s
                  end
              end
          end
      end
  | _, _ => (Ok repairedCount, s)
  end.
Definition RepairMID (m : MID) : M St Z := λ s,
  match wrap "erasure: get manifest for repair" (GetManifest m s) with
  | Err e => (Err e, s)
  | Ok None => (Ok 0, s)
  | Ok (Some manifest) =>
      let dataShards := em_DataShards manifest in
      let parityShards := em_ParityShards manifest in
      let totalShards := dataShards + parityShards in
      if zlen (em_ShardMids manifest) =? 0 then (Ok 0, s) else
      if negb (zlen (em_ShardMids manifest) =? totalShards) then (Err (New "erasure: manifest shard count mismatch"), s) else
      match cfg ← NewConfig dataShards parityShards; _ ← NewEncoder cfg; Ok cfg with
      | Err e => (Err e, s)
      | Ok cfg =>
          let shards := map (fetch_shard s) (em_ShardMids manifest) in
          if present shards =? totalShards then (Ok 0, s) else
          if present shards <? dataShards then (Err (New "erasure: unrecoverable MID"), s) else
          match wrap "erasure: reconstruct missing shards" (rs_Reconstruct cfg shards) with
          | Err e => (Err e, s)
          | Ok shards => put_missing shards (em_ShardMids manifest) 0 s
          end
      end
  end.

(** ** The worker *)
Record RepairStats := mkRepairStats { AuditedMIDs : Z; DegradedMIDs : Z; RepairedShards : Z; Unrecoverable : Z }.
Definition zeroStats : RepairStats := mkRepairStats 0 0 0 0.
Definition add_stats (a b : RepairStats) : RepairStats :=
  mkRepairStats (AuditedMIDs a + AuditedMIDs b) (DegradedMIDs a + DegradedMIDs b)
    (RepairedShards a + RepairedShards b) (Unrecoverable a + Unrecoverable b).
(** how the store lists its blocks: the keys under erasure/, else the sealed MIDs, else all blocks *)
Context (meta_keys : option (St -> list bytes)) (sealed : option (St -> result (list MID))) (blocks : option (St -> result (list MID))).
Definition manifest_mids (s : St) : list MID :=
  match meta_keys with Some keys => rights (map Parse (keys s)) | None => [] end.
Definition audit_mids (s : St) : list MID :=
  let mids := manifest_mids s in
  if negb (bool_decide (mids = [])) then mids else
  match sealed, blocks with
  | Some sealed, _ => match sealed s with Ok l => l | Err _ => [] end
  | None, Some blocks => match blocks s with Ok l => l | Err _ => [] end
  | None, None => []
  end.
(** [stop] is when the context is cancelled; [true] says that the loop ran to its end *)
Fixpoint audit (mids : list MID) (stop : nat) (stats : RepairStats) (s : St) : bool * RepairStats * St :=
  match mids with
  | [] => (true, stats, s)
  | m :: mids =>
      match stop with
      | O => (false, stats, s)
      | S stop =>
          match GetManifest m s with
          | Ok (Some _) =>
              match RepairMID m s with
              | (Err _, s) => audit mids stop (add_stats stats (mkRepairStats 1 0 0 1)) s
              | (Ok repaired, s) => audit mids stop (add_stats stats (if 0 <? repaired then mkRepairStats 1 1 repaired 0 else mkRepairStats 1 0 0 0)) s
              end
          | _ => audit mids stop stats s
          end
      end
  end.
(** the statistics of the cycle, and those of the worker after it *)
Definition AuditAndRepair (stop : nat) (worker : RepairStats) (s : St) : RepairStats * RepairStats * St :=
  let '(ended, stats, s) := audit (audit_mids s) stop zeroStats s in
  (stats, if ended then add_stats worker stats else worker, s).
End repair.

(** What repair needs of a store: a block it claims to have can be read, and writing blocks
    leaves the metadata alone. *)
Class ShardStore (St : Type) `{Multiformats, Blockstore St, MetaStore St} (alg : Z) (inv : St -> Prop) : Prop := {
  #[global] ss_blocks :: BlockstoreLaws St alg inv;
  #[global] ss_total :: BlockstoreTotal St alg inv;
  has_readable m s : inv s -> wf_mid m -> bs_Has m s = Ok true -> exists d, names alg m d /\ bs_Get m s = Ok d;
  put_meta m d k s r s' : inv s -> bs_Put m d s = (r, s') -> st_GetMeta k s' = st_GetMeta k s;
}.

Section facts.
Context `{Multiformats} `{!MultiformatsLaws} (alg : Z) (Halg : isSupportedHash alg = true) `{!CollisionFree alg}.
Context `{Protos} `{ReedSolomon} {St : Type} `{Blockstore St} `{MetaStore St} (inv : St -> Prop) `{!ShardStore St alg inv}.
Implicit Types s : St.

Definition kept s s' : Prop := inv s' /\ keeps alg s s' /\ forall k, st_GetMeta k s' = st_GetMeta k s.
Lemma kept_refl s : inv s -> kept s s.
Proof. intros Hs. split_and!; [done|reflexivity|done]. Qed.
Lemma kept_trans s1 s2 s3 : kept s1 s2 -> kept s2 s3 -> kept s1 s3.
Proof. intros (_ & K1 & M1) (I2 & K2 & M2). split_and!; [done|by etrans|]. intros k. by rewrite M2. Qed.
Lemma put_kept m d s r s' : inv s -> wf_mid m -> bs_Put m d s = (r, s') -> kept s s'.
Proof.
  intros Hs Hm E. destruct (put_keeps (alg := alg) (inv := inv) m d s r s' Hs Hm E) as [? ?]. split_and!; [done|done|]. intros k. by eapply put_meta.
Qed.
Lemma GetManifest_kept s s' m : kept s s' -> GetManifest m s' = GetManifest m s.
Proof. intros (_ & _ & Hm). unfold GetManifest. by rewrite Hm. Qed.

Lemma put_missing_kept shards mids n s : inv s -> exists n' s', put_missing shards mids n s = (Ok n', s') /\ kept s s'.
Proof.
  revert mids n s. induction shards as [|o shards IH]; intros [|smStr mids] n s Hs; cbn [put_missing];
    try (eexists _, _; split; [done|by apply kept_refl]).
  destruct o as [d|]; [|by apply IH]. case_bool_decide; [by apply IH|].
  destruct (Parse smStr) as [sm|] eqn:Ep; [|by apply IH]. apply Parse_wf in Ep.
  destruct (bs_Has sm s) as [[]|]; [by apply IH|..];
    (destruct (bs_Put sm d s) as [r s1] eqn:Eput; pose proof (put_kept _ _ _ _ _ Hs Ep Eput) as Hk;
     destruct r as [[]|]; destruct (IH mids (n + 1) s1 (proj1 Hk)) as (n' & s' & E & Hk');
     destruct (IH mids n s1 (proj1 Hk)) as (n2 & s2 & E2 & Hk2); first [exists n', s'; split; [exact E|by eapply kept_trans]|exists n2, s2; split; [exact E2|by eapply kept_trans]]).
Qed.
Lemma RepairMID_kept m s : inv s -> exists r s', RepairMID alg m s = (r, s') /\ kept s s'.
Proof.
  intros Hs. pose proof (kept_refl s Hs) as Hk. unfold RepairMID.
  destruct (wrap _ (GetManifest m s)) as [[mf|]|]; [|by eexists _, _..]. cbv zeta.
  destruct (_ =? 0); [by eexists _, _|]. destruct (negb _); [by eexists _, _|].
  destruct (NewConfig _ _ ≫= _) as [cfg|]; [|by eexists _, _]. destruct (_ =? _); [by eexists _, _|].
  destruct (_ <? _); [by eexists _, _|]. destruct (wrap _ (rs_Reconstruct _ _)) as [l|]; [|by eexists _, _].
  destruct (put_missing_kept l (em_ShardMids mf) 0 s Hs) as (n & s' & E & Hk'). by eexists _, _.
Qed.

(** a shard the store gives *)
Definition shard_in s (d : bytes) : bool :=
  match FromBytes alg d with Ok m => bool_decide (bs_Get m s = Ok d) | Err _ => false end.
Definition readable s (coded : list bytes) : Z := zlen (filter (λ d, shard_in s d = true) coded).
Lemma shard_in_kept s s' d : kept s s' -> shard_in s d = true -> shard_in s' d = true.
Proof.
  intros (_ & Hk & _). unfold shard_in. destruct (FromBytes_ok alg Halg d) as (m & E & Hw). rewrite E, !bool_decide_eq_true.
  apply Hk; [done|]. by eapply (FromBytes_names alg Halg d CodecRaw).
Qed.
Lemma fetch_shard_spec s d m : d ≠ [] -> FromBytes alg d = Ok m -> fetch_shard alg s (String m) = if shard_in s d then Some d else None.
Proof.
  intros Hne Hm. destruct (FromBytes_ok alg Halg d) as (m' & E & Hw). rewrite Hm in E. injection E as <-.
  unfold fetch_shard, shard_in. rewrite Parse_wf_String, Hm by done. destruct (bs_Get m s) as [x|e].
  - rewrite (VerifyShard_spec alg Halg x d m Hm). case_bool_decide as Ex; [subst x|].
    + rewrite bool_decide_eq_true_2 by done. destruct (Z.ltb_spec 0 (zlen d)); [done|]. destruct d; [done|]. unfold zlen in *. simpl in *. lia.
    + rewrite bool_decide_eq_false_2 by congruence. by rewrite andb_false_r.
  - by rewrite bool_decide_eq_false_2.
Qed.
Lemma fetch_shards s coded mids : Forall (λ d : bytes, d ≠ []) coded -> Forall2 (λ d m, FromBytes alg d = Ok m) coded mids ->
  Forall2 (λ o d, o = None \/ o = Some d) (map (fetch_shard alg s) (map String mids)) coded /\
  present (map (fetch_shard alg s) (map String mids)) = readable s coded.
Proof.
  intros Hne Hm. induction Hm as [|d m coded mids Hd _ IH]; [done|]. apply Forall_cons in Hne as [Hd0 Hne]. destruct (IH Hne) as [Hf Hp].
  cbn [map]. rewrite (fetch_shard_spec s d m Hd0 Hd). unfold present, readable in *. cbn [omap list_omap id]. rewrite filter_cons.
  destruct (shard_in s d) eqn:Es.
  - rewrite decide_True by done. unfold zlen in *. cbn [length]. split; [constructor; [by right|done]|lia].
  - rewrite decide_False by done. split; [constructor; [by left|done]|done].
Qed.
Lemma put_missing_heals coded mids n s : inv s -> Forall2 (λ d m, FromBytes alg d = Ok m) coded mids ->
  exists n' s', put_missing (Some <$> coded) (map String mids) n s = (Ok n', s') /\ kept s s' /\ Forall (λ d, shard_in s' d = true) coded.
Proof.
  intros Hs Hm. revert n s Hs. induction Hm as [|d m coded mids Hd _ IH]; intros n s Hs; cbn [fmap list_fmap map put_missing].
  { eexists _, _. split_and!; [done|by apply kept_refl|done]. }
  destruct (FromBytes_ok alg Halg d) as (m' & E & Hw). rewrite Hd in E. injection E as <-.
  pose proof (FromBytes_names alg Halg d CodecRaw m ltac:(done) Hd) as Hn.
  rewrite bool_decide_eq_false_2 by (rewrite wf_String by done; done). rewrite Parse_wf_String by done.
  assert (forall n1 s1, kept s s1 -> shard_in s1 d = true -> exists n' s', put_missing (Some <$> coded) (map String mids) n1 s1 = (Ok n', s') /\
    kept s s' /\ Forall (λ d, shard_in s' d = true) (d :: coded)) as Hrest.
  { intros n1 s1 Hk1 Hd1. destruct (IH n1 s1 (proj1 Hk1)) as (n' & s' & E' & Hk' & Hall). exists n', s'.
    split_and!; [done|by eapply kept_trans|]. constructor; [by eapply shard_in_kept|done]. }
  assert (forall s1, bs_Get m s1 = Ok d -> shard_in s1 d = true) as Hin by (intros s1 Hg; unfold shard_in; rewrite Hd; by apply bool_decide_eq_true).
  destruct (put_total (alg := alg) (inv := inv) m d s Hs Hw Hn) as [s1 Eput]. pose proof (put_kept _ _ _ _ _ Hs Hw Eput) as Hk1.
  pose proof (put_spec (alg := alg) (inv := inv) m d s _ _ Hs Hw Eput) as (_ & Hok & _). destruct (Hok eq_refl) as [_ Hg].
  destruct (bs_Has m s) as [[]|] eqn:Eh; [|rewrite Eput; apply Hrest; [done|by apply Hin]..].
  apply Hrest; [by apply kept_refl|]. destruct (has_readable (alg := alg) (inv := inv) m s Hs Hw Eh) as (d' & Hn' & Hg'). apply Hin.
  by rewrite (names_unique alg Halg m d d').
Qed.

Lemma readable_all s coded : readable s coded = zlen coded -> Forall (λ d, shard_in s d = true) coded.
Proof.
  unfold readable, zlen. intros E. apply Nat2Z.inj in E. induction coded as [|d coded IH]; [done|]. rewrite filter_cons in E.
  destruct (decide _) as [Hd|_]; cbn [length] in E; [constructor; [done|apply IH; lia]|].
  pose proof (length_filter (λ d, shard_in s d = true) coded). lia.
Qed.
(** the manifest of [m] is that of an encoded block, k of whose shards can be read *)
Definition repairable s (m : MID) (en : Encoded) : Prop := exists cfg data,
  config_ok cfg /\ RSLaws cfg /\ data ≠ [] /\ zlen data < 2 ^ 63 /\ Encode alg cfg data = Ok en /\
  GetManifest m s = Ok (Some (en_Manifest en)) /\ DataShards cfg <= readable s (map sh_Data (en_Shards en)).
Definition healthy s (en : Encoded) : Prop := Forall (λ d, shard_in s d = true) (map sh_Data (en_Shards en)).
Lemma readable_kept s s' coded : kept s s' -> readable s coded <= readable s' coded.
Proof.
  intros Hk. unfold readable, zlen. apply inj_le. induction coded as [|d coded IH]; [done|]. rewrite !filter_cons.
  destruct (decide (shard_in s d = true)) as [Hd|]; [|destruct (decide (shard_in s' d = true)); cbn [length]; lia].
  rewrite decide_True by by eapply shard_in_kept. cbn [length]. lia.
Qed.
Lemma repairable_kept s s' m en : kept s s' -> repairable s m en -> repairable s' m en.
Proof.
  intros Hk (cfg & data & Hc & Hl & Hne & Hlen & E & Hg & Hr). exists cfg, data. split_and!; try done.
  - by rewrite (GetManifest_kept s s').
  - etrans; [exact Hr|]. by apply readable_kept.
Qed.
(** on such a manifest [RepairMID] counts the readable shards and acts on the count *)
Lemma RepairMID_run s m cfg data en : config_ok cfg -> RSLaws cfg -> data ≠ [] -> zlen data < 2 ^ 63 -> Encode alg cfg data = Ok en ->
  GetManifest m s = Ok (Some (en_Manifest en)) -> let coded := map sh_Data (en_Shards en) in
  zlen coded = total cfg /\ exists mids, Forall2 (λ d m, FromBytes alg d = Ok m) coded mids /\
  RepairMID alg m s =
    if readable s coded =? total cfg then (Ok 0, s) else
    if readable s coded <? DataShards cfg then (Err (New "erasure: unrecoverable MID"), s) else
    put_missing (Some <$> coded) (map String mids) 0 s.
Proof.
  intros Hcfg Hlaws Hne Hlen E Hg. cbv zeta.
  destruct (Encode_spec alg Halg cfg Hcfg data Hne Hlen) as (en' & original & coded & mids & E' & _ & Ec & Hm & Hl & Hsz & _ & Hv & Em).
  rewrite E in E'. injection E' as <-. rewrite Ec in *. rewrite Em in Hg. split; [done|]. exists mids. split; [done|].
  pose proof Hcfg as (Hk2 & Hp0 & Hmax). unfold MinShards, MaxShards in *.
  assert (Forall (λ d : bytes, d ≠ []) coded) as Hne'.
  { eapply Forall_impl; [exact Hsz|]. intros d Hd ->. change (zlen (@nil byte)) with 0 in Hd. unfold shard_len in Hd.
    pose proof (Z.div_str_pos (zlen data + DataShards cfg - 1) (DataShards cfg)). assert (0 < zlen data) by (destruct data; [done|unfold zlen; simpl; lia]). lia. }
  destruct (fetch_shards s coded mids Hne' Hm) as [Hf Hpres].
  unfold RepairMID. rewrite Hg. cbn [wrap em_DataShards em_ParityShards em_ShardMids]. cbv zeta.
  assert (zlen (map String mids) = total cfg) as Hlm by (rewrite <-Hl; unfold zlen; by rewrite length_map, (Forall2_length _ _ _ Hm)).
  rewrite Hlm, Hpres. fold (total cfg). rewrite Z.eqb_refl. destruct (Z.eqb_spec (total cfg) 0) as [Hz|_]; [unfold total in Hz; lia|]. cbn [negb].
  assert (NewConfig (DataShards cfg) (ParityShards cfg) = Ok cfg) as Hnc by (apply NewConfig_ok; split; [by destruct cfg|done]).
  unfold NewEncoder. rewrite Hnc. cbn [mbind result_bind]. rewrite Hnc, rs_new. cbn [wrap mbind result_bind].
  destruct (readable s coded =? total cfg); [done|]. destruct (Z.ltb_spec (readable s coded) (DataShards cfg)) as [|Hge]; [done|].
  by rewrite (rs_reconstruct coded _ Hl Hne' Hv Hf) by lia.
Qed.
Lemma RepairMID_heals s m en : inv s -> repairable s m en ->
  exists n s', RepairMID alg m s = (Ok n, s') /\ kept s s' /\ healthy s' en.
Proof.
  intros Hs (cfg & data & Hcfg & Hlaws & Hne & Hlen & E & Hg & Hr).
  destruct (RepairMID_run s m cfg data en Hcfg Hlaws Hne Hlen E Hg) as (Hl & mids & Hm & ->). unfold healthy.
  destruct (Z.eqb_spec (readable s (map sh_Data (en_Shards en))) (total cfg)) as [Hall|_].
  { eexists _, s. split_and!; [done|by apply kept_refl|]. apply readable_all. lia. }
  destruct (Z.ltb_spec (readable s (map sh_Data (en_Shards en))) (DataShards cfg)) as [|_]; [lia|]. by apply put_missing_heals.
Qed.
Lemma RepairMID_healthy s m en : repairable s m en -> healthy s en -> RepairMID alg m s = (Ok 0, s).
Proof.
  intros (cfg & data & Hcfg & Hlaws & Hne & Hlen & E & Hg & Hr) Hh.
  destruct (RepairMID_run s m cfg data en Hcfg Hlaws Hne Hlen E Hg) as (Hl & mids & _ & ->).
  replace (readable s (map sh_Data (en_Shards en))) with (total cfg); [by rewrite Z.eqb_refl|]. rewrite <-Hl. unfold readable. symmetry.
  clear -Hh. induction Hh as [|d coded Hd _ IH]; [done|]. rewrite filter_cons, decide_True by done. unfold zlen in *. cbn [length]. lia.
Qed.
Lemma audit_heals mids : forall stop stats s, inv s -> (length mids ≤ stop)%nat ->
  exists stats' s', audit alg mids stop stats s = (true, stats', s') /\ kept s s' /\
    forall m en, m ∈ mids -> repairable s m en -> healthy s' en.
Proof.
  induction mids as [|m mids IH]; intros stop stats s Hs Hstop; cbn [audit].
  { eexists _, _. split_and!; [done|by apply kept_refl|]. by intros m en ?%elem_of_nil. }
  destruct stop as [|stop]; [simpl in Hstop; lia|]. simpl in Hstop.
  assert (forall stats1 s1, kept s s1 -> (forall en, repairable s m en -> healthy s1 en) ->
    exists stats' s', audit alg mids stop stats1 s1 = (true, stats', s') /\ kept s s' /\
      forall m' en, m' ∈ m :: mids -> repairable s m' en -> healthy s' en) as Hnext.
  { intros stats1 s1 Hk1 Hm. destruct (IH stop stats1 s1 (proj1 Hk1) ltac:(lia)) as (stats' & s' & E & Hk & Hheal).
    exists stats', s'. split_and!; [done|by eapply kept_trans|]. intros m' en [->|Hin]%elem_of_cons Hrep.
    - eapply Forall_impl; [exact (Hm en Hrep)|]. intros d. by apply shard_in_kept.
    - apply (Hheal m' en Hin). by eapply repairable_kept. }
  assert (forall r, GetManifest m s = r -> match r with Ok (Some _) => True | _ => forall en, repairable s m en -> False end) as Hno.
  { intros [[mf|]|e] Eg; [done|..]; intros en (cfg & data & _ & _ & _ & _ & _ & Hg & _); congruence. }
  specialize (Hno _ eq_refl). destruct (GetManifest m s) as [[mf|]|e].
  - destruct (RepairMID_kept m s Hs) as (r & s1 & E1 & Hk1). rewrite E1.
    assert (forall en, repairable s m en -> healthy s1 en /\ is_ok r = true) as Hm.
    { intros en Hrep. destruct (RepairMID_heals s m en Hs Hrep) as (n & s1' & E1' & _ & Hh). rewrite E1 in E1'. injection E1' as -> ->. done. }
    destruct r as [n|e]; apply Hnext; try done; intros en Hrep; by apply Hm.
  - apply Hnext; [by apply kept_refl|]. intros en Hrep. by destruct (Hno en Hrep).
  - apply Hnext; [by apply kept_refl|]. intros en Hrep. by destruct (Hno en Hrep).
Qed.
End facts.

(** ** Properties *)
Section properties.
Context `{Multiformats} `{!MultiformatsLaws} (alg : Z) (Halg : isSupportedHash alg = true) `{!CollisionFree alg}.
Context `{Protos} `{ReedSolomon} {St : Type} `{Blockstore St} `{MetaStore St} (inv : St -> Prop) `{!ShardStore St alg inv}.

(** C17: every damaged block that can be repaired is repaired: on a store that takes every
    write and in which what [Has] answers for is there intact ([ShardStore]), one cycle of the
    worker that is not cancelled leaves, for each listed block whose manifest is that of an
    encoding and k of whose shards can still be read, all its shards readable - whatever
    the other listed blocks and manifests are, well-formed or not - and it neither loses a
    block nor touches the metadata, so that later cycles find the block healthy.  A shard
    that is stored with other bytes counts as present and is never put back
    ([RepairMID_keeps_corrupt_shard]). *)
Theorem AuditAndRepair_heals keys sealed blocks stop worker s : inv s ->
  (length (audit_mids keys sealed blocks s) ≤ stop)%nat ->
  exists stats s', AuditAndRepair alg keys sealed blocks stop worker s = (stats, add_stats worker stats, s') /\
    kept alg inv s s' /\
    forall m en, m ∈ audit_mids keys sealed blocks s -> repairable alg s m en ->
      healthy alg s' en /\ RepairMID alg m s' = (Ok 0, s').
Proof.
  intros Hs Hstop. unfold AuditAndRepair.
  destruct (audit_heals alg Halg inv _ stop zeroStats s Hs Hstop) as (stats & s' & E & Hk & Hheal). rewrite E.
  exists stats, s'. split_and!; [done|done|]. intros m en Hin Hrep. pose proof (Hheal m en Hin Hrep) as Hh. split; [done|].
  apply (RepairMID_healthy alg Halg s' m en); [by apply (repairable_kept alg Halg inv s s')|done].
Qed.
End properties.

(** ** The in-memory store, and a witness on it: one of three shards is left out *)
Section memory.
Context `{Multiformats} `{!MultiformatsLaws} (alg : Z) (Halg : isSupportedHash alg = true) `{!CollisionFree alg}.
#[local] Existing Instance mem_blockstore.
Lemma mem_shard_store : ShardStore (H0 := mem_blockstore alg) Memstore alg (mem_ok alg).
Proof.
  split; [apply (mem_laws alg Halg)|apply (mem_total alg Halg)|..].
  - intros m s [_ Hn] Hm. cbn [bs_Has bs_Get mem_blockstore]. unfold mem_Has, mem_Get. intros [= [d Hd]%bool_decide_eq_true].
    rewrite Hd. exists d. split; [|done]. destruct (Hn _ _ Hd) as (m' & Hw & Ek & Hnm). by rewrite (String_inj m m' Hm Hw Ek).
  - intros m d k s r s' _. cbn [bs_Put mem_blockstore st_GetMeta mem_meta]. unfold mem_Put, mem_GetMeta.
    destruct (verifyContent alg m d); by intros [= <- <-].
Qed.
End memory.

Section demo.
#[local] Instance repair_blocks : Blockstore Memstore := mem_blockstore BLAKE3.
(** the manifest keys of the in-memory store *)
Definition mem_manifests (s : Memstore) : list bytes :=
  map (drop 8) (filter (λ k, take 8 k = lit "erasure/") (map fst (map_to_list (meta s)))).
Definition demo_encoded_block : Encoded := match Encode BLAKE3 toy_config demo_block with Ok en => en | Err _ => mkEncoded zeroMID 0 [] (mkErasureManifest [] 0 0 [] 0) end.
Definition damaged : Memstore :=
  let m := en_OriginalMID demo_encoded_block in
  let s := (SetManifest m (Some (en_Manifest demo_encoded_block)) NewMemstore).2 in
  foldl (λ s sh, (bs_Put (sh_ShardMID sh) (sh_Data sh) s).2) s (drop 1 (en_Shards demo_encoded_block)).
Lemma AuditAndRepair_heals_witness :
  audit_mids (Some mem_manifests) None None damaged = [en_OriginalMID demo_encoded_block] /\
  readable BLAKE3 damaged (map sh_Data (en_Shards demo_encoded_block)) = 2 /\
  exists stats s', AuditAndRepair BLAKE3 (Some mem_manifests) None None 1 zeroStats damaged = (stats, add_stats zeroStats stats, s') /\
    healthy BLAKE3 s' demo_encoded_block.
Proof.
  assert (audit_mids (Some mem_manifests) None None damaged = [en_OriginalMID demo_encoded_block]) as Emids by (vm_compute; reflexivity).
  assert (readable BLAKE3 damaged (map sh_Data (en_Shards demo_encoded_block)) = 2) as Er by (vm_compute; reflexivity).
  split; [exact Emids|]. split; [exact Er|].
  destruct (AuditAndRepair_heals (St := Memstore) BLAKE3 eq_refl (mem_ok BLAKE3) (ShardStore0 := mem_shard_store BLAKE3 eq_refl)
    (Some mem_manifests) None None 1 zeroStats damaged) as (stats & s' & E & _ & Hheal).
  - assert (forall m d s, mem_ok BLAKE3 s -> wf_mid m -> mem_ok BLAKE3 (bs_Put m d s).2) as Hput.
    { intros m d s Hs Hm. destruct (bs_Put m d s) as [r s1] eqn:E. by destruct (mem_Put_ok BLAKE3 eq_refl m d s r s1 Hs Hm E). }
    unfold damaged. cbv zeta.
    assert (Forall (λ sh, wf_mid (sh_ShardMID sh)) (drop 1 (en_Shards demo_encoded_block))) as Hwf.
    { repeat constructor; try (vm_compute; reflexivity); by vm_compute. }
    revert Hwf. generalize (drop 1 (en_Shards demo_encoded_block)). intros l Hwf.
    assert (mem_ok BLAKE3 (SetManifest (en_OriginalMID demo_encoded_block) (Some (en_Manifest demo_encoded_block)) NewMemstore).2) as H0'.
    { split; [vm_compute; reflexivity|]. intros k d Hk. exfalso. vm_compute in Hk. discriminate Hk. }
    revert H0'. generalize ((SetManifest (en_OriginalMID demo_encoded_block) (Some (en_Manifest demo_encoded_block)) NewMemstore).2). 
    induction Hwf as [|sh l Hsh _ IH]; intros s Hs; [exact Hs|]. cbn [foldl]. apply IH, Hput; [exact Hs|exact Hsh].
  - rewrite Emids. reflexivity.
  - exists stats, s'. split; [exact E|]. apply (Hheal (en_OriginalMID demo_encoded_block) demo_encoded_block).
    + rewrite Emids. by left.
    + exists toy_config, demo_block. split; [vm_compute; split_and!; discriminate|]. split; [exact toy_rs_laws|]. split; [discriminate|].
      split; [vm_compute; reflexivity|]. split; [vm_compute; reflexivity|]. split; [vm_compute; reflexivity|]. change (2 <= readable BLAKE3 damaged (map sh_Data (en_Shards demo_encoded_block))). rewrite Er. lia.
Defined.
(** a shard that is stored under its MID with other bytes is never put back *)
Definition corrupted : Memstore :=
  match en_Shards demo_encoded_block with
  | sh :: _ => mkMemstore (<[String (sh_ShardMID sh) := lit "xyz"]> (blocks damaged)) (sizeVal damaged) (meta damaged) (seals damaged)
  | [] => damaged
  end.
Lemma RepairMID_keeps_corrupt_shard :
  let '(r, s') := RepairMID BLAKE3 (en_OriginalMID demo_encoded_block) corrupted in
  r = Ok 0 /\ readable BLAKE3 s' (map sh_Data (en_Shards demo_encoded_block)) = 2.
Proof. vm_compute. split; reflexivity. Qed.
End demo.
