(* ===== verification/Names.v ===== *)
(** * Signed name records (src/core/memns/record.go, src/core/keyring/keyring.go,
      src/net/dht/validator.go)

    A record points a name - the hash of its owner's public key - at a target.  [BuildRecord]
    signs one, [VerifyRecord] is the check of the resolver, [Validate] and [Select] those of
    the DHT.  The signature schemes are third-party code: [Crypto] is what is called of
    them, [CryptoLaws] that a signature made with a key verifies under it.
    [BuildRecord_accepted]: what is published is accepted everywhere until it expires.
    [anyone_can_publish]: so is a record any other key holder makes for the name. *)
From S2P Require Import Prelude Mid Wire.

(** ** Text *)
Fixpoint index_of (sub s : bytes) : option nat :=
  if HasPrefix s sub then Some 0%nat else
  match s with [] => None | _ :: s => S <$> index_of sub s end.
(** Unicode white space, in UTF-8 *)
Definition spaces : list bytes :=
  map (λ l, map z2b l) [[9]; [10]; [11]; [12]; [13]; [32]; [194; 133]; [194; 160]; [225; 154; 128];
    [226; 128; 128]; [226; 128; 129]; [226; 128; 130]; [226; 128; 131]; [226; 128; 132]; [226; 128; 133]; [226; 128; 134];
    [226; 128; 135]; [226; 128; 136]; [226; 128; 137]; [226; 128; 138]; [226; 128; 168]; [226; 128; 169]; [226; 128; 175];
    [226; 129; 159]; [227; 128; 128]].
Fixpoint trim_left (sps : list bytes) (fuel : nat) (s : bytes) : bytes :=
  match fuel with
  | O => s
  | S fuel =>
      match list_find (λ sp, HasPrefix s sp = true) sps with
      | Some (_, sp) => trim_left sps fuel (drop (length sp) s)
      | None => s
      end
  end.
Definition TrimSpace (s : bytes) : bytes :=
  let s := trim_left spaces (length s) s in
  reverse (trim_left (map reverse spaces) (length s) (reverse s)).
(** [big.Int.Text(36)] of a non-negative number *)
Definition digit36 (d : Z) : byte := if d <? 10 then z2b (48 + d) else z2b (87 + d).
Fixpoint digits36 (fuel : nat) (z : Z) (acc : bytes) : bytes :=
  match fuel with
  | O => acc
  | S fuel => let acc := digit36 (z mod 36) :: acc in if z <? 36 then acc else digits36 fuel (z / 36) acc
  end.
Definition Text36 (z : Z) : bytes := digits36 (S (Z.to_nat (Z.log2 z))) z [].

(** ** Records *)
Record MemRoute := mkMemRoute { mr_Target : bytes; mr_Weight : Z; mr_Label : bytes; mr_Conditions : gmap bytes bytes }.
Record MemLogEntry := mkMemLogEntry { ml_Sequence : Z; ml_Value : bytes; ml_Timestamp : Z; ml_Signature : bytes; ml_Message : bytes }.
Record MemNSRecord := mkMemNSRecord {
  nr_Value : bytes;
  nr_Signature : bytes;
  nr_Sequence : Z;
  nr_Validity : Z;
  nr_PublicKey : bytes;
  nr_Ttl : Z;
  nr_ValidityType : Z;
  nr_Routes : list MemRoute;
  nr_Delegates : list bytes;
  nr_Changelog : list MemLogEntry;
  nr_Meta : gmap bytes bytes;
}.
Definition ValidityType_EOL : Z := 0.

Class Crypto := {
  PubKey : Type;
  PrivKey : Type;
  MarshalPublicKey : PubKey -> result bytes;
  UnmarshalPublicKey : bytes -> result PubKey;
  Sign : PrivKey -> bytes -> result bytes;
  pk_Verify : PubKey -> bytes -> bytes -> result bool;
}.
(** the two halves of a key pair *)
Class CryptoLaws `{Crypto} (pair : PrivKey -> PubKey -> Prop) : Prop := {
  Sign_Verify sk pk msg sig : pair sk pk -> Sign sk msg = Ok sig -> pk_Verify pk msg sig = Ok true;
  Unmarshal_Marshal pk bs : MarshalPublicKey pk = Ok bs -> UnmarshalPublicKey bs = Ok pk;
  Marshal_ne pk bs : MarshalPublicKey pk = Ok bs -> bs ≠ [];
}.
(** encoding/base64 (StdEncoding) and the path of net/url *)
Class Text := {
  b64_Encode : bytes -> bytes;
  b64_Decode : bytes -> result bytes;
  url_Path : bytes -> result bytes;
}.
Class TextLaws `{Text} : Prop := b64_roundtrip bs : b64_Decode (b64_Encode bs) = Ok bs.

Record Key `{Crypto} := mkKey { k_Name : bytes; k_PrivKey : PrivKey; k_PubKey : PubKey; k_MemNSName : bytes }.

(** ** Targets *)
Definition isValidTargetIdentifier (s : bytes) : bool :=
  negb (bool_decide (s = [])) &&
  forallb (λ b, let r := b2z b in
    ((97 <=? r) && (r <=? 122)) || ((65 <=? r) && (r <=? 90)) || ((48 <=? r) && (r <=? 57)) ||
    (r =? 45) || (r =? 95) || (r =? 46)) s.
Section target.
Context `{Multiformats, Text}.
Definition strip_url (val : bytes) : bytes :=
  if HasPrefix val (lit "http://") || HasPrefix val (lit "https://")
  then match url_Path val with Ok p => p | Err _ => val end else val.
Definition strip_explorer (val : bytes) : bytes :=
  match index_of (lit "/explorer/mid/") val with
  | Some idx => drop (idx + 14) val
  | None =>
      match index_of (lit "/explorer/memns/") val with
      | Some idx => lit "/memns/" ++ drop (idx + 16) val
      | None =>
          match index_of (lit "/explorer/memlink/") val with
          | Some idx => lit "/memlink/" ++ drop (idx + 18) val
          | None => val
          end
      end
  end.
Definition ValidateAndNormalizeValue (input : bytes) : result bytes :=
  let val := TrimSpace input in
  if bool_decide (val = []) then Err (New "memns: target value cannot be empty") else
  let val := strip_explorer (strip_url val) in
  let hasMemPrefix := HasPrefix val (lit "/mem/") || HasPrefix val (lit "mem/") in
  let val := TrimPrefix val (lit "/") in
  if HasPrefix val (lit "memns/") then
    let targetName := TrimPrefix val (lit "memns/") in
    if bool_decide (targetName = []) then Err (New "memns: invalid MemNS target name") else Ok (lit "/memns/" ++ targetName)
  else if HasPrefix val (lit "memlink/") then
    let targetDomain := TrimPrefix val (lit "memlink/") in
    if bool_decide (targetDomain = []) then Err (New "memns: invalid MemLink target domain") else Ok (lit "/memlink/" ++ targetDomain)
  else
  let val := if HasPrefix val (lit "mem/") then drop 4 val else val in
  let '(val, subpath) := match index_of (lit "/") val with
    | Some idx => (take idx val, drop idx val)
    | None => (val, [])
    end in
  match Parse val with
  | Ok m => Ok (lit "/mem/" ++ String m ++ subpath)
  | Err e =>
      if hasMemPrefix && isValidTargetIdentifier val then Ok (lit "/mem/" ++ val ++ subpath)
      else Err (Wrap "memns: invalid target MID" e)
  end.
End target.

(** ** Signing and checking *)
Definition CanonicalBytes (record : MemNSRecord) : bytes :=
  nr_Value record ++ PutUint64 (nr_Sequence record) ++ PutUint64 (nr_Validity record).
Definition CanonicalLogBytes (seq : Z) (value : bytes) (timestamp : Z) : bytes :=
  PutUint64 seq ++ value ++ PutUint64 timestamp.
Definition owner_key : bytes := lit "owner_key".

Section records.
Context `{Multiformats, Crypto, Text}.

Definition name_of (pubBytes : bytes) : bytes := lit "k" ++ Text36 (be_combine (sha256_Sum256 pubBytes)).
Definition DeriveMemNSName (pub : PubKey) : result bytes :=
  pubBytes ← wrap "failed to marshal public key" (MarshalPublicKey pub);
  Ok (lit "/memns/" ++ name_of pubBytes).

(** [now] is the clock, in nanoseconds *)
Definition BuildRecord (now : Z) (key : Key) (value : bytes) (seq ttl : Z) (routes : list MemRoute) (message : bytes) : result MemNSRecord :=
  value ← ValidateAndNormalizeValue value;
  let validity := i64 (now + ttl) in
  pubBytes ← wrap "failed to marshal public key" (MarshalPublicKey (k_PubKey key));
  let meta := {[ owner_key := b64_Encode pubBytes ]} in
  sig ← wrap "failed to sign changelog entry" (Sign (k_PrivKey key) (CanonicalLogBytes seq value now));
  let entry := mkMemLogEntry seq value now sig message in
  let record sig := mkMemNSRecord value sig seq validity pubBytes (u64 ttl) ValidityType_EOL routes [] [entry] meta in
  recordSig ← wrap "failed to sign record" (Sign (k_PrivKey key) (CanonicalBytes (record [])));
  Ok (record recordSig).

Definition check_signature (record : MemNSRecord) : result unit :=
  pubKey ← wrap "invalid public key in record" (UnmarshalPublicKey (nr_PublicKey record));
  ok ← wrap "signature verification error" (pk_Verify pubKey (CanonicalBytes record) (nr_Signature record));
  if (ok : bool) then Ok tt else Err (New "invalid signature").
Definition is_delegate (record : MemNSRecord) : bool := bool_decide (nr_PublicKey record ∈ nr_Delegates record).
Definition VerifyRecord (now : Z) (record : MemNSRecord) : result unit :=
  if nr_Sequence record =? 0 then Err (New "sequence must be > 0") else
  if nr_Validity record <=? now then Err (New "record expired") else
  _ ← wrap "invalid record target value" (ValidateAndNormalizeValue (nr_Value record));
  _ ← check_signature record;
  match nr_Meta record !! owner_key with
  | Some ownerBase64 =>
      match b64_Decode ownerBase64 with
      | Ok ownerBytes =>
          if bool_decide (ownerBytes = nr_PublicKey record) || is_delegate record then Ok tt
          else Err (New "signer is not the owner and not in delegates list")
      | Err _ => Ok tt
      end
  | None => Ok tt
  end.

(** ** The validator of the DHT *)
Context `{Proto MemNSRecord}.
Definition owner_bytes (record : MemNSRecord) : bytes :=
  let ob := match nr_Meta record !! owner_key with
    | Some ownerBase64 => match b64_Decode ownerBase64 with Ok ob => ob | Err _ => [] end
    | None => []
    end in
  if bool_decide (ob = []) then nr_PublicKey record else ob.
Definition validateMemNS (now : Z) (key value : bytes) : result unit :=
  record ← wrap "failed to unmarshal memns record" (unmarshal (A := MemNSRecord) value);
  if nr_Sequence record =? 0 then Err (New "sequence must be > 0") else
  if nr_Validity record <=? now then Err (New "record expired") else
  _ ← check_signature record;
  let ownerBytes := owner_bytes record in
  if negb (bool_decide (ownerBytes = nr_PublicKey record) || is_delegate record)
  then Err (New "signer is not the owner and not in delegates list") else
  if bool_decide (TrimPrefix key (lit "/memns/") = name_of ownerBytes) then Ok tt
  else Err (New "record owner public key does not match key name").

(** the parsers of libp2p behind the registries of anchors and relays *)
Context (peer_info : bytes -> option (bytes * list bytes)) (registry : bytes -> option (list bytes)) (wire : bytes -> option (bytes * list bytes)).
Context (peer_Decode multiaddr_ok : bytes -> bool).
Definition check_addrs (id : bytes) (addrs : list bytes) : result unit :=
  if negb (peer_Decode id) then Err (New "invalid peer ID") else
  if bool_decide (addrs = []) then Err (New "no addresses provided") else
  if forallb multiaddr_ok addrs then Ok tt else Err (New "invalid multiaddr").
Definition validateMembuss (key value : bytes) : result unit :=
  if HasPrefix key (lit "/membuss/test/") then
    if bool_decide (value = []) then Err (New "empty test value") else Ok tt
  else if bool_decide (key = lit "/membuss/anchors/v1") || bool_decide (key = lit "/membuss/relays/v1") then
    match peer_info value with
    | Some ((_ :: _) as id, addrs) => check_addrs id addrs
    | _ =>
        match registry value with
        | Some ((_ :: _) as ids) => if forallb peer_Decode ids then Ok tt else Err (New "invalid peer ID in registry")
        | _ =>
            match wire value with
            | Some ((_ :: _) as id, addrs) => check_addrs id addrs
            | _ => Err (New "invalid anchor payload")
            end
        end
    end
  else Err (New "unsupported key path").
Definition Validate (now : Z) (key value : bytes) : result unit :=
  if HasPrefix key (lit "/memns/") then validateMemNS now key value else
  if HasPrefix key (lit "/membuss/") then validateMembuss key value else
  Err (New "unsupported namespace for key").

(** the best record so far, with its index *)
Definition better (r best : MemNSRecord) : bool :=
  (nr_Sequence best <? nr_Sequence r) || ((nr_Sequence r =? nr_Sequence best) && (nr_Validity best <? nr_Validity r)).
Fixpoint best_of (idx : nat) (values : list bytes) (best : option (nat * MemNSRecord)) : option (nat * MemNSRecord) :=
  match values with
  | [] => best
  | val :: values =>
      best_of (S idx) values
        match unmarshal (A := MemNSRecord) val with
        | Err _ => best
        | Ok record =>
            match best with
            | None => Some (idx, record)
            | Some (_, b) => if better record b then Some (idx, record) else best
            end
        end
  end.
Definition Select (key : bytes) (values : list bytes) : result nat :=
  if bool_decide (values = []) then Err (New "no values") else
  if HasPrefix key (lit "/memns/") then
    match best_of 0 values None with Some (idx, _) => Ok idx | None => Ok 0%nat end
  else Ok 0%nat.
End records.

(** [cid.String] of a version 1 CID is base 32: lower-case letters and digits *)
Definition base32_char (b : byte) : bool := ((97 <=? b2z b) && (b2z b <=? 122)) || ((48 <=? b2z b) && (b2z b <=? 57)).
Definition is_base32 (b : byte) : Prop := base32_char b = true.
Class CidBase32 `{Multiformats} : Prop := {
  cid_base32 c mh : Forall is_base32 (cid_String c mh);
  cid_String_ne c mh : cid_String c mh ≠ [];
}.

(** ** Facts about text *)
Lemma HasPrefix_cons (a b : byte) s p : HasPrefix (a :: s) (b :: p) = bool_decide (a = b) && HasPrefix s p.
Proof.
  unfold HasPrefix. cbn [length take firstn]. destruct (bool_decide_reflect (a = b)) as [->|Hne]; cbn [andb].
  - apply bool_decide_ext. split; [by intros [= ->]|by intros ->].
  - apply bool_decide_eq_false_2. by intros [= E _].
Qed.
Lemma HasPrefix_nil s : HasPrefix s [] = true.
Proof. done. Qed.
Lemma HasPrefix_short b p : HasPrefix [] (b :: p) = false.
Proof. done. Qed.
Lemma base32_not_space b s : is_base32 b -> list_find (λ sp, HasPrefix (b :: s) sp = true) (map reverse spaces) = None.
Proof.
  intros Hb. apply list_find_None. rewrite Forall_forall. intros sp Hsp Hp.
  assert (forallb (λ sp : bytes, match sp with [] => false | c :: _ => negb (base32_char c) end) (map reverse spaces) = true) as Hall by (vm_compute; reflexivity).
  rewrite forallb_forall in Hall. specialize (Hall sp). rewrite <-list_elem_of_In in Hall. specialize (Hall Hsp).
  destruct sp as [|c sp]; [done|]. rewrite HasPrefix_cons in Hp. unfold is_base32 in Hb.
  apply andb_prop in Hp as [Hc%bool_decide_eq_true _]. subst c. by rewrite Hb in Hall.
Qed.
Lemma index_of_base32 sub s : Forall is_base32 s -> index_of (Byte.x2f :: sub) s = None.
Proof.
  induction 1 as [|b s Hb _ IH]; [done|]. cbn [index_of]. rewrite HasPrefix_cons, IH.
  rewrite bool_decide_eq_false_2; [done|]. intros ->. by vm_compute in Hb.
Qed.
Section text_facts.
Context `{Multiformats} `{!MultiformatsLaws} `{!CidBase32} `{Text}.
Lemma TrimSpace_base32 (c : byte) mid s : list_find (λ sp, HasPrefix (c :: mid ++ s) sp = true) spaces = None ->
  Forall is_base32 s -> s ≠ [] -> TrimSpace (c :: mid ++ s) = c :: mid ++ s.
Proof.
  intros Hc Hs Hne. unfold TrimSpace. cbn [length trim_left]. rewrite Hc.
  destruct s as [|b s _] using rev_ind; [done|]. rewrite app_assoc. change (c :: (mid ++ s) ++ [b]) with ((c :: mid ++ s) ++ [b]).
  rewrite reverse_app. change (reverse [b]) with [b]. cbn [app length]. apply Forall_app in Hs as [_ [Hb _]%Forall_cons_1].
  cbn [trim_left]. rewrite (base32_not_space b _ Hb). by rewrite reverse_cons, reverse_involutive.
Qed.
(** a content path is its own normal form *)
Lemma Validate_mem m : wf_mid m -> ValidateAndNormalizeValue (lit "/mem/" ++ String m) = Ok (lit "/mem/" ++ String m).
Proof.
  intros Hm. pose proof (wf_String m Hm) as Es. pose proof (cid_base32 (codec m) (Hash m)) as Hb.
  pose proof (cid_String_ne (codec m) (Hash m)) as Hne. unfold ValidateAndNormalizeValue.
  assert (TrimSpace (lit "/mem/" ++ String m) = lit "/mem/" ++ String m) as ->.
  { rewrite Es. apply (TrimSpace_base32 Byte.x2f (lit "mem/mem") (cid_String (codec m) (Hash m))); [reflexivity|done|done]. }
  rewrite bool_decide_eq_false_2 by done.
  assert (strip_url (lit "/mem/" ++ String m) = lit "/mem/" ++ String m) as -> by reflexivity.
  assert (forall sub, HasPrefix sub (lit "/e") = true -> index_of sub (lit "/mem/" ++ String m) = None) as Hidx.
  { intros [|c [|e sub]]; [done|intros He; by apply bool_decide_eq_true in He|]. intros He. change (lit "/e") with [Byte.x2f; Byte.x65] in He. rewrite !HasPrefix_cons in He.
    apply andb_prop in He as [->%bool_decide_eq_true [->%bool_decide_eq_true _]%andb_prop].
    rewrite Es. change (lit "/mem/" ++ Prefix ++ cid_String (codec m) (Hash m))
      with (Byte.x2f :: Byte.x6d :: Byte.x65 :: Byte.x6d :: Byte.x2f :: Byte.x6d :: Byte.x65 :: Byte.x6d :: cid_String (codec m) (Hash m)).
    cbn [index_of]. rewrite !HasPrefix_cons. cbn [bool_decide]. rewrite index_of_base32 by done. reflexivity. }
  assert (strip_explorer (lit "/mem/" ++ String m) = lit "/mem/" ++ String m) as ->.
  { unfold strip_explorer. rewrite !Hidx by reflexivity. done. }
  cbv zeta. assert (TrimPrefix (lit "/mem/" ++ String m) (lit "/") = lit "mem/" ++ String m) as -> by reflexivity.
  assert (HasPrefix (lit "mem/" ++ String m) (lit "memns/") = false) as -> by reflexivity.
  assert (HasPrefix (lit "mem/" ++ String m) (lit "memlink/") = false) as -> by reflexivity.
  assert (HasPrefix (lit "mem/" ++ String m) (lit "mem/") = true) as -> by reflexivity.
  assert (drop 4 (lit "mem/" ++ String m) = String m) as -> by reflexivity.
  assert (index_of (lit "/") (String m) = None) as ->.
  { rewrite Es. apply (index_of_base32 []). apply Forall_app. split; [|done]. unfold is_base32. by repeat constructor. }
  rewrite Parse_wf_String by done. by rewrite app_nil_r.
Qed.
End text_facts.

(** ** What signatures cover *)
Lemma CanonicalBytes_inj r1 r2 : 0 <= nr_Sequence r1 < 2 ^ 64 -> 0 <= nr_Sequence r2 < 2 ^ 64 ->
  0 <= nr_Validity r1 < 2 ^ 63 -> 0 <= nr_Validity r2 < 2 ^ 63 -> CanonicalBytes r1 = CanonicalBytes r2 ->
  nr_Value r1 = nr_Value r2 /\ nr_Sequence r1 = nr_Sequence r2 /\ nr_Validity r1 = nr_Validity r2.
Proof.
  intros S1 S2 V1 V2 E. unfold CanonicalBytes in E.
  apply app_inj_2 in E as [Ev E]; [|by rewrite !length_app, !PutUint64_length].
  apply app_inj_1 in E as [Es Ed]; [|by rewrite !PutUint64_length]. split; [done|].
  split; [rewrite <-(Uint64_PutUint64 (nr_Sequence r1)) by done|rewrite <-(Uint64_PutUint64 (nr_Validity r1)) by lia].
  - rewrite Es. by apply Uint64_PutUint64.
  - rewrite Ed. apply Uint64_PutUint64. lia.
Qed.

(** ** Properties *)
Section properties.
Context `{Multiformats} `{!MultiformatsLaws} `{!CidBase32} `{Text} `{!TextLaws} `{Crypto} (pair : PrivKey -> PubKey -> Prop) `{!CryptoLaws pair}.
Context `{Proto MemNSRecord}.
Context (roundtrip : forall (r : MemNSRecord) raw, marshal r = Ok raw -> unmarshal raw = Ok r).
Context (peer_info : bytes -> option (bytes * list bytes)) (registry : bytes -> option (list bytes)) (wire : bytes -> option (bytes * list bytes)).
Context (peer_Decode multiaddr_ok : bytes -> bool).
Abbreviation validate := (Validate peer_info registry wire peer_Decode multiaddr_ok).

Lemma check_signature_ok sk pk pkb r : pair sk pk -> MarshalPublicKey pk = Ok pkb -> nr_PublicKey r = pkb ->
  Sign sk (CanonicalBytes r) = Ok (nr_Signature r) -> check_signature r = Ok tt.
Proof.
  intros Hp Hm Hpk Hs. unfold check_signature. rewrite Hpk, (Unmarshal_Marshal pk pkb Hm). cbn [wrap mbind result_bind].
  by rewrite (Sign_Verify sk pk _ _ Hp Hs).
Qed.
Lemma validate_name now name raw : validate now (lit "/memns/" ++ name) raw = validateMemNS now (lit "/memns/" ++ name) raw.
Proof. reflexivity. Qed.
Lemma TrimPrefix_memns name : TrimPrefix (lit "/memns/" ++ name) (lit "/memns/") = name.
Proof. reflexivity. Qed.
Lemma owner_of_meta r ob : nr_Meta r !! owner_key = Some (b64_Encode ob) -> ob ≠ [] -> owner_bytes r = ob.
Proof. intros Hm Hne. unfold owner_bytes. rewrite Hm, b64_roundtrip. by rewrite bool_decide_eq_false_2. Qed.

(** a record of the owner of a name: signed by its key, which its metadata repeats *)
Record owned (key : Key) (r : MemNSRecord) : Prop := {
  ow_key : MarshalPublicKey (k_PubKey key) = Ok (nr_PublicKey r);
  ow_sig : Sign (k_PrivKey key) (CanonicalBytes r) = Ok (nr_Signature r);
  ow_meta : nr_Meta r !! owner_key = Some (b64_Encode (nr_PublicKey r));
  ow_seq : 0 < nr_Sequence r;
}.
Lemma owned_accepted t key m r raw : wf_mid m -> pair (k_PrivKey key) (k_PubKey key) -> DeriveMemNSName (k_PubKey key) = Ok (k_MemNSName key) ->
  owned key r -> nr_Value r = lit "/mem/" ++ String m -> marshal r = Ok raw ->
  is_ok (VerifyRecord t r) = (t <? nr_Validity r) /\
  forall name, HasPrefix name (lit "/memns/") = true -> is_ok (validate t name raw) = (t <? nr_Validity r) && bool_decide (name = k_MemNSName key).
Proof using All.
  intros Hm Hpair Hname [Epk Esig Hmeta Hseq] Hval Hraw. pose proof (check_signature_ok _ _ _ r Hpair Epk eq_refl Esig) as Hchk.
  unfold DeriveMemNSName in Hname. rewrite Epk in Hname. cbn [wrap mbind result_bind] in Hname. injection Hname as Hname.
  assert ((nr_Sequence r =? 0) = false) as Es0 by (apply Z.eqb_neq; lia).
  assert ((nr_Validity r <=? t) = negb (t <? nr_Validity r)) as Et by (destruct (Z.leb_spec (nr_Validity r) t), (Z.ltb_spec t (nr_Validity r)); done || lia).
  split.
  - unfold VerifyRecord. rewrite Es0, Et. destruct (t <? nr_Validity r); [|done]. cbn [negb]. rewrite Hval, Validate_mem by done.
    cbn [wrap mbind result_bind]. rewrite Hchk. cbn [mbind result_bind]. rewrite Hmeta, b64_roundtrip. by rewrite bool_decide_eq_true_2.
  - intros name Hpre. unfold Validate. rewrite Hpre. unfold validateMemNS. rewrite (roundtrip _ _ Hraw). cbn [wrap mbind result_bind].
    rewrite Es0, Et. destruct (t <? nr_Validity r); [|done]. cbn [negb andb].
    rewrite Hchk. cbn [mbind result_bind]. rewrite (owner_of_meta r _ Hmeta) by by eapply Marshal_ne.
    rewrite (bool_decide_eq_true_2 (nr_PublicKey r = nr_PublicKey r)) by done. cbn [orb negb]. rewrite <-Hname.
    unfold HasPrefix in Hpre. apply bool_decide_eq_true in Hpre. rewrite <-(take_drop (length (lit "/memns/")) name), Hpre, TrimPrefix_memns.
    destruct (bool_decide_reflect (drop (length (lit "/memns/")) name = name_of (nr_PublicKey r))) as [->|Hne].
    + by rewrite bool_decide_eq_true_2.
    + rewrite bool_decide_eq_false_2; [done|]. intros E. exact (Hne (app_inv_head (lit "/memns/") _ _ E)).
Qed.
Lemma BuildRecord_owned now key m seq ttl routes message r : wf_mid m -> 0 < seq ->
  BuildRecord now key (lit "/mem/" ++ String m) seq ttl routes message = Ok r ->
  owned key r /\ nr_Value r = lit "/mem/" ++ String m /\ nr_Sequence r = seq /\ nr_Routes r = routes /\ nr_Validity r = i64 (now + ttl) /\ nr_Ttl r = u64 ttl.
Proof.
  intros Hm Hseq. unfold BuildRecord. rewrite Validate_mem by done. cbn [mbind result_bind].
  destruct (MarshalPublicKey (k_PubKey key)) as [pkb|] eqn:Epk; [|done]. cbn [wrap mbind result_bind].
  destruct (Sign (k_PrivKey key) (CanonicalLogBytes _ _ _)) as [ls|]; [|done]. cbn [wrap mbind result_bind].
  destruct (Sign (k_PrivKey key) _) as [sig|] eqn:Esig; [|done]. cbn [wrap mbind result_bind]. intros Hr.
  apply (f_equal (λ x, match x with Ok y => y | Err _ => r end)) in Hr. cbv beta match in Hr. subst r.
  split; [|done]. split; [done|exact Esig|apply lookup_insert_eq|done].
Qed.
Lemma BuildRecord_facts now t key m seq ttl routes message r raw : wf_mid m ->
  pair (k_PrivKey key) (k_PubKey key) -> DeriveMemNSName (k_PubKey key) = Ok (k_MemNSName key) ->
  0 < seq < 2 ^ 64 -> 0 <= now -> 0 < ttl -> now + ttl < 2 ^ 63 ->
  BuildRecord now key (lit "/mem/" ++ String m) seq ttl routes message = Ok r -> marshal r = Ok raw ->
  nr_Value r = lit "/mem/" ++ String m /\ nr_Sequence r = seq /\ nr_Routes r = routes /\
  is_ok (VerifyRecord t r) = (t <? now + ttl) /\
  forall name, HasPrefix name (lit "/memns/") = true ->
    is_ok (validate t name raw) = (t <? now + ttl) && bool_decide (name = k_MemNSName key).
Proof using All.
  intros Hm Hpair Hname Hseq Hnow Httl Hov Hb Hraw. destruct (BuildRecord_owned _ _ _ _ _ _ _ _ Hm (proj1 Hseq) Hb) as (Ho & Hval & Hs & Hr & Hv & _).
  rewrite i64_small in Hv by lia. rewrite <-Hv. split_and!; [done..| |]; by eapply owned_accepted.
Qed.
(** a record that [BuildRecord] made for a content path is accepted until it expires and
    not after: by the resolver, and by the DHT under exactly the name of the key that
    signed it; it carries the path and the sequence number it was given. *)
Theorem BuildRecord_accepted now t key m seq ttl routes message r raw : wf_mid m ->
  pair (k_PrivKey key) (k_PubKey key) -> DeriveMemNSName (k_PubKey key) = Ok (k_MemNSName key) ->
  0 < seq < 2 ^ 64 -> 0 <= now -> 0 < ttl -> now + ttl < 2 ^ 63 ->
  BuildRecord now key (lit "/mem/" ++ String m) seq ttl routes message = Ok r -> marshal r = Ok raw ->
  nr_Value r = lit "/mem/" ++ String m /\ nr_Sequence r = seq /\
  is_ok (VerifyRecord t r) = (t <? now + ttl) /\
  forall name, HasPrefix name (lit "/memns/") = true ->
    is_ok (validate t name raw) = (t <? now + ttl) && bool_decide (name = k_MemNSName key).
Proof using All.
  intros Hm Hp Hn Hs Hnow Httl Hov Hb Hraw.
  destruct (BuildRecord_facts now t key m seq ttl routes message r raw Hm Hp Hn Hs Hnow Httl Hov Hb Hraw) as (? & ? & _ & ?). done.
Qed.

(** the record anyone can make for the owner of [ob] *)
Definition forged (ob pkb sig value : bytes) : MemNSRecord :=
  mkMemNSRecord value sig (2 ^ 64 - 1) (2 ^ 63 - 1) pkb 0 ValidityType_EOL [] [pkb] [] {[ owner_key := b64_Encode ob ]}.

(** the name of an owner does not protect it: delegates and the owner key are outside the
    signature, so for every owner, every key pair of someone else and every target the
    other can make a record that the resolver and the DHT accept under the owner's name,
    and that [Select] prefers to every honest record. *)
Theorem anyone_can_publish now ob sk pk pkb m sig raw honest honest_raw : wf_mid m -> ob ≠ [] -> 0 <= now < 2 ^ 63 - 1 ->
  pair sk pk -> MarshalPublicKey pk = Ok pkb ->
  let r := forged ob pkb sig (lit "/mem/" ++ String m) in
  Sign sk (CanonicalBytes r) = Ok sig -> marshal r = Ok raw ->
  marshal honest = Ok honest_raw -> nr_Sequence honest < 2 ^ 64 - 1 ->
  VerifyRecord now r = Ok tt /\ validate now (lit "/memns/" ++ name_of ob) raw = Ok tt /\
  Select (lit "/memns/" ++ name_of ob) [honest_raw; raw] = Ok 1%nat.
Proof using All.
  intros Hm Hob Hnow Hpair Hpk r Hs Hraw Hh Hseq.
  assert (check_signature r = Ok tt) as Hchk by exact (check_signature_ok sk pk pkb r Hpair Hpk eq_refl Hs).
  assert (nr_Meta r !! owner_key = Some (b64_Encode ob)) as Hmeta by apply lookup_insert_eq.
  assert (is_delegate r = true) as Hd by (apply bool_decide_eq_true; by left).
  split_and!.
  - unfold VerifyRecord. change (nr_Sequence r) with (2 ^ 64 - 1). change (nr_Validity r) with (2 ^ 63 - 1).
    destruct (Z.leb_spec (2 ^ 63 - 1) now); [lia|]. change (2 ^ 64 - 1 =? 0) with false.
    change (nr_Value r) with (lit "/mem/" ++ String m). rewrite Validate_mem by done. cbn [wrap mbind result_bind]. rewrite Hchk. cbn [mbind result_bind].
    rewrite Hmeta, b64_roundtrip, Hd. by rewrite orb_true_r.
  - rewrite validate_name. unfold validateMemNS. rewrite (roundtrip _ _ Hraw). cbn [wrap mbind result_bind].
    change (nr_Sequence r) with (2 ^ 64 - 1). change (nr_Validity r) with (2 ^ 63 - 1). destruct (Z.leb_spec (2 ^ 63 - 1) now); [lia|].
    change (2 ^ 64 - 1 =? 0) with false. rewrite Hchk. cbn [mbind result_bind]. rewrite (owner_of_meta r ob Hmeta Hob), Hd, orb_true_r. cbn [negb].
    rewrite TrimPrefix_memns. by rewrite bool_decide_eq_true_2.
  - unfold Select. rewrite bool_decide_eq_false_2 by done. change (HasPrefix (lit "/memns/" ++ name_of ob) (lit "/memns/")) with true.
    cbn [best_of]. rewrite (roundtrip _ _ Hh), (roundtrip _ _ Hraw). unfold better. change (nr_Sequence r) with (2 ^ 64 - 1).
    destruct (Z.ltb_spec (nr_Sequence honest) (2 ^ 64 - 1)); [done|lia].
Qed.
End properties.

(** ** An instance and the witnesses *)
#[export] Instance toy_base32 : CidBase32.
Proof.
  split; [|done]. intros c mh. cbn [cid_String toy]. unfold Toy.cstr. apply Forall_app. split; [by repeat constructor|].
  apply Forall_concat, Forall_forall. intros l [b [-> _]]%list_elem_of_fmap. pose proof (b2z_bound b).
  assert (0 <= b2z b / 16 < 16) by (split; [apply Z.div_pos|apply Z.div_lt_upper_bound]; lia). pose proof (Z.mod_pos_bound (b2z b) 16 ltac:(lia)).
  assert (forall d, 0 <= d < 16 -> is_base32 (z2b (97 + d))) as Hd.
  { intros d Hd. unfold is_base32, base32_char. rewrite b2z_z2b, Z.mod_small by lia.
    destruct (Z.leb_spec 97 (97 + d)), (Z.leb_spec (97 + d) 122); done || lia. }
  repeat constructor; by apply Hd.
Qed.
#[export] Instance toy_text : Text := {| b64_Encode := id; b64_Decode := Ok; url_Path := Ok |}.
#[export] Instance toy_text_laws : TextLaws.
Proof. done. Qed.
(** a key is a string, and signs by putting itself before the message *)
#[export] Instance toy_crypto : Crypto := {|
  PubKey := bytes; PrivKey := bytes;
  MarshalPublicKey pk := if bool_decide (pk = []) then Err (New "key") else Ok pk; UnmarshalPublicKey := Ok;
  Sign sk msg := Ok (sk ++ msg); pk_Verify pk msg sig := Ok (bool_decide (sig = pk ++ msg)) |}.
#[export] Instance toy_crypto_laws : CryptoLaws (H := toy_crypto) eq.
Proof.
  split.
  - intros sk pk msg sig -> [= <-]. cbn. by rewrite bool_decide_eq_true_2.
  - intros pk bs. cbn. case_bool_decide; [done|]. by intros [= <-].
  - intros pk bs. cbn. case_bool_decide; [done|]. by intros [= <-].
Qed.
#[local] Instance MemRoute_eq_dec : EqDecision MemRoute.
Proof. solve_decision. Defined.
#[local] Instance MemRoute_countable : Countable MemRoute.
Proof.
  refine (inj_countable' (λ n, (mr_Target n, mr_Weight n, mr_Label n, mr_Conditions n)) (λ '(a, b, c, d), mkMemRoute a b c d) _). by intros [].
Defined.
#[local] Instance MemLogEntry_eq_dec : EqDecision MemLogEntry.
Proof. solve_decision. Defined.
#[local] Instance MemLogEntry_countable : Countable MemLogEntry.
Proof.
  refine (inj_countable' (λ n, (ml_Sequence n, ml_Value n, ml_Timestamp n, ml_Signature n, ml_Message n)) (λ '(a, b, c, d, e), mkMemLogEntry a b c d e) _). by intros [].
Defined.
#[local] Instance MemNSRecord_eq_dec : EqDecision MemNSRecord.
Proof. solve_decision. Defined.
#[local] Instance MemNSRecord_countable : Countable MemNSRecord.
Proof.
  refine (inj_countable' (λ n, (nr_Value n, nr_Signature n, nr_Sequence n, nr_Validity n, nr_PublicKey n, nr_Ttl n, nr_ValidityType n, nr_Routes n, nr_Delegates n, nr_Changelog n, nr_Meta n))
    (λ '(a, b, c, d, e, f, g, h, i, j, k), mkMemNSRecord a b c d e f g h i j k) _). by intros [].
Defined.
#[export] Instance toy_record_proto : Proto MemNSRecord := toy_proto.
Lemma toy_record_roundtrip (r : MemNSRecord) raw : marshal r = Ok raw -> unmarshal raw = Ok r.
Proof. cbn [marshal unmarshal toy_record_proto toy_proto]. intros [= <-]. by rewrite ToyWire.bytes_pos_bytes, decode_encode. Qed.

Definition demo_target : MID := toy_mid CodecRaw (lit "page").
Definition demo_key : Key := mkKey toy_crypto (lit "site") (lit "KEY") (lit "KEY") (lit "/memns/" ++ name_of (lit "KEY")).
Lemma BuildRecord_accepted_witness : exists r, BuildRecord 5 demo_key (lit "/mem/" ++ String demo_target) 1 10 [] [] = Ok r /\
  is_ok (VerifyRecord 14 r) = true /\ is_ok (VerifyRecord 15 r) = false.
Proof.
  assert (exists r, BuildRecord 5 demo_key (lit "/mem/" ++ String demo_target) 1 10 [] [] = Ok r) as [r E].
  { assert (is_ok (BuildRecord 5 demo_key (lit "/mem/" ++ String demo_target) 1 10 [] []) = true) as E by (vm_compute; reflexivity).
    destruct (BuildRecord _ _ _ _ _ _ _) as [r|]; [by exists r|done]. }
  exists r. split; [exact E|].
  assert (forall t, is_ok (VerifyRecord t r) = (t <? 5 + 10)) as Ht.
  { intros t. destruct (BuildRecord_accepted (H4 := toy_crypto) eq toy_record_roundtrip (λ _, None) (λ _, None) (λ _, None) (λ _, true) (λ _, true)
      5 t demo_key demo_target 1 10 [] [] r (ToyWire.pos_bytes (encode r))) as (_ & _ & Hv & _); [|reflexivity|reflexivity|split; reflexivity|discriminate|reflexivity|reflexivity|exact E|reflexivity|exact Hv].
    exact (toy_raw_wf (lit "page")). }
  split; rewrite Ht; reflexivity.
Defined.
Lemma anyone_can_publish_witness : exists raw,
  Validate (λ _, None) (λ _, None) (λ _, None) (λ _, true) (λ _, true) 5 (lit "/memns/" ++ name_of (lit "OWNER")) raw = Ok tt.
Proof.
  set (value := lit "/mem/" ++ String demo_target). set (r0 := forged (lit "OWNER") (lit "THIEF") [] value).
  set (sig := lit "THIEF" ++ CanonicalBytes r0). set (r := forged (lit "OWNER") (lit "THIEF") sig value).
  exists (ToyWire.pos_bytes (encode r)).
  set (honest := mkMemNSRecord [] [] 7 0 [] 0 0 [] [] [] ∅).
  destruct (anyone_can_publish (H4 := toy_crypto) eq toy_record_roundtrip (λ _, None) (λ _, None) (λ _, None) (λ _, true) (λ _, true)
    5 (lit "OWNER") (lit "THIEF") (lit "THIEF") (lit "THIEF") demo_target sig (ToyWire.pos_bytes (encode r)) honest (ToyWire.pos_bytes (encode honest))) as (_ & Hv & _).
  - exact (toy_raw_wf (lit "page")).
  - discriminate.
  - split; [discriminate|reflexivity].
  - reflexivity.
  - reflexivity.
  - reflexivity.
  - reflexivity.
  - reflexivity.
  - reflexivity.
  - exact Hv.
Defined.
