(* ===== verification/NameResolver.v ===== *)
(** * Resolving names (src/core/memns: cache.go, resolver.go, pubsub.go, dht.go;
      src/core/memlink/dns.go)

    [RecordCache] keeps records by name with a time to live; [resolveDepth] follows a name or
    a domain to a content path, over the cache, the records pushed by pubsub, the DHT and
    the DNS; [sub_next] is the goroutine behind a subscription.
    [publish_resolve]: what an owner publishes is what a reader resolves.
    [cache_bounded]: the cache never outgrows its limit and serves what was added.
    [resolve_names_terminates]: without names behind domains eleven calls are enough; with
    them, [domain_cycle_never_ends].
    [subscription_newest]: a subscription keeps the newest valid record - of any signer,
    [foreign_record_accepted]. *)
From S2P Require Import Prelude Mid Wire Names.

(** ** The record cache *)
Record cacheEntry := mkCacheEntry { ce_record : MemNSRecord; ce_expiresAt : Z }.
Record RecordCache := mkRecordCache { rc_entries : gmap bytes cacheEntry; rc_limit : Z }.
Definition NewRecordCache (limit : Z) : RecordCache := mkRecordCache ∅ limit.
Definition cache_Get (now : Z) (name : bytes) (c : RecordCache) : option MemNSRecord :=
  entry ← rc_entries c !! name; if ce_expiresAt entry <? now then None else Some (ce_record entry).
(** the key that expires first, in the order Go ranges over the map: that of [map_to_list] *)
Fixpoint earliest (l : list (bytes * cacheEntry)) (best : option (bytes * Z)) : option (bytes * Z) :=
  match l with
  | [] => best
  | (k, e) :: l =>
      earliest l match best with
        | Some (_, t) => if ce_expiresAt e <? t then Some (k, ce_expiresAt e) else best
        | None => Some (k, ce_expiresAt e)
        end
  end.
Definition minute : Z := 60 * 1000000000.
Definition evict_expired (now : Z) (entries : gmap bytes cacheEntry) : gmap bytes cacheEntry :=
  filter (λ kv : bytes * cacheEntry, ~ ce_expiresAt kv.2 < now) entries.
Definition evict_earliest (entries : gmap bytes cacheEntry) : gmap bytes cacheEntry :=
  match earliest (map_to_list entries) None with
  | Some ((_ :: _) as k, _) => delete k entries
  | _ => entries
  end.
Definition cache_Add (now : Z) (name : bytes) (record : MemNSRecord) (c : RecordCache) : RecordCache :=
  let entries := evict_expired now (rc_entries c) in
  let entries := if rc_limit c <=? Z.of_nat (size entries) then evict_earliest entries else entries in
  let ttl := if 0 <? nr_Ttl record then i64 (nr_Ttl record) else minute in
  mkRecordCache (<[name := mkCacheEntry record (now + ttl)]> entries) (rc_limit c).

(** ** Routes *)
Definition route_matches (conditions : option (gmap bytes bytes)) (r : MemRoute) : bool :=
  bool_decide (mr_Conditions r = ∅) ||
  match conditions with
  | None => false
  | Some cs => forallb (λ kv, bool_decide (cs !! kv.1 = Some kv.2)) (map_to_list (mr_Conditions r))
  end.
Fixpoint pick_route (w cumulative : Z) (routes : list MemRoute) : option MemRoute :=
  match routes with
  | [] => None
  | r :: routes =>
      let cumulative := u32 (cumulative + mr_Weight r) in
      if w <? cumulative then Some r else pick_route w cumulative routes
  end.
(** [intn] is [rand.Intn] *)
Definition SelectRoute (conditions : option (gmap bytes bytes)) (intn : Z -> Z) (routes : list MemRoute) (defaultValue : bytes) : bytes :=
  let active := filter (λ r, route_matches conditions r = true) routes in
  match last active with
  | None => defaultValue
  | Some lastRoute =>
      let totalWeight := foldl (λ t r, u32 (t + mr_Weight r)) 0 active in
      if totalWeight =? 0 then
        match active !! Z.to_nat (intn (zlen active)) with Some r => mr_Target r | None => [] end
      else mr_Target (default lastRoute (pick_route (u32 (intn totalWeight)) 0 active))
  end.

(** ** MemLink text records *)
Definition replace_byte (a b : byte) (s : bytes) : bytes := map (λ c, if bool_decide (c = a) then b else c) s.
(** [strings.Fields] *)
Fixpoint fields_from (fuel : nat) (seg s : bytes) : list bytes :=
  let flush := if bool_decide (seg = []) then [] else [seg] in
  match fuel, s with
  | O, _ | _, [] => flush
  | S fuel, b :: s' =>
      match list_find (λ sp, HasPrefix s sp = true) spaces with
      | Some (_, sp) => flush ++ fields_from fuel [] (drop (length sp) s)
      | None => fields_from fuel (seg ++ [b]) s'
      end
  end.
Definition Fields (s : bytes) : list bytes := fields_from (length s) [] s.
(** [strings.SplitN(s, sep, 2)], when it gives two parts *)
Fixpoint split2 (sep : byte) (s : bytes) : option (bytes * bytes) :=
  match s with
  | [] => None
  | b :: s => if bool_decide (b = sep) then Some ([], s) else '(k, v) ← split2 sep s; Some (b :: k, v)
  end.
Fixpoint split_all (sep : byte) (seg s : bytes) : list bytes :=
  match s with
  | [] => [seg]
  | b :: s => if bool_decide (b = sep) then seg :: split_all sep [] s else split_all sep (seg ++ [b]) s
  end.
Record MemLinkRecord := mkMemLinkRecord {
  lk_MemNSName : bytes; lk_MID : bytes; lk_TTL : Z; lk_Routes : gmap bytes Z; lk_Delegate : bytes }.
Section memlink.
(** [fmt.Sscan] of an int *)
Context (Sscan : bytes -> option Z).
Definition txt_token (rec : MemLinkRecord * bool) (token : bytes) : MemLinkRecord * bool :=
  let '(r, found) := rec in
  match split2 Byte.x3d token with
  | None => rec
  | Some (k, v) =>
      let k := TrimSpace k in let v := TrimSpace v in
      if bool_decide (k = lit "memns") then (mkMemLinkRecord v (lk_MID r) (lk_TTL r) (lk_Routes r) (lk_Delegate r), true)
      else if bool_decide (k = lit "mem") then (mkMemLinkRecord (lk_MemNSName r) v (lk_TTL r) (lk_Routes r) (lk_Delegate r), true)
      else if bool_decide (k = lit "memns-ttl") then
        match Sscan v with Some ttl => (mkMemLinkRecord (lk_MemNSName r) (lk_MID r) ttl (lk_Routes r) (lk_Delegate r), found) | None => rec end
      else if bool_decide (k = lit "memns-routes") then
        let routes := foldl (λ routes rp,
          match split2 Byte.x3a rp with
          | Some (label, w) => match Sscan w with Some weight => <[TrimSpace label := weight]> routes | None => routes end
          | None => routes
          end) (lk_Routes r) (split_all Byte.x2c [] v) in
        (mkMemLinkRecord (lk_MemNSName r) (lk_MID r) (lk_TTL r) routes (lk_Delegate r), found)
      else if bool_decide (k = lit "memns-delegate") then (mkMemLinkRecord (lk_MemNSName r) (lk_MID r) (lk_TTL r) (lk_Routes r) v, found)
      else rec
  end.
Definition ParseTXTRecord (txt : bytes) : result MemLinkRecord :=
  let '(record, found) := foldl txt_token (mkMemLinkRecord [] [] 0 ∅ [], false) (Fields (replace_byte Byte.x3b Byte.x20 txt)) in
  if (found : bool) then Ok record else Err (New "no mem or memns key found in TXT record").
Fixpoint first_record (txts : list bytes) : option MemLinkRecord :=
  match txts with
  | [] => None
  | txt :: txts => match ParseTXTRecord txt with Ok r => Some r | Err _ => first_record txts end
  end.
End memlink.

(** ** The resolver *)
Record RState := mkRState {
  rs_cache : RecordCache;
  rs_pubsub : gmap bytes (option MemNSRecord);
  rs_dns : gmap bytes (bytes * Z);
}.
(** what the resolver calls: the clock, the random choice, the conditions of the request, the
    DHT, DNS lookups (the system's and the public server's), subscriptions, and whether a
    DNS resolver is configured *)
Record REnv := mkREnv {
  re_now : Z;
  re_intn : Z -> Z;
  re_conditions : option (gmap bytes bytes);
  re_dht : bytes -> result bytes;
  re_txt : bytes -> result (list bytes);
  re_public_txt : bytes -> result (list bytes);
  re_subscribe : option (bytes -> bool);
  re_memlink : bool;
  re_Sscan : bytes -> option Z;
}.
Definition no_texts (r : result (list bytes)) : bool := match r with Ok (_ :: _) => false | _ => true end.
(** [strings.Trim(s, quote)] *)
Fixpoint trim_quotes_left (s : bytes) : bytes := match s with Byte.x22 :: s => trim_quotes_left s | _ => s end.
Definition TrimQuotes (s : bytes) : bytes := reverse (trim_quotes_left (reverse (trim_quotes_left s))).
Fixpoint dnslink_target (txts : list bytes) : option bytes :=
  match txts with
  | [] => None
  | txt :: txts =>
      let clean := TrimQuotes (TrimSpace txt) in
      let target := TrimPrefix clean (lit "dnslink=") in
      if HasPrefix clean (lit "dnslink=") && negb (bool_decide (target = [])) then Some target else dnslink_target txts
  end.

Section resolver.
Context `{Multiformats, Crypto, Text, Proto MemNSRecord} (env : REnv).

Definition resolveDNSLink (domain : bytes) : result bytes :=
  let name := lit "_dnslink." ++ domain in
  let txts := re_txt env name in
  let txts := if no_texts txts then
      (let txts := re_public_txt env name in if no_texts txts then re_txt env domain else txts)
    else txts in
  txts ← txts;
  match dnslink_target txts with Some t => Ok t | None => Err (New "memns: no dnslink record found") end.
Definition strip_memns (name : bytes) : bytes := if HasPrefix name (lit "/memns/") then drop 7 name else name.
Definition topic_name (name : bytes) : bytes := lit "/membuss/memns/1.0.0/" ++ strip_memns name.
Definition ResolveDHT (name : bytes) : result MemNSRecord :=
  raw ← wrap "dht get value error" (re_dht env (lit "/memns/" ++ strip_memns name));
  record ← wrap "failed to unmarshal record" (unmarshal (A := MemNSRecord) raw);
  _ ← wrap "record verification failed" (VerifyRecord (re_now env) record);
  Ok record.
Definition route_of (rec : MemNSRecord) : bytes := SelectRoute (re_conditions env) (re_intn env) (nr_Routes rec) (nr_Value rec).
Definition subscribeToName (name : bytes) (s : RState) : RState :=
  match re_subscribe env with
  | None => s
  | Some subscribe =>
      match rs_pubsub s !! name with
      | Some _ => s
      | None => if subscribe name then mkRState (rs_cache s) (<[name := None]> (rs_pubsub s)) (rs_dns s) else s
      end
  end.

(** the DNS resolver; [resolveMemNS] is how it resolves names *)
Definition dns_Resolve (resolveMemNS : bytes -> M RState bytes) (domain : bytes) : M RState bytes := λ s,
  match (entry ← rs_dns s !! domain; if re_now env <? snd entry then Some (fst entry) else None) with
  | Some value => (Ok value, s)
  | None =>
      match wrap "dns lookup failed" (re_txt env (lit "_memlink." ++ domain)) with
      | Err e => (Err e, s)
      | Ok txts =>
          match first_record (re_Sscan env) txts with
          | None => (Err (New "no valid mem/memns TXT record found"), s)
          | Some rec =>
              let '(resolved, s) :=
                if negb (bool_decide (lk_MID rec = [])) then (Ok (lk_MID rec), s)
                else if negb (bool_decide (lk_MemNSName rec = [])) then
                  match resolveMemNS (lk_MemNSName rec) s with
                  | (Ok v, s) => (Ok v, s)
                  | (Err e, s) =>
                      let '(r, s) := if bool_decide (lk_Delegate rec = []) then (Err e, s) else resolveMemNS (lk_Delegate rec) s in
                      (wrap "failed to resolve memns name" r, s)
                  end
                else (Err (New "empty TXT record contents"), s) in
              match resolved with
              | Err e => (Err e, s)
              | Ok v =>
                  let ttl := if 0 <? lk_TTL rec then lk_TTL rec else 300 in
                  (Ok v, mkRState (rs_cache s) (rs_pubsub s) (<[domain := (v, re_now env + i64 (ttl * 1000000000))]> (rs_dns s)))
              end
          end
      end
  end.

Definition contains (c : byte) (s : bytes) : bool := existsb (λ b, bool_decide (b = c)) s.
Definition is_domain (n : bytes) : bool :=
  negb (HasPrefix n (lit "/memns/")) && negb (HasPrefix n (lit "k51")) && contains Byte.x2e n.
Definition is_target (n : bytes) : bool := HasPrefix n (lit "/mem/") || HasPrefix n (lit "/ipfs/") || HasPrefix n (lit "https://").
Definition is_raw_mid (n : bytes) : bool := HasPrefix n (lit "mem") && negb (contains Byte.x2f n) && negb (contains Byte.x2e n).
(** the record a name has, from the cache, from pubsub or from the DHT *)
Definition name_record (name : bytes) : M RState MemNSRecord := λ s,
  match cache_Get (re_now env) name (rs_cache s) with
  | Some rec => (Ok rec, s)
  | None =>
      match mjoin (rs_pubsub s !! name) with
      | Some rec => if re_now env <? nr_Validity rec then (Ok rec, s) else
          match ResolveDHT name with
          | Err e => (Err e, s)
          | Ok rec => (Ok rec, subscribeToName name (mkRState (cache_Add (re_now env) name rec (rs_cache s)) (rs_pubsub s) (rs_dns s)))
          end
      | None =>
          match ResolveDHT name with
          | Err e => (Err e, s)
          | Ok rec => (Ok rec, subscribeToName name (mkRState (cache_Add (re_now env) name rec (rs_cache s)) (rs_pubsub s) (rs_dns s)))
          end
      end
  end.
Fixpoint resolveDepth (fuel : nat) (n : bytes) (depth : nat) : M RState bytes := λ s,
  match fuel with
  | O => (Err OutOfFuel, s)
  | S fuel =>
      if (10 <=? depth)%nat then (Err (New "memns: loop detected, max resolution depth reached"), s) else
      if is_target n then (Ok n, s) else
      if is_raw_mid n then (Ok (lit "/mem/" ++ n), s) else
      if is_domain n then
        match resolveDNSLink n with
        | Ok ((_ :: _) as target) => resolveDepth fuel target (S depth) s
        | _ =>
            if negb (re_memlink env) then (Err (New "memns: dns resolver not configured"), s) else
            (val ← dns_Resolve (λ name, resolveDepth fuel name 0) n; resolveDepth fuel val (S depth)) s
        end
      else (rec ← name_record (strip_memns n); resolveDepth fuel (route_of rec) (S depth)) s
  end.
Definition Resolve (fuel : nat) (nameOrDomain : bytes) : M RState bytes := resolveDepth fuel nameOrDomain 0.

(** ** A subscription: the record a message delivers, and the two caches it updates *)
Definition sub_next (now : Z) (lastSeq : Z) (msg : bytes) : option MemNSRecord :=
  match unmarshal (A := MemNSRecord) msg with
  | Err _ => None
  | Ok record =>
      match VerifyRecord now record with
      | Err _ => None
      | Ok _ => if lastSeq <? nr_Sequence record then Some record else None
      end
  end.
Definition deliver (now : Z) (name : bytes) (rec : MemNSRecord) (s : RState) : RState :=
  let newer := match mjoin (rs_pubsub s !! name) with None => true | Some current => nr_Sequence current <? nr_Sequence rec end in
  if newer then mkRState (cache_Add now name rec (rs_cache s)) (<[name := Some rec]> (rs_pubsub s)) (rs_dns s) else s.
(** the messages of a topic, with the times of their arrival *)
Fixpoint subscription (name : bytes) (msgs : list (Z * bytes)) (lastSeq : Z) (s : RState) : Z * RState :=
  match msgs with
  | [] => (lastSeq, s)
  | (now, msg) :: msgs =>
      match sub_next now lastSeq msg with
      | None => subscription name msgs lastSeq s
      | Some rec => subscription name msgs (nr_Sequence rec) (deliver now name rec s)
      end
  end.
End resolver.

(** ** Publishing: the DHT is third-party code over a state of its own *)
(** [held]: the values, still valid, that the network has under a key; no code reads it *)
Class DHT := {
  D : Type;
  PutValue : bytes -> bytes -> D -> result D;
  GetValue : D -> bytes -> result bytes;
  held : D -> bytes -> list bytes;
}.
(** A value that the validator accepts, and that its [Select] takes before every other value
    held under the key, can be put, and is then what a lookup gives; a value that [Select]
    ranks behind a held one may be refused. *)
Class DHTLaws `{DHT} (accepts : bytes -> bytes -> bool) (select : bytes -> list bytes -> result nat) : Prop :=
  PutValue_GetValue k v d : accepts k v = true ->
    (forall w, w ∈ held d k -> w = v \/ select k [v; w] = Ok 0%nat) ->
    exists d', PutValue k v d = Ok d' /\ GetValue d' k = Ok v.
Section publish.
Context `{Crypto, Proto MemNSRecord, DHT}.
Definition PublishDHT (key : Key) (record : MemNSRecord) (d : D) : result D :=
  let dhtKey := lit "/memns/" ++ strip_memns (k_MemNSName key) in
  data ← wrap "failed to marshal record" (marshal record);
  wrap "dht put value error" (PutValue dhtKey data d).
End publish.


(** ** The cache is bounded and serves what was added *)
Lemma earliest_in l best k t : earliest l best = Some (k, t) ->
  (exists e, (k, e) ∈ l) \/ best = Some (k, t).
Proof.
  revert best. induction l as [|[k' e] l IH]; intros best Hb; [by right|].
  destruct (IH _ Hb) as [[e' He]|Heq]; [left; exists e'; set_solver|].
  destruct best as [[k0 t0]|].
  - destruct (ce_expiresAt e <? t0) eqn:?; [injection Heq as -> <-; left; exists e; set_solver|by right].
  - injection Heq as -> <-. left. exists e. set_solver.
Qed.
Lemma earliest_some l best : l ≠ [] \/ best ≠ None -> is_Some (earliest l best).
Proof.
  revert best. induction l as [|[k e] l IH]; intros best Hb; cbn.
  - destruct Hb; [done|]. by destruct best.
  - apply IH. right. destruct best as [[k0 t0]|]; [|done]. by destruct (_ <? _).
Qed.
Lemma evict_earliest_size (m : gmap bytes cacheEntry) : m !! [] = None -> m ≠ ∅ ->
  S (size (evict_earliest m)) = size m.
Proof.
  intros Hne Hm. unfold evict_earliest.
  destruct (earliest_some (map_to_list m) None) as [[k t] E].
  { left. by rewrite map_to_list_empty_iff. }
  rewrite E. destruct (earliest_in _ _ _ _ E) as [[e He]|]; [|done]. apply elem_of_map_to_list in He.
  destruct k as [|b k]; [congruence|].
  rewrite map_size_delete, He. assert (size m ≠ 0)%nat by (by apply map_size_non_empty_iff). lia.
Qed.
Lemma evict_earliest_sub m k e : evict_earliest m !! k = Some e -> m !! k = Some e.
Proof.
  unfold evict_earliest. destruct (earliest _ _) as [[[|b k'] t]|]; [done| |done].
  intros Hk%lookup_delete_Some. tauto.
Qed.
Lemma evict_expired_sub now m k e : evict_expired now m !! k = Some e -> m !! k = Some e.
Proof. intros Hk%map_lookup_filter_Some. tauto. Qed.
Lemma evict_expired_size now m : (size (evict_expired now m) <= size m)%nat.
Proof. apply map_subseteq_size, map_filter_subseteq. Qed.

Definition ttl_of (record : MemNSRecord) : Z := if 0 <? nr_Ttl record then i64 (nr_Ttl record) else minute.
Definition cache_adds (adds : list (Z * bytes * MemNSRecord)) (c : RecordCache) : RecordCache :=
  foldl (λ c '(now, name, record), cache_Add now name record c) c adds.
Definition cache_inv (adds : list (Z * bytes * MemNSRecord)) (c : RecordCache) : Prop :=
  rc_entries c !! [] = None /\ Z.of_nat (size (rc_entries c)) <= Z.max 1 (rc_limit c) /\
  map_Forall (λ name e, exists now, (now, name, ce_record e) ∈ adds /\ ce_expiresAt e = now + ttl_of (ce_record e)) (rc_entries c).
Lemma cache_Add_limit now name record c : rc_limit (cache_Add now name record c) = rc_limit c.
Proof. done. Qed.
Lemma cache_Add_inv now name record adds c : name ≠ [] -> cache_inv adds c ->
  cache_inv (adds ++ [(now, name, record)]) (cache_Add now name record c).
Proof.
  intros Hname (Hne & Hsz & Hin). unfold cache_Add; cbn [rc_entries rc_limit].
  set (m := evict_expired now (rc_entries c)).
  assert (Hm : forall k e, m !! k = Some e -> rc_entries c !! k = Some e) by apply evict_expired_sub.
  assert (Hm0 : m !! [] = None).
  { destruct (m !! []) eqn:E; [|done]. apply Hm in E. congruence. }
  pose proof (evict_expired_size now (rc_entries c)) as Hle. fold m in Hle.
  set (m' := if rc_limit c <=? Z.of_nat (size m) then evict_earliest m else m).
  assert (Hm' : forall k e, m' !! k = Some e -> rc_entries c !! k = Some e).
  { intros k e. subst m'. case_match; [intros Hk%evict_earliest_sub|]; auto. }
  split_and!.
  - cbn. rewrite lookup_insert_ne by done. destruct (m' !! []) eqn:E; [|done]. apply Hm' in E. congruence.
  - cbn. rewrite map_size_insert. subst m'. destruct (Z.leb_spec (rc_limit c) (Z.of_nat (size m))).
    + destruct (decide (m = ∅)) as [Hm1|Hm1].
      * unfold evict_earliest. rewrite Hm1, map_to_list_empty. cbn. rewrite lookup_empty. cbn. rewrite map_size_empty. lia.
      * pose proof (evict_earliest_size m Hm0 Hm1). case_match; cbn; lia.
    + case_match; cbn; lia.
  - cbn. apply map_Forall_insert_2.
    + exists now. split; [set_solver|done].
    + intros k e Hk. destruct (Hin k e (Hm' _ _ Hk)) as (t & Ht & ?). exists t. set_solver.
Qed.
Lemma cache_adds_inv adds c adds0 : Forall (λ a, a.1.2 ≠ []) adds -> cache_inv adds0 c ->
  cache_inv (adds0 ++ adds) (cache_adds adds c) /\ rc_limit (cache_adds adds c) = rc_limit c.
Proof.
  intros Hall. revert c adds0. induction Hall as [|[[now name] r] adds Hn Hall IH]; intros c adds0 Hc.
  - by rewrite app_nil_r.
  - destruct (IH (cache_Add now name r c) (adds0 ++ [(now, name, r)])) as [IH1 IH2]; [by apply cache_Add_inv|].
    rewrite <-app_assoc in IH1. split; [exact IH1|exact IH2].
Qed.

(** The record cache never holds more than its limit (one record for limits below one),
    whatever is added, as long as no name is empty; and a record [Get] returns was added
    under that very name, no longer ago than its time to live. *)
Theorem cache_bounded (limit : Z) (adds : list (Z * bytes * MemNSRecord)) : Forall (λ a, a.1.2 ≠ []) adds ->
  let c := cache_adds adds (NewRecordCache limit) in
  Z.of_nat (size (rc_entries c)) <= Z.max 1 limit /\
  forall t name record, cache_Get t name c = Some record ->
    exists now, (now, name, record) ∈ adds /\ t <= now + ttl_of record.
Proof.
  intros Hall c. destruct (cache_adds_inv adds (NewRecordCache limit) []) as [(H0 & Hsz & Hin) Hl]; [done| |].
  { split_and!; [done| |apply map_Forall_empty]. cbn. rewrite map_size_empty. lia. }
  fold c in H0, Hsz, Hin, Hl. rewrite Hl in Hsz. split; [exact Hsz|].
  intros t name record. unfold cache_Get. destruct (rc_entries c !! name) as [e|] eqn:E; [|done]. cbn.
  destruct (Z.ltb_spec (ce_expiresAt e) t); [done|]. intros [= <-].
  destruct (Hin _ _ E) as (now & Hnow & Hexp). exists now. split; [exact Hnow|lia].
Qed.

(** ** A record's route *)
Lemma pick_route_in w c routes r : pick_route w c routes = Some r -> r ∈ routes.
Proof.
  revert c. induction routes as [|r' routes IH]; intros c; [done|]. cbn.
  destruct (w <? _); [intros [= ->]; set_solver|]. intros Hr%IH. set_solver.
Qed.
(** the target a record gives: one of the routes that apply, or its value when there is none;
    [intn] answers below its argument, as [rand.Intn] does *)
Lemma SelectRoute_cases conditions intn routes defaultValue : (forall n, 0 < n -> 0 <= intn n < n) ->
  (filter (λ r, route_matches conditions r = true) routes = [] /\ SelectRoute conditions intn routes defaultValue = defaultValue) \/
  exists r, r ∈ routes /\ route_matches conditions r = true /\ SelectRoute conditions intn routes defaultValue = mr_Target r.
Proof.
  intros Hint. unfold SelectRoute. set (active := filter _ routes).
  destruct (last active) as [lr|] eqn:El; [|left; split; [by apply last_None|done]].
  right. assert (Hact : forall r, r ∈ active -> r ∈ routes /\ route_matches conditions r = true).
  { intros r. subst active. rewrite list_elem_of_filter. tauto. }
  assert (Hlr : lr ∈ active) by (apply last_Some in El as [l' ->]; set_solver).
  destruct (_ =? 0).
  - destruct active as [|r0 act] eqn:Ea; [done|].
    destruct (Hint (zlen (r0 :: act))) as [H1 H2]; [unfold zlen; cbn; lia|].
    destruct (lookup_lt_is_Some_2 (r0 :: act) (Z.to_nat (intn (zlen (r0 :: act))))) as [r Hr].
    { unfold zlen in *. lia. }
    rewrite Hr. exists r. apply list_elem_of_lookup_2 in Hr. destruct (Hact r Hr). done.
  - destruct (pick_route _ 0 active) as [r|] eqn:Ep; cbn.
    + apply pick_route_in in Ep. exists r. destruct (Hact r Ep). done.
    + exists lr. destruct (Hact lr Hlr). done.
Qed.

(** ** Resolution ends, at a target *)
Section resolver.
Context `{Multiformats, Crypto, Text, Proto MemNSRecord} (env : REnv).

Lemma is_target_mem n : is_target (lit "/mem/" ++ n) = true.
Proof. done. Qed.
Lemma resolveDepth_target fuel : forall n depth s v s', resolveDepth env fuel n depth s = (Ok v, s') -> is_target v = true.
Proof.
  induction fuel as [|fuel IH]; intros n depth s v s'; [done|]. cbn [resolveDepth].
  destruct (10 <=? depth)%nat; [done|].
  destruct (is_target n) eqn:Et; [by intros [= <- _]|].
  destruct (is_raw_mid n); [intros [= <- _]; apply is_target_mem|].
  destruct (is_domain n).
  - destruct (resolveDNSLink env n) as [[|b t]|e]; [|apply IH|];
      (destruct (negb _); [done|]; unfold mbind, M_bind; destruct (dns_Resolve _ _ _ _) as [[?|?] ?]; [apply IH|done]).
  - unfold mbind, M_bind. destruct (name_record _ _ _) as [[?|?] ?]; [apply IH|done].
Qed.

(** the resolver never goes through a name again once it went through MemLink *)
Definition memlink_names_mids : Prop := re_memlink env = true -> forall domain txts rec,
  re_txt env (lit "_memlink." ++ domain) = Ok txts -> first_record (re_Sscan env) txts = Some rec -> lk_MID rec ≠ [].

Lemma dns_Resolve_mid f g domain s : re_memlink env = true -> memlink_names_mids ->
  dns_Resolve env f domain s = dns_Resolve env g domain s.
Proof.
  intros Hm Hmid. unfold dns_Resolve. destruct (_ ≫= _); [done|].
  destruct (re_txt env _) as [txts|e] eqn:Et; [|done]. cbn [wrap].
  destruct (first_record _ txts) as [rec|] eqn:Er; [|done].
  pose proof (Hmid Hm _ _ _ Et Er). by rewrite bool_decide_eq_false_2.
Qed.
Lemma resolveDepth_enough : memlink_names_mids -> forall fuel fuel' n depth s, (11 <= fuel + depth)%nat -> (11 <= fuel' + depth)%nat -> (depth <= 10)%nat ->
  resolveDepth env fuel n depth s = resolveDepth env fuel' n depth s.
Proof.
  intros Hmid fuel. induction fuel as [|fuel IH]; intros fuel' n depth s Hf Hf' Hd; [lia|].
  destruct fuel' as [|fuel']; [lia|]. cbn [resolveDepth].
  destruct (Nat.leb_spec 10 depth); [done|].
  destruct (is_target n); [done|]. destruct (is_raw_mid n); [done|].
  assert (Hnext : forall n s, resolveDepth env fuel n (S depth) s = resolveDepth env fuel' n (S depth) s).
  { intros. apply IH; lia. }
  destruct (is_domain n).
  - destruct (resolveDNSLink env n) as [[|b t]|e]; [|apply Hnext|];
      (destruct (re_memlink env) eqn:Em; cbn [negb]; [|done]; unfold mbind, M_bind;
       rewrite (dns_Resolve_mid _ (λ name, resolveDepth env fuel' name 0)) by done;
       destruct (dns_Resolve _ _ _ _) as [[?|?] ?]; [apply Hnext|done]).
  - unfold mbind, M_bind. destruct (name_record _ _ _) as [[?|?] ?]; [apply Hnext|done].
Qed.

(** what the resolver calls reports no shortage of fuel *)
Record env_finite : Prop := {
  finite_dht name e : ResolveDHT env name = Err e -> errors_is e OutOfFuel = false;
  finite_txt host e : re_txt env host = Err e -> errors_is e OutOfFuel = false;
}.
Lemma dns_Resolve_finite f domain s e s' : re_memlink env = true -> memlink_names_mids -> env_finite ->
  dns_Resolve env f domain s = (Err e, s') -> errors_is e OutOfFuel = false.
Proof.
  intros Hm Hmid [_ Ht]. unfold dns_Resolve. destruct (_ ≫= _); [done|].
  destruct (re_txt env _) as [txts|e'] eqn:Et; [|intros [= <- <-]; exact (Ht _ _ Et)]. cbn [wrap].
  destruct (first_record _ txts) as [rec|] eqn:Er; [|by intros [= <- <-]].
  pose proof (Hmid Hm _ _ _ Et Er). by rewrite bool_decide_eq_false_2.
Qed.
Lemma name_record_finite name s e s' : env_finite -> name_record env name s = (Err e, s') -> errors_is e OutOfFuel = false.
Proof.
  intros [Hd _]. unfold name_record. destruct (cache_Get _ _ _); [done|].
  destruct (mjoin _) as [rec|]; [destruct (_ <? _); [done|]|];
    (destruct (ResolveDHT env name) eqn:E; [done|]; intros [= <- <-]; exact (Hd _ _ E)).
Qed.
Lemma resolveDepth_finite : memlink_names_mids -> env_finite -> forall fuel n depth s e s', (11 <= fuel + depth)%nat -> (depth <= 10)%nat ->
  resolveDepth env fuel n depth s = (Err e, s') -> errors_is e OutOfFuel = false.
Proof.
  intros Hmid Hfin fuel. induction fuel as [|fuel IH]; intros n depth s e s' Hf Hd; [lia|]. cbn [resolveDepth].
  destruct (Nat.leb_spec 10 depth); [by intros [= <- <-]|].
  destruct (is_target n); [done|]. destruct (is_raw_mid n); [done|].
  destruct (is_domain n).
  - destruct (resolveDNSLink env n) as [[|b t]|e0]; [|apply IH; lia|];
      (destruct (re_memlink env) eqn:Em; cbn [negb]; [|by intros [= <- <-]]; unfold mbind, M_bind;
       destruct (dns_Resolve _ _ _ _) as [[v|e1] s1] eqn:E; [apply IH; lia|intros [= <- <-]; by eapply dns_Resolve_finite]).
  - unfold mbind, M_bind. destruct (name_record _ _ _) as [[rec|e1] s1] eqn:E; [apply IH; lia|intros [= <- <-]; by eapply name_record_finite].
Qed.

(** C15: Resolution ends within eleven calls - eleven units of fuel never run out, and more
    change nothing - and, when it succeeds, at a content path or a URL; if no MemLink record
    sends it back to a name. *)
Theorem resolve_names_terminates n s : memlink_names_mids -> env_finite ->
  (forall e s', Resolve env 11 n s = (Err e, s') -> errors_is e OutOfFuel = false) /\
  (forall fuel, (11 <= fuel)%nat -> Resolve env fuel n s = Resolve env 11 n s) /\
  (forall v s', Resolve env 11 n s = (Ok v, s') -> is_target v = true).
Proof.
  intros Hmid Hfin. split_and!.
  - intros e s'. apply resolveDepth_finite; [done..|lia|lia].
  - intros fuel Hf. apply resolveDepth_enough; [done|lia..].
  - intros v s'. apply resolveDepth_target.
Qed.
End resolver.

(** ** A subscription keeps the newest valid record *)
Section subscription.
Context `{Multiformats, Crypto, Text, Proto MemNSRecord}.

Definition valid_in (msgs : list (Z * bytes)) (rec : MemNSRecord) : Prop :=
  exists now msg, (now, msg) ∈ msgs /\ unmarshal msg = Ok rec /\ VerifyRecord now rec = Ok tt.
Definition kept (name : bytes) (s : RState) : option MemNSRecord := mjoin (rs_pubsub s !! name).
Definition kept_inv (msgs : list (Z * bytes)) (name : bytes) (last : Z) (s : RState) : Prop :=
  (forall rec, valid_in msgs rec -> nr_Sequence rec <= last) /\
  match kept name s with
  | Some rec => nr_Sequence rec = last /\ valid_in msgs rec
  | None => last = 0
  end.

Lemma valid_in_snoc msgs now msg rec : valid_in (msgs ++ [(now, msg)]) rec <->
  valid_in msgs rec \/ (unmarshal msg = Ok rec /\ VerifyRecord now rec = Ok tt).
Proof.
  unfold valid_in. split.
  - intros (t & m & [Hin|[= -> ->]%list_elem_of_singleton]%elem_of_app & ? & ?); [left; by exists t, m|by right].
  - intros [(t & m & Hin & ? & ?)|[? ?]]; [exists t, m|exists now, msg]; split_and!; set_solver.
Qed.
Lemma sub_next_spec now lastSeq msg : match sub_next now lastSeq msg with
  | Some rec => unmarshal msg = Ok rec /\ VerifyRecord now rec = Ok tt /\ lastSeq < nr_Sequence rec
  | None => forall rec, unmarshal msg = Ok rec -> VerifyRecord now rec = Ok tt -> nr_Sequence rec <= lastSeq
  end.
Proof.
  unfold sub_next. destruct (unmarshal msg) as [rec|] eqn:Eu; [|done].
  destruct (VerifyRecord now rec) as [[]|] eqn:Ev; [|congruence].
  destruct (Z.ltb_spec lastSeq (nr_Sequence rec)); [done|congruence].
Qed.
Lemma deliver_kept now name rec s : (forall cur, kept name s = Some cur -> nr_Sequence cur < nr_Sequence rec) ->
  kept name (deliver now name rec s) = Some rec /\ forall other, other ≠ name -> kept other (deliver now name rec s) = kept other s.
Proof.
  intros Hnew. unfold deliver, kept in *. destruct (mjoin (rs_pubsub s !! name)) as [cur|] eqn:E.
  - destruct (Z.ltb_spec (nr_Sequence cur) (nr_Sequence rec)); [|pose proof (Hnew _ eq_refl); lia].
    cbn. rewrite lookup_insert_eq. split; [done|]. intros other Ho. by rewrite lookup_insert_ne.
  - cbn. rewrite lookup_insert_eq. split; [done|]. intros other Ho. by rewrite lookup_insert_ne.
Qed.
Lemma subscription_inv name msgs : forall msgs0 last s, kept_inv msgs0 name last s ->
  kept_inv (msgs0 ++ msgs) name (subscription name msgs last s).1 (subscription name msgs last s).2 /\
  forall other, other ≠ name -> kept other (subscription name msgs last s).2 = kept other s.
Proof.
  induction msgs as [|[now msg] msgs IH]; intros msgs0 last s [Hle Hk]; cbn [subscription].
  { rewrite app_nil_r. done. }
  pose proof (sub_next_spec now last msg) as Hn.
  rewrite (cons_middle (now, msg) msgs0 msgs), (app_assoc msgs0).
  destruct (sub_next now last msg) as [rec|].
  - destruct Hn as (Hu & Hv & Hlt).
    destruct (deliver_kept now name rec s) as [Hd Ho].
    { intros cur Hc. rewrite Hc in Hk. lia. }
    destruct (IH (msgs0 ++ [(now, msg)]) (nr_Sequence rec) (deliver now name rec s)) as [IH1 IH2].
    { split.
      - intros rec' [Hr|[Hu' _]]%valid_in_snoc; [pose proof (Hle _ Hr); lia|]. assert (rec' = rec) by congruence. subst; lia.
      - rewrite Hd. split; [done|]. apply valid_in_snoc. by right. }
    split; [exact IH1|]. intros other Hother. rewrite IH2, Ho; done.
  - apply IH. split.
    + intros rec' [Hr|[? ?]]%valid_in_snoc; auto.
    + destruct (kept name s) as [rec|]; [|done]. destruct Hk as [? ?]. split; [done|]. apply valid_in_snoc. by left.
Qed.

(** A subscription keeps, under its name, the record of the highest sequence number among
    the messages that unmarshal and verify when they arrive, and touches no other name; it
    keeps none only when no message was valid. *)
Theorem subscription_newest name msgs s : kept name s = None ->
  let s' := (subscription name msgs 0 s).2 in
  (forall rec, kept name s' = Some rec -> valid_in msgs rec /\ forall rec', valid_in msgs rec' -> nr_Sequence rec' <= nr_Sequence rec) /\
  (kept name s' = None -> forall rec', valid_in msgs rec' -> nr_Sequence rec' <= 0) /\
  (forall other, other ≠ name -> kept other s' = kept other s).
Proof.
  intros Hnone s'. destruct (subscription_inv name msgs [] 0 s) as [[Hle Hk] Ho].
  { split; [|by rewrite Hnone]. intros rec (? & ? & ?%elem_of_nil & _). done. }
  fold s' in Hk, Ho. cbn [app] in *. split_and!; [| |exact Ho].
  - intros rec Hr. rewrite Hr in Hk. destruct Hk as [Heq Hv]. split; [done|]. by rewrite Heq.
  - intros Hr rec' Hv. rewrite Hr in Hk. rewrite <-Hk. by apply Hle.
Qed.
End subscription.

(** ** From the owner to the reader *)
Section publish.
Context `{Multiformats} `{!MultiformatsLaws} `{!CidBase32} `{Text} `{!TextLaws} `{Crypto} (pair : PrivKey -> PubKey -> Prop) `{!CryptoLaws pair}.
Context `{Proto MemNSRecord} `{DHT}.
Context (roundtrip : forall (r : MemNSRecord) raw, marshal r = Ok raw -> unmarshal raw = Ok r).
Context (peer_info : bytes -> option (bytes * list bytes)) (registry : bytes -> option (list bytes)) (wire : bytes -> option (bytes * list bytes)).
Context (peer_Decode multiaddr_ok : bytes -> bool).

Lemma route_of_no_routes env r : nr_Routes r = [] -> route_of env r = nr_Value r.
Proof. intros Hr. unfold route_of, SelectRoute. by rewrite Hr. Qed.
Lemma resolveDepth_name env fuel name depth s : (depth < 10)%nat ->
  resolveDepth env (S fuel) (lit "/memns/" ++ name) depth s =
  (rec ← name_record env name; resolveDepth env fuel (route_of env rec) (S depth)) s.
Proof. intros Hd. cbn [resolveDepth]. by rewrite (proj2 (Nat.leb_gt 10 depth)). Qed.
Lemma resolveDepth_mem env fuel p depth s : (depth < 10)%nat -> resolveDepth env (S fuel) (lit "/mem/" ++ p) depth s = (Ok (lit "/mem/" ++ p), s).
Proof. intros Hd. cbn [resolveDepth]. by rewrite (proj2 (Nat.leb_gt 10 depth)). Qed.

Lemma derived_name pk nm : DeriveMemNSName pk = Ok nm -> lit "/memns/" ++ strip_memns nm = nm /\ strip_memns (strip_memns nm) = strip_memns nm.
Proof.
  unfold DeriveMemNSName. destruct (MarshalPublicKey _) as [pkb|]; [|done]. cbn [wrap mbind result_bind]. intros E.
  apply (f_equal (λ x, match x with Ok y => y | Err _ => [] end)) in E. cbv beta match in E. by subst nm.
Qed.
(** a record of the owner that the DHT has under the name is what readers get *)
Lemma found_resolves key m r raw d : wf_mid m -> pair (k_PrivKey key) (k_PubKey key) -> DeriveMemNSName (k_PubKey key) = Ok (k_MemNSName key) ->
  owned key r -> nr_Value r = lit "/mem/" ++ String m -> nr_Routes r = [] -> marshal r = Ok raw -> GetValue d (k_MemNSName key) = Ok raw ->
  forall env s, re_dht env = GetValue d -> re_now env < nr_Validity r ->
    cache_Get (re_now env) (strip_memns (k_MemNSName key)) (rs_cache s) = None -> kept (strip_memns (k_MemNSName key)) s = None ->
    exists s', Resolve env 11 (k_MemNSName key) s = (Ok (lit "/mem/" ++ String m), s').
Proof using All.
  intros Hm Hp Hn Ho Hval Hro Hraw Hg env s Hd Ht Hc Hk. destruct (derived_name _ _ Hn) as [Hnm Hst].
  destruct (owned_accepted pair roundtrip peer_info registry wire peer_Decode multiaddr_ok (re_now env) key m r raw Hm Hp Hn Ho Hval Hraw) as [Hver _].
  assert (VerifyRecord (re_now env) r = Ok tt) as Hver'.
  { destruct (VerifyRecord (re_now env) r) as [[]|]; [done|]. cbn in Hver. destruct (Z.ltb_spec (re_now env) (nr_Validity r)); [done|lia]. }
  assert (ResolveDHT env (strip_memns (k_MemNSName key)) = Ok r) as Hres.
  { unfold ResolveDHT. rewrite Hd, Hst, Hnm, Hg. cbn [wrap mbind result_bind]. rewrite (roundtrip _ _ Hraw). cbn [wrap mbind result_bind]. by rewrite Hver'. }
  remember (strip_memns (k_MemNSName key)) as nm eqn:Enm. rewrite <-Hnm. unfold Resolve. rewrite resolveDepth_name by lia. unfold mbind, M_bind, name_record. rewrite Hc. unfold kept in Hk. rewrite Hk, Hres.
  rewrite route_of_no_routes, Hval by done. rewrite resolveDepth_mem by lia. by eexists.
Qed.
Lemma better_false c r : better c r = false <->
  nr_Sequence c < nr_Sequence r \/ nr_Sequence c = nr_Sequence r /\ nr_Validity c <= nr_Validity r.
Proof using Type.
  unfold better. destruct (Z.ltb_spec (nr_Sequence r) (nr_Sequence c)), (Z.eqb_spec (nr_Sequence c) (nr_Sequence r)),
    (Z.ltb_spec (nr_Validity r) (nr_Validity c)); cbn [orb andb]; split; done || lia.
Qed.
(** no record held under [name] is better than [r]: of a higher sequence number, or of the
    same and a longer validity *)
Definition newest (name : bytes) (r : MemNSRecord) (d : D) : Prop :=
  forall w c, w ∈ held d name -> unmarshal w = Ok c -> better c r = false.
Lemma newest_selected nm r raw d : HasPrefix nm (lit "/memns/") = true -> marshal r = Ok raw -> newest nm r d ->
  forall w, w ∈ held d nm -> w = raw \/ Select nm [raw; w] = Ok 0%nat.
Proof using roundtrip.
  intros Hnm Hraw Hnew w Hw. right. unfold Select. rewrite bool_decide_eq_false_2, Hnm by done. cbn [best_of].
  rewrite (roundtrip _ _ Hraw). destruct (unmarshal w) as [c|] eqn:Ec; [|done]. by rewrite (Hnew w c Hw Ec).
Qed.
Lemma owned_published now key m r raw d
    `{!DHTLaws (λ k v, is_ok (Validate peer_info registry wire peer_Decode multiaddr_ok now k v)) Select} : wf_mid m ->
  pair (k_PrivKey key) (k_PubKey key) -> DeriveMemNSName (k_PubKey key) = Ok (k_MemNSName key) ->
  owned key r -> nr_Value r = lit "/mem/" ++ String m -> marshal r = Ok raw -> now < nr_Validity r ->
  newest (k_MemNSName key) r d ->
  exists d', PublishDHT key r d = Ok d' /\ GetValue d' (k_MemNSName key) = Ok raw.
Proof using All.
  intros Hm Hp Hn Ho Hval Hraw Ht Hnew. destruct (derived_name _ _ Hn) as [Hnm Hst].
  destruct (owned_accepted pair roundtrip peer_info registry wire peer_Decode multiaddr_ok now key m r raw Hm Hp Hn Ho Hval Hraw) as [_ Hacc].
  destruct (PutValue_GetValue (k_MemNSName key) raw d) as (d' & Hput & Hget); [|apply newest_selected with r; [by rewrite <-Hnm|done..]|].
  { cbv beta. rewrite Hacc by (rewrite <-Hnm; reflexivity). rewrite bool_decide_eq_true_2 by done. by destruct (Z.ltb_spec now (nr_Validity r)); [|lia]. }
  exists d'. split; [|done]. unfold PublishDHT. rewrite Hraw. cbn [wrap mbind result_bind]. rewrite Hnm. by rewrite Hput.
Qed.

(** C14: What an owner publishes, a reader resolves: a record built for a content path is put
    into the DHT - whose validator accepts it - and is found under the owner's name by any
    reader that holds no other record of the name, until the record expires; provided the
    DHT holds no better record of the name, of a higher sequence number or of the same and a
    longer validity, for [Select] would prefer that one and the put may be refused
    ([older_record_refused]). *)
Theorem publish_resolve now key m seq ttl message r d
    `{!DHTLaws (λ k v, is_ok (Validate peer_info registry wire peer_Decode multiaddr_ok now k v)) Select} : wf_mid m ->
  pair (k_PrivKey key) (k_PubKey key) -> DeriveMemNSName (k_PubKey key) = Ok (k_MemNSName key) ->
  0 < seq < 2 ^ 64 -> 0 <= now -> 0 < ttl -> now + ttl < 2 ^ 63 ->
  (forall w c, w ∈ held d (k_MemNSName key) -> unmarshal w = Ok c ->
     nr_Sequence c < seq \/ nr_Sequence c = seq /\ nr_Validity c <= now + ttl) ->
  BuildRecord now key (lit "/mem/" ++ String m) seq ttl [] message = Ok r -> is_ok (marshal r) = true ->
  exists d', PublishDHT key r d = Ok d' /\
    forall env s, re_dht env = GetValue d' -> re_now env < now + ttl ->
     let name := strip_memns (k_MemNSName key) in
     cache_Get (re_now env) name (rs_cache s) = None -> kept name s = None ->
     exists s', Resolve env 11 (k_MemNSName key) s = (Ok (lit "/mem/" ++ String m), s').
Proof using All.
  intros Hm Hp Hn Hs Hnow Httl Hov Hheld Hb Hraw. destruct (marshal r) as [raw|] eqn:Er; [|done]. clear Hraw.
  destruct (BuildRecord_owned _ _ _ _ _ _ _ _ Hm (proj1 Hs) Hb) as (Ho & Hval & Hq & Hro & Hv & _). rewrite i64_small in Hv by lia.
  assert (newest (k_MemNSName key) r d) as Hnew.
  { intros w c Hw Hc. apply (better_false c r). rewrite Hq, Hv. by apply (Hheld w). }
  destruct (owned_published now key m r raw d Hm Hp Hn Ho Hval Er ltac:(lia) Hnew) as (d' & Hput & Hget). exists d'. split; [done|].
  intros env s Hd Ht name Hc Hk. eapply found_resolves; [..|exact Hd| | |]; try done. by rewrite Hv.
Qed.
End publish.

(** ** A concrete network *)
Definition demo_value : bytes := lit "/mem/" ++ String demo_target.
(** a record its signer, the key KEY, may put anything unsigned into: here a route to a domain *)
Definition demo_record (routes : list MemRoute) : MemNSRecord :=
  let r sig := mkMemNSRecord demo_value sig 3 1000 (lit "KEY") 0 0 routes [] [] ∅ in
  r (lit "KEY" ++ CanonicalBytes (r [])).
Definition demo_raw (routes : list MemRoute) : bytes := match marshal (demo_record routes) with Ok raw => raw | Err _ => [] end.
Definition demo_env (routes : list MemRoute) (memlink : bool) : REnv := mkREnv 5 (λ _, 0) None
  (λ k, if bool_decide (k = lit "/memns/kx") then Ok (demo_raw routes) else Err (New "not found"))
  (λ host, if bool_decide (host = lit "_memlink.a.b") then Ok [lit "memns=kx"] else Err (New "no such host"))
  (λ _, Err (New "no such host")) None memlink (λ _, None).
Definition fresh (limit : Z) : RState := mkRState (NewRecordCache limit) ∅ ∅.

Lemma cache_bounded_witness :
  let c := cache_adds [(1, lit "ka", demo_record []); (2, lit "kb", demo_record []); (3, lit "kc", demo_record [])] (NewRecordCache 2) in
  Z.of_nat (size (rc_entries c)) <= Z.max 1 2.
Proof.
  apply (cache_bounded 2 [(1, lit "ka", demo_record []); (2, lit "kb", demo_record []); (3, lit "kc", demo_record [])]).
  repeat constructor; discriminate.
Defined.
Lemma ResolveDHT_demo routes memlink : ResolveDHT (demo_env routes memlink) (lit "kx") = Ok (demo_record routes).
Proof.
  unfold ResolveDHT. cbn [re_dht demo_env]. rewrite bool_decide_eq_true_2 by done. cbn [wrap mbind result_bind].
  assert (Hu : unmarshal (demo_raw routes) = Ok (demo_record routes)) by (apply toy_record_roundtrip; done).
  rewrite Hu. cbn [wrap mbind result_bind].
  assert (Hv : VerifyRecord 5 (demo_record routes) = Ok tt) by (vm_compute; reflexivity).
  cbn [re_now demo_env]. by rewrite Hv.
Qed.
Lemma demo_finite routes memlink : env_finite (demo_env routes memlink).
Proof.
  split.
  - intros name e. unfold ResolveDHT. cbn [re_dht demo_env].
    case_bool_decide as Hk; [|by intros [= <-]].
    assert (Hs : strip_memns name = lit "kx") by (by apply (app_inv_head (lit "/memns/")) in Hk).
    pose proof (ResolveDHT_demo routes memlink) as Hok. unfold ResolveDHT in Hok. cbn [re_dht demo_env] in Hok.
    rewrite bool_decide_eq_true_2 in Hok by done. intros E. cbn [wrap mbind result_bind re_now demo_env] in *. congruence.
  - intros host e. cbn. case_bool_decide; [done|]. by intros [= <-].
Qed.
Lemma resolve_names_terminates_witness : exists s', Resolve (demo_env [] false) 11 (lit "/memns/kx") (fresh 8) = (Ok demo_value, s') /\ is_target demo_value = true.
Proof.
  assert (exists s', Resolve (demo_env [] false) 11 (lit "/memns/kx") (fresh 8) = (Ok demo_value, s')) as [s' E].
  { assert (fst (Resolve (demo_env [] false) 11 (lit "/memns/kx") (fresh 8)) = Ok demo_value) as E by (vm_compute; reflexivity).
    destruct (Resolve _ _ _ _) as [r s'']. exists s''. by cbn in E; subst. }
  destruct (resolve_names_terminates (demo_env [] false) (lit "/memns/kx") (fresh 8)) as (_ & _ & Ht); [discriminate|apply demo_finite|].
  exists s'. split; [exact E|]. exact (Ht _ _ E).
Defined.
(** a network that keeps the last value, and one that asks [Select] as kad-dht does *)
#[export] Instance toy_dht : DHT := {| D := gmap bytes bytes; PutValue k v d := Ok (<[k := v]> d);
  GetValue d k := match d !! k with Some v => Ok v | None => Err (New "not found") end;
  held d k := match d !! k with Some v => [v] | None => [] end |}.
#[export] Instance toy_dht_laws accepts select : DHTLaws accepts select.
Proof. intros k v d _ _. exists (<[k := v]> d). split; [done|]. cbn. by rewrite lookup_insert_eq. Qed.
Definition kad_dht : DHT := {| D := gmap bytes bytes;
  PutValue k v d :=
    match d !! k with
    | Some w =>
        if bool_decide (w = v) then Ok (<[k := v]> d) else
        match Select k [v; w] with
        | Err e => Err e
        | Ok O => Ok (<[k := v]> d)
        | Ok (S _) => Err (New "can't replace a newer value with an older value")
        end
    | None => Ok (<[k := v]> d)
    end;
  GetValue d k := match d !! k with Some v => Ok v | None => Err (New "not found") end;
  held d k := match d !! k with Some v => [v] | None => [] end |}.
Lemma kad_dht_laws accepts : DHTLaws (H := kad_dht) accepts Select.
Proof.
  intros k v d _ Hsel. change (gmap bytes bytes) in d. exists (<[k := v]> d). cbn in Hsel |- *.
  split; [|by rewrite lookup_insert_eq]. destruct (d !! k) as [w|]; [|done].
  case_bool_decide; [done|]. destruct (Hsel w) as [?| ->]; [by left|congruence|done].
Qed.
(** the key has a record of sequence 1 in the DHT, and publishes the next one *)
Definition demo_dht : gmap bytes bytes :=
  match BuildRecord 4 demo_key demo_value 1 20 [] [] with
  | Ok r => match marshal r with Ok raw => {[ k_MemNSName demo_key := raw ]} | Err _ => ∅ end
  | Err _ => ∅
  end.
Lemma publish_resolve_witness : exists r d', BuildRecord 5 demo_key demo_value 2 10 [] [] = Ok r /\
  PublishDHT (H1 := kad_dht) demo_key r demo_dht = Ok d' /\ bool_decide (held (DHT := kad_dht) demo_dht (k_MemNSName demo_key) = []) = false /\
  exists s', Resolve (mkREnv 14 (λ _, 0) None (GetValue (DHT := kad_dht) d') (λ _, Err (New "no such host")) (λ _, Err (New "no such host")) None false (λ _, None)) 11
    (k_MemNSName demo_key) (fresh 8) = (Ok demo_value, s').
Proof.
  assert (exists r, BuildRecord 5 demo_key demo_value 2 10 [] [] = Ok r) as [r E].
  { assert (is_ok (BuildRecord 5 demo_key demo_value 2 10 [] []) = true) as E by (vm_compute; reflexivity).
    destruct (BuildRecord _ _ _ _ _ _ _) as [r|]; [by exists r|done]. }
  destruct (publish_resolve (H4 := toy_crypto) (H6 := kad_dht) (DHTLaws0 := kad_dht_laws _) eq toy_record_roundtrip (λ _, None) (λ _, None) (λ _, None) (λ _, true) (λ _, true)
    5 demo_key demo_target 2 10 [] r demo_dht) as (d' & Hp & Hr);
    [exact (toy_raw_wf (lit "page"))|reflexivity|reflexivity|split; reflexivity|discriminate|reflexivity|reflexivity| |exact E|reflexivity|].
  { intros w c Hw Hc. left.
    assert (forallb (λ w, match unmarshal (A := MemNSRecord) w with Ok c => nr_Sequence c =? 1 | Err _ => true end)
      (held (DHT := kad_dht) demo_dht (k_MemNSName demo_key)) = true) as Hf by (vm_compute; reflexivity).
    rewrite forallb_forall in Hf. specialize (Hf w (proj1 (list_elem_of_In _ _) Hw)). cbv beta in Hf. rewrite Hc in Hf.
    apply Z.eqb_eq in Hf. rewrite Hf. reflexivity. }
  exists r, d'. split; [exact E|]. split; [exact Hp|]. split; [vm_compute; reflexivity|].
  apply Hr; reflexivity.
Defined.
(** a record of a lower sequence number than the one in the DHT is refused *)
Definition demo_update (seq1 seq2 : Z) : option bool :=
  match BuildRecord 5 demo_key demo_value seq1 10 [] [], BuildRecord 6 demo_key demo_value seq2 10 [] [] with
  | Ok r1, Ok r2 =>
      match PublishDHT (H1 := kad_dht) demo_key r1 (∅ : gmap bytes bytes) with
      | Ok d => Some (is_ok (PublishDHT (H1 := kad_dht) demo_key r2 d))
      | Err _ => None
      end
  | _, _ => None
  end.
Lemma older_record_refused : demo_update 1 2 = Some true /\ demo_update 2 2 = Some true /\ demo_update 2 1 = Some false.
Proof. split_and!; vm_compute; reflexivity. Qed.
Lemma subscription_newest_witness : exists rec, kept (lit "kx") (subscription (lit "kx") [(5, demo_raw []); (2000, demo_raw [])] 0 (fresh 8)).2 = Some rec /\
  valid_in [(5, demo_raw []); (2000, demo_raw [])] rec.
Proof.
  destruct (subscription_newest (lit "kx") [(5, demo_raw []); (2000, demo_raw [])] (fresh 8)) as (Hs & Hn & _); [reflexivity|].
  destruct (kept _ _) as [rec|]; [exists rec; split; [reflexivity|]; destruct (Hs rec); [reflexivity|assumption]|].
  exfalso. assert (valid_in [(5, demo_raw []); (2000, demo_raw [])] (demo_record [])) as Hv.
  { exists 5, (demo_raw []). split_and!; [left|apply toy_record_roundtrip; reflexivity|vm_compute; reflexivity]. }
  exact (Hn eq_refl _ Hv eq_refl).
Defined.

(** *** A domain and a name that point at each other are followed forever: through MemLink the
    depth starts again at zero, so the limit of ten is never met *)
Definition cycle_routes : list MemRoute := [mkMemRoute (lit "a.b") 1 [] ∅].
Definition cycle_env : REnv := demo_env cycle_routes true.
Definition cycling (s : RState) : Prop :=
  rs_dns s !! lit "a.b" = None /\ mjoin (rs_pubsub s !! lit "kx") = None /\
  (cache_Get 5 (lit "kx") (rs_cache s) = None \/ cache_Get 5 (lit "kx") (rs_cache s) = Some (demo_record cycle_routes)).
Lemma cycling_record s : cycling s -> exists s', name_record cycle_env (lit "kx") s = (Ok (demo_record cycle_routes), s') /\ cycling s'.
Proof.
  intros (Hd & Hp & Hc). unfold name_record. cbn [re_now cycle_env demo_env].
  destruct Hc as [Hc|Hc]; rewrite Hc.
  - rewrite Hp. unfold cycle_env. rewrite ResolveDHT_demo. eexists. split; [reflexivity|].
    split_and!; [exact Hd|exact Hp|right]. cbn [rs_cache subscribeToName re_subscribe demo_env]. unfold cache_Get, cache_Add. cbn [rc_entries].
    by rewrite lookup_insert_eq.
  - exists s. split; [done|]. split_and!; [done..|by right].
Qed.
Lemma cycle_step fuel depth s : cycling s -> (depth < 10)%nat ->
  exists e s', resolveDepth cycle_env fuel (lit "a.b") depth s = (Err e, s') /\ errors_is e OutOfFuel = true.
Proof.
  revert depth s. induction fuel as [fuel IH] using lt_wf_ind. intros depth s Hs Hd.
  destruct fuel as [|fuel]; [by eexists _, _|]. cbn [resolveDepth].
  rewrite (proj2 (Nat.leb_gt 10 depth)) by done.
  change (is_target (lit "a.b")) with false. change (is_raw_mid (lit "a.b")) with false. change (is_domain (lit "a.b")) with true. cbv iota.
  change (resolveDNSLink cycle_env (lit "a.b")) with (Err (A := bytes) (New "no such host")). cbn [re_memlink cycle_env demo_env negb].
  unfold mbind, M_bind, dns_Resolve. rewrite (proj1 Hs). cbn [mbind option_bind].
  change (re_txt cycle_env (lit "_memlink." ++ lit "a.b")) with (Ok [lit "memns=kx"]). cbn [wrap].
  destruct (first_record _ _) as [rec|] eqn:Er; [|vm_compute in Er; discriminate].
  assert (lk_MID rec = [] /\ lk_MemNSName rec = lit "kx" /\ lk_Delegate rec = []) as (-> & -> & ->).
  { vm_compute in Er. injection Er as <-. done. }
  cbn [bool_decide decide negb]. rewrite !bool_decide_eq_true_2, bool_decide_eq_false_2 by done. cbn [negb].
  destruct fuel as [|fuel]; [by eexists _, _|]. cbn [resolveDepth Nat.leb].
  change (is_target (lit "kx")) with false. change (is_raw_mid (lit "kx")) with false. change (is_domain (lit "kx")) with false. cbv iota.
  change (strip_memns (lit "kx")) with (lit "kx"). unfold mbind, M_bind.
  destruct (cycling_record s Hs) as (s1 & Hr & Hs1). rewrite Hr.
  change (route_of cycle_env (demo_record cycle_routes)) with (lit "a.b").
  destruct (IH fuel ltac:(lia) 1%nat s1 Hs1 ltac:(lia)) as (e & s2 & He & Hfuel). rewrite He. cbn [wrap].
  eexists _, s2. split; [reflexivity|]. cbn [errors_is]. by rewrite Hfuel, orb_true_r.
Qed.
Lemma domain_cycle_never_ends fuel : exists e s', Resolve cycle_env fuel (lit "a.b") (fresh 8) = (Err e, s') /\ errors_is e OutOfFuel = true.
Proof. apply cycle_step; [|lia]. split_and!; [done..|by left]. Qed.

(** *** Neither the resolver nor a subscription compares the key of a record with the name: any
    valid record delivered under a name is what the name resolves to *)
Lemma foreign_record_accepted name : 
  let s := deliver 5 name (demo_record []) (fresh 8) in
  sub_next 5 0 (demo_raw []) = Some (demo_record []) /\ cache_Get 5 name (rs_cache s) = Some (demo_record []) /\ kept name s = Some (demo_record []).
Proof.
  split_and!.
  - unfold sub_next. assert (Hu : unmarshal (demo_raw []) = Ok (demo_record [])) by (apply toy_record_roundtrip; done).
    rewrite Hu. assert (Hv : VerifyRecord 5 (demo_record []) = Ok tt) by (vm_compute; reflexivity). by rewrite Hv.
  - unfold deliver. change (rs_pubsub (fresh 8)) with (∅ : gmap bytes (option MemNSRecord)). rewrite lookup_empty. cbn [mjoin option_join rs_cache].
    unfold cache_Get, cache_Add. cbn [rc_entries]. by rewrite lookup_insert_eq.
  - apply deliver_kept. intros cur. unfold kept. change (rs_pubsub (fresh 8)) with (∅ : gmap bytes (option MemNSRecord)). by rewrite lookup_empty.
Qed.
