(* ===== verification/Memex.v ===== *)
(** * The block exchange: messages and serving (src/net/memex_v2: memex.go, want_exchange.go,
      push.go)

    A peer is an engine over a block store; peers exchange [MemexMessage]s in length-prefixed
    frames.  [HandleRemoteWants] answers the wants of a peer, [verify_job] is the check a
    received block passes before [flush] puts it into the store, [StoreObjectInfos] takes the
    descriptors that come along.  Streams are bytes: [writeFrame] is what is written,
    [readFrame] reads from a [GoIO.Reader].
    [frame_roundtrip]: a frame is read back whole, however the stream cuts it, and leaves the
    rest.  [HandleRemoteWants_answers]: every want gets exactly the answer it is due.
    [exchange_delivers]: what a peer serves, the asking peer verifies and stores. *)
From S2P Require Import Prelude Mid GoIO Wire Blockstore Objects Memstore.

Definition maxFrameSize : Z := 16 * 2 ^ 20.
Definition WANT_BLOCK : Z := 0.
Definition WANT_HAVE : Z := 1.
Record WantEntry := mkWantEntry { we_Mid : bytes; we_Priority : Z; we_SendDontHave : bool; we_WantType : Z; we_Cancel : bool }.
(** the message [ObjectInfo]; maps keep one value per key *)
Record PbObjectInfo := mkPbObjectInfo { po_Name : bytes; po_MimeType : bytes; po_Size : Z }.
Record MemexMessage := mkMemexMessage {
  mx_Wants : list WantEntry;
  mx_Blocks : list Block;
  mx_HaveMids : list bytes;
  mx_Cancel : list bytes;
  mx_ObjectInfos : gmap bytes PbObjectInfo;
  mx_SequenceNumber : Z;
  mx_BloomFilter : bytes;
  mx_DontHaves : list bytes;
}.
Definition emptyMessage : MemexMessage := mkMemexMessage [] [] [] [] ∅ 0 [] [].

(** ** Timeouts *)
Definition second : Z := 1000000000.
Definition EstimateTimeout (contentBytes : Z) : Z :=
  if contentBytes =? 0 then 30 * second else
  let blocks := u64 (contentBytes + 262144 - 1) / 262144 in
  let batches := u64 (blocks + 8 - 1) / 8 in
  let d := i64 (i64 batches * (second / 2)) in
  let d := if d <? 30 * second then 30 * second else d in
  if 300 * second <? d then 300 * second else d.

(** ** Frames *)
Definition PutUint32 (z : Z) : bytes := be_split 4 z.
(** [io.ReadFull] of [n] bytes; the error of a short stream is not looked at *)
Fixpoint read_full (fuel : nat) (n : nat) (acc : bytes) (r : Reader) : option bytes * Reader :=
  match n, fuel with
  | O, _ => (Some acc, r)
  | _, O => (None, r)
  | _, S fuel =>
      let '((bs, e), r) := Read r n in
      if (n <=? length bs)%nat then (Some (acc ++ bs), r)
      else match e with
           | Some _ => (None, r)
           | None => read_full fuel (n - length bs) (acc ++ bs) r
           end
  end.
Definition ReadFull (n : nat) (r : Reader) : option bytes * Reader := read_full (rd_measure r) n [] r.
Definition readFrame (r : Reader) : option bytes * Reader :=
  match ReadFull 4 r with
  | (None, r) => (None, r)
  | (Some lenBuf, r) =>
      let l := be_combine lenBuf in
      if (l =? 0) || (maxFrameSize <? l) then (None, r) else ReadFull (Z.to_nat l) r
  end.
(** the bytes that go to the stream *)
Definition writeFrame `{Proto MemexMessage} (m : MemexMessage) : result bytes :=
  buf ← marshal m;
  if maxFrameSize <? zlen buf then Err (New "memex: frame too large") else
  Ok (PutUint32 (u32 (zlen buf)) ++ buf).

(** ** Serving *)
Section engine.
Context `{Multiformats, ObjectJSON} (alg : Z) {St : Type} `{Blockstore St, MetaStore St}.

Definition objectInfoFor (m : MID) (s : St) : option PbObjectInfo :=
  match st_GetMeta (lit "obj/" ++ String m) s with
  | Err _ | Ok [] => None
  | Ok raw =>
      match json_Unmarshal raw with
      | Err _ => None
      | Ok info => Some (mkPbObjectInfo (oi_Name info) (oi_MimeType info) (oi_Size info))
      end
  end.
Definition add_block (w : WantEntry) (id : MID) (data : bytes) (s : St) (resp : MemexMessage) : MemexMessage :=
  mkMemexMessage (mx_Wants resp) (mx_Blocks resp ++ [mkBlock data (we_Mid w) (u64 (zlen data))]) (mx_HaveMids resp) (mx_Cancel resp)
    (match objectInfoFor id s with Some oi => <[we_Mid w := oi]> (mx_ObjectInfos resp) | None => mx_ObjectInfos resp end)
    (mx_SequenceNumber resp) (mx_BloomFilter resp) (mx_DontHaves resp).
Definition add_have (w : WantEntry) (resp : MemexMessage) : MemexMessage :=
  mkMemexMessage (mx_Wants resp) (mx_Blocks resp) (mx_HaveMids resp ++ [we_Mid w]) (mx_Cancel resp) (mx_ObjectInfos resp)
    (mx_SequenceNumber resp) (mx_BloomFilter resp) (mx_DontHaves resp).
Definition add_dont_have (w : WantEntry) (resp : MemexMessage) : MemexMessage :=
  mkMemexMessage (mx_Wants resp) (mx_Blocks resp) (mx_HaveMids resp) (mx_Cancel resp) (mx_ObjectInfos resp)
    (mx_SequenceNumber resp) (mx_BloomFilter resp) (mx_DontHaves resp ++ [we_Mid w]).
Definition answer (s : St) (resp : MemexMessage) (w : WantEntry) : MemexMessage :=
  if bool_decide (we_Mid w = []) || we_Cancel w then resp else
  match Parse (we_Mid w) with
  | Err _ => resp
  | Ok id =>
      match bs_Has id s with
      | Ok true =>
          if we_WantType w =? WANT_HAVE then add_have w resp else
          match bs_Get id s with Err _ => resp | Ok data => add_block w id data s resp end
      | _ => if we_SendDontHave w then add_dont_have w resp else resp
      end
  end.
(** the reply; the wantlist the engine also keeps is in MemexWants.v *)
Definition HandleRemoteWants (s : St) (wants : list WantEntry) : MemexMessage := foldl (answer s) emptyMessage wants.
Definition serve (s : St) (resp : MemexMessage) (w : WantEntry) : MemexMessage :=
  if bool_decide (we_Mid w = []) then resp else
  match Parse (we_Mid w) with
  | Err _ => resp
  | Ok id =>
      match bs_Has id s with
      | Err _ => resp
      | Ok true => match bs_Get id s with Err _ => resp | Ok data => add_block w id data s resp end
      | Ok false => if we_SendDontHave w then add_dont_have w resp else resp
      end
  end.
Definition serveWants (s : St) (wants : list WantEntry) : MemexMessage := foldl (serve s) emptyMessage wants.
(** [readLoop] writes a reply only when it says something *)
Definition worth_sending (resp : MemexMessage) : bool :=
  negb (length (mx_Wants resp) + length (mx_Blocks resp) + length (mx_HaveMids resp) + length (mx_DontHaves resp) + length (mx_Cancel resp) =? 0)%nat.
Definition PushBlocksTo_message (blocks : list SBlock) : MemexMessage :=
  mkMemexMessage [] (map (λ b, mkBlock (sb_Data b) (String (sb_MID b)) (u64 (zlen (sb_Data b)))) blocks) [] [] ∅ 0 [] [].

(** ** Receiving *)
(** [verifierWorker]: [accept] is the policy for blocks nobody here asked for, which is asked
    when the block came over a stream the other side opened *)
Inductive verdict := Drop | Mismatch | Rejected | Store (id : MID) (data : bytes).
Definition verify_job (accept : option (MID -> bool)) (inbound : bool) (b : Block) : verdict :=
  match Parse (BMid b) with
  | Err _ => Drop
  | Ok id =>
      match FromBytesWithCodec alg (Data b) (Codec id) with
      | Err _ => Mismatch
      | Ok actualID =>
          if negb (Equal actualID id) then Mismatch else
          if inbound && match accept with Some accept => negb (accept id) | None => false end then Rejected
          else Store id (Data b)
      end
  end.
(** [flush] of [dbBatchWriter]: the blocks that were put, in order; waiters and sessions are told of these *)
Fixpoint flush (batch : list (MID * bytes)) (s : St) : list MID * St :=
  match batch with
  | [] => ([], s)
  | (id, data) :: batch =>
      match bs_Put id data s with
      | (Ok _, s) => let '(ids, s) := flush batch s in (id :: ids, s)
      | (Err _, s) => flush batch s
      end
  end.
Definition jobs_of (accept : option (MID -> bool)) (inbound : bool) (blocks : list Block) : list (MID * bytes) :=
  omap (λ b, if bool_decide (BMid b = []) then None else
    match verify_job accept inbound b with Store id data => Some (id, data) | _ => None end) blocks.
(** the metadata of a message is written unseen; errors are dropped *)
Definition store_info (midStr : bytes) (oi : PbObjectInfo) (s : St) : St :=
  if bool_decide (midStr = []) then s else
  match json_Marshal (mkObjectInfo (po_Name oi) (po_MimeType oi) (po_Size oi) false) with
  | Err _ => s
  | Ok raw => (st_PutMeta (lit "obj/" ++ midStr) raw s).2
  end.
Definition StoreObjectInfos (infos : gmap bytes PbObjectInfo) (s : St) : St :=
  foldl (λ s kv, store_info kv.1 kv.2 s) s (map_to_list infos).
End engine.

(** ** Frames are read back whole *)
Lemma Read_end_rest r k bs e r' : Read r k = ((bs, Some e), r') -> content r' = ([], e).
Proof.
  destruct r as [|[cs e'] r]; cbn; [by intros [= <- <- <-]|].
  destruct (length cs <=? k)%nat; [destruct e'|]; intros [= <- <- <-]; done.
Qed.
Lemma read_full_spec fuel n acc r : (rd_measure r <= fuel)%nat ->
  let '(c, e) := content r in
  if (n <=? length c)%nat then exists r', read_full fuel n acc r = (Some (acc ++ take n c), r') /\ content r' = (drop n c, e)
  else (read_full fuel n acc r).1 = None.
Proof.
  revert n acc r. induction fuel as [|fuel IH]; intros n acc r Hf.
  { pose proof (rd_measure_pos r). lia. }
  destruct n as [|n].
  { destruct (content r) as [c e] eqn:Ec. cbn. exists r. by rewrite app_nil_r. }
  cbn [read_full]. destruct (Read r (S n)) as [[bs [e'|]] r'] eqn:Er.
  - rewrite (Read_end _ _ _ _ _ Er). pose proof (Read_short _ _ _ _ _ Er).
    destruct (Nat.leb_spec (S n) (length bs)); [|done].
    exists r'. rewrite take_ge, drop_ge by lia. split; [done|]. by eapply Read_end_rest.
  - destruct (Read_more r (S n) bs r' ltac:(lia) Er) as [Hc Hm]. pose proof (Read_short _ _ _ _ _ Er).
    rewrite Hc. specialize (IH (S n - length bs)%nat (acc ++ bs) r' ltac:(lia)). destruct (content r') as [c e] eqn:Ec'. cbn [fst snd]. cbv iota.
    destruct (Nat.leb_spec (S n) (length bs)).
    + destruct (Nat.leb_spec (S n) (length (bs ++ c))) as [|Hl]; [|rewrite length_app in Hl; lia].
      exists r'. assert (length bs = S n) by lia. rewrite take_app_le, take_ge, drop_app_ge by lia. split; [done|].
      replace (S n - length bs)%nat with 0%nat by lia. by rewrite drop_0.
    + rewrite length_app. destruct (Nat.leb_spec (S n - length bs) (length c)).
      * destruct (Nat.leb_spec (S n) (length bs + length c)); [|lia]. destruct IH as (r'' & -> & Hr'').
        exists r''. rewrite (take_app_ge bs c (S n)), (drop_app_ge bs c (S n)) by lia. by rewrite app_assoc.
      * destruct (Nat.leb_spec (S n) (length bs + length c)); [lia|]. exact IH.
Qed.
Lemma ReadFull_spec n r : let '(c, e) := content r in
  if (n <=? length c)%nat then exists r', ReadFull n r = (Some (take n c), r') /\ content r' = (drop n c, e)
  else (ReadFull n r).1 = None.
Proof. apply (read_full_spec (rd_measure r) n [] r). lia. Qed.
Lemma ReadFull_app n r bs rest e : content r = (bs ++ rest, e) -> length bs = n ->
  exists r', ReadFull n r = (Some bs, r') /\ content r' = (rest, e).
Proof.
  intros Hc <-. pose proof (ReadFull_spec (length bs) r) as Hs. rewrite Hc in Hs.
  destruct (Nat.leb_spec (length bs) (length (bs ++ rest))) as [|Hl]; [|rewrite length_app in Hl; lia].
  rewrite take_app_length, drop_app_length in Hs. exact Hs.
Qed.
Lemma PutUint32_length z : length (PutUint32 z) = 4%nat.
Proof. apply be_split_length. Qed.

Section frames.
Context `{Proto MemexMessage}.
Context (roundtrip : forall (m : MemexMessage) raw, marshal m = Ok raw -> unmarshal raw = Ok m).

(** A frame that was written is read back as the message it was made from, wherever the
    stream is cut into pieces, and what follows it stays in the stream - unless the message
    is encoded as the empty string, which no reader takes.  A message that is too large is not
    written at all. *)
Theorem frame_roundtrip m : 
  match writeFrame m with
  | Ok frame => exists buf, marshal m = Ok buf /\ forall r rest e, content r = (frame ++ rest, e) ->
      exists r', content r' = (rest, e) /\
        if bool_decide (buf = []) then readFrame r = (None, r')
        else readFrame r = (Some buf, r') /\ unmarshal buf = Ok m
  | Err e => marshal m = Err e \/ exists buf, marshal m = Ok buf /\ maxFrameSize < zlen buf
  end.
Proof using All.
  unfold writeFrame. destruct (marshal m) as [buf|e0] eqn:Em; cbn [mbind result_bind]; [|by left].
  destruct (Z.ltb_spec maxFrameSize (zlen buf)) as [Hl|Hl]; [right; by exists buf|].
  exists buf. split; [done|]. intros r rest e Hr. rewrite <-app_assoc in Hr. unfold readFrame.
  destruct (ReadFull_app 4 r _ _ e Hr (PutUint32_length _)) as (r1 & -> & Hr1).
  assert (be_combine (PutUint32 (u32 (zlen buf))) = zlen buf) as ->.
  { unfold PutUint32. rewrite be_combine_split. unfold maxFrameSize in Hl. rewrite u32_small by (unfold zlen in *; lia).
    apply Z.mod_small. change (256 ^ Z.of_nat 4) with (2 ^ 32). unfold zlen in *. lia. }
  case_bool_decide as Hb.
  - subst buf. cbn. exists r1. done.
  - assert ((zlen buf =? 0) = false) as -> by (apply Z.eqb_neq; by rewrite zlen_0).
    rewrite (proj2 (Z.ltb_ge maxFrameSize (zlen buf))) by lia. cbn [orb].
    destruct (ReadFull_app (Z.to_nat (zlen buf)) r1 buf rest e Hr1) as (r2 & -> & Hr2); [unfold zlen; lia|].
    exists r2. split; [done|]. split; [done|]. by apply roundtrip.
Qed.
End frames.

(** ** What a want is due *)
Section serving.
Context `{Multiformats, ObjectJSON} {St : Type} `{Blockstore St, MetaStore St}.
Implicit Types (s : St) (w : WantEntry).

(** a want that counts, and the block it names *)
Definition want_id w : option MID :=
  if bool_decide (we_Mid w = []) || we_Cancel w then None else
  match Parse (we_Mid w) with Ok id => Some id | Err _ => None end.
Definition here s (id : MID) : bool := match bs_Has id s with Ok b => b | Err _ => false end.
Definition block_due s w : option (MID * bytes) :=
  id ← want_id w;
  if here s id && negb (we_WantType w =? WANT_HAVE)
  then match bs_Get id s with Ok data => Some (id, data) | Err _ => None end else None.
Definition have_due s w : option bytes :=
  id ← want_id w; if here s id && (we_WantType w =? WANT_HAVE) then Some (we_Mid w) else None.
Definition dont_have_due s w : option bytes :=
  id ← want_id w; if negb (here s id) && we_SendDontHave w then Some (we_Mid w) else None.
Definition block_reply s w : option Block :=
  '(id, data) ← block_due s w; Some (mkBlock data (we_Mid w) (u64 (zlen data))).
Definition info_due s w : option (bytes * PbObjectInfo) :=
  '(id, data) ← block_due s w; oi ← objectInfoFor id s; Some (we_Mid w, oi).
Definition add_infos (m : gmap bytes PbObjectInfo) (l : list (bytes * PbObjectInfo)) : gmap bytes PbObjectInfo :=
  foldl (λ m kv, <[kv.1 := kv.2]> m) m l.
(** [resp] with the replies to [ws] added *)
Definition with_replies s (ws : list WantEntry) (resp : MemexMessage) : MemexMessage :=
  mkMemexMessage (mx_Wants resp) (mx_Blocks resp ++ omap (block_reply s) ws) (mx_HaveMids resp ++ omap (have_due s) ws) (mx_Cancel resp)
    (add_infos (mx_ObjectInfos resp) (omap (info_due s) ws)) (mx_SequenceNumber resp) (mx_BloomFilter resp) (mx_DontHaves resp ++ omap (dont_have_due s) ws).
Lemma answer_replies s resp w : answer s resp w = with_replies s [w] resp.
Proof.
  destruct resp as [ws bs hs cs infos sq bf dh].
  unfold answer, with_replies, block_reply, info_due, have_due, dont_have_due, block_due, want_id, here. cbn [omap list_omap].
  destruct (bool_decide (we_Mid w = []) || we_Cancel w); cbn; [by rewrite !app_nil_r|].
  destruct (Parse (we_Mid w)) as [id|]; cbn; [|by rewrite !app_nil_r].
  destruct (bs_Has id s) as [[|]|]; cbn.
  - destruct (we_WantType w =? WANT_HAVE); cbn; [by rewrite !app_nil_r|].
    destruct (bs_Get id s) as [data|]; cbn; [|by rewrite !app_nil_r].
    unfold add_block. cbn. destruct (objectInfoFor id s); cbn; by rewrite !app_nil_r.
  - destruct (we_SendDontHave w); cbn; by rewrite !app_nil_r.
  - destruct (we_SendDontHave w); cbn; by rewrite !app_nil_r.
Qed.
Lemma with_replies_app s ws1 ws2 resp : with_replies s ws2 (with_replies s ws1 resp) = with_replies s (ws1 ++ ws2) resp.
Proof. unfold with_replies. cbn. unfold add_infos. by rewrite !omap_app, foldl_app, !app_assoc. Qed.
Lemma HandleRemoteWants_replies s ws : HandleRemoteWants s ws = with_replies s ws emptyMessage.
Proof.
  unfold HandleRemoteWants. assert (forall resp, foldl (answer s) resp ws = with_replies s ws resp) as Hf; [|apply Hf].
  induction ws as [|w ws IH]; intros resp; cbn [foldl].
  - destruct resp. unfold with_replies. cbn. by rewrite !app_nil_r.
  - rewrite IH, answer_replies, with_replies_app. done.
Qed.

(** Each want of a peer gets exactly the answer it is due and nothing else is sent: the
    block itself or, for a want that only asks, a note that it is here, in the order of
    the wants; a note that it is not here to those who want one; nothing for cancelled
    and malformed wants. *)
Theorem HandleRemoteWants_answers s ws : let resp := HandleRemoteWants s ws in
  mx_Blocks resp = omap (block_reply s) ws /\
  mx_HaveMids resp = omap (have_due s) ws /\
  mx_DontHaves resp = omap (dont_have_due s) ws /\
  mx_Wants resp = [] /\ mx_Cancel resp = [] /\
  (forall k oi, mx_ObjectInfos resp !! k = Some oi -> exists id data, Parse k = Ok id /\ objectInfoFor id s = Some oi /\
     exists w, w ∈ ws /\ we_Mid w = k /\ block_due s w = Some (id, data)) /\
  worth_sending resp = negb (forallb (λ w, bool_decide (block_due s w = None) && bool_decide (have_due s w = None) && bool_decide (dont_have_due s w = None)) ws).
Proof.
  intros resp. subst resp. rewrite HandleRemoteWants_replies. split_and!; [done..| |].
  - intros k oi. cbn [mx_ObjectInfos with_replies emptyMessage].
    assert (forall l (m : gmap bytes PbObjectInfo), add_infos m l !! k = Some oi -> m !! k = Some oi \/ (k, oi) ∈ l) as Hadd.
    { intros l. induction l as [|[k' oi'] l IH]; intros m; cbn; [by left|]. intros [Hm|Hl]%IH; [|right; set_solver].
      apply lookup_insert_Some in Hm as [[-> ->]|[_ Hm]]; [right; set_solver|by left]. }
    intros [Hm|Hl]%Hadd; [by rewrite lookup_empty in Hm|]. apply list_elem_of_omap in Hl as (w & Hw & Hi).
    unfold info_due in Hi. destruct (block_due s w) as [[id data]|] eqn:Eb; [|done]. cbn in Hi.
    destruct (objectInfoFor id s) as [oi'|] eqn:Eo; [|done]. cbn in Hi. injection Hi as <- <-.
    exists id, data. split_and!; [|done|by exists w]. unfold block_due, want_id in Eb.
    destruct (_ || _); [done|]. destruct (Parse (we_Mid w)) as [id'|]; [|done]. cbn in Eb.
    destruct (_ && _); [|done]. destruct (bs_Get id' s); [|done]. by injection Eb as <- _.
  - unfold worth_sending. cbn [with_replies mx_Wants mx_Blocks mx_HaveMids mx_DontHaves mx_Cancel emptyMessage app length].
    f_equal. induction ws as [|w ws IH]; [done|]. cbn [omap list_omap forallb]. rewrite <-IH.
    unfold block_reply. destruct (block_due s w) as [[id data]|] eqn:Eb; cbn; [done|].
    destruct (have_due s w) eqn:Eh; cbn; [apply Nat.eqb_neq; lia|].
    destruct (dont_have_due s w) eqn:Ed; cbn; [apply Nat.eqb_neq; lia|done].
Qed.
End serving.

(** ** What is served is received *)
Section receiving.
Context `{Multiformats} `{!MultiformatsLaws} (alg : Z) (Halg : isSupportedHash alg = true).

Lemma verify_job_store accept inbound b id data : verify_job alg accept inbound b = Store id data ->
  Parse (BMid b) = Ok id /\ data = Data b /\ wf_mid id /\ names alg id data /\
  (inbound = true -> match accept with Some accept => accept id = true | None => True end).
Proof using All.
  unfold verify_job. destruct (Parse (BMid b)) as [id'|] eqn:Ep; [|done].
  pose proof (Parse_wf _ _ Ep) as Hwf.
  destruct (FromBytesWithCodec alg (Data b) (Codec id')) as [actual|] eqn:Ea; [|done].
  destruct (Equal actual id') eqn:Ee; [|done]. cbn [negb].
  destruct (inbound && _) eqn:Ei; [done|]. intros [= <- <-]. split_and!; [done..| |].
  - apply (names_Hash alg actual id'); [|by eapply FromBytes_names; [done|apply Hwf|]].
    unfold Equal in Ee. destruct (_ =? _); [|done]. by apply bool_decide_eq_true in Ee.
  - intros ->. destruct accept as [accept|]; [|done]. by destruct (accept id').
Qed.
(** the policy is asked about blocks of inbound streams only *)
Definition lets_in (accept : option (MID -> bool)) (inbound : bool) (m : MID) : Prop :=
  inbound = true -> forall f, accept = Some f -> f m = true.
Lemma verify_job_own accept inbound m d : wf_mid m -> FromBytesWithCodec alg d (codec m) = Ok m -> lets_in accept inbound m ->
  verify_job alg accept inbound (mkBlock d (String m) (u64 (zlen d))) = Store m d.
Proof using All.
  intros Hm Hd Ha. unfold verify_job. cbn [BMid Data]. rewrite Parse_wf_String by done. unfold Codec. rewrite Hd.
  assert (Equal m m = true) as ->; [unfold Equal; by rewrite Z.eqb_refl, bool_decide_eq_true_2|]. cbn [negb].
  destruct inbound; [|done]. destruct accept as [f|]; [|done]. by rewrite (Ha eq_refl f eq_refl).
Qed.

Context {Cl : Type} `{Blockstore Cl} (inv : Cl -> Prop) `{!BlockstoreLaws Cl alg inv}.
Lemma flush_spec batch (s : Cl) : inv s -> Forall (λ j, wf_mid j.1) batch ->
  inv (flush batch s).2 /\ keeps alg s (flush batch s).2 /\
  Forall (λ id, exists d, (id, d) ∈ batch /\ names alg id d /\ bs_Get id (flush batch s).2 = Ok d) (flush batch s).1 /\
  (BlockstoreTotal Cl alg inv -> Forall (λ j, names alg j.1 j.2 -> j.1 ∈ (flush batch s).1 /\ bs_Get j.1 (flush batch s).2 = Ok j.2) batch).
Proof using All.
  intros Hs Hwf. revert s Hs. induction Hwf as [|[id data] batch Hid Hwf IH]; intros s Hs; cbn [flush].
  { split_and!; [done|reflexivity|constructor|constructor]. }
  destruct (bs_Put id data s) as [r s1] eqn:Ep. destruct (put_spec _ _ _ _ _ Hs Hid Ep) as (Hs1 & Hok & Hk1).
  destruct (IH s1 Hs1) as (Hinv & Hk & Hids & Htot).
  assert (keeps alg s s1) as Hk1' by (by intros m d; apply Hk1).
  assert (r = Ok tt -> names alg id data /\ bs_Get id (flush batch s1).2 = Ok data) as Hr.
  { intros Hr. destruct (Hok Hr) as [Hn Hg]. split; [done|]. by apply Hk. }
  assert (forall l, Forall (λ id, exists d, (id, d) ∈ batch /\ names alg id d /\ bs_Get id (flush batch s1).2 = Ok d) l ->
    Forall (λ id0, exists d, (id0, d) ∈ (id, data) :: batch /\ names alg id0 d /\ bs_Get id0 (flush batch s1).2 = Ok d) l) as Hup.
  { intros l Hl. eapply Forall_impl; [exact Hl|]. cbn. intros x (d & ? & ?). exists d. split; [by right|done]. }
  destruct r as [[]|e].
  - destruct (flush batch s1) as [ids s2]. cbn [fst snd] in *. split_and!; [done|by etrans| |].
    + constructor; [|by apply Hup]. exists data. destruct (Hr eq_refl). split; [by left|done].
    + intros Ht. constructor; [intros _; cbn; destruct (Hr eq_refl); split; [by left|done]|].
      eapply Forall_impl; [exact (Htot Ht)|]. cbn. intros j Hj Hn. destruct (Hj Hn). split; [by right|done].
  - split_and!; [done|by etrans|by apply Hup|].
    intros Ht. constructor; [|exact (Htot Ht)]. cbn. intros Hn.
    destruct (Ht id data s Hs Hid Hn) as [s' E]. congruence.
Qed.

Context {Sv : Type} `{Blockstore Sv, MetaStore Sv, ObjectJSON, Proto MemexMessage}.
Context (roundtrip : forall (m : MemexMessage) raw, marshal m = Ok raw -> unmarshal raw = Ok m).
Context (proto3_zero : marshal emptyMessage = Ok []).

(** C25: A block exchange delivers: a peer asks for a block among others, and the peer that has
    it replies; when the encoded reply has at most 16 MiB it goes out as one frame, the
    asking peer reads the frame off the stream, and the block passes the verifier - unless
    it came over an inbound stream and the policy for such blocks refuses it - and is in its
    store afterwards, readable as it was served.  Nothing it had is lost, and whatever else
    the store took hashes to its name.  (All blocks of a reply share its frame: a larger
    reply is not sent, [full_window_overflows_frame].) *)
Theorem exchange_delivers (server : Sv) (client : Cl) accept inbound ws w m d buf `{!BlockstoreTotal Cl alg inv} :
  wf_mid m -> FromBytesWithCodec alg d (codec m) = Ok m ->
  w ∈ ws -> we_Mid w = String m -> we_Cancel w = false -> we_WantType w ≠ WANT_HAVE ->
  bs_Has m server = Ok true -> bs_Get m server = Ok d ->
  marshal (HandleRemoteWants server ws) = Ok buf -> zlen buf <= maxFrameSize -> lets_in accept inbound m -> inv client ->
  exists frame, writeFrame (HandleRemoteWants server ws) = Ok frame /\
  forall r rest e, content r = (frame ++ rest, e) ->
  exists r' msg ids client', readFrame r = (Some buf, r') /\ content r' = (rest, e) /\ unmarshal buf = Ok msg /\
    flush (jobs_of alg accept inbound (mx_Blocks msg)) client = (ids, client') /\
    inv client' /\ keeps alg client client' /\ m ∈ ids /\ bs_Get m client' = Ok d /\
    Forall (λ id, exists d', names alg id d' /\ bs_Get id client' = Ok d') ids.
Proof using All.
  intros Hm Hd Hw Hmid Hc Ht Hhas Hget Hbuf Hfit Hacc Hinv.
  assert (writeFrame (HandleRemoteWants server ws) = Ok (PutUint32 (u32 (zlen buf)) ++ buf)) as Hwr.
  { unfold writeFrame. rewrite Hbuf. cbn [mbind result_bind]. by rewrite (proj2 (Z.ltb_ge _ _) Hfit). }
  eexists. split; [exact Hwr|]. intros r rest e Hr.
  set (resp := HandleRemoteWants server ws) in *.
  assert (mkBlock d (String m) (u64 (zlen d)) ∈ mx_Blocks resp) as Hb.
  { subst resp. rewrite HandleRemoteWants_replies. cbn [with_replies mx_Blocks emptyMessage app]. apply list_elem_of_omap. exists w. split; [done|].
    unfold block_reply, block_due, want_id, here. rewrite Hmid, Hc, Parse_wf_String by done.
    rewrite bool_decide_eq_false_2 by (rewrite wf_String by done; done). cbn. rewrite Hhas.
    rewrite (proj2 (Z.eqb_neq _ _) Ht). cbn. by rewrite Hget. }
  pose proof (frame_roundtrip roundtrip resp) as Hf. rewrite Hwr in Hf. destruct Hf as (buf' & Hbuf' & Hf).
  rewrite Hbuf in Hbuf'. injection Hbuf' as <-.
  destruct (Hf r rest e Hr) as (r' & Hr' & Hread).
  assert (buf ≠ []) as Hne.
  { intros ->. pose proof (roundtrip _ _ Hbuf) as E1. rewrite (roundtrip _ _ proto3_zero) in E1.
    assert (resp = emptyMessage) as E by congruence. rewrite E in Hb. by apply elem_of_nil in Hb. }
  rewrite bool_decide_eq_false_2 in Hread by done. destruct Hread as [Hread Hu].
  set (batch := jobs_of alg accept inbound (mx_Blocks resp)).
  assert (Forall (λ j, wf_mid j.1) batch) as Hwf.
  { apply Forall_forall. intros j (b & _ & Hj)%list_elem_of_omap. destruct (bool_decide (BMid b = [])); [discriminate|].
    destruct (verify_job alg accept inbound b) eqn:Ev; try discriminate. injection Hj as <-. by apply verify_job_store in Ev as (_ & _ & ? & _). }
  destruct (flush_spec batch client Hinv Hwf) as (Hinv' & Hk & Hids & Htot).
  assert ((m, d) ∈ batch) as Hin.
  { apply list_elem_of_omap. eexists. split; [exact Hb|]. cbn [BMid].
    rewrite bool_decide_eq_false_2 by (rewrite wf_String by done; done). by rewrite verify_job_own. }
  destruct (proj1 (Forall_forall _ _) (Htot BlockstoreTotal0) _ Hin) as [Hmi Hmg]; [by eapply FromBytes_names; [done|apply Hm|]|].
  exists r', resp, (flush batch client).1, (flush batch client).2. split_and!; try done.
  - apply surjective_pairing.
  - eapply Forall_impl; [exact Hids|]. cbn. intros id (d' & _ & Hn & Hg). exists d'. by split.
Qed.
End receiving.

(** ** Two things a peer can do *)
Section peers.
Context `{Multiformats, ObjectJSON} `{!ObjectJSONLaws} {St : Type} `{MetaStore St} (inv : St -> Prop) `{!MetaStoreLaws St inv}.
(** [StoreObjectInfos] takes the descriptors of every message as they come: whoever sends a
    frame replaces the name and the type this peer keeps for any object *)
Lemma peer_replaces_object_info (midStr : bytes) (oi : PbObjectInfo) (s : St) raw s' : inv s -> midStr ≠ [] ->
  json_Marshal (mkObjectInfo (po_Name oi) (po_MimeType oi) (po_Size oi) false) = Ok raw ->
  st_PutMeta (lit "obj/" ++ midStr) raw s = (Ok tt, s') ->
  StoreObjectInfos {[ midStr := oi ]} s = s' /\ st_GetMeta (lit "obj/" ++ midStr) s' = Ok raw /\
  json_Unmarshal raw = Ok (mkObjectInfo (po_Name oi) (po_MimeType oi) (po_Size oi) false).
Proof using All.
  intros Hs Hne Hj Hp. unfold StoreObjectInfos. rewrite map_to_list_singleton. cbn. unfold store_info.
  rewrite bool_decide_eq_false_2, Hj, Hp by done. split; [done|]. destruct (meta_put _ _ _ _ Hs Hp) as (_ & Hg & _).
  split; [exact Hg|]. by apply json_roundtrip.
Qed.
End peers.
(** the reply to one batch of wants is one frame: with blocks of 2 MiB, the size
    [AdaptiveBlockSize] gives a file of 512 MiB, the eight wants of a fresh window overflow it,
    and the stream is closed *)
Lemma full_window_overflows_frame `{Proto MemexMessage} (resp : MemexMessage) buf :
  (forall m raw, marshal m = Ok raw -> sumZ (λ b, zlen (Data b) + 1) (mx_Blocks m) <= zlen raw) ->
  marshal resp = Ok buf -> length (mx_Blocks resp) = 8%nat -> Forall (λ b, zlen (Data b) = 2 * 2 ^ 20) (mx_Blocks resp) ->
  writeFrame resp = Err (New "memex: frame too large").
Proof.
  intros Hlen Hm Hn Hall. unfold writeFrame. rewrite Hm. cbn. pose proof (Hlen _ _ Hm) as Hl.
  assert (forall bs, Forall (λ b, zlen (Data b) = 2 * 2 ^ 20) bs -> sumZ (λ b, zlen (Data b) + 1) bs = zlen bs * (2 * 2 ^ 20 + 1)) as Hsum.
  { induction 1 as [|b bs Hb _ IH]; [done|]. change (sumZ _ (b :: bs)) with (zlen (Data b) + 1 + sumZ (λ b, zlen (Data b) + 1) bs). rewrite IH, Hb. unfold zlen. cbn [length]. lia. }
  rewrite (Hsum _ Hall) in Hl. unfold zlen in Hl at 1. rewrite Hn in Hl.
  rewrite (proj2 (Z.ltb_lt _ _)); [done|]. unfold maxFrameSize. lia.
Qed.

(** ** A concrete exchange *)
#[local] Instance Block_eq_dec : EqDecision Block.
Proof. solve_decision. Defined.
#[local] Instance Block_countable : Countable Block.
Proof. refine (inj_countable' (λ n, (Data n, BMid n, BSize n)) (λ '(a, b, c), mkBlock a b c) _). by intros []. Defined.
#[local] Instance WantEntry_eq_dec : EqDecision WantEntry.
Proof. solve_decision. Defined.
#[local] Instance WantEntry_countable : Countable WantEntry.
Proof. refine (inj_countable' (λ n, (we_Mid n, we_Priority n, we_SendDontHave n, we_WantType n, we_Cancel n)) (λ '(a, b, c, d, e), mkWantEntry a b c d e) _). by intros []. Defined.
#[local] Instance PbObjectInfo_eq_dec : EqDecision PbObjectInfo.
Proof. solve_decision. Defined.
#[local] Instance PbObjectInfo_countable : Countable PbObjectInfo.
Proof. refine (inj_countable' (λ n, (po_Name n, po_MimeType n, po_Size n)) (λ '(a, b, c), mkPbObjectInfo a b c) _). by intros []. Defined.
#[export] Instance MemexMessage_eq_dec : EqDecision MemexMessage.
Proof. solve_decision. Defined.
#[local] Instance MemexMessage_countable : Countable MemexMessage.
Proof.
  refine (inj_countable' (λ n, (mx_Wants n, mx_Blocks n, mx_HaveMids n, mx_Cancel n, mx_ObjectInfos n, mx_SequenceNumber n, mx_BloomFilter n, mx_DontHaves n))
    (λ '(a, b, c, d, e, f, g, h), mkMemexMessage a b c d e f g h) _). by intros [].
Defined.
(** the zero message is encoded as nothing, as in proto3 *)
#[export] Instance toy_message : Proto MemexMessage := {|
  marshal m := if bool_decide (m = emptyMessage) then Ok [] else Ok (Byte.x00 :: ToyWire.pos_bytes (encode m));
  unmarshal bs := match bs with
    | [] => Ok emptyMessage
    | _ :: bs => match ToyWire.bytes_pos bs ≫= decode with Some m => Ok m | None => Err (New "proto") end
    end |}.
Lemma toy_message_roundtrip (m : MemexMessage) raw : marshal m = Ok raw -> unmarshal raw = Ok m.
Proof.
  cbn [marshal unmarshal toy_message]. case_bool_decide as Hm; intros [= <-]; [by subst|].
  rewrite ToyWire.bytes_pos_bytes. cbn [mbind option_bind]. by rewrite decode_encode.
Qed.

Definition demo_block : MID := toy_mid CodecRaw (lit "abc").
Definition demo_wants : list WantEntry :=
  [mkWantEntry (lit "junk") 0 true WANT_BLOCK false; mkWantEntry (String demo_block) 0 true WANT_BLOCK false;
   mkWantEntry (String (toy_mid CodecRaw (lit "zz"))) 0 true WANT_BLOCK false].
#[local] Instance demo_blockstore : Blockstore Memstore := mem_blockstore BLAKE3.
Definition demo_server : Memstore := (mem_Put BLAKE3 demo_block (lit "abc") NewMemstore).2.
Definition demo_reply : MemexMessage := HandleRemoteWants demo_server demo_wants.
Lemma HandleRemoteWants_answers_witness :
  mx_Blocks demo_reply = [mkBlock (lit "abc") (String demo_block) 3] /\ mx_DontHaves demo_reply = [String (toy_mid CodecRaw (lit "zz"))].
Proof.
  destruct (HandleRemoteWants_answers demo_server demo_wants) as (Hb & _ & Hd & _).
  unfold demo_reply. rewrite Hb, Hd. split; vm_compute; reflexivity.
Defined.
Lemma frame_roundtrip_witness : exists frame r', writeFrame demo_reply = Ok frame /\
  readFrame [(take 7 frame, None); (drop 7 frame ++ lit "rest", None)] = (match marshal demo_reply with Ok b => Some b | Err _ => None end, r') /\ content r' = (lit "rest", EOF).
Proof.
  pose proof (frame_roundtrip toy_message_roundtrip demo_reply) as Hf.
  assert (is_ok (writeFrame demo_reply) = true) as Hok by (vm_compute; reflexivity).
  destruct (writeFrame demo_reply) as [frame|e]; [|discriminate Hok].
  destruct Hf as (buf & Hm & Hf). destruct (Hf [(take 7 frame, None); (drop 7 frame ++ lit "rest", None)] (lit "rest") EOF) as (r' & Hc & Hr).
  { cbn [content]. by rewrite app_nil_r, app_assoc, take_drop. }
  exists frame, r'. split; [reflexivity|]. rewrite Hm. split; [|exact Hc].
  rewrite bool_decide_eq_false_2 in Hr; [apply Hr|].
  intros ->. assert (bool_decide (marshal demo_reply = Ok []) = false) as Hne by (vm_compute; reflexivity).
  rewrite Hm in Hne. vm_compute in Hne. discriminate Hne.
Defined.
Lemma exchange_delivers_witness : exists buf frame r' msg ids client', writeFrame demo_reply = Ok frame /\
  readFrame [(frame, None)] = (Some buf, r') /\ unmarshal buf = Ok msg /\
  flush (jobs_of BLAKE3 (Some (λ m, bool_decide (m = demo_block))) true (mx_Blocks msg)) NewMemstore = (ids, client') /\
  mem_Get demo_block client' = Ok (lit "abc").
Proof.
  assert (match marshal demo_reply with Ok buf => zlen buf <=? maxFrameSize | Err _ => false end = true) as Hok by (vm_compute; reflexivity).
  destruct (marshal demo_reply) as [buf|e] eqn:Eb; [|discriminate Hok].
  destruct (exchange_delivers BLAKE3 eq_refl (mem_ok BLAKE3) (BlockstoreLaws0 := mem_laws BLAKE3 eq_refl) toy_message_roundtrip eq_refl demo_server NewMemstore
    (Some (λ m, bool_decide (m = demo_block))) true demo_wants
    (mkWantEntry (String demo_block) 0 true WANT_BLOCK false) demo_block (lit "abc") buf (BlockstoreTotal0 := mem_total BLAKE3 eq_refl))
    as (frame & Hf & Hread).
  - apply toy_raw_wf.
  - vm_compute; reflexivity.
  - right; left.
  - reflexivity.
  - reflexivity.
  - discriminate.
  - vm_compute; reflexivity.
  - vm_compute; reflexivity.
  - exact Eb.
  - apply Z.leb_le. exact Hok.
  - intros _ f [= <-]. reflexivity.
  - apply mem_ok_New.
  - destruct (Hread [(frame, None)] [] EOF) as (r' & msg & ids & client' & H1 & _ & H2 & H3 & _ & _ & _ & H4 & _).
    + cbn [content]. rewrite !app_nil_r. reflexivity.
    + exists buf, frame, r', msg, ids, client'. repeat split; assumption.
Defined.
