(* ===== verification/MemexWants.v ===== *)
(** * The block exchange: what peers want and have (src/net/memex_v2: peer_wantlist.go,
      memex.go wantManager, bloom.go)

    [PeerWantlistManager] keeps the wants of every peer, each for fifteen minutes after its
    last refresh; [wantManager] are the goroutines of this peer that wait for a block, each
    with a channel of one slot; [BloomManager] keeps the filters peers announce.
    [wantlist_refines]: for each peer and block the manager is one register that holds
    the last want.  [deliver_wakes]: a delivered block reaches every goroutine that
    subscribed before.  [FilteredProviders_complete]: no peer that has the block is left out. *)
From S2P Require Import Prelude Mid GoIO Wire Blockstore Objects Memex.

(** ** The wantlists of the peers *)
Definition peerWantTTL : Z := 15 * 60 * second.
Record PeerWantState := mkPeerWantState { pw_MID : MID; pw_WantType : Z; pw_Priority : Z; pw_UpdatedAt : Z }.
Definition pw_expired (now : Z) (s : PeerWantState) : bool := peerWantTTL <? now - pw_UpdatedAt s.
Abbreviation Wantlists := (gmap bytes (gmap bytes PeerWantState)).

Section wantlist.
Context `{Multiformats}.
Definition pruneExpired (now : Z) (wants : Wantlists) : Wantlists :=
  filter (λ kv : bytes * gmap bytes PeerWantState, kv.2 ≠ ∅)
    (filter (λ kv : bytes * PeerWantState, pw_expired now kv.2 = false) <$> wants).
Definition want_entry (now : Z) (peerMap : gmap bytes PeerWantState) (entry : WantEntry) : gmap bytes PeerWantState :=
  if bool_decide (we_Mid entry = []) then peerMap else
  if we_Cancel entry then delete (we_Mid entry) peerMap else
  match Parse (we_Mid entry) with
  | Err _ => peerMap
  | Ok m => <[we_Mid entry := mkPeerWantState m (we_WantType entry) (we_Priority entry) now]> peerMap
  end.
Definition UpdatePeerWantlist (now : Z) (pid : bytes) (entries : list WantEntry) (cancels : list bytes) (wants : Wantlists) : Wantlists :=
  if bool_decide (pid = []) then wants else
  let wants := pruneExpired now wants in
  let peerMap := foldl (λ pm c, delete c pm) (default ∅ (wants !! pid)) cancels in
  let peerMap := foldl (want_entry now) peerMap entries in
  if bool_decide (peerMap = ∅) then delete pid wants else <[pid := peerMap]> wants.
Definition RemovePeer (pid : bytes) (wants : Wantlists) : Wantlists := delete pid wants.
(** the want of a peer for a block that is still good at [now] *)
Definition active_want (now : Z) (wants : Wantlists) (pid key : bytes) : option PeerWantState :=
  state ← wants !! pid ≫= lookup key; if pw_expired now state then None else Some state.
Definition GetPeersWanting (now : Z) (m : MID) (wants : Wantlists) : list bytes * list bytes :=
  foldl (λ '(blockPeers, havePeers) '(pid, peerMap),
    match (peerMap : gmap bytes PeerWantState) !! String m with
    | Some state =>
        if pw_expired now state then (blockPeers, havePeers) else
        if pw_WantType state =? WANT_BLOCK then (blockPeers ++ [pid], havePeers) else (blockPeers, havePeers ++ [pid])
    | None => (blockPeers, havePeers)
    end) ([], []) (map_to_list wants).
Definition GetPeersWantingBlock (now : Z) (m : MID) (wants : Wantlists) : list bytes := (GetPeersWanting now m wants).1.
Definition HasPeerWant (now : Z) (pid : bytes) (m : MID) (wants : Wantlists) : bool :=
  match active_want now wants pid (String m) with Some _ => true | None => false end.

(** one register: the want of one peer for one block, over the events of its frames *)
Inductive want_event := Update (now : Z) (pid : bytes) (entries : list WantEntry) (cancels : list bytes) | Gone (pid : bytes).
Definition run_event (wants : Wantlists) (ev : want_event) : Wantlists :=
  match ev with Update now pid entries cancels => UpdatePeerWantlist now pid entries cancels wants | Gone pid => RemovePeer pid wants end.
Definition entry_register (now : Z) (key : bytes) (reg : option PeerWantState) (entry : WantEntry) : option PeerWantState :=
  if bool_decide (we_Mid entry = key) then
    if we_Cancel entry then None else
    match Parse key with Ok m => Some (mkPeerWantState m (we_WantType entry) (we_Priority entry) now) | Err _ => reg end
  else reg.
Definition register (pid key : bytes) (reg : option PeerWantState) (ev : want_event) : option PeerWantState :=
  match ev with
  | Gone pid' => if bool_decide (pid' = pid) then None else reg
  | Update now pid' entries cancels =>
      if bool_decide (pid' = pid) then foldl (entry_register now key) (if bool_decide (key ∈ cancels) then None else reg) entries else reg
  end.
Definition event_time (ev : want_event) : option Z := match ev with Update now _ _ _ => Some now | Gone _ => None end.
Definition not_after (t : Z) (ev : want_event) : Prop := match event_time ev with Some now => now <= t | None => True end.

Definition unexpired (t : Z) (reg : option PeerWantState) : option PeerWantState :=
  s ← reg; if pw_expired t s then None else Some s.

(** ** Facts *)
Lemma lookup_prune now wants pid key : pruneExpired now wants !! pid ≫= lookup key = unexpired now (wants !! pid ≫= lookup key).
Proof.
  unfold pruneExpired, unexpired. rewrite map_lookup_filter, lookup_fmap. destruct (wants !! pid) as [pm|]; cbn; [|done].
  assert (filter (λ kv : bytes * PeerWantState, pw_expired now kv.2 = false) pm !! key = s ← pm !! key; if pw_expired now s then None else Some s) as Hk.
  { rewrite map_lookup_filter. destruct (pm !! key) as [s|]; cbn; [|done]. by destruct (pw_expired now s). }
  rewrite <-Hk. case_guard as E; cbn; first [done|by rewrite E|by rewrite (dec_stable E)].
Qed.
Lemma unexpired_later t t' reg : t <= t' -> unexpired t' (unexpired t reg) = unexpired t' reg.
Proof.
  intros Ht. destruct reg as [s|]; cbn; [|done]. destruct (pw_expired t s) eqn:E; cbn; [|done].
  unfold pw_expired in *. apply Z.ltb_lt in E. by rewrite (proj2 (Z.ltb_lt _ _)) by lia.
Qed.
Lemma unexpired_now now key entries regl regr : unexpired now regl = unexpired now regr ->
  forall t, now <= t -> unexpired t (foldl (entry_register now key) regl entries) = unexpired t (foldl (entry_register now key) regr entries).
Proof.
  intros E t Ht. assert (unexpired t regl = unexpired t regr) as Et.
  { by rewrite <-(unexpired_later now t regl), E, unexpired_later by lia. }
  clear E. revert regl regr Et. induction entries as [|e entries IH]; intros regl regr Et; cbn [foldl]; [done|].
  apply IH. unfold entry_register. case_bool_decide; [|done]. destruct (we_Cancel e); [done|]. by destruct (Parse key).
Qed.
Lemma cancels_lookup (cancels : list bytes) (pm : gmap bytes PeerWantState) (key : bytes) :
  foldl (λ pm c, delete c pm) pm cancels !! key = if bool_decide (key ∈ cancels) then None else pm !! key.
Proof.
  revert pm. induction cancels as [|c cancels IH]; intros pm; cbn [foldl].
  { by rewrite bool_decide_eq_false_2 by apply not_elem_of_nil. }
  rewrite IH. destruct (decide (c = key)) as [->|Hne].
  - rewrite lookup_delete_eq. rewrite (bool_decide_eq_true_2 (key ∈ key :: cancels)) by left. by case_bool_decide.
  - rewrite lookup_delete_ne by done. rewrite (bool_decide_ext (key ∈ c :: cancels) (key ∈ cancels)) by set_solver. done.
Qed.
Lemma entries_lookup now entries pm key : key ≠ [] ->
  foldl (want_entry now) pm entries !! key = foldl (entry_register now key) (pm !! key) entries.
Proof.
  intros Hk. revert pm. induction entries as [|e entries IH]; intros pm; cbn [foldl]; [done|].
  rewrite IH. f_equal. unfold want_entry, entry_register. destruct (decide (we_Mid e = key)) as [<-|Hne].
  - rewrite (bool_decide_eq_false_2 (we_Mid e = [])), bool_decide_eq_true_2 by done.
    destruct (we_Cancel e); [by rewrite lookup_delete_eq|]. destruct (Parse (we_Mid e)); [by rewrite lookup_insert_eq|done].
  - rewrite (bool_decide_eq_false_2 (we_Mid e = key)) by done. case_bool_decide; [done|].
    destruct (we_Cancel e); [by rewrite lookup_delete_ne|]. destruct (Parse (we_Mid e)); [by rewrite lookup_insert_ne|done].
Qed.
Lemma Update_lookup now pid entries cancels wants pid' key : pid ≠ [] -> key ≠ [] ->
  UpdatePeerWantlist now pid entries cancels wants !! pid' ≫= lookup key =
  (if bool_decide (pid = pid') then foldl (entry_register now key) (if bool_decide (key ∈ cancels) then None else unexpired now (wants !! pid' ≫= lookup key)) entries
   else unexpired now (wants !! pid' ≫= lookup key)).
Proof.
  intros Hp Hk. unfold UpdatePeerWantlist. rewrite (bool_decide_eq_false_2 (pid = [])) by done. cbv zeta.
  set (pm := foldl (want_entry now) _ entries).
  assert (pm !! key = foldl (entry_register now key) (if bool_decide (key ∈ cancels) then None else unexpired now (wants !! pid ≫= lookup key)) entries) as Hpm.
  { subst pm. rewrite entries_lookup, cancels_lookup by done. do 2 f_equal. rewrite <-lookup_prune. by destruct (pruneExpired now wants !! pid). }
  destruct (decide (pid = pid')) as [<-|Hne].
  - rewrite (bool_decide_eq_true_2 (pid = pid)) by done. rewrite <-Hpm. clear Hpm. case_bool_decide as E.
    + rewrite lookup_delete_eq, E. done.
    + by rewrite lookup_insert_eq.
  - rewrite (bool_decide_eq_false_2 (pid = pid')) by done. rewrite <-lookup_prune. clear Hpm.
    case_bool_decide; by rewrite ?lookup_delete_ne, ?lookup_insert_ne.
Qed.
Lemma event_lookup wants ev pid key t : key ≠ [] -> pid ≠ [] -> not_after t ev ->
  unexpired t (run_event wants ev !! pid ≫= lookup key) = unexpired t (register pid key (wants !! pid ≫= lookup key) ev).
Proof.
  intros Hk Hp Ht. destruct ev as [now pid' entries cancels|pid']; cbn [run_event register event_time] in *.
  - destruct (decide (pid' = [])) as [->|Hp'].
    { unfold UpdatePeerWantlist. rewrite (bool_decide_eq_true_2 ([] = [])) by done. by rewrite bool_decide_eq_false_2. }
    rewrite Update_lookup by done. unfold not_after in Ht; cbn in Ht. case_bool_decide as E.
    + apply (unexpired_now now); [|done]. case_bool_decide; [done|]. by rewrite unexpired_later.
    + by rewrite unexpired_later.
  - unfold RemovePeer. case_bool_decide as E; [subst; by rewrite lookup_delete_eq|by rewrite lookup_delete_ne].
Qed.
Lemma register_unexpired pid key regl regr ev t : not_after t ev -> unexpired t regl = unexpired t regr ->
  unexpired t (register pid key regl ev) = unexpired t (register pid key regr ev).
Proof.
  intros Ht E. destruct ev as [now pid' entries cancels|pid']; cbn [register]; case_bool_decide; try done.
  assert (forall el er, unexpired t el = unexpired t er ->
    unexpired t (foldl (entry_register now key) el entries) = unexpired t (foldl (entry_register now key) er entries)) as Hf.
  { clear. induction entries as [|e entries IH]; intros el er Ee; cbn [foldl]; [done|]. apply IH.
    unfold entry_register. case_bool_decide; [|done]. destruct (we_Cancel e); [done|]. by destruct (Parse key). }
  apply Hf. by case_bool_decide.
Qed.

Lemma events_lookup evs t pid key : key ≠ [] -> pid ≠ [] -> Forall (not_after t) evs -> forall wants reg,
  unexpired t (wants !! pid ≫= lookup key) = unexpired t reg ->
  unexpired t (foldl run_event wants evs !! pid ≫= lookup key) = unexpired t (foldl (register pid key) reg evs).
Proof.
  intros Hk Hp. induction 1 as [|ev evs Hev _ IH]; intros wants reg E; cbn [foldl]; [done|].
  apply IH. rewrite event_lookup by done. by apply register_unexpired.
Qed.
(** the peers with an active want that passes [p] *)
Definition peers_with (now : Z) (m : MID) (p : PeerWantState -> bool) (l : list (bytes * gmap bytes PeerWantState)) : list bytes :=
  omap (λ kv, s ← unexpired now (kv.2 !! String m); if p s then Some kv.1 else None) l.
Definition wants_block (s : PeerWantState) : bool := pw_WantType s =? WANT_BLOCK.
Lemma GetPeersWanting_eq now m wants :
  GetPeersWanting now m wants = (peers_with now m wants_block (map_to_list wants), peers_with now m (negb ∘ wants_block) (map_to_list wants)).
Proof.
  unfold GetPeersWanting. generalize (map_to_list wants). intros l.
  enough (forall l bs hs, foldl (λ '(blockPeers, havePeers) '(pid, peerMap),
    match (peerMap : gmap bytes PeerWantState) !! String m with
    | Some state =>
        if pw_expired now state then (blockPeers, havePeers) else
        if pw_WantType state =? WANT_BLOCK then (blockPeers ++ [pid], havePeers) else (blockPeers, havePeers ++ [pid])
    | None => (blockPeers, havePeers)
    end) (bs, hs) l = (bs ++ peers_with now m wants_block l, hs ++ peers_with now m (negb ∘ wants_block) l)) as Hf by apply (Hf l [] []).
  clear l. induction l as [|[pid pm] l IH]; intros bs hs; cbn [foldl]; [unfold peers_with; cbn; by rewrite !app_nil_r|].
  unfold peers_with in *. cbn [omap list_omap fst snd]. unfold unexpired, wants_block in *. destruct (pm !! String m) as [s|]; cbn; [|apply IH].
  destruct (pw_expired now s); cbn; [apply IH|]. destruct (pw_WantType s =? WANT_BLOCK); cbn; rewrite IH, <-app_assoc; done.
Qed.
Lemma elem_of_peers_with (now : Z) (m : MID) (p : PeerWantState -> bool) (wants : Wantlists) (pid : bytes) :
  pid ∈ peers_with now m p (map_to_list wants) <-> exists s, unexpired now (wants !! pid ≫= lookup (String m)) = Some s /\ p s = true.
Proof.
  unfold peers_with. rewrite list_elem_of_omap. split.
  - intros ([pid' pm] & Hin%elem_of_map_to_list & Hs). cbn [fst snd] in Hs. destruct (unexpired now (pm !! String m)) as [s|] eqn:E; [|done]. cbn in Hs.
    destruct (p s) eqn:Ep; [|done]. injection Hs as ->. exists s. rewrite Hin. done.
  - intros (s & E & Hp). destruct (wants !! pid) as [pm|] eqn:Ep; [|done]. exists (pid, pm). split; [by apply elem_of_map_to_list|].
    cbn [fst snd]. cbn [mbind option_bind] in E. rewrite E. cbn. by rewrite Hp.
Qed.
Lemma peers_with_NoDup (now : Z) (m : MID) (p : PeerWantState -> bool) (wants : Wantlists) : NoDup (peers_with now m p (map_to_list wants)).
Proof.
  pose proof (NoDup_fst_map_to_list wants) as Hnd. revert Hnd. generalize (map_to_list wants). unfold peers_with.
  induction l as [|[pid pm] l IH]; cbn [omap list_omap]; [constructor|]. intros [Hni Hnd]%NoDup_cons.
  specialize (IH Hnd). destruct (_ ≫= _) as [x|] eqn:E; [|done]. cbn [fst snd] in E.
  destruct (unexpired now (pm !! String m)) as [s|]; [|done]. cbn in E. destruct (p s); [|done]. injection E as <-.
  constructor; [|done]. intros ([pid' pm'] & Hin & Hs)%list_elem_of_omap. apply Hni. cbn [fst snd] in Hs.
  destruct (unexpired now (pm' !! String m)) as [s'|]; [|done]. cbn in Hs. destruct (p s'); [|done]. injection Hs as <-.
  apply list_elem_of_fmap. by exists (pid', pm').
Qed.

(** Whatever frames and disconnections came before, in whatever mixture of peers, the manager
    knows of each peer and block exactly the want of the last entry about it that was well
    formed - none after a cancel or a disconnection - for fifteen minutes; and it lists the peers
    that want the block, each once, those that want the data apart from those that ask. *)
Theorem wantlist_refines evs t pid m : pid ≠ [] -> wf_mid m -> Forall (not_after t) evs ->
  let wants := foldl run_event ∅ evs in let reg := foldl (register pid (String m)) None evs in
  active_want t wants pid (String m) = unexpired t reg /\
  (HasPeerWant t pid m wants = true <-> is_Some (unexpired t reg)) /\
  (pid ∈ GetPeersWantingBlock t m wants <-> exists s, unexpired t reg = Some s /\ pw_WantType s = WANT_BLOCK) /\
  (pid ∈ (GetPeersWanting t m wants).2 <-> exists s, unexpired t reg = Some s /\ pw_WantType s ≠ WANT_BLOCK) /\
  NoDup (GetPeersWantingBlock t m wants).
Proof using All.
  intros Hp Hm Ht wants reg. assert (String m ≠ []) as Hk by (by rewrite wf_String by done).
  assert (unexpired t (wants !! pid ≫= lookup (String m)) = unexpired t reg) as E by (by apply events_lookup).
  unfold HasPeerWant, GetPeersWantingBlock. rewrite GetPeersWanting_eq. cbn [fst snd].
  split_and!; [exact E| | | |apply peers_with_NoDup].
  - change (active_want t wants pid (String m)) with (unexpired t (wants !! pid ≫= lookup (String m))). rewrite E.
    destruct (unexpired t reg); [|by split; [|intros []]]. by split; [eexists|].
  - rewrite elem_of_peers_with, E. unfold wants_block. by setoid_rewrite Z.eqb_eq.
  - rewrite elem_of_peers_with, E. unfold wants_block, compose. setoid_rewrite negb_true_iff. by setoid_rewrite Z.eqb_neq.
Qed.
End wantlist.

(** ** Goroutines that wait for a block *)
(** a waiter is the name of its channel, which holds at most one MID *)
Record wantManager := mkWM { wm_waiters : gmap bytes (list nat); wm_chans : gmap nat MID }.
Definition newWantManager : wantManager := mkWM ∅ ∅.
Section waiting.
Context `{Multiformats}.
Definition waiters_of (m : MID) (w : wantManager) : list nat := default [] (wm_waiters w !! String m).
(** [wt] is a fresh channel *)
Definition subscribe (m : MID) (wt : nat) (w : wantManager) : wantManager :=
  mkWM (<[String m := waiters_of m w ++ [wt]]> (wm_waiters w)) (wm_chans w).
Fixpoint remove_waiter (wt : nat) (l : list nat) : list nat :=
  match l with [] => [] | x :: l => if (x =? wt)%nat then l else x :: remove_waiter wt l end.
Definition unsubscribe (m : MID) (wt : nat) (w : wantManager) : wantManager :=
  let list := remove_waiter wt (waiters_of m w) in
  mkWM (if bool_decide (list = []) then delete (String m) (wm_waiters w) else <[String m := list]> (wm_waiters w)) (wm_chans w).
Definition wake (m : MID) (chans : gmap nat MID) (wt : nat) : gmap nat MID :=
  match chans !! wt with Some _ => chans | None => <[wt := m]> chans end.
Definition deliver_want (m : MID) (w : wantManager) : wantManager :=
  mkWM (delete (String m) (wm_waiters w)) (foldl (wake m) (wm_chans w) (waiters_of m w)).

Inductive wm_op := Subscribe (m : MID) (wt : nat) | Unsubscribe (m : MID) (wt : nat) | Deliver (m : MID).
Definition run_wm (w : wantManager) (o : wm_op) : wantManager :=
  match o with Subscribe m wt => subscribe m wt w | Unsubscribe m wt => unsubscribe m wt w | Deliver m => deliver_want m w end.
(** what the others do leaves [wt] alone *)
Definition leaves_alone (m : MID) (wt : nat) (o : wm_op) : Prop :=
  match o with Subscribe _ wt' | Unsubscribe _ wt' => wt' ≠ wt | Deliver m' => String m' ≠ String m end.
(** [wt] waits for [m] and nothing else, and its channel is empty *)
Definition waits_for (m : MID) (wt : nat) (w : wantManager) : Prop :=
  wm_chans w !! wt = None /\ wt ∈ waiters_of m w /\
  forall k l, wm_waiters w !! k = Some l -> wt ∈ l -> k = String m.

Lemma elem_of_remove_waiter wt x l : x ≠ wt -> x ∈ remove_waiter wt l <-> x ∈ l.
Proof.
  intros Hne. induction l as [|y l IH]; cbn; [done|]. destruct (Nat.eqb_spec y wt) as [->|]; rewrite !elem_of_cons; [|by rewrite IH]. naive_solver.
Qed.
Lemma remove_waiter_sub wt x l : x ∈ remove_waiter wt l -> x ∈ l.
Proof. induction l as [|y l IH]; cbn; [done|]. destruct (y =? wt)%nat; rewrite ?elem_of_cons; naive_solver. Qed.
Lemma wake_other m l chans wt : wt ∉ l -> foldl (wake m) chans l !! wt = chans !! wt.
Proof.
  revert chans. induction l as [|x l IH]; intros chans Hwt; cbn; [done|]. rewrite IH by (intros ?; apply Hwt; by right).
  unfold wake. destruct (chans !! x) eqn:E; [done|]. rewrite lookup_insert_ne; [done|]. intros ->. apply Hwt. left.
Qed.
Lemma wake_in m l chans wt : wt ∈ l -> chans !! wt = None -> foldl (wake m) chans l !! wt = Some m.
Proof.
  revert chans. induction l as [|x l IH]; intros chans Hwt Hc; [by apply elem_of_nil in Hwt|]. apply elem_of_cons in Hwt. cbn [foldl].
  assert (forall chans, chans !! wt = Some m -> foldl (wake m) chans l !! wt = Some m) as Hkeep.
  { clear. induction l as [|x l IH]; intros chans Hc; [done|]. cbn. apply IH. unfold wake. destruct (chans !! x) eqn:E; [done|].
    rewrite lookup_insert_ne; [done|]. congruence. }
  destruct (decide (x = wt)) as [->|Hne].
  - apply Hkeep. unfold wake. by rewrite Hc, lookup_insert_eq.
  - apply IH; [by destruct Hwt as [->|]|]. unfold wake. destruct (chans !! x); [done|]. by rewrite lookup_insert_ne.
Qed.
Lemma waits_for_step m wt w o : waits_for m wt w -> leaves_alone m wt o -> waits_for m wt (run_wm w o).
Proof.
  intros (Hc & Hin & Hu) Ho. assert (forall m', wt ∈ waiters_of m' w -> String m' = String m) as Hm'.
  { intros m'. unfold waiters_of. destruct (wm_waiters w !! String m') as [l|] eqn:E; [|by intros ?%elem_of_nil]. by apply Hu. }
  destruct o as [m' wt'|m' wt'|m']; cbn [run_wm leaves_alone] in *; unfold waits_for, subscribe, unsubscribe, deliver_want, waiters_of in *; cbn.
  - split; [done|]. split.
    + destruct (decide (String m' = String m)) as [->|]; [rewrite lookup_insert_eq; apply elem_of_app; by left|by rewrite lookup_insert_ne].
    + intros k l [[<- <-]|[_ Hk]]%lookup_insert_Some Hl; [|by eapply Hu]. apply Hm'.
      apply elem_of_app in Hl as [Hl|Hl%list_elem_of_singleton]; [exact Hl|by subst].
  - split; [done|]. split.
    + destruct (decide (String m' = String m)) as [E|E].
      * rewrite E in *. assert (wt ∈ remove_waiter wt' (default [] (wm_waiters w !! String m))) as Hr by (by apply elem_of_remove_waiter).
        rewrite bool_decide_eq_false_2 by (intros E'; rewrite E' in Hr; by apply elem_of_nil in Hr). by rewrite lookup_insert_eq.
      * case_bool_decide; [by rewrite lookup_delete_ne|by rewrite lookup_insert_ne].
    + intros k l Hk Hl. case_bool_decide as E; [apply lookup_delete_Some in Hk as [_ Hk]; by eapply Hu|].
      apply lookup_insert_Some in Hk as [[<- <-]|[_ Hk]]; [|by eapply Hu]. apply Hm'. by eapply remove_waiter_sub.
  - split.
    + rewrite wake_other; [done|]. intros Hw. by apply Hm' in Hw.
    + split; [by rewrite lookup_delete_ne|]. intros k l [_ Hk]%lookup_delete_Some. by apply Hu.
Qed.
(** a delivered block reaches every goroutine that subscribed to it before and still waits *)
Lemma deliver_wakes m wt w ops : wm_chans w !! wt = None -> (forall k l, wm_waiters w !! k = Some l -> wt ∉ l) ->
  Forall (leaves_alone m wt) ops ->
  wm_chans (deliver_want m (foldl run_wm (subscribe m wt w) ops)) !! wt = Some m.
Proof.
  intros Hc Hw Hops. assert (waits_for m wt (foldl run_wm (subscribe m wt w) ops)) as (Hc' & Hin & _).
  - assert (waits_for m wt (subscribe m wt w)) as H0.
    { split; [done|]. unfold waiters_of; cbn. rewrite lookup_insert_eq. split; [apply elem_of_app; right; by left|].
      intros k l [[<- <-]|[_ Hk]]%lookup_insert_Some Hl; [done|]. by apply Hw in Hk. }
    revert H0. generalize (subscribe m wt w). clear w Hc Hw. induction Hops as [|o ops Ho _ IH]; intros w Hw; [done|]. apply IH. by apply waits_for_step.
  - unfold deliver_want; cbn [wm_chans]. by apply wake_in.
Qed.
End waiting.

(** ** The filters peers announce: the filter itself is third-party code *)
Class RemoteFilter := { Filter : Type; f_Test : Filter -> bytes -> bool }.
Section bloom.
Context `{RemoteFilter}.
Definition PeerLikelyHas (peers : gmap bytes Filter) (pid : bytes) (want : MID) : bool :=
  if IsZero want then true else
  match peers !! pid with None => true | Some filter => f_Test filter (Bytes want) end.
(** a provider is its peer ID and its addresses *)
Definition FilteredProviders (peers : gmap bytes Filter) (want : MID) (providers : list (bytes * list bytes)) : list (bytes * list bytes) :=
  filter (λ p, PeerLikelyHas peers p.1 want = true) providers.
Definition selectPeersForMID (bloom : option (gmap bytes Filter)) (want : MID) (providers : list (bytes * list bytes)) : list (bytes * list bytes) :=
  match bloom with None => providers | Some peers => FilteredProviders peers want providers end.
(** a provider is left out only when the filter it announced denies the block *)
Lemma FilteredProviders_complete peers want providers p : p ∈ providers ->
  (forall filter, peers !! p.1 = Some filter -> f_Test filter (Bytes want) = true) -> p ∈ FilteredProviders peers want providers.
Proof.
  intros Hp Hf. apply list_elem_of_filter. split; [|done]. unfold PeerLikelyHas.
  destruct (IsZero want); [done|]. destruct (peers !! p.1) as [f|]; [by apply Hf|done].
Qed.
End bloom.

(** ** A peer that asks, asks again, and cancels *)
Lemma wantlist_refines_witness :
  let w := mkWantEntry (String demo_block) 1 true WANT_BLOCK false in
  let evs := [Update 10 (lit "A") [w] []; Update 20 (lit "B") [mkWantEntry (String demo_block) 1 true WANT_HAVE false] []; Update 30 (lit "A") [] [String demo_block]] in
  HasPeerWant 40 (lit "B") demo_block (foldl run_event ∅ evs) = true /\ ~ lit "A" ∈ GetPeersWantingBlock 40 demo_block (foldl run_event ∅ evs).
Proof.
  intros w evs. assert (Forall (not_after 40) evs) as Hev by (repeat constructor; discriminate).
  split.
  - apply (wantlist_refines evs 40 (lit "B") demo_block); [discriminate|apply toy_raw_wf|exact Hev|]. vm_compute. eexists. reflexivity.
  - intros Hin. apply (wantlist_refines evs 40 (lit "A") demo_block) in Hin; [|discriminate|apply toy_raw_wf|exact Hev].
    destruct Hin as (s & Hs & _). vm_compute in Hs. discriminate Hs.
Defined.
