(* ===== verification/MemexPool.v ===== *)
(** * The block exchange: streams (src/net/memex_v2: stream_pool.go, session_queue.go)

    The pool keeps one stream per peer under a mutex.  A goroutine that locks a mutex it holds
    never gets any further: that is the error [Blocked], and the state keeps the mutex locked.
    A stream has a window: [on_frame] is what its reader does to it, [on_token] and [send_batch]
    what its writer does; [take_batch] makes the next frame from the queued events.
    [RegisterInbound_completes]: registering a stream comes back exactly when the pool has no
    open stream of the peer, and otherwise blocks the pool for ever.
    [window_bounds]: the window stays in its bounds and a batch never overfills it - as
    [inFlight] counts; [window_overrun] shows that it counts too little. *)
From S2P Require Import Prelude Mid GoIO Wire Blockstore Objects Memex MemexWants.

(** ** The pool *)
Definition Blocked : error := Sentinel "blocked for ever".
Record pooledStream := mkStream { ps_pid : bytes; ps_closed : bool; ps_inbound : bool }.
(** a stream is the number it was made with *)
Record StreamPool := mkPool { pool_locked : bool; pool_streams : gmap bytes nat; pool_all : gmap nat pooledStream }.
Definition newPeerStreamPool : StreamPool := mkPool false ∅ ∅.
Definition lock : M StreamPool unit := λ p,
  if pool_locked p then (Err Blocked, p) else (Ok tt, mkPool true (pool_streams p) (pool_all p)).
Definition unlock : M StreamPool unit := λ p, (Ok tt, mkPool false (pool_streams p) (pool_all p)).
Definition get {S} : M S S := λ s, (Ok s, s).
Definition modify_streams (f : gmap bytes nat -> gmap bytes nat) : M StreamPool unit := λ p, (Ok tt, mkPool (pool_locked p) (f (pool_streams p)) (pool_all p)).
Definition set_stream (sid : nat) (ps : pooledStream) : M StreamPool unit := λ p, (Ok tt, mkPool (pool_locked p) (pool_streams p) (<[sid := ps]> (pool_all p))).
Definition isClosed (p : StreamPool) (sid : nat) : bool := match pool_all p !! sid with Some ps => ps_closed ps | None => true end.

Definition RemoveStream (pid : bytes) (sid : nat) : M StreamPool unit :=
  _ ← lock;
  _ ← modify_streams (λ ss, if bool_decide (ss !! pid = Some sid) then delete pid ss else ss);
  unlock.
(** the context is cancelled, the stream reset and the queue closed along with the flag *)
Definition CloseStream (sid : nat) : M StreamPool unit :=
  p ← get;
  match pool_all p !! sid with
  | None => mret tt
  | Some ps =>
      if ps_closed ps then mret tt else
      _ ← set_stream sid (mkStream (ps_pid ps) true (ps_inbound ps));
      RemoveStream (ps_pid ps) sid
  end.
(** [sid] is the number of the stream that comes in *)
Definition RegisterInbound (sid : nat) (pid : bytes) : M StreamPool unit :=
  _ ← lock;
  p ← get;
  _ ← match pool_streams p !! pid with Some old => CloseStream old | None => mret tt end;
  _ ← set_stream sid (mkStream pid false true);
  _ ← modify_streams <[pid := sid]>;
  unlock.
(** [open] is what [openStream] gives: the number of the new stream *)
Definition GetOrCreateStream (open : result nat) (pid : bytes) : M StreamPool nat :=
  _ ← lock;
  p ← get;
  match (sid ← pool_streams p !! pid; if isClosed p sid then None else Some sid) with
  | Some sid => _ ← unlock; mret sid
  | None =>
      _ ← unlock;
      sid ← liftr open;
      _ ← lock;
      p ← get;
      _ ← match pool_streams p !! pid with Some old => CloseStream old | None => mret tt end;
      _ ← set_stream sid (mkStream pid false false);
      _ ← modify_streams <[pid := sid]>;
      _ ← unlock;
      mret sid
  end.
Definition CloseAll : M StreamPool unit :=
  _ ← lock;
  p ← get;
  _ ← modify_streams (λ _, ∅);
  _ ← unlock;
  for_each CloseStream (map snd (map_to_list (pool_streams p))).
(** the streams a frame goes to *)
Definition Broadcast : M StreamPool (list nat) :=
  _ ← lock;
  p ← get;
  _ ← unlock;
  mret (filter (λ sid, isClosed p sid = false) (map snd (map_to_list (pool_streams p)))).

Lemma CloseStream_locked sid p : pool_locked p = true -> isClosed p sid = false ->
  exists p', CloseStream sid p = (Err Blocked, p') /\ pool_locked p' = true.
Proof.
  intros Hl Hc. unfold CloseStream, isClosed in *. unfold mbind, M_bind, get. cbn.
  destruct (pool_all p !! sid) as [ps|]; [|done]. rewrite Hc. unfold RemoveStream, lock, mbind, M_bind, set_stream. cbn. rewrite Hl. by eexists.
Qed.
Lemma CloseStream_closed sid p : isClosed p sid = true -> CloseStream sid p = (Ok tt, p).
Proof.
  intros Hc. unfold CloseStream, isClosed in *. unfold mbind, M_bind, get. cbn.
  destruct (pool_all p !! sid) as [ps|]; [by rewrite Hc|done].
Qed.
Lemma locked_blocks p : pool_locked p = true ->
  (forall sid pid, RegisterInbound sid pid p = (Err Blocked, p)) /\ (forall open pid, GetOrCreateStream open pid p = (Err Blocked, p)) /\
  CloseAll p = (Err Blocked, p) /\ Broadcast p = (Err Blocked, p) /\ (forall pid sid, RemoveStream pid sid p = (Err Blocked, p)).
Proof.
  intros Hl. unfold RegisterInbound, GetOrCreateStream, CloseAll, Broadcast, RemoveStream, mbind, M_bind, lock. rewrite Hl. done.
Qed.

Definition has_open (p : StreamPool) (pid : bytes) : bool :=
  match pool_streams p !! pid with Some sid => negb (isClosed p sid) | None => false end.

(** A stream that a peer opens is registered, in place of a closed one, exactly when the
    pool holds no open stream of that peer.  Otherwise the handler closes the old stream while
    it holds the mutex of the pool, which closing needs too: it never returns, and neither
    does any later call on the pool - no stream is opened, no frame broadcast. *)
Theorem RegisterInbound_completes sid pid p : pool_locked p = false ->
  if has_open p pid
  then exists p', RegisterInbound sid pid p = (Err Blocked, p') /\
    (forall sid' pid', RegisterInbound sid' pid' p' = (Err Blocked, p')) /\ (forall open pid', GetOrCreateStream open pid' p' = (Err Blocked, p')) /\
    Broadcast p' = (Err Blocked, p') /\ CloseAll p' = (Err Blocked, p')
  else RegisterInbound sid pid p = (Ok tt, mkPool false (<[pid := sid]> (pool_streams p)) (<[sid := mkStream pid false true]> (pool_all p))).
Proof.
  intros Hl. unfold has_open. assert (RegisterInbound sid pid p =
    (_ ← match pool_streams p !! pid with Some old => CloseStream old | None => mret tt end;
     _ ← set_stream sid (mkStream pid false true); _ ← modify_streams <[pid := sid]>; unlock) (mkPool true (pool_streams p) (pool_all p))) as ->.
  { unfold RegisterInbound, mbind, M_bind, lock. rewrite Hl. done. }
  set (p1 := mkPool true (pool_streams p) (pool_all p)).
  destruct (pool_streams p !! pid) as [old|]; [|done]. change (isClosed p old) with (isClosed p1 old).
  destruct (isClosed p1 old) eqn:Ec; cbn [negb].
  - by rewrite (M_bind_Ok _ _ _ _ _ (CloseStream_closed old p1 Ec)).
  - destruct (CloseStream_locked old p1 eq_refl Ec) as (p' & E & Hl').
    exists p'. destruct (locked_blocks p' Hl') as (H1 & H2 & H3 & H4 & _). split_and!; try done.
    unfold mbind, M_bind. by rewrite E.
Qed.

(** ** The queue of a stream *)
Record sessionEvent := mkEvent { ev_isCancel : bool; ev_mid : bytes }.
Record eventQueue := mkQueue { q_list : list sessionEvent; q_closed : bool; q_signal : bool }.
Definition newEventQueue : eventQueue := mkQueue [] false false.
Definition Push (ev : sessionEvent) (q : eventQueue) : eventQueue :=
  if q_closed q then q else mkQueue (q_list q ++ [ev]) false true.
(** the receive on the channel that goes before it takes the signal *)
Definition PopAll (q : eventQueue) : list sessionEvent * eventQueue := (q_list q, mkQueue [] (q_closed q) false).
Definition CloseQueue (q : eventQueue) : eventQueue := mkQueue (q_list q) true (q_signal q).

(** ** The window of a stream *)
Record Window := mkWindow { w_cwnd : Z; w_inFlight : Z; w_tokens : nat; w_nextSeq : Z }.
Definition newWindow : Window := mkWindow 8 0 0 0.
(** [readLoop], for a message with these replies *)
Definition on_frame (blocks haves dontHaves : nat) (w : Window) : Window :=
  let resolvedCount := (blocks + haves + dontHaves)%nat in
  if (resolvedCount =? 0)%nat then w else
  mkWindow (if negb (blocks + haves =? 0)%nat && (w_cwnd w <? 128) then w_cwnd w + 1 else w_cwnd w)
    (Z.max 0 (w_inFlight w - Z.of_nat resolvedCount)) (Nat.min 128 (w_tokens w + resolvedCount)) (w_nextSeq w).
(** the writer waits for a token of [capCh] while the window is full *)
Definition on_token (w : Window) : option Window :=
  match w_tokens w with O => None | S t => Some (mkWindow (w_cwnd w) (Z.max 0 (w_inFlight w - 1)) t (w_nextSeq w)) end.
Definition release (w : Window) : Window :=
  mkWindow (w_cwnd w) (Z.max 0 (w_inFlight w - 1)) (Nat.min 128 (w_tokens w + 1)) (w_nextSeq w).

(** a frame in the making, and the wants this writer believes are out *)
Record Batch := mkBatch { b_wants : list bytes; b_cancels : list bytes; b_inFlightMIDs : gset bytes; b_win : Window }.
Fixpoint remove_want (k : bytes) (l : list bytes) : option (list bytes) :=
  match l with [] => None | x :: l => if bool_decide (x = k) then Some l else cons x <$> remove_want k l end.
Definition addEvent (ev : sessionEvent) (b : Batch) : Batch :=
  let k := ev_mid ev in
  if ev_isCancel ev then
    match remove_want k (b_wants b) with
    | Some wants => mkBatch wants (b_cancels b) (b_inFlightMIDs b ∖ {[k]}) (b_win b)
    | None =>
        if bool_decide (k ∈ b_inFlightMIDs b)
        then mkBatch (b_wants b) (b_cancels b ++ [k]) (b_inFlightMIDs b ∖ {[k]}) (release (b_win b))
        else mkBatch (b_wants b) (b_cancels b ++ [k]) (b_inFlightMIDs b) (b_win b)
    end
  else mkBatch (b_wants b ++ [k]) (b_cancels b) (b_inFlightMIDs b ∪ {[k]}) (b_win b).
Definition maxBatchSize : nat := 32.
(** the loop: [n] events are in the batch; it ends when it is full, when nothing more has come in
    before the timer, or at a want that does not fit *)
Fixpoint take_batch (n : nat) (pending : list sessionEvent) (b : Batch) : Batch * list sessionEvent :=
  match pending with
  | [] => (b, [])
  | ev :: pending' =>
      if (maxBatchSize <=? n)%nat then (b, pending) else
      if negb (ev_isCancel ev) && (w_cwnd (b_win b) <=? w_inFlight (b_win b) + zlen (b_wants b)) then (b, pending)
      else take_batch (S n) pending' (addEvent ev b)
  end.
(** the first event has passed the window; [None] while it has not *)
Definition next_batch (inFlightMIDs : gset bytes) (pending : list sessionEvent) (w : Window) : option (Batch * list sessionEvent) :=
  match pending with
  | [] => None
  | ev :: pending =>
      if negb (ev_isCancel ev) && (w_cwnd w <=? w_inFlight w) then None
      else Some (take_batch 1 pending (addEvent ev (mkBatch [] [] inFlightMIDs w)))
  end.
Definition send_batch (b : Batch) : Window :=
  let w := b_win b in
  if bool_decide (b_wants b = []) && bool_decide (b_cancels b = []) then w
  else mkWindow (w_cwnd w) (w_inFlight w + zlen (b_wants b)) (w_tokens w) (u64 (w_nextSeq w + 1)).

Inductive win_op := Frame (blocks haves dontHaves : nat) | Token | Write (inFlightMIDs : gset bytes) (pending : list sessionEvent).
Definition run_win (w : Window) (o : win_op) : Window :=
  match o with
  | Frame a b c => on_frame a b c w
  | Token => match on_token w with Some w' => w' | None => w end
  | Write mids pending => match next_batch mids pending w with Some (b, _) => send_batch b | None => w end
  end.
Definition win_ok (w : Window) : Prop := 8 <= w_cwnd w <= 128 /\ 0 <= w_inFlight w <= w_cwnd w /\ (w_tokens w <= 128)%nat.
Definition batch_ok (b : Batch) : Prop := win_ok (b_win b) /\ w_inFlight (b_win b) + zlen (b_wants b) <= w_cwnd (b_win b).
Lemma remove_want_len k l l' : remove_want k l = Some l' -> zlen l = zlen l' + 1.
Proof.
  revert l'. induction l as [|x l IH]; intros l'; cbn; [done|]. case_bool_decide; [intros [= <-]; unfold zlen; cbn; lia|].
  destruct (remove_want k l) as [l0|]; [|done]. intros [= <-]. specialize (IH l0 eq_refl). unfold zlen in *. cbn. lia.
Qed.
Lemma win_ok_release w : win_ok w -> win_ok (release w).
Proof. intros (? & ? & ?). unfold win_ok, release; cbn [w_cwnd w_inFlight w_tokens w_nextSeq b_win b_wants]. lia. Qed.
Lemma addEvent_ok ev b : batch_ok b -> (ev_isCancel ev = false -> w_inFlight (b_win b) + zlen (b_wants b) < w_cwnd (b_win b)) ->
  batch_ok (addEvent ev b).
Proof.
  intros [Hw Hl] Hfit. unfold addEvent. destruct (ev_isCancel ev).
  - destruct (remove_want _ _) as [ws|] eqn:E; [apply remove_want_len in E; split; [done|cbn; lia]|].
    case_bool_decide; [|by split]. split; [by apply win_ok_release|]. destruct Hw as (? & ? & ?). unfold release; cbn [w_cwnd w_inFlight w_tokens w_nextSeq b_win b_wants]. lia.
  - split; [done|]. cbn. specialize (Hfit eq_refl). unfold zlen in *. rewrite length_app. cbn. lia.
Qed.
Lemma take_batch_ok n pending b : batch_ok b -> batch_ok (take_batch n pending b).1.
Proof.
  revert n b. induction pending as [|ev pending IH]; intros n b Hb; cbn [take_batch]; [done|].
  destruct (maxBatchSize <=? n)%nat; [done|]. destruct (negb (ev_isCancel ev) && _) eqn:E; [done|].
  apply IH, addEvent_ok; [done|]. intros Hc. rewrite Hc in E. cbn [negb andb] in E. by apply Z.leb_gt in E.
Qed.
Lemma next_batch_ok mids pending w b rest : win_ok w -> next_batch mids pending w = Some (b, rest) -> batch_ok b.
Proof.
  intros Hw. unfold next_batch. destruct pending as [|ev pending]; [done|]. destruct (negb (ev_isCancel ev) && _) eqn:E; [done|].
  intros E'. apply (f_equal (λ x, default b (fst <$> x))) in E'. cbn in E'. rewrite <-E'. apply take_batch_ok, addEvent_ok.
  - split; [done|]. destruct Hw as (_ & ? & _). cbn [b_win b_wants]. change (zlen []) with 0. lia.
  - intros Hc. rewrite Hc in E. cbn [negb andb] in E. apply Z.leb_gt in E. cbn [b_win b_wants]. change (zlen []) with 0. lia.
Qed.

Lemma addEvent_cwnd ev b : w_cwnd (b_win (addEvent ev b)) = w_cwnd (b_win b).
Proof. unfold addEvent. destruct (ev_isCancel ev); [|done]. destruct (remove_want _ _); [done|]. by case_bool_decide. Qed.
Lemma take_batch_cwnd n pending b : w_cwnd (b_win (take_batch n pending b).1) = w_cwnd (b_win b).
Proof.
  revert n b. induction pending as [|ev pending IH]; intros n b; cbn [take_batch]; [done|].
  destruct (maxBatchSize <=? n)%nat; [done|]. destruct (negb (ev_isCancel ev) && _); [done|]. by rewrite IH, addEvent_cwnd.
Qed.
Lemma next_batch_cwnd mids pending w b rest : next_batch mids pending w = Some (b, rest) -> w_cwnd (b_win b) = w_cwnd w.
Proof.
  unfold next_batch. destruct pending as [|ev pending]; [done|]. destruct (negb (ev_isCancel ev) && _); [done|].
  intros E'. apply (f_equal (λ x, default b (fst <$> x))) in E'. cbn in E'. by rewrite <-E', take_batch_cwnd, addEvent_cwnd.
Qed.
Lemma run_win_ok w o : win_ok w -> win_ok (run_win w o).
Proof.
  intros Hw. destruct o as [a b c| |mids pending]; cbn [run_win].
  - unfold on_frame. destruct (_ =? 0)%nat; [done|]. destruct Hw as (? & ? & ?). unfold win_ok; cbn [w_cwnd w_inFlight w_tokens w_nextSeq b_win b_wants].
    destruct (negb _ && (w_cwnd w <? 128)) eqn:E; [apply andb_true_iff in E as [_ E%Z.ltb_lt]|]; split_and!; lia.
  - unfold on_token. destruct (w_tokens w) eqn:E; [done|]. destruct Hw as (? & ? & ?). unfold win_ok; cbn [default w_cwnd w_inFlight w_tokens w_nextSeq b_win b_wants]. lia.
  - destruct (next_batch mids pending w) as [[b rest]|] eqn:E; [|done]. apply next_batch_ok in E as [Hb Hl]; [|done].
    unfold send_batch. destruct (_ && _); [done|]. destruct Hb as (? & ? & ?). unfold win_ok; cbn [w_cwnd w_inFlight w_tokens w_nextSeq b_win b_wants]. unfold zlen in *. lia.
Qed.

(** Whatever frames and tokens come in and whatever events are written, the window keeps
    between 8 and 128 and the count of wants in flight between zero and the window: a batch
    takes no more wants than fit. *)
Theorem window_bounds ops : let w := foldl run_win newWindow ops in
  8 <= w_cwnd w <= 128 /\ 0 <= w_inFlight w <= w_cwnd w /\
  forall mids pending b rest, next_batch mids pending w = Some (b, rest) -> w_inFlight (b_win b) + zlen (b_wants b) <= w_cwnd w.
Proof.
  intros w. assert (win_ok w) as Hw.
  { subst w. assert (win_ok newWindow) as H0 by (unfold win_ok; vm_compute; repeat split; try discriminate; lia). revert H0. generalize newWindow.
    induction ops as [|o ops IH]; intros w Hw; [done|]. by apply IH, run_win_ok. }
  split; [apply Hw|]. split; [apply Hw|]. intros mids pending b rest E. rewrite <-(next_batch_cwnd _ _ _ _ _ E).
  by apply next_batch_ok in E as [_ Hl].
Qed.

(** [inFlight] goes down twice for a reply the writer later takes the token of: after eight
    wants and one reply the writer has sent three more, ten are unanswered and the window is nine *)
Definition wants_for (l : list string) : list sessionEvent := map (λ k, mkEvent false (lit k)) l.
Lemma window_overrun :
  let w1 := run_win newWindow (Write ∅ (wants_for ["a"; "b"; "c"; "d"; "e"; "f"; "g"; "h"])%string) in
  let w2 := run_win w1 (Frame 1 0 0) in
  let w3 := run_win w2 (Write ∅ (wants_for ["i"; "j"; "k"])%string) in
  let w4 := run_win w3 Token in
  let w5 := run_win w4 (Write ∅ (wants_for ["k"])%string) in
  w_inFlight w1 = 8 /\ w_inFlight w3 - w_inFlight w2 = 2 /\ w_inFlight w5 - w_inFlight w4 = 1 /\
  w_cwnd w5 < 8 - 1 + 2 + 1.
Proof. vm_compute. done. Qed.
Lemma window_bounds_witness : w_inFlight (b_win (mkBatch [] [] ∅ newWindow)) + 8 <= 8.
Proof.
  set (pending := wants_for ["a"; "b"; "c"; "d"; "e"; "f"; "g"; "h"; "i"]%string).
  destruct (next_batch ∅ pending newWindow) as [[b rest]|] eqn:E; [|discriminate E].
  destruct (window_bounds []) as (_ & _ & Hb). specialize (Hb ∅ pending b rest E). vm_compute in E. injection E as <- <-. exact Hb.
Defined.
(** a peer that opens a second stream blocks the pool *)
Lemma RegisterInbound_completes_witness : let p := mkPool false {[ lit "A" := 0%nat ]} {[ 0%nat := mkStream (lit "A") false true ]} in
  RegisterInbound 0 (lit "A") newPeerStreamPool = (Ok tt, p) /\
  exists p', RegisterInbound 1 (lit "A") p = (Err Blocked, p') /\ GetOrCreateStream (Ok 2%nat) (lit "B") p' = (Err Blocked, p').
Proof.
  intros p. split; [exact (RegisterInbound_completes 0 (lit "A") newPeerStreamPool eq_refl)|].
  destruct (RegisterInbound_completes 1 (lit "A") p eq_refl) as (p' & H1 & _ & H2 & _). exists p'. split; [exact H1|apply H2].
Defined.
