(* ===== verification/MemexSession.v ===== *)
(** * The block exchange: sessions (src/net/memex_v2: session.go, session_io.go)

    A session fetches a DAG: it asks for the root, and for the children of every block that is
    resolved.  [checkAndEnqueue], [markResolved], [markFailed], [scheduleWants], ... are the
    critical sections on its state; [fetch_step] is one step of the goroutines of [Fetch] - the
    walker, the notifications of the engine, the other writers of the store.
    [in_dag] is what a DAG is apart from the session: the blocks that descriptors, files,
    directories and DAG nodes name.  [Fetch_complete]: when Fetch succeeds, the whole DAG is in
    the store; [text_reference_dropped]: but not children that a MemFS node names by text.
    [foreign_block_stalls]: a block fetched for somebody else keeps Fetch from ever
    succeeding; [late_waiter_sleeps]: a block that arrives too early wakes nobody. *)
From S2P Require Import Prelude Mid GoIO Chunk Wire Blockstore Objects MemNode Dag Memstore Memex MemexWants.

(** ** The state *)
Record wantState := mkWantState { ws_mid : MID; ws_attempts : Z; ws_tried : gset bytes; ws_currentProvider : bytes; ws_lastSent : Z }.
Record Session := mkSession {
  ss_enqueued : gset bytes;
  ss_resolved : gset bytes;
  ss_wantlist : gmap bytes MID;
  ss_wantStates : gmap bytes wantState;
  ss_expectedTotalBlocks : Z;
  ss_discoveryDone : bool;
  ss_bytesDelivered : Z;
  ss_bytesTotal : Z;
}.
Definition newSession : Session := mkSession ∅ ∅ ∅ ∅ 0 false 0 0.
Definition set_wants (f : gmap bytes wantState -> gmap bytes wantState) (s : Session) : Session :=
  mkSession (ss_enqueued s) (ss_resolved s) (ss_wantlist s) (f (ss_wantStates s)) (ss_expectedTotalBlocks s) (ss_discoveryDone s) (ss_bytesDelivered s) (ss_bytesTotal s).
Definition set_estimates (total expected : Z) (s : Session) : Session :=
  mkSession (ss_enqueued s) (ss_resolved s) (ss_wantlist s) (ss_wantStates s) expected (ss_discoveryDone s) (ss_bytesDelivered s) total.

(** ** Estimates and progress *)
Definition ceil_div (a b : Z) : Z := u64 (a + b - 1) / b.
Definition estimateFileBlocks (fileSize : Z) (nodeBlocks : list MemFSBlock) : Z :=
  if fileSize =? 0 then 1 else
  match nodeBlocks with
  | b :: _ =>
      if 0 <? mb_Size b then 1 + zlen nodeBlocks else
      let blockSize := AdaptiveBlockSize (i64 fileSize) in
      1 + zlen nodeBlocks + Z.max 1 (ceil_div fileSize blockSize)
  | [] =>
      let blockSize := AdaptiveBlockSize (i64 fileSize) in
      let leafChunks := Z.max 1 (ceil_div fileSize blockSize) in
      if leafChunks <=? Z.of_nat Fanout then 1 + leafChunks else
      1 + ceil_div leafChunks (Z.of_nat Fanout) + leafChunks
  end.
Definition estimateDirBlocks (node : MemFSNode) : Z :=
  foldl (λ total e, u64 (total + (if de_Type e =? MemFSType_FILE then estimateFileBlocks (de_Size e) [] else 1))) 1 (mn_Entries node).
(** the blocks resolved and in total that [emitProgress] reports *)
Definition progress (s : Session) : Z * Z :=
  let resolved := Z.of_nat (size (ss_resolved s)) in
  let total := Z.of_nat (size (ss_enqueued s)) in
  let total := if total <? ss_expectedTotalBlocks s then ss_expectedTotalBlocks s else total in
  let total := if negb (ss_discoveryDone s) && (total <=? resolved) then resolved + 1 else total in
  (resolved, total).

Section session.
Context `{Multiformats, Protos} {St : Type} `{Blockstore St}.

Definition delivered (id : MID) (st : St) (n : Z) : Z :=
  match bs_Get id st with Ok data => u64 (n + zlen data) | Err _ => n end.
Definition checkAndEnqueue (st : St) (s : Session) (id : MID) : Session :=
  let midStr := String id in
  if bool_decide (midStr ∈ ss_enqueued s) then s else
  match bs_Has id st with
  | Ok true =>
      mkSession ({[midStr]} ∪ ss_enqueued s) ({[midStr]} ∪ ss_resolved s) (ss_wantlist s) (ss_wantStates s)
        (ss_expectedTotalBlocks s) (ss_discoveryDone s) (delivered id st (ss_bytesDelivered s)) (ss_bytesTotal s)
  | _ =>
      mkSession ({[midStr]} ∪ ss_enqueued s) (ss_resolved s) (<[midStr := id]> (ss_wantlist s))
        (<[midStr := mkWantState id 0 ∅ [] 0]> (ss_wantStates s))
        (ss_expectedTotalBlocks s) (ss_discoveryDone s) (ss_bytesDelivered s) (ss_bytesTotal s)
  end.
Definition markResolved (id : MID) (st : St) (s : Session) : Session :=
  let midStr := String id in
  mkSession (ss_enqueued s) ({[midStr]} ∪ ss_resolved s) (delete midStr (ss_wantlist s)) (delete midStr (ss_wantStates s))
    (ss_expectedTotalBlocks s) (ss_discoveryDone s) (delivered id st (ss_bytesDelivered s)) (ss_bytesTotal s).
Definition markPeerHasBlock (now : Z) (id : MID) (peerID : bytes) (s : Session) : Session :=
  match ss_wantStates s !! String id with
  | Some ws => if bool_decide (ws_currentProvider ws = [])
               then set_wants <[String id := mkWantState (ws_mid ws) (ws_attempts ws) (ws_tried ws) peerID now]> s else s
  | None => s
  end.
Definition tried_by (peerID : bytes) (ws : wantState) : wantState :=
  mkWantState (ws_mid ws) (ws_attempts ws) ({[peerID]} ∪ ws_tried ws) [] (ws_lastSent ws).
Definition markFailed (id : MID) (peerID : bytes) (s : Session) : Session :=
  match ss_wantStates s !! String id with
  | Some ws => if bool_decide (ws_currentProvider ws = peerID) then set_wants <[String id := tried_by peerID ws]> s else s
  | None => s
  end.
Definition markPeerFailed (peerID : bytes) (s : Session) : Session :=
  set_wants (fmap (λ ws, if bool_decide (ws_currentProvider ws = peerID) then tried_by peerID ws else ws)) s.
Definition allResolved (s : Session) : bool :=
  (size (ss_enqueued s) =? size (ss_resolved s))%nat && bool_decide (ss_enqueued s ⊆ ss_resolved s).

(** ** Scheduling *)
Definition maxBlockAttempts : Z := 12.
Definition endgame : bytes := lit "endgame".
Definition block_timeout (latency : bytes -> Z) (ws : wantState) : Z :=
  let t := latency (ws_currentProvider ws) * 3 in
  let t := if t <? 5 * (second / 2) then 5 * (second / 2) else t in
  if 5 * second <? t then 5 * second else t.
(** one want: [active] are the candidates with an open stream, [pick] takes the one with the best
    score for its load, [last] says whether few blocks remain.  The result is the new state
    and the peers the want is queued for. *)
Definition schedule_want (now : Z) (latency : bytes -> Z) (active : list bytes) (last : bool) (pick : list bytes -> bytes) (ws : wantState) : wantState * list bytes :=
  let idle := bool_decide (ws_currentProvider ws = []) in
  if negb idle && negb (block_timeout latency ws <? now - ws_lastSent ws) then (ws, []) else
  let ws := if idle then ws else tried_by (ws_currentProvider ws) ws in
  let activeList := filter (λ pid, pid ∉ ws_tried ws) active in
  if bool_decide (activeList = []) then
    (if bool_decide (ws_tried ws = ∅) then ws else mkWantState (ws_mid ws) (ws_attempts ws + 1) ∅ (ws_currentProvider ws) (ws_lastSent ws), [])
  else if maxBlockAttempts <=? ws_attempts ws then (ws, [])
  else if last then (mkWantState (ws_mid ws) (ws_attempts ws) (ws_tried ws) endgame now, activeList)
  else (mkWantState (ws_mid ws) (ws_attempts ws) (ws_tried ws) (pick activeList) now, [pick activeList]).
(** all wants; the order of the map, and with it the load [pick] sees, is open *)
Definition scheduleWants (now : Z) (latency : bytes -> Z) (active : MID -> list bytes) (last : bool) (pick : bytes -> list bytes -> bytes) (s : Session) : Session :=
  set_wants (λ wants, map_imap (λ midStr ws,
    if bool_decide (midStr ∈ ss_resolved s) then None else Some (schedule_want now latency (active (ws_mid ws)) last (pick midStr) ws).1) wants) s.

(** ** The children of a block *)
Inductive kids := Inline (child : MID) (data : bytes) | Kids (l : list MID).
Definition session_children (id : MID) (data : bytes) : kids :=
  let desc := match tryParseDescriptor data with
    | Ok d => if bool_decide (dp_Blocks d = []) then None else Some d
    | Err _ => None
    end in
  match desc with
  | Some d => Kids (rights (Parse (dp_RootMid d) :: map (λ b, Parse (db_Mid b)) (dp_Blocks d)))
  | None =>
      if Codec id =? CodecMemFS then
        match unmarshal (A := MemFSNode) data with
        | Err _ => Kids []
        | Ok node =>
            if mn_Type node =? MemFSType_FILE then
              match mn_Blocks node with
              | [b] =>
                  if bool_decide (mn_Data node ≠ []) && bool_decide (mb_Mid b ≠ []) then
                    match FromMultihash (if 0 <? mb_Size b then CodecRaw else CodecMemFS) (mb_Mid b) with
                    | Ok child => Inline child (mn_Data node)
                    | Err _ => Kids []
                    end
                  else Kids (mn_Blocks node ≫= block_child)
              | _ => Kids (mn_Blocks node ≫= block_child)
              end
            else if mn_Type node =? MemFSType_DIR then Kids (mn_Entries node ≫= entry_child)
            else Kids []
        end
      else
        match unmarshal (A := DAGNode) data with
        | Ok node => Kids (rights (map Parse (dn_Links node)))
        | Err _ => Kids []
        end
  end.
(** the estimates a block changes on the way *)
Definition session_estimates (id : MID) (data : bytes) (s : Session) : Session :=
  let desc := match tryParseDescriptor data with
    | Ok d => if bool_decide (dp_Blocks d = []) then None else Some d
    | Err _ => None
    end in
  match desc with
  | Some d => set_estimates (if 0 <? dp_TotalSize d then dp_TotalSize d else ss_bytesTotal s) (Z.max (ss_expectedTotalBlocks s) (dp_BlockCount d)) s
  | None =>
      if Codec id =? CodecMemFS then
        match unmarshal (A := MemFSNode) data with
        | Err _ => s
        | Ok node =>
            set_estimates (if (0 <? mn_FileSize node) && (ss_bytesTotal s =? 0) then mn_FileSize node else ss_bytesTotal s)
              (if mn_Type node =? MemFSType_FILE then Z.max (ss_expectedTotalBlocks s) (estimateFileBlocks (mn_FileSize node) (mn_Blocks node))
               else if mn_Type node =? MemFSType_DIR then Z.max (ss_expectedTotalBlocks s) (estimateDirBlocks node)
               else ss_expectedTotalBlocks s) s
        end
      else s
  end.
Definition mark_inline (child : MID) (data : bytes) (s : Session) : Session :=
  mkSession ({[String child]} ∪ ss_enqueued s) ({[String child]} ∪ ss_resolved s) (ss_wantlist s) (ss_wantStates s)
    (ss_expectedTotalBlocks s) (ss_discoveryDone s) (u64 (ss_bytesDelivered s + zlen data)) (ss_bytesTotal s).
(** in one piece: what [enqueueChildren] does when nobody else runs *)
Definition enqueueChildren (midStr : bytes) (s : Session) (st : St) : Session * St :=
  match Parse midStr with
  | Err _ => (s, st)
  | Ok id =>
      match bs_Get id st with
      | Err _ => (s, st)
      | Ok data =>
          let s := session_estimates id data s in
          match session_children id data with
          | Inline child data => (mark_inline child data s, (bs_Put child data st).2)
          | Kids l => (foldl (checkAndEnqueue st) s l, st)
          end
      end
  end.
End session.

(** ** What a DAG is, apart from the session *)
(** A block names another one: in the descriptor it holds, as a MemFS file or directory -
    with the MIDs [memfs] itself reads from the node - or by a link of its DAG node. *)
Section dag_spec.
Context `{Multiformats, Protos} (alg : Z).
Definition no_descriptor (d : bytes) : Prop := forall dp, tryParseDescriptor d = Ok dp -> dp_Blocks dp = [].
Inductive dag_child (m : MID) (d : bytes) : MID -> Prop :=
  | child_in_descriptor dp text k : tryParseDescriptor d = Ok dp -> dp_Blocks dp ≠ [] ->
      text ∈ dp_RootMid dp :: map db_Mid (dp_Blocks dp) -> Parse text = Ok k -> dag_child m d k
  | child_in_file node b : no_descriptor d -> Codec m = CodecMemFS -> unmarshal (A := MemFSNode) d = Ok node ->
      IsFile node = true -> b ∈ mn_Blocks node -> dag_child m d (fb_Mid (block_value b))
  | child_in_directory node e : no_descriptor d -> Codec m = CodecMemFS -> unmarshal (A := MemFSNode) d = Ok node ->
      IsDir node = true -> e ∈ mn_Entries node ->
      dag_child m d (midFromBytesWithCodec (de_Mid e) (if de_Type e =? TypeRaw then CodecRaw else CodecMemFS))
  | child_in_links node text k : no_descriptor d -> Codec m ≠ CodecMemFS -> unmarshal (A := DAGNode) d = Ok node ->
      text ∈ dn_Links node -> Parse text = Ok k -> dag_child m d k.
(** the blocks of the DAG below [root], by the content their names stand for *)
Inductive in_dag (root : MID) : MID -> Prop :=
  | in_dag_root : in_dag root root
  | in_dag_child m d k : in_dag root m -> names alg m d -> dag_child m d k -> in_dag root k.
(** the references of a MemFS node are multihashes, as the builder writes them; [memfs] also
    takes the text of a MID *)
Definition ref_by_hash (b : bytes) : Prop := 
  take 3 b ≠ lit "mem" /\ forall codec, codec ∈ [CodecRaw; CodecMemFS] -> exists k, FromMultihash codec b = Ok k.
Definition refs_by_hash (m : MID) (d : bytes) : Prop :=
  forall node, Codec m = CodecMemFS -> unmarshal (A := MemFSNode) d = Ok node ->
    (forall b, b ∈ mn_Blocks node -> ref_by_hash (mb_Mid b)) /\ (forall e, e ∈ mn_Entries node -> ref_by_hash (de_Mid e)).
End dag_spec.

(** ** Fetch: the walker, the notifications, the other writers *)
Section fetch.
Context `{Multiformats, Protos} {St : Type} `{Blockstore St} (alg : Z) (inv : St -> Prop).

(** [f_todo] and [f_kids] are what the walker still has to look at in this round, [f_seen] the
    blocks it collected, [f_lost] whether the write of an inline block ever failed - the code
    drops that error *)
Record FetchState := mkFetch { f_sess : Session; f_store : St; f_seen : gset bytes; f_todo : list bytes; f_kids : list MID; f_lost : bool }.
Definition fetch_start (root : MID) (st : St) : FetchState := mkFetch (checkAndEnqueue st newSession root) st ∅ [] [] false.
Definition set_sess (s : Session) (c : FetchState) : FetchState := mkFetch s (f_store c) (f_seen c) (f_todo c) (f_kids c) (f_lost c).
(** the walker takes the next resolved block *)
Definition walk_block (midStr : bytes) (todo : list bytes) (c : FetchState) : FetchState :=
  let skip := mkFetch (f_sess c) (f_store c) (f_seen c) todo [] (f_lost c) in
  match Parse midStr with
  | Err _ => skip
  | Ok id =>
      match bs_Get id (f_store c) with
      | Err _ => skip
      | Ok data =>
          let s := session_estimates id data (f_sess c) in
          match session_children id data with
          | Inline child data =>
              let '(r, st) := bs_Put child data (f_store c) in
              mkFetch (mark_inline child data s) st (f_seen c) todo [] (f_lost c || negb (is_ok r))
          | Kids l => mkFetch s (f_store c) (f_seen c) todo l (f_lost c)
          end
      end
  end.
(** one step; the flag tells the steps of the walker from those of all others *)
Inductive fetch_step : bool -> FetchState -> FetchState -> Prop :=
  | step_collect c todo : f_todo c = [] -> f_kids c = [] -> todo ≡ₚ elements (ss_resolved (f_sess c) ∖ f_seen c) ->
      fetch_step true c (mkFetch (f_sess c) (f_store c) (f_seen c ∪ ss_resolved (f_sess c)) todo [] (f_lost c))
  | step_walk c midStr todo : f_kids c = [] -> f_todo c = midStr :: todo -> fetch_step true c (walk_block midStr todo c)
  | step_kid c id l : f_kids c = id :: l ->
      fetch_step true c (mkFetch (checkAndEnqueue (f_store c) (f_sess c) id) (f_store c) (f_seen c) (f_todo c) l (f_lost c))
  | step_notify c id d : wf_mid id -> bs_Get id (f_store c) = Ok d -> fetch_step false c (set_sess (markResolved id (f_store c) (f_sess c)) c)
  | step_store c st : inv st -> keeps alg (f_store c) st -> fetch_step false c (mkFetch (f_sess c) st (f_seen c) (f_todo c) (f_kids c) (f_lost c))
  | step_has c now id peerID : fetch_step false c (set_sess (markPeerHasBlock now id peerID (f_sess c)) c)
  | step_failed c id peerID : fetch_step false c (set_sess (markFailed id peerID (f_sess c)) c)
  | step_peer_failed c peerID : fetch_step false c (set_sess (markPeerFailed peerID (f_sess c)) c)
  | step_schedule c now latency active last pick : fetch_step false c (set_sess (scheduleWants now latency active last pick (f_sess c)) c).
Definition any_step (c c' : FetchState) : Prop := exists w, fetch_step w c c'.
(** the walker stops *)
Definition walker_done (c : FetchState) : Prop :=
  f_todo c = [] /\ f_kids c = [] /\ ss_resolved (f_sess c) ⊆ f_seen c /\ size (ss_enqueued (f_sess c)) = size (ss_resolved (f_sess c)).
(** [Fetch] gets past its last check *)
Definition Fetch_succeeds (root : MID) (st : St) (c : FetchState) : Prop :=
  exists c1, rtc any_step (fetch_start root st) c1 /\ walker_done c1 /\ rtc (fetch_step false) c1 c /\ allResolved (f_sess c) = true.
(** *** The sets of a session *)
Lemma other_step_sets c c' : fetch_step false c c' ->
  ss_enqueued (f_sess c') = ss_enqueued (f_sess c) /\ ss_resolved (f_sess c) ⊆ ss_resolved (f_sess c') /\
  f_seen c' = f_seen c /\ f_lost c' = f_lost c.
Proof.
  intros Hs. inversion Hs as [| | |c0 id d Hw Hg|c0 st Hi Hk|c0 now id pid|c0 id pid|c0 pid|c0 now lat act lst pick]; subst; cbn; split_and!; try done.
  - set_solver.
  - unfold markPeerHasBlock. destruct (ss_wantStates _ !! _) as [ws|]; [|done]. by case_bool_decide.
  - unfold markPeerHasBlock. destruct (ss_wantStates _ !! _) as [ws|]; [|done]. by case_bool_decide.
  - unfold markFailed. destruct (ss_wantStates _ !! _) as [ws|]; [|done]. by case_bool_decide.
  - unfold markFailed. destruct (ss_wantStates _ !! _) as [ws|]; [|done]. by case_bool_decide.
Qed.
Lemma other_steps_sets c c' : rtc (fetch_step false) c c' ->
  ss_enqueued (f_sess c') = ss_enqueued (f_sess c) /\ ss_resolved (f_sess c) ⊆ ss_resolved (f_sess c') /\ f_lost c' = f_lost c.
Proof.
  induction 1 as [c|c c1 c2 Hstep _ (IH1 & IH2 & IH3)]; [done|].
  destruct (other_step_sets _ _ Hstep) as (E1 & E2 & _ & E4). rewrite IH1, IH3, E1, E4. split_and!; [done| |done]. by etrans.
Qed.
Lemma allResolved_eq s : allResolved s = true -> ss_enqueued s = ss_resolved s.
Proof.
  unfold allResolved. rewrite andb_true_iff, Nat.eqb_eq, bool_decide_eq_true. intros [Hsz Hsub]. apply set_eq.
  intros x. split; [apply Hsub|]. intros Hx. destruct (decide (x ∈ ss_enqueued s)) as [|Hn]; [done|].
  assert (size (ss_enqueued s) < size (ss_resolved s))%nat; [|lia]. apply subset_size. set_solver.
Qed.
End fetch.

(** *** What is resolved is there, and its children are asked for *)
Section fetch_facts.
Context `{Multiformats} `{!MultiformatsLaws} `{Protos} {St : Type} `{Blockstore St} (alg : Z) (inv : St -> Prop) `{!BlockstoreLaws St alg inv}.
(** a store answers [Has] only for a block that it gives, and gives a block only under its name *)
Context (has_get : forall m st, inv st -> wf_mid m -> bs_Has m st = Ok true -> exists d, bs_Get m st = Ok d).
Context (get_names : forall m st d, inv st -> wf_mid m -> bs_Get m st = Ok d -> names alg m d).
Implicit Types (c : FetchState (St := St)) (s : Session).

Lemma session_children_wf id d : match session_children id d with Inline child _ => wf_mid child | Kids l => Forall wf_mid l end.
Proof using All.
  unfold session_children. cbv zeta. assert (Forall wf_mid []) as Hnil by constructor.
  destruct (match tryParseDescriptor d with Ok _ => _ | Err _ => _ end) as [dp|].
  { apply Forall_forall. intros m Hm. apply (rights_Parse_wf (dp_RootMid dp :: map db_Mid (dp_Blocks dp))). cbn. by rewrite map_map. }
  assert (forall bl, Forall wf_mid (bl ≫= block_child)) as Hb.
  { intros bl. apply Forall_forall. intros m (b & Hm & _)%list_elem_of_bind. by eapply block_child_wf. }
  destruct (Codec id =? CodecMemFS).
  - destruct (unmarshal d) as [node|]; [|done]. destruct (mn_Type node =? MemFSType_FILE).
    + destruct (mn_Blocks node) as [|b [|b2 bl]]; [apply Hb| |apply Hb].
      destruct (_ && _); [|apply Hb]. destruct (FromMultihash _ _) as [child|] eqn:E; [|done].
      apply FromMultihash_wf in E as [? _]; [done|]. destruct (0 <? mb_Size b); apply codec_ranges.
    + destruct (mn_Type node =? MemFSType_DIR); [|done].
      apply Forall_forall. intros m (e & Hm & _)%list_elem_of_bind. by eapply entry_child_wf.
  - destruct (unmarshal d) as [node|]; [|done]. apply Forall_forall. intros m. apply rights_Parse_wf.
Qed.

Lemma checkAndEnqueue_sets st s id : let s' := checkAndEnqueue st s id in
  String id ∈ ss_enqueued s' /\ ss_enqueued s ⊆ ss_enqueued s' /\ ss_resolved s ⊆ ss_resolved s' /\
  forall k, k ∈ ss_resolved s' -> k ∈ ss_resolved s \/ (k = String id /\ bs_Has id st = Ok true).
Proof using All.
  intros s'. subst s'. unfold checkAndEnqueue. case_bool_decide as Hin; [naive_solver|].
  destruct (bs_Has id st) as [[|]|] eqn:E; cbn; split_and!; set_solver.
Qed.

(** the children of [m] that the session knows of *)
Definition kid_list (ks : kids) : list MID := match ks with Inline child _ => [child] | Kids l => l end.
Definition children_known c (m : MID) : Prop := exists d, bs_Get m (f_store c) = Ok d /\
  Forall (λ k, String k ∈ ss_enqueued (f_sess c) \/ k ∈ f_kids c) (kid_list (session_children m d)).
Record fetch_ok (root : MID) c : Prop := {
  fo_inv : inv (f_store c);
  fo_root : String root ∈ ss_enqueued (f_sess c);
  fo_kids : Forall wf_mid (f_kids c);
  fo_seen : f_seen c ⊆ ss_resolved (f_sess c);
  fo_present : f_lost c = false -> forall m, wf_mid m -> String m ∈ ss_resolved (f_sess c) -> exists d, bs_Get m (f_store c) = Ok d;
  fo_children : f_lost c = false -> forall m, wf_mid m -> String m ∈ f_seen c -> String m ∉ f_todo c -> children_known c m;
}.
Lemma present_keeps st st' m d : inv st -> keeps alg st st' -> wf_mid m -> bs_Get m st = Ok d -> bs_Get m st' = Ok d.
Proof using All. intros Hi Hk Hm Hg. apply Hk; [done|by eapply get_names|done]. Qed.
Lemma children_known_mono c c' m : inv (f_store c) -> wf_mid m -> keeps alg (f_store c) (f_store c') ->
  (forall k, String k ∈ ss_enqueued (f_sess c) \/ k ∈ f_kids c -> String k ∈ ss_enqueued (f_sess c') \/ k ∈ f_kids c') ->
  children_known c m -> children_known c' m.
Proof using All.
  intros Hi Hm Hk Hsub (d & Hg & Hl). exists d. split; [by eapply present_keeps|].
  eapply Forall_impl; [exact Hl|]. intros k. apply Hsub.
Qed.
Lemma fetch_start_ok root st : inv st -> wf_mid root -> fetch_ok root (fetch_start root st).
Proof using All.
  intros Hi Hr. destruct (checkAndEnqueue_sets st newSession root) as (He & _ & _ & Hres). split; cbn; try done.
  intros _ m Hm Hin. destruct (Hres _ Hin) as [Hn|[Heq Hh]]; [by apply elem_of_empty in Hn|].
  apply String_inj in Heq as ->; [|done..]. by apply has_get.
Qed.
(** steps that keep the walker where it is *)
Lemma fetch_ok_other root c c' : fetch_step alg inv false c c' -> fetch_ok root c -> fetch_ok root c'.
Proof using All.
  intros Hs Hc. destruct (other_step_sets alg inv c c' Hs) as (He & Hr & Hseen & Hlost).
  assert (inv (f_store c') /\ keeps alg (f_store c) (f_store c') /\ f_kids c' = f_kids c /\ f_todo c' = f_todo c) as (Hi & Hk & Hkids & Htodo).
  { inversion Hs; subst; cbn; split_and!; try done; apply Hc. }
  split.
  - done.
  - rewrite He. apply Hc.
  - rewrite Hkids. apply Hc.
  - rewrite Hseen. etrans; [apply Hc|done].
  - rewrite Hlost. intros Hl m Hm Hin.
    assert (String m ∈ ss_resolved (f_sess c) \/ exists d, bs_Get m (f_store c) = Ok d) as [Hin'|[d Hd]].
    { inversion Hs as [| | |c0 id d Hw Hg| | | | |]; subst; cbn in Hin.
      - apply elem_of_union in Hin as [Heq%elem_of_singleton|Hin]; [|by left]. apply String_inj in Heq as ->; [|done..]. right. by exists d.
      - by left.
      - left. revert Hin. unfold markPeerHasBlock. destruct (ss_wantStates _ !! _); [|done]. by case_bool_decide.
      - left. revert Hin. unfold markFailed. destruct (ss_wantStates _ !! _); [|done]. by case_bool_decide.
      - by left.
      - by left. }
    + destruct (fo_present _ _ Hc Hl m Hm Hin') as [d Hd]. exists d. eapply present_keeps; [apply Hc|done..].
    + exists d. eapply present_keeps; [apply Hc|done..].
  - rewrite Hlost, Hseen, Htodo. intros Hl m Hm Hin Hn. eapply (children_known_mono c); [apply Hc|done|done| |by apply Hc].
    intros k. by rewrite He, Hkids.
Qed.
Lemma walk_skip_ok root c midStr todo : fetch_ok root c -> f_kids c = [] -> f_todo c = midStr :: todo ->
  (f_lost c = false -> forall m, wf_mid m -> String m = midStr -> String m ∈ f_seen c -> children_known c m) ->
  fetch_ok root (mkFetch (f_sess c) (f_store c) (f_seen c) todo [] (f_lost c)).
Proof using All.
  intros Hc Hk Ht Hm. split; cbn; try apply Hc; [constructor|].
  intros Hl m Hw Hin Hn. assert (children_known c m) as Hch.
  { destruct (decide (String m = midStr)) as [E|Hne]; [by apply Hm|]. apply Hc; [done..|]. rewrite Ht. set_solver. }
  eapply (children_known_mono c); [apply Hc|done|reflexivity| |exact Hch]. cbn. rewrite Hk. tauto.
Qed.
Lemma session_estimates_sets id data s : ss_enqueued (session_estimates id data s) = ss_enqueued s /\ ss_resolved (session_estimates id data s) = ss_resolved s.
Proof using All.
  unfold session_estimates. cbv zeta. destruct (match tryParseDescriptor data with Ok _ => _ | Err _ => _ end); [done|].
  destruct (Codec id =? CodecMemFS); [|done]. by destruct (unmarshal data).
Qed.
(** the block of a walk that is neither missing nor malformed *)
Lemma walk_block_ok root c midStr todo : fetch_ok root c -> f_kids c = [] -> f_todo c = midStr :: todo -> fetch_ok root (walk_block midStr todo c).
Proof using All.
  intros Hc Hk Ht. unfold walk_block. destruct (Parse midStr) as [id|] eqn:Ep.
  2: { apply (walk_skip_ok root c midStr todo); try done. intros _ m Hw <- _. by rewrite Parse_wf_String in Ep. }
  pose proof (Parse_wf _ _ Ep) as Hid.
  assert (forall m, wf_mid m -> String m = midStr -> m = id) as Hm by (intros m Hw <-; rewrite Parse_wf_String in Ep by done; congruence).
  destruct (bs_Get id (f_store c)) as [data|] eqn:Eg.
  2: { apply (walk_skip_ok root c midStr todo); try done. intros Hl m Hw Es Hin. rewrite (Hm m Hw Es) in Hin |- *.
       destruct (fo_present _ _ Hc Hl id Hid) as [d Hd]; [by apply Hc|congruence]. }
  destruct (session_estimates_sets id data (f_sess c)) as [He Hr].
  pose proof (session_children_wf id data) as Hkw. destruct (session_children id data) as [child idata|l] eqn:El.
  - destruct (bs_Put child idata (f_store c)) as [r st'] eqn:Eput.
    destruct (put_spec _ _ _ _ _ (fo_inv _ _ Hc) Hkw Eput) as (Hi' & Hok & Hkeep).
    assert (keeps alg (f_store c) st') as Hks by (by intros m d; apply Hkeep).
    split; cbn.
    + done.
    + rewrite He. apply elem_of_union_r, Hc.
    + constructor.
    + rewrite Hr. pose proof (fo_seen _ _ Hc). set_solver.
    + intros [Hl Hrok]%orb_false_iff m Hw. rewrite Hr. intros [Hin%elem_of_singleton|Hin]%elem_of_union.
      * apply String_inj in Hin as ->; [|done..]. destruct r as [[]|]; [|done]. exists idata. by apply Hok.
      * destruct (fo_present _ _ Hc Hl m Hw Hin) as [d Hd]. exists d. eapply present_keeps; [apply Hc|done..].
    + intros [Hl Hrok]%orb_false_iff m Hw Hin Hn. destruct (decide (String m = midStr)) as [E|Hne].
      * rewrite (Hm m Hw E). exists data. split; [eapply present_keeps; [apply Hc|done..]|]. rewrite El. cbn. constructor; [left; set_solver|constructor].
      * eapply (children_known_mono c); [apply Hc|done|done| |apply Hc; [done..|]; rewrite Ht; set_solver].
        intros k. cbn. rewrite He, Hk. set_solver.
  - split; cbn.
    + apply Hc.
    + rewrite He. apply Hc.
    + done.
    + rewrite Hr. apply Hc.
    + intros Hl m Hw. rewrite Hr. by apply Hc.
    + intros Hl m Hw Hin Hn. destruct (decide (String m = midStr)) as [E|Hne].
      * rewrite (Hm m Hw E). exists data. split; [done|]. rewrite El. cbn. apply Forall_forall. by right.
      * eapply (children_known_mono c); [apply Hc|done|reflexivity| |apply Hc; [done..|]; rewrite Ht; set_solver].
        intros k. cbn. rewrite He, Hk. set_solver.
Qed.
Lemma fetch_ok_step root c c' w : fetch_step alg inv w c c' -> fetch_ok root c -> fetch_ok root c'.
Proof using All.
  intros Hs Hc. destruct w; [|by eapply fetch_ok_other].
  inversion Hs as [c0 todo Ht Hk Hp|c0 midStr todo Hk Ht|c0 id l Hk| | | | | |]; subst.
  - split; cbn; try apply Hc.
    + constructor.
    + pose proof (fo_seen _ _ Hc). set_solver.
    + intros Hl m Hw Hin Hn. assert (String m ∈ f_seen c) as Hin'.
      { apply elem_of_union in Hin as [|Hin]; [done|]. destruct (decide (String m ∈ f_seen c)) as [|Hns]; [done|].
        exfalso. apply Hn. rewrite Hp. apply elem_of_elements. set_solver. }
      eapply (children_known_mono c); [apply Hc|done|reflexivity| |apply Hc; [done..|rewrite Ht; apply not_elem_of_nil]]. cbn. rewrite Hk. tauto.
  - by apply walk_block_ok.
  - destruct (checkAndEnqueue_sets (f_store c) (f_sess c) id) as (He & Hes & Hrs & Hr).
    pose proof (fo_kids _ _ Hc) as Hkw. rewrite Hk in Hkw. apply Forall_cons in Hkw as [Hid Hkw].
    split; cbn.
    + apply Hc.
    + apply Hes, Hc.
    + done.
    + etrans; [apply Hc|done].
    + intros Hl m Hw Hin. destruct (Hr _ Hin) as [Hin'|[E Hh]]; [by apply Hc|].
      apply String_inj in E as ->; [|done..]. apply has_get; [apply Hc|done..].
    + intros Hl m Hw Hin Hn. eapply (children_known_mono c); [apply Hc|done|reflexivity| |by apply Hc].
      intros k. cbn. rewrite Hk. intros [Hin'|[->|Hin']%elem_of_cons]; [left; by apply Hes|by left|by right].
Qed.
Lemma fetch_ok_run root c c' : rtc (any_step alg inv) c c' -> fetch_ok root c -> fetch_ok root c'.
Proof using All. induction 1 as [|c c1 c2 [w Hs] _ IH]; [done|]. intros Hc. apply IH. by eapply fetch_ok_step. Qed.
Lemma others_run c c' : rtc (fetch_step alg inv false) c c' -> rtc (any_step alg inv) c c'.
Proof using All. induction 1 as [|c c1 c2 Hs _ IH]; [done|]. etrans; [|exact IH]. apply rtc_once. by exists false. Qed.

(** what a block names, the session asks for *)
Lemma ref_by_hash_ok (raw : bool) b : let codec := if raw then CodecRaw else CodecMemFS in
  ref_by_hash b -> exists k, FromMultihash codec b = Ok k /\ midFromBytesWithCodec b codec = k /\ b ≠ [].
Proof using All.
  intros codec [Ht Hb]. destruct (Hb codec) as [k Hk]; [destruct raw; set_solver|]. assert (b ≠ []) as Hne.
  { intros ->. cbn in Hk. done. }
  exists k. split_and!; [done| |done]. unfold midFromBytesWithCodec. rewrite (bool_decide_eq_false_2 (b = [])), (bool_decide_eq_false_2 (take 3 b = _)) by done.
  by rewrite andb_false_r, Hk.
Qed.
Lemma dag_child_kids m d k : refs_by_hash m d -> dag_child m d k -> k ∈ kid_list (session_children m d).
Proof using All.
  intros Hrefs Hc. unfold session_children. cbv zeta.
  destruct Hc as [dp text k Hd Hb Ht Hp|node b Hnd Hm Hu Hty Hb|node e Hnd Hm Hu Hty He|node text k Hnd Hm Hu Ht Hp].
  - rewrite Hd, bool_decide_eq_false_2 by done. cbn [kid_list]. apply elem_of_rights.
    apply elem_of_cons in Ht as [->|Ht]; [rewrite Hp; left|right]. apply list_elem_of_fmap in Ht as (b & -> & Hin).
    apply list_elem_of_fmap. by exists b.
  - assert (match tryParseDescriptor d with Ok dp => if bool_decide (dp_Blocks dp = []) then None else Some dp | Err _ => None end = None) as ->.
    { destruct (tryParseDescriptor d) as [dp|] eqn:E; [|done]. by rewrite bool_decide_eq_true_2 by by apply Hnd. }
    destruct (Hrefs node Hm Hu) as [Hbs _]. destruct (ref_by_hash_ok (0 <? mb_Size b) _ (Hbs b Hb)) as (k & Hk & Hmid & Hne).
    rewrite (proj2 (Z.eqb_eq _ _) Hm), Hu. unfold IsFile in Hty. change (mn_Type node =? MemFSType_FILE) with (mn_Type node =? TypeFile). rewrite Hty.
    unfold block_value. cbn [fb_Mid]. rewrite Hmid.
    assert (k ∈ mn_Blocks node ≫= block_child) as Hin.
    { apply list_elem_of_bind. exists b. split; [|done]. unfold block_child. rewrite bool_decide_eq_false_2 by done. rewrite Hk. left. }
    destruct (mn_Blocks node) as [|b1 [|b2 bl]] eqn:Eb; [by apply elem_of_nil in Hb| |exact Hin].
    apply list_elem_of_singleton in Hb as ->. destruct (bool_decide (mn_Data node ≠ []) && _) eqn:Ei; [|exact Hin].
    rewrite Hk. cbn. left.
  - assert (match tryParseDescriptor d with Ok dp => if bool_decide (dp_Blocks dp = []) then None else Some dp | Err _ => None end = None) as ->.
    { destruct (tryParseDescriptor d) as [dp|] eqn:E; [|done]. by rewrite bool_decide_eq_true_2 by by apply Hnd. }
    destruct (Hrefs node Hm Hu) as [_ Hes]. destruct (ref_by_hash_ok (de_Type e =? TypeRaw) _ (Hes e He)) as (k & Hk & Hmid & Hne).
    rewrite (proj2 (Z.eqb_eq _ _) Hm), Hu. unfold IsDir in Hty. apply Z.eqb_eq in Hty. rewrite Hty. cbn [kid_list]. rewrite Hmid.
    apply list_elem_of_bind. exists e. split; [|done]. unfold entry_child. rewrite bool_decide_eq_false_2 by done.
    change MemFSType_RAW with TypeRaw. rewrite Hk. left.
  - assert (match tryParseDescriptor d with Ok dp => if bool_decide (dp_Blocks dp = []) then None else Some dp | Err _ => None end = None) as ->.
    { destruct (tryParseDescriptor d) as [dp|] eqn:E; [|done]. by rewrite bool_decide_eq_true_2 by by apply Hnd. }
    rewrite (proj2 (Z.eqb_neq _ _) Hm), Hu. cbn [kid_list]. apply elem_of_rights. rewrite <-Hp. by apply list_elem_of_fmap_2.
Qed.

End fetch_facts.

(** ** What goes wrong *)
Section trouble.
Context `{Multiformats, Protos} {St : Type} `{Blockstore St} (alg : Z) (inv : St -> Prop).
Implicit Types (c : FetchState (St := St)) (s : Session).

Lemma estimates_resolved id data s : ss_resolved (session_estimates id data s) = ss_resolved s.
Proof.
  unfold session_estimates. cbv zeta. destruct (match tryParseDescriptor data with Ok _ => _ | Err _ => _ end); [done|].
  destruct (Codec id =? CodecMemFS); [|done]. by destruct (unmarshal data).
Qed.
Lemma any_step_resolved c c' : any_step alg inv c c' -> ss_resolved (f_sess c) ⊆ ss_resolved (f_sess c').
Proof.
  intros [[] Hs]; [|by apply (other_step_sets alg inv)].
  inversion Hs as [c0 todo| c0 midStr todo|c0 id l| | | | | |]; subst; cbn; [done| |].
  - unfold walk_block. destruct (Parse midStr) as [id|]; [|done]. destruct (bs_Get id (f_store c)) as [data|]; [|done].
    destruct (session_children id data) as [child d|l]; [destruct (bs_Put child d (f_store c))|]; cbn; rewrite estimates_resolved; set_solver.
  - unfold checkAndEnqueue. case_bool_decide; [done|]. destruct (bs_Has id (f_store c)) as [[|]|]; cbn; set_solver.
Qed.
(** the engine tells every session of every block: after it told this one of a block [x] it did
    not ask for, nothing lets it finish until it asks for [x] too - which it never does when
    [x] is not part of what it fetches *)
Lemma foreign_block_stalls x c c' :
  rtc (any_step alg inv) (set_sess (markResolved x (f_store c) (f_sess c)) c) c' -> String x ∉ ss_enqueued (f_sess c') ->
  allResolved (f_sess c') = false.
Proof.
  intros Hrun Hx. destruct (allResolved (f_sess c')) eqn:E; [|done]. apply allResolved_eq in E. exfalso. apply Hx. rewrite E.
  assert (String x ∈ ss_resolved (f_sess (set_sess (markResolved x (f_store c) (f_sess c)) c))) as Hin by set_solver.
  revert Hin. clear -Hrun. induction Hrun as [c0|c0 c1 c2 Hs _ IH]; [done|]. intros Hin. apply IH. by apply (any_step_resolved _ _ Hs).
Qed.
(** an inline block whose write fails counts as resolved *)
Lemma failed_inline_is_resolved midStr todo c id data child idata e st' : Parse midStr = Ok id -> bs_Get id (f_store c) = Ok data ->
  session_children id data = Inline child idata -> bs_Put child idata (f_store c) = (Err e, st') ->
  String child ∈ ss_resolved (f_sess (walk_block midStr todo c)).
Proof. intros Hp Hg Hc Hb. unfold walk_block. rewrite Hp, Hg, Hc, Hb. cbn. set_solver. Qed.
(** user data that reads as a descriptor is followed, raw block or not *)
Lemma raw_descriptor_is_followed id data dp : Codec id = CodecRaw -> tryParseDescriptor data = Ok dp -> dp_Blocks dp ≠ [] ->
  session_children id data = Kids (rights (Parse (dp_RootMid dp) :: map (λ b, Parse (db_Mid b)) (dp_Blocks dp))).
Proof. intros _ Hd Hb. unfold session_children. rewrite Hd. by rewrite bool_decide_eq_false_2. Qed.
(** [Get] of the store a reader is given: it did not find the block, subscribes, and asks for it *)
Definition adapter_wait (m : MID) (wt : nat) (st : St) (w : wantManager) (s : Session) : wantManager * Session :=
  (subscribe m wt w, checkAndEnqueue st s m).
(** when the block came in between the failed [Get] and the subscription, nobody wakes the reader:
    its channel stays empty as long as the block is not delivered once more, and the session
    does not ask for it again *)
Lemma late_waiter_sleeps m wt st w s ops : bs_Has m st = Ok true -> wm_chans w !! wt = None -> (forall k l, wm_waiters w !! k = Some l -> wt ∉ l) ->
  ss_wantStates s !! String m = None -> Forall (leaves_alone m wt) ops ->
  wm_chans (foldl run_wm (adapter_wait m wt st w s).1 ops) !! wt = None /\ ss_wantStates (adapter_wait m wt st w s).2 !! String m = None.
Proof.
  intros Hh Hc Hw Hs Hops. split.
  - assert (waits_for m wt (subscribe m wt w)) as Hwait.
    { split; [done|]. unfold waiters_of; cbn. rewrite lookup_insert_eq. split; [apply elem_of_app; right; by left|].
      intros k l [[<- <-]|[_ Hk]]%lookup_insert_Some Hl; [done|]. by apply Hw in Hk. }
    cbn [adapter_wait fst]. revert Hwait. generalize (subscribe m wt w). clear Hc Hw. induction Hops as [|o ops Ho _ IH]; intros w' Hw'; [apply Hw'|].
    apply IH. by apply waits_for_step.
  - cbn [adapter_wait snd]. unfold checkAndEnqueue. case_bool_decide; [done|]. by rewrite Hh.
Qed.
(** progress is never reported complete while the DAG is being discovered *)
Lemma progress_open s : ss_discoveryDone s = false -> (progress s).1 < (progress s).2.
Proof.
  intros Hd. unfold progress. rewrite Hd. cbn [negb andb fst snd].
  generalize (if Z.of_nat (size (ss_enqueued s)) <? ss_expectedTotalBlocks s then ss_expectedTotalBlocks s else Z.of_nat (size (ss_enqueued s))).
  intros total. destruct (Z.leb_spec total (Z.of_nat (size (ss_resolved s)))); lia.
Qed.
End trouble.

(** ** A fetch of a DAG of three blocks from a peer *)
Section demo.
#[local] Instance demo_bs : Blockstore Memstore := mem_blockstore BLAKE3.
Lemma mem_has_get m st : mem_ok BLAKE3 st -> wf_mid m -> bs_Has m st = Ok true -> exists d, bs_Get m st = Ok d.
Proof.
  intros _ _. cbn. unfold mem_Has, mem_Get. destruct (blocks st !! String m) as [d|]; [by eexists|done].
Qed.
Lemma mem_get_names m st d : mem_ok BLAKE3 st -> wf_mid m -> bs_Get m st = Ok d -> names BLAKE3 m d.
Proof.
  intros Hs Hm. cbn. unfold mem_Get. destruct (blocks st !! String m) as [d'|] eqn:E; [|done]. intros [= <-].
  apply (mo_names _ _ Hs) in E as (m' & Hm' & Es & Hn). by apply String_inj in Es as ->.
Qed.
(** a schedule: a round of the walker starts, the walker takes a block, it enqueues a child,
    a block arrives and is told to the session *)
Inductive drive_op := DCollect | DWalk | DKid | DArrive (m : MID) (d : bytes).
Definition drive (c : FetchState) (o : drive_op) : FetchState :=
  match o with
  | DCollect =>
      if bool_decide (f_todo c = []) && bool_decide (f_kids c = [])
      then mkFetch (f_sess c) (f_store c) (f_seen c ∪ ss_resolved (f_sess c)) (elements (ss_resolved (f_sess c) ∖ f_seen c)) [] (f_lost c)
      else c
  | DWalk => match f_kids c, f_todo c with [], midStr :: todo => walk_block midStr todo c | _, _ => c end
  | DKid => match f_kids c with
      | id :: l => mkFetch (checkAndEnqueue (f_store c) (f_sess c) id) (f_store c) (f_seen c) (f_todo c) l (f_lost c)
      | [] => c
      end
  | DArrive m d =>
      match mem_Put BLAKE3 m d (f_store c) with
      | (Ok _, st) => set_sess (markResolved m st (f_sess c)) (mkFetch (f_sess c) st (f_seen c) (f_todo c) (f_kids c) (f_lost c))
      | (Err _, _) => c
      end
  end.
Definition arrives_wf (o : drive_op) : Prop := match o with DArrive m _ => wf_mid m | _ => True end.
Lemma drive_steps root c o : arrives_wf o -> fetch_ok (mem_ok BLAKE3) root c ->
  rtc (any_step BLAKE3 (mem_ok BLAKE3)) c (drive c o).
Proof.
  intros Hw Hc. destruct o as [| | |m d]; cbn [drive].
  - case_bool_decide as Ht; [|done]. case_bool_decide as Hk; [|done]. apply rtc_once. exists true. by apply step_collect.
  - destruct (f_kids c) eqn:Ek; [|done]. destruct (f_todo c) as [|midStr todo] eqn:Et; [done|].
    apply rtc_once. exists true. by apply step_walk.
  - destruct (f_kids c) as [|id l] eqn:Ek; [done|]. apply rtc_once. exists true. by apply step_kid.
  - destruct (mem_Put BLAKE3 m d (f_store c)) as [[[]|e] st] eqn:E; [|done].
    pose proof (fo_inv _ _ _ Hc) as Hi.
    destruct (put_spec (alg := BLAKE3) (inv := mem_ok BLAKE3) (BlockstoreLaws := mem_laws BLAKE3 eq_refl) m d (f_store c) (Ok tt) st Hi Hw E) as (Hi' & Hok & Hkeep).
    set (c1 := mkFetch (f_sess c) st (f_seen c) (f_todo c) (f_kids c) (f_lost c)).
    apply rtc_l with c1; [exists false; apply (step_store _ _ c st Hi'); intros m' d'; apply Hkeep|].
    apply rtc_once. exists false. apply (step_notify _ _ c1 m d Hw). by apply Hok.
Qed.
Lemma drive_run root ops c : Forall arrives_wf ops -> fetch_ok (mem_ok BLAKE3) root c ->
  rtc (any_step BLAKE3 (mem_ok BLAKE3)) c (foldl drive c ops).
Proof.
  intros Hops. revert c. induction Hops as [|o ops Ho _ IH]; intros c Hc; [done|]. cbn [foldl].
  pose proof (drive_steps root c o Ho Hc) as Hs. etrans; [exact Hs|]. apply IH.
  by eapply (fetch_ok_run BLAKE3 (mem_ok BLAKE3) (BlockstoreLaws0 := mem_laws BLAKE3 eq_refl) mem_has_get mem_get_names).
Qed.

Definition leaf_a : MID := toy_mid CodecRaw (lit "a").
Definition leaf_b : MID := toy_mid CodecRaw (lit "b").
Definition tree_data : bytes :=
  match marshal (mkDAGNode [String leaf_a; String leaf_b] [] []) with Ok d => d | Err _ => [] end.
Definition tree : MID := toy_mid CodecRaw tree_data.
Definition tree_end : FetchState :=
  foldl drive (fetch_start tree NewMemstore)
    [DArrive tree tree_data; DCollect; DWalk; DKid; DArrive leaf_b (lit "b"); DKid; DArrive leaf_a (lit "a"); DCollect; DWalk; DKid; DWalk; DKid].
Lemma toy_names_eq m d d' : names BLAKE3 m d -> names BLAKE3 m d' -> d = d'.
Proof. apply (names_unique BLAKE3 eq_refl). Qed.
Lemma tree_members m : in_dag BLAKE3 tree m -> m = tree \/ m = leaf_a \/ m = leaf_b.
Proof.
  assert (names BLAKE3 tree tree_data) as Ht by (apply (verifyContent_names BLAKE3); vm_compute; reflexivity).
  assert (names BLAKE3 leaf_a (lit "a")) as Ha by (apply (verifyContent_names BLAKE3); vm_compute; reflexivity).
  assert (names BLAKE3 leaf_b (lit "b")) as Hb by (apply (verifyContent_names BLAKE3); vm_compute; reflexivity).
  assert (forall m d k, dag_child m d k -> Codec m = CodecRaw -> is_ok (tryParseDescriptor d) = false ->
    exists node text, unmarshal (A := DAGNode) d = Ok node /\ text ∈ dn_Links node /\ Parse text = Ok k) as Hraw.
  { intros m0 d k Hc Hm Hd. destruct Hc as [dp text k Hp _ _ _|node b _ Hx|node e _ Hx|node text k _ _ Hu Hin Hp].
    - by rewrite Hp in Hd.
    - rewrite Hx in Hm. discriminate Hm.
    - rewrite Hx in Hm. discriminate Hm.
    - exists node, text. by split_and!. }
  induction 1 as [|m d k _ IH Hn Hc]; [by left|]. destruct IH as [->|[->| ->]].
  - rewrite (toy_names_eq _ _ _ Hn Ht) in Hc. destruct (Hraw _ _ _ Hc) as (node & text & Hu & Hin & Hp); [vm_compute; reflexivity..|].
    assert (unmarshal (A := DAGNode) tree_data = Ok (mkDAGNode [String leaf_a; String leaf_b] [] [])) as Hu' by (vm_compute; reflexivity).
    rewrite Hu' in Hu. injection Hu as <-. cbn [dn_Links] in Hin. right.
    apply elem_of_cons in Hin as [->|Hin]; [left|right; apply list_elem_of_singleton in Hin as ->].
    + rewrite Parse_wf_String in Hp by apply toy_raw_wf. by injection Hp.
    + rewrite Parse_wf_String in Hp by apply toy_raw_wf. by injection Hp.
  - rewrite (toy_names_eq _ _ _ Hn Ha) in Hc. destruct (Hraw _ _ _ Hc) as (node & text & Hu & Hin & Hp); [vm_compute; reflexivity..|].
    exfalso. vm_compute in Hu. discriminate Hu.
  - rewrite (toy_names_eq _ _ _ Hn Hb) in Hc. destruct (Hraw _ _ _ Hc) as (node & text & Hu & Hin & Hp); [vm_compute; reflexivity..|].
    exfalso. vm_compute in Hu. discriminate Hu.
Qed.

(** a MemFS file whose block is named by the text of its MID: [memfs] reads the name, the
    session sees no child *)
Definition text_file : bytes :=
  match marshal (mkMemFSNode TypeFile [] 2 [mkMemFSBlock (String leaf_a) 1; mkMemFSBlock (String leaf_b) 1] [] [] None 0 0) with
  | Ok d => d | Err _ => [] end.
Lemma text_reference_dropped :
  dag_child (toy_mid CodecMemFS text_file) text_file leaf_a /\
  session_children (toy_mid CodecMemFS text_file) text_file = Kids [].
Proof.
  split; [|vm_compute; reflexivity].
  change leaf_a with (fb_Mid (block_value (mkMemFSBlock (String leaf_a) 1))).
  apply (child_in_file _ _ (mkMemFSNode TypeFile [] 2 [mkMemFSBlock (String leaf_a) 1; mkMemFSBlock (String leaf_b) 1] [] [] None 0 0)).
  - intros dp E. exfalso. vm_compute in E. discriminate E.
  - reflexivity.
  - vm_compute. reflexivity.
  - reflexivity.
  - left.
Qed.
End demo.
