(* ===== verification/Descriptor.v ===== *)
(** * Descriptor files (src/core/descriptor/descriptor.go)

    A .mbuss file lists the blocks of a DAG: [Build] walks the DAG and collects its leaves,
    [Serialize] frames the protobuf payload with magic, version and checksum, [Parse] takes
    the frame apart again and [Verify] looks the blocks up in a store.  [sha256] gives 32 bytes
    ([ShaLaws]); the clock is an argument.
    [Parse_Serialize]: what is written is read back, up to what the format cannot hold.
    [Build_describes]: a built descriptor lists every leaf of the DAG once. *)
From S2P Require Import Prelude Mid Wire Blockstore Objects Memstore Dag.

(** ** Data *)
Record BlockEntry := mkBlockEntry { be_MID : MID; be_Size : Z; be_Index : Z }.
Record ErasureInfo := mkErasureInfo {
  ei_DataShards : Z;
  ei_ParityShards : Z;
  ei_OriginalMIDs : list bytes;
  ei_ShardMIDs : list bytes;
}.
(** [d_CreatedAt] is in nanoseconds since 1970 *)
Record Descriptor := mkDescriptor {
  d_RootMID : MID;
  d_TotalSize : Z;
  d_BlockCount : Z;
  d_Name : bytes;
  d_MimeType : bytes;
  d_CreatedAt : Z;
  d_Chunker : bytes;
  d_ChunkSize : Z;
  d_Blocks : list BlockEntry;
  d_Erasure : option ErasureInfo;
  d_BootstrapPeers : list bytes;
  d_MemNSName : bytes;
  d_Signature : bytes;
}.
Record buildOptions := mkBuildOptions {
  bo_chunker : bytes;
  bo_chunkSize : Z;
  bo_bootstrap : list bytes;
  bo_memnsName : bytes;
  bo_signatureFn : option (bytes -> result bytes);
}.
Definition noOptions : buildOptions := mkBuildOptions [] 0 [] [] None.
Definition Option : Type := buildOptions -> buildOptions.
Definition WithChunker (name : bytes) : Option := λ o,
  mkBuildOptions name (bo_chunkSize o) (bo_bootstrap o) (bo_memnsName o) (bo_signatureFn o).
Definition WithChunkSize (size : Z) : Option := λ o,
  mkBuildOptions (bo_chunker o) size (bo_bootstrap o) (bo_memnsName o) (bo_signatureFn o).
Definition WithBootstrapPeers (peers : list bytes) : Option := λ o,
  mkBuildOptions (bo_chunker o) (bo_chunkSize o) peers (bo_memnsName o) (bo_signatureFn o).
Definition WithMemNSName (name : bytes) : Option := λ o,
  mkBuildOptions (bo_chunker o) (bo_chunkSize o) (bo_bootstrap o) name (bo_signatureFn o).
Definition WithSignatureFn (fn : bytes -> result bytes) : Option := λ o,
  mkBuildOptions (bo_chunker o) (bo_chunkSize o) (bo_bootstrap o) (bo_memnsName o) (Some fn).

Definition magic : bytes := lit "MEMB".
Definition version : byte := Byte.x01.
Definition errBadMagic : error := Sentinel "descriptor: invalid magic bytes".
Definition errBadVersion : error := Sentinel "descriptor: unsupported version".
Definition errBadChecksum : error := Sentinel "descriptor: checksum mismatch".

(** [time.Time.Unix] and [time.Unix(sec, 0)] *)
Definition second : Z := 1000000000.
Definition Unix (t : Z) : Z := t / second.
Definition atUnix (sec : Z) : Z := sec * second.

(** [crypto/sha256] has 32-byte digests *)
Class ShaLaws `{Multiformats} : Prop := sha_length d : length (sha256_Sum256 d) = 32%nat.

(** ** The file format *)
Section format.
Context `{Multiformats, Protos}.

Definition entry_pb (b : BlockEntry) : DescriptorBlock :=
  mkDescriptorBlock (String (be_MID b)) (be_Size b) (be_Index b).
Definition erasure_pb (e : ErasureInfo) : DescriptorErasure :=
  mkDescriptorErasure (u32 (ei_DataShards e)) (u32 (ei_ParityShards e)) (ei_OriginalMIDs e) (ei_ShardMIDs e).
Definition payload_pb (d : Descriptor) : DescriptorPayload :=
  mkDescriptorPayload (String (d_RootMID d)) (d_TotalSize d) (d_BlockCount d) (d_Name d) (d_MimeType d)
    (Unix (d_CreatedAt d)) (d_Chunker d) (d_ChunkSize d) (map entry_pb (d_Blocks d))
    (erasure_pb <$> d_Erasure d) (d_BootstrapPeers d) (d_MemNSName d) (d_Signature d).
Definition frame (payload : bytes) : bytes := magic ++ [version] ++ payload ++ sha256_Sum256 payload.
Definition Serialize (d : Descriptor) : result bytes :=
  payload ← wrap "descriptor: marshal" (marshal (payload_pb d));
  Ok (frame payload).

Fixpoint parse_entries (bs : list DescriptorBlock) : result (list BlockEntry) :=
  match bs with
  | [] => Ok []
  | b :: bs =>
      m ← wrap "descriptor: parse block mid" (Mid.Parse (db_Mid b));
      rest ← parse_entries bs;
      Ok (mkBlockEntry m (db_Size b) (db_Index b) :: rest)
  end.
Definition pb_erasure (e : DescriptorErasure) : ErasureInfo :=
  mkErasureInfo (ds_DataShards e) (ds_ParityShards e) (ds_OriginalMids e) (ds_ShardMids e).
Definition pb_descriptor (pb : DescriptorPayload) : result Descriptor :=
  root ← wrap "descriptor: parse root mid" (Mid.Parse (dp_RootMid pb));
  blocks ← parse_entries (dp_Blocks pb);
  Ok (mkDescriptor root (dp_TotalSize pb) (dp_BlockCount pb) (dp_Name pb) (dp_MimeType pb)
        (atUnix (dp_CreatedAt pb)) (dp_Chunker pb) (dp_ChunkSize pb) blocks (pb_erasure <$> dp_Erasure pb)
        (dp_BootstrapPeers pb) (dp_MemnsName pb) (dp_Signature pb)).
Definition Parse (data : bytes) : result Descriptor :=
  if zlen data <? 4 + 1 + 32 then Err (New "descriptor: file too short") else
  if bool_decide (take 4 data ≠ magic) then Err errBadMagic else
  if bool_decide (data !!! 4%nat ≠ version) then Err errBadVersion else
  let payload := take (length data - 32 - 5) (drop 5 data) in
  let checksum := drop (length data - 32) data in
  if bool_decide (sha256_Sum256 payload ≠ checksum) then Err errBadChecksum else
  pb ← wrap "descriptor: unmarshal" (unmarshal payload);
  pb_descriptor pb.
End format.

(** ** Building *)
Section build.
Context `{Multiformats, Protos, ObjectJSON} {St : Type} `{Blockstore St, MetaStore St}.
(** the optional [GetSize] of the store, and the state of the store during the call *)
Context (getSize : option (MID -> result Z)) (s : St).

(** the variables of the callback *)
Record listing := mkListing { l_blocks : list BlockEntry; l_total : Z; l_index : Z }.
Definition no_blocks : listing := mkListing [] 0 0.
Definition list_block (m : MID) (leaf : bool) : M listing unit := λ l,
  if negb leaf then (Ok tt, l) else
  match bs_Get m s with
  | Err e => (Err (Wrap "descriptor: get block" e), l)
  | Ok data => (Ok tt, mkListing (l_blocks l ++ [mkBlockEntry m (zlen data) (l_index l)])
                         (u64 (l_total l + zlen data)) (u32 (l_index l + 1)))
  end.
Definition read (m : MID) (_ : listing) : result bytes := bs_Get m s.
Definition read_size : option (MID -> listing -> result Z) := (λ gs m _, gs m) <$> getSize.

(** an erasure manifest is looked for in the root block itself *)
Definition root_erasure (root : MID) : option ErasureInfo :=
  match bs_Get root s with
  | Err _ => None
  | Ok data =>
      match unmarshal (A := ErasureManifest) data with
      | Err _ => None
      | Ok manifest =>
          if bool_decide (em_OriginalMid manifest = []) then None else
          Some (mkErasureInfo (em_DataShards manifest) (em_ParityShards manifest)
                  [em_OriginalMid manifest] (em_ShardMids manifest))
      end
  end.
Definition Build (fuel : nat) (now : Z) (root : MID) (opts : list Option) : result Descriptor :=
  if IsZero root then Err (New "descriptor: zero root MID") else
  let cfg := foldl (λ o f, f o) noOptions opts in
  has ← wrap "descriptor: check root" (bs_Has root s);
  if negb has then Err (New "descriptor: root MID not found in store") else
  match Walk read read_size list_block fuel root no_blocks with
  | (Err e, _) => Err e
  | (Ok _, l) =>
      let '(name, mimeType) := match GetObjectInfo root s with
        | Ok oi => (oi_Name oi, oi_MimeType oi)
        | Err _ => ([], [])
        end in
      Ok (mkDescriptor root (l_total l) (u32 (zlen (l_blocks l))) name mimeType now (bo_chunker cfg)
            (bo_chunkSize cfg) (l_blocks l) (root_erasure root) (bo_bootstrap cfg) (bo_memnsName cfg) [])
  end.

(** the missing blocks, in order *)
Fixpoint verify_blocks (bs : list BlockEntry) (missing : list MID) : result (list MID) :=
  match bs with
  | [] => Ok missing
  | b :: bs =>
      has ← wrap "descriptor: verify block" (bs_Has (be_MID b) s);
      verify_blocks bs (if negb has then missing ++ [be_MID b] else missing)
  end.
Definition Verify (d : Descriptor) : result (list MID) := verify_blocks (d_Blocks d) [].

(** [MemFSWalk]: the callback gets the size of each leaf *)
Definition MemFSWalk {T} (visit : MID -> Z -> M T unit) (fuel : nat) (root : MID) : M T unit :=
  Walk (λ m (_ : T), bs_Get m s) ((λ gs m (_ : T), gs m) <$> getSize)
    (λ m leaf t,
      if negb leaf then (Ok tt, t) else
      match bs_Get m s with Err e => (Err e, t) | Ok data => visit m (zlen data) t end) fuel root.

(** the direct blocks of a file node *)
Fixpoint file_blocks (bs : list MemFSBlock) (index : Z) : list BlockEntry :=
  match bs with
  | [] => []
  | b :: bs =>
      if bool_decide (mb_Mid b = []) then file_blocks bs index else
      match (match FromMultihash CodecRaw (mb_Mid b) with
             | Ok m => Ok m | Err _ => FromMultihash CodecMemFS (mb_Mid b) end) with
      | Err _ => file_blocks bs index
      | Ok child => mkBlockEntry child (mb_Size b) index :: file_blocks bs (u32 (index + 1))
      end
  end.
Definition CollectFileBlocks (fileMID : MID) : result (list BlockEntry) :=
  data ← bs_Get fileMID s;
  node ← unmarshal (A := MemFSNode) data;
  Ok (file_blocks (mn_Blocks node) 0).
End build.

(** [sort.Slice] by index; equal indices come in any order *)
Definition index_le (a b : BlockEntry) : Prop := be_Index a <= be_Index b.
#[export] Instance index_le_dec a b : Decision (index_le a b) := Z_le_dec _ _.
#[export] Instance index_le_total : Total index_le.
Proof. intros a b. unfold index_le. lia. Qed.
#[export] Instance index_le_trans : Transitive index_le.
Proof. intros a b c. unfold index_le. lia. Qed.
Definition SortBlocks (blocks : list BlockEntry) : list BlockEntry := merge_sort index_le blocks.

(** ** The format: properties *)
(** what the format holds of a descriptor *)
Definition kept_erasure (e : ErasureInfo) : ErasureInfo :=
  mkErasureInfo (u32 (ei_DataShards e)) (u32 (ei_ParityShards e)) (ei_OriginalMIDs e) (ei_ShardMIDs e).
Definition kept (d : Descriptor) : Descriptor :=
  mkDescriptor (d_RootMID d) (d_TotalSize d) (d_BlockCount d) (d_Name d) (d_MimeType d)
    (atUnix (Unix (d_CreatedAt d))) (d_Chunker d) (d_ChunkSize d) (d_Blocks d) (kept_erasure <$> d_Erasure d)
    (d_BootstrapPeers d) (d_MemNSName d) (d_Signature d).
Record wf_descriptor `{Multiformats} (d : Descriptor) : Prop := {
  wfd_root : wf_mid (d_RootMID d);
  wfd_blocks : Forall (λ b, wf_mid (be_MID b)) (d_Blocks d);
}.

Section format_facts.
Context `{Multiformats} `{!MultiformatsLaws, !ShaLaws} `{Protos} `{!ProtosLaws}.

Lemma frame_length payload : length (frame payload) = (37 + length payload)%nat.
Proof. unfold frame. rewrite !length_app, sha_length. simpl. lia. Qed.
Lemma frame_payload payload :
  take (length (frame payload) - 32 - 5) (drop 5 (frame payload)) = payload.
Proof.
  rewrite frame_length. change (drop 5 (frame payload)) with (payload ++ sha256_Sum256 payload).
  by rewrite take_app_length' by lia.
Qed.
Lemma frame_checksum payload :
  drop (length (frame payload) - 32) (frame payload) = sha256_Sum256 payload.
Proof.
  rewrite frame_length. unfold frame. rewrite !app_assoc. apply drop_app_length'.
  rewrite !length_app. simpl. lia.
Qed.
Lemma frame_inj p1 p2 : frame p1 = frame p2 -> p1 = p2.
Proof. intros E. by rewrite <-(frame_payload p1), E, frame_payload. Qed.
(** a file that passes the checks of the header is a frame *)
Lemma is_frame data : (zlen data <? 4 + 1 + 32) = false -> take 4 data = magic -> data !!! 4%nat = version ->
  sha256_Sum256 (take (length data - 32 - 5) (drop 5 data)) = drop (length data - 32) data ->
  data = frame (take (length data - 32 - 5) (drop 5 data)).
Proof.
  intros Hl Hm Hv Hc. unfold frame. rewrite Hc. apply Z.ltb_ge in Hl. unfold zlen in Hl.
  rewrite <-Hm, <-Hv. rewrite <-(take_drop 4 data) at 1. f_equal.
  assert (drop 4 data = data !!! 4%nat :: drop 5 data) as ->.
  { apply drop_S. apply list_lookup_lookup_total_lt. lia. }
  simpl. f_equal. rewrite <-(take_drop (length data - 32 - 5) (drop 5 data)) at 1. f_equal.
  rewrite drop_drop. f_equal. lia.
Qed.

Lemma Parse_of_frame payload : Parse (frame payload) =
  pb ← wrap "descriptor: unmarshal" (unmarshal payload); pb_descriptor pb.
Proof.
  unfold Parse. rewrite frame_payload, frame_checksum.
  assert ((zlen (frame payload) <? 4 + 1 + 32) = false) as ->.
  { apply Z.ltb_ge. unfold zlen. rewrite frame_length. lia. }
  by rewrite !bool_decide_eq_false_2 by auto.
Qed.

Lemma parse_entries_pb bs :
  Forall (λ b, wf_mid (be_MID b)) bs -> parse_entries (map entry_pb bs) = Ok bs.
Proof.
  induction 1 as [|[m sz i] bs Hm _ IH]; [done|]. cbn [map parse_entries entry_pb db_Mid db_Size db_Index be_MID] in *.
  rewrite Parse_wf_String by done. cbn [wrap mbind result_bind]. by rewrite IH.
Qed.
Lemma pb_descriptor_payload d : wf_descriptor d -> pb_descriptor (payload_pb d) = Ok (kept d).
Proof.
  intros [Hr Hb]. unfold pb_descriptor. cbn [payload_pb dp_RootMid dp_Blocks].
  rewrite Parse_wf_String, parse_entries_pb by done. cbn [wrap mbind result_bind]. unfold kept, payload_pb. cbn.
  by destruct (d_Erasure d).
Qed.

(** a descriptor that was serialized is parsed back unchanged, but for the creation time,
    which is cut to the second, and shard counts, which are cut to 32 bits; a descriptor
    of well-formed MIDs whose texts are ASCII can be serialized; and no two
    descriptors have the same file unless they agree on all the format holds. *)
Theorem Parse_Serialize d : wf_descriptor d ->
  (Forall (Forall is_ascii) (texts (payload_pb d)) -> is_ok (Serialize d) = true) /\
  forall bs, Serialize d = Ok bs -> Parse bs = Ok (kept d) /\
    forall d', wf_descriptor d' -> Serialize d' = Ok bs -> kept d' = kept d.
Proof.
  intros Hd. assert (forall d bs, wf_descriptor d -> Serialize d = Ok bs -> Parse bs = Ok (kept d)) as Hp.
  { clear d Hd. intros d bs Hd. unfold Serialize. destruct (marshal (payload_pb d)) as [payload|] eqn:E; [|done].
    intros [= <-]. rewrite Parse_of_frame, (unmarshal_marshal _ _ E). by apply pb_descriptor_payload. }
  split.
  { intros (payload & E & _)%marshal_ok. unfold Serialize. by rewrite E. }
  intros bs E. split; [exact (Hp d bs Hd E)|]. intros d' Hd' E'. apply Hp in E, E'; [|done..].
  congruence.
Qed.

(** C29: [Parse] accepts exactly the files that are a frame (magic, version, payload and the
    digest of that payload) around a payload that unmarshals and has MIDs for its root
    and blocks: a file whose payload was changed is refused unless its checksum was
    changed with it. *)
Theorem Parse_checked data d : Parse data = Ok d <->
  exists payload pb, data = frame payload /\ unmarshal payload = Ok pb /\ pb_descriptor pb = Ok d.
Proof.
  split.
  - unfold Parse. destruct (zlen data <? 4 + 1 + 32) eqn:Hl; [done|]. do 3 (case_bool_decide; [done|]).
    destruct (unmarshal _) as [pb|] eqn:Eu; [|done]. cbn [wrap mbind result_bind]. intros Ep.
    exists (take (length data - 32 - 5) (drop 5 data)), pb. split_and!; [|exact Eu|done].
    apply is_frame; [done| | |]; first [done|by apply dec_stable].
  - intros (payload & pb & -> & Eu & Ep). rewrite Parse_of_frame, Eu. done.
Qed.
End format_facts.

(** ** What is listed *)
Section listing_facts.
Context `{Multiformats} `{!MultiformatsLaws} `{Protos} {St : Type} `{Blockstore St}.
Context (getSize : option (MID -> result Z)) (s : St).
#[local] Abbreviation rd := (read s).
#[local] Abbreviation rs := (read_size getSize).

(** one step of the walk down, and the nodes where it stops *)
Definition step : MID -> MID -> Prop := follows rd rs no_blocks.
Definition size_at (m : MID) : result Z := match getSize with Some gs => gs m | None => Ok (-1) end.
Definition is_leaf (m : MID) : bool :=
  match size_at m, bs_Get m s with
  | Ok size, Ok data => bigRaw m size || bigRaw m (zlen data) || negb (children m data).1
  | Ok size, Err _ => bigRaw m size
  | Err _, _ => false
  end.
Lemma size_of_at m l : size_of rs m l = size_at m.
Proof. unfold size_of, size_at, read_size. by destruct getSize. Qed.
Lemma step_any l m m' : follows rd rs l m m' <-> step m m'.
Proof. apply follows_same. split; [done|]. intros. by rewrite !size_of_at. Qed.
Lemma step_wf m m' : rtc step m m' -> wf_mid m -> wf_mid m'.
Proof. induction 1; [done|]. intros. by eauto using follows_wf. Qed.

(** the callback is only called with the right flag *)
Definition flagged (m : MID) (leaf : bool) : M listing unit := λ l,
  if Bool.eqb leaf (is_leaf m) then list_block s m leaf l else (Err (New "flag"), l).
Lemma walk_flagged fuel m seen l :
  walk rd rs false (list_block s) fuel m (seen, l) = walk rd rs false flagged fuel m (seen, l).
Proof.
  revert m seen l. induction fuel as [|fuel IH]; intros m seen l; [done|].
  cbn [walk]. destruct (decide _); [done|]. fold (size_of rs m l). rewrite size_of_at.
  assert (forall leaf sn, leaf = is_leaf m -> visitM (list_block s) m leaf (sn, l) = visitM flagged m leaf (sn, l)) as Hv.
  { intros leaf sn ->. unfold visitM, flagged. by rewrite eqb_reflx. }
  unfold is_leaf in Hv. destruct (size_at m) as [size|]; [|done]. fold (bigRaw m size). unfold read at 1 3.
  destruct (bs_Get m s) as [data|].
  - destruct (bigRaw m size); [by apply Hv|]. fold (bigRaw m (zlen data)).
    destruct (bigRaw m (zlen data)); [by apply Hv|].
    destruct (children m data) as [[] kids]; [|by apply Hv]. unfold mbind, M_bind. rewrite Hv by done.
    destruct (visitM flagged m false _) as [[[]|] [sn l1]]; [|done]. clear -IH.
    revert sn l1. induction kids as [|k kids IHk]; intros sn l1; [done|].
    cbn [for_each]. unfold mbind, M_bind. rewrite IH.
    destruct (walk rd rs false flagged fuel k (sn, l1)) as [[[]|] [sn' l']]; [apply IHk|done].
  - destruct (bigRaw m size); [by apply Hv|done].
Qed.

(** the listing while the walk runs *)
Record listed (root : MID) (seen : gset bytes) (l : listing) : Prop := {
  ls_index : l_index l = u32 (zlen (l_blocks l));
  ls_total : l_total l = u64 (sumZ be_Size (l_blocks l));
  ls_seen b : b ∈ l_blocks l -> String (be_MID b) ∈ seen;
  ls_nodup : NoDup (map be_MID (l_blocks l));
  ls_entry i b : l_blocks l !! i = Some b -> be_Index b = u32 (Z.of_nat i) /\ rtc step root (be_MID b) /\
    is_leaf (be_MID b) = true /\ exists data, bs_Get (be_MID b) s = Ok data /\ be_Size b = zlen data;
}.
Lemma listed_start root : listed root ∅ no_blocks.
Proof. split; simpl; [done|done|set_solver|constructor|done]. Qed.
Lemma listed_more root seen seen' l : seen ⊆ seen' -> listed root seen l -> listed root seen' l.
Proof. intros Hs [? ? Hin ? ?]. split; [done|done| |done|done]. intros b Hb. by apply Hs, Hin. Qed.
Lemma u_add {w} a b : (a mod w + b) mod w = (a + b) mod w.
Proof. apply Zplus_mod_idemp_l. Qed.
Lemma listed_visit root m leaf seen l r sn l' : rtc step root m -> String m ∉ seen -> listed root seen l ->
  visitM flagged m leaf ({[String m]} ∪ seen, l) = (r, (sn, l')) ->
  sn = {[String m]} ∪ seen /\ listed root sn l'.
Proof.
  intros Hr Hm Hl. unfold visitM, flagged.
  assert (listed root ({[String m]} ∪ seen) l) as Hl' by (eapply listed_more; [|done]; set_solver).
  destruct (Bool.eqb leaf (is_leaf m)) eqn:Eb; [|by intros [= <- <- <-]]. apply eqb_prop in Eb as ->.
  unfold list_block. destruct (is_leaf m) eqn:Elf; cbn [negb]; [|by intros [= <- <- <-]].
  destruct (bs_Get m s) as [data|] eqn:Eg; [|by intros [= <- <- <-]]. intros [= <- <- <-].
  split; [done|]. destruct Hl as [Hi Ht Hs Hn He]. split; cbn [l_blocks l_total l_index].
  - rewrite Hi, zlen_app. apply u_add.
  - rewrite Ht, sumZ_app. cbn [sumZ foldr be_Size]. unfold u64. rewrite u_add. f_equal. lia.
  - intros b [Hb| ->%list_elem_of_singleton]%elem_of_app; [apply Hs in Hb; set_solver|cbn; set_solver].
  - rewrite map_app. apply NoDup_app. split_and!; [done| |apply NoDup_singleton].
    intros x (b & -> & Hb)%list_elem_of_fmap E%list_elem_of_singleton. cbn in E. apply Hm. rewrite <-E. by apply Hs.
  - intros i b Hb. apply lookup_app_Some in Hb as [Hb|[Hlen Hb]]; [by apply He|].
    apply list_lookup_singleton_Some in Hb as [Hz <-]. cbn [be_MID be_Size be_Index]. rewrite Hi. unfold zlen.
    replace (length (l_blocks l)) with i by lia. split_and!; [done|done|done|]. by exists data.
Qed.
Lemma listed_walk root fuel m seen l r sn l' : rtc step root m -> listed root seen l ->
  walk rd rs false flagged fuel m (seen, l) = (r, (sn, l')) -> listed root sn l' /\ seen ⊆ sn.
Proof.
  revert m seen l r sn l'. induction fuel as [|fuel IH]; intros m seen l r sn l' Hr Hl.
  { intros [= <- <- <-]. done. }
  cbn [walk]. destruct (decide _) as [|Hnew]; [by intros [= <- <- <-]|].
  assert (listed root ({[String m]} ∪ seen) l) as Hl' by (eapply listed_more; [|done]; set_solver).
  assert (forall leaf r sn l', visitM flagged m leaf ({[String m]} ∪ seen, l) = (r, (sn, l')) ->
    listed root sn l' /\ seen ⊆ sn) as Hv.
  { intros leaf r0 sn0 l0 [-> ?]%(listed_visit root); [|done..]. split; [done|set_solver]. }
  destruct (match rs with Some gs => gs m l | None => Ok (-1) end) as [size|] eqn:Es; [|intros [= <- <- <-]; split; [done|set_solver]].
  destruct ((Codec m =? CodecRaw) && (largeRaw <? size)) eqn:Eb; [by apply Hv|].
  destruct (rd m l) as [data|] eqn:Eg; [|intros [= <- <- <-]; split; [done|set_solver]].
  destruct ((Codec m =? CodecRaw) && (largeRaw <? zlen data)) eqn:Eb2; [by apply Hv|].
  destruct (children m data) as [[] kids] eqn:Ek; [|by apply Hv].
  assert (forall k, k ∈ kids -> rtc step root k) as Hk.
  { intros k Hk. eapply rtc_r; [exact Hr|]. apply (step_any l). exists size, data. by rewrite Ek. }
  unfold mbind, M_bind. destruct (visitM flagged m false _) as [[[]|] [sn1 l1]] eqn:Ev; apply Hv in Ev as [Hl1 Hs1]; [|by intros [= <- <- <-]].
  clear -IH Hl1 Hs1 Hk. intros E. cut (listed root sn l' /\ sn1 ⊆ sn); [intros [? ?]; split; [done|set_solver]|].
  revert sn1 l1 Hl1 Hs1 E. induction kids as [|k kids IHk]; intros sn1 l1 Hl1 Hs1; cbn [for_each]; unfold mret, M_ret.
  { by intros [= <- <- <-]. }
  unfold mbind, M_bind. destruct (walk rd rs false flagged fuel k (sn1, l1)) as [r2 [sn2 l2]] eqn:E2.
  apply IH in E2 as [Hl2 Hs2]; [|apply Hk; set_solver|done]. destruct r2 as [[]|]; [|by intros [= <- <- <-]].
  intros E. apply IHk in E as [? ?]; [|set_solver|done|set_solver]. split; [done|set_solver].
Qed.

(** completeness: the leaves that the root reaches are listed *)
Lemma flagged_visitor : visitor rd rs flagged (λ m l, is_leaf m = true -> m ∈ map be_MID (l_blocks l)).
Proof.
  assert (forall m leaf l r l', flagged m leaf l = (r, l') ->
    l' = l /\ (r = Ok tt -> is_leaf m = false) \/
    l_blocks l' = l_blocks l ++ [mkBlockEntry m (be_Size (default (mkBlockEntry m 0 0) (last (l_blocks l')))) (l_index l)]) as Hf.
  { intros m leaf l r l'. unfold flagged, list_block.
    destruct (Bool.eqb leaf (is_leaf m)) eqn:Eb; [|by intros [= <- <-]; left]. apply eqb_prop in Eb as ->.
    destruct (is_leaf m); cbn [negb]; [|by intros [= <- <-]; left].
    destruct (bs_Get m s) as [data|]; intros [= <- <-]; [right|by left].
    cbn [l_blocks]. by rewrite last_snoc. }
  split.
  - intros m leaf l r l' _. split; [done|]. intros. by rewrite !size_of_at.
  - intros m leaf l l' [[_ E]|E]%Hf Hlf; [by rewrite E in Hlf by done|].
    rewrite E, map_app. apply elem_of_app. right. by apply list_elem_of_singleton.
  - intros m leaf l r l' m' [[-> _]|E]%Hf; [done|]. intros Hin Hlf. rewrite E, map_app. apply elem_of_app. left. by apply Hin.
Qed.
Lemma listing_exact fuel root l : wf_mid root -> Walk rd rs (list_block s) fuel root no_blocks = (Ok tt, l) ->
  (exists seen, listed root seen l) /\
  forall m, m ∈ map be_MID (l_blocks l) <-> rtc step root m /\ is_leaf m = true.
Proof.
  intros Hw. unfold Walk, WalkOptions. rewrite wf_not_zero by done. rewrite walk_flagged. intros E.
  destruct (walk rd rs false flagged fuel root (∅, no_blocks)) as [r [seen l1]] eqn:Ew. injection E as -> ->.
  pose proof (listed_walk root fuel root ∅ no_blocks _ _ _ (rtc_refl _ _) (listed_start root) Ew) as [Hl _].
  split; [by exists seen|]. intros m. split.
  - intros (b & -> & Hb)%list_elem_of_fmap. apply list_elem_of_lookup in Hb as [i Hi].
    by apply (ls_entry _ _ _ Hl) in Hi as (_ & ? & ? & _).
  - intros [Hr Hlf]. edestruct (WalkOptions_closed rd rs false flagged _ flagged_visitor fuel root no_blocks l) as (_ & _ & Hc);
      [done|unfold WalkOptions; by rewrite wf_not_zero, Ew by done|]. destruct (Hc m Hr) as [Hm|[? _]]; [by apply Hm|done].
Qed.
End listing_facts.

(** ** Building: properties *)
Section build_facts.
Context `{Multiformats} `{!MultiformatsLaws} `{Protos, ObjectJSON} {St : Type} `{Blockstore St, MetaStore St}.

Lemma verify_blocks_missing s bs missing (has : MID -> bool) :
  (forall b, b ∈ bs -> bs_Has (be_MID b) s = Ok (has (be_MID b))) ->
  verify_blocks s bs missing = Ok (missing ++ filter (λ m, has m = false) (map be_MID bs)).
Proof.
  revert missing. induction bs as [|b bs IH]; intros missing Hh; cbn [verify_blocks map]; [by rewrite app_nil_r|].
  rewrite (Hh b) by set_solver. cbn [wrap mbind result_bind]. rewrite IH by (intros; apply Hh; set_solver). f_equal.
  rewrite filter_cons. destruct (has (be_MID b)) eqn:E; cbn [negb].
  - by rewrite decide_False by congruence.
  - rewrite decide_True, <-app_assoc by done. done.
Qed.
Lemma Build_inv getSize s fuel now root opts d : Build getSize s fuel now root opts = Ok d ->
  exists l, Walk (read s) (read_size getSize) (list_block s) fuel root no_blocks = (Ok tt, l) /\
    d_RootMID d = root /\ d_Blocks d = l_blocks l /\ d_TotalSize d = l_total l /\ d_BlockCount d = u32 (zlen (l_blocks l)) /\
    d_CreatedAt d = now /\ d_Signature d = [] /\ d_Erasure d = root_erasure s root.
Proof.
  unfold Build. destruct (IsZero root); [done|]. destruct (bs_Has root s) as [[]|]; [|done..]. cbn [wrap mbind result_bind negb].
  destruct (Walk _ _ _ _ _ _) as [[[]|] l]; [|done]. destruct (match GetObjectInfo root s with Ok _ => _ | Err _ => _ end).
  intros [= <-]. by exists l.
Qed.

(** a descriptor that [Build] returns lists exactly the leaves that the root reaches,
    each once, numbered in order and with the size of its data; the counts are those of
    the list; a store that answers [Has] for them is told to miss exactly the
    blocks it does not have, and the store it was built from misses none. *)
Theorem Build_describes getSize s fuel now root opts d : wf_mid root ->
  Build getSize s fuel now root opts = Ok d ->
  wf_descriptor d /\ NoDup (map be_MID (d_Blocks d)) /\
  (forall m, m ∈ map be_MID (d_Blocks d) <-> rtc (step getSize s) root m /\ is_leaf getSize s m = true) /\
  (forall i b, d_Blocks d !! i = Some b -> be_Index b = u32 (Z.of_nat i) /\
     exists data, bs_Get (be_MID b) s = Ok data /\ be_Size b = zlen data) /\
  d_BlockCount d = u32 (zlen (d_Blocks d)) /\ d_TotalSize d = u64 (sumZ be_Size (d_Blocks d)) /\
  (forall s2 has, (forall b, b ∈ d_Blocks d -> bs_Has (be_MID b) s2 = Ok (has (be_MID b))) ->
     Verify s2 d = Ok (filter (λ m, has m = false) (map be_MID (d_Blocks d)))) /\
  ((forall m data, bs_Get m s = Ok data -> bs_Has m s = Ok true) -> Verify s d = Ok []).
Proof.
  intros Hw (l & El & Hr & Eb & Et & Ec & _)%Build_inv.
  destruct (listing_exact getSize s fuel root l Hw El) as [[seen [Hi Ht Hs Hn He]] Hex]. rewrite Eb, Et, Ec.
  assert (forall b, b ∈ l_blocks l -> wf_mid (be_MID b) /\ exists data, bs_Get (be_MID b) s = Ok data) as Hb.
  { intros b [i Hb]%list_elem_of_lookup. apply He in Hb as (_ & Hr' & _ & data & Hg & _). split; [|by exists data].
    by eapply step_wf. }
  split_and!; [|done|done| |done|done| |].
  - split; [by rewrite Hr|]. rewrite Eb. apply Forall_forall. intros b Hin. by apply Hb.
  - intros i b Hb'. destruct (He i b Hb') as (Hix & _ & _ & Hd). done.
  - intros s2 has Hh. unfold Verify. rewrite Eb. exact (verify_blocks_missing s2 _ [] has Hh).
  - intros Hh. unfold Verify. rewrite Eb. rewrite (verify_blocks_missing s _ _ (λ _, true)).
    + f_equal. apply elem_of_nil_inv. intros m Hm. by apply list_elem_of_filter in Hm as [? _].
    + intros b (_ & data & Hg)%Hb. by eapply Hh.
Qed.

(** Over a complete DAG the walk fails on nothing but the fuel. *)
Lemma walk_complete getSize s fuel root m seen l : rtc (step getSize s) root m ->
  (forall m, rtc (step getSize s) root m -> is_ok (size_at getSize m) = true /\ is_ok (bs_Get m s) = true) ->
  forall r p, walk (read s) (read_size getSize) false (list_block s) fuel m (seen, l) = (r, p) -> r = Ok tt \/ r = Err OutOfFuel.
Proof.
  intros Hr Hok. revert m seen l Hr. induction fuel as [|fuel IH]; intros m seen l Hr r p; [intros [= <- _]; by right|].
  cbn [walk]. destruct (decide _); [intros [= <- _]; by left|]. fold (size_of (read_size getSize) m l). rewrite size_of_at.
  destruct (Hok m Hr) as [Hsz Hget]. destruct (size_at getSize m) as [size|] eqn:Es; [|done]. unfold read at 1.
  destruct (bs_Get m s) as [data|] eqn:Eg; [|done].
  assert (forall leaf, exists q, visitM (list_block s) m leaf ({[String m]} ∪ seen, l) = (Ok tt, q)) as Hv.
  { intros leaf. unfold visitM, list_block. rewrite Eg. destruct leaf; cbn [negb]; by eexists. }
  assert (forall leaf r p, visitM (list_block s) m leaf ({[String m]} ∪ seen, l) = (r, p) -> r = Ok tt \/ r = Err OutOfFuel) as Hv'.
  { intros leaf r0 p0 E. destruct (Hv leaf) as [q Eq]. rewrite Eq in E. injection E as <- _. by left. }
  destruct ((Codec m =? CodecRaw) && (largeRaw <? size)) eqn:Eb; [by apply Hv'|].
  destruct ((Codec m =? CodecRaw) && (largeRaw <? zlen data)) eqn:Eb2; [by apply Hv'|].
  destruct (children m data) as [[] kids] eqn:Ek; [|by apply Hv'].
  assert (forall k, k ∈ kids -> rtc (step getSize s) root k) as Hk.
  { intros k Hk. eapply rtc_r; [exact Hr|]. exists size, data. rewrite size_of_at, Ek. done. }
  unfold mbind, M_bind. destruct (Hv false) as [[sn l1] ->]. clear -IH Hk. revert sn l1.
  induction kids as [|k kids IHk]; intros sn l1; cbn [for_each]; [intros [= <- _]; by left|].
  unfold mbind, M_bind. destruct (walk _ _ _ _ fuel k (sn, l1)) as [r1 [sn2 l2]] eqn:E.
  pose proof (IH _ _ _ (Hk k ltac:(set_solver)) _ _ E) as [->| ->]; [|intros [= <- _]; by right].
  apply IHk. intros. apply Hk. set_solver.
Qed.
(** [Build] succeeds on every complete DAG: when the blocks that the root reaches are among
    finitely many that can all be read, one unit of fuel more than their number is enough. *)
Theorem Build_succeeds (getSize : option (MID -> result Z)) (s : St) (U : gset bytes) (fuel : nat) (now : Z) (root : MID) (opts : list Option) : wf_mid root -> bs_Has root s = Ok true ->
  String root ∈ U ->
  (forall m, wf_mid m -> String m ∈ U -> is_ok (size_at getSize m) = true /\ is_ok (bs_Get m s) = true /\
     forall m', step getSize s m m' -> String m' ∈ U) ->
  (size U < fuel)%nat -> is_ok (Build getSize s fuel now root opts) = true.
Proof.
  intros Hw Hh HU Hall Hf. unfold Build. rewrite wf_not_zero, Hh by done. cbn [wrap mbind result_bind negb].
  assert (forall m, rtc (step getSize s) root m -> wf_mid m /\ String m ∈ U) as Hin.
  { apply rtc_ind_r; [done|]. intros m m' _ Hs [Hm HmU]. split; [by eapply follows_wf|]. by apply (Hall m). }
  assert (visitor (read s) (read_size getSize) (list_block s) (λ _ _, True)) as Hvis.
  { split; [|done..]. intros m leaf l r l' _. split; [done|]. intros. by rewrite !size_of_at. }
  pose proof (WalkOptions_fuel (read s) (read_size getSize) false (list_block s) _ Hvis) as Hfuel.
  specialize (Hfuel ltac:(intros m leaf l; unfold list_block; destruct leaf; cbn [negb]; [by destruct (bs_Get m s)|done])).
  specialize (Hfuel U fuel root no_blocks). unfold Walk, WalkOptions in *. rewrite wf_not_zero in * by done.
  destruct (walk _ _ _ _ fuel root (∅, no_blocks)) as [r [seen l]] eqn:E.
  assert (r = Ok tt) as ->.
  { pose proof (walk_complete getSize s fuel root root ∅ no_blocks (rtc_refl _ _)
      ltac:(intros m Hm; destruct (Hin m Hm) as [Hwm HmU]; destruct (Hall m Hwm HmU) as (? & ? & _); done) _ _ E) as [->| ->]; [done|].
    exfalso. apply Hfuel; [|done..]. intros m m' HmU Hwm Hs%step_any. by apply (Hall m Hwm HmU). }
  by destruct (match GetObjectInfo root s with Ok _ => _ | Err _ => _ end).
Qed.

(** The codec [CollectFileBlocks] tries second never helps: what fails is the multihash. *)
Lemma file_blocks_codec (b : MemFSBlock) e :
  FromMultihash CodecRaw (mb_Mid b) = Err e -> is_ok (FromMultihash CodecMemFS (mb_Mid b)) = false.
Proof.
  unfold FromMultihash, fromCodecAndHashErr, build. case_bool_decide; [done|].
  destruct (mh_Decode (mb_Mid b)); [|done]. cbn [wrap mbind result_bind]. destruct (validateEnvelope (mb_Mid b)); [|done].
  done.
Qed.
End build_facts.

Lemma seqZ_sorted k (n : nat) : StronglySorted Z.le (seqZ k (Z.of_nat n)).
Proof.
  revert k. induction n as [|n IH]; intros k; [constructor|]. rewrite seqZ_cons by lia.
  replace (Z.pred (Z.of_nat (S n))) with (Z.of_nat n) by lia. constructor; [apply IH|].
  apply Forall_forall. intros z Hz%elem_of_seqZ. lia.
Qed.
(** Any order of the entries of a descriptor is sorted back into its own. *)
Lemma SortBlocks_restores bs bs' : (forall i b, bs !! i = Some b -> be_Index b = u32 (Z.of_nat i)) ->
  zlen bs <= 2 ^ 32 -> bs' ≡ₚ bs -> SortBlocks bs' = bs.
Proof.
  intros Hi Hn Hp. assert (map be_Index bs = seqZ 0 (zlen bs)) as Hm.
  { apply list_eq. intros i. rewrite list_lookup_fmap. destruct (bs !! i) as [b|] eqn:E; cbn.
    - pose proof (lookup_lt_Some _ _ _ E). rewrite (Hi i b E), u32_small by (unfold zlen in *; lia).
      symmetry. apply lookup_seqZ. unfold zlen. lia.
    - symmetry. apply lookup_seqZ_ge. apply lookup_ge_None in E. unfold zlen. lia. }
  apply (sorted_unique_key index_le be_Index).
  - unfold index_le. intros. lia.
  - unfold SortBlocks. rewrite merge_sort_Permutation, Hp, Hm. apply NoDup_seqZ.
  - unfold SortBlocks. by rewrite merge_sort_Permutation.
  - apply StronglySorted_merge_sort; apply _.
  - clear Hp Hn. assert (StronglySorted Z.le (map be_Index bs)) as Hs.
    { rewrite Hm. apply seqZ_sorted. }
    clear Hm Hi. induction bs as [|b bs IH]; [constructor|]. cbn in Hs. apply StronglySorted_cons in Hs as [Hb Hs].
    constructor; [by apply IH|]. by apply (proj1 (Forall_map be_Index _ _)) in Hb.
Qed.

(** ** The properties at concrete inputs *)
Instance toy_sha : ShaLaws.
Proof. intros d. cbn [sha256_Sum256 toy]. rewrite length_take, length_app, length_replicate. lia. Qed.
#[local] Instance demo_meta : MetaStore Memstore := {| st_PutMeta _ _ := mret tt; st_GetMeta _ _ := Err ErrNotFound |}.
#[local] Instance demo_bstore : Blockstore Memstore := mem_blockstore BLAKE3.

Definition demo_built : result Descriptor :=
  Build None demo_small.2 9 1500000000 demo_root [WithBootstrapPeers [lit "/ip4/1.2.3.4"]].
Definition demo_descriptor : Descriptor :=
  match demo_built with Ok d => d | Err _ => mkDescriptor zeroMID 0 0 [] [] 0 [] 0 [] None [] [] [] end.
Definition demo_file : bytes := match Serialize demo_descriptor with Ok f => f | Err _ => [] end.
Lemma demo_root_wf : wf_mid demo_root.
Proof. destruct (Parse_wf (String demo_root) demo_root) as []; [vm_compute; reflexivity|by split]. Qed.
Lemma demo_built_ok : Build None demo_small.2 9 1500000000 demo_root [WithBootstrapPeers [lit "/ip4/1.2.3.4"]] = Ok demo_descriptor.
Proof. vm_compute. reflexivity. Qed.

Lemma Build_describes_witness :
  map be_Size (d_Blocks demo_descriptor) = [1; 1] /\ Verify demo_small.2 demo_descriptor = Ok [] /\ Verify NewMemstore demo_descriptor = Ok (map be_MID (d_Blocks demo_descriptor)).
Proof.
  destruct (Build_describes None demo_small.2 9 1500000000 demo_root _ demo_descriptor demo_root_wf demo_built_ok)
    as (_ & _ & _ & _ & _ & _ & Hv & _).
  split_and!; [vm_compute; reflexivity|vm_compute; reflexivity|].
  rewrite (Hv NewMemstore (λ _, false)) by reflexivity. vm_compute. reflexivity.
Defined.
Lemma Parse_Serialize_witness : Parse demo_file = Ok (kept demo_descriptor).
Proof.
  assert (wf_descriptor demo_descriptor) as Hd.
  { destruct (Build_inv None demo_small.2 9 1500000000 demo_root _ demo_descriptor demo_built_ok) as (l & El & Hr & Eb & _).
    destruct (listing_exact None demo_small.2 9 demo_root l demo_root_wf El) as [[seen Hl] _].
    split; [rewrite Hr; apply demo_root_wf|]. rewrite Eb. apply Forall_forall. intros b [i Hi]%list_elem_of_lookup.
    apply (ls_entry _ _ _ _ _ Hl) in Hi as (_ & Hr' & _). exact (step_wf _ _ _ _ Hr' demo_root_wf). }
  apply (Parse_Serialize demo_descriptor Hd). vm_compute. reflexivity.
Defined.
Lemma Parse_checked_witness : exists payload, demo_file = frame payload.
Proof.
  assert (Parse demo_file = Ok (kept demo_descriptor)) as E by (vm_compute; reflexivity).
  destruct (proj1 (Parse_checked demo_file _) E) as (payload & _ & Ef & _). exists payload. exact Ef.
Defined.
Lemma Build_succeeds_witness :
  is_ok (Build None (mem_Put BLAKE3 (toy_mid CodecRaw (lit "abc")) (lit "abc") NewMemstore).2 2 0 (toy_mid CodecRaw (lit "abc")) []) = true.
Proof.
  apply (Build_succeeds None _ {[String (toy_mid CodecRaw (lit "abc"))]});
    [apply toy_raw_wf|vm_compute; reflexivity|set_solver| |rewrite size_singleton; lia].
  intros m Hm Hin%elem_of_singleton. apply String_inj in Hin as ->; [|exact Hm|apply toy_raw_wf].
  split_and!; [reflexivity|vm_compute; reflexivity|].
  intros m' (size & data & _ & _ & Hg & _ & Hc & _). vm_compute in Hg. injection Hg as <-. vm_compute in Hc. discriminate Hc.
Defined.

(** The store's own reader of descriptors does not compare the checksum: a damaged file is
    refused here, but walked as a descriptor there. *)
Lemma checksum_not_checked_by_walk :
  let damaged := removelast demo_file ++ [Byte.xff] in
  Parse damaged = Err errBadChecksum /\ is_ok (tryParseDescriptor damaged) = true.
Proof. vm_compute. done. Qed.
(** [WithSignatureFn] has no effect: [Build] does not sign. *)
Lemma Build_never_signs `{Multiformats, Protos, ObjectJSON} {St : Type} `{Blockstore St, MetaStore St}
    getSize (s : St) (fuel : nat) (now : Z) (root : MID) (opts : list Option) fn d :
  Build getSize s fuel now root (opts ++ [WithSignatureFn fn]) = Ok d ->
  d_Signature d = [] /\ Build getSize s fuel now root opts = Ok d.
Proof.
  intros E. split; [by destruct (Build_inv _ _ _ _ _ _ _ E) as (? & _ & _ & _ & _ & _ & _ & ? & _)|].
  revert E. unfold Build. destruct (IsZero root); [done|]. rewrite foldl_app. done.
Qed.
(** A file whose bytes are an erasure manifest gets that manifest for its own. *)
Definition manifest_like : bytes :=
  match marshal (mkErasureManifest (lit "x") 4 2 [lit "s"] 7) with Ok raw => raw | Err _ => [] end.
Lemma manifest_from_content :
  root_erasure (mem_Put BLAKE3 (toy_mid CodecRaw manifest_like) manifest_like NewMemstore).2 (toy_mid CodecRaw manifest_like)
  = Some (mkErasureInfo 4 2 [lit "x"] [lit "s"]).
Proof. vm_compute. reflexivity. Qed.
