(* ===== verification/Magnet.v ===== *)
(** * Magnet links (src/core/descriptor/descriptor.go: ToMagnetLink, FromMagnetLink)

    A link carries the root, the name, bootstrap peers and the erasure parameters of a descriptor
    as a URL query.  The functions of net/url, strings and strconv it is made with are
    written out first.  That a base-32 CID needs no escaping is [CidText].
    [QueryUnescape_Escape]: what was escaped is unescaped; [FromMagnet_ToMagnet]: what of a
    descriptor survives its link. *)
From S2P Require Import Prelude Mid Wire Blockstore Descriptor.

(** ** strings and strconv *)
(** [strings.Split(s, sep)] for a separator of one byte *)
Fixpoint split_on (sep : byte) (s : bytes) : list bytes :=
  match s with
  | [] => [[]]
  | b :: s =>
      if bool_decide (b = sep) then [] :: split_on sep s else
      match split_on sep s with
      | [] => [[b]]
      | seg :: segs => (b :: seg) :: segs
      end
  end.
(** [strings.Join] *)
Fixpoint join_with (sep : bytes) (l : list bytes) : bytes :=
  match l with
  | [] => []
  | [s] => s
  | s :: l => s ++ sep ++ join_with sep l
  end.
(** [strings.Cut] *)
Fixpoint cut_on (sep : byte) (s : bytes) : bytes * bytes :=
  match s with
  | [] => ([], [])
  | b :: s => if bool_decide (b = sep) then ([], s) else let '(l, r) := cut_on sep s in (b :: l, r)
  end.
Definition digit (z : Z) : byte := z2b (48 + z).
Definition is_digit (b : byte) : bool := (48 <=? b2z b) && (b2z b <=? 57).
(** [strconv.Itoa]: the decimal digits, the last one first in the recursion *)
Fixpoint digits_fuel (fuel : nat) (z : Z) : bytes :=
  match fuel with
  | O => []
  | S fuel => if z <? 10 then [digit z] else digits_fuel fuel (z / 10) ++ [digit (z mod 10)]
  end.
Definition Itoa (z : Z) : bytes :=
  if z <? 0 then lit "-" ++ digits_fuel 20 (- z) else digits_fuel 20 z.
Definition of_digits (s : bytes) : Z := foldl (λ acc b, acc * 10 + (b2z b - 48)) 0 s.
(** [strconv.Atoi]: the number next to the error, which the callers drop: 0 for what is not
    a number, the nearest one for what does not fit *)
Definition Atoi (s : bytes) : Z :=
  let '(neg, s) := match s with
    | Byte.x2d :: s => (true, s)
    | Byte.x2b :: s => (false, s)
    | _ => (false, s)
    end in
  if bool_decide (s = []) || negb (forallb is_digit s) then 0 else
  if neg then Z.max (- of_digits s) (- 2 ^ 63) else Z.min (of_digits s) (2 ^ 63 - 1).

(** ** net/url *)
Definition unreserved (b : byte) : bool :=
  let r := b2z b in
  ((97 <=? r) && (r <=? 122)) || ((65 <=? r) && (r <=? 90)) || ((48 <=? r) && (r <=? 57)) ||
  (r =? 45) || (r =? 95) || (r =? 46) || (r =? 126).
Definition upperhex (z : Z) : byte := if z <? 10 then z2b (48 + z) else z2b (55 + z).
Definition escape_byte (b : byte) : bytes :=
  if bool_decide (b = Byte.x20) then [Byte.x2b]
  else if unreserved b then [b]
  else [Byte.x25; upperhex (b2z b / 16); upperhex (b2z b mod 16)].
Definition QueryEscape (s : bytes) : bytes := concat (map escape_byte s).
Definition unhex (b : byte) : option Z :=
  let r := b2z b in
  if (48 <=? r) && (r <=? 57) then Some (r - 48)
  else if (97 <=? r) && (r <=? 102) then Some (r - 87)
  else if (65 <=? r) && (r <=? 70) then Some (r - 55)
  else None.
Definition EscapeError : error := New "invalid URL escape".
Fixpoint QueryUnescape (s : bytes) : result bytes :=
  match s with
  | [] => Ok []
  | Byte.x25 :: s =>
      match s with
      | h :: l :: s =>
          match unhex h, unhex l with
          | Some x, Some y => r ← QueryUnescape s; Ok (z2b (16 * x + y) :: r)
          | _, _ => Err EscapeError
          end
      | _ => Err EscapeError
      end
  | Byte.x2b :: s => r ← QueryUnescape s; Ok (Byte.x20 :: r)
  | b :: s => r ← QueryUnescape s; Ok (b :: r)
  end.
(** one [key=value] of a query: [None] is skipped *)
Definition parse_pair (part : bytes) : result (option (bytes * bytes)) :=
  if bool_decide (Byte.x3b ∈ part) then Err (New "invalid semicolon separator in query") else
  if bool_decide (part = []) then Ok None else
  let '(key, value) := cut_on Byte.x3d part in
  key ← QueryUnescape key;
  value ← QueryUnescape value;
  Ok (Some (key, value)).
(** [ParseQuery] with its error: the pairs that parse, in order *)
Fixpoint parse_pairs (parts : list bytes) : result (list (bytes * bytes)) :=
  match parts with
  | [] => Ok []
  | part :: parts =>
      p ← parse_pair part;
      rest ← parse_pairs parts;
      Ok (match p with Some p => p :: rest | None => rest end)
  end.
Definition ParseQuery (q : bytes) : result (list (bytes * bytes)) := parse_pairs (split_on Byte.x26 q).
(** [Values.Get] *)
Fixpoint Values_Get (vs : list (bytes * bytes)) (key : bytes) : bytes :=
  match vs with
  | [] => []
  | (k, v) :: vs => if bool_decide (k = key) then v else Values_Get vs key
  end.

(** ** Links *)
Definition magnet_prefix : bytes := lit "magnet:?".
Section magnet.
Context `{Multiformats}.

Definition link_parts (d : Descriptor) : list bytes :=
  [lit "x=mem:" ++ String (d_RootMID d)]
  ++ (if bool_decide (d_Name d ≠ []) then [lit "dn=" ++ QueryEscape (d_Name d)] else [])
  ++ (if 0 <? zlen (d_BootstrapPeers d)
      then [lit "bs=" ++ QueryEscape (join_with (lit ",") (d_BootstrapPeers d))] else [])
  ++ match d_Erasure d with
     | Some e => if 0 <? ei_DataShards e
                 then [lit "ec=" ++ Itoa (ei_DataShards e) ++ lit "," ++ Itoa (ei_ParityShards e)] else []
     | None => []
     end
  ++ (if bool_decide (d_MemNSName d ≠ []) then [lit "mn=" ++ QueryEscape (d_MemNSName d)] else []).
Definition ToMagnetLink (d : Descriptor) : bytes := magnet_prefix ++ join_with (lit "&") (link_parts d).

(** a value is unescaped a second time, and lost when that fails *)
Definition unescape_again (s : bytes) : bytes :=
  match QueryUnescape s with Ok s => s | Err _ => [] end.
Definition link_erasure (ec : bytes) : option ErasureInfo :=
  match split_on Byte.x2c ec with
  | [k; m] =>
      let k := Atoi k in
      let m := Atoi m in
      if (0 <? k) && (0 <? m) then Some (mkErasureInfo k m [] []) else None
  | _ => None
  end.
Definition link_peers (bs : bytes) : list bytes :=
  if bool_decide (bs = []) then [] else split_on Byte.x2c (unescape_again bs).
Definition FromMagnetLink (now : Z) (uri : bytes) : result Descriptor :=
  if negb (HasPrefix uri magnet_prefix) then Err (New "descriptor: invalid magnet URI prefix") else
  params ← wrap "descriptor: parse magnet" (ParseQuery (drop (length magnet_prefix) uri));
  let x := Values_Get params (lit "x") in
  if bool_decide (x = []) then Err (New "descriptor: magnet missing x= parameter") else
  root ← wrap "descriptor: parse magnet mid" (Mid.Parse (TrimPrefix x (lit "mem:")));
  Ok (mkDescriptor root 0 0 (unescape_again (Values_Get params (lit "dn"))) [] now [] 0 []
        (link_erasure (Values_Get params (lit "ec"))) (link_peers (Values_Get params (lit "bs")))
        (unescape_again (Values_Get params (lit "mn"))) []).
End magnet.

Example link_ex : QueryEscape (lit "a b/c&d.e~") = lit "a+b%2Fc%26d.e~".
Proof. reflexivity. Qed.
Example atoi_ex : map (Atoi ∘ lit) ["42"; "-7"; "+5"; "x"; ""; "99999999999999999999"]%string = [42; -7; 5; 0; 0; 2 ^ 63 - 1].
Proof. reflexivity. Qed.
Example itoa_ex : map Itoa [0; 7; 10; 340; -12] = (lit <$> ["0"; "7"; "10"; "340"; "-12"]%string).
Proof. reflexivity. Qed.

(** ** Properties of the library functions *)
Definition free (c : byte) (s : bytes) : Prop := Forall (λ b, b ≠ c) s.
Lemma split_on_app sep s t : free sep s -> split_on sep (s ++ sep :: t) = s :: split_on sep t.
Proof.
  induction 1 as [|b s Hb _ IH]; cbn [app split_on].
  - by rewrite bool_decide_eq_true_2.
  - by rewrite bool_decide_eq_false_2, IH by done.
Qed.
Lemma split_on_free sep s : free sep s -> split_on sep s = [s].
Proof. induction 1 as [|b s Hb _ IH]; [done|]. cbn [split_on]. by rewrite bool_decide_eq_false_2, IH by done. Qed.
Lemma split_on_join sep l : l ≠ [] -> Forall (free sep) l -> split_on sep (join_with [sep] l) = l.
Proof.
  intros Hne Hl. induction Hl as [|s l Hs Hl IH]; [done|]. destruct l as [|s2 l]; [by apply split_on_free|].
  change (join_with [sep] (s :: s2 :: l)) with (s ++ sep :: join_with [sep] (s2 :: l)).
  rewrite split_on_app by done. by rewrite IH.
Qed.

Lemma QueryUnescape_byte b s : QueryUnescape (escape_byte b ++ s) = (r ← QueryUnescape s; Ok (b :: r)).
Proof. by destruct b. Qed.
(** a string that was escaped for a query is unescaped to itself, and the escaped
    string holds none of the characters that a query is cut at. *)
Theorem QueryUnescape_Escape s :
  QueryUnescape (QueryEscape s) = Ok s /\
  Forall (λ c, free c (QueryEscape s)) [Byte.x26; Byte.x3b; Byte.x3d; Byte.x2c; Byte.x20].
Proof.
  split.
  - induction s as [|b s IH]; [done|]. unfold QueryEscape in *. cbn [map concat]. by rewrite QueryUnescape_byte, IH.
  - assert (forall c b, c ∈ [Byte.x26; Byte.x3b; Byte.x3d; Byte.x2c; Byte.x20] -> free c (escape_byte b)) as He.
    { intros c b. set_unfold. intros Hc. unfold free. destruct_or!; subst; destruct b; vm_compute; repeat constructor; done. }
    apply Forall_forall. intros c Hc. unfold free, QueryEscape. apply Forall_concat, Forall_forall.
    intros l (b & -> & _)%list_elem_of_fmap. by apply He.
Qed.
(** text that unescaping does not change *)
Definition plain (s : bytes) : Prop := Forall (λ b, b ≠ Byte.x25 /\ b ≠ Byte.x2b) s.
Lemma QueryUnescape_plain s : plain s -> QueryUnescape s = Ok s.
Proof.
  induction 1 as [|b s [H1 H2] _ IH]; [done|]. destruct b; try done; cbn [QueryUnescape]; by rewrite IH.
Qed.

Lemma of_digits_snoc s b : of_digits (s ++ [b]) = of_digits s * 10 + (b2z b - 48).
Proof. unfold of_digits. by rewrite foldl_app. Qed.
Lemma digit_val z : 0 <= z < 10 -> b2z (digit z) - 48 = z.
Proof. intros. unfold digit. rewrite b2z_z2b, Z.mod_small; lia. Qed.
Lemma digit_ok z : 0 <= z < 10 -> is_digit (digit z) = true.
Proof. intros. unfold is_digit. pose proof (digit_val z ltac:(done)). apply andb_true_iff. split; apply Z.leb_le; lia. Qed.
Lemma digits_facts fuel z : 0 <= z < 10 ^ Z.of_nat fuel -> (0 < fuel)%nat ->
  of_digits (digits_fuel fuel z) = z /\ Forall (λ b, is_digit b = true) (digits_fuel fuel z) /\ digits_fuel fuel z ≠ [].
Proof.
  revert z. induction fuel as [|fuel IH]; intros z Hz Hf; [lia|]. cbn [digits_fuel]. destruct (Z.ltb_spec z 10).
  - split_and!; [|apply Forall_singleton, digit_ok; lia|done]. cbn. rewrite digit_val; lia.
  - rewrite Nat2Z.inj_succ, Z.pow_succ_r in Hz by lia.
    pose proof (Z.div_mod z 10 ltac:(lia)). pose proof (Z.mod_pos_bound z 10 ltac:(lia)).
    destruct fuel as [|fuel]; [cbn in Hz; lia|].
    destruct (IH (z / 10)) as (E & Hd & Hn); [|lia|].
    { split; [apply Z.div_pos; lia|]. apply Z.div_lt_upper_bound; lia. }
    split_and!; [|apply Forall_app; split; [done|apply Forall_singleton, digit_ok; lia]|by destruct (digits_fuel _ _)].
    rewrite of_digits_snoc, E, digit_val; lia.
Qed.
Lemma digits_forallb s : Forall (λ b, is_digit b = true) s -> forallb is_digit s = true.
Proof. intros Hs. apply forallb_forall. rewrite Forall_forall in Hs. intros b Hb. apply Hs. by apply list_elem_of_In. Qed.
(** what the digits are not *)
Lemma digits_free c s : is_digit c = false -> Forall (λ b, is_digit b = true) s -> free c s.
Proof. intros Hc Hs. eapply Forall_impl; [exact Hs|]. intros b Hb ->. congruence. Qed.
Lemma Itoa_facts z : - 2 ^ 63 <= z < 2 ^ 63 ->
  Atoi (Itoa z) = z /\ forall c, is_digit c = false -> c ≠ Byte.x2d -> free c (Itoa z).
Proof.
  intros Hz. unfold Itoa. destruct (Z.ltb_spec z 0).
  - destruct (digits_facts 20 (- z)) as (E & Hd & Hn); [split; [lia|]; eapply Z.le_lt_trans with (2 ^ 63); [lia|done]|lia|].
    split; [|intros c Hc Hm; constructor; [done|by apply digits_free]].
    revert E Hd Hn. generalize (digits_fuel 20 (- z)) as ds. intros ds E Hd Hn.
    change (Atoi (lit "-" ++ ds)) with
      (if bool_decide (ds = []) || negb (forallb is_digit ds) then 0 else Z.max (- of_digits ds) (- 2 ^ 63)).
    rewrite bool_decide_eq_false_2, digits_forallb, E by done. cbn [negb orb]. lia.
  - destruct (digits_facts 20 z) as (E & Hd & Hn); [split; [lia|]; eapply Z.lt_trans with (2 ^ 63); [lia|done]|lia|].
    split; [|intros c Hc _; by apply digits_free].
    unfold Atoi. assert (match digits_fuel 20 z with
      | Byte.x2d :: s => (true, s) | Byte.x2b :: s => (false, s) | _ => (false, digits_fuel 20 z) end = (false, digits_fuel 20 z)) as ->.
    { destruct (digits_fuel 20 z) as [|b s]; [done|]. inversion Hd as [|? ? Hb _]; subst. by destruct b. }
    rewrite bool_decide_eq_false_2, digits_forallb, E by done. cbn [negb orb]. lia.
Qed.

(** ** What survives a link *)
(** the text of a CID (multibase base 32) has only letters and digits *)
Class CidText `{Multiformats} : Prop :=
  cid_unreserved c mh : Forall (λ b, unreserved b = true) (cid_String c mh).
Lemma unreserved_plain b : unreserved b = true ->
  b ≠ Byte.x25 /\ b ≠ Byte.x2b /\ b ≠ Byte.x26 /\ b ≠ Byte.x3b /\ b ≠ Byte.x3d.
Proof. by destruct b. Qed.

Definition link_value (e : ErasureInfo) : bytes := Itoa (ei_DataShards e) ++ lit "," ++ Itoa (ei_ParityShards e).
Definition linked_erasure (e : ErasureInfo) : option ErasureInfo :=
  if (0 <? ei_DataShards e) && (0 <? ei_ParityShards e)
  then Some (mkErasureInfo (ei_DataShards e) (ei_ParityShards e) [] []) else None.
Definition fits (e : ErasureInfo) : Prop :=
  - 2 ^ 63 <= ei_DataShards e < 2 ^ 63 /\ - 2 ^ 63 <= ei_ParityShards e < 2 ^ 63.
(** what [FromMagnetLink] makes of a link of [d] *)
Definition linked `{Multiformats} (now : Z) (d : Descriptor) : Descriptor :=
  mkDescriptor (d_RootMID d) 0 0 (unescape_again (d_Name d)) [] now [] 0 [] (d_Erasure d ≫= linked_erasure)
    (link_peers (join_with (lit ",") (d_BootstrapPeers d))) (unescape_again (d_MemNSName d)) [].

Section link_facts.
Context `{Multiformats} `{!MultiformatsLaws, !CidText}.

(** the characters the values of a link are free of *)
Definition value_ok (v : bytes) : Prop := free Byte.x26 v /\ free Byte.x3b v.
Definition keys : list bytes := [lit "x"; lit "dn"; lit "bs"; lit "ec"; lit "mn"].
Lemma parse_pair_key k v : k ∈ keys -> free Byte.x3b v ->
  parse_pair (k ++ lit "=" ++ v) = (v' ← QueryUnescape v; Ok (Some (k, v'))).
Proof.
  intros Hk Hv. assert (Byte.x3b ∉ k ++ lit "=" ++ v) as Hin.
  { intros Hin. rewrite app_assoc in Hin. apply elem_of_app in Hin as [Hin|Hin].
    - revert Hin. unfold keys in Hk; set_unfold in Hk. destruct_or!; subst; vm_compute; set_solver.
    - unfold free in Hv. rewrite Forall_forall in Hv. by apply (Hv Byte.x3b). }
  unfold parse_pair. rewrite bool_decide_eq_false_2 by done. unfold keys in Hk; set_unfold in Hk. by destruct_or!; subst.
Qed.
Lemma parse_escaped k s : k ∈ keys -> parse_pair (k ++ lit "=" ++ QueryEscape s) = Ok (Some (k, s)).
Proof.
  intros Hk. destruct (QueryUnescape_Escape s) as [E Hf]. rewrite parse_pair_key, E; [done|done|].
  rewrite Forall_forall in Hf. apply Hf. set_solver.
Qed.
Lemma parse_plain k v : k ∈ keys -> plain v -> free Byte.x3b v -> parse_pair (k ++ lit "=" ++ v) = Ok (Some (k, v)).
Proof. intros Hk Hp Hf. by rewrite parse_pair_key, QueryUnescape_plain. Qed.

Lemma mid_text m : wf_mid m -> plain (String m) /\ free Byte.x26 (String m) /\ free Byte.x3b (String m).
Proof.
  intros Hm. rewrite wf_String by done.
  assert (Forall (λ b, unreserved b = true) (Prefix ++ cid_String (codec m) (Hash m))) as Hu.
  { apply Forall_app. split; [by repeat constructor|apply cid_unreserved]. }
  split_and!; (eapply Forall_impl; [exact Hu|]); by intros b (? & ? & ? & ? & ?)%unreserved_plain.
Qed.
Lemma erasure_text e : fits e ->
  plain (link_value e) /\ free Byte.x26 (link_value e) /\ free Byte.x3b (link_value e) /\
  link_erasure (link_value e) = linked_erasure e.
Proof.
  intros [Hk Hm]. destruct (Itoa_facts _ Hk) as [Ek Fk], (Itoa_facts _ Hm) as [Em Fm].
  assert (forall c, is_digit c = false -> c ≠ Byte.x2d -> c ≠ Byte.x2c -> free c (link_value e)) as Hf.
  { intros c ? ? ?. unfold link_value, free. rewrite !Forall_app. split_and!; [by apply Fk| |by apply Fm].
    by repeat constructor. }
  split_and!; [|by apply Hf..|].
  - apply Forall_and. split; by apply Hf.
  - unfold link_erasure, link_value. change (lit "," ++ ?t) with (Byte.x2c :: t).
    rewrite split_on_app, split_on_free by (by first [apply Fk|apply Fm]). by rewrite Ek, Em.
Qed.

(** the pairs of a link *)
Definition link_pairs (d : Descriptor) : list (bytes * bytes) :=
  [(lit "x", lit "mem:" ++ String (d_RootMID d))]
  ++ (if bool_decide (d_Name d ≠ []) then [(lit "dn", d_Name d)] else [])
  ++ (if 0 <? zlen (d_BootstrapPeers d) then [(lit "bs", join_with (lit ",") (d_BootstrapPeers d))] else [])
  ++ match d_Erasure d with
     | Some e => if 0 <? ei_DataShards e then [(lit "ec", link_value e)] else []
     | None => []
     end
  ++ (if bool_decide (d_MemNSName d ≠ []) then [(lit "mn", d_MemNSName d)] else []).
Lemma parse_pairs_app l k ps : parse_pairs l = Ok ps -> parse_pairs (l ++ k) = (qs ← parse_pairs k; Ok (ps ++ qs)).
Proof.
  revert ps. induction l as [|p l IH]; intros ps; cbn [app parse_pairs].
  { intros [= <-]. by destruct (parse_pairs k). }
  destruct (parse_pair p) as [o|]; [|done]. cbn [mbind result_bind]. destruct (parse_pairs l) as [rest|]; [|done].
  intros [= <-]. rewrite (IH rest) by done. destruct (parse_pairs k); [|done]. cbn. by destruct o.
Qed.
Lemma parse_pairs_one part p : parse_pair part = Ok (Some p) -> parse_pairs [part] = Ok [p].
Proof. intros E. cbn [parse_pairs]. by rewrite E. Qed.

Lemma link_parts_free d : wf_mid (d_RootMID d) -> (forall e, d_Erasure d = Some e -> fits e) ->
  Forall (free Byte.x26) (link_parts d).
Proof.
  intros Hm He. assert (forall s, free Byte.x26 (QueryEscape s)) as Hq.
  { intros s. destruct (QueryUnescape_Escape s) as [_ Hf]. rewrite Forall_forall in Hf. apply Hf. set_solver. }
  assert (forall (k v : bytes), Forall (λ b, b ≠ Byte.x26) k -> free Byte.x26 v -> free Byte.x26 (k ++ v)) as Happ.
  { intros k v ? ?. by apply Forall_app. }
  unfold link_parts. rewrite !Forall_app. split_and!.
  - apply Forall_singleton, Happ; [by repeat constructor|]. by apply mid_text.
  - case_bool_decide; [apply Forall_singleton, Happ; [by repeat constructor|done]|constructor].
  - destruct (0 <? _); [apply Forall_singleton, Happ; [by repeat constructor|done]|constructor].
  - destruct (d_Erasure d) as [e|] eqn:E; [|constructor]. destruct (0 <? _); [|constructor].
    apply Forall_singleton, Happ; [by repeat constructor|]. by apply (erasure_text e), He.
  - case_bool_decide; [apply Forall_singleton, Happ; [by repeat constructor|done]|constructor].
Qed.
Lemma parse_link d : wf_mid (d_RootMID d) -> (forall e, d_Erasure d = Some e -> fits e) ->
  ParseQuery (join_with (lit "&") (link_parts d)) = Ok (link_pairs d).
Proof.
  intros Hm He. unfold ParseQuery. change (lit "&") with [Byte.x26].
  rewrite split_on_join; [|done|by apply link_parts_free]. unfold link_parts, link_pairs.
  rewrite (parse_pairs_app [_] _ [(lit "x", lit "mem:" ++ String (d_RootMID d))]).
  2: { apply parse_pairs_one. apply (parse_plain (lit "x") (lit "mem:" ++ String (d_RootMID d))); [unfold keys; set_solver|..].
       - apply Forall_app. split; [by repeat constructor|by apply mid_text].
       - apply Forall_app. split; [by repeat constructor|by apply mid_text]. }
  rewrite (parse_pairs_app _ _ (if bool_decide (d_Name d ≠ []) then [(lit "dn", d_Name d)] else [])).
  2: { case_bool_decide; [|done]. apply parse_pairs_one. apply (parse_escaped (lit "dn")). unfold keys; set_solver. }
  rewrite (parse_pairs_app _ _ (if 0 <? zlen (d_BootstrapPeers d) then [(lit "bs", join_with (lit ",") (d_BootstrapPeers d))] else [])).
  2: { destruct (0 <? _); [|done]. apply parse_pairs_one. apply (parse_escaped (lit "bs")). unfold keys; set_solver. }
  rewrite (parse_pairs_app _ _ (match d_Erasure d with
     | Some e => if 0 <? ei_DataShards e then [(lit "ec", link_value e)] else []
     | None => [] end)).
  2: { destruct (d_Erasure d) as [e|] eqn:E; [|done]. destruct (0 <? _); [|done].
       apply parse_pairs_one. destruct (erasure_text e) as (? & _ & ? & _); [by apply He|].
       by apply (parse_plain (lit "ec") (link_value e)); [unfold keys; set_solver|..]. }
  assert (parse_pairs (if bool_decide (d_MemNSName d ≠ []) then [lit "mn=" ++ QueryEscape (d_MemNSName d)] else []) =
    Ok (if bool_decide (d_MemNSName d ≠ []) then [(lit "mn", d_MemNSName d)] else [])) as ->.
  { case_bool_decide; [|done]. apply parse_pairs_one. apply (parse_escaped (lit "mn")). unfold keys; set_solver. }
  cbn [mbind result_bind]. done.
Qed.

Lemma get_pairs d :
  Values_Get (link_pairs d) (lit "x") = lit "mem:" ++ String (d_RootMID d) /\
  Values_Get (link_pairs d) (lit "dn") = d_Name d /\
  Values_Get (link_pairs d) (lit "bs") = join_with (lit ",") (d_BootstrapPeers d) /\
  Values_Get (link_pairs d) (lit "ec") =
    match d_Erasure d with Some e => if 0 <? ei_DataShards e then link_value e else [] | None => [] end /\
  Values_Get (link_pairs d) (lit "mn") = d_MemNSName d.
Proof.
  destruct d as [root tot cnt name mime at' ch csz bl er peers memns sig]. unfold link_pairs.
  cbn [d_RootMID d_Name d_BootstrapPeers d_Erasure d_MemNSName].
  assert (forall (v : bytes), bool_decide (v ≠ []) = match v with [] => false | _ => true end) as -> by by intros [].
  assert (forall (v : bytes), bool_decide (v ≠ []) = match v with [] => false | _ => true end) as -> by by intros [].
  destruct name, peers, memns, er as [e|]; try (destruct (0 <? ei_DataShards e)); split_and!; reflexivity.
Qed.
Lemma unescape_plain s : plain s -> unescape_again s = s.
Proof. intros Hs. unfold unescape_again. by rewrite QueryUnescape_plain. Qed.
Lemma join_free c (l : list bytes) : c ≠ Byte.x2c -> Forall (free c) l -> free c (join_with (lit ",") l).
Proof.
  intros Hc. induction 1 as [|s l Hs Hl IH]; [constructor|]. destruct l as [|s2 l]; [done|].
  change (join_with (lit ",") (s :: s2 :: l)) with (s ++ Byte.x2c :: join_with (lit ",") (s2 :: l)).
  apply Forall_app. split; [done|]. by constructor.
Qed.

(** the link of a descriptor is read as the descriptor with its root, its name and MemNS name
    and peers as they are after one more unescaping, and its erasure
    parameters when both are positive; in particular name, MemNS name and peers
    without percent and plus signs (and, for peers, commas) are kept. *)
Theorem FromMagnet_ToMagnet now d :
  wf_mid (d_RootMID d) -> (forall e, d_Erasure d = Some e -> fits e) ->
  FromMagnetLink now (ToMagnetLink d) = Ok (linked now d) /\
  (plain (d_Name d) -> d_Name (linked now d) = d_Name d) /\
  (plain (d_MemNSName d) -> d_MemNSName (linked now d) = d_MemNSName d) /\
  (Forall plain (d_BootstrapPeers d) -> Forall (free Byte.x2c) (d_BootstrapPeers d) -> d_BootstrapPeers d ≠ [[]] ->
   d_BootstrapPeers (linked now d) = d_BootstrapPeers d).
Proof.
  intros Hm He. split_and!; [|by apply unescape_plain..|].
  - unfold FromMagnetLink, ToMagnetLink. rewrite HasPrefix_app, drop_app_length, parse_link by done.
    cbn [negb wrap mbind result_bind]. destruct (get_pairs d) as (-> & -> & -> & -> & ->).
    rewrite bool_decide_eq_false_2 by done. rewrite TrimPrefix_app, Parse_wf_String by done.
    cbn [wrap mbind result_bind]. unfold linked. repeat f_equal. destruct (d_Erasure d) as [e|] eqn:E; [|done].
    cbn [mbind option_bind]. destruct (0 <? ei_DataShards e) eqn:Ek; [by apply (erasure_text e), He|].
    unfold linked_erasure. by rewrite Ek.
  - intros Hp Hc Hne. cbn [linked d_BootstrapPeers]. unfold link_peers.
    assert (plain (join_with (lit ",") (d_BootstrapPeers d))) as Hj.
    { apply Forall_and. split; apply join_free; try done; (eapply Forall_impl; [exact Hp|]); intros s Hs;
        (eapply Forall_impl; [exact Hs|]); by intros b []. }
    rewrite unescape_plain by done. case_bool_decide as Hj0.
    + destruct (d_BootstrapPeers d) as [|[|b s] [|s2 l]]; done.
    + apply split_on_join; [|done]. by intros E0; rewrite E0 in Hj0.
Qed.
End link_facts.

(** ** The properties at concrete inputs *)
Instance toy_cid_text : CidText.
Proof.
  intros c mh. cbn [cid_String toy]. unfold Toy.cstr. apply Forall_app. split; [by repeat constructor|].
  apply Forall_concat, Forall_forall. intros l (b & -> & _)%list_elem_of_fmap. by destruct b; repeat constructor.
Qed.
Definition link_demo (name : bytes) : Descriptor :=
  mkDescriptor (toy_mid CodecRaw (lit "a")) 1 1 name [] 0 [] 0 [] (Some (mkErasureInfo 4 2 [] []))
    [lit "/ip4/1.2.3.4/tcp/1"; lit "/dns4/x"] [] [].
Lemma FromMagnet_ToMagnet_witness :
  FromMagnetLink 5 (ToMagnetLink (link_demo (lit "a b&c"))) = Ok (linked 5 (link_demo (lit "a b&c"))) /\
  d_Name (linked 5 (link_demo (lit "a b&c"))) = lit "a b&c".
Proof.
  destruct (FromMagnet_ToMagnet 5 (link_demo (lit "a b&c"))) as (E & Hn & _).
  - apply toy_raw_wf.
  - intros e [= <-]. vm_compute. split; split; discriminate || reflexivity.
  - split; [exact E|]. apply Hn. vm_compute. repeat constructor; discriminate.
Defined.
(** A name with a plus sign comes back with a space, one with a lone percent sign is lost,
    and so are the parameters of a code without parity. *)
Lemma link_unescapes_twice :
  FromMagnetLink 0 (ToMagnetLink (link_demo (lit "a+b"))) = Ok (linked 0 (link_demo (lit "a b"))) /\
  d_Name (linked 0 (link_demo (lit "100%"))) = [].
Proof. split; [vm_compute; reflexivity|reflexivity]. Qed.
