(* ===== verification/Lru.v ===== *)
(** * Linked lists and LRU caches (src/gateway/memgate_v2/cache.go, dagreader.go)

    The gateway's caches are a map from keys to the entries of a doubly linked list, the most
    recently used first.  The heap of entries is explicit: a pointer is a number and an entry
    that is not on the list any more stays in the heap.  [lru] bounds the bytes, [blockListCache] the
    number of its entries, [shardedLRU] spreads the keys over several [lru]s.
    The reference is a plain list: [lru_refines], [blockList_refines].
    [sharded_bounded]: the shards hold at most the configured bytes together. *)
From S2P Require Import Prelude.

(** ** hash/fnv: FNV-1a, 64 bits *)
Definition fnv_offset : Z := 14695981039346656037.
Definition fnv_prime : Z := 1099511628211.
Definition fnv64a (s : bytes) : Z := foldl (λ h b, u64 (Z.lxor h (b2z b) * fnv_prime)) fnv_offset s.
Lemma fnv64a_bound s : 0 <= fnv64a s < 2 ^ 64.
Proof.
  unfold fnv64a. induction s as [|b s IH] using rev_ind; [done|]. rewrite foldl_app. apply u64_bound.
Qed.

(** ** The list *)
Section chain.
Context {V : Type}.
Record listEntry := mkEntry { le_key : bytes; le_data : V; le_prev : option nat; le_next : option nat }.
Record chain := mkChain {
  ch_heap : gmap nat listEntry;
  ch_items : gmap bytes nat;
  ch_head : option nat;
  ch_tail : option nat;
  ch_new : nat;
}.
Definition empty_chain : chain := mkChain ∅ ∅ None None 0.
Definition set_prev (q : option nat) (e : listEntry) : listEntry := mkEntry (le_key e) (le_data e) q (le_next e).
Definition set_next (q : option nat) (e : listEntry) : listEntry := mkEntry (le_key e) (le_data e) (le_prev e) q.
Definition with_heap (f : gmap nat listEntry -> gmap nat listEntry) (c : chain) : chain :=
  mkChain (f (ch_heap c)) (ch_items c) (ch_head c) (ch_tail c) (ch_new c).
Definition with_head (p : option nat) (c : chain) : chain :=
  mkChain (ch_heap c) (ch_items c) p (ch_tail c) (ch_new c).
Definition with_tail (p : option nat) (c : chain) : chain :=
  mkChain (ch_heap c) (ch_items c) (ch_head c) p (ch_new c).
Definition with_items (f : gmap bytes nat -> gmap bytes nat) (c : chain) : chain :=
  mkChain (ch_heap c) (f (ch_items c)) (ch_head c) (ch_tail c) (ch_new c).

Definition pushFront (p : nat) (c : chain) : chain :=
  let c := with_heap (alter (set_next (ch_head c) ∘ set_prev None) p) c in
  let c := match ch_head c with Some h => with_heap (alter (set_prev (Some p)) h) c | None => c end in
  let c := with_head (Some p) c in
  match ch_tail c with None => with_tail (Some p) c | Some _ => c end.
(** the entry is never nil where the code calls this *)
Definition remove (p : nat) (c : chain) : chain :=
  match ch_heap c !! p with
  | None => c
  | Some e =>
      let c := match le_prev e with
        | Some q => with_heap (alter (set_next (le_next e)) q) c
        | None => with_head (le_next e) c
        end in
      let c := match le_next e with
        | Some q => with_heap (alter (set_prev (le_prev e)) q) c
        | None => with_tail (le_prev e) c
        end in
      with_heap (alter (set_prev None ∘ set_next None) p) c
  end.
Definition moveToFront (p : nat) (c : chain) : chain :=
  if bool_decide (ch_head c = Some p) then c else pushFront p (remove p c).
(** [e := &listEntry{key, data}; items[key] = e; pushFront(e)] *)
Definition insert_new (key : bytes) (data : V) (c : chain) : chain :=
  let p := ch_new c in
  pushFront p (mkChain (<[p := mkEntry key data None None]> (ch_heap c)) (<[key := p]> (ch_items c))
                 (ch_head c) (ch_tail c) (S p)).
Definition set_data (p : nat) (data : V) (c : chain) : chain :=
  with_heap (alter (λ e, mkEntry (le_key e) data (le_prev e) (le_next e)) p) c.
(** [remove(old); delete(items, old.key)] *)
Definition drop_entry (p : nat) (c : chain) : chain :=
  match ch_heap c !! p with
  | None => c
  | Some e => with_items (delete (le_key e)) (remove p c)
  end.
End chain.
Arguments listEntry : clear implicits.
Arguments chain : clear implicits.

(** ** [lru]: bounded bytes *)
Record lru := mkLru { maxBytes : Z; curBytes : Z; lru_list : chain bytes }.
Definition newLRU (maxBytes : Z) : lru := mkLru maxBytes 0 empty_chain.
Definition lru_get (key : bytes) (l : lru) : option bytes * lru :=
  match ch_items (lru_list l) !! key with
  | None => (None, l)
  | Some p =>
      (le_data <$> ch_heap (lru_list l) !! p, mkLru (maxBytes l) (curBytes l) (moveToFront p (lru_list l)))
  end.
(** the loop takes one entry off the list each time *)
Fixpoint lru_evict (fuel : nat) (l : lru) : lru :=
  match fuel with
  | O => l
  | S fuel =>
      if maxBytes l <? curBytes l then
        match ch_tail (lru_list l) with
        | None => l
        | Some old =>
            let size := match ch_heap (lru_list l) !! old with Some e => zlen (le_data e) | None => 0 end in
            lru_evict fuel (mkLru (maxBytes l) (u64 (curBytes l - size)) (drop_entry old (lru_list l)))
        end
      else l
  end.
Definition lru_put (key : bytes) (data : bytes) (l : lru) : lru :=
  let c := lru_list l in
  let l := match ch_items c !! key with
    | Some p =>
        let size := match ch_heap c !! p with Some e => zlen (le_data e) | None => 0 end in
        mkLru (maxBytes l) (u64 (u64 (curBytes l - size) + zlen data)) (moveToFront p (set_data p data c))
    | None => mkLru (maxBytes l) (u64 (curBytes l + zlen data)) (insert_new key data c)
    end in
  lru_evict (S (size (ch_items (lru_list l)))) l.
Definition lru_len (l : lru) : Z := Z.of_nat (size (ch_items (lru_list l))).

(** ** [blockListCache]: bounded entries *)
Record blockListCache (V : Type) := mkBlockListCache { maxEntries : Z; bl_list : chain V }.
Arguments mkBlockListCache {V} _ _.
Arguments maxEntries {V} _.
Arguments bl_list {V} _.
Definition newBlockListCache {V} (maxEntries : Z) : blockListCache V :=
  mkBlockListCache (if maxEntries <? 1 then 1 else maxEntries) empty_chain.
Definition bl_get {V} (key : bytes) (c : blockListCache V) : option V * blockListCache V :=
  match ch_items (bl_list c) !! key with
  | None => (None, c)
  | Some p => (le_data <$> ch_heap (bl_list c) !! p, mkBlockListCache (maxEntries c) (moveToFront p (bl_list c)))
  end.
Fixpoint bl_evict {V} (fuel : nat) (c : blockListCache V) : blockListCache V :=
  match fuel with
  | O => c
  | S fuel =>
      if maxEntries c <? Z.of_nat (size (ch_items (bl_list c))) then
        match ch_tail (bl_list c) with
        | None => c
        | Some oldest => bl_evict fuel (mkBlockListCache (maxEntries c) (drop_entry oldest (bl_list c)))
        end
      else c
  end.
Definition bl_put {V} (key : bytes) (e : V) (c : blockListCache V) : blockListCache V :=
  let l := match ch_items (bl_list c) !! key with
    | Some p => moveToFront p (set_data p e (bl_list c))
    | None => insert_new key e (bl_list c)
    end in
  bl_evict (S (size (ch_items l))) (mkBlockListCache (maxEntries c) l).

(** ** [shardedLRU] *)
Definition defaultCacheShards : Z := 16.
Record shardedLRU := mkSharded { shards : list lru; mask : Z }.
(** [for n*2 <= bound { n *= 2 }] from [n], in 64 bits *)
Fixpoint round_down (fuel : nat) (n bound : Z) : Z :=
  match fuel with
  | O => n
  | S fuel => if i64 (n * 2) <=? bound then round_down fuel (i64 (n * 2)) bound else n
  end.
Definition shard_count (maxBytes shardCount : Z) : Z :=
  let shardCount := if shardCount <? 1 then 1 else shardCount in
  let n := round_down 64 1 shardCount in
  if (0 <? maxBytes) && (maxBytes <? n) then round_down 64 1 maxBytes else n.
Definition shard_caps (maxBytes n : Z) : list Z :=
  map (λ i, maxBytes / n + (if i <? maxBytes mod n then 1 else 0)) (seqZ 0 n).
Definition newShardedLRU (maxBytes shardCount : Z) : shardedLRU :=
  let n := shard_count maxBytes shardCount in
  mkSharded (map newLRU (shard_caps maxBytes n)) (n - 1).
Definition shard_index (key : bytes) (s : shardedLRU) : nat := Z.to_nat (Z.land (fnv64a key) (mask s)).
Definition sharded_get (key : bytes) (s : shardedLRU) : option bytes * shardedLRU :=
  let i := shard_index key s in
  match shards s !! i with
  | None => (None, s)
  | Some l => let '(r, l') := lru_get key l in (r, mkSharded (<[i := l']> (shards s)) (mask s))
  end.
Definition sharded_put (key data : bytes) (s : shardedLRU) : shardedLRU :=
  let i := shard_index key s in
  match shards s !! i with
  | None => s
  | Some l => mkSharded (<[i := lru_put key data l]> (shards s)) (mask s)
  end.
Definition sharded_len (s : shardedLRU) : Z := sumZ lru_len (shards s).
Definition sharded_bytes (s : shardedLRU) : Z := u64 (sumZ curBytes (shards s)).
Definition sharded_max (s : shardedLRU) : Z := u64 (sumZ maxBytes (shards s)).

(** [New] of memgate.go: the bytes of the cache, those of the largest item and the number of shards *)
Definition cache_config (maxCacheBytes maxCacheItemBytes : Z) : Z * Z * Z :=
  let maxCacheBytes := if maxCacheBytes =? 0 then 64 * 1024 * 1024 else maxCacheBytes in
  let item := if maxCacheItemBytes =? 0 then 8 * 1024 * 1024 else maxCacheItemBytes in
  let item := if maxCacheBytes <? item then maxCacheBytes else item in
  let shardCount :=
    if 0 <? item then
      let maxShards := i64 (maxCacheBytes / item) in
      let maxShards := if maxShards <? 1 then 1 else maxShards in
      if maxShards <? defaultCacheShards then maxShards else defaultCacheShards
    else defaultCacheShards in
  (maxCacheBytes, item, shardCount).

(** ** The reference: a list of keys and values, the most recently used first *)
Section model.
Context {V : Type} (w : V -> Z).
Definition find_key (k : bytes) (l : list (bytes * V)) : option V :=
  snd ∘ snd <$> list_find (λ e : bytes * V, e.1 = k) l.
Definition to_front (k : bytes) (v : V) (l : list (bytes * V)) : list (bytes * V) := (k, v) :: filter (λ e : bytes * V, e.1 ≠ k) l.
(** the longest prefix of at most [b] *)
Fixpoint keep (b : Z) (l : list (bytes * V)) : list (bytes * V) :=
  match l with
  | [] => []
  | e :: l => if w e.2 <=? b then e :: keep (b - w e.2) l else []
  end.
Definition model_get (k : bytes) (l : list (bytes * V)) : option V * list (bytes * V) :=
  match find_key k l with Some v => (Some v, to_front k v l) | None => (None, l) end.
Definition model_put (max : Z) (k : bytes) (v : V) (l : list (bytes * V)) : list (bytes * V) := keep max (to_front k v l).
Definition weight (l : list (bytes * V)) : Z := sumZ (λ e, w e.2) l.
End model.


(** ** The list is linked *)
Section chain_facts.
Context {V : Type}.
Implicit Types (c : chain V) (ps : list nat).

(** the key and value behind a pointer *)
Definition kv c (p : nat) : option (bytes * V) := (λ e, (le_key e, le_data e)) <$> ch_heap c !! p.
Definition prev_at ps (i : nat) : option nat := match i with O => None | S j => ps !! j end.
(** the pointers [ps] are the list, from the head to the tail *)
Record linked c ps : Prop := {
  lk_nodup : NoDup ps;
  lk_head : ch_head c = ps !! 0%nat;
  lk_tail : ch_tail c = last ps;
  lk_node i p : ps !! i = Some p ->
    exists k v, ch_heap c !! p = Some (mkEntry k v (prev_at ps i) (ps !! S i));
  lk_new p : p ∈ ps -> (p < ch_new c)%nat;
}.
(** what a list operation leaves alone *)
Record same_entries c c' : Prop := {
  se_kv p : kv c' p = kv c p;
  se_items : ch_items c' = ch_items c;
  se_new : ch_new c' = ch_new c;
}.
#[export] Instance same_entries_preorder : PreOrder same_entries.
Proof. split; [by split|]. intros c1 c2 c3 [A1 B1 C1] [A2 B2 C2]. split; [intros; by rewrite A2|congruence..]. Qed.

Lemma linked_heap c ps i p e : linked c ps -> ps !! i = Some p -> ch_heap c !! p = Some e ->
  le_prev e = prev_at ps i /\ le_next e = ps !! S i.
Proof. intros Hl Hi He. destruct (lk_node _ _ Hl i p Hi) as (k & v & E). rewrite He in E. by injection E as ->. Qed.
Lemma prev_at_Some ps i q : prev_at ps i = Some q -> exists j, i = S j /\ ps !! j = Some q.
Proof. destruct i as [|j]; [done|]. by exists j. Qed.

(** an entry of the heap after the entries before and after [p] were relinked *)
Definition relink (prev next : option nat) (q : nat) (e : listEntry V) : listEntry V :=
  let e := if bool_decide (prev = Some q) then set_next next e else e in
  if bool_decide (next = Some q) then set_prev prev e else e.
Lemma remove_heap c p q e : ch_heap c !! p = Some e -> q ≠ p ->
  ch_heap (remove p c) !! q = relink (le_prev e) (le_next e) q <$> ch_heap c !! q.
Proof.
  intros He Hq. unfold remove. rewrite He. cbn [with_heap ch_heap]. rewrite lookup_alter_ne by done.
  unfold relink. destruct (le_prev e) as [a|], (le_next e) as [b|]; cbn [with_heap with_head with_tail ch_heap];
    rewrite ?lookup_alter; destruct (ch_heap c !! q) as [e'|] eqn:Eq;
    repeat case_decide; simplify_eq/=; rewrite ?Eq; cbn; try done; repeat case_bool_decide; simplify_eq/=; done.
Qed.
Lemma remove_kv c p q : kv (remove p c) q = kv c q.
Proof.
  unfold kv. destruct (ch_heap c !! p) as [e|] eqn:He; [|by unfold remove; rewrite He].
  destruct (decide (q = p)) as [->|Hq].
  - unfold remove. rewrite He. cbn [with_heap ch_heap]. rewrite lookup_alter_eq.
    destruct (le_prev e), (le_next e); cbn [with_heap with_head with_tail ch_heap];
      rewrite ?lookup_alter; repeat case_decide; subst; by rewrite He.
  - rewrite (remove_heap c p q e) by done. destruct (ch_heap c !! q); [|done]. cbn. unfold relink.
    by repeat case_bool_decide.
Qed.
Lemma remove_rest c p : ch_items (remove p c) = ch_items c /\ ch_new (remove p c) = ch_new c.
Proof. unfold remove. destruct (ch_heap c !! p) as [e|]; [|done]. by destruct (le_prev e), (le_next e). Qed.
Lemma remove_same c p : same_entries c (remove p c).
Proof. split; [apply remove_kv|apply remove_rest..]. Qed.

Lemma last_delete ps i p : ps !! i = Some p ->
  last (delete i ps) = match ps !! S i with Some _ => last ps | None => prev_at ps i end.
Proof.
  intros Hi. pose proof (lookup_lt_Some _ _ _ Hi) as Hlt.
  assert (length (delete i ps) = pred (length ps)) as Hlen by (rewrite length_delete by done; lia).
  rewrite !last_lookup, Hlen. destruct (ps !! S i) as [q|] eqn:E.
  - pose proof (lookup_lt_Some _ _ _ E). rewrite list_lookup_delete_ge by lia. f_equal. lia.
  - apply lookup_ge_None in E. assert (i = pred (length ps)) as -> by lia.
    destruct (length ps) as [|[|n]] eqn:El; [lia| |]; cbn [Nat.pred prev_at].
    + apply lookup_ge_None. cbn [Nat.pred] in *. rewrite Hlen. lia.
    + by rewrite list_lookup_delete_lt by lia.
Qed.
Lemma remove_linked c ps i p : linked c ps -> ps !! i = Some p -> linked (remove p c) (delete i ps).
Proof.
  intros Hl Hi. destruct (lk_node _ _ Hl i p Hi) as (k & v & He). pose proof (lk_nodup _ _ Hl) as Hnd.
  assert (forall j q, delete i ps !! j = Some q -> exists j', ps !! j' = Some q /\ j' ≠ i /\ j' = if decide (j < i)%nat then j else S j) as Hj.
  { intros j q. rewrite list_lookup_delete. intros Hq. exists (if decide (j < i)%nat then j else S j).
    destruct (decide (j < i)%nat); split_and!; [done|lia|done|done|lia|done]. }
  split.
  - eapply sublist_NoDup; [exact Hnd|apply sublist_delete].
  - unfold remove. rewrite He. cbn [le_prev le_next]. rewrite list_lookup_delete.
    destruct i as [|i]; cbn [prev_at].
    + rewrite decide_False by lia. by destruct (ps !! 1%nat).
    + rewrite decide_True by lia. destruct (ps !! i) eqn:Ei; [|exfalso; apply lookup_ge_None in Ei; apply lookup_lt_Some in Hi; lia].
      destruct (ps !! S (S i)); apply (lk_head _ _ Hl).
  - rewrite (last_delete ps i p Hi). unfold remove. rewrite He. cbn [le_prev le_next].
    destruct (prev_at ps i), (ps !! S i); cbn [with_heap with_head with_tail ch_tail]; try done; apply (lk_tail _ _ Hl).
  - intros j q Hq. destruct (Hj j q Hq) as (j' & Hj' & Hne & Ej).
    destruct (lk_node _ _ Hl j' q Hj') as (k' & v' & He').
    assert (q ≠ p) as Hqp by (intros ->; apply Hne; by eapply NoDup_lookup).
    exists k', v'. rewrite (remove_heap c p q _ He Hqp), He'. cbn [fmap option_fmap option_map le_prev le_next]. f_equal.
    assert (bool_decide (prev_at ps i = Some q) = bool_decide (i = S j')) as Ep.
    { apply bool_decide_ext. split; [|by intros ->].
      intros (a & -> & Ha)%prev_at_Some. f_equal. by eapply NoDup_lookup. }
    assert (bool_decide (ps !! S i = Some q) = bool_decide (j' = S i)) as En.
    { apply bool_decide_ext. split; [|by intros <-]. intros Ha. by eapply NoDup_lookup. }
    unfold relink. rewrite Ep, En. rewrite !list_lookup_delete.
    assert (prev_at (delete i ps) j = if decide (j' = S i) then prev_at ps i else prev_at ps j') as ->.
    { destruct j as [|j]; cbn [prev_at].
      - destruct (decide (0 < i)%nat); subst j'; [by rewrite decide_False by lia|]. destruct i as [|i]; [done|lia].
      - rewrite list_lookup_delete. destruct (decide (S j < i)%nat); subst j'; [by rewrite decide_True, decide_False by lia|].
        destruct (decide (j < i)%nat).
        + rewrite decide_True by lia. assert (i = S j) as -> by lia. done.
        + rewrite decide_False by lia. done. }
    assert (ps !! (if decide (S j < i)%nat then S j else S (S j)) = if decide (i = S j') then ps !! S i else ps !! S j') as ->.
    { destruct (decide (j < i)%nat); subst j'.
      - destruct (decide (S j < i)%nat); [by rewrite decide_False by lia|]. rewrite decide_True by lia. f_equal. lia.
      - rewrite !decide_False by lia. done. }
    repeat case_bool_decide; repeat case_decide; try lia; done.
  - intros q Hq. destruct (remove_rest c p) as [_ ->]. apply (lk_new _ _ Hl). by eapply list_subseteq_delete.
Qed.

Lemma pushFront_fields c p :
  ch_heap (pushFront p c) =
    match ch_head c with Some h => alter (set_prev (Some p)) h | None => id end
      (alter (set_next (ch_head c) ∘ set_prev None) p (ch_heap c)) /\
  ch_head (pushFront p c) = Some p /\
  ch_tail (pushFront p c) = match ch_tail c with None => Some p | Some t => Some t end /\
  ch_items (pushFront p c) = ch_items c /\ ch_new (pushFront p c) = ch_new c.
Proof. by destruct c as [hp it [h|] [t|] nw]. Qed.
Lemma pushFront_heap c p q : ch_head c ≠ Some p ->
  ch_heap (pushFront p c) !! q =
    (if decide (q = p) then set_next (ch_head c) ∘ set_prev None
     else if decide (ch_head c = Some q) then set_prev (Some p) else id) <$> ch_heap c !! q.
Proof.
  intros Hp. destruct (pushFront_fields c p) as (-> & _). destruct (ch_head c) as [h|]; rewrite ?lookup_alter;
    cbn [id]; rewrite ?lookup_alter; destruct (ch_heap c !! q) eqn:Eq; repeat case_decide; simplify_eq/=; by rewrite ?Eq.
Qed.
Lemma pushFront_same c p : ch_head c ≠ Some p -> same_entries c (pushFront p c).
Proof.
  intros Hp. destruct (pushFront_fields c p) as (_ & _ & _ & ? & ?). split; [|done..].
  intros q. unfold kv. rewrite pushFront_heap by done. destruct (ch_heap c !! q); [|done]. by repeat case_decide.
Qed.
Lemma pushFront_linked c ps p : linked c ps -> p ∉ ps -> is_Some (ch_heap c !! p) -> (p < ch_new c)%nat ->
  linked (pushFront p c) (p :: ps).
Proof.
  intros Hl Hp [e He] Hnew. destruct (pushFront_fields c p) as (_ & Eh & Et & _ & En). pose proof (lk_head _ _ Hl) as Hh.
  assert (ch_head c ≠ Some p) as Hhp.
  { rewrite Hh. intros E. apply Hp. by eapply list_elem_of_lookup_2. }
  split.
  - constructor; [done|apply Hl].
  - by rewrite Eh.
  - rewrite Et, (lk_tail _ _ Hl). destruct ps as [|p2 ps]; [done|]. rewrite last_cons_cons.
    by destruct (last (p2 :: ps)) eqn:E; [|apply last_None in E].
  - intros j q Hq. rewrite pushFront_heap by done. destruct j as [|j].
    + injection Hq as <-. rewrite decide_True, He by done. exists (le_key e), (le_data e). cbn. by rewrite Hh.
    + cbn in Hq. rewrite decide_False by (intros ->; apply Hp; by eapply list_elem_of_lookup_2).
      destruct (lk_node _ _ Hl j q Hq) as (k & v & ->). exists k, v. rewrite Hh.
      destruct (decide (ps !! 0%nat = Some q)) as [E|E].
      * assert (j = 0%nat) as -> by (eapply NoDup_lookup; [apply Hl|done..]). done.
      * by destruct j as [|j].
  - intros q [->|Hq]%elem_of_cons; rewrite En; [done|by apply Hl].
Qed.
Lemma moveToFront_linked c ps i p : linked c ps -> ps !! i = Some p ->
  linked (moveToFront p c) (p :: delete i ps) /\ same_entries c (moveToFront p c).
Proof.
  intros Hl Hi. unfold moveToFront. pose proof (lk_head _ _ Hl) as Hh. case_bool_decide as Hd.
  - rewrite Hh in Hd. assert (i = 0%nat) as -> by (eapply NoDup_lookup; [apply Hl|done..]).
    destruct ps as [|p' ps]; [done|]. injection Hi as ->. by split.
  - destruct (lk_node _ _ Hl i p Hi) as (k & v & He).
    assert (is_Some (ch_heap (remove p c) !! p)) as Hs.
    { pose proof (remove_kv c p p) as E. unfold kv in E. rewrite He in E. by destruct (ch_heap (remove p c) !! p). }
    split.
    + apply pushFront_linked; [by eapply remove_linked| |done|].
      * pose proof (lk_nodup _ _ Hl) as Hnd. apply delete_Permutation in Hi. rewrite Hi in Hnd. by apply NoDup_cons in Hnd as [? _].
      * rewrite (proj2 (remove_rest c p)). apply (lk_new _ _ Hl). by eapply list_elem_of_lookup_2.
    + etrans; [apply remove_same|]. apply pushFront_same. rewrite (lk_head _ _ (remove_linked _ _ _ _ Hl Hi)).
      intros E. apply list_elem_of_lookup_2 in E. pose proof (lk_nodup _ _ Hl) as Hnd. apply delete_Permutation in Hi.
      rewrite Hi in Hnd. by apply NoDup_cons in Hnd as [? _].
Qed.
Lemma set_data_linked c ps p v : linked c ps -> linked (set_data p v c) ps.
Proof.
  intros [Hnd Hh Ht Hn Hw]. split; try done. intros i q Hq. destruct (Hn i q Hq) as (k & v' & E).
  cbn [set_data with_heap ch_heap]. rewrite lookup_alter. case_decide; subst; rewrite E; cbn; by eexists _, _.
Qed.

(** the entries [l] are what is on the list *)
Record models_by c ps (l : list (bytes * V)) : Prop := {
  mo_linked : linked c ps;
  mo_kv : Forall2 (λ p e, kv c p = Some e) ps l;
  mo_items k p : ch_items c !! k = Some p <-> p ∈ ps /\ fst <$> kv c p = Some k;
}.
Definition models c l : Prop := exists ps, models_by c ps l.

Lemma models_empty : models (empty_chain (V := V)) [].
Proof.
  exists []. split; [split|constructor|].
  - apply NoDup_nil_2.
  - done.
  - done.
  - by intros [].
  - by intros p Hp%elem_of_nil.
  - intros k p. split; [by intros Hk; cbn in Hk; rewrite lookup_empty in Hk|]. by intros [Hp%elem_of_nil _].
Qed.

Lemma models_key c ps l k p : models_by c ps l -> ch_items c !! k = Some p ->
  exists i v, ps !! i = Some p /\ l !! i = Some (k, v) /\ kv c p = Some (k, v).
Proof.
  intros Hm (Hp & Hk)%(mo_items _ _ _ Hm). apply list_elem_of_lookup in Hp as [i Hi].
  destruct (Forall2_lookup_l _ _ _ _ _ (mo_kv _ _ _ Hm) Hi) as ([k' v] & Hl & E).
  rewrite E in Hk. injection Hk as ->. by exists i, v.
Qed.
Lemma models_nodup c ps l : models_by c ps l -> NoDup (map fst l).
Proof.
  intros Hm. apply NoDup_alt. intros i j k Hi Hj.
  change (map fst l) with (fst <$> l) in *.
  apply list_lookup_fmap_Some in Hi as ([k1 v1] & E1 & Ei), Hj as ([k2 v2] & E2 & Ej). cbn in E1, E2. subst k1 k2.
  destruct (Forall2_lookup_r _ _ _ _ _ (mo_kv _ _ _ Hm) Ei) as (p & Hp & Ep).
  destruct (Forall2_lookup_r _ _ _ _ _ (mo_kv _ _ _ Hm) Ej) as (q & Hq & Eq).
  assert (ch_items c !! k = Some p) as A by (apply (mo_items _ _ _ Hm); split; [by eapply list_elem_of_lookup_2|by rewrite Ep]).
  assert (ch_items c !! k = Some q) as B by (apply (mo_items _ _ _ Hm); split; [by eapply list_elem_of_lookup_2|by rewrite Eq]).
  assert (p = q) as <- by congruence. eapply NoDup_lookup; [apply (mo_linked _ _ _ Hm)|done..].
Qed.
Lemma models_absent c ps l k : models_by c ps l -> ch_items c !! k = None -> k ∉ map fst l.
Proof.
  intros Hm Hk ([k' v] & -> & Hin)%list_elem_of_fmap. apply list_elem_of_lookup in Hin as [i Hi].
  destruct (Forall2_lookup_r _ _ _ _ _ (mo_kv _ _ _ Hm) Hi) as (p & Hp & Ep).
  assert (ch_items c !! k' = Some p) as A by (apply (mo_items _ _ _ Hm); split; [by eapply list_elem_of_lookup_2|by rewrite Ep]).
  cbn in *. congruence.
Qed.
Lemma models_size c ps l : models_by c ps l -> size (ch_items c) = length l.
Proof.
  intros Hm. rewrite <-(length_map fst l), <-size_dom. rewrite <-(size_list_to_set (C := gset bytes)) by by eapply models_nodup.
  f_equal. apply set_eq. intros k. rewrite elem_of_dom, elem_of_list_to_set. split.
  - intros [p (i & v & _ & Hl & _)%(models_key _ _ _ _ _ Hm)]. apply list_elem_of_fmap. exists (k, v). split; [done|].
    by eapply list_elem_of_lookup_2.
  - intros Hin. destruct (ch_items c !! k) as [p|] eqn:E; [by exists p|]. by apply (models_absent _ _ _ _ Hm) in E.
Qed.

Lemma find_key_at (l : list (bytes * V)) i k v : NoDup (map fst l) -> l !! i = Some (k, v) ->
  find_key k l = Some v /\ filter (λ e : bytes * V, e.1 ≠ k) l = delete i l.
Proof.
  intros Hnd Hi. split.
  - unfold find_key. assert (list_find (λ e : bytes * V, e.1 = k) l = Some (i, (k, v))) as ->; [|done].
    apply list_find_Some. split_and!; [done|done|]. intros j [k' v'] Hj Hlt E. cbn in E. subst k'.
    assert (i = j); [|lia]. eapply (NoDup_lookup (fst <$> l)); [exact Hnd|apply list_lookup_fmap_Some..];
      (eexists (k, _); split; [|eassumption]; reflexivity).
  - revert i Hi. induction l as [|[k' v'] l IH]; intros i Hi; [done|]. apply NoDup_cons in Hnd as [Hk Hnd].
    rewrite filter_cons. destruct i as [|i]; simpl in Hi.
    + injection Hi as -> ->. rewrite decide_False by auto. simpl. clear -Hk. induction l as [|[k1 v1] l IH]; [done|].
      cbn in Hk. apply not_elem_of_cons in Hk as [? ?]. rewrite filter_cons, decide_True by (cbn; congruence). f_equal. by apply IH.
    + rewrite decide_True; [simpl; by rewrite (IH Hnd i Hi)|]. cbn. intros ->. apply Hk, list_elem_of_fmap.
      exists (k, v). split; [done|]. by eapply list_elem_of_lookup_2.
Qed.
Lemma find_key_none (l : list (bytes * V)) k : k ∉ map fst l ->
  find_key k l = None /\ filter (λ e : bytes * V, e.1 ≠ k) l = l.
Proof.
  intros Hk. split.
  - unfold find_key. destruct (list_find _ l) as [[i e]|] eqn:E; [|done]. exfalso. apply list_find_Some in E as (Hi & <- & _).
    apply Hk, list_elem_of_fmap. exists e. split; [done|by eapply list_elem_of_lookup_2].
  - induction l as [|[k1 v1] l IH]; [done|]. cbn in Hk. apply not_elem_of_cons in Hk as [? ?].
    rewrite filter_cons, decide_True by (cbn; congruence). f_equal. by apply IH.
Qed.

(** the entry of a key, with a new value or the old one, moved to the front *)
Lemma moved_models c c' ps l k p v : models_by c ps l -> ch_items c !! k = Some p ->
  linked c' ps -> ch_items c' = ch_items c -> (forall q, kv c' q = if decide (q = p) then Some (k, v) else kv c q) ->
  models (moveToFront p c') (to_front k v l).
Proof.
  intros Hm Hk Hl' Hit Hkv. destruct (models_key _ _ _ _ _ Hm Hk) as (i & v0 & Hi & Hli & Ekv).
  destruct (moveToFront_linked c' ps i p Hl' Hi) as [Hl2 [Skv Sit _]]. exists (p :: delete i ps). split; [done| |].
  - unfold to_front. rewrite (proj2 (find_key_at l i k v0 (models_nodup _ _ _ Hm) Hli)). constructor.
    + by rewrite Skv, Hkv, decide_True.
    + assert (Forall2 (λ q e, kv c q = Some e) (delete i ps) (delete i l)) as HF by (apply Forall2_delete, Hm).
      pose proof (lk_nodup _ _ Hl2) as [Hnin _]%NoDup_cons. eapply Forall2_impl_in; [|exact HF].
      intros q e Hq E. rewrite Skv, Hkv, decide_False; [done|]. by intros ->.
  - intros k' q. rewrite Sit, Hit, (mo_items _ _ _ Hm), Skv, Hkv, <-(delete_Permutation ps i p Hi).
    destruct (decide (q = p)) as [->|]; [|done]. by rewrite Ekv.
Qed.
Lemma get_models c l k p : models c l -> ch_items c !! k = Some p ->
  exists v, find_key k l = Some v /\ le_data <$> ch_heap c !! p = Some v /\ models (moveToFront p c) (to_front k v l).
Proof.
  intros [ps Hm] Hk. destruct (models_key _ _ _ _ _ Hm Hk) as (i & v & Hi & Hli & Ekv). exists v. split_and!.
  - by apply (find_key_at l i k v (models_nodup _ _ _ Hm)).
  - unfold kv in Ekv. destruct (ch_heap c !! p); [|done]. cbn in *. congruence.
  - eapply moved_models; [done..|apply Hm|done|]. intros q. by destruct (decide (q = p)) as [->|].
Qed.
Lemma set_models c l k p v : models c l -> ch_items c !! k = Some p ->
  models (moveToFront p (set_data p v c)) (to_front k v l).
Proof.
  intros [ps Hm] Hk. destruct (models_key _ _ _ _ _ Hm Hk) as (i & v0 & Hi & Hli & Ekv).
  eapply moved_models; [done..|apply set_data_linked, Hm|done|]. intros q. unfold kv in *. cbn [set_data with_heap ch_heap].
  rewrite lookup_alter. destruct (decide (q = p)) as [->|].
  - rewrite decide_True by done. destruct (ch_heap c !! p); [|done]. cbn in *. by simplify_eq.
  - by rewrite decide_False by congruence.
Qed.
Lemma insert_models c l k v : models c l -> ch_items c !! k = None -> models (insert_new k v c) (to_front k v l).
Proof.
  intros [ps Hm] Hk. pose proof (mo_linked _ _ _ Hm) as Hl. unfold to_front.
  rewrite (proj2 (find_key_none l k (models_absent _ _ _ _ Hm Hk))).
  assert (ch_new c ∉ ps) as Hn by (intros Hin%(lk_new _ _ Hl); lia).
  set (c1 := mkChain (<[ch_new c := mkEntry k v None None]> (ch_heap c)) (<[k := ch_new c]> (ch_items c)) (ch_head c) (ch_tail c) (S (ch_new c))).
  assert (linked c1 ps) as Hl1.
  { destruct Hl as [Hnd Hh Ht Hno Hw]. split; [done..| |].
    - intros i p Hi. destruct (Hno i p Hi) as (k' & v' & E). exists k', v'. cbn [c1 ch_heap].
      rewrite lookup_insert_ne; [done|]. intros <-. apply Hn. by eapply list_elem_of_lookup_2.
    - intros p Hp%Hw. cbn. lia. }
  assert (forall q, kv c1 q = if decide (q = ch_new c) then Some (k, v) else kv c q) as Hkv.
  { intros q. unfold kv, c1. cbn [ch_heap]. destruct (decide (q = ch_new c)) as [->|]; [by rewrite lookup_insert_eq|].
    by rewrite lookup_insert_ne. }
  assert (ch_head c1 ≠ Some (ch_new c)) as Hh.
  { cbn. rewrite (lk_head _ _ Hl). intros E. apply Hn. by eapply list_elem_of_lookup_2. }
  destruct (pushFront_same c1 (ch_new c) Hh) as [Skv Sit _]. exists (ch_new c :: ps). split.
  - apply (pushFront_linked c1); [done|done|cbn; rewrite lookup_insert_eq; by eexists|cbn; lia].
  - constructor; [unfold insert_new; fold c1; by rewrite Skv, Hkv, decide_True|].
    eapply Forall2_impl_in; [|apply Hm]. intros q e Hq E. unfold insert_new. fold c1.
    rewrite Skv, Hkv, decide_False; [done|]. by intros ->.
  - intros k' q. unfold insert_new. fold c1. rewrite Skv, Hkv, Sit. cbn [c1 ch_items]. rewrite elem_of_cons.
    destruct (decide (k' = k)) as [->|Hkk].
    + rewrite lookup_insert_eq. destruct (decide (q = ch_new c)) as [->|]; [split; [by auto|done]|].
      split; [by intros [= <-]|]. intros [[?|Hin] E]; [done|].
      assert (ch_items c !! k = Some q) by (by apply (mo_items _ _ _ Hm)). congruence.
    + rewrite lookup_insert_ne by done. rewrite (mo_items _ _ _ Hm). destruct (decide (q = ch_new c)) as [->|].
      * split; [by intros [? _]|]. intros [_ [= <-]]. done.
      * naive_solver.
Qed.
Lemma drop_models c l k v : models c (l ++ [(k, v)]) ->
  exists p e, ch_tail c = Some p /\ ch_heap c !! p = Some e /\ le_data e = v /\ models (drop_entry p c) l.
Proof.
  intros [ps Hm]. pose proof (mo_kv _ _ _ Hm) as HF. apply Forall2_app_inv_r in HF as (ps1 & ps2 & HF & H2 & ->).
  inversion H2 as [|p ? ps3 ? Ekv H3]; subst. inversion H3; subst. clear H2 H3.
  pose proof (mo_linked _ _ _ Hm) as Hl. pose proof (lk_nodup _ _ Hl) as Hnd. apply NoDup_app in Hnd as (_ & Hni & _).
  assert (p ∉ ps1) as Hp by (intros Hin; apply (Hni p Hin); set_solver).
  unfold kv in Ekv. destruct (ch_heap c !! p) as [e|] eqn:He; [|done]. injection Ekv as Ek Ev.
  exists p, e. split_and!; [by rewrite (lk_tail _ _ Hl), last_snoc|done|done|].
  exists ps1. unfold drop_entry. rewrite He.
  assert ((ps1 ++ [p]) !! length ps1 = Some p) as Hi by (by apply list_lookup_middle).
  pose proof (remove_linked c _ _ p Hl Hi) as Hl'. rewrite delete_middle, app_nil_r in Hl'.
  split.
  - destruct Hl' as [? ? ? Hn Hw]. split; done.
  - eapply Forall2_impl; [exact HF|]. intros q e' E. unfold kv. cbn [with_items ch_heap]. fold (kv (remove p c) q).
    by rewrite remove_kv.
  - intros k' q. cbn [with_items ch_items]. unfold kv. cbn [with_items ch_heap]. fold (kv (remove p c) q).
    rewrite remove_kv, (proj1 (remove_rest c p)), Ek.
    assert (ch_items c !! k = Some p) as Hkp.
    { apply (mo_items _ _ _ Hm). split; [set_solver|]. unfold kv. rewrite He. cbn. by rewrite Ek. }
    destruct (decide (k' = k)) as [->|Hne].
    + rewrite lookup_delete_eq. split; [done|]. intros [Hq E].
      assert (ch_items c !! k = Some q) by (apply (mo_items _ _ _ Hm); split; [set_solver|done]). congruence.
    + rewrite lookup_delete_ne, (mo_items _ _ _ Hm), elem_of_app, list_elem_of_singleton by done. split; [|by intros [? ?]; split; [left|]].
      intros [[?| ->] E]; [done|]. unfold kv in E. rewrite He in E. cbn in E. congruence.
Qed.
Lemma models_nil_tail c : models c [] -> ch_tail c = None.
Proof. intros [ps Hm]. pose proof (mo_kv _ _ _ Hm) as ->%Forall2_nil_inv_r. exact (lk_tail _ _ (mo_linked _ _ _ Hm)). Qed.
Lemma models_find c l k : models c l -> ch_items c !! k = None -> find_key k l = None.
Proof. intros [ps Hm] Hk. by apply find_key_none, (models_absent _ _ _ _ Hm). Qed.
Lemma models_len c l : models c l -> size (ch_items c) = length l.
Proof. intros [ps Hm]. by eapply models_size. Qed.
Lemma models_keys c l : models c l -> NoDup (map fst l).
Proof. intros [ps Hm]. by eapply models_nodup. Qed.
End chain_facts.

(** ** The reference list *)
Section model_facts.
Context {V : Type} (w : V -> Z) (w_nonneg : forall v, 0 <= w v).
Implicit Types l : list (bytes * V).
Lemma weight_cons e l : weight w (e :: l) = w e.2 + weight w l.
Proof. done. Qed.
Lemma weight_nonneg l : 0 <= weight w l.
Proof using w_nonneg. apply sumZ_nonneg. intros. apply w_nonneg. Qed.
Lemma keep_all b l : weight w l <= b -> keep w b l = l.
Proof using w_nonneg.
  revert b. induction l as [|e l IH]; intros b Hb; [done|]. rewrite weight_cons in Hb. pose proof (weight_nonneg l).
  cbn [keep]. destruct (Z.leb_spec (w e.2) b); [|lia]. rewrite IH by lia. done.
Qed.
Lemma keep_snoc b l e : b < weight w (l ++ [e]) -> keep w b (l ++ [e]) = keep w b l.
Proof using w_nonneg.
  revert b. induction l as [|e' l IH]; intros b Hb; cbn [app keep] in *; rewrite ?weight_cons in Hb.
  - cbn in Hb. destruct (Z.leb_spec (w e.2) b); [lia|done].
  - destruct (Z.leb_spec (w e'.2) b); [|done]. by rewrite IH by lia.
Qed.
Lemma keep_weight b l : 0 <= b -> weight w (keep w b l) <= b.
Proof using w_nonneg.
  revert b. induction l as [|e l IH]; intros b Hb; cbn [keep]; [done|]. destruct (Z.leb_spec (w e.2) b); [|done].
  rewrite weight_cons. specialize (IH (b - w e.2) ltac:(lia)). lia.
Qed.
Lemma keep_prefix b l : keep w b l `prefix_of` l.
Proof.
  revert b. induction l as [|e l IH]; intros b; cbn [keep]; [done|]. destruct (_ <=? _); [|apply prefix_nil].
  by apply prefix_cons.
Qed.
(** nothing is dropped that fits *)
Lemma keep_maximal b l e l' : l = keep w b l ++ e :: l' -> b < weight w (keep w b l) + w e.2.
Proof.
  revert b. induction l as [|e0 l IH]; intros b; cbn [keep]; [done|]. destruct (Z.leb_spec (w e0.2) b).
  - intros [= E]. apply IH in E. cbn [app] in *. rewrite weight_cons. lia.
  - intros [= -> _]. cbn. lia.
Qed.
Lemma find_key_prefix k v l1 l2 : l1 `prefix_of` l2 -> find_key k l1 = Some v -> find_key k l2 = Some v.
Proof.
  intros [l3 ->]. unfold find_key. destruct (list_find _ l1) as [[i e]|] eqn:E; [|done].
  intros [= <-]. by rewrite (list_find_app_l _ _ _ _ _ E).
Qed.
Lemma find_key_front k k' v l : k' ≠ k -> find_key k' (to_front k v l) = find_key k' l.
Proof.
  intros Hk. unfold to_front, find_key. cbn [list_find]. rewrite decide_False by (cbn; congruence).
  induction l as [|[k1 v1] l IH]; [done|]. rewrite filter_cons. destruct (decide ((k1, v1).1 ≠ k)) as [Hd|Hd].
  - cbn [list_find]. destruct (decide _); [done|]. destruct (list_find _ (filter _ l)) as [[]|], (list_find _ l) as [[]|]; cbn in *; congruence.
  - cbn in Hd. cbn [list_find]. rewrite (decide_False (P := (k1, v1).1 = k')) by (cbn; intros ->; apply Hd; congruence).
    destruct (list_find _ (filter _ l)) as [[]|], (list_find _ l) as [[]|]; cbn in *; congruence.
Qed.
Lemma weight_filter (P : bytes * V -> Prop) `{!forall x, Decision (P x)} l : weight w (filter P l) <= weight w l.
Proof using w_nonneg.
  induction l as [|e l IH]; [done|]. rewrite filter_cons. pose proof (w_nonneg e.2). destruct (decide _); rewrite !weight_cons; lia.
Qed.
Lemma weight_front k v l : weight w (to_front k v l) <= w v + weight w l.
Proof using w_nonneg. unfold to_front. rewrite weight_cons. pose proof (weight_filter (λ e : bytes * V, e.1 ≠ k) l). cbn [snd]. lia. Qed.
Lemma weight_front_present k v0 v l : NoDup (map fst l) -> find_key k l = Some v0 ->
  weight w (to_front k v l) = weight w l - w v0 + w v.
Proof.
  intros Hnd Hf. unfold find_key in Hf. destruct (list_find _ l) as [[i [k' v']]|] eqn:E; [|done]. cbn in Hf. injection Hf as ->.
  apply list_find_Some in E as (Hi & Hk & _). cbn in Hk. subst k'.
  unfold to_front. rewrite (proj2 (find_key_at l i k v0 Hnd Hi)), weight_cons.
  assert (weight w l = w v0 + weight w (delete i l)) as ->; [|cbn [snd]; lia].
  unfold weight. by rewrite (sumZ_Permutation _ _ _ (delete_Permutation _ _ _ Hi)).
Qed.
Lemma weight_front_absent k v l : k ∉ map fst l -> weight w (to_front k v l) = w v + weight w l.
Proof. intros Hk. unfold to_front. by rewrite (proj2 (find_key_none l k Hk)), weight_cons. Qed.
End model_facts.

(** ** The caches refine the list *)
#[local] Abbreviation bytes_of := (weight (V := bytes) zlen).
Lemma zlen_ge0 (v : bytes) : 0 <= zlen v.
Proof. apply zlen_nonneg. Qed.
#[local] Hint Resolve zlen_ge0 : core.
(** the cache holds the entries [es] *)
Record lru_holds (l : lru) (es : list (bytes * bytes)) : Prop := {
  lh_models : models (lru_list l) es;
  lh_bytes : curBytes l = bytes_of es;
  lh_bound : bytes_of es <= maxBytes l;
}.
Lemma lru_evict_keep fuel l es : models (lru_list l) es -> curBytes l = bytes_of es -> bytes_of es < 2 ^ 64 ->
  (length es < fuel)%nat -> 0 <= maxBytes l ->
  maxBytes (lru_evict fuel l) = maxBytes l /\ lru_holds (lru_evict fuel l) (keep zlen (maxBytes l) es).
Proof.
  revert l es. induction fuel as [|fuel IH]; intros l es Hm Hc Hw Hf H0; [lia|]. cbn [lru_evict]. rewrite Hc.
  destruct (Z.ltb_spec (maxBytes l) (bytes_of es)) as [Hlt|Hge].
  - destruct es as [|[k v] es _] using rev_ind; [cbn in Hlt; lia|].
    destruct (drop_models _ _ _ _ Hm) as (p & e & -> & He & Ev & Hd). rewrite He, Ev.
    assert (bytes_of (es ++ [(k, v)]) = bytes_of es + zlen v) as Ew by (unfold weight; rewrite sumZ_app; cbn; lia).
    assert (0 <= bytes_of es) by (by apply weight_nonneg). pose proof (zlen_ge0 v).
    rewrite keep_snoc by done. rewrite Ew, u64_small by lia.
    rewrite length_app in Hf. simpl in Hf. destruct (IH (mkLru (maxBytes l) (bytes_of es + zlen v - zlen v) (drop_entry p (lru_list l))) es) as [E1 E2];
      cbn [lru_list curBytes maxBytes]; [done|lia|lia|lia|done|]. done.
  - rewrite keep_all by (lia || done). split; [done|]. by split.
Qed.

Lemma lru_new_holds max : 0 <= max -> lru_holds (newLRU max) [].
Proof. intros Hmax. split; [apply models_empty|done|done]. Qed.
Lemma lru_get_holds l es k : lru_holds l es ->
  (lru_get k l).1 = (model_get k es).1 /\ maxBytes (lru_get k l).2 = maxBytes l /\
  lru_holds (lru_get k l).2 (model_get k es).2.
Proof.
  intros [Hm Hc Hb]. unfold lru_get, model_get.
  destruct (ch_items (lru_list l) !! k) as [p|] eqn:E; [|by rewrite (models_find _ _ _ Hm E)].
  destruct (get_models _ _ _ _ Hm E) as (v & Ef & Ed & Hm'). rewrite Ef. cbn [fst snd]. split_and!; [done|done|].
  assert (bytes_of (to_front k v es) = bytes_of es) as Ew.
  { rewrite (weight_front_present zlen k v v) by (done || by eapply models_keys). lia. }
  split; cbn [lru_list curBytes maxBytes]; [done|by rewrite Ew|by rewrite Ew].
Qed.
Lemma lru_put_holds l es k d : lru_holds l es -> maxBytes l + zlen d < 2 ^ 64 ->
  maxBytes (lru_put k d l) = maxBytes l /\ lru_holds (lru_put k d l) (model_put zlen (maxBytes l) k d es).
Proof.
  assert (forall es, 0 <= bytes_of es) as Hpos by (intros; by apply weight_nonneg).
  intros [Hm Hc Hb] Hd. unfold lru_put, model_put. pose proof (Hpos es). pose proof (zlen_ge0 d).
  pose proof (weight_front zlen zlen_ge0 k d es) as Hwf. pose proof (Hpos (to_front k d es)).
  destruct (ch_items (lru_list l) !! k) as [p|] eqn:E.
  - destruct (get_models _ _ _ _ Hm E) as (v & Ef & Ed & _). pose proof (set_models _ _ _ _ d Hm E) as Hm'.
    pose proof (weight_front_present zlen k v d es ltac:(by eapply models_keys) Ef) as Ew.
    pose proof (weight_front_present zlen k v v es ltac:(by eapply models_keys) Ef) as Ewv.
    unfold to_front in Ewv. rewrite weight_cons in Ewv. cbn [snd] in Ewv.
    pose proof (Hpos (filter (λ e : bytes * bytes, e.1 ≠ k) es)). pose proof (zlen_ge0 v).
    destruct (ch_heap (lru_list l) !! p) as [e|]; [|done]. cbn in Ed. injection Ed as ->.
    apply (lru_evict_keep _ (mkLru (maxBytes l) _ _)); cbn [lru_list curBytes maxBytes]; [done| |lia| |lia].
    + rewrite Hc, (u64_small (_ - _)), u64_small by lia. lia.
    + rewrite (models_len _ _ Hm'). lia.
  - pose proof (insert_models _ _ _ d Hm E) as Hm'.
    pose proof (weight_front_absent zlen k d es ltac:(destruct Hm as [ps Hm]; by eapply models_absent)) as Ew.
    apply (lru_evict_keep _ (mkLru (maxBytes l) _ _)); cbn [lru_list curBytes maxBytes]; [done| |lia| |lia].
    + rewrite Hc, u64_small by lia. lia.
    + rewrite (models_len _ _ Hm'). lia.
Qed.

(** C28: the linked-list cache is a list of entries, the most recently used first: a new cache
    is empty; [get] returns the value of the key and moves it to the front; [put] sets it at
    the front and then keeps the longest prefix that fits the bytes; and the byte
    counter is exact, without overflow. *)
Theorem lru_refines :
  (forall max, 0 <= max -> lru_holds (newLRU max) []) /\
  (forall l es k, lru_holds l es ->
     (lru_get k l).1 = (model_get k es).1 /\ maxBytes (lru_get k l).2 = maxBytes l /\
     lru_holds (lru_get k l).2 (model_get k es).2) /\
  (forall l es k d, lru_holds l es -> maxBytes l + zlen d < 2 ^ 64 ->
     maxBytes (lru_put k d l) = maxBytes l /\
     lru_holds (lru_put k d l) (model_put zlen (maxBytes l) k d es)) /\
  (forall l es, lru_holds l es -> lru_len l = zlen es).
Proof.
  split_and!; [exact lru_new_holds|exact lru_get_holds|exact lru_put_holds|].
  intros l es [Hm _ _]. unfold lru_len, zlen. by rewrite (models_len _ _ Hm).
Qed.

(** what was put is there when it fits, another key keeps its value or loses it, what is
    dropped is what was used longest ago and would not have fitted, and a value larger
    than the cache leaves the cache empty. *)
Theorem lru_put_keeps l es k d : lru_holds l es -> maxBytes l + zlen d < 2 ^ 64 ->
  exists es', lru_holds (lru_put k d l) es' /\
    (zlen d <= maxBytes l -> find_key k es' = Some d) /\
    (maxBytes l < zlen d -> es' = []) /\
    (forall k' v, k' ≠ k -> find_key k' es' = Some v -> find_key k' es = Some v) /\
    (forall e rest, to_front k d es = es' ++ e :: rest -> maxBytes l < bytes_of es' + zlen e.2).
Proof.
  intros Hl Hd. destruct (lru_put_holds l es k d Hl Hd) as [_ Hp].
  exists (model_put zlen (maxBytes l) k d es). split; [done|]. unfold model_put. split_and!.
  - intros Hfit. unfold to_front. cbn [keep snd]. destruct (Z.leb_spec (zlen d) (maxBytes l)); [|lia].
    unfold find_key. cbn [list_find]. by rewrite decide_True.
  - intros Hbig. unfold to_front. cbn [keep snd]. by destruct (Z.leb_spec (zlen d) (maxBytes l)); [lia|].
  - intros k' v Hk Hf. rewrite <-(find_key_front k k' d es Hk). eapply find_key_prefix; [apply keep_prefix|exact Hf].
  - intros e rest. apply keep_maximal.
Qed.

Lemma bl_get_models {V} (c : blockListCache V) es k : models (bl_list c) es ->
  (bl_get k c).1 = (model_get k es).1 /\ models (bl_list (bl_get k c).2) (model_get k es).2.
Proof.
  intros Hm. unfold bl_get, model_get. destruct (ch_items (bl_list c) !! k) as [p|] eqn:E; [|by rewrite (models_find _ _ _ Hm E)].
  by destruct (get_models _ _ _ _ Hm E) as (v & -> & -> & ?).
Qed.
Lemma weight_one {V} (l : list (bytes * V)) : weight (λ _, 1) l = zlen l.
Proof. unfold zlen. induction l as [|x l IH]; [done|]. rewrite weight_cons, IH. simpl length. lia. Qed.
Lemma bl_evict_models {V} fuel (b : blockListCache V) l : models (bl_list b) l -> (length l < fuel)%nat -> 0 <= maxEntries b ->
  models (bl_list (bl_evict fuel b)) (keep (λ _, 1) (maxEntries b) l).
Proof.
  revert b l. induction fuel as [|fuel IH]; intros b l Hm Hf H0; [lia|]. cbn [bl_evict]. rewrite (models_len _ _ Hm).
  fold (zlen l). rewrite <-weight_one. destruct (Z.ltb_spec (maxEntries b) (weight (λ _, 1) l)).
  - destruct l as [|[k v] l _] using rev_ind; [cbn in *; lia|].
    destruct (drop_models _ _ _ _ Hm) as (p & x & -> & _ & _ & Hd). rewrite keep_snoc by (done || lia).
    rewrite length_app in Hf. simpl in Hf. by apply (IH (mkBlockListCache (maxEntries b) _)); [|lia|].
  - by rewrite keep_all by (lia || done).
Qed.
Lemma bl_put_models {V} (c : blockListCache V) es k e : models (bl_list c) es -> 0 <= maxEntries c ->
  models (bl_list (bl_put k e c)) (model_put (λ _, 1) (maxEntries c) k e es).
Proof.
  intros Hm Hb. unfold bl_put, model_put. assert (models (match ch_items (bl_list c) !! k with
    | Some p => moveToFront p (set_data p e (bl_list c)) | None => insert_new k e (bl_list c) end) (to_front k e es)) as Hm'.
  { destruct (ch_items (bl_list c) !! k) as [p|] eqn:E; [by apply set_models|by apply insert_models]. }
  apply (bl_evict_models _ (mkBlockListCache (maxEntries c) _)); [done| |cbn; lia]. rewrite (models_len _ _ Hm'). lia.
Qed.

(** the cache of block lists is the same list, with one unit of weight per entry, and
    never holds more entries than its bound. *)
Theorem blockList_refines {V} (c : blockListCache V) es k e : models (bl_list c) es -> zlen es <= maxEntries c ->
  (bl_get k c).1 = (model_get k es).1 /\ models (bl_list (bl_get k c).2) (model_get k es).2 /\
  models (bl_list (bl_put k e c)) (model_put (λ _, 1) (maxEntries c) k e es) /\
  zlen (model_put (λ _, 1) (maxEntries c) k e es) <= maxEntries c.
Proof.
  intros Hm Hb. pose proof (zlen_nonneg es). destruct (bl_get_models c es k Hm). split_and!; [done..| |].
  - apply bl_put_models; [done|lia].
  - rewrite <-weight_one. apply keep_weight; [done|lia].
Qed.

(** ** Shards *)
Inductive cache_op :=
  | OGet (key : bytes)
  | OPut (key data : bytes).
Definition op_key (o : cache_op) : bytes := match o with OGet k => k | OPut k _ => k end.
Definition lru_do (o : cache_op) (l : lru) : lru :=
  match o with OGet k => (lru_get k l).2 | OPut k d => lru_put k d l end.
Definition sharded_do (o : cache_op) (s : shardedLRU) : shardedLRU :=
  match o with OGet k => (sharded_get k s).2 | OPut k d => sharded_put k d s end.
Definition lru_run (os : list cache_op) (l : lru) : lru := foldl (λ l o, lru_do o l) l os.
Definition sharded_run (os : list cache_op) (s : shardedLRU) : shardedLRU := foldl (λ s o, sharded_do o s) s os.

Lemma round_down_spec fuel k bound : 0 <= k -> 2 ^ k <= bound -> bound < 2 ^ 62 -> 63 <= Z.of_nat fuel + k ->
  exists j, 0 <= j /\ round_down fuel (2 ^ k) bound = 2 ^ j /\ 2 ^ j <= bound < 2 ^ (j + 1).
Proof.
  revert k. induction fuel as [|fuel IH]; intros k Hk Hb Hb2 Hf.
  { assert (2 ^ 63 <= 2 ^ k) by (apply Z.pow_le_mono_r; lia). lia. }
  cbn [round_down]. assert (2 ^ k * 2 = 2 ^ (k + 1)) as E by (rewrite Z.pow_add_r by lia; lia).
  rewrite i64_small by lia. rewrite E. destruct (Z.leb_spec (2 ^ (k + 1)) bound); [apply IH; lia|]. by exists k.
Qed.
Lemma shard_count_spec max count : 0 <= max < 2 ^ 64 -> count < 2 ^ 62 ->
  exists j, 0 <= j /\ shard_count max count = 2 ^ j /\ 2 ^ j <= Z.max 1 count /\ (0 < max -> 2 ^ j <= max) /\ 2 ^ j < 2 ^ 62.
Proof.
  intros Hm Hc. unfold shard_count. set (c := if count <? 1 then 1 else count).
  assert (c = Z.max 1 count) as Ec by (unfold c; destruct (Z.ltb_spec count 1); lia).
  destruct (round_down_spec 64 0 c) as (j & Hj & Ej & Hb); [lia|lia|lia|lia|]. change (2 ^ 0) with 1 in Ej. rewrite Ej.
  destruct (Z.ltb_spec 0 max), (Z.ltb_spec max (2 ^ j)); cbn [andb]; try (exists j; repeat split; lia).
  destruct (round_down_spec 64 0 max) as (j2 & Hj2 & Ej2 & Hb2); [lia|lia|lia|lia|]. change (2 ^ 0) with 1 in Ej2. rewrite Ej2.
  exists j2. repeat split; lia.
Qed.
Lemma caps_sum q r (m : nat) : 0 <= r ->
  sumZ (λ i, q + (if i <? r then 1 else 0)) (seqZ 0 (Z.of_nat m)) = Z.of_nat m * q + Z.min (Z.of_nat m) r.
Proof.
  intros Hr. induction m as [|m IH].
  { change (Z.of_nat 0) with 0. change (seqZ 0 0) with (@nil Z). cbn [sumZ foldr]. rewrite Z.min_l; lia. }
  assert (seqZ 0 (Z.of_nat (S m)) = seqZ 0 (Z.of_nat m) ++ [Z.of_nat m]) as ->.
  { rewrite Nat2Z.inj_succ, <-Z.add_1_r, seqZ_app by lia. done. }
  rewrite sumZ_app, IH. cbn [sumZ foldr]. destruct (Z.ltb_spec (Z.of_nat m) r); lia.
Qed.
Lemma sharded_do_index o s k : shard_index k (sharded_do o s) = shard_index k s /\
  length (shards (sharded_do o s)) = length (shards s).
Proof.
  destruct o; cbn [sharded_do]; [unfold sharded_get|unfold sharded_put]; destruct (shards s !! _) as [l|]; [|done| |done].
  - destruct (lru_get key l). cbn. by rewrite length_insert.
  - cbn. by rewrite length_insert.
Qed.
Lemma sharded_do_lookup o s i l : shards s !! i = Some l ->
  shards (sharded_do o s) !! i = Some (if decide (shard_index (op_key o) s = i) then lru_do o l else l).
Proof.
  intros Hi. pose proof (lookup_lt_Some _ _ _ Hi).
  destruct o; cbn [sharded_do op_key lru_do]; [unfold sharded_get|unfold sharded_put]; destruct (decide _) as [->|Hne];
    rewrite ?Hi; try (destruct (lru_get key l) eqn:E); cbn [snd shards]; rewrite ?list_lookup_insert_eq by done; try done.
  all: destruct (shards s !! shard_index key s) as [l'|]; try (destruct (lru_get key l')); cbn [snd shards];
    rewrite ?list_lookup_insert_ne by done; done.
Qed.
Lemma sharded_run_lookup os s i l : shards s !! i = Some l ->
  shards (sharded_run os s) !! i = Some (lru_run (filter (λ o, shard_index (op_key o) s = i) os) l).
Proof.
  revert s l. induction os as [|o os IH]; intros s l Hi; [done|]. cbn [sharded_run foldl]. fold (sharded_run os (sharded_do o s)).
  rewrite (IH _ _ (sharded_do_lookup o s i l Hi)). f_equal.
  assert (filter (λ o0, shard_index (op_key o0) (sharded_do o s) = i) os = filter (λ o0, shard_index (op_key o0) s = i) os) as ->.
  { apply list_filter_iff. intros o'. by rewrite (proj1 (sharded_do_index o s _)). }
  rewrite filter_cons. by destruct (decide _).
Qed.
Lemma sharded_run_length os s : length (shards (sharded_run os s)) = length (shards s).
Proof.
  revert s. induction os as [|o os IH]; intros s; [done|]. cbn [sharded_run foldl]. fold (sharded_run os (sharded_do o s)).
  by rewrite IH, (proj2 (sharded_do_index o s [])).
Qed.
Lemma sharded_run_index os s k : shard_index k (sharded_run os s) = shard_index k s.
Proof.
  revert s. induction os as [|o os IH]; intros s; [done|]. cbn [sharded_run foldl]. fold (sharded_run os (sharded_do o s)).
  by rewrite IH, (proj1 (sharded_do_index o s k)).
Qed.
Definition small_put (max : Z) (o : cache_op) : Prop :=
  match o with OGet _ => True | OPut _ d => max + zlen d < 2 ^ 64 end.
Lemma lru_run_holds os l es : lru_holds l es -> Forall (small_put (maxBytes l)) os ->
  maxBytes (lru_run os l) = maxBytes l /\ exists es', lru_holds (lru_run os l) es'.
Proof.
  revert l es. induction os as [|o os IH]; intros l es Hl Hs.
  { split; [done|by exists es]. }
  apply Forall_cons in Hs as [Ho Hs]. cbn [lru_run foldl]. fold (lru_run os (lru_do o l)). destruct o as [k|k d]; cbn [lru_do].
  - destruct (lru_get_holds l es k Hl) as (_ & Em & Hh). destruct (IH _ _ Hh) as [E ?]; [by rewrite Em|]. by rewrite E.
  - destruct (lru_put_holds l es k d Hl Ho) as (Em & Hh). destruct (IH _ _ Hh) as [E ?]; [by rewrite Em|]. by rewrite E.
Qed.
Lemma lru_run_max os l : maxBytes (lru_run os l) = maxBytes l.
Proof.
  assert (forall fuel l, maxBytes (lru_evict fuel l) = maxBytes l) as He.
  { induction fuel as [|fuel IH]; intros l0; [done|]. cbn [lru_evict]. destruct (_ <? _); [|done].
    destruct (ch_tail _); [|done]. by rewrite IH. }
  revert l. induction os as [|o os IH]; intros l; [done|]. cbn [lru_run foldl]. fold (lru_run os (lru_do o l)). rewrite IH.
  destruct o; cbn [lru_do]; [unfold lru_get|unfold lru_put]; destruct (ch_items _ !! _); rewrite ?He; done.
Qed.

Lemma shard_index_lt max count key : 0 <= max < 2 ^ 64 -> count < 2 ^ 62 ->
  (shard_index key (newShardedLRU max count) < length (shards (newShardedLRU max count)))%nat.
Proof.
  intros Hm Hc. destruct (shard_count_spec max count Hm Hc) as (j & Hj & Ej & _). assert (0 < 2 ^ j) by (apply Z.pow_pos_nonneg; lia).
  unfold newShardedLRU. rewrite Ej. unfold shard_index. cbn [shards mask]. unfold shard_caps. rewrite !length_map, length_seqZ.
  apply Z2Nat.inj_lt; [by apply Z.land_nonneg; left; apply fnv64a_bound|lia|].
  replace (2 ^ j - 1) with (Z.ones j) by (rewrite Z.ones_equiv; lia). rewrite Z.land_ones by lia. by apply Z.mod_pos_bound.
Qed.
(** [newShardedLRU] makes a power of two of shards, at most as many as asked for (one at
    least) and at most as many as bytes, whose bounds add up to the configured bytes; every
    key has its shard; each shard behaves as a cache of its own that sees the operations on
    its keys; and after any operations the shards hold at most the configured bytes. *)
Theorem sharded_bounded max count os : 0 <= max < 2 ^ 64 -> count < 2 ^ 62 -> Forall (small_put max) os ->
  let s := newShardedLRU max count in
  (exists j, 0 <= j /\ zlen (shards s) = 2 ^ j /\ 2 ^ j <= Z.max 1 count /\ (0 < max -> 2 ^ j <= max)) /\
  (forall key, (shard_index key s < length (shards s))%nat) /\
  (forall l, l ∈ shards s -> 0 <= maxBytes l <= max /\ (0 < max -> 0 < maxBytes l)) /\
  (forall i l, shards s !! i = Some l ->
     shards (sharded_run os s) !! i = Some (lru_run (filter (λ o, shard_index (op_key o) s = i) os) l)) /\
  sharded_max (sharded_run os s) = max /\ sharded_bytes (sharded_run os s) <= max.
Proof.
  intros Hm Hc Hos s. destruct (shard_count_spec max count Hm Hc) as (j & Hj & Ej & Hj1 & Hj2 & Hj3).
  assert (0 < 2 ^ j) as Hpos by (apply Z.pow_pos_nonneg; lia).
  assert (shards s = map newLRU (shard_caps max (2 ^ j))) as Es by (unfold s, newShardedLRU; by rewrite Ej).
  assert (length (shards s) = Z.to_nat (2 ^ j)) as El.
  { rewrite Es, length_map. unfold shard_caps. by rewrite length_map, length_seqZ. }
  pose proof (Z.div_mod max (2 ^ j) ltac:(lia)) as Hdm. pose proof (Z.mod_pos_bound max (2 ^ j) ltac:(lia)) as Hmod.
  assert (0 <= max / 2 ^ j) as Hq by (apply Z.div_pos; lia).
  assert (sumZ maxBytes (shards s) = max) as Esum.
  { rewrite Es, sumZ_map. unfold newLRU. cbn [maxBytes]. unfold shard_caps.
    rewrite (sumZ_map (λ x, x)). 
    pose proof (caps_sum (max / 2 ^ j) (max mod 2 ^ j) (Z.to_nat (2 ^ j))) as E. rewrite Z2Nat.id in E by lia. rewrite E by lia. lia. }
  assert (forall l, l ∈ shards s -> exists i, 0 <= i < 2 ^ j /\ l = newLRU (max / 2 ^ j + (if i <? max mod 2 ^ j then 1 else 0))) as Hl.
  { intros l. rewrite Es. intros (c & -> & (i & -> & Hi%elem_of_seqZ)%list_elem_of_fmap)%list_elem_of_fmap. exists i. split; [lia|done]. }
  assert (forall l, l ∈ shards s -> 0 <= maxBytes l <= max /\ (0 < max -> 0 < maxBytes l)) as Hcap.
  { intros l (i & Hi & ->)%Hl. cbn [newLRU maxBytes].
    destruct (Z.ltb_spec i (max mod 2 ^ j)); (split; [nia|]); intros Hp; specialize (Hj2 Hp);
      assert (1 <= max / 2 ^ j) by (apply Z.div_le_lower_bound; lia); lia. }
  assert (Forall2 (λ l l', maxBytes l' = maxBytes l /\ 0 <= curBytes l' <= maxBytes l) (shards s) (shards (sharded_run os s))) as HF.
  { apply Forall2_same_length_lookup_2; [symmetry; apply sharded_run_length|]. intros i l l' Hi Hi'.
    rewrite (sharded_run_lookup os s i l Hi) in Hi'. injection Hi' as <-. split; [apply lru_run_max|].
    pose proof (Hcap l ltac:(by eapply list_elem_of_lookup_2)) as [Hcl _].
    destruct (Hl l ltac:(by eapply list_elem_of_lookup_2)) as (c & Hc' & ->). cbn [newLRU maxBytes] in *.
    destruct (lru_run_holds (filter (λ o, shard_index (op_key o) s = i) os) (newLRU (max / 2 ^ j + (if c <? max mod 2 ^ j then 1 else 0))) [])
      as [E (es' & [_ Hb Hw])].
    - apply lru_new_holds. lia.
    - apply Forall_forall. intros o [_ Ho]%list_elem_of_filter. rewrite Forall_forall in Hos. specialize (Hos o Ho).
      destruct o as [k|k d]; cbn in *; [done|lia].
    - rewrite E in Hw. cbn [newLRU maxBytes] in Hw. rewrite Hb. split; [by apply weight_nonneg|done]. }
  assert (sumZ maxBytes (shards (sharded_run os s)) = max /\ 0 <= sumZ curBytes (shards (sharded_run os s)) <= max) as Hsums.
  { rewrite <-Esum. clear -HF. induction HF as [|l l' ls ls' [E B] _ [IH1 IH2]]; [done|]. unfold sumZ in *. cbn [foldr] in *. lia. }
  split_and!.
  - exists j. split_and!; [done| |done|done]. unfold zlen. rewrite El. lia.
  - intros key. by apply shard_index_lt.
  - done.
  - intros i l Hi. by apply sharded_run_lookup.
  - unfold sharded_max. rewrite (proj1 Hsums). apply u64_small. lia.
  - unfold sharded_bytes. rewrite u64_small; lia.
Qed.

Lemma put_find (max : Z) (k d : bytes) (es : list (bytes * bytes)) : zlen d <= max -> find_key k (model_put zlen max k d es) = Some d.
Proof.
  intros Hfit. unfold model_put, to_front. cbn [keep snd]. destruct (Z.leb_spec (zlen d) max); [|lia].
  unfold find_key. cbn [list_find]. by rewrite decide_True.
Qed.
Lemma shard_caps_least (max count : Z) (l : lru) : 0 <= max < 2 ^ 64 -> count < 2 ^ 62 -> l ∈ shards (newShardedLRU max count) ->
  max / Z.max 1 count <= maxBytes l <= max /\ lru_holds l [].
Proof.
  intros Hm Hc. destruct (shard_count_spec max count Hm Hc) as (j & Hj & Ej & Hj1 & _). unfold newShardedLRU. rewrite Ej. cbn [shards].
  assert (0 < 2 ^ j) by (apply Z.pow_pos_nonneg; lia).
  intros (c & -> & (i & -> & Hi%elem_of_seqZ)%list_elem_of_fmap)%list_elem_of_fmap. cbn [newLRU maxBytes].
  pose proof (Z.div_mod max (2 ^ j) ltac:(lia)). pose proof (Z.mod_pos_bound max (2 ^ j) ltac:(lia)).
  assert (max / Z.max 1 count <= max / 2 ^ j) by (apply Z.div_le_compat_l; lia).
  assert (0 <= max / 2 ^ j) by (apply Z.div_pos; lia).
  split; [|apply lru_new_holds]; destruct (Z.ltb_spec i (max mod 2 ^ j)); nia.
Qed.
(** in the cache as the gateway configures it, whatever its configuration and history, an
    item of at most the largest cacheable size is there after it was put. *)
Theorem cacheable_fits (maxCache maxItem : Z) (os : list cache_op) (k d : bytes) : 0 <= maxCache < 2 ^ 63 -> 0 <= maxItem < 2 ^ 63 ->
  let '(max, item, count) := cache_config maxCache maxItem in
  Forall (small_put max) os -> zlen d <= item ->
  (sharded_get k (sharded_put k d (sharded_run os (newShardedLRU max count)))).1 = Some d.
Proof.
  intros Hmc Hmi. destruct (cache_config maxCache maxItem) as [[max item] count] eqn:Ecfg. intros Hos Hd.
  assert (0 < max < 2 ^ 63 /\ 0 < item <= max /\ 1 <= count <= 16 /\ item <= max / count) as (Hmax & Hitem & Hcount & Hfit).
  { unfold cache_config in Ecfg. set (a := if maxCache =? 0 then 64 * 1024 * 1024 else maxCache) in Ecfg.
    set (b := if maxItem =? 0 then 8 * 1024 * 1024 else maxItem) in Ecfg.
    assert (0 < a < 2 ^ 63) as Ha by (unfold a; destruct (Z.eqb_spec maxCache 0); lia).
    assert (0 < b < 2 ^ 63) as Hb by (unfold b; destruct (Z.eqb_spec maxItem 0); lia). clearbody a b.
    set (it := if a <? b then a else b) in Ecfg.
    assert (0 < it <= a) as Hit by (unfold it; destruct (Z.ltb_spec a b); lia). clearbody it.
    assert (1 <= a / it) as H1 by (apply Z.div_le_lower_bound; lia).
    assert (a / it <= a) as H2 by (apply Z.div_le_upper_bound; nia).
    assert (it * (a / it) <= a) as H3 by (apply Z.mul_div_le; lia).
    rewrite (proj2 (Z.ltb_lt 0 it)), i64_small, (proj2 (Z.ltb_ge (a / it) 1)) in Ecfg by lia. unfold defaultCacheShards in Ecfg.
    destruct (Z.ltb_spec (a / it) 16) as [Hq|Hq]; injection Ecfg as <- <- <-;
      (split_and!; [lia..|]); apply Z.div_le_lower_bound; nia. }
  set (s := newShardedLRU max count).
  pose proof (sharded_run_index os s k) as Eix.
  destruct (lookup_lt_is_Some_2 (shards s) (shard_index k s)) as [l Hl].
  { by apply (shard_index_lt max count); lia. }
  pose proof (shard_caps_least max count l ltac:(lia) ltac:(lia) ltac:(by eapply list_elem_of_lookup_2)) as [Hcap Hh].
  pose proof (sharded_run_lookup os s _ _ Hl) as Hrun.
  destruct (lru_run_holds (filter (λ o, shard_index (op_key o) s = shard_index k s) os) l [] Hh) as [Em (es & Hes)].
  { apply Forall_forall. intros o [_ Ho]%list_elem_of_filter. rewrite Forall_forall in Hos. specialize (Hos o Ho).
    destruct o as [k'|k' d']; cbn in *; [done|lia]. }
  set (l' := lru_run (filter (λ o, shard_index (op_key o) s = shard_index k s) os) l) in *.
  rewrite Z.max_r in Hcap by lia.
  destruct (lru_put_holds l' es k d Hes ltac:(rewrite Em; lia)) as [Em2 Hes2].
  destruct (lru_get_holds _ _ k Hes2) as [Eg _].
  unfold sharded_put. rewrite Eix, Hrun. unfold sharded_get, shard_index. cbn [mask shards].
  fold (shard_index k (sharded_run os s)). rewrite Eix.
  rewrite list_lookup_insert_eq by (rewrite sharded_run_length; by apply lookup_lt_Some in Hl).
  destruct (lru_get k (lru_put k d l')) as [r l2] eqn:E2. cbn [fst snd] in *. rewrite Eg. unfold model_get.
  by rewrite put_find by (rewrite Em; lia).
Qed.

(** ** The properties at concrete inputs *)
Definition demo_lru : lru := lru_put (lit "b") (lit "yy") (lru_put (lit "a") (lit "xxx") (newLRU 5)).
Lemma lru_refines_witness :
  lru_holds demo_lru [(lit "b", lit "yy"); (lit "a", lit "xxx")] /\
  (lru_get (lit "a") demo_lru).1 = Some (lit "xxx") /\
  lru_holds (lru_put (lit "c") (lit "z") (lru_get (lit "a") demo_lru).2) [(lit "c", lit "z"); (lit "a", lit "xxx")].
Proof.
  destruct lru_refines as (Hnew & Hget & Hput & _).
  destruct (Hput _ _ (lit "a") (lit "xxx") (Hnew 5 ltac:(lia)) ltac:(vm_compute; reflexivity)) as [_ H1].
  destruct (Hput _ _ (lit "b") (lit "yy") H1 ltac:(vm_compute; reflexivity)) as [_ H2].
  destruct (Hget _ _ (lit "a") H2) as (E & _ & H3).
  destruct (Hput _ _ (lit "c") (lit "z") H3 ltac:(vm_compute; reflexivity)) as [_ H4].
  split_and!; [exact H2|exact E|exact H4].
Defined.
Lemma lru_put_keeps_witness : exists es, lru_holds (lru_put (lit "c") (lit "123456") demo_lru) es /\ es = [].
Proof.
  destruct (lru_put_keeps demo_lru [(lit "b", lit "yy"); (lit "a", lit "xxx")] (lit "c") (lit "123456"))
    as (es & H1 & _ & H2 & _).
  - destruct (lru_put_holds _ _ (lit "a") (lit "xxx") (lru_new_holds 5 ltac:(lia)) ltac:(vm_compute; reflexivity)) as [_ H1].
    exact (proj2 (lru_put_holds _ _ (lit "b") (lit "yy") H1 ltac:(vm_compute; reflexivity))).
  - vm_compute. reflexivity.
  - exists es. split; [exact H1|]. apply H2. vm_compute. reflexivity.
Defined.
Lemma blockList_refines_witness :
  models (bl_list (bl_put (lit "b") 2 (bl_put (lit "a") 1 (newBlockListCache 0)))) [(lit "b", 2)].
Proof.
  destruct (blockList_refines (newBlockListCache 0) [] (lit "a") 1 models_empty ltac:(vm_compute; discriminate)) as (_ & _ & H1 & H2).
  refine (proj1 (proj2 (proj2 (blockList_refines (bl_put (lit "a") 1 (newBlockListCache 0)) [(lit "a", 1)] (lit "b") 2 H1 _)))).
  vm_compute. discriminate.
Defined.
Lemma sharded_bounded_witness :
  length (shards (newShardedLRU 100 7)) = 4%nat /\
  sharded_bytes (sharded_run [OPut (lit "k") (lit "value"); OGet (lit "k")] (newShardedLRU 100 7)) <= 100.
Proof.
  split; [reflexivity|]. apply (sharded_bounded 100 7); [lia|lia|]. repeat constructor; vm_compute; reflexivity.
Defined.
(** [shardCount] of 2^62 and more makes the first loop run for ever: [n] doubles to zero. *)
Lemma round_down_overflow fuel : round_down (64 + fuel) 1 (2 ^ 62) = 0.
Proof. change (round_down (64 + fuel) 1 (2 ^ 62)) with (round_down fuel 0 (2 ^ 62)). by induction fuel. Qed.
Lemma cacheable_fits_witness :
  (sharded_get (lit "k") (sharded_put (lit "k") (lit "value") (sharded_run [OPut (lit "x") (lit "y")] (newShardedLRU 100 10)))).1
  = Some (lit "value").
Proof.
  apply (cacheable_fits 100 10 [OPut (lit "x") (lit "y")] (lit "k") (lit "value")); [lia|lia|repeat constructor|vm_compute; discriminate].
Defined.
