(* ===== verification/GateRange.v ===== *)
(** * Range requests (src/gateway/memgate_v2: dagreader.go, memgate.go)

    The gateway flattens the DAG of a file to a list of blocks with their offsets
    ([buildBlockList], remembered by [cachedBlockList]), reads it through [dagReader], which looks
    the block of a position up by binary search and keeps blocks in the sharded cache, and
    answers a range request from it ([parseRange], [handleStreamRange]).
    [backend.RawBlock] is an argument.  [stream_exact]: the body of a range response is that range
    of the content, for files and for DAGs, whatever the caches hold. *)
From S2P Require Import Prelude Mid GoIO Chunk Wire Blockstore Objects Memstore Dag Db MemNode MemFile FileStores AddFile MemRead Names Descriptor Magnet Lru.

(** ** [parseRange] *)
(** [strconv.ParseUint(s, 10, 64)] *)
Definition ParseUint (s : bytes) : result Z :=
  if bool_decide (s = []) || negb (forallb is_digit s) then Err (New "invalid syntax") else
  if of_digits s <? 2 ^ 64 then Ok (of_digits s) else Err (New "value out of range").
Definition parseRange (s : bytes) (size : Z) : result (Z * Z) :=
  if negb (HasPrefix s (lit "bytes=")) then Err (New "range unit must be bytes") else
  let spec := TrimPrefix s (lit "bytes=") in
  if bool_decide (Byte.x2c ∈ spec) then Err (New "multi-range not supported") else
  match index_of (lit "-") spec with
  | None => Err (New "range missing dash")
  | Some dash =>
      let startStr := TrimSpace (take dash spec) in
      let endStr := TrimSpace (drop (dash + 1) spec) in
      if size <? 0 then Err (New "negative size") else
      if bool_decide (startStr = []) then
        match ParseUint endStr with
        | Err _ => Err (New "bad suffix length")
        | Ok n =>
            if n =? 0 then Err (New "bad suffix length") else
            let n := if size <? n then size else n in
            let start := size - n in
            if size <=? start then Err (New "range out of bounds") else Ok (start, size)
        end
      else
        start ← wrap "bad start" (ParseUint startStr);
        end_ ←
          (if bool_decide (endStr = []) then Ok size else
           e ← wrap "bad end" (ParseUint endStr);
           Ok (if (0 <? size) && (size - 1 <=? e) then size else u64 (e + 1)));
        if (size <=? start) || (end_ <=? start) || (size <? end_) then Err (New "range out of bounds")
        else Ok (start, end_)
  end.

(** ** Block lists *)
Record dagBlock := mkDagBlock { gb_mid : MID; gb_size : Z; gb_offset : Z }.
Definition blockList : Type := list dagBlock * Z.
Definition defaultBlockListCacheEntries : Z := 512.

Section gate.
Context `{Multiformats, Protos} (RawBlock : MID -> result bytes).

Definition add_block (m : MID) (size : Z) (l : blockList) : blockList :=
  (l.1 ++ [mkDagBlock m size l.2], i64 (l.2 + size)).
(** [walkMemFS]: the loop over the blocks of a node; [inner] walks a child node *)
Fixpoint gw_blocks (inner : MemFSNode -> blockList -> result blockList) (bs : list MemFSBlock) (l : blockList)
    : result blockList :=
  match bs with
  | [] => Ok l
  | b :: bs =>
      if bool_decide (mb_Mid b = []) then gw_blocks inner bs l else
      childMID ← FromMultihash (if 0 <? mb_Size b then CodecRaw else CodecMemFS) (mb_Mid b);
      l ←
        (if 0 <? mb_Size b then Ok (add_block childMID (i64 (mb_Size b)) l) else
         childRaw ← RawBlock childMID;
         childNode ← unmarshal (A := MemFSNode) childRaw;
         inner childNode l);
      gw_blocks inner bs l
  end.
Fixpoint walkMemFS (fuel : nat) (n : MemFSNode) (l : blockList) : result blockList :=
  match fuel with
  | O => Err OutOfFuel
  | S fuel => gw_blocks (walkMemFS fuel) (mn_Blocks n) l
  end.
(** [walkRawDAG]: the loop over the links; [inner] walks a child *)
Fixpoint gw_links (inner : MID -> bytes -> blockList -> result blockList) (links : list bytes) (l : blockList)
    : result blockList :=
  match links with
  | [] => Ok l
  | linkStr :: links =>
      child ← Mid.Parse linkStr;
      childRaw ← RawBlock child;
      l ← inner child childRaw l;
      gw_links inner links l
  end.
Fixpoint walkRawDAG (fuel : nat) (curr : MID) (rawBytes : bytes) (l : blockList) : result blockList :=
  match fuel with
  | O => Err OutOfFuel
  | S fuel =>
      match unmarshal (A := DAGNode) rawBytes with
      | Ok node =>
          if 0 <? zlen (dn_Links node) then gw_links (walkRawDAG fuel) (dn_Links node) l
          else Ok (add_block curr (zlen rawBytes) l)
      | Err _ => Ok (add_block curr (zlen rawBytes) l)
      end
  end.
Definition buildBlockList (fuel : nat) (root : MID) : result blockList :=
  raw ← RawBlock root;
  if Codec root =? CodecMemFS then
    node ← unmarshal (A := MemFSNode) raw;
    if negb (mn_Type node =? MemFSType_FILE) then Err (New "memfs node is not a file") else
    walkMemFS fuel node ([], 0)
  else walkRawDAG fuel root raw ([], 0).

(** the caches of the gateway *)
Record gateway := mkGateway { gw_lru : shardedLRU; gw_blockLists : blockListCache blockList }.
Definition cachedBlockList (fuel : nat) (root : MID) : M gateway blockList := λ g,
  let key := String root in
  match bl_get key (gw_blockLists g) with
  | (Some e, c) => (Ok e, mkGateway (gw_lru g) c)
  | (None, c) =>
      match buildBlockList fuel root with
      | Err e => (Err e, mkGateway (gw_lru g) c)
      | Ok e => (Ok e, mkGateway (gw_lru g) (bl_put key e c))
      end
  end.

(** ** The reader *)
(** [sort.Search] *)
Fixpoint search_loop (fuel : nat) (i j : nat) (f : nat -> bool) : nat :=
  match fuel with
  | O => i
  | S fuel =>
      if (i <? j)%nat then
        let h := ((i + j) / 2)%nat in
        if f h then search_loop fuel i h f else search_loop fuel (S h) j f
      else i
  end.
Definition Search (n : nat) (f : nat -> bool) : nat := search_loop (S n) 0 n f.
Definition findBlockIndex (blocks : list dagBlock) (pos : Z) : option nat :=
  let i := Search (length blocks) (λ i, match blocks !! i with Some b => pos <? gb_offset b | None => false end) in
  match i with
  | O => None
  | S idx =>
      match blocks !! idx with
      | Some b => if (gb_offset b <=? pos) && (pos <? i64 (gb_offset b + gb_size b)) then Some idx else None
      | None => None
      end
  end.

Record dagReader := mkDagReader {
  dr_blocks : list dagBlock;
  dr_totalSize : Z;
  dr_pos : Z;
  dr_curBlockIdx : option nat;
  dr_curBlockBuf : option bytes;
}.
Definition newDagReader (blocks : list dagBlock) (totalSize : Z) : dagReader :=
  mkDagReader blocks totalSize 0 None None.
Definition blockKey (m : MID) : bytes := lit "block:" ++ String m.
(** the block under the position, from the reader, the cache or the backend *)
Definition load_block (idx : nat) (b : dagBlock) : M (shardedLRU * dagReader) bytes := λ '(cache, r),
  let loaded data cache := (Ok data, (cache, mkDagReader (dr_blocks r) (dr_totalSize r) (dr_pos r) (Some idx) (Some data))) in
  match (if bool_decide (dr_curBlockIdx r = Some idx) then dr_curBlockBuf r else None) with
  | Some data => (Ok data, (cache, r))
  | None =>
      match sharded_get (blockKey (gb_mid b)) cache with
      | (Some data, cache) => loaded data cache
      | (None, cache) =>
          match RawBlock (gb_mid b) with
          | Err e => (Err (Wrap "read block" e), (cache, r))
          | Ok data => loaded data (sharded_put (blockKey (gb_mid b)) data cache)
          end
      end
  end.
(** [Read(p)] with [len(p) = k] *)
Definition dr_Read (k : nat) : M (shardedLRU * dagReader) bytes := λ '(cache, r),
  if dr_totalSize r <=? dr_pos r then (Err EOF, (cache, r)) else
  if (k =? 0)%nat then (Ok [], (cache, r)) else
  match findBlockIndex (dr_blocks r) (dr_pos r) with
  | None => (Err EOF, (cache, r))
  | Some idx =>
      match dr_blocks r !! idx with
      | None => (Err EOF, (cache, r))
      | Some b =>
          match load_block idx b (cache, r) with
          | (Err e, s) => (Err e, s)
          | (Ok buf, (cache, r)) =>
              let offsetInBlock := dr_pos r - gb_offset b in
              if zlen buf <=? offsetInBlock then (Err EOF, (cache, r)) else
              let p := take k (drop (Z.to_nat offsetInBlock) buf) in
              (Ok p, (cache, mkDagReader (dr_blocks r) (dr_totalSize r) (i64 (dr_pos r + zlen p))
                               (dr_curBlockIdx r) (dr_curBlockBuf r)))
          end
      end
  end.
Definition dr_Seek (offset whence : Z) (r : dagReader) : result Z * dagReader :=
  match (if whence =? 0 then Some offset
         else if whence =? 1 then Some (i64 (dr_pos r + offset))
         else if whence =? 2 then Some (i64 (dr_totalSize r + offset)) else None) with
  | None => (Err (New "invalid whence"), r)
  | Some target =>
      if target <? 0 then (Err (New "negative seek target"), r)
      else (Ok target, mkDagReader (dr_blocks r) (dr_totalSize r) target (dr_curBlockIdx r) (dr_curBlockBuf r))
  end.
(** [Close] *)
Definition dr_Close (r : dagReader) : dagReader :=
  mkDagReader (dr_blocks r) (dr_totalSize r) (dr_pos r) (dr_curBlockIdx r) None.

(** [io.CopyN(w, reader, n)] with a buffer of [buf] bytes; what is written so far is the body *)
Fixpoint CopyN (fuel : nat) (buf : nat) (n : nat) (s : shardedLRU * dagReader) : bytes * (shardedLRU * dagReader) :=
  match fuel with
  | O => ([], s)
  | S fuel =>
      if (n =? 0)%nat then ([], s) else
      match dr_Read (Nat.min buf n) s with
      | (Err _, s) => ([], s)
      | (Ok p, s) => let '(rest, s) := CopyN fuel buf (n - length p) s in (p ++ rest, s)
      end
  end.

(** what [handleStreamRange] answers *)
Inductive response :=
  | NotHandled                             (* no Range header *)
  | RangeError (e : error)                 (* 416 *)
  | ServerError (e : error)                (* 500 *)
  | Partial (start last total : Z) (length : Z) (body : bytes).   (* 206 *)
Definition handleStreamRange (fuel buf : nat) (rng : bytes) (fileMID : MID) (totalSize : Z) (g : gateway)
    : response * gateway :=
  if bool_decide (rng = []) then (NotHandled, g) else
  match parseRange rng totalSize with
  | Err e => (RangeError e, g)
  | Ok (start, end_) =>
      match cachedBlockList fuel fileMID g with
      | (Err e, g) => (ServerError (Wrap "build block list" e), g)
      | (Ok l, g) =>
          match dr_Seek start 0 (newDagReader l.1 totalSize) with
          | (Err e, _) => (ServerError (Wrap "seek error" e), g)
          | (Ok _, r) =>
              let n := Z.to_nat (end_ - start) in
              let '(body, (cache, _)) := CopyN (S n) buf n (gw_lru g, r) in
              (Partial start (end_ - 1) totalSize (end_ - start) body, mkGateway cache (gw_blockLists g))
          end
      end
  end.
End gate.

(** ** Ranges: properties *)
Lemma trim_left_head sps fuel b s :
  Forall (λ sp, match sp with c :: _ => b ≠ c | [] => False end) sps -> trim_left sps fuel (b :: s) = b :: s.
Proof.
  intros Hsp. destruct fuel as [|fuel]; [done|]. cbn [trim_left].
  assert (list_find (λ sp, HasPrefix (b :: s) sp = true) sps = None) as ->; [|done].
  apply list_find_None. eapply Forall_impl; [exact Hsp|]. intros [|c sp] Hc; [done|].
  unfold HasPrefix. cbn [length take]. rewrite bool_decide_eq_true. by intros [= -> _].
Qed.
Lemma trim_left_nil sps fuel : Forall (λ sp : bytes, sp ≠ []) sps -> trim_left sps fuel [] = [].
Proof.
  intros Hsp. destruct fuel as [|fuel]; [done|]. cbn [trim_left].
  assert (list_find (λ sp, HasPrefix [] sp = true) sps = None) as ->; [|done].
  apply list_find_None. eapply Forall_impl; [exact Hsp|]. intros sp Hne. unfold HasPrefix. rewrite bool_decide_eq_true.
  rewrite take_nil. by intros <-.
Qed.
Lemma TrimSpace_digits s : Forall (λ b, is_digit b = true) s -> TrimSpace s = s.
Proof.
  assert (forall b, is_digit b = true ->
    Forall (λ sp, match sp with c :: _ => b ≠ c | [] => False end) spaces /\
    Forall (λ sp, match sp with c :: _ => b ≠ c | [] => False end) (map reverse spaces)) as Hd.
  { intros b Hb. split; destruct b; try discriminate Hb; repeat constructor; discriminate. }
  intros Hs. unfold TrimSpace.
  assert (trim_left spaces (length s) s = s) as ->.
  { destruct Hs as [|b s Hb _]; [done|]. apply trim_left_head, (Hd b Hb). }
  assert (Forall (λ b, is_digit b = true) (reverse s)) as Hr by by apply Forall_reverse.
  rewrite <-(reverse_involutive s) at 3. f_equal. destruct Hr as [|b r Hb _].
  - apply trim_left_nil. repeat constructor; discriminate.
  - apply trim_left_head, (Hd b Hb).
Qed.
Lemma ParseUint_digits fuel z : 0 <= z < 2 ^ 64 -> z < 10 ^ Z.of_nat fuel -> (0 < fuel)%nat -> ParseUint (digits_fuel fuel z) = Ok z.
Proof.
  intros Hz Hf H0. destruct (digits_facts fuel z) as (E & Hd & Hn); [lia|done|]. unfold ParseUint.
  rewrite bool_decide_eq_false_2, digits_forallb, E by done. cbn [negb orb]. destruct (Z.ltb_spec z (2 ^ 64)); [done|lia].
Qed.
Lemma ParseUint_bound s z : ParseUint s = Ok z -> 0 <= z < 2 ^ 64.
Proof.
  unfold ParseUint. destruct (bool_decide _ || negb (forallb is_digit s)) eqn:E; [done|]. apply orb_false_iff in E as [_ E].
  apply negb_false_iff in E. destruct (Z.ltb_spec (of_digits s) (2 ^ 64)); [|done]. intros [= <-]. split; [|done]. clear -E.
  induction s as [|b s IH] using rev_ind; [done|]. rewrite forallb_app in E. apply andb_true_iff in E as [E1 E2].
  cbn [forallb] in E2. rewrite andb_true_r in E2. unfold is_digit in E2. apply andb_true_iff in E2 as [E2 _]. apply Z.leb_le in E2.
  rewrite of_digits_snoc. specialize (IH E1). lia.
Qed.
Lemma index_of_dash s t : free Byte.x2d s -> index_of (lit "-") (s ++ Byte.x2d :: t) = Some (length s).
Proof.
  induction 1 as [|b s Hb _ IH]; [done|]. cbn [app index_of length]. rewrite IH.
  assert (HasPrefix (b :: s ++ Byte.x2d :: t) (lit "-") = false) as ->; [|done].
  unfold HasPrefix. cbn. apply bool_decide_eq_false_2. by intros [= ->].
Qed.

Lemma parseRange_in size h s e : 0 <= size < 2 ^ 63 -> parseRange h size = Ok (s, e) -> 0 <= s < e /\ e <= size.
Proof.
  intros Hsz. unfold parseRange. destruct (HasPrefix h _); [|done]. cbn [negb]. case_bool_decide; [done|].
  destruct (index_of _ _) as [dash|]; [|done]. destruct (size <? 0); [done|]. case_bool_decide.
  - destruct (ParseUint _) as [n|] eqn:En; [|done]. apply ParseUint_bound in En. destruct (Z.eqb_spec n 0); [done|].
    destruct (Z.ltb_spec size n); cbv zeta; (destruct (size <=? _) eqn:El; [done|]); apply Z.leb_gt in El; intros [= <- <-]; lia.
  - destruct (ParseUint (TrimSpace (take _ _))) as [st|] eqn:En; [|done]. apply ParseUint_bound in En. cbn [wrap mbind result_bind].
    destruct (if bool_decide _ then _ else _) as [en|]; [|done]. cbn [mbind result_bind].
    destruct (Z.leb_spec size st), (Z.leb_spec en st), (Z.ltb_spec size en); cbn [orb]; try done. intros [= <- <-]. lia.
Qed.
(** a range that is accepted is a non-empty part of the content, whatever the header is; and
    a first and last position, an open end and a suffix length, written in decimal, are read as
    the ranges they stand for, cut at the end of the content. *)
Theorem parseRange_spec size : 0 <= size < 2 ^ 63 ->
  (forall h s e, parseRange h size = Ok (s, e) -> 0 <= s < e /\ e <= size) /\
  (forall a b, 0 <= a <= b -> a < size -> b < 2 ^ 63 ->
     parseRange (lit "bytes=" ++ Itoa a ++ lit "-" ++ Itoa b) size = Ok (a, Z.min (b + 1) size)) /\
  (forall a, 0 <= a < size -> parseRange (lit "bytes=" ++ Itoa a ++ lit "-") size = Ok (a, size)) /\
  (forall n, 0 < n < 2 ^ 63 -> 0 < size -> parseRange (lit "bytes=-" ++ Itoa n) size = Ok (Z.max 0 (size - n), size)).
Proof.
  intros Hsz.
  assert (forall z, 0 <= z < 2 ^ 63 -> Itoa z = digits_fuel 20 z /\ ParseUint (Itoa z) = Ok z /\
    Forall (λ b, is_digit b = true) (Itoa z) /\ Itoa z ≠ []) as Hi.
  { intros z Hz. assert (Itoa z = digits_fuel 20 z) as -> by (unfold Itoa; by destruct (Z.ltb_spec z 0); [lia|]).
    assert (z < 10 ^ Z.of_nat 20) as H20 by (eapply Z.lt_trans; [apply Hz|done]).
    destruct (digits_facts 20 z) as (_ & ? & ?); [lia|lia|]. split_and!; [done|apply ParseUint_digits; lia|done|done]. }
  assert (forall c s, is_digit c = false -> Forall (λ b, is_digit b = true) s -> c ∉ s) as Hnot.
  { intros c s Hc Hs Hin. rewrite Forall_forall in Hs. rewrite (Hs c Hin) in Hc. done. }
  assert (forall x y, Forall (λ b, is_digit b = true) x -> Forall (λ b, is_digit b = true) y ->
    let spec := x ++ Byte.x2d :: y in
    HasPrefix (lit "bytes=" ++ spec) (lit "bytes=") = true /\ TrimPrefix (lit "bytes=" ++ spec) (lit "bytes=") = spec /\
    bool_decide (Byte.x2c ∈ spec) = false /\ index_of (lit "-") spec = Some (length x) /\
    TrimSpace (take (length x) spec) = x /\ TrimSpace (drop (length x + 1) spec) = y) as Hspec.
  { intros x y Hx Hy spec. split_and!.
    - apply HasPrefix_app.
    - apply TrimPrefix_app.
    - apply bool_decide_eq_false_2. unfold spec. rewrite elem_of_app, elem_of_cons. intros [?|[?|?]]; [|done|];
        by eapply (Hnot Byte.x2c); [reflexivity| |eassumption].
    - apply index_of_dash. by apply digits_free.
    - unfold spec. rewrite take_app_length. by apply TrimSpace_digits.
    - unfold spec. rewrite <-drop_drop, drop_app_length. cbn [drop]. by apply TrimSpace_digits. }
  split_and!.
  - intros h s e. by apply parseRange_in.
  - intros a b Hab Has Hb. destruct (Hi a) as (_ & Pa & Da & Na); [lia|]. destruct (Hi b) as (_ & Pb & Db & Nb); [lia|].
    destruct (Hspec _ _ Da Db) as (E1 & E2 & E3 & E4 & E5 & E6). change (lit "-" ++ Itoa b) with (Byte.x2d :: Itoa b).
    unfold parseRange. rewrite E1, E2, E3, E4, E5, E6. cbn [negb]. destruct (Z.ltb_spec size 0); [lia|].
    rewrite !bool_decide_eq_false_2, Pa by done. cbn [wrap mbind result_bind]. rewrite Pb. cbn [wrap mbind result_bind].
    rewrite u64_small by lia. destruct (Z.ltb_spec 0 size); [|lia]. cbn [andb].
    destruct (Z.leb_spec (size - 1) b), (Z.leb_spec size a); cbn [orb]; try lia.
    + destruct (Z.leb_spec size a), (Z.ltb_spec size size); try lia. cbn [orb]. do 2 f_equal. lia.
    + destruct (Z.leb_spec (b + 1) a), (Z.ltb_spec size (b + 1)); try lia. cbn [orb]. do 2 f_equal. lia.
  - intros a Ha. destruct (Hi a) as (_ & Pa & Da & Na); [lia|].
    destruct (Hspec _ [] Da ltac:(constructor)) as (E1 & E2 & E3 & E4 & E5 & E6). change (lit "-") with [Byte.x2d].
    unfold parseRange. rewrite E1, E2, E3, E4, E5, E6. cbn [negb]. destruct (Z.ltb_spec size 0); [lia|].
    rewrite bool_decide_eq_false_2, Pa by done. cbn. destruct (Z.leb_spec size a), (Z.ltb_spec size size); try lia. done.
  - intros n Hn Hs0. destruct (Hi n) as (_ & Pn & Dn & Nn); [lia|].
    destruct (Hspec [] _ ltac:(constructor) Dn) as (E1 & E2 & E3 & E4 & E5 & E6).
    change (lit "bytes=-" ++ Itoa n) with (lit "bytes=" ++ [] ++ Byte.x2d :: Itoa n).
    unfold parseRange. rewrite E1, E2, E3, E4, E5, E6. cbn [negb]. destruct (Z.ltb_spec size 0); [lia|].
    rewrite bool_decide_eq_true_2, Pn by done. destruct (Z.eqb_spec n 0); [lia|].
    destruct (Z.ltb_spec size n); cbv zeta; (destruct (size <=? _) eqn:El; [apply Z.leb_le in El; lia|]); do 2 f_equal; lia.
Qed.

(** ** The binary search *)
Lemma search_loop_spec fuel i j n f : (j - i < fuel)%nat -> (i ≤ j ≤ n)%nat ->
  (forall a b, (a ≤ b < n)%nat -> f a = true -> f b = true) ->
  (forall a, (a < i)%nat -> f a = false) -> (forall a, (j ≤ a < n)%nat -> f a = true) ->
  let k := search_loop fuel i j f in
  (k ≤ n)%nat /\ (forall a, (a < k)%nat -> f a = false) /\ (forall a, (k ≤ a < n)%nat -> f a = true).
Proof.
  revert i j. induction fuel as [|fuel IH]; intros i j Hf Hij Hmono Hlo Hhi; [lia|]. cbn [search_loop].
  destruct (Nat.ltb_spec i j).
  2: { cbv zeta. split_and!; [lia|done|]. intros a Ha. apply Hhi. lia. }
  set (h := ((i + j) / 2)%nat). assert (i ≤ h < j)%nat as Hh.
  { unfold h. split; [apply Nat.div_le_lower_bound; lia|apply Nat.Div0.div_lt_upper_bound; lia]. }
  cbv zeta. destruct (f h) eqn:Efh.
  - apply IH; [lia|lia|done|done|]. intros a Ha. apply (Hmono h a); [lia|done].
  - apply IH; [lia|lia|done| |done]. intros a Ha. destruct (f a) eqn:Efa; [|done].
    rewrite (Hmono a h) in Efh; [done|lia|done].
Qed.
Lemma Search_spec n f : (forall a b, (a ≤ b < n)%nat -> f a = true -> f b = true) ->
  (Search n f ≤ n)%nat /\ (forall a, (a < Search n f)%nat -> f a = false) /\
  (forall a, (Search n f ≤ a < n)%nat -> f a = true).
Proof. intros Hm. apply search_loop_spec; [lia|lia|done|lia|lia]. Qed.

(** ** Block lists *)
Section exact.
Context `{Multiformats} `{!MultiformatsLaws} `{Protos} `{!ProtosLaws} (RawBlock : MID -> result bytes).

(** the blocks [l] spell [c], and their sizes and offsets are those of their data *)
Record exact_by (pieces : list bytes) (l : blockList) (c : bytes) : Prop := {
  ex_blocks : Forall2 (λ b d, RawBlock (gb_mid b) = Ok d /\ gb_size b = zlen d /\ wf_mid (gb_mid b)) l.1 pieces;
  ex_concat : concat pieces = c;
  ex_offset i b : l.1 !! i = Some b -> gb_offset b = zlen (concat (take i pieces));
  ex_total : l.2 = zlen c;
}.
Definition exact (l : blockList) (c : bytes) : Prop := exists pieces, exact_by pieces l c.
Lemma exact_nil : exact ([], 0) [].
Proof. exists []. split; [constructor|done|by intros []|done]. Qed.
Lemma add_block_exact m d l c : wf_mid m -> exact l c -> RawBlock m = Ok d -> zlen (c ++ d) < 2 ^ 63 ->
  exact (add_block m (zlen d) l) (c ++ d).
Proof.
  intros Hm [ps [HF Hc Ho Ht]] Hd Hlt. exists (ps ++ [d]). rewrite zlen_app in Hlt.
  pose proof (zlen_nonneg c). pose proof (zlen_nonneg d). split; cbn [add_block fst snd].
  - apply Forall2_app; [done|]. by constructor.
  - rewrite concat_app. cbn [concat]. by rewrite app_nil_r, Hc.
  - intros i b Hb. pose proof (Forall2_length _ _ _ HF) as Hlen. apply lookup_app_Some in Hb as [Hb|[Hi Hb]].
    + rewrite take_app_le by (apply lookup_lt_Some in Hb; lia). by apply Ho.
    + apply list_lookup_singleton_Some in Hb as [Hz <-]. cbn [gb_offset]. rewrite Ht.
      rewrite take_app_le, firstn_all2 by lia. by rewrite Hc.
  - rewrite Ht, zlen_app. apply i64_small. lia.
Qed.

(** [buildBlockList] spells [c] for every fuel that is enough *)
Definition spells (root : MID) (c : bytes) : Prop := exists h, forall fuel,
  (exists l, buildBlockList RawBlock fuel root = Ok l /\ exact l c) \/
  ((fuel ≤ h)%nat /\ buildBlockList RawBlock fuel root = Err OutOfFuel).

(** a tree of links, its leaves not mistaken for nodes *)
Definition plain_leaf (d : bytes) : Prop := forall n, unmarshal (A := DAGNode) d = Ok n -> isInternalNode d = None -> dn_Links n = [].
Definition served (m : MID) (d : bytes) : Prop := RawBlock m = Ok d /\ plain_leaf d.
Lemma walkRawDAG_tree alg h m d c : wf_mid m -> RawBlock m = Ok d -> Tree alg served h m c ->
  forall fuel l c0, exact l c0 -> zlen (c0 ++ c) < 2 ^ 63 ->
  (exists l', walkRawDAG RawBlock fuel m d l = Ok l' /\ exact l' (c0 ++ c)) \/
  ((fuel ≤ h)%nat /\ walkRawDAG RawBlock fuel m d l = Err OutOfFuel).
Proof.
  revert m d c. induction h as [|h IH]; intros m d c Hm Hd HT; [done|].
  cbn [Tree] in HT. destruct HT as (d' & _ & [Hd' Hpl] & HT). assert (d' = d) as -> by congruence.
  intros fuel l c0 Hl Hlt. destruct fuel as [|fuel]; [right; split; [lia|done]|]. cbn [walkRawDAG].
  destruct (isInternalNode d) as [links|] eqn:Ei.
  - destruct HT as (cs & -> & HF).
    assert (exists node, unmarshal (A := DAGNode) d = Ok node /\ dn_Links node = links /\ links ≠ []) as (node & En & El & Hne).
    { clear -Ei. unfold isInternalNode in Ei. destruct (unmarshal d) as [node|]; [|done]. exists node.
      destruct (bool_decide (dn_Links node = [])) eqn:E1; [done|]. apply bool_decide_eq_false in E1.
      destruct (bool_decide (dn_Data node ≠ [])); [done|]. cbn [orb] in Ei.
      destruct (marshal _); [|done]. case_bool_decide; [|done]. by simplify_eq. }
    rewrite En, El. destruct (Z.ltb_spec 0 (zlen links)) as [_|Hz].
    2: { exfalso. apply Hne. destruct links; [done|]. unfold zlen in Hz. simpl in Hz. lia. }
    clear En El Hne Ei Hpl Hd Hd' Hm. revert l c0 Hl Hlt.
    induction HF as [|s c links cs (child & Hp & HTc) _ IHl]; intros l c0 Hl Hlt; cbn [gw_links concat].
    { left. exists l. by rewrite app_nil_r. }
    rewrite Hp. cbn [mbind result_bind].
    assert (exists dc, RawBlock child = Ok dc) as [dc Hdc].
    { destruct h; [done|]. cbn [Tree] in HTc. destruct HTc as (dc & _ & [? _] & _). by exists dc. }
    rewrite Hdc. cbn [mbind result_bind concat] in *. rewrite app_assoc in Hlt |- *.
    assert (zlen (c0 ++ c) < 2 ^ 63) by (pose proof (zlen_nonneg (concat cs)); rewrite zlen_app in Hlt; lia).
    destruct (IH child dc c ltac:(by eapply Parse_wf) Hdc HTc fuel l c0 Hl) as [(l1 & -> & Hl1)|[Hf ->]]; [done| |].
    + cbn [mbind result_bind]. destruct (IHl l1 (c0 ++ c) Hl1 Hlt) as [?|[? ?]]; [by left|by right].
    + right. split; [lia|done].
  - left. subst c. destruct (unmarshal (A := DAGNode) d) as [node|] eqn:En.
    + rewrite (Hpl node En Ei). cbn. eexists. split; [done|]. by apply add_block_exact.
    + eexists. split; [done|]. by apply add_block_exact.
Qed.
Lemma tree_spells alg h m c : wf_mid m -> codec m ≠ CodecMemFS -> Tree alg served h m c -> zlen c < 2 ^ 63 -> spells m c.
Proof.
  intros Hm Hc HT Hlt. exists h. intros fuel. unfold buildBlockList.
  assert (exists d, RawBlock m = Ok d) as [d Hd].
  { destruct h; [done|]. cbn [Tree] in HT. destruct HT as (d & _ & [? _] & _). by exists d. }
  rewrite Hd. cbn [mbind result_bind]. unfold Codec. rewrite (proj2 (Z.eqb_neq _ _) Hc).
  by apply (walkRawDAG_tree alg h m d c Hm Hd HT fuel ([], 0) [] exact_nil).
Qed.
End exact.

(** the files of [AddFile] *)
Section files.
Context `{Multiformats} `{!MultiformatsLaws} `{Protos} `{!ProtosLaws} (alg : Z) (Halg : isSupportedHash alg = true).
Context {St : Type} `{Blockstore St} (s : St).
#[local] Abbreviation raw := (λ m, bs_Get m s).
Lemma gw_blocks_tree level children dss : Forall2 (file_tree alg s level) children dss ->
  forall fuel l c0, exact raw l c0 -> zlen (c0 ++ concat (concat dss)) < 2 ^ 63 ->
  (exists l', gw_blocks raw (walkMemFS raw fuel) (map (block_ref level) children) l = Ok l' /\ exact raw l' (c0 ++ concat (concat dss))) \/
  ((fuel ≤ level)%nat /\ gw_blocks raw (walkMemFS raw fuel) (map (block_ref level) children) l = Err OutOfFuel).
Proof.
  revert children dss. induction level as [|level IH]; intros children dss HF fuel;
    induction HF as [|r ds children dss Hr _ IHf]; intros l c0 Hl Hlt; cbn [map gw_blocks concat].
  1,3: left; exists l; by rewrite app_nil_r.
  all: cbn [concat] in Hlt; rewrite concat_app, app_assoc in Hlt |- *.
  all: assert (zlen (c0 ++ concat ds) < 2 ^ 63) as Hlt1
    by (pose proof (zlen_nonneg (concat (concat dss))); rewrite zlen_app in Hlt; lia).
  - destruct Hr as (d & -> & Hd & Hsz & Hm & Hg). change (mb_Mid (block_ref 0 r)) with (Hash (br_mid r)). change (mb_Size (block_ref 0 r)) with (br_size r).
    destruct (FromBytesWithCodec_wf alg d CodecRaw _ Halg ltac:(done) Hm) as [Hw Hc].
    rewrite bool_decide_eq_false_2 by by apply wf_Hash_ne. destruct (Z.ltb_spec 0 (br_size r)); [|lia].
    rewrite FromMultihash_ok by (done || apply Hw). cbn [mbind result_bind].
    assert (mkMID 1 CodecRaw (Hash (br_mid r)) (Prefix ++ cid_String CodecRaw (Hash (br_mid r))) = br_mid r) as ->.
    { rewrite <-Hc. destruct (br_mid r), Hw. cbn in *. by subst. }
    rewrite Hsz, i64_small by lia. cbn [concat] in *. rewrite app_nil_r in *.
    apply IHf; [|done]. by apply add_block_exact.
  - destruct Hr as (kids & kdss & nraw & Hne & -> & Hk & _ & Hraw & Hm & Hg). change (mb_Mid (block_ref (S level) r)) with (Hash (br_mid r)). change (mb_Size (block_ref (S level) r)) with 0.
    destruct (FromBytesWithCodec_wf alg nraw CodecMemFS _ Halg ltac:(done) Hm) as [Hw Hc].
    rewrite bool_decide_eq_false_2 by by apply wf_Hash_ne. cbn [Z.ltb Z.compare].
    rewrite FromMultihash_ok by (done || apply Hw). cbn [mbind result_bind].
    assert (mkMID 1 CodecMemFS (Hash (br_mid r)) (Prefix ++ cid_String CodecMemFS (Hash (br_mid r))) = br_mid r) as ->.
    { rewrite <-Hc. destruct (br_mid r), Hw. cbn in *. by subst. }
    rewrite Hg. cbn [mbind result_bind]. rewrite (unmarshal_marshal _ _ Hraw). cbn [mbind result_bind].
    destruct fuel as [|fuel]; [right; split; [lia|done]|]. cbn [walkMemFS]. unfold inner_node at 1. cbn [mn_Blocks].
    destruct (IH kids kdss Hk fuel l c0 Hl Hlt1) as [(l1 & E1 & Hl1)|[Hf E1]]; cbn [inner_node mn_Blocks]; rewrite E1; cbn [mbind result_bind].
    + by apply IHf.
    + right. split; [lia|done].
Qed.
Lemma file_spells m c : file_at alg s m c -> spells raw m c.
Proof.
  intros (level & children & dss & pb & Hn & Hty & _ & Hlt & Hb & Hf & ->). exists (S level). intros fuel.
  pose proof (node_at_wf alg Halg _ _ _ Hn) as [Hw Hc]. destruct Hn as (nraw & Hraw & _ & Hg).
  unfold buildBlockList. rewrite Hg. cbn [mbind result_bind]. unfold Codec. rewrite Hc, Z.eqb_refl, (unmarshal_marshal _ _ Hraw).
  cbn [mbind result_bind]. rewrite Hty. cbn [MemFSType_FILE Z.eqb negb]. destruct fuel as [|fuel]; [right; split; [lia|done]|].
  cbn [walkMemFS]. rewrite Hb.
  destruct (gw_blocks_tree level children dss Hf fuel ([], 0) [] (exact_nil raw) Hlt) as [?|[? ?]]; [by left|right; split; [lia|done]].
Qed.
End files.

(** ** The cache *)
Section cache.
(** what the cache holds under its keys; other users of the cache have keys of their own *)
Context (P : bytes -> bytes -> Prop).
Definition keyed (es : list (bytes * bytes)) : Prop := forall k v, (k, v) ∈ es -> P k v.
Definition coherent (s : shardedLRU) : Prop :=
  Forall (λ l, maxBytes l < 2 ^ 63 /\ exists es, lru_holds l es /\ keyed es) (shards s).
Lemma find_key_elem {V} (k : bytes) (v : V) l : find_key k l = Some v -> (k, v) ∈ l.
Proof.
  unfold find_key. destruct (list_find _ l) as [[i [k' v']]|] eqn:E; [|done]. intros [= <-].
  apply list_find_Some in E as (Hi & Hk & _). cbn in Hk. subst k'. by eapply list_elem_of_lookup_2.
Qed.
Lemma to_front_elem {V} (k : bytes) (v : V) l e : e ∈ to_front k v l -> e = (k, v) \/ e ∈ l.
Proof. unfold to_front. intros [->|Hin]%elem_of_cons; [by left|]. apply list_elem_of_filter in Hin as [_ ?]. by right. Qed.
Lemma coherent_insert s i l : coherent s -> (maxBytes l < 2 ^ 63 /\ exists es, lru_holds l es /\ keyed es) ->
  coherent (mkSharded (<[i := l]> (shards s)) (mask s)).
Proof. intros Hs Hl. by apply Forall_insert. Qed.
Lemma get_coherent key s : coherent s -> coherent (sharded_get key s).2 /\ forall v, (sharded_get key s).1 = Some v -> P key v.
Proof.
  intros Hs. unfold sharded_get. destruct (shards s !! _) as [l|] eqn:El; [|done].
  destruct (Forall_lookup_1 _ _ _ _ Hs El) as (Hmax & es & Hes & Hk).
  destruct (lru_get_holds l es key Hes) as (Er & Em & Hh). destruct (lru_get key l) as [r l'] eqn:Eg. cbn [fst snd] in *.
  split.
  - apply coherent_insert; [done|]. rewrite Em. split; [done|]. eexists. split; [exact Hh|]. unfold model_get.
    destruct (find_key key es) as [v|] eqn:Ef; [|done]. cbn [snd]. intros k v' [[= -> ->]|Hin]%to_front_elem; [|by apply Hk].
    by apply Hk, find_key_elem.
  - intros v Hr. subst r. unfold model_get in Hr. destruct (find_key key es) as [v'|] eqn:Ef; [|done].
    cbn in Hr. injection Hr as ->. by apply Hk, find_key_elem.
Qed.
Lemma put_coherent key d s : P key d -> zlen d < 2 ^ 63 -> coherent s -> coherent (sharded_put key d s).
Proof.
  intros Hd Hlt Hs. unfold sharded_put. destruct (shards s !! _) as [l|] eqn:El; [|done].
  destruct (Forall_lookup_1 _ _ _ _ Hs El) as (Hmax & es & Hes & Hk).
  destruct (lru_put_holds l es key d Hes) as (Em & Hh); [lia|].
  apply coherent_insert; [done|]. rewrite Em. split; [done|]. eexists. split; [exact Hh|]. unfold model_put.
  intros k v Hin.
  assert ((k, v) ∈ to_front key d es) as Hin' by (destruct (keep_prefix zlen (maxBytes l) (to_front key d es)) as [? ->]; set_solver).
  apply to_front_elem in Hin' as [[= -> ->]|?]; [done|by apply Hk].
Qed.
Lemma new_coherent max count : 0 <= max < 2 ^ 63 -> count < 2 ^ 62 -> coherent (newShardedLRU max count).
Proof.
  intros Hm Hc. apply Forall_forall. intros l Hl. destruct (shard_caps_least max count l ltac:(lia) Hc Hl) as [Hb Hh]. split; [lia|].
  exists []. split; [done|]. by intros k v Hin%elem_of_nil.
Qed.
End cache.
(** under the key of a block is that block *)
Record guards `{Multiformats} (RawBlock : MID -> result bytes) (P : bytes -> bytes -> Prop) : Prop := {
  gd_in m d : wf_mid m -> RawBlock m = Ok d -> P (blockKey m) d;
  gd_out m d : wf_mid m -> P (blockKey m) d -> RawBlock m = Ok d;
}.
Definition block_fact `{Multiformats} (RawBlock : MID -> result bytes) (k v : bytes) : Prop := forall m, wf_mid m -> k = blockKey m -> RawBlock m = Ok v.
Lemma blockKey_inj `{Multiformats} `{!MultiformatsLaws} m1 m2 : wf_mid m1 -> wf_mid m2 -> blockKey m1 = blockKey m2 -> m1 = m2.
Proof. intros H1 H2 E%(inj (app (lit "block:"))). by apply String_inj. Qed.
Lemma block_fact_guards `{Multiformats} `{!MultiformatsLaws} RawBlock : guards RawBlock (block_fact RawBlock).
Proof. split; intros m d Hm Hd; [|by apply Hd]. intros m' Hm' E. by apply blockKey_inj in E as <-. Qed.

(** ** The reader *)
Section reader_facts.
Context `{Multiformats} `{!MultiformatsLaws} (RawBlock : MID -> result bytes) (P : bytes -> bytes -> Prop) (HP : guards RawBlock P).
Record ranging (pieces : list bytes) (c : bytes) (r : dagReader) : Prop := {
  rg_exact : exact_by RawBlock pieces (dr_blocks r, dr_totalSize r) c;
  rg_pos : 0 <= dr_pos r;
  rg_cur idx d : dr_curBlockIdx r = Some idx -> dr_curBlockBuf r = Some d -> pieces !! idx = Some d;
}.
Lemma take_concat_mono (ps : list bytes) i j : (i ≤ j)%nat -> zlen (concat (take i ps)) <= zlen (concat (take j ps)).
Proof.
  intros Hij. replace (take i ps) with (take i (take j ps)) by (rewrite take_take; f_equal; lia).
  rewrite <-(take_drop i (take j ps)) at 2. rewrite concat_app, zlen_app. pose proof (zlen_nonneg (concat (drop i (take j ps)))). lia.
Qed.
Lemma findBlockIndex_spec pieces c r : ranging pieces c r -> zlen c < 2 ^ 63 -> dr_pos r < zlen c ->
  exists idx b d, findBlockIndex (dr_blocks r) (dr_pos r) = Some idx /\ dr_blocks r !! idx = Some b /\ pieces !! idx = Some d /\
    gb_offset b = zlen (concat (take idx pieces)) /\ gb_offset b <= dr_pos r < gb_offset b + zlen d.
Proof.
  intros [[HF Hc Ho Ht] Hp _] Hlt Hpos. cbn [fst snd] in *. pose proof (Forall2_length _ _ _ HF) as Hlen.
  unfold findBlockIndex. set (f := λ i, match dr_blocks r !! i with Some b => dr_pos r <? gb_offset b | None => false end).
  destruct (Search_spec (length (dr_blocks r)) f) as (Hk & Hlo & Hhi).
  { intros a b Hab. unfold f. destruct (dr_blocks r !! a) as [ba|] eqn:Ea; [|done].
    destruct (dr_blocks r !! b) as [bb|] eqn:Eb; [|apply lookup_ge_None in Eb; lia].
    rewrite (Ho _ _ Ea), (Ho _ _ Eb), !Z.ltb_lt. pose proof (take_concat_mono pieces a b ltac:(lia)). lia. }
  destruct (Search (length (dr_blocks r)) f) as [|idx] eqn:Es.
  { exfalso. destruct (dr_blocks r) as [|b bs] eqn:Eb; [destruct pieces; [cbn [concat] in Hc; subst c; change (zlen (@nil byte)) with 0 in Hpos; lia|done]|].
    specialize (Hhi 0%nat ltac:(simpl; lia)). unfold f in Hhi. pose proof (Ho 0%nat b eq_refl) as Hb0.
    change (zlen (concat (take 0 pieces))) with 0 in Hb0. rewrite ?Eb in Hhi. cbn [lookup list_lookup] in Hhi.
    rewrite Hb0 in Hhi. apply Z.ltb_lt in Hhi. lia. }
  destruct (lookup_lt_is_Some_2 (dr_blocks r) idx ltac:(lia)) as [b Hb].
  destruct (Forall2_lookup_l _ _ _ _ _ HF Hb) as (d & Hd & _ & Hsz & _). rewrite Hb.
  pose proof (Hlo idx ltac:(lia)) as Hf. unfold f in Hf. rewrite Hb in Hf. apply Z.ltb_ge in Hf.
  destruct (piece_at _ _ _ Hd) as [_ Hz]. rewrite Hc in Hz. pose proof (zlen_nonneg (concat (drop (S idx) pieces))).
  pose proof (zlen_nonneg d). pose proof (zlen_nonneg (concat (take idx pieces))). pose proof (Ho _ _ Hb) as Hob.
  assert (dr_pos r < gb_offset b + zlen d) as Hend.
  { rewrite Hob. destruct (dr_blocks r !! S idx) as [b2|] eqn:Eb2.
    - pose proof (Hhi (S idx)) as Hf2. unfold f in Hf2. rewrite Eb2 in Hf2. apply lookup_lt_Some in Eb2 as Hlt2.
      specialize (Hf2 ltac:(lia)). apply Z.ltb_lt in Hf2. rewrite (Ho _ _ Eb2), (take_S_r _ _ _ Hd), concat_app, zlen_app in Hf2.
      cbn [concat] in Hf2. rewrite app_nil_r in Hf2. lia.
    - apply lookup_ge_None in Eb2. rewrite (skipn_all2 (n := S idx) pieces) in Hz by lia. change (zlen (concat (@nil bytes))) with 0 in Hz. lia. }
  exists idx, b, d. rewrite Hsz, i64_small by lia.
  destruct (Z.leb_spec (gb_offset b) (dr_pos r)), (Z.ltb_spec (dr_pos r) (gb_offset b + zlen d)); try lia. done.
Qed.
Lemma load_block_spec pieces c r cache idx b d : ranging pieces c r -> zlen c < 2 ^ 63 -> coherent P cache ->
  dr_blocks r !! idx = Some b -> pieces !! idx = Some d ->
  exists cache' r', load_block RawBlock idx b (cache, r) = (Ok d, (cache', r')) /\ coherent P cache' /\
    ranging pieces c r' /\ dr_pos r' = dr_pos r /\ dr_blocks r' = dr_blocks r /\ dr_totalSize r' = dr_totalSize r.
Proof.
  intros Hr Hlt Hs Hb Hd. destruct Hr as [He Hp Hcur].
  destruct (Forall2_lookup_l _ _ _ _ _ (ex_blocks _ _ _ _ He) Hb) as (d' & Hd' & Hraw & _ & Hm). cbn [fst] in *.
  assert (d' = d) as -> by congruence.
  assert (zlen d < 2 ^ 63) as Hdl.
  { destruct (piece_at _ _ _ Hd) as [_ Hz]. rewrite (ex_concat _ _ _ _ He) in Hz.
    pose proof (zlen_nonneg (concat (take idx pieces))). pose proof (zlen_nonneg (concat (drop (S idx) pieces))). lia. }
  unfold load_block.
  destruct (if bool_decide (dr_curBlockIdx r = Some idx) then dr_curBlockBuf r else None) as [d2|] eqn:Ec.
  { case_bool_decide as Hi; [|done]. pose proof (Hcur _ _ Hi Ec). assert (d2 = d) as -> by congruence.
    exists cache, r. split_and!; done. }
  destruct (get_coherent P (blockKey (gb_mid b)) cache Hs) as [Hs' Hg].
  destruct (sharded_get (blockKey (gb_mid b)) cache) as [[d2|] cache'] eqn:Eg; cbn [fst snd] in *.
  - pose proof (gd_out _ _ HP (gb_mid b) d2 Hm (Hg d2 eq_refl)) as E2. assert (d2 = d) as -> by congruence.
    eexists _, _. split; [reflexivity|]. split_and!; [done| |done..]. split; [done..|]. by intros ? ? [= <-] [= <-].
  - rewrite Hraw. eexists _, _. split; [reflexivity|]. split_and!; [apply put_coherent; [by apply (gd_in _ _ HP)|done..]| |done..].
    split; [done..|]. by intros ? ? [= <-] [= <-].
Qed.
(** one [Read]: the next bytes, at least one *)
Lemma dr_Read_spec pieces c r cache k : ranging pieces c r -> zlen c < 2 ^ 63 -> coherent P cache ->
  dr_pos r < zlen c -> (0 < k)%nat ->
  exists n cache' r', dr_Read RawBlock k (cache, r) = (Ok (take n (drop (Z.to_nat (dr_pos r)) c)), (cache', r')) /\
    (0 < n ≤ k)%nat /\ dr_pos r + Z.of_nat n <= zlen c /\ coherent P cache' /\ ranging pieces c r' /\
    dr_pos r' = dr_pos r + Z.of_nat n.
Proof.
  intros Hr Hlt Hs Hpos Hk. destruct (findBlockIndex_spec _ _ _ Hr Hlt Hpos) as (idx & b & d & Ef & Hb & Hd & Ho & Hin).
  unfold dr_Read. pose proof (ex_total _ _ _ _ (rg_exact _ _ _ Hr)) as Ht. cbn [snd] in Ht. rewrite Ht.
  destruct (Z.leb_spec (zlen c) (dr_pos r)); [lia|]. destruct (Nat.eqb_spec k 0) as [|Hk0]; [lia|]. rewrite Ef, Hb.
  destruct (load_block_spec _ _ _ cache _ _ _ Hr Hlt Hs Hb Hd) as (cache' & r' & -> & Hs' & Hr' & Ep & Eb & Et).
  cbv zeta. rewrite Ep. destruct (Z.leb_spec (zlen d) (dr_pos r - gb_offset b)); [lia|].
  set (off := Z.to_nat (dr_pos r - gb_offset b)). destruct (piece_at _ _ _ Hd) as [Edrop Ez].
  pose proof (rg_pos _ _ _ Hr). rewrite (ex_concat _ _ _ _ (rg_exact _ _ _ Hr)) in Edrop, Ez.
  pose proof (zlen_nonneg (concat (drop (S idx) pieces))) as Hrest. pose proof (zlen_nonneg (concat (take idx pieces))).
  assert (drop (Z.to_nat (dr_pos r)) c = drop off d ++ concat (drop (S idx) pieces)) as Ec.
  { rewrite (drop_pos c (length (concat (take idx pieces))) off) by (unfold off, zlen in *; lia).
    rewrite Edrop. by rewrite drop_app_le by (unfold off, zlen in *; lia). }
  set (n := length (take k (drop off d))).
  assert (n = Nat.min k (length d - off)) as En by (unfold n; by rewrite length_take, length_drop).
  assert (take k (drop off d) = take n (drop (Z.to_nat (dr_pos r)) c)) as Etk.
  { rewrite Ec, take_app_le by (rewrite length_drop; lia). unfold n. rewrite length_take.
    by rewrite <-take_take, (firstn_all2 (n := length (drop off d))) by lia. }
  assert (zlen (take k (drop off d)) = Z.of_nat n) as El by done.
  assert (0 < n)%nat by (unfold off, zlen in *; lia).
  assert (dr_pos r + Z.of_nat n <= zlen c) as Hle by (unfold off, zlen in *; lia).
  exists n, cache'. eexists. rewrite El, i64_small by lia. rewrite Etk. split; [reflexivity|].
  split_and!; [done|lia|done|done| |done]. destruct Hr' as [He' _ Hcur']. split; [done|cbn; lia|done].
Qed.
Lemma CopyN_spec pieces c fuel buf n r cache : ranging pieces c r -> zlen c < 2 ^ 63 -> coherent P cache ->
  (0 < buf)%nat -> (n < fuel)%nat -> dr_pos r + Z.of_nat n <= zlen c ->
  exists cache' r', CopyN RawBlock fuel buf n (cache, r) = (take n (drop (Z.to_nat (dr_pos r)) c), (cache', r')) /\
    coherent P cache'.
Proof.
  revert n r cache. induction fuel as [|fuel IH]; intros n r cache Hr Hlt Hs Hbuf Hf Hn; [lia|]. cbn [CopyN].
  destruct (Nat.eqb_spec n 0) as [->|Hn0]; [by eexists _, _|].
  destruct (dr_Read_spec pieces c r cache (Nat.min buf n) Hr Hlt Hs ltac:(lia) ltac:(lia)) as (k & cache1 & r1 & -> & Hk & Hle & Hs1 & Hr1 & Ep).
  pose proof (rg_pos _ _ _ Hr).
  assert (length (take k (drop (Z.to_nat (dr_pos r)) c)) = k) as El by (rewrite length_take, length_drop; unfold zlen in *; lia).
  rewrite El. destruct (IH (n - k)%nat r1 cache1 Hr1 Hlt Hs1 Hbuf ltac:(lia) ltac:(lia)) as (cache2 & r2 & -> & Hs2).
  exists cache2, r2. split; [|done]. f_equal. rewrite Ep.
  replace (Z.to_nat (dr_pos r + Z.of_nat k)) with (Z.to_nat (dr_pos r) + k)%nat by lia. rewrite <-drop_drop.
  generalize (drop (Z.to_nat (dr_pos r)) c) as t. intros t.
  rewrite <-(take_drop k (take n t)), take_take, Nat.min_l by lia. f_equal. by rewrite skipn_firstn_comm.
Qed.
End reader_facts.

(** ** The answer to a range request *)
Section stream.
Context `{Multiformats} `{!MultiformatsLaws} `{Protos} `{!ProtosLaws} (RawBlock : MID -> result bytes) (P : bytes -> bytes -> Prop) (HP : guards RawBlock P).
(** what the block-list cache holds was built *)
Definition built (es : list (bytes * blockList)) : Prop := forall k l m, (k, l) ∈ es -> wf_mid m -> k = String m ->
  exists fuel, buildBlockList RawBlock fuel m = Ok l.
Record gateway_ok (g : gateway) : Prop := {
  go_lru : coherent P (gw_lru g);
  go_max : 0 <= maxEntries (gw_blockLists g);
  go_lists : exists es, models (bl_list (gw_blockLists g)) es /\ built es;
}.
Lemma bl_max {V} k (e : V) c : maxEntries (bl_get k c).2 = maxEntries c /\ maxEntries (bl_put k e c) = maxEntries c.
Proof.
  assert (forall fuel (b : blockListCache V), maxEntries (bl_evict fuel b) = maxEntries b) as He.
  { induction fuel as [|fuel IH]; intros b; [done|]. cbn [bl_evict]. destruct (_ <? _); [|done]. destruct (ch_tail _); [|done]. by rewrite IH. }
  split; [unfold bl_get|unfold bl_put; by rewrite He]. by destruct (ch_items (bl_list c) !! k).
Qed.
(** the list is built with this fuel, and what is built with any fuel spells [c] *)
Definition spelled (fuel : nat) (m : MID) (c : bytes) : Prop :=
  is_ok (buildBlockList RawBlock fuel m) = true /\ forall fuel l, buildBlockList RawBlock fuel m = Ok l -> exact RawBlock l c.
Lemma spells_spelled m c : spells RawBlock m c -> exists h, forall fuel, (h < fuel)%nat -> spelled fuel m c.
Proof.
  intros [h Hsp]. exists h. intros fuel Hf. split.
  - destruct (Hsp fuel) as [(l & -> & _)|[? _]]; [done|lia].
  - intros fuel0 l E0. destruct (Hsp fuel0) as [(l' & E1 & Hx)|[_ E1]]; [|congruence]. assert (l' = l) as -> by congruence. done.
Qed.
(** any answer leaves a true cache of lists *)
Lemma cachedBlockList_ok fuel m g : wf_mid m -> gateway_ok g ->
  gateway_ok (cachedBlockList RawBlock fuel m g).2 /\
  forall l, (cachedBlockList RawBlock fuel m g).1 = Ok l -> exists fuel, buildBlockList RawBlock fuel m = Ok l.
Proof.
  intros Hm [Hl Hmax (es & Hes & Hb)]. unfold cachedBlockList.
  destruct (bl_get_models _ es (String m) Hes) as [Eg Hg]. destruct (bl_max (String m) (([], 0) : blockList) (gw_blockLists g)) as [Em _].
  destruct (bl_get (String m) (gw_blockLists g)) as [r c1] eqn:Ebl. cbn [fst snd] in *. subst r. unfold model_get in *.
  destruct (find_key (String m) es) as [l|] eqn:Ef; cbn [fst snd] in *.
  - apply find_key_elem in Ef. destruct (Hb _ _ m Ef Hm eq_refl) as [fuel0 E0]. split; [|intros ? [= <-]; by exists fuel0].
    split; cbn; [done|by rewrite Em|]. eexists. split; [exact Hg|].
    intros k l2 m2 [[= -> ->]|Hin]%to_front_elem Hm2 Hk; [by apply (Hb _ _ m2 Ef)|by eapply Hb].
  - destruct (buildBlockList RawBlock fuel m) as [l|e] eqn:E0; cbn [fst snd].
    + split; [|intros ? [= <-]; by exists fuel].
      split; cbn [gw_lru gw_blockLists]; [done|by rewrite (proj2 (bl_max _ _ c1)), Em|]. eexists.
      split; [apply bl_put_models; [exact Hg|by rewrite Em]|]. rewrite Em. unfold model_put. intros k l2 m2 Hin Hm2 Hk.
      assert ((k, l2) ∈ to_front (String m) l es) as Hin' by (destruct (keep_prefix (λ _, 1) (maxEntries (gw_blockLists g)) (to_front (String m) l es)) as [? ->]; set_solver).
      apply to_front_elem in Hin' as [[= E ->]|Hin']; [|by eapply Hb].
      assert (m2 = m) as -> by (apply String_inj; [done|done|congruence]).
      by exists fuel.
    + split; [|done]. split; cbn; [done|by rewrite Em|]. by exists es.
Qed.
Lemma cachedBlockList_spec fuel m c g : wf_mid m -> spelled fuel m c -> gateway_ok g ->
  exists l g', cachedBlockList RawBlock fuel m g = (Ok l, g') /\ exact RawBlock l c /\ gateway_ok g'.
Proof.
  intros Hm [Hok Hsp] Hg. destruct (cachedBlockList_ok fuel m g Hm Hg) as [Hg' Hl].
  destruct (cachedBlockList RawBlock fuel m g) as [[l|e] g'] eqn:E; cbn [fst snd] in *.
  - destruct (Hl l eq_refl) as [fuel0 E0]. by eauto 10.
  - exfalso. unfold cachedBlockList in E. destruct (bl_get _ _) as [[?|] ?]; [done|].
    by destruct (buildBlockList RawBlock fuel m).
Qed.

(** the content behind a MID: a file of core/memfs in the store, or a tree of links *)
Inductive content_of (alg : Z) {St : Type} `{Blockstore St} (m : MID) (c : bytes) : Prop :=
  | content_file s : RawBlock = (λ m, bs_Get m s) -> file_at alg s m c -> content_of alg m c
  | content_tree h : codec m ≠ CodecMemFS -> Tree alg (served RawBlock) h m c -> zlen c < 2 ^ 63 -> content_of alg m c.
Lemma content_spells alg {St : Type} `{Blockstore St} m c : isSupportedHash alg = true -> wf_mid m ->
  content_of alg m c -> spells RawBlock m c /\ zlen c < 2 ^ 63.
Proof.
  intros Ha Hm [s -> Hf|h Hc HT Hlt]; [|split; [by eapply tree_spells|done]]. split; [by apply (file_spells alg Ha)|].
  by destruct Hf as (level & ch & dss & pb & _ & _ & _ & Hlt & _).
Qed.

Lemma stream_at fuel m c rng buf g : wf_mid m -> spelled fuel m c -> zlen c < 2 ^ 63 -> rng ≠ [] -> (0 < buf)%nat -> gateway_ok g ->
  exists g', gateway_ok g' /\
    handleStreamRange RawBlock fuel buf rng m (zlen c) g =
      (match parseRange rng (zlen c) with
       | Err e => RangeError e
       | Ok (s, e) => Partial s (e - 1) (zlen c) (e - s) (take (Z.to_nat (e - s)) (drop (Z.to_nat s) c))
       end, g').
Proof.
  intros Hm Hsp Hlt Hr Hbuf Hg.
  unfold handleStreamRange. rewrite bool_decide_eq_false_2 by done.
  destruct (parseRange rng (zlen c)) as [[s e]|] eqn:Ep; [|by exists g].
  destruct (cachedBlockList_spec fuel m c g Hm Hsp Hg) as (l & g1 & -> & [ps Hx] & Hg1).
  apply parseRange_in in Ep; [|split; [apply zlen_nonneg|done]]. unfold dr_Seek. cbn [Z.eqb].
  destruct (Z.ltb_spec s 0); [lia|]. cbn [newDagReader dr_blocks dr_totalSize dr_curBlockIdx dr_curBlockBuf].
  assert (ranging RawBlock ps c (mkDagReader l.1 (zlen c) s None None)) as Hrg.
  { split; cbn; [|lia|done]. destruct Hx as [? ? ? Ht]. split; [done..|]. cbn. done. }
  destruct (CopyN_spec RawBlock P HP ps c (S (Z.to_nat (e - s))) buf (Z.to_nat (e - s)) _ (gw_lru g1) Hrg Hlt (go_lru _ Hg1) Hbuf ltac:(lia))
    as (cache' & r' & -> & Hs'); [cbn; lia|]. eexists. split; [|reflexivity].
  destruct Hg1 as [_ Hmx Hls]. by split.
Qed.
(** the blocks of any list have good MIDs *)
Definition list_wf (l : blockList) : Prop := Forall (λ b, wf_mid (gb_mid b)) l.1.
Lemma add_block_wf m size l : wf_mid m -> list_wf l -> list_wf (add_block m size l).
Proof. intros Hm Hl. apply Forall_app. split; [done|by constructor]. Qed.
Lemma gw_blocks_wf inner bs l l' : (forall n l l', inner n l = Ok l' -> list_wf l -> list_wf l') ->
  gw_blocks RawBlock inner bs l = Ok l' -> list_wf l -> list_wf l'.
Proof.
  intros Hin. revert l. induction bs as [|b bs IH]; intros l E Hl; cbn [gw_blocks] in E; [by injection E as <-|].
  case_bool_decide; [by eapply IH|]. destruct (FromMultihash _ _) as [child|] eqn:Em; [|done]. cbn [mbind result_bind] in E.
  assert (wf_mid child) as Hw by (eapply FromMultihash_wf; [|exact Em]; by destruct (0 <? mb_Size b)).
  destruct (0 <? mb_Size b).
  - eapply IH; [exact E|]. by apply add_block_wf.
  - destruct (RawBlock child) as [raw|]; [|done]. cbn [mbind result_bind] in E.
    destruct (unmarshal raw) as [node|]; [|done]. cbn [mbind result_bind] in E.
    destruct (inner node l) as [l1|] eqn:El; [|done]. eapply IH; [exact E|]. by eapply Hin.
Qed.
Lemma walkMemFS_wf fuel n l l' : walkMemFS RawBlock fuel n l = Ok l' -> list_wf l -> list_wf l'.
Proof.
  revert n l l'. induction fuel as [|fuel IH]; intros n l l' E Hl; [done|]. cbn [walkMemFS] in E. eapply gw_blocks_wf; [|exact E|exact Hl]. apply IH.
Qed.
Lemma walkRawDAG_wf fuel m d l l' : wf_mid m -> walkRawDAG RawBlock fuel m d l = Ok l' -> list_wf l -> list_wf l'.
Proof.
  revert m d l l'. induction fuel as [|fuel IH]; intros m d l l' Hm E Hl; [done|]. cbn [walkRawDAG] in E.
  assert (forall l', Ok (add_block m (zlen d) l) = Ok l' -> list_wf l') as Hleaf by (intros ? [= <-]; by apply add_block_wf).
  destruct (unmarshal d) as [node|]; [|by apply Hleaf]. destruct (0 <? _); [|by apply Hleaf].
  clear Hleaf. revert l E Hl. generalize (dn_Links node) as links. induction links as [|t links IHl]; intros l E Hl; cbn [gw_links] in E; [by injection E as <-|].
  destruct (Mid.Parse t) as [child|] eqn:Ep; [|done]. cbn [mbind result_bind] in E.
  destruct (RawBlock child) as [raw|]; [|done]. cbn [mbind result_bind] in E.
  destruct (walkRawDAG RawBlock fuel child raw l) as [l1|] eqn:El; [|done]. cbn [mbind result_bind] in E.
  eapply IHl; [exact E|]. eapply IH; [|exact El|done]. by eapply Parse_wf.
Qed.
Lemma buildBlockList_wf fuel m l : wf_mid m -> buildBlockList RawBlock fuel m = Ok l -> list_wf l.
Proof.
  intros Hm E. unfold buildBlockList in E. destruct (RawBlock m) as [raw|]; [|done]. cbn [mbind result_bind] in E.
  assert (list_wf ([], 0)) as Hnil by constructor. destruct (_ =? _).
  - destruct (unmarshal raw) as [node|]; [|done]. cbn [mbind result_bind] in E. destruct (negb _); [done|]. by eapply walkMemFS_wf.
  - by eapply walkRawDAG_wf.
Qed.
(** a byte slice has an int length *)
Context (Hsized : forall m d, RawBlock m = Ok d -> zlen d < 2 ^ 63).
Lemma load_block_ok idx b cache r : wf_mid (gb_mid b) -> coherent P cache -> coherent P (load_block RawBlock idx b (cache, r)).2.1.
Proof.
  intros Hb Hs. unfold load_block. destruct (if bool_decide _ then _ else _); [done|].
  destruct (get_coherent P (blockKey (gb_mid b)) cache Hs) as [Hs' _].
  destruct (sharded_get _ cache) as [[d|] cache']; cbn [fst snd] in *; [done|].
  destruct (RawBlock (gb_mid b)) as [d|] eqn:Ed; [|done]. cbn [fst snd]. apply put_coherent; [by apply (gd_in _ _ HP)|by eapply Hsized|done].
Qed.
Lemma load_block_blocks idx b s : dr_blocks (load_block RawBlock idx b s).2.2 = dr_blocks s.2.
Proof.
  destruct s as [cache r]. unfold load_block. destruct (if bool_decide _ then _ else _); [done|].
  destruct (sharded_get _ cache) as [[d|] cache']; [done|]. by destruct (RawBlock (gb_mid b)).
Qed.
Lemma dr_Read_ok k cache r : Forall (λ b, wf_mid (gb_mid b)) (dr_blocks r) -> coherent P cache ->
  coherent P (dr_Read RawBlock k (cache, r)).2.1 /\ dr_blocks (dr_Read RawBlock k (cache, r)).2.2 = dr_blocks r.
Proof.
  intros Hb Hs. unfold dr_Read. destruct (_ <=? _); [done|]. destruct (_ =? _)%nat; [done|]. destruct (findBlockIndex _ _) as [i|]; [|done].
  destruct (dr_blocks r !! i) as [b|] eqn:Eb; [|done]. pose proof (Forall_lookup_1 _ _ _ _ Hb Eb) as Hw.
  pose proof (load_block_ok i b cache r Hw Hs) as Hl. pose proof (load_block_blocks i b (cache, r)) as El.
  destruct (load_block RawBlock i b (cache, r)) as [[buf|e] [cache' r']]; cbn [fst snd] in *; [|done]. by destruct (_ <=? _).
Qed.
Lemma CopyN_ok fuel buf n cache r : Forall (λ b, wf_mid (gb_mid b)) (dr_blocks r) -> coherent P cache ->
  coherent P (CopyN RawBlock fuel buf n (cache, r)).2.1.
Proof.
  revert n cache r. induction fuel as [|fuel IH]; intros n cache r Hb Hs; [done|]. cbn [CopyN]. destruct (_ =? _)%nat; [done|].
  destruct (dr_Read_ok (Nat.min buf n) cache r Hb Hs) as [Hs' Eb].
  destruct (dr_Read RawBlock _ (cache, r)) as [[p|e] [cache' r']]; cbn [fst snd] in *; [|done].
  pose proof (IH (n - length p)%nat cache' r' ltac:(by rewrite Eb) Hs').
  by destruct (CopyN RawBlock fuel buf (n - length p) (cache', r')) as [rest [? ?]].
Qed.
(** whatever is asked, the caches stay true *)
Lemma stream_ok fuel buf rng m size g : wf_mid m -> gateway_ok g -> gateway_ok (handleStreamRange RawBlock fuel buf rng m size g).2.
Proof.
  intros Hm Hg. unfold handleStreamRange. case_bool_decide; [done|]. destruct (parseRange rng size) as [[s e]|]; [|done].
  destruct (cachedBlockList_ok fuel m g Hm Hg) as [Hg' Hl].
  destruct (cachedBlockList RawBlock fuel m g) as [[l|] g1]; cbn [fst snd] in *; [|done].
  destruct (Hl l eq_refl) as [f0 Hbuilt]. pose proof (buildBlockList_wf f0 m l Hm Hbuilt) as Hwf.
  unfold dr_Seek. cbn [Z.eqb]. destruct (s <? 0); [done|]. cbn [newDagReader dr_blocks dr_totalSize dr_curBlockIdx dr_curBlockBuf].
  pose proof (CopyN_ok (S (Z.to_nat (e - s))) buf (Z.to_nat (e - s)) (gw_lru g1) (mkDagReader l.1 size s None None) Hwf (go_lru _ Hg')) as Hc.
  destruct (CopyN _ _ _ _ _) as [body [cache r]]. destruct Hg' as [_ Hm' Hls]. by split.
Qed.
End stream.
(** another source with the same blocks builds the same lists *)
Section other_source.
Context `{Multiformats, Protos} (R1 R2 : MID -> result bytes) (HR : forall m d, R1 m = Ok d -> R2 m = Ok d).
Lemma gw_blocks_mono inner1 inner2 bs l l' : (forall n l l', inner1 n l = Ok l' -> inner2 n l = Ok l') ->
  gw_blocks R1 inner1 bs l = Ok l' -> gw_blocks R2 inner2 bs l = Ok l'.
Proof.
  intros Hin. revert l. induction bs as [|b bs IH]; intros l E; cbn [gw_blocks] in *; [done|].
  case_bool_decide; [by apply IH|]. destruct (FromMultihash _ _) as [child|]; [|done]. cbn [mbind result_bind] in *.
  destruct (0 <? mb_Size b); [by apply IH|]. destruct (R1 child) as [raw|] eqn:Er; [|done]. rewrite (HR _ _ Er). cbn [mbind result_bind] in *.
  destruct (unmarshal raw) as [node|]; [|done]. cbn [mbind result_bind] in *.
  destruct (inner1 node l) as [l1|] eqn:El; [|done]. rewrite (Hin _ _ _ El). by apply IH.
Qed.
Lemma walkMemFS_mono fuel n l l' : walkMemFS R1 fuel n l = Ok l' -> walkMemFS R2 fuel n l = Ok l'.
Proof. revert n l l'. induction fuel as [|fuel IH]; intros n l l' E; [done|]. cbn [walkMemFS] in *. by eapply gw_blocks_mono. Qed.
Lemma walkRawDAG_mono fuel m d l l' : walkRawDAG R1 fuel m d l = Ok l' -> walkRawDAG R2 fuel m d l = Ok l'.
Proof.
  revert m d l l'. induction fuel as [|fuel IH]; intros m d l l' E; [done|]. cbn [walkRawDAG] in *.
  destruct (unmarshal d) as [node|]; [|done]. destruct (0 <? _); [|done].
  revert l E. generalize (dn_Links node) as links. induction links as [|t links IHl]; intros l E; cbn [gw_links] in *; [done|].
  destruct (Mid.Parse t) as [child|]; [|done]. cbn [mbind result_bind] in *.
  destruct (R1 child) as [raw|] eqn:Er; [|done]. rewrite (HR _ _ Er). cbn [mbind result_bind] in *.
  destruct (walkRawDAG R1 fuel child raw l) as [l1|] eqn:El; [|done]. rewrite (IH _ _ _ _ El). by apply IHl.
Qed.
Lemma buildBlockList_mono fuel m l : buildBlockList R1 fuel m = Ok l -> buildBlockList R2 fuel m = Ok l.
Proof.
  unfold buildBlockList. destruct (R1 m) as [raw|] eqn:Er; [|done]. rewrite (HR _ _ Er). cbn [mbind result_bind].
  destruct (_ =? _); [|apply walkRawDAG_mono]. destruct (unmarshal raw) as [node|]; [|done]. cbn [mbind result_bind]. destruct (negb _); [done|]. apply walkMemFS_mono.
Qed.
Lemma exact_mono l c : exact R1 l c -> exact R2 l c.
Proof. intros [ps [HF ? ? ?]]. exists ps. split; [|done..]. eapply Forall2_impl; [exact HF|]. intros b d (Hd & ? & ?). by split; [apply HR|]. Qed.
End other_source.
Lemma spelled_source `{Multiformats, Protos} (R1 R2 : MID -> result bytes) fuel m c :
  (forall m d, R1 m = Ok d <-> R2 m = Ok d) -> spelled R1 fuel m c -> spelled R2 fuel m c.
Proof.
  intros HR [Hok Hall]. split.
  - destruct (buildBlockList R1 fuel m) as [l|] eqn:E; [|done]. by rewrite (buildBlockList_mono R1 R2 (λ m d, proj1 (HR m d)) _ _ _ E).
  - intros f l E. apply (exact_mono R1 R2 (λ m d, proj1 (HR m d))), (Hall f). by apply (buildBlockList_mono R2 R1 (λ m d, proj2 (HR m d))).
Qed.
(** C26: a range request for content that the store holds is answered with exactly that range of
    the content (and the headers that say so), or with an error when the range is not one
    of the content; whatever the two caches hold, the answer is the same, and they stay
    true. *)
Theorem stream_exact `{Multiformats} `{!MultiformatsLaws} `{Protos} `{!ProtosLaws} RawBlock alg {St : Type} `{Blockstore St} m c rng buf g :
  isSupportedHash alg = true -> wf_mid m -> content_of RawBlock alg m c -> rng ≠ [] -> (0 < buf)%nat -> gateway_ok RawBlock (block_fact RawBlock) g ->
  exists h, forall fuel, (h < fuel)%nat ->
  exists g', gateway_ok RawBlock (block_fact RawBlock) g' /\
    handleStreamRange RawBlock fuel buf rng m (zlen c) g =
      (match parseRange rng (zlen c) with
       | Err e => RangeError e
       | Ok (s, e) => Partial s (e - 1) (zlen c) (e - s) (take (Z.to_nat (e - s)) (drop (Z.to_nat s) c))
       end, g').
Proof.
  intros Ha Hm Hc Hr Hbuf Hg. destruct (content_spells RawBlock (block_fact RawBlock) (block_fact_guards RawBlock) alg m c Ha Hm Hc) as [Hsp Hlt].
  destruct (spells_spelled RawBlock m c Hsp) as [h Hh]. exists h. intros fuel Hf.
  apply stream_at; [apply block_fact_guards|by auto..].
Qed.
Lemma new_gateway_ok `{Multiformats, Protos} (RawBlock : MID -> result bytes) P max count entries :
  0 <= max < 2 ^ 63 -> count < 2 ^ 62 -> gateway_ok RawBlock P (mkGateway (newShardedLRU max count) (newBlockListCache entries)).
Proof.
  intros Hm Hc. split; cbn [gw_lru gw_blockLists].
  - by apply new_coherent.
  - cbn. destruct (Z.ltb_spec entries 1); lia.
  - exists []. split; [apply models_empty|]. by intros k l m Hin%elem_of_nil.
Qed.

(** ** The properties at concrete inputs *)
Lemma parseRange_spec_witness : parseRange (lit "bytes=2-99") 9 = Ok (2, 9) /\ parseRange (lit "bytes=-4") 9 = Ok (5, 9).
Proof.
  destruct (parseRange_spec 9 ltac:(lia)) as (_ & H1 & _ & H2).
  split; [apply (H1 2 99); lia|apply (H2 4); lia].
Defined.
#[local] Instance demo_bs2 : Blockstore Memstore := mem_blockstore BLAKE3.
Definition demo_raw (m : MID) : result bytes := demo_get m.
Lemma stream_exact_witness : exists fuel g,
  (handleStreamRange demo_raw fuel 3 (lit "bytes=2-6") demo_root 9 (mkGateway (newShardedLRU 100 4) (newBlockListCache 8))).1
  = Partial 2 6 9 5 (lit "llo y") /\
  (handleStreamRange demo_raw fuel 4 (lit "bytes=-3") demo_root 9 g).1 = Partial 6 8 9 3 (lit "you").
Proof.
  assert (content_of demo_raw BLAKE3 (St := Memstore) demo_root (lit "hello you")) as Hc.
  { apply (content_file demo_raw BLAKE3 demo_root (lit "hello you") (p_store demo_end)); [reflexivity|apply MemRead.demo_file]. }
  assert (wf_mid demo_root) as Hw.
  { destruct MemRead.demo_file as (l & ch & dss & pb & Hn & _). exact (proj1 (node_at_wf BLAKE3 eq_refl _ _ _ Hn)). }
  destruct (stream_exact demo_raw BLAKE3 demo_root (lit "hello you") (lit "bytes=2-6") 3 _ eq_refl Hw Hc ltac:(discriminate) ltac:(lia)
    (new_gateway_ok demo_raw (block_fact demo_raw) 100 4 8 ltac:(lia) ltac:(lia))) as [h1 H1].
  destruct (H1 (S h1) ltac:(lia)) as (g1 & Hg1 & _).
  destruct (stream_exact demo_raw BLAKE3 demo_root (lit "hello you") (lit "bytes=-3") 4 g1 eq_refl Hw Hc ltac:(discriminate) ltac:(lia) Hg1) as [h2 H2].
  exists (S (h1 + h2)), g1. split.
  - destruct (H1 (S (h1 + h2)) ltac:(lia)) as (g & _ & E). change (zlen (lit "hello you")) with 9 in E. rewrite E. reflexivity.
  - destruct (H2 (S (h1 + h2)) ltac:(lia)) as (g & _ & E). change (zlen (lit "hello you")) with 9 in E. rewrite E. reflexivity.
Defined.
