(* ===== verification/Quota.v ===== *)
(** * Storage quota of an anchor node (src/anchor/quota.go)

    [QuotaManager] keeps content in the order of use, the most recent first; [items] maps each
    key to its element of the list, so the list, with its keys distinct, is the state.
    [EnforceQuota] deletes from the least recently used end, over any store with [Delete] and
    [Size].
    [EnforceQuota_spec]: what it deletes; [pinned_only_never_evicts]: what it does in the engine,
    which only ever pins. *)
From S2P Require Import Prelude Mid.

Inductive PinTier := PinTierAutoDiscovered | PinTierOperator.
#[export] Instance PinTier_eq_dec : EqDecision PinTier.
Proof. solve_decision. Defined.
Record quotaElement := mkElement { qe_mid : MID; qe_tier : PinTier; qe_size : Z; qe_lastAccess : Z }.
#[export] Instance quotaElement_eq_dec : EqDecision quotaElement.
Proof. solve_decision. Defined.
Record QuotaManager := mkQuota { q_maxBytes : Z; q_lruList : list quotaElement }.

(** [EvictableStore] *)
Class EvictableStore (St : Type) := {
  es_Delete : MID -> M St unit;
  es_Size : St -> result Z;
}.

(** a store that holds the elements [l], and what the quota relies on: [Size] is their sum,
    and [Delete] of one of them succeeds and leaves the others *)
Class EvictLaws (St : Type) `{EvictableStore St} := {
  es_holds : St -> list quotaElement -> Prop;
  es_holds_size s l : es_holds s l -> es_Size s = Ok (foldr (λ e n, qe_size e + n) 0 l);
  es_holds_delete s l e k : es_holds s (l ++ e :: k) -> exists s', es_Delete (qe_mid e) s = (Ok tt, s') /\ es_holds s' (l ++ k);
}.

Section quota.
Context `{Multiformats}.
Definition NewQuotaManager (maxBytes : Z) : QuotaManager := mkQuota maxBytes [].
Definition SetMaxBytes (maxBytes : Z) (q : QuotaManager) : QuotaManager := mkQuota maxBytes (q_lruList q).
Definition qe_key (e : quotaElement) : bytes := String (qe_mid e).
Definition find_item (key : bytes) (l : list quotaElement) : option quotaElement :=
  snd <$> list_find (λ e, qe_key e = key) l.
Definition without (key : bytes) (l : list quotaElement) : list quotaElement := filter (λ e, qe_key e ≠ key) l.
Definition Touch (now : Z) (m : MID) (size : Z) (tier : PinTier) (q : QuotaManager) : QuotaManager :=
  let key := String m in
  match find_item key (q_lruList q) with
  | Some item =>
      let item := mkElement (qe_mid item)
        (if decide (tier = PinTierOperator) then PinTierOperator else qe_tier item)
        (if 0 <? size then size else qe_size item) now in
      mkQuota (q_maxBytes q) (item :: without key (q_lruList q))
  | None => mkQuota (q_maxBytes q) (mkElement m tier size now :: q_lruList q)
  end.
Definition Pin (now : Z) (m : MID) (q : QuotaManager) : QuotaManager := Touch now m 0 PinTierOperator q.
Definition IsOperatorPinned (m : MID) (q : QuotaManager) : bool :=
  match find_item (String m) (q_lruList q) with
  | Some item => bool_decide (qe_tier item = PinTierOperator)
  | None => false
  end.

Context {St : Type} `{EvictableStore St}.
(** the walk from the back of the list: the elements evicted, and the size it believes *)
Fixpoint evict_loop (maxB : Z) (els : list quotaElement) (currentSize : Z) (s : St) : list quotaElement * Z * St :=
  match els with
  | [] => ([], currentSize, s)
  | item :: els =>
      if currentSize <=? maxB then ([], currentSize, s) else
      if decide (qe_tier item = PinTierOperator) then evict_loop maxB els currentSize s else
      match es_Delete (qe_mid item) s with
      | (Err _, s) => evict_loop maxB els currentSize s
      | (Ok _, s) =>
          if qe_size item <? currentSize then
            let '(ev, cur, s) := evict_loop maxB els (currentSize - qe_size item) s in (item :: ev, cur, s)
          else
            match es_Size s with
            | Err _ => ([item], currentSize, s)
            | Ok size => let '(ev, cur, s) := evict_loop maxB els size s in (item :: ev, cur, s)
            end
      end
  end.
Definition EnforceQuota (q : QuotaManager) : M St (Z * QuotaManager) := λ s,
  if q_maxBytes q =? 0 then (Ok (0, q), s) else
  match es_Size s with
  | Err e => (Err e, s)
  | Ok currentSize =>
      if currentSize <=? q_maxBytes q then (Ok (0, q), s) else
      let '(ev, cur, s) := evict_loop (q_maxBytes q) (reverse (q_lruList q)) currentSize s in
      let q' := mkQuota (q_maxBytes q) (filter (λ e, qe_key e ∉ map qe_key ev) (q_lruList q)) in
      if 0 <? zlen ev then (Ok (zlen ev, q'), s)
      else if q_maxBytes q <? cur then (Err (New "storage quota exceeded but all items are operator pinned"), s)
      else (Ok (0, q'), s)
  end.
End quota.

(** ** Properties *)
Section facts.
Context `{Multiformats} `{!MultiformatsLaws} {St : Type} `{EvictableStore St}.

(** the keys are distinct, and every element is there under its own *)
Definition wf_quota (q : QuotaManager) : Prop := NoDup (map qe_key (q_lruList q)).
Lemma find_item_Some key l e : find_item key l = Some e -> e ∈ l /\ qe_key e = key.
Proof.
  unfold find_item. destruct (list_find _ l) as [[i x]|] eqn:E; [|done]. intros [= <-].
  apply list_find_Some in E as (Hi & Hk & _). split; [by eapply list_elem_of_lookup_2|done].
Qed.
Lemma find_item_None key l : find_item key l = None <-> key ∉ map qe_key l.
Proof.
  unfold find_item. split.
  - intros E (e & -> & Hin)%list_elem_of_fmap. destruct (list_find _ l) as [[i x]|] eqn:El; [done|].
    apply list_find_None in El. rewrite Forall_forall in El. by apply (El e).
  - intros Hk. destruct (list_find _ l) as [[i x]|] eqn:El; [|done]. exfalso. apply list_find_Some in El as (Hi & <- & _).
    apply Hk, list_elem_of_fmap. exists x. split; [done|by eapply list_elem_of_lookup_2].
Qed.
Lemma find_item_unique l e : NoDup (map qe_key l) -> e ∈ l -> find_item (qe_key e) l = Some e.
Proof.
  intros Hnd Hin. destruct (find_item (qe_key e) l) as [e'|] eqn:E.
  - apply find_item_Some in E as [Hin' Ek]. f_equal. apply list_elem_of_lookup in Hin as [i Hi], Hin' as [j Hj].
    assert (i = j) as ->; [|congruence]. eapply (NoDup_lookup (qe_key <$> l)); [exact Hnd|apply list_lookup_fmap_Some..].
    + exists e. split; [reflexivity|exact Hi].
    + exists e'. split; [by rewrite Ek|exact Hj].
  - apply find_item_None in E. exfalso. apply E, list_elem_of_fmap. by exists e.
Qed.
Lemma without_keys key l : key ∉ map qe_key (without key l).
Proof. intros (e & -> & Hin)%list_elem_of_fmap. by apply list_elem_of_filter in Hin as [? _]. Qed.
Lemma NoDup_filter_keys (P : quotaElement -> Prop) `{!forall x, Decision (P x)} l :
  NoDup (map qe_key l) -> NoDup (map qe_key (filter P l)).
Proof.
  induction l as [|e l IH]; [done|]. cbn [map]. intros [Hn Hnd]%NoDup_cons. rewrite filter_cons.
  destruct (decide (P e)); [|by apply IH]. cbn [map]. constructor; [|by apply IH].
  intros (x & Hk & Hx)%list_elem_of_fmap. apply list_elem_of_filter in Hx as [_ Hx]. apply Hn, list_elem_of_fmap. by exists x.
Qed.
Lemma find_item_filter (P : quotaElement -> Prop) `{!forall x, Decision (P x)} l e : NoDup (map qe_key l) ->
  find_item (qe_key e) l = Some e -> P e -> find_item (qe_key e) (filter P l) = Some e.
Proof.
  intros Hnd [Hin _]%find_item_Some HP. apply find_item_unique; [by apply NoDup_filter_keys|by apply list_elem_of_filter].
Qed.

(** content that was touched is in front with its last known size, an operator's pin is
    never taken back, other content keeps its place, and keys stay distinct. *)
Theorem Touch_spec now m size tier q : wf_quota q ->
  let q' := Touch now m size tier q in
  wf_quota q' /\ q_maxBytes q' = q_maxBytes q /\
  (exists item, head (q_lruList q') = Some item /\ qe_key item = String m /\
     (0 < size -> qe_size item = size) /\ (tier = PinTierOperator -> qe_tier item = PinTierOperator)) /\
  tail (q_lruList q') = without (String m) (q_lruList q) /\
  (forall m', IsOperatorPinned m' q = true -> IsOperatorPinned m' q' = true).
Proof.
  intros Hq. unfold Touch. destruct (find_item (String m) (q_lruList q)) as [item|] eqn:Ef; cbn [q_lruList q_maxBytes head tail].
  - pose proof (find_item_Some _ _ _ Ef) as [Hin Hk]. split_and!; [|done| |done|].
    + unfold wf_quota. cbn [q_lruList map]. constructor; [|by apply NoDup_filter_keys].
      change (qe_key (mkElement (qe_mid item) _ _ now)) with (qe_key item). rewrite Hk. apply without_keys.
    + eexists. split; [reflexivity|]. split; [exact Hk|]. split; cbn.
      * intros Hs. by destruct (Z.ltb_spec 0 size); [|lia].
      * intros ->. by rewrite decide_True.
    + intros m'. unfold IsOperatorPinned. cbn [q_lruList]. unfold find_item at 2. cbn [list_find].
      change (qe_key (mkElement (qe_mid item) _ _ now)) with (qe_key item). rewrite Hk.
      destruct (decide (String m = String m')) as [E|E].
      * rewrite <-E, Ef. cbn. rewrite !bool_decide_eq_true. intros ->. by destruct (decide _).
      * assert (find_item (String m') (without (String m) (q_lruList q)) = find_item (String m') (q_lruList q)) as Ew.
        { destruct (find_item (String m') (q_lruList q)) as [x|] eqn:Ex.
          - apply find_item_Some in Ex as [Hx Hkx]. rewrite <-Hkx. apply find_item_unique; [by apply NoDup_filter_keys|].
            apply list_elem_of_filter. split; [congruence|done].
          - apply find_item_None in Ex. apply find_item_None. intros (x & Hkx & Hx)%list_elem_of_fmap. apply Ex.
            apply list_elem_of_filter in Hx as [_ Hx]. rewrite Hkx. apply list_elem_of_fmap. by exists x. }
        unfold find_item in Ew |- *. by destruct (list_find _ (without _ _)) as [[]|], (list_find _ (q_lruList q)) as [[]|]; simplify_eq/=.
  - pose proof (proj1 (find_item_None _ _) Ef) as Hk. split_and!; [|done| | |].
    + unfold wf_quota. cbn [q_lruList map]. by constructor.
    + eexists. split; [reflexivity|]. by split_and!.
    + unfold without. symmetry. revert Hk. clear. induction (q_lruList q) as [|e l IH]; [done|]. cbn [map]. intros [? ?]%not_elem_of_cons.
      rewrite filter_cons, decide_True by congruence. f_equal. by apply IH.
    + intros m'. unfold IsOperatorPinned, find_item. cbn [q_lruList list_find].
      change (qe_key (mkElement m tier size now)) with (String m). destruct (decide (String m = String m')) as [E|E].
      * unfold find_item in Ef. rewrite <-E. by destruct (list_find _ _) as [[]|].
      * by destruct (list_find _ (q_lruList q)) as [[]|].
Qed.

(** a walk that passes over [els]: what it evicts, in order, and that it passed over the rest for
    a reason *)
Inductive evicts (maxB : Z) : list quotaElement -> Z -> St -> list quotaElement -> Z -> St -> Prop :=
  | ev_end cur s : evicts maxB [] cur s [] cur s
  | ev_enough els cur s : cur <= maxB -> evicts maxB els cur s [] cur s
  | ev_pinned e els cur s ev cur' s' : maxB < cur -> qe_tier e = PinTierOperator ->
      evicts maxB els cur s ev cur' s' -> evicts maxB (e :: els) cur s ev cur' s'
  | ev_failed e els cur s err s1 ev cur' s' : maxB < cur -> qe_tier e = PinTierAutoDiscovered ->
      es_Delete (qe_mid e) s = (Err err, s1) -> evicts maxB els cur s1 ev cur' s' -> evicts maxB (e :: els) cur s ev cur' s'
  | ev_deleted e els cur s s1 cur1 ev cur' s' : maxB < cur -> qe_tier e = PinTierAutoDiscovered ->
      es_Delete (qe_mid e) s = (Ok tt, s1) ->
      (qe_size e < cur /\ cur1 = cur - qe_size e \/ cur <= qe_size e /\ es_Size s1 = Ok cur1) ->
      evicts maxB els cur1 s1 ev cur' s' -> evicts maxB (e :: els) cur s (e :: ev) cur' s'
  | ev_no_size e els cur s s1 err : maxB < cur -> qe_tier e = PinTierAutoDiscovered ->
      es_Delete (qe_mid e) s = (Ok tt, s1) -> cur <= qe_size e -> es_Size s1 = Err err -> evicts maxB (e :: els) cur s [e] cur s1.
Lemma evict_loop_evicts maxB els cur s ev cur' s' : evict_loop maxB els cur s = (ev, cur', s') -> evicts maxB els cur s ev cur' s'.
Proof.
  revert cur s ev cur' s'. induction els as [|e els IH]; intros cur s ev cur' s'; cbn [evict_loop].
  { intros [= <- <- <-]. constructor. }
  destruct (Z.leb_spec cur maxB); [intros [= <- <- <-]; by constructor|].
  destruct (decide (qe_tier e = PinTierOperator)) as [Ho|Ho]; [intros ?; by apply ev_pinned; [| |apply IH]|].
  assert (qe_tier e = PinTierAutoDiscovered) as Ha by by destruct (qe_tier e).
  destruct (es_Delete (qe_mid e) s) as [[[]|err] s1] eqn:Ed; [|intros ?; eapply ev_failed; [done..|by apply IH]].
  destruct (Z.ltb_spec (qe_size e) cur).
  - destruct (evict_loop maxB els (cur - qe_size e) s1) as [[ev1 c1] s2] eqn:E. intros [= <- <- <-].
    eapply ev_deleted; [done..|by left|by apply IH].
  - destruct (es_Size s1) as [size|err] eqn:Es.
    + destruct (evict_loop maxB els size s1) as [[ev1 c1] s2] eqn:E. intros [= <- <- <-].
      eapply ev_deleted; [done..|by right|by apply IH].
    + intros [= <- <- <-]. by eapply ev_no_size.
Qed.
Lemma evicts_facts maxB els cur s ev cur' s' : evicts maxB els cur s ev cur' s' ->
  ev `sublist_of` els /\ Forall (λ e, qe_tier e = PinTierAutoDiscovered) ev /\
  (Forall (λ e, qe_tier e = PinTierOperator) els -> ev = [] /\ cur' = cur /\ s' = s).
Proof.
  induction 1 as [cur s|els cur s Hc|e els cur s ev cur' s' Hc Ht _ (IH1 & IH2 & IH3)|e els cur s err s1 ev cur' s' Hc Ht Hd _ (IH1 & IH2 & IH3)
    |e els cur s s1 cur1 ev cur' s' Hc Ht Hd Hs _ (IH1 & IH2 & IH3)|e els cur s s1 err Hc Ht Hd Hs He].
  - by split_and!.
  - split_and!; [apply sublist_nil_l|done|done].
  - split_and!; [by apply sublist_cons|done|]. intros Hall. apply Forall_cons in Hall as [_ Hall]. by apply IH3.
  - split_and!; [by apply sublist_cons|done|]. intros Hall. apply Forall_cons in Hall as [Hp _]. congruence.
  - split_and!; [by apply sublist_skip|by constructor|]. intros Hall. apply Forall_cons in Hall as [Hp _]. congruence.
  - split_and!; [apply sublist_skip, sublist_nil_l|by constructor|]. intros Hall. apply Forall_cons in Hall as [Hp _]. congruence.
Qed.
(** with sizes that are right and deletions that succeed, the store ends within the quota
    unless only pinned content is left *)
Definition total (l : list quotaElement) : Z := foldr (λ e n, qe_size e + n) 0 l.
Lemma total_app l k : total (l ++ k) = total l + total k.
Proof. induction l as [|e l IH]; [done|]. cbn. fold (total (l ++ k)) (total l). lia. Qed.
Lemma total_cons e l : total (e :: l) = qe_size e + total l.
Proof. done. Qed.
Lemma evicts_enough `{!EvictLaws St} maxB ps els cur s ev cur' s' : evicts maxB els cur s ev cur' s' ->
  es_holds s (ps ++ els) -> cur = total (ps ++ els) ->
  exists rest, es_holds s' (ps ++ rest) /\ cur' = total (ps ++ rest) /\ els ≡ₚ ev ++ rest /\
    (cur' <= maxB \/ Forall (λ e, qe_tier e = PinTierOperator) rest).
Proof.
  intros Hev. revert ps.
  induction Hev as [cur s|els cur s Hc|e els cur s ev cur' s' Hc Ht _ IH|e els cur s err s1 ev cur' s' Hc Ht Hd _ IH
    |e els cur s s1 cur1 ev cur' s' Hc Ht Hd Hs _ IH|e els cur s s1 err Hc Ht Hd Hs He]; intros ps Hh Hsz.
  - exists []. split_and!; [done..|by right].
  - exists els. split_and!; [done..|by left].
  - rewrite cons_middle, app_assoc in Hh, Hsz. destruct (IH _ Hh Hsz) as (rest & Hr1 & Hr2 & Hr3 & Hr4).
    rewrite <-app_assoc in Hr1, Hr2. exists (e :: rest). split_and!; [done..| |].
    + rewrite Hr3. by rewrite Permutation_middle.
    + destruct Hr4 as [?|?]; [by left|right]. by constructor.
  - destruct (es_holds_delete _ _ _ _ Hh) as (s2 & Hd' & _). congruence.
  - destruct (es_holds_delete _ _ _ _ Hh) as (s2 & Hd' & Hh2). assert (s2 = s1) as -> by congruence.
    destruct (IH _ Hh2) as (rest & Hr1 & Hr2 & Hr3 & Hr4).
    { rewrite total_app, total_cons in Hsz. rewrite total_app. destruct Hs as [[_ ->]|[_ Hs]]; [lia|].
      rewrite (es_holds_size _ _ Hh2) in Hs. injection Hs as <-. fold (total (ps ++ els)). by rewrite total_app. }
    exists rest. split_and!; [done..|by rewrite Hr3|done].
  - destruct (es_holds_delete _ _ _ _ Hh) as (s2 & Hd' & Hh2). assert (s2 = s1) as -> by congruence.
    rewrite (es_holds_size _ _ Hh2) in He. done.
Qed.

Lemma evicted_by_key ev l : NoDup (map qe_key l) -> (forall e, e ∈ ev -> e ∈ l) ->
  filter (λ e, qe_key e ∉ map qe_key ev) l = filter (λ e, e ∉ ev) l.
Proof.
  intros Hnd Hin. apply list_filter_iff_in. intros e He. split; intros Hn Hc; apply Hn; [apply list_elem_of_fmap; by exists e|].
  apply list_elem_of_fmap in Hc as (e' & Ek & He'). pose proof (find_item_unique l e Hnd He) as E1.
  pose proof (find_item_unique l e' Hnd (Hin _ He')) as E2. rewrite Ek in E1. congruence.
Qed.
Lemma pinned_kept ev q m : wf_quota q -> Forall (λ e, qe_tier e = PinTierAutoDiscovered) ev ->
  IsOperatorPinned m q = true -> IsOperatorPinned m (mkQuota (q_maxBytes q) (filter (λ e, e ∉ ev) (q_lruList q))) = true.
Proof.
  intros Hq Hauto. unfold IsOperatorPinned. cbn [q_lruList]. destruct (find_item (String m) (q_lruList q)) as [item|] eqn:Ef; [|done].
  intros Ht%bool_decide_eq_true. pose proof (find_item_Some _ _ _ Ef) as [_ Hk]. rewrite <-Hk in Ef |- *. rewrite (find_item_filter _ _ _ Hq Ef).
  - by rewrite bool_decide_eq_true.
  - intros Hin. rewrite Forall_forall in Hauto. specialize (Hauto _ Hin). cbv beta in Hauto. congruence.
Qed.

(** when the store is over its quota, what is evicted is content found on the network, the least
    recently used first, never an operator's pin; it leaves the manager, the rest stays in
    order; the result counts it, and is an error when nothing went although there is too much;
    and a store that holds just the manager's content, with the sizes it knows, ends within its
    quota or with pinned content only. *)
Theorem EnforceQuota_spec `{!EvictLaws St} q s size : q_maxBytes q ≠ 0 -> 0 <= q_maxBytes q -> es_Size s = Ok size -> q_maxBytes q < size -> wf_quota q ->
  exists ev cur s', evicts (q_maxBytes q) (reverse (q_lruList q)) size s ev cur s' /\
    ev `sublist_of` reverse (q_lruList q) /\ Forall (λ e, qe_tier e = PinTierAutoDiscovered) ev /\
    (EnforceQuota q s).2 = s' /\
    match (EnforceQuota q s).1 with
    | Ok (n, q') => n = zlen ev /\ (ev = [] -> cur <= q_maxBytes q) /\ wf_quota q' /\
        q_lruList q' = filter (λ e, e ∉ ev) (q_lruList q) /\
        (forall m, IsOperatorPinned m q = true -> IsOperatorPinned m q' = true)
    | Err _ => ev = [] /\ q_maxBytes q < cur
    end /\
    (es_holds s (reverse (q_lruList q)) -> exists rest, es_holds s' rest /\ es_Size s' = Ok cur /\
       reverse (q_lruList q) ≡ₚ ev ++ rest /\
       (cur <= q_maxBytes q \/ Forall (λ e, qe_tier e = PinTierOperator) rest)).
Proof.
  intros Hm0 Hm Hs Hover Hq. unfold EnforceQuota. destruct (Z.eqb_spec (q_maxBytes q) 0); [done|]. rewrite Hs.
  destruct (Z.leb_spec size (q_maxBytes q)); [lia|].
  destruct (evict_loop (q_maxBytes q) (reverse (q_lruList q)) size s) as [[ev cur] s'] eqn:E.
  apply evict_loop_evicts in E. destruct (evicts_facts _ _ _ _ _ _ _ E) as (Hsub & Hauto & _).
  exists ev, cur, s'. split_and!; [done..| | |].
  - destruct (0 <? zlen ev); [done|]. by destruct (_ <? _).
  - assert (forall e, e ∈ ev -> e ∈ q_lruList q) as Hin.
    { intros e He. apply elem_of_reverse. by eapply sublist_in. }
    rewrite (evicted_by_key ev _ Hq Hin).
    assert (match ev with [] => (0 <? zlen ev) = false | _ :: _ => (0 <? zlen ev) = true end) as Hz.
    { destruct ev; [done|]. apply Z.ltb_lt. unfold zlen. cbn [length]. lia. }
    assert (wf_quota (mkQuota (q_maxBytes q) (filter (λ e, e ∉ ev) (q_lruList q)))) as Hw by by apply NoDup_filter_keys.
    destruct ev as [|e0 ev0] eqn:Eev; rewrite Hz; [destruct (Z.ltb_spec (q_maxBytes q) cur); cbn [fst]; [by split|]|]; cbn [fst];
      (split_and!; [by auto|by auto|by auto|by auto|intros m; apply (pinned_kept _ _ m Hq Hauto)]).
  - intros Hst. pose proof (es_holds_size _ _ Hst) as Hsz. rewrite Hs in Hsz. injection Hsz as Hsz.
    destruct (evicts_enough _ [] _ _ _ _ _ _ E Hst Hsz) as (rest & Hr3 & Hr4 & Hr5 & Hr6). exists rest. split_and!; [done| |done..].
    rewrite (es_holds_size _ _ Hr3). by f_equal.
Qed.

(** a manager of pins only *)
Definition only_pins (q : QuotaManager) : Prop := Forall (λ e, qe_tier e = PinTierOperator) (q_lruList q).
Lemma Pin_only_pins now m q : only_pins q -> only_pins (Pin now m q).
Proof.
  intros Hall. unfold only_pins, Pin, Touch. destruct (find_item _ _); cbn [q_lruList]; (constructor; [done|]); [|done].
  apply Forall_forall. intros e [_ He]%list_elem_of_filter. unfold only_pins in Hall. rewrite Forall_forall in Hall. by apply Hall.
Qed.
Lemma only_pins_enforce q s : only_pins q ->
  (EnforceQuota q s).2 = s /\ match (EnforceQuota q s).1 with Ok (n, q') => n = 0 /\ q' = q | Err _ => True end.
Proof.
  unfold only_pins. intros Hall. unfold EnforceQuota. destruct (q_maxBytes q =? 0); [done|]. destruct (es_Size s) as [size|err]; [|done].
  destruct (size <=? q_maxBytes q); [done|].
  destruct (evict_loop _ _ _ _) as [[ev cur] s'] eqn:E. apply evict_loop_evicts in E.
  destruct (evicts_facts _ _ _ _ _ _ _ E) as (_ & _ & Hnone). destruct Hnone as (-> & -> & ->).
  { apply Forall_forall. intros e He. rewrite elem_of_reverse in He. rewrite Forall_forall in Hall. by apply Hall. }
  change (0 <? zlen []) with false. cbv iota. destruct (q_maxBytes q <? size); [done|]. cbn [fst snd]. split; [done|].
  split; [done|]. destruct q as [mb l]. f_equal. cbn [q_lruList]. clear. induction l as [|e l IH]; [done|].
  rewrite filter_cons, decide_True by (cbn; set_solver). by f_equal.
Qed.

(** the engine never tells the manager what it fetched: all it does is pin
    (anchor.go [Pin]).  So however it is driven, enforcing the quota evicts nothing, and leaves
    the store and the manager as they are. *)
Theorem pinned_only_never_evicts maxBytes (pins : list (Z * MID)) (s : St) :
  let q := foldl (λ q p, Pin p.1 p.2 q) (NewQuotaManager maxBytes) pins in
  (EnforceQuota q s).2 = s /\
  match (EnforceQuota q s).1 with Ok (n, q') => n = 0 /\ q' = q | Err _ => True end.
Proof.
  intros q. apply only_pins_enforce. unfold q. clear. assert (only_pins (NewQuotaManager maxBytes)) as Hall by apply Forall_nil_2.
  revert Hall. generalize (NewQuotaManager maxBytes). induction pins as [|[now m] pins IH]; intros q Hall; [done|].
  cbn [foldl]. by apply IH, Pin_only_pins.
Qed.
End facts.

(** ** Witnesses: a store of named sizes *)
#[export] Instance toy_evictable : EvictableStore (list (MID * Z)) := {
  es_Delete := λ m s, (Ok tt, filter (λ p, p.1 ≠ m) s);
  es_Size := λ s, Ok (foldr (λ p n, p.2 + n) 0 s);
}.
Definition toy_entry (e : quotaElement) : MID * Z := (qe_mid e, qe_size e).
Definition toy_holds (s : list (MID * Z)) (l : list quotaElement) : Prop := s = map toy_entry l /\ NoDup (map qe_mid l).
Lemma toy_filter e l : qe_mid e ∉ map qe_mid l -> filter (λ p, p.1 ≠ qe_mid e) (map toy_entry l) = map toy_entry l.
Proof.
  induction l as [|x l IH]; [done|]. cbn [map]. intros [Hx Hl]%not_elem_of_cons.
  rewrite filter_cons, decide_True by (cbn; congruence). by rewrite IH.
Qed.
#[export] Program Instance toy_evict_laws : EvictLaws (list (MID * Z)) := {| es_holds := toy_holds |}.
Next Obligation. intros s l [-> _]. cbn. f_equal. by induction l as [|e l IH]; [|cbn; rewrite IH]. Qed.
Next Obligation.
  intros s l e k [-> Hnd]. eexists. split; [reflexivity|]. rewrite map_app in Hnd. cbn [map] in Hnd.
  apply NoDup_app in Hnd as (H1 & H2 & [H3 H4]%NoDup_cons). split.
  - rewrite map_app. cbn [map]. rewrite filter_app, filter_cons, decide_False by (cbn; auto).
    rewrite !toy_filter, map_app; [done|done|]. intros Hin. apply (H2 _ Hin). left.
  - rewrite map_app. apply NoDup_app. split_and!; [done| |done]. intros x Hx Hk. apply (H2 _ Hx). by right.
Qed.

Definition demo_mid (n : Z) : MID := mkMID 1 CodecRaw [z2b 30; z2b n] (Prefix ++ [z2b n]).
Definition demo_quota : QuotaManager :=
  Pin 9 (demo_mid 1) (Touch 3 (demo_mid 3) 30 PinTierAutoDiscovered (Touch 2 (demo_mid 2) 20 PinTierAutoDiscovered
    (Touch 1 (demo_mid 1) 10 PinTierAutoDiscovered (NewQuotaManager 45)))).
Lemma wf_demo_quota : wf_quota demo_quota.
Proof. apply (bool_decide_unpack _). vm_compute. exact I. Qed.
Lemma Touch_spec_witness : wf_quota (Touch 10 (demo_mid 2) 25 PinTierOperator demo_quota) /\
  IsOperatorPinned (demo_mid 1) (Touch 10 (demo_mid 2) 25 PinTierOperator demo_quota) = true.
Proof.
  destruct (Touch_spec 10 (demo_mid 2) 25 PinTierOperator demo_quota wf_demo_quota) as (H1 & _ & _ & _ & H2).
  split; [exact H1|]. apply H2. vm_compute. reflexivity.
Defined.
(** the least recently used unpinned element goes, the older pinned one stays *)
Lemma EnforceQuota_spec_witness : exists cur s' rest,
  (EnforceQuota demo_quota (map toy_entry (reverse (q_lruList demo_quota)))).2 = s' /\ es_Size s' = Ok cur /\ toy_holds s' rest /\
  (cur <= 45 \/ Forall (λ e, qe_tier e = PinTierOperator) rest) /\
  map toy_entry (reverse (q_lruList demo_quota)) = [(demo_mid 2, 20); (demo_mid 3, 30); (demo_mid 1, 10)] /\
  s' = [(demo_mid 3, 30); (demo_mid 1, 10)].
Proof.
  destruct (EnforceQuota_spec demo_quota (map toy_entry (reverse (q_lruList demo_quota))) 60 ltac:(done) ltac:(done)
    ltac:(vm_compute; reflexivity) ltac:(vm_compute; reflexivity) wf_demo_quota) as (ev & cur & s' & _ & _ & _ & H1 & _ & H2).
  destruct H2 as (rest & H3 & H4 & _ & H5).
  - split; [reflexivity|]. apply (bool_decide_unpack _). vm_compute. exact I.
  - exists cur, s', rest. split_and!; [exact H1|exact H4|exact H3|exact H5|vm_compute; reflexivity|].
    rewrite <-H1. vm_compute. reflexivity.
Defined.
