(* ===== verification/Delta.v ===== *)
(** * The delta of a content exchange (src/anchor/delta.go)

    A node that asks a peer for its sealed content sends a Bloom filter of what it has; the peer
    answers with what the filter does not contain.
    [FilterDelta_exact]: which of the peer's content that is, to the bit, and that nothing of
    the inventory is among it.  Lemma [false_positive] is a piece of content that is left out
    although the node does not have it. *)
From S2P Require Import Prelude Mid Lru.

Record BloomFilter := mkBloom { bits : bytes; bf_m : Z; hashes : Z }.
Definition NewBloomFilter (itemCount : Z) : BloomFilter :=
  let itemCount := if itemCount <=? 0 then 100 else itemCount in
  let numBits := u32 (itemCount * 10) in
  let numBits := if numBits <? 64 then 64 else numBits in
  let numBytes := u32 (numBits + 7) / 8 in
  mkBloom (replicate (Z.to_nat numBytes) Byte.x00) (u32 (numBytes * 8)) 3.
Definition NewBloomFilterFromBytes (bs : bytes) (hashes : Z) : option BloomFilter :=
  if bool_decide (bs = []) then None else
  let hashes := if hashes =? 0 then 3 else hashes in
  Some (mkBloom bs (u32 (zlen bs * 8)) hashes).
Definition hash_location (m : Z) (h1 : Z) (i : nat) : Z :=
  let h2 := Z.shiftr h1 32 in
  let combined := u64 (h1 + u64 (Z.of_nat i * h2)) in
  u32 (combined mod m).
Definition hashLocations (b : BloomFilter) (item : bytes) : list Z :=
  let h1 := fnv64a item in
  map (hash_location (bf_m b) h1) (seq 0 (Z.to_nat (hashes b))).
Definition byte_at (bs : bytes) (loc : Z) : Z := b2z (default Byte.x00 (bs !! Z.to_nat (loc / 8))).
Definition set_bit (bs : bytes) (loc : Z) : bytes :=
  <[Z.to_nat (loc / 8) := z2b (Z.lor (byte_at bs loc) (Z.shiftl 1 (loc mod 8)))]> bs.
Definition Add (item : bytes) (b : BloomFilter) : BloomFilter :=
  if bf_m b =? 0 then b else mkBloom (foldl set_bit (bits b) (hashLocations b item)) (bf_m b) (hashes b).
Definition has_bit (bs : bytes) (loc : Z) : bool := negb (Z.land (byte_at bs loc) (Z.shiftl 1 (loc mod 8)) =? 0).
Definition Contains (item : bytes) (b : BloomFilter) : bool :=
  if (bf_m b =? 0) || bool_decide (bits b = []) then false else forallb (has_bit (bits b)) (hashLocations b item).
Section delta.
Context `{Multiformats}.
Definition BuildInventoryBloom (knownMIDs : list MID) : bytes * Z :=
  if bool_decide (knownMIDs = []) then ([], 0) else
  let bf := foldl (λ bf m, Add (String m) bf) (NewBloomFilter (zlen knownMIDs)) knownMIDs in
  (bits bf, hashes bf).
Definition FilterDelta (sealedMIDs : list MID) (bloomBytes : bytes) (hashes : Z) : list MID :=
  if bool_decide (bloomBytes = []) then sealedMIDs else
  match NewBloomFilterFromBytes bloomBytes hashes with
  | None => sealedMIDs
  | Some bf => filter (λ m, Contains (String m) bf = false) sealedMIDs
  end.
End delta.

(** ** Properties *)
Lemma byte_at_bound bs loc : 0 <= byte_at bs loc < 256.
Proof. apply b2z_bound. Qed.
Lemma mask_bit i n : 0 <= i -> Z.testbit (Z.shiftl 1 i) n = (i =? n).
Proof. intros Hi. rewrite Z.shiftl_1_l. by apply Z.pow2_bits_eqb. Qed.
Lemma has_bit_testbit bs loc : has_bit bs loc = Z.testbit (byte_at bs loc) (loc mod 8).
Proof.
  unfold has_bit. set (x := byte_at bs loc). set (i := loc mod 8).
  assert (0 <= i) as Hi by (apply Z.mod_pos_bound; lia).
  destruct (Z.testbit x i) eqn:E.
  - apply negb_true_iff, Z.eqb_neq. intros Hz. apply (f_equal (λ z, Z.testbit z i)) in Hz.
    by rewrite Z.land_spec, E, mask_bit, Z.eqb_refl, Z.bits_0 in Hz.
  - apply negb_false_iff, Z.eqb_eq, Z.bits_inj'. intros n Hn. rewrite Z.land_spec, Z.bits_0, mask_bit by done.
    destruct (Z.eqb_spec i n) as [<-|]; [by rewrite E|apply andb_false_r].
Qed.
Lemma lor_byte x i : 0 <= x < 256 -> 0 <= i < 8 -> 0 <= Z.lor x (Z.shiftl 1 i) < 256.
Proof.
  intros Hx Hi. split; [apply Z.lor_nonneg; rewrite Z.shiftl_nonneg; lia|].
  apply Z.log2_lt_cancel. rewrite Z.log2_lor, Z.shiftl_1_l, Z.log2_pow2 by (rewrite ?Z.shiftl_nonneg; lia).
  change (Z.log2 256) with 8. assert (Z.log2 x <= Z.log2 255) by (apply Z.log2_le_mono; lia). change (Z.log2 255) with 7 in *. lia.
Qed.
Lemma same_bit a b : a / 8 = b / 8 -> a mod 8 = b mod 8 -> a = b.
Proof. intros H1 H2. rewrite (Z.div_mod a 8), (Z.div_mod b 8) by lia. congruence. Qed.
(** the locations a filter of [n] bytes has *)
Definition in_filter (n : nat) (loc : Z) : Prop := 0 <= loc < 8 * Z.of_nat n.
Lemma length_set_bit bs loc : length (set_bit bs loc) = length bs.
Proof. apply length_insert. Qed.
Lemma has_set_bit bs loc l : in_filter (length bs) loc -> 0 <= l -> has_bit (set_bit bs loc) l = bool_decide (loc = l) || has_bit bs l.
Proof.
  intros [Hloc Hb] Hl. rewrite !has_bit_testbit. unfold set_bit.
  assert (0 <= loc mod 8 < 8 /\ 0 <= l mod 8) as [Hm Hm'] by (split; apply Z.mod_pos_bound; lia).
  assert (0 <= loc / 8 < Z.of_nat (length bs)) as Hd.
  { split; [by apply Z.div_pos|apply Z.div_lt_upper_bound; lia]. }
  assert (0 <= l / 8) by (by apply Z.div_pos).
  unfold byte_at at 1. destruct (decide (loc / 8 = l / 8)) as [E|E].
  - rewrite <-E, list_lookup_insert_eq by lia. cbn [from_option]; unfold id. rewrite b2z_z2b, Z.mod_small by (apply lor_byte; [apply byte_at_bound|done]).
    rewrite Z.lor_spec, mask_bit by lia.
    assert (byte_at bs loc = byte_at bs l) as -> by (unfold byte_at; by rewrite E).
    rewrite orb_comm. f_equal. case_bool_decide as Hc; [rewrite Hc; apply Z.eqb_refl|]. apply Z.eqb_neq. intros ?. apply Hc. by apply same_bit.
  - rewrite list_lookup_insert_ne by lia. rewrite bool_decide_false by congruence. done.
Qed.
Lemma has_foldl_set_bit locs bs l : Forall (in_filter (length bs)) locs -> 0 <= l ->
  has_bit (foldl set_bit bs locs) l = bool_decide (l ∈ locs) || has_bit bs l.
Proof.
  revert bs. induction locs as [|loc locs IH]; intros bs; cbn [foldl]; [intros _ _; by rewrite bool_decide_false by set_solver|].
  intros [Hloc Hlocs]%Forall_cons Hl. rewrite IH, has_set_bit by (rewrite ?length_set_bit; done).
  rewrite orb_assoc. f_equal. destruct (decide (loc = l)) as [->|Hne].
  - rewrite (bool_decide_true (l = l)) by done. rewrite orb_true_r. symmetry. apply bool_decide_eq_true. left.
  - rewrite (bool_decide_false (loc = l)) by done. rewrite orb_false_r. apply bool_decide_ext. rewrite elem_of_cons. naive_solver.
Qed.
Lemma length_foldl_set_bit locs bs : length (foldl set_bit bs locs) = length bs.
Proof. revert bs. induction locs as [|l locs IH]; intros bs; [done|]. cbn [foldl]. by rewrite IH, length_set_bit. Qed.

(** a filter whose width is that of its bytes *)
Definition wf_bloom (b : BloomFilter) : Prop := 0 < bf_m b < 2 ^ 32 /\ bf_m b = 8 * zlen (bits b).
Lemma hashLocations_in b item : wf_bloom b -> Forall (in_filter (length (bits b))) (hashLocations b item).
Proof.
  intros [Hm Hlen]. apply Forall_forall. intros l Hl. unfold hashLocations in Hl. apply list_elem_of_fmap in Hl as (i & -> & _).
  unfold hash_location. pose proof (Z.mod_pos_bound (u64 (fnv64a item + u64 (Z.of_nat i * Z.shiftr (fnv64a item) 32))) (bf_m b)).
  rewrite u32_small by lia. unfold in_filter. unfold zlen in Hlen. lia.
Qed.
Definition add_all (ks : list bytes) (b : BloomFilter) : BloomFilter := foldl (λ b k, Add k b) b ks.
Lemma Add_spec k b : wf_bloom b ->
  wf_bloom (Add k b) /\ bf_m (Add k b) = bf_m b /\ hashes (Add k b) = hashes b /\
  (forall l, 0 <= l -> has_bit (bits (Add k b)) l = bool_decide (l ∈ hashLocations b k) || has_bit (bits b) l).
Proof.
  intros Hb. unfold Add. rewrite (proj2 (Z.eqb_neq (bf_m b) 0)) by (destruct Hb; lia). cbn [bits bf_m hashes]. split_and!; [|done..|].
  - destruct Hb as [? Hl]. split; [done|]. cbn [bits bf_m]. unfold zlen in *. by rewrite length_foldl_set_bit.
  - intros l Hl. apply has_foldl_set_bit; [by apply hashLocations_in|done].
Qed.
Lemma same_locations b b' k : bf_m b' = bf_m b -> hashes b' = hashes b -> hashLocations b' k = hashLocations b k.
Proof. unfold hashLocations. by intros -> ->. Qed.
Lemma add_all_spec ks b : wf_bloom b ->
  wf_bloom (add_all ks b) /\ bf_m (add_all ks b) = bf_m b /\ hashes (add_all ks b) = hashes b /\
  (forall l, 0 <= l -> has_bit (bits (add_all ks b)) l = existsb (λ k, bool_decide (l ∈ hashLocations b k)) ks || has_bit (bits b) l).
Proof.
  revert b. induction ks as [|k ks IH]; intros b Hb; [done|]. unfold add_all. cbn [foldl]. fold (add_all ks (Add k b)).
  destruct (Add_spec k b Hb) as (Hb1 & Hm & Hh & Hbits). destruct (IH _ Hb1) as (H1 & H2 & H3 & H4). rewrite Hm in H2. rewrite Hh in H3.
  split_and!; [done..|]. intros l Hl. rewrite H4, Hbits by done. cbn [existsb].
  rewrite (existsb_same _ (λ k, bool_decide (l ∈ hashLocations b k))) by (intros; by rewrite same_locations with (b := b)).
  destruct (existsb _ ks), (bool_decide (l ∈ _)), (has_bit _ _); done.
Qed.
Lemma has_bit_zero n l : has_bit (replicate n Byte.x00) l = false.
Proof.
  unfold has_bit, byte_at. assert (default Byte.x00 (replicate n Byte.x00 !! Z.to_nat (l / 8)) = Byte.x00) as ->; [|done].
  destruct (_ !! _) as [x|] eqn:E; [|done]. apply lookup_replicate in E as [-> _]. done.
Qed.
Lemma has_bit_new n l : has_bit (bits (NewBloomFilter n)) l = false.
Proof. apply has_bit_zero. Qed.
Lemma NewBloomFilter_wf n : 0 < n -> 10 * n + 7 < 2 ^ 32 ->
  wf_bloom (NewBloomFilter n) /\ hashes (NewBloomFilter n) = 3 /\ 10 * n <= bf_m (NewBloomFilter n).
Proof.
  intros Hn Hb. unfold NewBloomFilter. rewrite (proj2 (Z.leb_gt n 0)) by lia. rewrite (u32_small (n * 10)) by lia.
  set (nb := if n * 10 <? 64 then 64 else n * 10).
  assert (64 <= nb /\ n * 10 <= nb /\ nb + 7 < 2 ^ 32) as (H1 & H2 & H3) by (unfold nb; destruct (Z.ltb_spec (n * 10) 64); lia).
  rewrite (u32_small (nb + 7)) by lia. pose proof (Z.div_mod (nb + 7) 8 ltac:(lia)). pose proof (Z.mod_pos_bound (nb + 7) 8 ltac:(lia)).
  rewrite u32_small by lia. unfold wf_bloom. cbn [bits bf_m hashes]. unfold zlen. rewrite length_replicate. lia.
Qed.
Lemma wf_bloom_bits b : wf_bloom b -> bits b ≠ [].
Proof. intros [Hm Hl] E. rewrite E in Hl. change (zlen (@nil byte)) with 0 in Hl. lia. Qed.

Section delta_facts.
Context `{Multiformats}.
(** the filter that [known] makes, and what it cannot tell from [known] *)
Definition inventory (known : list MID) : BloomFilter := NewBloomFilter (zlen known).
Definition covered (known : list MID) (m : MID) : bool :=
  forallb (λ l, existsb (λ k, bool_decide (l ∈ hashLocations (inventory known) (String k))) known)
    (hashLocations (inventory known) (String m)).
Lemma covered_known known m : m ∈ known -> covered known m = true.
Proof.
  intros Hm. apply forallb_forall. intros l Hl%list_elem_of_In. apply existsb_exists. exists m.
  split; [by apply list_elem_of_In|by apply bool_decide_eq_true].
Qed.
Lemma BuildInventoryBloom_spec known : known ≠ [] -> 10 * zlen known + 7 < 2 ^ 32 ->
  exists bs, BuildInventoryBloom known = (bs, 3) /\ bs ≠ [] /\
    exists bf, NewBloomFilterFromBytes bs 3 = Some bf /\ forall m, Contains (String m) bf = covered known m.
Proof.
  intros Hne Hsmall. assert (0 < zlen known) as Hpos by (destruct known; [done|unfold zlen; cbn [length]; lia]).
  destruct (NewBloomFilter_wf (zlen known) Hpos Hsmall) as (Hwf & Hh & _).
  destruct (add_all_spec (map String known) _ Hwf) as (H1 & H2 & H3 & H4).
  unfold BuildInventoryBloom. rewrite bool_decide_false by done.
  assert (foldl (λ bf m, Add (String m) bf) (NewBloomFilter (zlen known)) known = add_all (map String known) (NewBloomFilter (zlen known))) as ->.
  { unfold add_all. generalize (NewBloomFilter (zlen known)). clear. induction known as [|k ks IH]; intros b; [done|]. cbn [foldl map]. apply IH. }
  set (bf := add_all _ _) in *. eexists. rewrite H3, Hh. split; [reflexivity|]. split; [by apply wf_bloom_bits|].
  exists bf. split.
  - unfold NewBloomFilterFromBytes. rewrite bool_decide_false by (by apply wf_bloom_bits). cbn [Z.eqb].
    destruct H1 as [Hm Hl]. f_equal. rewrite (Z.mul_comm _ 8), <-Hl, u32_small by lia. rewrite <-Hh, <-H3. by destruct bf.
  - intros m. unfold Contains. rewrite (bool_decide_false (bits bf = [])) by (by apply wf_bloom_bits).
    rewrite (proj2 (Z.eqb_neq (bf_m bf) 0)) by (destruct H1; lia). cbn [orb]. unfold covered.
    assert (hashLocations bf (String m) = hashLocations (inventory known) (String m)) as -> by (unfold hashLocations; by rewrite H2, H3).
    apply forallb_same_in. intros l Hl. rewrite H4, has_bit_new, orb_false_r.
    + apply existsb_over_map.
    + pose proof (hashLocations_in (inventory known) (String m) Hwf) as Hall. rewrite Forall_forall in Hall. apply (Hall l Hl).
Qed.

Lemma FilterDelta_sublist sealed bs k : FilterDelta sealed bs k `sublist_of` sealed.
Proof. unfold FilterDelta. case_bool_decide; [done|]. destruct (NewBloomFilterFromBytes _ _); [apply sublist_filter|done]. Qed.
Lemma FilterDelta_all (Q : MID -> Prop) sealed bs k : Forall Q sealed -> Forall Q (FilterDelta sealed bs k).
Proof.
  intros Hall. unfold FilterDelta. case_bool_decide; [done|]. destruct (NewBloomFilterFromBytes _ _); [|done].
  apply Forall_forall. intros x [_ Hx]%list_elem_of_filter. rewrite Forall_forall in Hall. by apply Hall.
Qed.
(** what is left of [sealed] *)
Lemma FilterDelta_covered known sealed : 10 * zlen known + 7 < 2 ^ 32 ->
  FilterDelta sealed (BuildInventoryBloom known).1 (BuildInventoryBloom known).2 =
    filter (λ m, known = [] \/ covered known m = false) sealed.
Proof.
  intros Hsmall. destruct (decide (known = [])) as [->|Hne].
  - unfold FilterDelta. cbn. induction sealed as [|m l IH]; [done|]. rewrite filter_cons, decide_True by (by left). by f_equal.
  - destruct (BuildInventoryBloom_spec known Hne Hsmall) as (bs & -> & Hbs & bf & Ebf & Hc). unfold FilterDelta. cbn [fst snd].
    rewrite bool_decide_false, Ebf by done. apply list_filter_iff. intros m. rewrite Hc. naive_solver.
Qed.

(** what a peer answers to the filter of an inventory is its sealed content, in
    order, less what the inventory covers: a MID all of whose locations are locations of some
    known one.  Everything known is covered, so nothing of it is sent again; an
    empty inventory filters nothing. *)
Theorem FilterDelta_exact known sealed : 10 * zlen known + 7 < 2 ^ 32 ->
  FilterDelta sealed (BuildInventoryBloom known).1 (BuildInventoryBloom known).2 =
    filter (λ m, known = [] \/ covered known m = false) sealed /\
  (forall m, m ∈ known -> m ∉ FilterDelta sealed (BuildInventoryBloom known).1 (BuildInventoryBloom known).2).
Proof.
  intros Hsmall. split; [by apply FilterDelta_covered|]. rewrite FilterDelta_covered by done.
  intros m Hm [[->|Hc] _]%list_elem_of_filter; [by apply not_elem_of_nil in Hm|]. by rewrite covered_known in Hc.
Qed.
End delta_facts.

(** ** Witnesses *)
Definition demo_mid (n : Z) : MID := mkMID 1 CodecRaw [z2b 30; z2b n] (Prefix ++ [z2b n]).
Definition demo_known : list MID := map (λ n, demo_mid (Z.of_nat n)) (seq 1 6).
Lemma FilterDelta_exact_witness :
  FilterDelta [demo_mid 3; demo_mid 100; demo_mid 5; demo_mid 101] (BuildInventoryBloom demo_known).1 (BuildInventoryBloom demo_known).2
  = [demo_mid 100; demo_mid 101].
Proof.
  destruct (FilterDelta_exact demo_known [demo_mid 3; demo_mid 100; demo_mid 5; demo_mid 101]) as [H _]; [vm_compute; reflexivity|].
  rewrite H. vm_compute. reflexivity.
Defined.
(** this node does not have it, and its peer will never send it *)
Lemma false_positive : (demo_mid 23 ∉ demo_known) /\ FilterDelta [demo_mid 23] (BuildInventoryBloom demo_known).1 (BuildInventoryBloom demo_known).2 = [].
Proof. split; [apply (bool_decide_unpack _)|]; vm_compute; exact I || reflexivity. Qed.
