(* ===== verification/Anchor.v ===== *)
(** * The anchor engine (src/anchor/anchor.go, workerpool.go)

    [AnchorEngine] is the engine's state behind its mutex, [Peerstore] the host's address book,
    [AnchorStore] the engine's store; what the network answers is an argument: [resolve] and
    [fetch] of [network].  A round of the discovery loop is [tick]: what came from the
    peers, when each call reads the clock, and the order in which the workers' fetches take effect are a
    [round].  Telemetry and reputation, which only report, are left out.
    [enqueue_backoff]: what is queued, and that the backlog is bounded; [engine_invariant];
    [health_prunes]: which anchors the health checks remove; [samples_cover]: the sampling
    visits everything sealed; lemma [tick_acquires]: what is queued and can be had is sealed after the round;
    [registry_restored]: the registry comes back after a restart. *)
From S2P Require Import Prelude Mid Wire Blockstore Objects Memstore Quota.

Record AddrInfo := mkAddrInfo { ai_ID : bytes; ai_Addrs : list bytes }.
#[export] Instance AddrInfo_eq_dec : EqDecision AddrInfo.
Proof. solve_decision. Defined.
Record enqueuedMID := mkEnqueued { eq_mid : MID; eq_source : bytes }.
Record ContentAnnouncement := mkAnnouncement { an_MID : MID; an_Source : bytes }.

(** durations, in nanoseconds *)
Definition minute : Z := 60 * 1000000000.
Definition MaxEnqueueBacklog : Z := 1024.
Definition DefaultHealthEvery : Z := 5.
Definition anchorFailThreshold : Z := 3.
Definition maxHealthChecksPerRound : nat := 16.
Definition anchorAttemptBackoff : Z := 10 * minute.

Record AnchorEngine := mkEngine {
  anchors : gmap bytes AddrInfo;
  backlog : list enqueuedMID;
  synced : Z;
  sampleOffset : Z;
  quotaMgr : QuotaManager;
  attempts : gmap bytes Z;
  sticky : gset bytes;
  healthFails : gmap bytes Z;
  roundNum : Z;
  dirty : bool;
}.
Definition newEngine (maxBytes : Z) : AnchorEngine :=
  mkEngine ∅ [] 0 0 (NewQuotaManager maxBytes) ∅ ∅ ∅ 0 false.

Definition set_registry (a : gmap bytes AddrInfo) (d : bool) (e : AnchorEngine) : AnchorEngine :=
  mkEngine a (backlog e) (synced e) (sampleOffset e) (quotaMgr e) (attempts e) (sticky e) (healthFails e) (roundNum e) d.
Definition set_backlog (b : list enqueuedMID) (e : AnchorEngine) : AnchorEngine :=
  mkEngine (anchors e) b (synced e) (sampleOffset e) (quotaMgr e) (attempts e) (sticky e) (healthFails e) (roundNum e) (dirty e).
Definition set_synced (n : Z) (e : AnchorEngine) : AnchorEngine :=
  mkEngine (anchors e) (backlog e) n (sampleOffset e) (quotaMgr e) (attempts e) (sticky e) (healthFails e) (roundNum e) (dirty e).
Definition set_offset (n : Z) (e : AnchorEngine) : AnchorEngine :=
  mkEngine (anchors e) (backlog e) (synced e) n (quotaMgr e) (attempts e) (sticky e) (healthFails e) (roundNum e) (dirty e).
Definition set_quota (q : QuotaManager) (e : AnchorEngine) : AnchorEngine :=
  mkEngine (anchors e) (backlog e) (synced e) (sampleOffset e) q (attempts e) (sticky e) (healthFails e) (roundNum e) (dirty e).
Definition set_attempts (a : gmap bytes Z) (e : AnchorEngine) : AnchorEngine :=
  mkEngine (anchors e) (backlog e) (synced e) (sampleOffset e) (quotaMgr e) a (sticky e) (healthFails e) (roundNum e) (dirty e).
Definition set_sticky (s : gset bytes) (e : AnchorEngine) : AnchorEngine :=
  mkEngine (anchors e) (backlog e) (synced e) (sampleOffset e) (quotaMgr e) (attempts e) s (healthFails e) (roundNum e) (dirty e).
Definition set_fails (f : gmap bytes Z) (e : AnchorEngine) : AnchorEngine :=
  mkEngine (anchors e) (backlog e) (synced e) (sampleOffset e) (quotaMgr e) (attempts e) (sticky e) f (roundNum e) (dirty e).
Definition set_round (n : Z) (e : AnchorEngine) : AnchorEngine :=
  mkEngine (anchors e) (backlog e) (synced e) (sampleOffset e) (quotaMgr e) (attempts e) (sticky e) (healthFails e) n (dirty e).

(** libp2p's address book: [AddAddrs], [ClearAddrs] and [Addrs] *)
Class Peerstore (P : Type) := {
  ps_AddAddrs : bytes -> list bytes -> P -> P;
  ps_ClearAddrs : bytes -> P -> P;
  ps_Addrs : bytes -> P -> list bytes;
}.
(** the part of the store the engine depends on; metadata is [MetaStore] *)
Class AnchorStore (St : Type) := {
  as_Has : MID -> St -> result bool;
  as_Seal : MID -> bool -> M St unit;
  as_AllSealed : St -> result (list MID);
}.
(** what a peer ID and a multiaddr are as text *)
Class PeerText := {
  peer_Decode : bytes -> result bytes;
  peer_String : bytes -> bytes;
  NewMultiaddr : bytes -> result bytes;
  ma_String : bytes -> bytes;
  legacy_registry : bytes -> option (list AddrInfo);   (* json.Unmarshal, before the registry was protobuf *)
}.
Record PeerAddrInfoProto := mkPeerAddrInfo { pa_Id : bytes; pa_Addrs : list bytes }.
Record AnchorRegistryProto := mkRegistry { ar_Anchors : list PeerAddrInfoProto }.
#[export] Instance PeerAddrInfo_texts : HasTexts PeerAddrInfoProto := λ p, pa_Id p :: pa_Addrs p.
#[export] Instance AnchorRegistry_texts : HasTexts AnchorRegistryProto := λ r, concat (map texts (ar_Anchors r)).

(** ** Registry, backlog and attempts *)
Section engine.
Context `{Multiformats} {P St : Type} `{Peerstore P, AnchorStore St, MetaStore St, PeerText, Proto AnchorRegistryProto}.

(** the engine with its store and the host's address book *)
Record node := mkNode { nd_engine : AnchorEngine; nd_store : St; nd_peers : P }.
Definition on_engine (f : AnchorEngine -> AnchorEngine) (n : node) : node := mkNode (f (nd_engine n)) (nd_store n) (nd_peers n).
Definition with_store (s : St) (n : node) : node := mkNode (nd_engine n) s (nd_peers n).
Definition on_peers (f : P -> P) (n : node) : node := mkNode (nd_engine n) (nd_store n) (f (nd_peers n)).

Definition enqueueFrom (now : Z) (root : MID) (source : bytes) (e : AnchorEngine) : bool * AnchorEngine :=
  if IsZero root then (false, e) else
  let blocked := match attempts e !! String root with Some last => now - last <? anchorAttemptBackoff | None => false end in
  if blocked then (false, e) else
  let b := if MaxEnqueueBacklog <=? zlen (backlog e) then drop 1 (backlog e) else backlog e in
  (true, set_backlog (b ++ [mkEnqueued root source]) e).
Definition Enqueue (now : Z) (root : MID) (e : AnchorEngine) : AnchorEngine := (enqueueFrom now root [] e).2.
Definition AddAnchor (ai : AddrInfo) (n : node) : node :=
  if bool_decide (ai_ID ai = []) then n else
  on_peers (ps_AddAddrs (ai_ID ai) (ai_Addrs ai))
    (on_engine (λ e, set_registry (<[ai_ID ai := ai]> (anchors e)) true e) n).
Definition RemoveAnchor (id : bytes) (n : node) : node :=
  on_peers (ps_ClearAddrs id)
    (on_engine (λ e,
       let e := if bool_decide (is_Some (anchors e !! id)) then set_registry (delete id (anchors e)) true e else e in
       set_fails (delete id (healthFails e)) e) n).
Definition engine_Pin (now : Z) (m : MID) (e : AnchorEngine) : AnchorEngine := set_quota (Pin now m (quotaMgr e)) e.
Definition AnchorPeers (e : AnchorEngine) : list AddrInfo := map snd (map_to_list (anchors e)).

Definition recordAttempt (now : Z) (m : MID) (e : AnchorEngine) : AnchorEngine := set_attempts (<[String m := now]> (attempts e)) e.
Definition markDone (m : MID) (e : AnchorEngine) : AnchorEngine := set_attempts (delete (String m) (attempts e)) e.
Definition purgeStaleAttempts (now : Z) (e : AnchorEngine) : AnchorEngine :=
  let cutoff := 2 * anchorAttemptBackoff in
  set_attempts (filter (λ kv, now - kv.2 <= cutoff) (attempts e)) e.

(** ** Health: [candidates] is the registry in the order of its iteration, up to where the context
    is cancelled; [probe] is whether a peer is or can be connected *)
Definition health_miss (id : bytes) (n : node) : node :=
  let fails := default 0 (healthFails (nd_engine n) !! id) + 1 in
  let n := on_engine (λ e, set_fails (<[id := fails]> (healthFails e)) e) n in
  if anchorFailThreshold <=? fails then RemoveAnchor id n else n.
Definition health_one (probe : bytes -> bool) (id : bytes) (n : node) : node :=
  if probe id then on_engine (λ e, set_fails (delete id (healthFails e)) e) n
  else if bool_decide (id ∈ sticky (nd_engine n)) then n
  else health_miss id n.
Fixpoint health_loop (self : bytes) (probe : bytes -> bool) (candidates : list AddrInfo) (checked : nat) (n : node) : node :=
  match candidates with
  | [] => n
  | ai :: candidates =>
      if (maxHealthChecksPerRound <=? checked)%nat then n
      else if bool_decide (ai_ID ai = self) then health_loop self probe candidates checked n
      else health_loop self probe candidates (S checked) (health_one probe (ai_ID ai) n)
  end.
Definition checkAnchorHealth (self : bytes) (probe : bytes -> bool) (candidates : list AddrInfo) (n : node) : node :=
  health_loop self probe candidates 0 n.

(** ** Providers *)
Definition merge_one (acc : gset bytes * list AddrInfo) (a : AddrInfo) : gset bytes * list AddrInfo :=
  let '(seen, direct) := acc in
  if bool_decide (ai_ID a ∈ seen) then acc else ({[ai_ID a]} ∪ seen, direct ++ [a]).
Definition mergeAnchors (direct anchors : list AddrInfo) : list AddrInfo :=
  if bool_decide (anchors = []) then direct else
  (foldl merge_one (list_to_set (map ai_ID direct), direct) anchors).2.
Definition FindProvidersWithAnchors (found : result (list AddrInfo)) (anchors : list AddrInfo) (want : Z) : result (list AddrInfo) :=
  provs ← found;
  let provs := mergeAnchors provs anchors in
  Ok (if (0 <? want) && (want <? zlen provs) then take (Z.to_nat want) provs else provs).
Definition mergeSource (provs : list AddrInfo) (source : bytes) (p : P) : list AddrInfo :=
  if bool_decide (source = []) then provs else
  if existsb (λ a, bool_decide (ai_ID a = source)) provs then provs else
  provs ++ [mkAddrInfo source (ps_Addrs source p)].

(** ** Acquisition *)
Record network := mkNetwork {
  resolve : MID -> result (list AddrInfo);
  fetch : MID -> list AddrInfo -> M St unit;
}.
Definition anchor_synced : bytes := lit "anchor_synced".
Definition finishAcquired (m : MID) (n : node) : node :=
  let n := with_store (as_Seal m false (nd_store n)).2 n in
  let n := on_engine (λ e, set_synced (i64 (synced e + 1)) e) n in
  let n := with_store (st_PutMeta anchor_synced (PutUint64 (u64 (synced (nd_engine n)))) (nd_store n)).2 n in
  on_engine (markDone m) n.
Definition fetchIfMissing (net : network) (now : Z) (m : MID) (source : bytes) (n : node) : node :=
  if IsZero m then n else
  let n := on_engine (recordAttempt now m) n in
  match as_Has m (nd_store n) with
  | Ok true => finishAcquired m n
  | _ =>
      match resolve net m with
      | Err _ => n
      | Ok provs =>
          let provs := mergeSource provs source (nd_peers n) in
          if bool_decide (provs = []) then n else
          match fetch net m provs (nd_store n) with
          | (Err _, s) => with_store s n
          | (Ok _, s) => finishAcquired m (with_store s n)
          end
      end
  end.
Definition shouldFetch (m : MID) (s : St) : bool :=
  if IsZero m then false else match as_Has m s with Err _ => true | Ok has => negb has end.
(** [processBacklogConcurrently]: [items] are those the pool started, in the order in which their
    fetches take effect; the [i]-th reads the clock at [clock i] *)
Definition processBacklogConcurrently (net : network) (clock : nat -> Z) (items : list enqueuedMID) (n : node) : node :=
  foldl (λ n x, fetchIfMissing net (clock x.1) (eq_mid x.2) (eq_source x.2) n) n (zip (seq 0 (length items)) items).
End engine.
Arguments node : clear implicits.
Arguments network : clear implicits.

(** ** The registry on disk, and a round *)
Section round.
Context `{Multiformats} {P St : Type} `{Peerstore P, AnchorStore St, MetaStore St, PeerText, Proto AnchorRegistryProto}.
Context (evictable : option (EvictableStore St)).

Definition AnchorRegistryKey : bytes := lit "/membuss/anchors/v1".
Definition addr_pb (ai : AddrInfo) : PeerAddrInfoProto := mkPeerAddrInfo (peer_String (ai_ID ai)) (map ma_String (ai_Addrs ai)).
(** [order] is the registry in the order of its iteration *)
Definition persistRegistry (order : list AddrInfo) (n : node P St) : node P St :=
  if negb (dirty (nd_engine n)) then n else
  let n := on_engine (λ e, set_registry (anchors e) false e) n in
  match marshal (mkRegistry (map addr_pb order)) with
  | Err _ => n
  | Ok payload => with_store (st_PutMeta AnchorRegistryKey payload (nd_store n)).2 n
  end.
Definition good_addrs (l : list bytes) : list bytes := rights (map NewMultiaddr l).
Definition load_one (n : node P St) (pb : PeerAddrInfoProto) : node P St :=
  match peer_Decode (pa_Id pb) with
  | Err _ => n
  | Ok pid =>
      if bool_decide (pid = []) then n else
      let addrs := good_addrs (pa_Addrs pb) in
      on_peers (ps_AddAddrs pid addrs) (on_engine (λ e, set_registry (<[pid := mkAddrInfo pid addrs]> (anchors e)) (dirty e) e) n)
  end.
Definition load_legacy (n : node P St) (ai : AddrInfo) : node P St :=
  if bool_decide (ai_ID ai = []) then n else
  on_peers (ps_AddAddrs (ai_ID ai) (ai_Addrs ai)) (on_engine (λ e, set_registry (<[ai_ID ai := ai]> (anchors e)) (dirty e) e) n).
Definition loadRegistry (n : node P St) : node P St :=
  match st_GetMeta AnchorRegistryKey (nd_store n) with
  | Err _ => n
  | Ok raw =>
      if bool_decide (raw = []) then n else
      let legacy := match legacy_registry raw with Some l => foldl load_legacy n l | None => n end in
      match unmarshal raw with
      | Ok reg => if bool_decide (ar_Anchors reg = []) then legacy else foldl load_one n (ar_Anchors reg)
      | Err _ => legacy
      end
  end.
(** [Start], up to where it launches the loop *)
Definition start_one (n : node P St) (ai : AddrInfo) : node P St :=
  on_engine (λ e, set_sticky ({[ai_ID ai]} ∪ sticky e) e) (AddAnchor ai n).
Definition Start (bootstrap : list AddrInfo) (n : node P St) : node P St :=
  let n := loadRegistry n in
  let n := match st_GetMeta anchor_synced (nd_store n) with
    | Ok val => if zlen val =? 8 then on_engine (set_synced (i64 (Uint64 val))) n else n
    | Err _ => n
    end in
  foldl start_one n bootstrap.

Record config := mkConfig { cfg_HealthEvery : Z; cfg_ReacquireBatchSize : Z; cfg_self : bytes }.
(** [New]'s default *)
Definition health_every (c : config) : Z := if cfg_HealthEvery c =? 0 then DefaultHealthEvery else cfg_HealthEvery c.

(** what one round is given: the network, the announcements its peers send for the MIDs it
    knows, the order of the map iterations, the orders and clocks of the two worker pools *)
Record round := mkRound {
  r_net : network St;
  r_now : Z;
  r_candidates : list AddrInfo;
  r_probe : bytes -> bool;
  r_order : list AddrInfo;
  r_found : gset bytes -> result (list ContentAnnouncement);
  r_enqueue : nat -> Z;
  r_pool : list enqueuedMID -> list enqueuedMID;
  r_fetch : nat -> Z;
  r_sample : nat -> Z;
}.
Definition known_MIDs (s : St) : gset bytes :=
  match as_AllSealed s with Ok sealed => list_to_set (map String sealed) | Err _ => ∅ end.
Definition discoverFromPeers (r : round) (n : node P St) : node P St :=
  match r_found r (known_MIDs (nd_store n)) with
  | Err _ => n
  | Ok anns =>
      on_engine (λ e, foldl (λ e x, (enqueueFrom (r_enqueue r x.1) (an_MID x.2) (an_Source x.2) e).2) e
                        (zip (seq 0 (length anns)) anns)) n
  end.
(** the indices a round samples, and where the next one starts *)
Definition batch_size (c : config) (len : Z) : Z :=
  let b := if cfg_ReacquireBatchSize c <=? 0 then 32 else cfg_ReacquireBatchSize c in
  if len <? b then len else b.
Definition sample_next (c : config) (len offset : Z) : Z := (offset mod len + batch_size c len) mod len.
Definition sample_indices (c : config) (len offset : Z) : list Z :=
  map (λ i, (offset mod len + Z.of_nat i) mod len) (seq 0 (Z.to_nat (batch_size c len))).
Definition sample_pending (c : config) (sealed : list MID) (offset : Z) (s : St) : list enqueuedMID :=
  map (λ m, mkEnqueued m []) (filter (λ m, shouldFetch m s = true)
    (omap (λ i, sealed !! Z.to_nat i) (sample_indices c (zlen sealed) offset))).
Definition enforce (n : node P St) : node P St :=
  match evictable with
  | None => n
  | Some ev =>
      match EnforceQuota (quotaMgr (nd_engine n)) (nd_store n) with
      | (Ok (_, q), s) => with_store s (on_engine (set_quota q) n)
      | (Err _, s) => with_store s n
      end
  end.
Definition resample (c : config) (r : round) (sealed : list MID) (n : node P St) : node P St :=
  let offset := sampleOffset (nd_engine n) in
  let n := on_engine (set_offset (sample_next c (zlen sealed) offset)) n in
  processBacklogConcurrently (r_net r) (r_sample r) (r_pool r (sample_pending c sealed offset (nd_store n))) n.
Definition tick_begin (c : config) (r : round) (n : node P St) : node P St :=
  let n := on_engine (purgeStaleAttempts (r_now r)) n in
  let n := on_engine (λ e, set_round (roundNum e + 1) e) n in
  let n := if (0 <? health_every c) && (Z.rem (roundNum (nd_engine n)) (health_every c) =? 0)
           then checkAnchorHealth (cfg_self c) (r_probe r) (r_candidates r) n else n in
  persistRegistry (r_order r) n.
(** up to the first worker pool *)
Definition tick_start (c : config) (r : round) (n : node P St) : node P St := discoverFromPeers r (tick_begin c r n).
Definition tick (c : config) (r : round) (n : node P St) : node P St :=
  let n := tick_start c r n in
  let pending := backlog (nd_engine n) in
  let n := on_engine (set_backlog []) n in
  let n := processBacklogConcurrently (r_net r) (r_fetch r) (r_pool r pending) n in
  match as_AllSealed (nd_store n) with
  | Err _ => n
  | Ok sealed => if bool_decide (sealed = []) then n else enforce (resample c r sealed n)
  end.
End round.

(** ** Properties: the backlog *)
Section backlog_facts.
Context `{Multiformats}.
Lemma enqueueFrom_spec now root source e : zlen (backlog e) <= MaxEnqueueBacklog ->
  let ok := negb (IsZero root) && match attempts e !! String root with Some last => anchorAttemptBackoff <=? now - last | None => true end in
  (enqueueFrom now root source e).1 = ok /\
  (enqueueFrom now root source e).2 = (if ok then
     set_backlog (drop (length (backlog e) + 1 - Z.to_nat MaxEnqueueBacklog) (backlog e) ++ [mkEnqueued root source]) e else e).
Proof.
  intros Hb ok. unfold enqueueFrom, ok. destruct (IsZero root); [done|]. cbn [negb andb].
  set (b := if MaxEnqueueBacklog <=? zlen (backlog e) then drop 1 (backlog e) else backlog e).
  assert (b = drop (length (backlog e) + 1 - Z.to_nat MaxEnqueueBacklog) (backlog e)) as <-.
  { unfold b, zlen, MaxEnqueueBacklog in *. destruct (Z.leb_spec 1024 (Z.of_nat (length (backlog e)))).
    - f_equal. lia.
    - replace (_ - _)%nat with 0%nat by lia. done. }
  destruct (attempts e !! String root) as [last|]; [|done].
  destruct (Z.ltb_spec (now - last) anchorAttemptBackoff); destruct (Z.leb_spec anchorAttemptBackoff (now - last)); done || lia.
Qed.
Lemma enqueueFrom_bounded now root source e : zlen (backlog e) <= MaxEnqueueBacklog ->
  zlen (backlog (enqueueFrom now root source e).2) <= MaxEnqueueBacklog.
Proof.
  intros Hb. destruct (enqueueFrom_spec now root source e Hb) as [_ ->]. destruct (_ && _); [|done].
  cbn [backlog set_backlog]. unfold zlen, MaxEnqueueBacklog in *. rewrite length_app, length_drop. cbn [length]. lia.
Qed.

(** a MID is queued, last in the backlog, unless it is zero or was tried in the last ten minutes; the
    backlog never holds more than 1024, and only its oldest entry can go for it;
    cleaning up old attempts never changes the answer. *)
Theorem enqueue_backoff now now0 root source e : zlen (backlog e) <= MaxEnqueueBacklog -> now0 <= now ->
  let '(queued, e') := enqueueFrom now root source e in
  queued = negb (IsZero root) && match attempts e !! String root with Some last => anchorAttemptBackoff <=? now - last | None => true end /\
  zlen (backlog e') <= MaxEnqueueBacklog /\
  (queued = false -> e' = e) /\
  (queued = true -> attempts e' = attempts e /\
     exists old kept, backlog e = old ++ kept /\ backlog e' = kept ++ [mkEnqueued root source] /\
       (old = [] \/ length old = 1%nat /\ zlen (backlog e) = MaxEnqueueBacklog)) /\
  (enqueueFrom now root source (purgeStaleAttempts now0 e)).1 = queued.
Proof.
  intros Hb Hnow. pose proof (enqueueFrom_bounded now root source e Hb) as Hb'.
  destruct (enqueueFrom_spec now root source e Hb) as [E1 E2].
  destruct (enqueueFrom_spec now root source (purgeStaleAttempts now0 e) Hb) as [E3 _]. rewrite E3.
  destruct (enqueueFrom now root source e) as [queued e']. cbn [fst snd] in *. subst queued. split_and!; [done|done| | |].
  - intros E. by rewrite E in E2.
  - intros E. rewrite E in E2. subst e'. split; [done|].
    exists (take (length (backlog e) + 1 - Z.to_nat MaxEnqueueBacklog) (backlog e)), (drop (length (backlog e) + 1 - Z.to_nat MaxEnqueueBacklog) (backlog e)).
    split; [by rewrite take_drop|]. split; [done|]. unfold zlen, MaxEnqueueBacklog in *.
    destruct (decide (length (backlog e) = 1024%nat)) as [El|El].
    + right. rewrite length_take. lia.
    + left. replace (_ - _)%nat with 0%nat by lia. apply take_0.
  - f_equal. cbn [attempts set_attempts purgeStaleAttempts]. destruct (attempts e !! String root) as [last|] eqn:El.
    + destruct (decide (now0 - last <= 2 * anchorAttemptBackoff)) as [Hd|Hd].
      * by erewrite map_lookup_filter_Some_2.
      * rewrite map_lookup_filter_None_2 by (right; intros x Hx; rewrite El in Hx; injection Hx as <-; done).
        symmetry. apply Z.leb_le. unfold anchorAttemptBackoff, minute in *. lia.
    + by rewrite map_lookup_filter_None_2 by (left; done).
Qed.
End backlog_facts.

(** ** Properties: the registry and its health *)
Definition eng_ok (e : AnchorEngine) : Prop :=
  zlen (backlog e) <= MaxEnqueueBacklog /\
  (forall id ai, anchors e !! id = Some ai -> ai_ID ai = id /\ id ≠ []) /\
  (forall id n, healthFails e !! id = Some n -> 1 <= n < anchorFailThreshold /\ is_Some (anchors e !! id) /\ id ∉ sticky e) /\
  only_pins (quotaMgr e) /\
  0 <= sampleOffset e.
Lemma eng_ok_new mb : eng_ok (newEngine mb).
Proof. split_and!; try done. by apply Forall_nil_2. Qed.

Section health_facts.
Context {P St : Type} `{Peerstore P}.
Implicit Type n : node P St.
(** what the checks know of one peer *)
Definition view (id : bytes) (e : AnchorEngine) : option AddrInfo * option Z := (anchors e !! id, healthFails e !! id).
Definition view_one (probe stuck : bool) (v : option AddrInfo * option Z) : option AddrInfo * option Z :=
  if probe then (v.1, None) else if stuck then v else
  let fails := default 0 v.2 + 1 in
  if anchorFailThreshold <=? fails then (None, None) else (v.1, Some fails).
(** what they leave alone *)
Definition beside (e e' : AnchorEngine) : Prop :=
  sticky e' = sticky e /\ backlog e' = backlog e /\ quotaMgr e' = quotaMgr e /\ sampleOffset e' = sampleOffset e /\
  attempts e' = attempts e /\ synced e' = synced e.
Lemma beside_trans e1 e2 e3 : beside e1 e2 -> beside e2 e3 -> beside e1 e3.
Proof. unfold beside. naive_solver congruence. Qed.

Lemma RemoveAnchor_view id id' n : view id' (nd_engine (RemoveAnchor id n)) = if decide (id' = id) then (None, None) else view id' (nd_engine n).
Proof.
  unfold RemoveAnchor, view, on_peers, on_engine. cbn [nd_engine]. case_bool_decide as Hs; cbn [anchors healthFails set_fails set_registry].
  - destruct (decide (id' = id)) as [->|Hne]; [by rewrite !lookup_delete_eq|by rewrite !lookup_delete_ne].
  - destruct (decide (id' = id)) as [->|Hne]; [|by rewrite lookup_delete_ne].
    rewrite lookup_delete_eq. f_equal. by apply eq_None_not_Some.
Qed.
Lemma RemoveAnchor_beside id n : beside (nd_engine n) (nd_engine (RemoveAnchor id n)) /\ nd_store (RemoveAnchor id n) = nd_store n.
Proof. unfold RemoveAnchor, on_peers, on_engine. cbn [nd_engine nd_store]. case_bool_decide; done. Qed.
Lemma health_one_view probe id id' n : view id' (nd_engine (health_one probe id n)) =
  if decide (id' = id) then view_one (probe id) (bool_decide (id ∈ sticky (nd_engine n))) (view id (nd_engine n)) else view id' (nd_engine n).
Proof.
  unfold health_one, view_one. destruct (probe id).
  { unfold view. cbn. destruct (decide (id' = id)) as [->|Hne]; [by rewrite lookup_delete_eq|by rewrite lookup_delete_ne]. }
  case_bool_decide; [by destruct (decide (id' = id)) as [->|]|].
  unfold health_miss. cbn [view snd]. destruct (anchorFailThreshold <=? _).
  - rewrite RemoveAnchor_view. destruct (decide (id' = id)) as [->|Hne]; [done|]. unfold view. cbn. by rewrite lookup_insert_ne.
  - unfold view. cbn. destruct (decide (id' = id)) as [->|Hne]; [by rewrite lookup_insert_eq|by rewrite lookup_insert_ne].
Qed.
Lemma health_one_beside probe id n : beside (nd_engine n) (nd_engine (health_one probe id n)) /\ nd_store (health_one probe id n) = nd_store n.
Proof.
  unfold health_one. destruct (probe id); [done|]. case_bool_decide; [done|]. unfold health_miss.
  destruct (_ <=? _); [|done]. by destruct (RemoveAnchor_beside id (on_engine (λ e, set_fails (<[id:=default 0 (healthFails (nd_engine n) !! id) + 1]> (healthFails e)) e) n)).
Qed.
Lemma health_loop_beside self probe cands checked n :
  beside (nd_engine n) (nd_engine (health_loop self probe cands checked n)) /\ nd_store (health_loop self probe cands checked n) = nd_store n.
Proof.
  revert checked n. induction cands as [|ai cands IH]; intros checked n; cbn [health_loop]; [done|].
  destruct (_ <=? _)%nat; [done|]. case_bool_decide; [apply IH|].
  destruct (IH (S checked) (health_one probe (ai_ID ai) n)) as [H1 H2]. destruct (health_one_beside probe (ai_ID ai) n) as [H3 H4].
  split; [by eapply beside_trans|congruence].
Qed.
(** the peers one round looks at *)
Definition looked_at (self : bytes) (cands : list AddrInfo) (checked : nat) : list bytes :=
  take (maxHealthChecksPerRound - checked) (filter (λ id, id ≠ self) (map ai_ID cands)).
Lemma health_loop_view self probe cands checked n id : NoDup (map ai_ID cands) ->
  view id (nd_engine (health_loop self probe cands checked n)) =
  if decide (id ∈ looked_at self cands checked)
  then view_one (probe id) (bool_decide (id ∈ sticky (nd_engine n))) (view id (nd_engine n)) else view id (nd_engine n).
Proof.
  unfold looked_at. revert checked n. induction cands as [|ai cands IH]; intros checked n; cbn [health_loop map].
  { intros _. by rewrite filter_nil, take_nil. }
  intros [Hn Hnd]%NoDup_cons. destruct (Nat.leb_spec maxHealthChecksPerRound checked).
  { replace (maxHealthChecksPerRound - checked)%nat with 0%nat by lia. done. }
  rewrite filter_cons. case_bool_decide as Hs.
  - rewrite (decide_False (P := ai_ID ai ≠ self)) by (intros Hx; by apply Hx). by apply IH.
  - rewrite (decide_True (P := ai_ID ai ≠ self)) by done. replace (maxHealthChecksPerRound - checked)%nat with (S (maxHealthChecksPerRound - S checked)) by lia.
    cbn [take]. rewrite IH by done. destruct (health_one_beside probe (ai_ID ai) n) as [[-> _] _]. rewrite health_one_view.
    destruct (decide (id = ai_ID ai)) as [->|Hne].
    + rewrite decide_False, decide_True; [done|left|].
      intros Hin. apply Hn. apply elem_of_take in Hin as (i & Hi & _). apply list_elem_of_lookup_2, list_elem_of_filter in Hi as [_ Hi]. done.
    + apply decide_ext. rewrite elem_of_cons. naive_solver.
Qed.
End health_facts.

(** [misses] consecutive misses before [outcomes]: is the peer still there after them? *)
Fixpoint survives (misses : nat) (outcomes : list bool) : bool :=
  match outcomes with
  | [] => true
  | true :: outcomes => survives 0 outcomes
  | false :: outcomes => (S misses <? 3)%nat && survives (S misses) outcomes
  end.
Definition three_misses (outcomes : list bool) : Prop := exists a b, outcomes = a ++ [false; false; false] ++ b.
Lemma three_misses_cons o os : three_misses (o :: os) <-> three_misses os \/ exists b, o :: os = [false; false; false] ++ b.
Proof.
  split.
  - intros ([|x a] & b & E); [right; by exists b|left]. injection E as _ E. by exists a, b.
  - intros [(a & b & ->)|(b & E)]; [by exists (o :: a), b|]. by exists [], b.
Qed.
Lemma survives_spec c os : (c < 3)%nat ->
  survives c os = false <-> three_misses os \/ exists b, os = replicate (3 - c) false ++ b.
Proof.
  revert c. induction os as [|[|] os IH]; intros c Hc; cbn [survives].
  - split; [done|]. intros [(a & b & E)|[b E]]; [by destruct a|]. destruct (3 - c)%nat eqn:Ec; [lia|done].
  - rewrite IH by lia. rewrite three_misses_cons. cbn [replicate Nat.sub]. split.
    + intros [Ht|[b ->]]; [by left; left|]. left. left. exists [], b. done.
    + intros [[Ht|[b Hb]]|[b Hb]]; [by left|done|]. destruct (3 - c)%nat eqn:Ec; [lia|done].
  - rewrite three_misses_cons, andb_false_iff, Nat.ltb_nlt. destruct (decide (S c < 3)%nat) as [Hc'|Hc'].
    + rewrite (IH (S c) Hc'). replace (3 - c)%nat with (S (3 - S c)) by lia. cbn [replicate app]. split.
      * intros [?|[Ht|[b ->]]]; [lia|by left; left|]. right. by exists b.
      * intros [[Ht|[b Hb]]|[b Hb]]; [by right; left| |].
        -- right. injection Hb as ->. destruct c as [|[|]]; [| |lia]; right; [by exists b|by exists (false :: b)].
        -- right. right. injection Hb as ->. by exists b.
    + assert (c = 2)%nat as -> by lia. split; [|intros _; by left]. intros _. right. by exists os.
Qed.

Section pruning.
Context {P St : Type} `{Peerstore P}.
Implicit Type n : node P St.
(** rounds of checks: the outcomes of the probes, and the order of the map's iteration *)
Definition check_round : Type := (bytes -> bool) * (gmap bytes AddrInfo -> list AddrInfo).
Definition check_rounds (self : bytes) (rounds : list check_round) n : node P St :=
  foldl (λ n r, checkAnchorHealth self r.1 (r.2 (anchors (nd_engine n))) n) n rounds.
Definition iterates (r : check_round) : Prop := forall m, r.2 m ≡ₚ map snd (map_to_list m).
Definition reg_ids (m : gmap bytes AddrInfo) : Prop := forall id ai, m !! id = Some ai -> ai_ID ai = id.

Lemma registry_ids m : reg_ids m -> map ai_ID (map snd (map_to_list m)) = map fst (map_to_list m).
Proof.
  intros Hm. rewrite map_map. apply list_fmap_ext. intros i [k ai] Hi. cbn. apply Hm.
  apply elem_of_map_to_list. by eapply list_elem_of_lookup_2.
Qed.
Lemma candidates_ids m cands : reg_ids m -> cands ≡ₚ map snd (map_to_list m) ->
  NoDup (map ai_ID cands) /\ forall id, id ∈ map ai_ID cands <-> is_Some (m !! id).
Proof.
  intros Hm Hc. assert (map ai_ID cands ≡ₚ map fst (map_to_list m)) as Hp by (rewrite <-registry_ids, Hc by done; done).
  split.
  - rewrite Hp. apply NoDup_fst_map_to_list.
  - intros id. rewrite Hp, list_elem_of_fmap. split.
    + intros ([k ai] & -> & Hin%elem_of_map_to_list). by exists ai.
    + intros [ai Hai]. exists (id, ai). split; [done|by apply elem_of_map_to_list].
Qed.
Lemma looked_at_all self m cands id : reg_ids m -> cands ≡ₚ map snd (map_to_list m) -> (size m <= maxHealthChecksPerRound)%nat ->
  id ∈ looked_at self cands 0 <-> id ≠ self /\ is_Some (m !! id).
Proof.
  intros Hm Hc Hs. unfold looked_at. destruct (candidates_ids m cands Hm Hc) as [_ Hin].
  rewrite take_ge, list_elem_of_filter, Hin; [done|].
  pose proof (length_filter (λ id, id ≠ self) (map ai_ID cands)). rewrite length_map, Hc, length_map, length_map_to_list in *. lia.
Qed.
Lemma check_shrinks self r n : reg_ids (anchors (nd_engine n)) -> iterates r ->
  anchors (nd_engine (checkAnchorHealth self r.1 (r.2 (anchors (nd_engine n))) n)) ⊆ anchors (nd_engine n).
Proof.
  intros Hm Hr. destruct (candidates_ids _ _ Hm (Hr _)) as [Hnd _]. apply map_subseteq_spec. intros id ai Hai.
  pose proof (health_loop_view self r.1 _ 0 n id Hnd) as Hv. unfold view in Hv.
  unfold checkAnchorHealth in Hai. rewrite Hai in Hv. destruct (decide _) as [Hd|Hd]; [|congruence].
  unfold view_one in Hv. destruct (r.1 id); [cbn in Hv; congruence|]. destruct (bool_decide _); [congruence|].
  destruct (_ <=? _); cbn in Hv; congruence.
Qed.
Lemma gone_stays self rounds n id : Forall iterates rounds -> reg_ids (anchors (nd_engine n)) ->
  anchors (nd_engine n) !! id = None -> anchors (nd_engine (check_rounds self rounds n)) !! id = None.
Proof.
  revert n. induction rounds as [|r rounds IH]; intros n; [done|]. intros [Hr Hrs]%Forall_cons Hm Hid. cbn [check_rounds foldl].
  pose proof (check_shrinks self r n Hm Hr) as Hsub. apply IH; [done| |].
  - intros id' ai Hai. apply Hm. by eapply lookup_weaken.
  - by eapply lookup_weaken_None.
Qed.
(** the count of misses as it is stored *)
Definition stored_fails (c : nat) : option Z := if decide (c = 0)%nat then None else Some (Z.of_nat c).
Lemma check_rounds_survives self rounds n id c ai : Forall iterates rounds -> reg_ids (anchors (nd_engine n)) ->
  (size (anchors (nd_engine n)) <= maxHealthChecksPerRound)%nat -> (c < 3)%nat -> id ≠ self -> id ∉ sticky (nd_engine n) ->
  view id (nd_engine n) = (Some ai, stored_fails c) ->
  anchors (nd_engine (check_rounds self rounds n)) !! id = if survives c (map (λ r, r.1 id) rounds) then Some ai else None.
Proof.
  revert n c. induction rounds as [|r rounds IH]; intros n c Hrs Hm Hs Hc Hself Hst Hv; [by injection Hv|].
  apply Forall_cons in Hrs as [Hr Hrs]. cbn [check_rounds foldl map survives]. set (n1 := checkAnchorHealth _ _ _ n).
  pose proof (check_shrinks self r n Hm Hr) as Hsub. fold n1 in Hsub.
  assert (reg_ids (anchors (nd_engine n1))) as Hm1 by (intros id' ai' Hai; eapply Hm, lookup_weaken; eassumption).
  assert (size (anchors (nd_engine n1)) <= maxHealthChecksPerRound)%nat as Hs1.
  { rewrite <-!size_dom in *. etrans; [|exact Hs]. apply subseteq_size. by apply subseteq_dom. }
  destruct (health_loop_beside self r.1 (r.2 (anchors (nd_engine n))) 0 n) as [[Hst1 _] _].
  fold (checkAnchorHealth self r.1 (r.2 (anchors (nd_engine n))) n) in Hst1. fold n1 in Hst1. rewrite <-Hst1 in Hst.
  destruct (candidates_ids _ _ Hm (Hr _)) as [Hnd _].
  assert (view id (nd_engine n1) = view_one (r.1 id) false (Some ai, stored_fails c)) as Hv1.
  { unfold n1, checkAnchorHealth. rewrite (health_loop_view self r.1 _ 0 n id Hnd), decide_True, Hv.
    - by rewrite bool_decide_false by (by rewrite <-Hst1).
    - apply (looked_at_all self _ _ id Hm (Hr _) Hs). split; [done|]. injection Hv as Hv _. by exists ai. }
  fold (check_rounds self rounds n1). unfold view_one in Hv1. destruct (r.1 id); [apply (IH n1 0%nat); try done; lia|]. cbn [fst snd] in Hv1.
  assert (default 0 (stored_fails c) + 1 = Z.of_nat (S c)) as Ef by (unfold stored_fails; destruct (decide _); cbn; lia).
  rewrite Ef in Hv1. unfold anchorFailThreshold in Hv1. destruct (Nat.ltb_spec (S c) 3) as [Hlt|Hge].
  - rewrite (proj2 (Z.leb_gt _ _)) in Hv1 by lia. cbn [andb]. apply (IH n1 (S c)); try done.
  - rewrite (proj2 (Z.leb_le _ _)) in Hv1 by lia. cbn [andb]. apply gone_stays; [done..|]. by injection Hv1.
Qed.

Lemma rounds_shrink self rounds n : reg_ids (anchors (nd_engine n)) -> Forall iterates rounds ->
  anchors (nd_engine (check_rounds self rounds n)) ⊆ anchors (nd_engine n).
Proof.
  revert n. induction rounds as [|r rounds IH]; intros n Hm; [done|]. intros [Hr Hrs]%Forall_cons.
  pose proof (check_shrinks self r n Hm Hr) as Hsub. etrans; [|exact Hsub]. apply IH; [|done].
  intros id ai Hai. eapply Hm, lookup_weaken; eassumption.
Qed.
Lemma sticky_stays self rounds n id ai : Forall iterates rounds -> reg_ids (anchors (nd_engine n)) ->
  id ∈ sticky (nd_engine n) -> anchors (nd_engine n) !! id = Some ai -> anchors (nd_engine (check_rounds self rounds n)) !! id = Some ai.
Proof.
  revert n. induction rounds as [|r rounds IH]; intros n; [done|]. intros [Hr Hrs]%Forall_cons Hm Hst Hai. cbn [check_rounds foldl].
  pose proof (check_shrinks self r n Hm Hr) as Hsub.
  destruct (health_loop_beside self r.1 (r.2 (anchors (nd_engine n))) 0 n) as [[Hst1 _] _].
  destruct (candidates_ids _ _ Hm (Hr _)) as [Hnd _]. apply IH; [done| |by unfold checkAnchorHealth; rewrite Hst1|].
  - intros id' ai' Hai'. eapply Hm, lookup_weaken; eassumption.
  - pose proof (health_loop_view self r.1 _ 0 n id Hnd) as Hv. rewrite (bool_decide_true _ Hst) in Hv. unfold view_one, view in Hv.
    unfold checkAnchorHealth. destruct (decide _); [|congruence]. destruct (r.1 id); cbn in Hv; congruence.
Qed.

(** C31: over rounds in which every anchor is probed (at most 16 are registered), an
    anchor is removed exactly when it is not a bootstrap anchor and three consecutive probes failed;
    no anchor is ever added. *)
Theorem health_prunes self rounds n id : eng_ok (nd_engine n) -> Forall iterates rounds ->
  (size (anchors (nd_engine n)) <= maxHealthChecksPerRound)%nat -> id ≠ self ->
  is_Some (anchors (nd_engine n) !! id) -> healthFails (nd_engine n) !! id = None ->
  ((anchors (nd_engine (check_rounds self rounds n)) !! id = None) <->
     (id ∉ sticky (nd_engine n)) /\ three_misses (map (λ r, r.1 id) rounds)) /\
  anchors (nd_engine (check_rounds self rounds n)) ⊆ anchors (nd_engine n).
Proof.
  intros (_ & Hreg & _) Hrs Hs Hself [ai Hai] Hf.
  assert (reg_ids (anchors (nd_engine n))) as Hm by (intros ? ? ?; by apply Hreg).
  split; [|by apply rounds_shrink].
  destruct (decide (id ∈ sticky (nd_engine n))) as [Hst|Hst].
  - rewrite (sticky_stays self rounds n id ai) by done. naive_solver.
  - rewrite (check_rounds_survives self rounds n id 0 ai) by (done || lia || by (unfold view; rewrite Hai, Hf)).
    assert (survives 0 (map (λ r, r.1 id) rounds) = false <-> three_misses (map (λ r, r.1 id) rounds)) as Hx.
    { rewrite survives_spec by lia. split; [|by left]. intros [?|[b ->]]; [done|]. by exists [], b. }
    destruct (survives 0 _); naive_solver.
Qed.
End pruning.

(** ** Properties: acquisition *)
(** what the engine relies on: [sealed_keys] are the MIDs pinned in the store; sealing adds one, metadata
    changes none *)
Class AnchorStoreLaws `{Multiformats} (St : Type) `{AnchorStore St, MetaStore St} := {
  sealed_keys : St -> gset bytes;
  seal_succeeds m s : exists s', as_Seal m false s = (Ok tt, s') /\ sealed_keys s' = {[String m]} ∪ sealed_keys s;
  meta_keeps k v s : sealed_keys (st_PutMeta k v s).2 = sealed_keys s;
}.
Section acquisition.
Context `{Multiformats} {P St : Type} `{Peerstore P, AnchorStore St, MetaStore St, PeerText, Proto AnchorRegistryProto, !AnchorStoreLaws St}.
Implicit Type n : node P St.
(** fetching never takes a seal away *)
Definition polite (net : network St) : Prop := forall m provs s, sealed_keys s ⊆ sealed_keys (fetch net m provs s).2.
Definition sealed_in n : gset bytes := sealed_keys (nd_store n).
(** [m] can be had: it is there, or someone serves it *)
Definition obtainable (net : network St) (m : MID) (source : bytes) : Prop :=
  (exists provs, resolve net m = Ok provs /\ (provs ≠ [] \/ source ≠ [])) /\
  forall provs s, exists s', fetch net m provs s = (Ok tt, s').
(** what an acquisition leaves alone *)
Definition calm (e e' : AnchorEngine) : Prop :=
  anchors e' = anchors e /\ backlog e' = backlog e /\ quotaMgr e' = quotaMgr e /\ sticky e' = sticky e /\
  healthFails e' = healthFails e /\ sampleOffset e' = sampleOffset e /\ roundNum e' = roundNum e /\ dirty e' = dirty e.
Lemma calm_trans e1 e2 e3 : calm e1 e2 -> calm e2 e3 -> calm e1 e3.
Proof. unfold calm. naive_solver congruence. Qed.

Lemma finishAcquired_spec m n :
  sealed_in (finishAcquired m n) = {[String m]} ∪ sealed_in n /\ calm (nd_engine n) (nd_engine (finishAcquired m n)) /\
  attempts (nd_engine (finishAcquired m n)) = delete (String m) (attempts (nd_engine n)) /\
  synced (nd_engine (finishAcquired m n)) = i64 (synced (nd_engine n) + 1) /\ nd_peers (finishAcquired m n) = nd_peers n.
Proof.
  unfold finishAcquired, sealed_in. destruct (seal_succeeds m (nd_store n)) as (s' & E & Es). rewrite E.
  cbn. rewrite meta_keeps. by rewrite Es.
Qed.
Lemma mergeSource_nonempty provs source p : provs ≠ [] \/ source ≠ [] -> mergeSource provs source p ≠ [].
Proof.
  intros Hp. unfold mergeSource. case_bool_decide as Hs; [naive_solver|].
  destruct (existsb _ provs) eqn:E; [by destruct provs|by destruct provs].
Qed.
Lemma fetch_cases net now m source n : polite net -> IsZero m = false ->
  exists s', sealed_in n ⊆ sealed_keys s' /\
    (fetchIfMissing net now m source n = finishAcquired m (with_store s' (on_engine (recordAttempt now m) n)) \/
     fetchIfMissing net now m source n = with_store s' (on_engine (recordAttempt now m) n) /\
       as_Has m (nd_store n) ≠ Ok true /\ ~ obtainable net m source).
Proof.
  intros Hnet Hz. unfold fetchIfMissing. rewrite Hz. set (n1 := on_engine (recordAttempt now m) n).
  destruct (decide (as_Has m (nd_store n1) = Ok true)) as [Hh|Hh].
  { exists (nd_store n). split; [done|left]. by rewrite Hh. }
  assert (forall A (x y : A), match as_Has m (nd_store n1) with Ok true => x | _ => y end = y) as ->.
  { intros A x y. by destruct (as_Has m (nd_store n1)) as [[]|]. }
  destruct (resolve net m) as [provs|err] eqn:Er.
  2:{ exists (nd_store n). split; [done|right]. split_and!; [done|done|]. intros [(? & ? & _) _]. congruence. }
  case_bool_decide as Hp.
  { exists (nd_store n). split; [done|right]. split_and!; [done|done|]. intros [(provs' & ? & Hne) _].
    assert (provs' = provs) as -> by congruence. by apply (mergeSource_nonempty _ _ (nd_peers n)) in Hne. }
  pose proof (Hnet m (mergeSource provs source (nd_peers n1)) (nd_store n1)) as Hsub.
  destruct (fetch net m _ (nd_store n1)) as [[[]|err] s'] eqn:Ef; exists s'; (split; [exact Hsub|]).
  - by left.
  - right. split_and!; [done..|]. intros [_ Hall]. destruct (Hall (mergeSource provs source (nd_peers n1)) (nd_store n1)) as [? E]. congruence.
Qed.
Lemma fetchIfMissing_spec net now m source n : polite net -> IsZero m = false ->
  let n' := fetchIfMissing net now m source n in
  sealed_in n ⊆ sealed_in n' /\ calm (nd_engine n) (nd_engine n') /\
  (String m ∈ sealed_in n' /\ attempts (nd_engine n') = delete (String m) (attempts (nd_engine n)) /\
     synced (nd_engine n') = i64 (synced (nd_engine n) + 1)
   \/ as_Has m (nd_store n) ≠ Ok true /\ ~ obtainable net m source /\
     attempts (nd_engine n') = <[String m := now]> (attempts (nd_engine n)) /\ synced (nd_engine n') = synced (nd_engine n)).
Proof.
  intros Hnet Hz n'. destruct (fetch_cases net now m source n Hnet Hz) as (s' & Hs & [E|(E & Hno1 & Hno2)]); unfold n'; rewrite E.
  - destruct (finishAcquired_spec m (with_store s' (on_engine (recordAttempt now m) n))) as (E1 & E2 & E3 & E4 & _).
    rewrite E1, E3, E4. change (sealed_in (with_store s' _)) with (sealed_keys s'). split_and!; [set_solver|by eapply calm_trans; [|exact E2]|].
    left. split_and!; [set_solver| |done]. cbn. apply delete_insert_eq.
  - split_and!; [done..|]. right. done.
Qed.
Lemma fetch_grows net now m source n : polite net ->
  sealed_in n ⊆ sealed_in (fetchIfMissing net now m source n) /\ calm (nd_engine n) (nd_engine (fetchIfMissing net now m source n)).
Proof.
  intros Hnet. destruct (IsZero m) eqn:Hz; [by unfold fetchIfMissing; rewrite Hz|].
  by destruct (fetchIfMissing_spec net now m source n Hnet Hz) as (? & ? & _).
Qed.
Lemma process_grows net clock items n : polite net ->
  sealed_in n ⊆ sealed_in (processBacklogConcurrently net clock items n) /\
  calm (nd_engine n) (nd_engine (processBacklogConcurrently net clock items n)).
Proof.
  intros Hnet. unfold processBacklogConcurrently. generalize (zip (seq 0 (length items)) items). intros l.
  revert n. induction l as [|[i x] l IH]; intros n; cbn [foldl]; [done|].
  destruct (fetch_grows net (clock i) (eq_mid x) (eq_source x) n Hnet) as [H6 H7]. destruct (IH (fetchIfMissing net (clock i) (eq_mid x) (eq_source x) n)) as [H8 H9].
  cbn [fst snd]. split; [by etrans|by eapply calm_trans].
Qed.
Lemma process_acquires net clock items n x : polite net -> x ∈ items -> IsZero (eq_mid x) = false ->
  obtainable net (eq_mid x) (eq_source x) ->
  String (eq_mid x) ∈ sealed_in (processBacklogConcurrently net clock items n).
Proof.
  intros Hnet Hx Hz Hob. unfold processBacklogConcurrently. apply list_elem_of_lookup in Hx as [i Hi].
  assert ((zip (seq 0 (length items)) items) !! i = Some (i, x)) as Hl.
  { apply lookup_zip_Some. split; [|done]. apply lookup_seq. split; [done|]. by eapply lookup_lt_Some. }
  rewrite <-(take_drop_middle _ _ _ Hl), foldl_app. cbn [foldl]. set (n1 := foldl _ n _).
  destruct (fetchIfMissing_spec net (clock i) (eq_mid x) (eq_source x) n1 Hnet Hz) as (_ & _ & [(Hin & _)|(_ & Hno & _)]); [|done].
  revert Hin. cbn [fst snd]. generalize (fetchIfMissing net (clock i) (eq_mid x) (eq_source x) n1). generalize (drop (S i) (zip (seq 0 (length items)) items)).
  intros l. induction l as [|[j y] l IH]; intros n2 Hin; cbn [foldl]; [done|]. apply IH.
  destruct (fetch_grows net (clock j) (eq_mid y) (eq_source y) n2 Hnet) as [Hsub _]. by apply Hsub.
Qed.
End acquisition.

(** ** Properties: sampling *)
Section sampling.
Context (c : config) (len : Z) (Hlen : 0 < len).
Lemma batch_size_bound : 0 < batch_size c len <= len.
Proof.
  unfold batch_size. set (b := if cfg_ReacquireBatchSize c <=? 0 then 32 else cfg_ReacquireBatchSize c).
  assert (0 < b) by (unfold b; destruct (Z.leb_spec (cfg_ReacquireBatchSize c) 0); lia).
  destruct (Z.ltb_spec len b); lia.
Qed.
Definition offset_after (k : nat) (offset : Z) : Z := Nat.iter k (sample_next c len) offset.
Lemma offset_after_mod k offset : offset_after k offset mod len = (offset + Z.of_nat k * batch_size c len) mod len.
Proof.
  induction k as [|k IH]; [unfold offset_after; cbn [Nat.iter]; by rewrite Z.mul_0_l, Z.add_0_r|].
  change (offset_after (S k) offset) with (sample_next c len (offset_after k offset)). unfold sample_next.
  rewrite Z.mod_mod, IH, Zplus_mod_idemp_l by lia. f_equal. rewrite Nat2Z.inj_succ. lia.
Qed.

(** the samples are positions of the list, all different within a round; and however
    big the list and whatever the offset, rounds whose batches add up to its length visit every
    position. *)
Theorem samples_cover offset rounds : len <= Z.of_nat rounds * batch_size c len ->
  (forall k, NoDup (sample_indices c len (offset_after k offset)) /\
     Forall (λ i, 0 <= i < len) (sample_indices c len (offset_after k offset))) /\
  (forall i, 0 <= i < len -> exists k, (k < rounds)%nat /\ i ∈ sample_indices c len (offset_after k offset)).
Proof.
  pose proof batch_size_bound as Hb. intros Hr. split.
  - intros k. unfold sample_indices. split.
    + apply NoDup_fmap_2_strong; [|apply NoDup_seq]. intros x y Hx Hy Exy. apply elem_of_seq in Hx, Hy.
      set (o := offset_after k offset mod len) in *. pose proof (Z.mod_pos_bound (offset_after k offset) len Hlen). fold o in H.
      assert ((Z.of_nat x - Z.of_nat y) mod len = 0) as Hd.
      { replace (Z.of_nat x - Z.of_nat y) with ((o + Z.of_nat x) - (o + Z.of_nat y)) by lia. by rewrite Zminus_mod, Exy, Z.sub_diag. }
      apply Z.mod_divide in Hd as [q Hq]; [|lia]. assert (- len < q * len < len) as Hq' by lia. assert (q = 0) as -> by (clear -Hq' Hlen; nia). lia.
    + apply Forall_forall. intros i (j & -> & _)%list_elem_of_fmap. apply Z.mod_pos_bound. lia.
  - intros i Hi. set (d := (i - offset) mod len). pose proof (Z.mod_pos_bound (i - offset) len Hlen) as Hd. fold d in Hd.
    set (b := batch_size c len) in *. pose proof (Z.div_mod d b ltac:(lia)). pose proof (Z.mod_pos_bound d b ltac:(lia)).
    assert (0 <= d / b) by (apply Z.div_pos; lia). exists (Z.to_nat (d / b)). split; [nia|].
    unfold sample_indices. fold b. apply list_elem_of_fmap. exists (Z.to_nat (d mod b)). split.
    + rewrite offset_after_mod, !Z2Nat.id, Zplus_mod_idemp_l by lia. fold b.
      replace (offset + d / b * b + d mod b) with (offset + d) by lia. unfold d. rewrite Zplus_mod_idemp_r.
      replace (offset + (i - offset)) with i by lia. symmetry. by apply Z.mod_small.
    + apply elem_of_seq. lia.
Qed.
End sampling.

(** ** Properties: rounds *)
Section rounds.
Context `{Multiformats} {P St : Type} `{Peerstore P, AnchorStore St, MetaStore St, PeerText, Proto AnchorRegistryProto, !AnchorStoreLaws St}.
Context (evictable : option (EvictableStore St)) (c : config).
Implicit Type n : node P St.

(** the part of a registry a check may be given: it is cut off when the context is cancelled *)
Definition snapshot (m : gmap bytes AddrInfo) (l : list AddrInfo) : Prop :=
  exists rest, l ++ rest ≡ₚ map snd (map_to_list m).
Lemma snapshot_ids m l : reg_ids m -> snapshot m l -> NoDup (map ai_ID l) /\ forall id, id ∈ map ai_ID l -> is_Some (m !! id).
Proof.
  intros Hm [rest Hp]. destruct (candidates_ids m _ Hm Hp) as [Hnd Hin]. rewrite map_app in Hnd, Hin.
  split; [by apply NoDup_app in Hnd as (? & _)|]. intros id Hid. apply Hin, elem_of_app. by left.
Qed.
Lemma checkAnchorHealth_ok self probe l n : snapshot (anchors (nd_engine n)) l -> eng_ok (nd_engine n) ->
  eng_ok (nd_engine (checkAnchorHealth self probe l n)).
Proof.
  intros Hl (H6 & H7 & H8 & H9 & H10). unfold checkAnchorHealth.
  assert (reg_ids (anchors (nd_engine n))) as Hm by (intros ? ? ?; by apply H7).
  destruct (snapshot_ids _ _ Hm Hl) as [Hnd Hreg].
  destruct (health_loop_beside self probe l 0 n) as [(Es & Eb & Eq & Eo & _) _].
  pose proof (λ id, health_loop_view self probe l 0 n id Hnd) as Hv.
  set (n' := health_loop self probe l 0 n) in *.
  assert (forall id, view id (nd_engine n') = view id (nd_engine n) \/
    is_Some (anchors (nd_engine n) !! id) /\
    view id (nd_engine n') = view_one (probe id) (bool_decide (id ∈ sticky (nd_engine n))) (view id (nd_engine n))) as Hv'.
  { intros id. rewrite Hv. destruct (decide _) as [Hd|]; [right|by left]. split; [|done]. apply Hreg.
    apply elem_of_take in Hd as (i & Hi & _). by apply list_elem_of_lookup_2, list_elem_of_filter in Hi as [_ ?]. }
  clearbody n'. clear Hv. unfold eng_ok. rewrite Eb, Eq, Eo, Es. split_and!; [done| | |done|done].
  - intros id ai Hai. destruct (Hv' id) as [E|[_ E]]; unfold view in E; [apply H7; congruence|].
    unfold view_one in E. cbn [fst snd] in E. destruct (probe id); [apply H7; congruence|].
    destruct (bool_decide _); [apply H7; congruence|]. destruct (_ <=? _); [congruence|apply H7; congruence].
  - intros id k Hk. destruct (Hv' id) as [E|[Hsome E]]; unfold view in E.
    { injection E as -> E. apply H8. congruence. }
    unfold view_one in E. cbn [fst snd] in E. destruct (probe id); [congruence|].
    case_bool_decide as Hst; [injection E as -> E; apply H8; congruence|].
    destruct (Z.leb_spec anchorFailThreshold (default 0 (healthFails (nd_engine n) !! id) + 1)); [congruence|].
    injection E as -> E. rewrite Hk in E. injection E as ->. split_and!; [|done..].
    destruct (healthFails (nd_engine n) !! id) as [k0|] eqn:E0; [|done]. apply H8 in E0 as [? _]. cbn in *. lia.
Qed.
Lemma AddAnchor_ok ai n : eng_ok (nd_engine n) -> eng_ok (nd_engine (AddAnchor ai n)).
Proof.
  intros (H6 & H7 & H8 & H9 & H10). unfold AddAnchor. case_bool_decide; [done|]. split_and!; [done| | |done|done]; cbn.
  - intros id ai' Hai. destruct (decide (id = ai_ID ai)) as [->|Hne].
    + rewrite lookup_insert_eq in Hai. injection Hai as <-. done.
    + rewrite lookup_insert_ne in Hai by done. by apply H7.
  - intros id k Hk. destruct (H8 id k Hk) as (? & ? & ?). split_and!; [lia|lia| |done].
    destruct (decide (id = ai_ID ai)) as [->|Hne]; [by rewrite lookup_insert_eq|by rewrite lookup_insert_ne].
Qed.
Lemma RemoveAnchor_ok id n : eng_ok (nd_engine n) -> eng_ok (nd_engine (RemoveAnchor id n)).
Proof.
  intros (H6 & H7 & H8 & H9 & H10). destruct (RemoveAnchor_beside id n) as [(Es & Eb & Eq & Eo & _) _].
  pose proof (λ id', RemoveAnchor_view id id' n) as Hv. generalize dependent (RemoveAnchor id n). intros n' Es Eb Eq Eo Hv. unfold eng_ok. rewrite Eb, Eq, Eo, Es. split_and!; [done| | |done|done].
  - intros id' ai Hai. specialize (Hv id'). unfold view in Hv. destruct (decide _); [congruence|]. apply H7. congruence.
  - intros id' k Hk. specialize (Hv id'). unfold view in Hv. destruct (decide _); [congruence|]. injection Hv as -> Hv. apply H8. congruence.
Qed.
Lemma eng_ok_calm e e' : calm e e' -> eng_ok e -> eng_ok e'.
Proof. unfold eng_ok. intros (-> & -> & -> & -> & -> & -> & _). done. Qed.
Lemma enqueueFrom_ok now m source e : eng_ok e -> eng_ok (enqueueFrom now m source e).2.
Proof.
  intros (H6 & H7 & H8 & H9 & H10). pose proof (enqueueFrom_bounded now m source e H6) as Hb.
  destruct (enqueueFrom_spec now m source e H6) as [_ E]. rewrite E in *. by destruct (_ && _).
Qed.
Lemma persistRegistry_engine order n : exists d, nd_engine (persistRegistry order n) = set_registry (anchors (nd_engine n)) d (nd_engine n) /\
  sealed_in (persistRegistry order n) = sealed_in n.
Proof.
  unfold persistRegistry. destruct (negb (dirty (nd_engine n))).
  - exists (dirty (nd_engine n)). split; [by destruct (nd_engine n)|done].
  - exists false. destruct (marshal _); [|done]. split; [done|]. apply meta_keeps.
Qed.
Definition round_ok (r : round) n : Prop := polite (r_net r) /\ snapshot (anchors (nd_engine n)) (r_candidates r).
Lemma tick_begin_spec r n : round_ok r n -> eng_ok (nd_engine n) -> let n' := tick_begin c r n in
  eng_ok (nd_engine n') /\ sealed_in n' = sealed_in n /\ backlog (nd_engine n') = backlog (nd_engine n) /\
  attempts (nd_engine n') ⊆ attempts (nd_engine n).
Proof.
  intros [_ Hs] Hok n'. unfold n', tick_begin. set (n1 := on_engine (λ e, set_round (roundNum e + 1) e) (on_engine (purgeStaleAttempts (r_now r)) n)).
  assert (eng_ok (nd_engine n1)) as Hok1 by exact Hok.
  set (n2 := if (0 <? health_every c) && _ then _ else n1).
  assert (eng_ok (nd_engine n2) /\ sealed_in n2 = sealed_in n /\ backlog (nd_engine n2) = backlog (nd_engine n) /\
    attempts (nd_engine n2) ⊆ attempts (nd_engine n)) as (Hok2 & E1 & E2 & E3).
  { assert (attempts (nd_engine n1) ⊆ attempts (nd_engine n)) by apply map_filter_subseteq.
    unfold n2. destruct (_ && _); [|by split_and!]. destruct (health_loop_beside (cfg_self c) (r_probe r) (r_candidates r) 0 n1) as [(_ & E1 & _ & _ & E2 & _) E3].
    split; [by apply checkAnchorHealth_ok|]. unfold sealed_in, checkAnchorHealth. rewrite E3, E1, E2. done. }
  clearbody n2. destruct (persistRegistry_engine (r_order r) n2) as (d & Ed & Es). rewrite Ed, Es. split_and!; [|done..].
  revert Hok2. by unfold eng_ok.
Qed.
(** the queueing of a round's announcements *)
Definition queue_all (clock : nat -> Z) (anns : list (nat * ContentAnnouncement)) (e : AnchorEngine) : AnchorEngine :=
  foldl (λ e x, (enqueueFrom (clock x.1) (an_MID x.2) (an_Source x.2) e).2) e anns.
Lemma queue_all_ok clock anns e : eng_ok e -> eng_ok (queue_all clock anns e).
Proof. revert e. induction anns as [|x anns IH]; intros e He; [done|]. cbn [queue_all foldl]. by apply IH, enqueueFrom_ok. Qed.
Lemma queue_one clock a e x : zlen (backlog e) < MaxEnqueueBacklog -> x ∈ backlog e ->
  let e' := (enqueueFrom clock (an_MID a) (an_Source a) e).2 in x ∈ backlog e' /\ zlen (backlog e') <= zlen (backlog e) + 1.
Proof.
  intros Hb Hx. destruct (enqueueFrom_spec clock (an_MID a) (an_Source a) e ltac:(lia)) as [_ ->]. cbv zeta. destruct (_ && _); [|lia || (split; [done|lia])].
  unfold zlen, MaxEnqueueBacklog in *. replace (_ - _)%nat with 0%nat by lia. cbn [backlog set_backlog]. rewrite drop_0. split.
  - apply elem_of_app. by left.
  - rewrite length_app. cbn [length]. lia.
Qed.
Lemma queue_all_keeps clock anns e x : x ∈ backlog e -> zlen (backlog e) + zlen anns <= MaxEnqueueBacklog -> x ∈ backlog (queue_all clock anns e).
Proof.
  revert e. induction anns as [|a anns IH]; intros e Hx Hb; [done|]. cbn [queue_all foldl].
  assert (zlen (a :: anns) = zlen anns + 1) as Ez by (unfold zlen; cbn [length]; lia). pose proof (zlen_nonneg anns).
  destruct (queue_one (clock a.1) a.2 e x ltac:(lia) Hx) as [Hx' Hb']. apply IH; [done|lia].
Qed.
Lemma queue_all_queues clock anns e i a : anns !! i = Some a -> zlen (backlog e) + zlen anns <= MaxEnqueueBacklog ->
  IsZero (an_MID a.2) = false ->
  (forall last, attempts e !! String (an_MID a.2) = Some last -> anchorAttemptBackoff <= clock a.1 - last) ->
  mkEnqueued (an_MID a.2) (an_Source a.2) ∈ backlog (queue_all clock anns e).
Proof.
  revert e i. induction anns as [|b anns IH]; intros e i Hi Hb Hz Hat; [done|]. cbn [queue_all foldl].
  assert (zlen (b :: anns) = zlen anns + 1) as Ez by (unfold zlen; cbn [length]; lia). pose proof (zlen_nonneg anns).
  destruct (enqueueFrom_spec (clock b.1) (an_MID b.2) (an_Source b.2) e ltac:(lia)) as [_ E].
  assert (attempts (enqueueFrom (clock b.1) (an_MID b.2) (an_Source b.2) e).2 = attempts e) as Ea by (rewrite E; by destruct (_ && _)).
  assert (zlen (backlog (enqueueFrom (clock b.1) (an_MID b.2) (an_Source b.2) e).2) <= zlen (backlog e) + 1) as Eb.
  { rewrite E. destruct (_ && _); [|lia]. cbn [backlog set_backlog]. unfold zlen. rewrite length_app, length_drop. cbn [length]. lia. }
  destruct i as [|i]; [|apply (IH _ i); [done|lia|done|by rewrite Ea]].
  injection Hi as ->. apply queue_all_keeps; [|lia]. rewrite E, Hz. cbn [negb andb].
  destruct (attempts e !! _) as [last|]; [rewrite (proj2 (Z.leb_le _ _)) by (by apply Hat)|]; cbn [backlog set_backlog]; apply elem_of_app; right; left.
Qed.
Lemma discoverFromPeers_cases r n : exists e, discoverFromPeers r n = on_engine (λ _, e) n /\
  ((exists anns, r_found r (known_MIDs (nd_store n)) = Ok anns /\ e = queue_all (r_enqueue r) (zip (seq 0 (length anns)) anns) (nd_engine n))
   \/ (forall anns, r_found r (known_MIDs (nd_store n)) ≠ Ok anns) /\ e = nd_engine n).
Proof.
  unfold discoverFromPeers. destruct (r_found r _) as [anns|err].
  - eexists. split; [reflexivity|]. left. by exists anns.
  - exists (nd_engine n). split; [by destruct n|by right].
Qed.
Lemma enforce_same n : eng_ok (nd_engine n) -> nd_engine (enforce evictable n) = nd_engine n /\ nd_store (enforce evictable n) = nd_store n.
Proof.
  intros (_ & _ & _ & Hp & _). unfold enforce. destruct evictable as [ev|]; [|done].
  destruct (only_pins_enforce (quotaMgr (nd_engine n)) (nd_store n) Hp) as [E1 E2].
  destruct (EnforceQuota _ _) as [[[k q]|err] s]; cbn [fst snd] in *; [|done]. destruct E2 as [_ ->]. split; [by destruct n as [[]]|done].
Qed.
(** a round after its discoveries *)
Lemma tick_rest r n : polite (r_net r) -> eng_ok (nd_engine n) ->
  let pending := backlog (nd_engine n) in
  let n1 := processBacklogConcurrently (r_net r) (r_fetch r) (r_pool r pending) (on_engine (set_backlog []) n) in
  let n' := match as_AllSealed (nd_store n1) with
    | Err _ => n1
    | Ok sealed => if bool_decide (sealed = []) then n1 else enforce evictable (resample c r sealed n1)
    end in
  eng_ok (nd_engine n') /\ sealed_in n ⊆ sealed_in n1 /\ sealed_in n1 ⊆ sealed_in n'.
Proof.
  intros Hnet Hok pending n1 n'. destruct (process_grows (r_net r) (r_fetch r) (r_pool r pending) (on_engine (set_backlog []) n) Hnet) as [H6 H7].
  fold n1 in H6, H7. assert (eng_ok (nd_engine n1)) as Hok1.
  { apply (eng_ok_calm _ _ H7). destruct Hok as (_ & ? & ? & ? & ?). split_and!; try done. }
  assert (eng_ok (nd_engine n') /\ sealed_in n1 ⊆ sealed_in n') as [? ?]; [|done]. unfold n'.
  destruct (as_AllSealed (nd_store n1)) as [sealed|err]; [|done]. case_bool_decide as Hs; [done|].
  unfold resample. set (n2 := on_engine (set_offset _) n1).
  set (n3 := processBacklogConcurrently _ _ _ n2). destruct (process_grows (r_net r) (r_sample r) (r_pool r (sample_pending c sealed (sampleOffset (nd_engine n1)) (nd_store n2))) n2 Hnet) as [H8 H9].
  fold n3 in H8, H9. assert (eng_ok (nd_engine n3)) as Hok3.
  { apply (eng_ok_calm _ _ H9). destruct Hok1 as (? & ? & ? & ? & ?). split_and!; try done. cbn. unfold sample_next. apply Z.mod_pos_bound.
    destruct sealed; [done|unfold zlen; cbn [length]; lia]. }
  destruct (enforce_same n3 Hok3) as [E1 E2]. rewrite E1. unfold sealed_in at 2. rewrite E2. done.
Qed.
Lemma tick_start_spec r n : round_ok r n -> eng_ok (nd_engine n) -> eng_ok (nd_engine (tick_start c r n)) /\ sealed_in (tick_start c r n) = sealed_in n.
Proof.
  intros Hr Hok. destruct (tick_begin_spec r n Hr Hok) as (Hok1 & Es & _). unfold tick_start.
  destruct (discoverFromPeers_cases r (tick_begin c r n)) as (e & -> & He). split; [|exact Es].
  change (eng_ok e). destruct He as [(anns & _ & ->)|[_ ->]]; [by apply queue_all_ok|done].
Qed.

(** what happens to an engine: calls from outside, and its rounds *)
Inductive engine_step : node P St -> node P St -> Prop :=
  | st_Enqueue now m n : engine_step n (on_engine (Enqueue now m) n)
  | st_AddAnchor ai n : engine_step n (AddAnchor ai n)
  | st_RemoveAnchor id n : engine_step n (RemoveAnchor id n)
  | st_Pin now m n : engine_step n (on_engine (engine_Pin now m) n)
  | st_tick r n : round_ok r n -> engine_step n (tick evictable c r n).

(** C30: whatever is called and however the rounds go: the backlog holds at most 1024, the registry
    is keyed by its peers, misses are counted for registered anchors that are no bootstrap
    anchors and stay below three, and nothing that was sealed is ever unsealed or evicted. *)
Theorem engine_invariant n n' : rtc engine_step n n' -> eng_ok (nd_engine n) ->
  eng_ok (nd_engine n') /\ sealed_in n ⊆ sealed_in n'.
Proof.
  induction 1 as [n|n1 n2 n3 Hstep _ IH]; [done|]. intros Hok.
  assert (eng_ok (nd_engine n2) /\ sealed_in n1 ⊆ sealed_in n2) as [Hok2 Hsub].
  { destruct Hstep as [now m n|ai n|id n|now m n|r n Hr].
    - split; [by apply enqueueFrom_ok|done].
    - split; [by apply AddAnchor_ok|]. unfold AddAnchor. by case_bool_decide.
    - split; [by apply RemoveAnchor_ok|]. unfold sealed_in. by destruct (RemoveAnchor_beside id n) as [_ ->].
    - split; [|done]. destruct Hok as (? & ? & ? & ? & ?). split_and!; try done. by apply Pin_only_pins.
    - destruct (tick_start_spec r n Hr Hok) as [Hok1 Es]. destruct (tick_rest r _ (proj1 Hr) Hok1) as (H6 & H7 & H8).
      split; [exact H6|]. rewrite <-Es. by etrans. }
  destruct (IH Hok2) as [? ?]. split; [done|by etrans].
Qed.

(** a round acquires whatever was queued, and whatever a peer announces and was not
    tried in the last ten minutes: if someone serves it, it is sealed when the round
    is over, in whatever order the workers take it, unless the backlog overflowed. *)
Lemma tick_acquires r n x anns : round_ok r n -> eng_ok (nd_engine n) -> (forall l, r_pool r l ≡ₚ l) ->
  r_found r (known_MIDs (nd_store (tick_begin c r n))) = Ok anns ->
  zlen (backlog (nd_engine n)) + zlen anns <= MaxEnqueueBacklog ->
  IsZero (eq_mid x) = false -> obtainable (r_net r) (eq_mid x) (eq_source x) ->
  (x ∈ backlog (nd_engine n) \/
   exists i, anns !! i = Some (mkAnnouncement (eq_mid x) (eq_source x)) /\
     forall last, attempts (nd_engine n) !! String (eq_mid x) = Some last -> anchorAttemptBackoff <= r_enqueue r i - last) ->
  String (eq_mid x) ∈ sealed_in (tick evictable c r n).
Proof.
  intros Hr Hok Hpool Hann Hb Hz Hob Hx. destruct (tick_begin_spec r n Hr Hok) as (Hok1 & _ & Eb & Ea).
  destruct (tick_start_spec r n Hr Hok) as [Hok2 _].
  assert (x ∈ backlog (nd_engine (tick_start c r n))) as Hin.
  { unfold tick_start. destruct (discoverFromPeers_cases r (tick_begin c r n)) as (e & -> & [(anns' & E & ->)|[Hno _]]); [|by destruct (Hno anns)].
    assert (anns' = anns) as -> by congruence.
    assert (zlen (zip (seq 0 (length anns)) anns) = zlen anns) as Ez by (unfold zlen; rewrite length_zip, length_seq; lia).
    cbn [nd_engine on_engine]. destruct Hx as [Hx|(i & Hi & Hat)].
    - apply queue_all_keeps; [by rewrite Eb|by rewrite Eb, Ez].
    - destruct x as [m src]. apply (queue_all_queues _ _ _ i (i, mkAnnouncement m src)); [|by rewrite Eb, Ez|done|].
      + apply lookup_zip_Some. split; [|done]. apply lookup_seq. split; [done|]. by eapply lookup_lt_Some.
      + intros last Hl. apply Hat. by eapply lookup_weaken. }
  destruct (tick_rest r _ (proj1 Hr) Hok2) as (_ & _ & H8). apply H8. apply (process_acquires _ _ _ _ x (proj1 Hr)); [by rewrite Hpool|done|done].
Qed.
End rounds.

(** ** Properties: the registry on disk *)
(** text forms read back, and are ASCII *)
Class PeerTextLaws `{PeerText} := {
  peer_ok : bytes -> Prop;
  ma_ok : bytes -> Prop;
  peer_back id : peer_ok id -> peer_Decode (peer_String id) = Ok id;
  ma_back a : ma_ok a -> NewMultiaddr (ma_String a) = Ok a;
  peer_ascii id : peer_ok id -> Forall is_ascii (peer_String id);
  ma_ascii a : ma_ok a -> Forall is_ascii (ma_String a);
}.
Section registry_facts.
Context {P St : Type} `{Peerstore P, MetaStore St, PeerText, !PeerTextLaws, Proto AnchorRegistryProto, !ProtoLaws AnchorRegistryProto}.
Context {inv : St -> Prop} `{!MetaStoreLaws St inv}.
(** proto3: a message without content has no bytes *)
Context (empty_registry : marshal (mkRegistry []) = Ok []).
Implicit Type n : node P St.
Definition info_ok (ai : AddrInfo) : Prop := peer_ok (ai_ID ai) /\ ai_ID ai ≠ [] /\ Forall ma_ok (ai_Addrs ai).
Lemma good_addrs_back l : Forall ma_ok l -> good_addrs (map ma_String l) = l.
Proof. unfold good_addrs. induction 1 as [|a l Ha _ IH]; [done|]. cbn [map]. rewrite ma_back by done. rewrite <-IH at 2. done. Qed.
Lemma registry_ascii order : Forall info_ok order -> Forall (Forall is_ascii) (texts (mkRegistry (map addr_pb order))).
Proof.
  intros Hall. unfold texts, AnchorRegistry_texts. cbn [ar_Anchors]. apply Forall_concat, Forall_map, Forall_map.
  eapply Forall_impl; [exact Hall|]. intros ai (Hid & _ & Ha). cbn. constructor; [by apply peer_ascii|].
  apply Forall_map. eapply Forall_impl; [exact Ha|]. apply ma_ascii.
Qed.
Lemma load_all order n : Forall info_ok order ->
  anchors (nd_engine (foldl load_one n (map addr_pb order))) = foldl (λ m ai, <[ai_ID ai := ai]> m) (anchors (nd_engine n)) order.
Proof.
  intros Hall. revert n. induction Hall as [|ai order (Hid & Hne & Ha) _ IH]; intros n; [done|]. cbn [map foldl]. rewrite IH. f_equal.
  unfold load_one. cbn [pa_Id pa_Addrs addr_pb]. rewrite peer_back, bool_decide_false, good_addrs_back by done. by destruct ai.
Qed.
Lemma fold_registry m order : reg_ids m -> order ≡ₚ map snd (map_to_list m) ->
  foldl (λ m ai, <[ai_ID ai := ai]> m) ∅ order = m.
Proof.
  intros Hm Hp. destruct (candidates_ids m order Hm Hp) as [Hnd _].
  assert (foldl (λ m ai, <[ai_ID ai := ai]> m) ∅ order = list_to_map (map (λ ai, (ai_ID ai, ai)) order)) as ->.
  { assert (forall l (m0 : gmap bytes AddrInfo), NoDup (map ai_ID l) ->
      foldl (λ m ai, <[ai_ID ai := ai]> m) m0 l = (list_to_map (map (λ ai, (ai_ID ai, ai)) l) : gmap bytes AddrInfo) ∪ m0) as Hg.
    { clear. induction l as [|ai l IH]; intros m0; cbn [map foldl]; [by rewrite list_to_map_nil, map_empty_union|].
      intros [Hn Hnd]%NoDup_cons. rewrite IH, list_to_map_cons by done. rewrite <-insert_union_l, insert_union_r; [done|].
      apply not_elem_of_list_to_map. by rewrite map_map. }
    by rewrite Hg, map_union_empty. }
  rewrite <-(list_to_map_to_list m). apply list_to_map_proper; [by rewrite map_map|].
  rewrite Hp, map_map. apply Permutation_refl'. assert (forall l, (forall x, x ∈ l -> m !! x.1 = Some x.2) ->
    map (λ x : bytes * AddrInfo, (ai_ID x.2, x.2)) l = l) as Hl.
  { induction l as [|[k ai] l IH]; intros Hl; [done|]. cbn [map fst snd]. rewrite IH by (intros; apply Hl; by right).
    by rewrite (Hm k ai (Hl (k, ai) ltac:(left))). }
  apply Hl. intros [k ai] Hx. by apply elem_of_map_to_list in Hx.
Qed.

(** what a changed registry was when a round wrote it is what a restarted engine loads,
    whatever the order in which the map was walked; and its bootstrap peers are registered and
    sticky besides. *)
Theorem registry_restored order n s' mb peers bootstrap :
  eng_ok (nd_engine n) -> dirty (nd_engine n) = true -> order ≡ₚ map snd (map_to_list (anchors (nd_engine n))) -> Forall info_ok order ->
  inv (nd_store n) -> (forall v, exists s', st_PutMeta AnchorRegistryKey v (nd_store n) = (Ok tt, s')) ->
  s' = nd_store (persistRegistry order n) ->
  let e' := nd_engine (Start bootstrap (mkNode (newEngine mb) s' peers)) in
  (forall id, id ∉ map ai_ID bootstrap -> anchors e' !! id = anchors (nd_engine n) !! id) /\
  (forall id, id ≠ [] -> id ∈ map ai_ID bootstrap -> is_Some (anchors e' !! id) /\ id ∈ sticky e').
Proof.
  intros (_ & Hreg & _) Hd Hp Hall Hinv Hput -> e'.
  assert (reg_ids (anchors (nd_engine n))) as Hm by (intros ? ? ?; by apply Hreg).
  destruct (marshal_ok _ (registry_ascii _ Hall)) as (raw & Em & Eu). destruct (Hput raw) as [s' Es].
  destruct (meta_put _ _ _ _ Hinv Es) as (_ & Eg & _).
  assert (anchors (nd_engine (loadRegistry (mkNode (newEngine mb) (nd_store (persistRegistry order n)) peers))) = anchors (nd_engine n)) as El.
  { unfold persistRegistry. rewrite Hd. cbn [negb]. rewrite Em. unfold loadRegistry. cbn [nd_store with_store on_engine]. rewrite Es. cbn [snd].
    rewrite Eg, Eu. case_bool_decide as Hr.
    - subst raw. pose proof (marshal_inj _ _ _ Em empty_registry) as E. injection E as E. apply map_eq_nil in E. subst order.
      symmetry. apply map_to_list_empty_iff. symmetry in Hp. apply Permutation_nil_r in Hp. by apply map_eq_nil in Hp.
    - cbn [ar_Anchors]. case_bool_decide as He; [|rewrite load_all by done; by apply fold_registry].
      destruct order; [|done]. cbn in Em. congruence. }
  unfold e', Start. generalize dependent (loadRegistry (mkNode (newEngine mb) (nd_store (persistRegistry order n)) peers)). intros n1 El.
  match goal with |- context [foldl start_one ?x _] => assert (anchors (nd_engine x) = anchors (nd_engine n)) as El2 end.
  { rewrite <-El. destruct (st_GetMeta anchor_synced (nd_store n1)) as [v|]; [|done]. by destruct (zlen v =? 8). }
  revert El2. match goal with |- context [foldl start_one ?x _] => generalize x end.
  intros n2 <-. clear. split.
  - intros id. revert n2. induction bootstrap as [|ai l IH]; intros n2 Hid; [done|]. cbn [foldl]. cbn [map] in Hid.
    rewrite IH by set_solver. unfold start_one, AddAnchor. case_bool_decide; [done|]. cbn. rewrite lookup_insert_ne by set_solver. done.
  - intros id Hne Hid. assert (is_Some (anchors (nd_engine n2) !! id) /\ id ∈ sticky (nd_engine n2) \/ id ∈ map ai_ID bootstrap) as Hx by by right.
    clear Hid. revert n2 Hx. induction bootstrap as [|ai l IH]; intros n2 Hx; cbn [foldl map] in *; [set_solver|]. apply IH.
    unfold start_one, AddAnchor. destruct Hx as [[[x Hx] Hst]|[->|Hx]%elem_of_cons]; [left|left|by right].
    + case_bool_decide; cbn; (split; [|set_solver]); [by exists x|]. destruct (decide (id = ai_ID ai)) as [->|];
        [rewrite lookup_insert_eq; by eexists|rewrite lookup_insert_ne by done; by exists x].
    + rewrite bool_decide_false by done. cbn. rewrite lookup_insert_eq. split; [by eexists|set_solver].
Qed.
End registry_facts.

(** ** The in-memory store as an anchor's store *)
#[export] Instance mem_meta : MetaStore Memstore := {| st_PutMeta := mem_PutMeta; st_GetMeta := mem_GetMeta |}.
#[export] Instance mem_meta_laws : MetaStoreLaws Memstore (λ _, True).
Proof.
  split. intros k v s s' _ E. cbn in E. unfold mem_PutMeta in E. injection E as <-. unfold st_GetMeta, mem_meta, mem_GetMeta, set_meta. cbn [meta].
  split; [done|]. split; [by rewrite lookup_insert_eq|]. intros k' Hk. by rewrite lookup_insert_ne.
Qed.
Section mem_anchor.
Context `{Multiformats, Protos} (alg : Z).
(** [Seal] walks only when it is recursive, which the engine never asks for *)
#[local] Instance mem_anchor : AnchorStore Memstore := {|
  as_Has := mem_Has; as_Seal := mem_Seal 0; as_AllSealed s := Ok (mem_AllSealed s) |}.
Definition mem_evictable : EvictableStore Memstore := {| es_Delete := mem_Delete; es_Size := mem_Size |}.
Definition mem_sealed (s : Memstore) : gset bytes := dom (filter (λ kv, kv.2 = false) (seals s)).
#[local] Program Instance mem_anchor_laws : AnchorStoreLaws Memstore := {| sealed_keys := mem_sealed |}.
Next Obligation.
  intros m s. eexists. split; [reflexivity|]. unfold mem_sealed, set_seals. cbn [seals].
  by rewrite map_filter_insert_True, dom_insert_L.
Qed.
Next Obligation. done. Qed.
End mem_anchor.

(** ** Witnesses *)
#[local] Instance toy_peers : Peerstore (gmap bytes (list bytes)) := {|
  ps_AddAddrs id l p := <[id := default [] (p !! id) ++ l]> p;
  ps_ClearAddrs id p := delete id p;
  ps_Addrs id p := default [] (p !! id);
|}.
#[local] Instance toy_text : PeerText := {|
  peer_Decode := Ok; peer_String s := s; NewMultiaddr := Ok; ma_String s := s; legacy_registry _ := None |}.
#[local] Program Instance toy_text_laws : PeerTextLaws := {| peer_ok := Forall is_ascii; ma_ok := Forall is_ascii |}.
Solve Obligations with done.
#[local] Instance PeerAddrInfoProto_eq_dec : EqDecision PeerAddrInfoProto.
Proof. solve_decision. Defined.
#[local] Instance PeerAddrInfoProto_countable : Countable PeerAddrInfoProto.
Proof. refine (inj_countable' (λ n, (pa_Id n, pa_Addrs n)) (λ '(a, b), mkPeerAddrInfo a b) _). by intros []. Defined.
#[local] Instance toy_registry : Proto AnchorRegistryProto := {|
  marshal r := if bool_decide (ar_Anchors r = []) then Ok [] else Ok (Byte.x00 :: ToyWire.pos_bytes (encode (ar_Anchors r)));
  unmarshal bs := match bs with
    | [] => Ok (mkRegistry [])
    | _ :: bs => match ToyWire.bytes_pos bs ≫= decode with Some l => Ok (mkRegistry l) | None => Err (New "proto") end
    end |}.
#[local] Instance toy_registry_laws : ProtoLaws AnchorRegistryProto.
Proof.
  split.
  - intros [l] raw. cbn [marshal unmarshal toy_registry ar_Anchors]. case_bool_decide as Hm; intros [= <-]; [by subst|].
    rewrite ToyWire.bytes_pos_bytes. cbn [mbind option_bind]. by rewrite decode_encode.
  - intros a _. cbn. by case_bool_decide.
Qed.
#[local] Existing Instances mem_anchor mem_anchor_laws.

Definition demo_peer (s : string) : AddrInfo := mkAddrInfo (lit s) [lit "/ip4/1.2.3.4"].
Definition demo_node : node (gmap bytes (list bytes)) Memstore :=
  AddAnchor (demo_peer "a") (AddAnchor (demo_peer "b") (mkNode (newEngine 0) NewMemstore ∅)).
Lemma demo_node_ok : eng_ok (nd_engine demo_node).
Proof. apply AddAnchor_ok, AddAnchor_ok, eng_ok_new. Qed.
Definition demo_walk (m : gmap bytes AddrInfo) : list AddrInfo := map snd (map_to_list m).
Definition demo_content : MID := toy_mid CodecRaw (lit "abc").
(** one peer, "b", serves the content *)
Definition demo_network : network Memstore := mkNetwork (λ _, Ok [demo_peer "b"])
  (λ m _ s, (Ok tt, set_blocks (<[String m := lit "abc"]> (blocks s)) (sizeVal s + 3) s)).
Lemma demo_polite : polite demo_network.
Proof. by intros m provs s. Qed.
Definition demo_round : round := mkRound demo_network 0 (demo_walk (anchors (nd_engine demo_node))) (λ _, true) []
  (λ _, Ok [mkAnnouncement demo_content (lit "a")]) (λ _, 100) reverse (λ _, 200) (λ _, 300).
Definition demo_config : config := mkConfig 5 0 (lit "me").
Lemma demo_round_ok : round_ok demo_round demo_node.
Proof. split; [exact demo_polite|]. exists []. by rewrite app_nil_r. Qed.

Lemma enqueue_backoff_witness :
  let e := recordAttempt 1000 demo_content (newEngine 0) in
  (enqueueFrom (1000 + 9 * minute) demo_content (lit "a") e).1 = false /\
  (enqueueFrom (1000 + 11 * minute) demo_content (lit "a") (purgeStaleAttempts (1000 + 11 * minute) e)).1 = true.
Proof.
  intros e. pose proof (enqueue_backoff (1000 + 11 * minute) (1000 + 11 * minute) demo_content (lit "a") e ltac:(vm_compute; discriminate) ltac:(lia)) as Hs.
  destruct (enqueueFrom (1000 + 11 * minute) demo_content (lit "a") e) as [queued e'] eqn:E. destruct Hs as (Hq & _ & _ & _ & Hp).
  split; [vm_compute; reflexivity|]. rewrite Hp, Hq. vm_compute. reflexivity.
Defined.
Lemma health_prunes_witness :
  anchors (nd_engine (check_rounds (lit "me") (replicate 3 (λ id, bool_decide (id = lit "b"), demo_walk)) demo_node)) !! lit "a" = None.
Proof.
  refine (proj2 (proj1 (health_prunes (lit "me") (replicate 3 (λ id, bool_decide (id = lit "b"), demo_walk)) demo_node (lit "a") demo_node_ok _ _ _ _ _)) _).
  - apply Forall_replicate. by intros m.
  - vm_compute. lia.
  - discriminate.
  - eexists. vm_compute. reflexivity.
  - vm_compute. reflexivity.
  - split; [apply (bool_decide_unpack _); vm_compute; exact I|]. exists [], []. vm_compute. reflexivity.
Defined.
(** 50 sealed roots, 32 a round: the second round reaches the last one *)
Lemma samples_cover_witness : exists k, (k < 2)%nat /\ 49 ∈ sample_indices demo_config 50 (offset_after demo_config 50 k 0).
Proof. apply (samples_cover demo_config 50 ltac:(lia) 0 2); [vm_compute; discriminate|lia]. Defined.
Lemma demo_obtainable m source : obtainable demo_network m source.
Proof. split; [|intros; by eexists]. exists [demo_peer "b"]. split; [done|by left]. Qed.
Lemma tick_acquires_witness : String demo_content ∈ sealed_in (tick (Some mem_evictable) demo_config demo_round demo_node).
Proof.
  refine (tick_acquires (Some mem_evictable) demo_config demo_round demo_node (mkEnqueued demo_content (lit "a")) [mkAnnouncement demo_content (lit "a")]
    demo_round_ok demo_node_ok _ eq_refl _ _ (demo_obtainable _ _) _).
  - intros l. apply reverse_Permutation.
  - vm_compute. discriminate.
  - vm_compute. reflexivity.
  - right. exists 0%nat. split; [reflexivity|]. intros last. vm_compute. discriminate.
Defined.
Lemma engine_invariant_witness : eng_ok (nd_engine (tick (Some mem_evictable) demo_config demo_round (on_engine (Enqueue 5 demo_content) demo_node))).
Proof.
  refine (proj1 (engine_invariant (Some mem_evictable) demo_config demo_node _ _ demo_node_ok)).
  eapply rtc_l; [apply (st_Enqueue _ _ 5 demo_content)|]. eapply rtc_once. apply st_tick.
  split; [exact demo_polite|]. exists []. by rewrite app_nil_r.
Defined.
Lemma toy_empty_registry : marshal (mkRegistry []) = Ok [].
Proof. reflexivity. Qed.
Lemma registry_restored_witness :
  let s' := nd_store (persistRegistry (demo_walk (anchors (nd_engine demo_node))) demo_node) in
  let e' := nd_engine (Start [demo_peer "z"] (mkNode (newEngine 0) s' (∅ : gmap bytes (list bytes)))) in
  anchors e' !! lit "a" = Some (demo_peer "a") /\ lit "z" ∈ sticky e'.
Proof.
  intros s' e'. destruct (registry_restored (inv := λ _, True) toy_empty_registry (demo_walk (anchors (nd_engine demo_node))) demo_node s' 0
    (∅ : gmap bytes (list bytes)) [demo_peer "z"] demo_node_ok) as [H1 H2].
  - vm_compute. reflexivity.
  - reflexivity.
  - apply Forall_forall. intros ai Hai. assert (ai = demo_peer "a" \/ ai = demo_peer "b") as Hx.
    { apply list_elem_of_In in Hai. vm_compute in Hai. destruct Hai as [<-|[<-|[]]]; solve [left; reflexivity|right; reflexivity]. }
    destruct Hx as [-> | ->]; (split_and!; [repeat constructor; vm_compute; reflexivity|discriminate|repeat constructor; vm_compute; reflexivity]).
  - exact I.
  - intros v. eexists. reflexivity.
  - reflexivity.
  - split; [rewrite H1|apply H2]; [vm_compute; reflexivity|apply (bool_decide_unpack _); vm_compute; exact I|discriminate|left].
Defined.
