(* ===== verification/Exchange.v ===== *)
(** * The content exchange between nodes (src/anchor/publish.go, cache.go)

    A node opens a stream to a peer, may send a Bloom filter of what it has, and gets the
    list of the peer's sealed MIDs; the peer's list comes from a cache.
    [cache_serves]: what the cache answers, and for how long; [exchange_delta]: what one
    stream delivers; [discover_new]: what a round of discovery reports. *)
From S2P Require Import Prelude Mid Wire Blockstore Lru Delta Anchor.

(** ** [SealedCache]: [lastFetch] is zero until the first fetch *)
Definition sealed_ttl : Z := 30 * 1000000000.
Record SealedCache := mkSealedCache { sc_mids : list MID; sc_set : gset bytes; sc_ttl : Z; sc_lastFetch : option Z }.
Definition NewSealedCache (ttl : Z) : SealedCache := mkSealedCache [] ∅ (if ttl <=? 0 then sealed_ttl else ttl) None.
Section cache.
Context `{Multiformats}.
Definition sc_fresh (now : Z) (c : SealedCache) : bool :=
  match sc_lastFetch c with Some t => now - t <? sc_ttl c | None => false end.
(** [now] is when it is asked, [now'] when the store has answered *)
Definition GetSealed (now now' : Z) (fetcher : result (list MID)) (c : SealedCache) : result (list MID) * SealedCache :=
  if sc_fresh now c then (Ok (sc_mids c), c) else
  match fetcher with
  | Err e => (Err e, c)
  | Ok mids => (Ok mids, mkSealedCache mids (list_to_set (map String mids)) (sc_ttl c) (Some now'))
  end.
Definition sc_Add (m : MID) (c : SealedCache) : SealedCache :=
  if bool_decide (String m ∈ sc_set c) then c else
  mkSealedCache (sc_mids c ++ [m]) ({[String m]} ∪ sc_set c) (sc_ttl c) (sc_lastFetch c).
End cache.

(** ** Messages *)
Record ContentExchangeRequest := mkRequest { rq_FullSync : bool; rq_BloomFilter : bytes; rq_BloomHashes : Z }.
Record ContentExchangePayload := mkPayload { pl_Mids : list bytes }.
#[export] Instance ContentExchangeRequest_texts : HasTexts ContentExchangeRequest := λ _, [].
#[export] Instance ContentExchangePayload_texts : HasTexts ContentExchangePayload := pl_Mids.
Definition maxSeedListBytes : Z := 64 * 2 ^ 20.
Definition maxRequest : Z := 10 * 2 ^ 20.

Section exchange.
Context `{Multiformats, Proto ContentExchangeRequest, Proto ContentExchangePayload}.
(** json.Unmarshal into a list of strings, for nodes that still answer so *)
Context (legacy_list : bytes -> option (list bytes)).

(** [handleStream]: [arrived] is what came in before the deadline of 200 ms *)
Definition read_request (arrived : bytes) : option ContentExchangeRequest :=
  if zlen arrived <? 4 then None else
  let reqLen := be_combine (take 4 arrived) in
  let rest := drop 4 arrived in
  if (0 <? reqLen) && (reqLen <? maxRequest) then
    if zlen rest <? reqLen then None else
    match unmarshal (take (Z.to_nat reqLen) rest) with Ok req => Some req | Err _ => None end
  else None.
Definition wanted (arrived : bytes) (mids : list MID) : list MID :=
  match read_request arrived with
  | Some req => if 0 <? zlen (rq_BloomFilter req) then FilterDelta mids (rq_BloomFilter req) (rq_BloomHashes req) else mids
  | None => mids
  end.
(** an error resets the stream *)
Definition handleStream (sealed : result (list MID)) (arrived : bytes) : result bytes :=
  mids ← sealed; marshal (mkPayload (map String (wanted arrived mids))).

(** [fetchPeerSealed]: what it writes, and what it makes of the reply *)
Definition sent_request (knownMIDs : list MID) : bytes :=
  if bool_decide (knownMIDs = []) then [] else
  let '(bloomBytes, hashes) := BuildInventoryBloom knownMIDs in
  match marshal (mkRequest false bloomBytes hashes) with
  | Ok reqData => be_split 4 (u32 (zlen reqData)) ++ reqData
  | Err _ => []
  end.
Definition read_reply (reply : bytes) : result (list MID) :=
  let raw := take (Z.to_nat maxSeedListBytes) reply in
  let fallback (err : option error) := match legacy_list raw with
    | Some strs => Ok strs
    | None => match err with Some e => Err e | None => Ok [] end
    end in
  strs ← match unmarshal raw with
    | Ok payload => if 0 <? zlen (pl_Mids payload) then Ok (pl_Mids payload) else fallback None
    | Err e => fallback (Some e)
    end;
  Ok (rights (map Parse strs)).
(** the results of the peers, in the order in which they come in *)
Definition DiscoverContent (known : gset bytes) (results : list (bytes * result (list MID))) : list ContentAnnouncement :=
  concat (map (λ r, match r.2 with
    | Err _ => []
    | Ok mids => map (λ m, mkAnnouncement m r.1) (filter (λ m, String m ∉ known) mids)
    end) results).
Definition known_list (known : list bytes) : list MID := rights (map Parse known).
(** [publishToDHT], up to where the context ends it *)
Definition publishToDHT {W} (provide : MID -> M W unit) (mids : list MID) : W -> W := λ w,
  foldl (λ w m, (provide m w).2) w mids.
End exchange.

(** ** Properties: the cache *)
Section cache_facts.
Context `{Multiformats}.
Definition wf_cache (c : SealedCache) : Prop := sc_set c = list_to_set (map String (sc_mids c)).
Lemma Add_all ms c : wf_cache c -> let c' := foldl (λ c m, sc_Add m c) c ms in
  wf_cache c' /\ sc_ttl c' = sc_ttl c /\ sc_lastFetch c' = sc_lastFetch c /\
  exists news, sc_mids c' = sc_mids c ++ news /\ news `sublist_of` ms /\ NoDup (map String news) /\
    Forall (λ m, String m ∉ map String (sc_mids c)) news /\ Forall (λ m, String m ∈ map String (sc_mids c')) ms.
Proof.
  revert c. induction ms as [|m ms IH]; intros c Hc; cbn [foldl].
  { split_and!; [done..|]. exists []. rewrite app_nil_r. split_and!; [done|constructor|apply NoDup_nil_2|constructor|constructor]. }
  destruct (decide (String m ∈ sc_set c)) as [Hin|Hin].
  - assert (sc_Add m c = c) as -> by (unfold sc_Add; case_bool_decide as Hx; [done|by destruct Hx]). destruct (IH c Hc) as (H1 & H2 & H3 & news & H4 & H5 & H6 & H7 & H8). split_and!; [done..|]. exists news. split_and!; [done|by apply sublist_cons|done|done|].
    constructor; [|done]. rewrite H4, map_app. apply elem_of_app. left. rewrite Hc in Hin. by apply elem_of_list_to_set in Hin.
  - set (c1 := mkSealedCache (sc_mids c ++ [m]) ({[String m]} ∪ sc_set c) (sc_ttl c) (sc_lastFetch c)).
    assert (sc_Add m c = c1) as -> by (unfold sc_Add; case_bool_decide as Hx; [by destruct Hin|done]). destruct (IH c1) as (H1 & H2 & H3 & news & H4 & H5 & H6 & H7 & H8).
    { unfold wf_cache, c1. cbn [sc_set sc_mids]. rewrite Hc, map_app, list_to_set_app_L. cbn. set_solver. }
    split_and!; [done..|]. exists (m :: news). cbn [sc_mids c1] in *. rewrite <-app_assoc in H4. split_and!; [done|by apply sublist_skip| | |].
    + cbn [map]. constructor; [|done]. intros (x & Hk & Hx)%list_elem_of_fmap. rewrite Forall_forall in H7. apply (H7 x Hx).
      rewrite map_app. apply elem_of_app. right. cbn. rewrite Hk. left.
    + constructor; [rewrite Hc, elem_of_list_to_set in Hin; done|]. eapply Forall_impl; [exact H7|]. intros x Hx Hx'. apply Hx.
      rewrite map_app. apply elem_of_app. by left.
    + constructor; [|done]. rewrite H4, map_app. apply elem_of_app. right. left.
Qed.

(** what the store answered is served until it is thirty seconds old, with every MID that was
    announced to the cache since after it, each once; then the store is asked again, and an
    error of the store leaves the cache as it is. *)
Theorem cache_serves c now now' fetched ms t t' fetched' : sc_fresh now c = false ->
  let c1 := (GetSealed now now' (Ok fetched) c).2 in
  let c2 := foldl (λ c m, sc_Add m c) c1 ms in
  (GetSealed now now' (Ok fetched) c).1 = Ok fetched /\
  (t - now' < sc_ttl c -> exists news, GetSealed t t' fetched' c2 = (Ok (fetched ++ news), c2) /\
     news `sublist_of` ms /\ NoDup (map String news) /\ Forall (λ m, String m ∉ map String fetched) news /\
     Forall (λ m, String m ∈ map String (fetched ++ news)) ms) /\
  (sc_ttl c <= t - now' -> (GetSealed t t' fetched' c2).1 = fetched' /\
     (is_ok fetched' = false -> (GetSealed t t' fetched' c2).2 = c2)).
Proof.
  intros Hf c1 c2. assert (GetSealed now now' (Ok fetched) c = (Ok fetched, mkSealedCache fetched (list_to_set (map String fetched)) (sc_ttl c) (Some now'))) as E.
  { unfold GetSealed. by rewrite Hf. }
  unfold c2, c1. clear c1 c2. rewrite E. cbn [fst snd]. set (c1 := mkSealedCache _ _ _ _).
  destruct (Add_all ms c1 eq_refl) as (_ & H2 & H3 & news & H4 & H5 & H6 & H7 & H8). set (c2 := foldl _ c1 ms) in *. split; [done|].
  assert (sc_fresh t c2 = (t - now' <? sc_ttl c)) as Ef by (unfold sc_fresh; by rewrite H3, H2). unfold GetSealed. rewrite Ef. split.
  - intros Hlt. rewrite (proj2 (Z.ltb_lt _ _)) by done. exists news. rewrite H4 in *. done.
  - intros Hge. rewrite (proj2 (Z.ltb_ge _ _)) by done. by destruct fetched'.
Qed.
End cache_facts.

(** ** Properties: the exchange *)
Section exchange_facts.
Context `{Multiformats, !MultiformatsLaws, Proto ContentExchangeRequest, Proto ContentExchangePayload, !ProtoLaws ContentExchangeRequest, !ProtoLaws ContentExchangePayload}.
Context (legacy_list : bytes -> option (list bytes)).
(** proto3: a message without content has no bytes; there is no JSON in no bytes *)
Context (empty_payload : marshal (mkPayload []) = Ok []) (no_json : legacy_list [] = None).

Lemma read_sent_request known reqData extra : known ≠ [] ->
  marshal (mkRequest false (BuildInventoryBloom known).1 (BuildInventoryBloom known).2) = Ok reqData ->
  0 < zlen reqData < maxRequest ->
  read_request (sent_request known ++ extra) = Some (mkRequest false (BuildInventoryBloom known).1 (BuildInventoryBloom known).2).
Proof.
  intros Hne Em [Hpos Hmax]. unfold sent_request. rewrite bool_decide_false by done. destruct (BuildInventoryBloom known) as [bs k]. cbn [fst snd] in *.
  rewrite Em. pose proof (be_split_length 4 (u32 (zlen reqData))) as Hl. set (hd := be_split 4 _) in *. unfold read_request.
  rewrite <-app_assoc. assert (take 4 (hd ++ reqData ++ extra) = hd) as -> by (by rewrite take_app_length').
  assert (drop 4 (hd ++ reqData ++ extra) = reqData ++ extra) as -> by (by rewrite drop_app_length').
  assert (be_combine hd = zlen reqData) as ->.
  { unfold hd. rewrite be_combine_split. unfold maxRequest in Hmax. change (256 ^ Z.of_nat 4) with (2 ^ 32). unfold u32. rewrite Z.mod_mod, Z.mod_small by lia. done. }
  rewrite (proj2 (Z.ltb_ge (zlen (hd ++ _)) 4)) by (unfold zlen; rewrite length_app; lia).
  rewrite (proj2 (Z.ltb_lt _ _) Hpos), (proj2 (Z.ltb_lt _ _) Hmax). cbn [andb]. pose proof (zlen_nonneg extra).
  rewrite (proj2 (Z.ltb_ge _ _)) by (rewrite zlen_app; lia).
  assert (take (Z.to_nat (zlen reqData)) (reqData ++ extra) = reqData) as -> by (unfold zlen; rewrite Nat2Z.id; by rewrite take_app_length).
  by rewrite (unmarshal_marshal _ _ Em).
Qed.
Lemma parse_strings mids : Forall wf_mid mids -> rights (map Parse (map String mids)) = mids.
Proof. unfold rights. induction 1 as [|m l Hm _ IH]; [done|]. cbn [map]. rewrite Parse_wf_String by done. by rewrite <-IH at 2. Qed.
Lemma reply_read mids : Forall wf_mid mids -> exists reply, marshal (mkPayload (map String mids)) = Ok reply /\
  (zlen reply <= maxSeedListBytes -> read_reply legacy_list reply = Ok mids).
Proof.
  intros Hall. destruct (marshal_ok (mkPayload (map String mids))) as (reply & Em & Eu).
  { apply Forall_map. eapply Forall_impl; [exact Hall|]. apply String_ascii. }
  exists reply. split; [done|]. intros Hl. unfold read_reply. rewrite take_ge by (unfold zlen in *; lia). rewrite Eu. cbn [pl_Mids].
  destruct mids as [|m mids].
  - cbn [map] in *. assert (reply = []) as -> by congruence. change (0 <? zlen []) with false. rewrite no_json. done.
  - rewrite (proj2 (Z.ltb_lt 0 _)) by (unfold zlen; cbn [map length]; lia). cbn [mbind result_bind]. by rewrite parse_strings.
Qed.

(** what a peer with the sealed list [sealed] delivers over one stream: if the whole
    request arrived in time, the part of its list that the inventory's filter does not cover; if
    nothing did, or the inventory is empty, the whole list; always in order and without loss,
    as long as the reply fits in 64 MiB. *)
Theorem exchange_delta known sealed reqData extra : Forall wf_mid sealed -> 10 * zlen known + 7 < 2 ^ 32 ->
  marshal (mkRequest false (BuildInventoryBloom known).1 (BuildInventoryBloom known).2) = Ok reqData -> 0 < zlen reqData < maxRequest ->
  (exists reply, handleStream (Ok sealed) (sent_request known ++ extra) = Ok reply /\
     (zlen reply <= maxSeedListBytes -> known ≠ [] ->
      read_reply legacy_list reply = Ok (filter (λ m, covered known m = false) sealed))) /\
  (exists reply, handleStream (Ok sealed) [] = Ok reply /\ (zlen reply <= maxSeedListBytes -> read_reply legacy_list reply = Ok sealed)) /\
  (forall e arrived, handleStream (Err e) arrived = Err e).
Proof.
  intros Hall Hsmall Em Hlen. split_and!; [| |done].
  - destruct (reply_read (wanted (sent_request known ++ extra) sealed)) as (reply & E1 & E2).
    { unfold wanted. destruct (read_request _) as [req|]; [|done]. destruct (_ <? _); [|done]. by apply FilterDelta_all. }
    exists reply. split; [exact E1|]. intros Hr Hne. rewrite E2 by done. f_equal. unfold wanted.
    rewrite (read_sent_request known reqData extra) by done. cbn [rq_BloomFilter rq_BloomHashes].
    destruct (BuildInventoryBloom_spec known Hne Hsmall) as (bs & Eb & Hbs & _).
    rewrite (proj2 (Z.ltb_lt _ _)) by (rewrite Eb; destruct bs; [done|unfold zlen; cbn [fst length]; lia]).
    rewrite FilterDelta_covered by done. apply list_filter_iff. naive_solver.
  - destruct (reply_read sealed Hall) as (reply & E1 & E2). by exists reply.
Qed.

Lemma announced known results m p :
  mkAnnouncement m p ∈ DiscoverContent known results <->
  exists mids, (p, Ok mids) ∈ results /\ m ∈ mids /\ String m ∉ known.
Proof.
  unfold DiscoverContent. split.
  - intros Hin. apply list_elem_of_In, in_concat in Hin as (l & Hl & Hin). apply list_elem_of_In, list_elem_of_fmap in Hl as ([q [mids|e]] & -> & Hq); [|done].
    cbn [fst snd] in *. apply list_elem_of_In, list_elem_of_fmap in Hin as (m' & E & Hm'). injection E as -> ->. apply list_elem_of_filter in Hm' as [? ?].
    by exists mids.
  - intros (mids & Hp & Hm & Hk). apply list_elem_of_In, in_concat. eexists. split.
    + apply list_elem_of_In, list_elem_of_fmap. exists (p, Ok mids). split; [reflexivity|done].
    + cbn [fst snd]. apply list_elem_of_In, list_elem_of_fmap. exists m. split; [done|]. by apply list_elem_of_filter.
Qed.

(** a round of discovery reports, for every peer that answers, exactly the MIDs of its answer that
    are not known, each with the peer it came from; a peer that fails adds nothing. *)
Theorem discover_new known results m p :
  mkAnnouncement m p ∈ DiscoverContent known results <->
  exists mids, (p, Ok mids) ∈ results /\ m ∈ mids /\ String m ∉ known.
Proof. apply announced. Qed.
End exchange_facts.

(** ** Properties: two nodes *)
Section spreading.
Context `{Multiformats, !MultiformatsLaws, Proto ContentExchangeRequest, Proto ContentExchangePayload, !ProtoLaws ContentExchangeRequest, !ProtoLaws ContentExchangePayload}.
Context {P St : Type} `{Peerstore P, AnchorStore St, Objects.MetaStore St, PeerText, Proto AnchorRegistryProto, !AnchorStoreLaws St}.
Context (legacy_list : bytes -> option (list bytes)).
Context (empty_payload : marshal (mkPayload []) = Ok []) (no_json : legacy_list [] = None).
(** what one stream to a peer delivers: the peer takes its list from its cache, or asks its store ([fetched]) when
    the cache is older than its limit; [arrived] is what it gets of the request in time *)
Definition answer (now now' : Z) (fetched : result (list MID)) (arrived : bytes) (c : SealedCache) : result (list MID) * SealedCache :=
  let '(sealed, c) := GetSealed now now' fetched c in
  (reply ← handleStream sealed arrived; read_reply legacy_list reply, c).
Lemma answer_wanted now now' fetched c sealed arrived : (GetSealed now now' fetched c).1 = Ok sealed -> Forall wf_mid sealed ->
  (forall reply, handleStream (Ok sealed) arrived = Ok reply -> zlen reply <= maxSeedListBytes) ->
  (answer now now' fetched arrived c).1 = Ok (wanted arrived sealed).
Proof.
  intros Es Hall Hsmall. unfold answer. destruct (GetSealed now now' fetched c) as [sl c']. cbn [fst] in Es |- *. subst sl. destruct (reply_read legacy_list empty_payload no_json (wanted arrived sealed)) as (reply & E1 & E2).
  { unfold wanted. destruct (read_request _) as [req|]; [|done]. destruct (_ <? _); [|done]. by apply FilterDelta_all. }
  assert (handleStream (Ok sealed) arrived = Ok reply) as E by exact E1. rewrite E. cbn [mbind result_bind]. apply E2, (Hsmall _ E).
Qed.

(** C27: content spreads from one node to the next in one round: a MID in the list that a peer's publisher serves
    is sealed at an anchor when the anchor's round is over, if the anchor neither knows it nor has tried it in the last ten
    minutes, someone serves it, all that the round discovers fits into the backlog and the reply into 64 MiB - unless the
    inventory's filter covers the MID by chance.  Any number of peers may answer.  The served list is the peer's sealed list of up
    to thirty seconds ago. *)
Theorem content_spreads evictable c r (n : node P St) now now' fetched cache sealed results m peer known reqData :
  round_ok r n -> eng_ok (nd_engine n) -> (forall l, r_pool r l ≡ₚ l) ->
  let K := known_MIDs (nd_store (tick_begin c r n)) in
  K = list_to_set (map String known) -> Forall wf_mid known ->
  r_found r K = Ok (DiscoverContent K results) -> (peer, (answer now now' fetched (sent_request known) cache).1) ∈ results ->
  (GetSealed now now' fetched cache).1 = Ok sealed -> Forall wf_mid sealed ->
  m ∈ sealed -> IsZero m = false -> String m ∉ map String known -> (known ≠ [] -> covered known m = false) ->
  10 * zlen known + 7 < 2 ^ 32 -> zlen (backlog (nd_engine n)) + zlen (DiscoverContent K results) <= MaxEnqueueBacklog ->
  (known ≠ [] -> marshal (mkRequest false (BuildInventoryBloom known).1 (BuildInventoryBloom known).2) = Ok reqData /\ 0 < zlen reqData < maxRequest) ->
  (forall reply, handleStream (Ok sealed) (sent_request known) = Ok reply -> zlen reply <= maxSeedListBytes) ->
  obtainable (r_net r) m peer ->
  (forall i last, attempts (nd_engine n) !! String m = Some last -> anchorAttemptBackoff <= r_enqueue r i - last) ->
  String m ∈ sealed_in (tick evictable c r n).
Proof.
  intros Hr Hok Hpool K Ek Hwk Hfound Hp Hs Hws Hm Hz Hnew Hcov Hsmall Hb Hreq Hrep Hob Hat.
  rewrite (answer_wanted _ _ _ _ _ _ Hs Hws Hrep) in Hp.
  assert (m ∈ wanted (sent_request known) sealed) as Hw.
  { destruct (decide (known = [])) as [->|Hne]; [done|]. destruct (Hreq Hne) as [Em Hlen]. unfold wanted.
    pose proof (read_sent_request known reqData [] Hne Em Hlen) as Erd. rewrite app_nil_r in Erd. rewrite Erd. cbn [rq_BloomFilter rq_BloomHashes].
    destruct (_ <? _); [|done]. rewrite FilterDelta_covered by done. apply list_elem_of_filter. split; [right; by apply Hcov|done]. }
  assert (mkAnnouncement m peer ∈ DiscoverContent K results) as Ha.
  { apply announced. eexists. split; [exact Hp|]. split; [exact Hw|]. by rewrite Ek, elem_of_list_to_set. }
  apply list_elem_of_lookup in Ha as [i Hi].
  refine (tick_acquires evictable c r n (mkEnqueued m peer) _ Hr Hok Hpool Hfound Hb Hz Hob (or_intror (ex_intro _ i (conj Hi (Hat i))))).
Qed.
End spreading.

(** ** Witnesses *)
#[local] Instance toy_payload : Proto ContentExchangePayload := {|
  marshal p := if bool_decide (pl_Mids p = []) then Ok [] else Ok (Byte.x00 :: ToyWire.pos_bytes (encode (pl_Mids p)));
  unmarshal bs := match bs with
    | [] => Ok (mkPayload [])
    | _ :: bs => match ToyWire.bytes_pos bs ≫= decode with Some l => Ok (mkPayload l) | None => Err (New "proto") end
    end |}.
#[local] Instance toy_payload_laws : ProtoLaws ContentExchangePayload.
Proof.
  split.
  - intros [l] raw. cbn [marshal unmarshal toy_payload pl_Mids]. case_bool_decide as Hm; intros [= <-]; [by subst|].
    rewrite ToyWire.bytes_pos_bytes. cbn [mbind option_bind]. by rewrite decode_encode.
  - intros a _. cbn. by case_bool_decide.
Qed.
#[local] Instance ContentExchangeRequest_eq_dec : EqDecision ContentExchangeRequest.
Proof. solve_decision. Defined.
#[local] Instance ContentExchangeRequest_countable : Countable ContentExchangeRequest.
Proof. refine (inj_countable' (λ n, (rq_FullSync n, rq_BloomFilter n, rq_BloomHashes n)) (λ '(a, b, c), mkRequest a b c) _). by intros []. Defined.
#[local] Instance toy_request : Proto ContentExchangeRequest := toy_proto.
#[local] Instance toy_request_laws : ProtoLaws ContentExchangeRequest := toy_proto_laws.
#[local] Existing Instances mem_anchor mem_anchor_laws toy_peers toy_text toy_registry.
Lemma toy_empty_payload : marshal (mkPayload []) = Ok [].
Proof. reflexivity. Qed.
Definition no_legacy (_ : bytes) : option (list bytes) := None.

Definition demo_sealed : list MID := [toy_mid CodecRaw (lit "abc"); toy_mid CodecRaw (lit "xyz")].
Definition demo_inventory : list MID := [toy_mid CodecRaw (lit "xyz")].
Definition demo_request : bytes :=
  match marshal (mkRequest false (BuildInventoryBloom demo_inventory).1 (BuildInventoryBloom demo_inventory).2) with Ok d => d | Err _ => [] end.
Lemma demo_sealed_wf : Forall wf_mid demo_sealed.
Proof. repeat constructor; apply toy_raw_wf. Qed.

Lemma cache_serves_witness : exists news,
  GetSealed (40 * 1000000000) 0 (Ok []) (sc_Add demo_content (GetSealed (11 * 1000000000) (12 * 1000000000) (Ok demo_inventory) (NewSealedCache 0)).2)
  = (Ok (demo_inventory ++ news), sc_Add demo_content (GetSealed (11 * 1000000000) (12 * 1000000000) (Ok demo_inventory) (NewSealedCache 0)).2) /\
  String demo_content ∈ map String (demo_inventory ++ news).
Proof.
  destruct (cache_serves (NewSealedCache 0) (11 * 1000000000) (12 * 1000000000) demo_inventory [demo_content] (40 * 1000000000) 0 (Ok []) eq_refl)
    as (_ & H1 & _).
  destruct (H1 ltac:(vm_compute; reflexivity)) as (news & H2 & _ & _ & _ & H3). exists news. split; [exact H2|].
  apply Forall_cons in H3 as [H3 _]. exact H3.
Defined.
Lemma exchange_delta_witness : exists reply,
  handleStream (Ok demo_sealed) (sent_request demo_inventory ++ lit "zz") = Ok reply /\ read_reply no_legacy reply = Ok [demo_content].
Proof.
  destruct (exchange_delta no_legacy toy_empty_payload eq_refl demo_inventory demo_sealed demo_request (lit "zz") demo_sealed_wf
    ltac:(vm_compute; reflexivity) ltac:(vm_compute; reflexivity) ltac:(vm_compute; split; reflexivity)) as ((reply & H1 & H2) & _ & _).
  exists reply. split; [exact H1|]. rewrite H2; [vm_compute; reflexivity| |discriminate].
  assert (is_ok (handleStream (Ok demo_sealed) (sent_request demo_inventory ++ lit "zz")) = true) as _ by (vm_compute; reflexivity).
  vm_compute in H1. injection H1 as <-. vm_compute. discriminate.
Defined.
Lemma discover_new_witness :
  mkAnnouncement demo_content (lit "a") ∈ DiscoverContent {[ lit "other" ]} [(lit "b", Err (New "reset")); (lit "a", Ok demo_sealed)].
Proof.
  apply discover_new. exists demo_sealed. split_and!; [right; left|left|].
  apply (bool_decide_unpack _). vm_compute. exact I.
Defined.
(** the peer's cache is ten seconds old, and the store holds nothing any more *)
Definition demo_cache : SealedCache := (GetSealed 0 100 (Ok demo_sealed) (NewSealedCache 0)).2.
Definition demo_answer : result (list MID) := (answer no_legacy (10 * 1000000000) 0 (Ok []) (sent_request []) demo_cache).1.
Definition demo_results : list (bytes * result (list MID)) := [(lit "b", Err (New "reset")); (lit "a", demo_answer)].
Definition spread_round : round := mkRound demo_network 0 (demo_walk (anchors (nd_engine demo_node))) (λ _, true) []
  (λ known, Ok (DiscoverContent known demo_results)) (λ _, 100) reverse (λ _, 200) (λ _, 300).
Lemma content_spreads_witness : String demo_content ∈ sealed_in (tick (Some mem_evictable) demo_config spread_round demo_node).
Proof.
  assert (round_ok spread_round demo_node) as Hr by exact demo_round_ok.
  refine (content_spreads no_legacy toy_empty_payload eq_refl (Some mem_evictable) demo_config spread_round demo_node
    (10 * 1000000000) 0 (Ok []) demo_cache demo_sealed demo_results demo_content (lit "a") [] []
    Hr demo_node_ok _ _ _ eq_refl _ eq_refl demo_sealed_wf _ _ _ _ _ _ _ _ (demo_obtainable _ _) _).
  - intros l. apply reverse_Permutation.
  - vm_compute. reflexivity.
  - constructor.
  - right. left.
  - left.
  - vm_compute. reflexivity.
  - apply not_elem_of_nil.
  - done.
  - vm_compute. reflexivity.
  - vm_compute. discriminate.
  - done.
  - intros reply E. vm_compute in E. injection E as <-. vm_compute. discriminate.
  - intros i last E. vm_compute in E. discriminate.
Defined.
(** a MID that is sealed after the list was cached is not in the answer: nothing calls [sc_Add] *)
Lemma new_seal_not_served : (answer no_legacy (10 * 1000000000) 0 (Ok demo_sealed) (sent_request []) (GetSealed 0 100 (Ok demo_inventory) (NewSealedCache 0)).2).1 = Ok demo_inventory.
Proof. vm_compute. reflexivity. Qed.
