(* ===== verification/Pex.v ===== *)
(** * Peer exchange (src/net/pex/pex.go)

    [Table] is the peer table behind the mutex; the host's identity, its key and address are a [self],
    the key operations the class [PeerKeys].  What happens to a table - connections, dials, received
    messages - are the operations below; a dial that is started in the background is an output, its result
    a later [MarkDialResult].
    [table_invariant]: what holds of a table after any events; [merge_authentic]: what a received
    message can change; [filter_exact]: what is gossiped; [gossip_never_arrives]: what a peer makes of
    it. *)
From S2P Require Import Prelude Mid GoIO Wire Blockstore Db Anchor.

Definition UNKNOWN : Z := 0.
Definition PUBLIC : Z := 1.
Definition PRIVATE : Z := 2.
Definition RELAY_ONLY : Z := 3.
Record PeerInfo := mkPeerInfo {
  pi_PeerId : bytes;
  pi_Addrs : list bytes;
  pi_RelayAddrs : list bytes;
  pi_LastSeen : Z;
  pi_Reachability : Z;
  pi_LastDialSuccess : bool;
  pi_Signature : bytes;
  pi_PubKey : bytes;
  pi_Seq : Z;
}.
#[export] Instance PeerInfo_eq_dec : EqDecision PeerInfo.
Proof. solve_decision. Defined.
Record PEXMessage := mkPEXMessage { pm_Peers : list PeerInfo }.
Record entry := mkEntry { en_info : PeerInfo; en_addrInfo : AddrInfo; en_relayAddrs : list bytes; en_dialFailures : Z }.
Abbreviation Table := (gmap bytes entry).

Definition maxPeers : nat := 256.
Definition fanout : nat := 5.
Definition freshnessWindow : Z := 2 * 60 * 60.   (* seconds *)
Definition clockSkew : Z := 5 * 60.
Definition maxMsg : Z := 2 ^ 20.

(** the updates of single fields *)
Definition set_seen (t : Z) (i : PeerInfo) : PeerInfo :=
  mkPeerInfo (pi_PeerId i) (pi_Addrs i) (pi_RelayAddrs i) t (pi_Reachability i) (pi_LastDialSuccess i) (pi_Signature i) (pi_PubKey i) (pi_Seq i).
Definition set_dial (ok : bool) (i : PeerInfo) : PeerInfo :=
  mkPeerInfo (pi_PeerId i) (pi_Addrs i) (pi_RelayAddrs i) (pi_LastSeen i) (pi_Reachability i) ok (pi_Signature i) (pi_PubKey i) (pi_Seq i).
Definition set_reach (r : Z) (i : PeerInfo) : PeerInfo :=
  mkPeerInfo (pi_PeerId i) (pi_Addrs i) (pi_RelayAddrs i) (pi_LastSeen i) r (pi_LastDialSuccess i) (pi_Signature i) (pi_PubKey i) (pi_Seq i).
Definition set_addrs (a : list bytes) (i : PeerInfo) : PeerInfo :=
  mkPeerInfo (pi_PeerId i) a (pi_RelayAddrs i) (pi_LastSeen i) (pi_Reachability i) (pi_LastDialSuccess i) (pi_Signature i) (pi_PubKey i) (pi_Seq i).
Definition set_relays (a : list bytes) (i : PeerInfo) : PeerInfo :=
  mkPeerInfo (pi_PeerId i) (pi_Addrs i) a (pi_LastSeen i) (pi_Reachability i) (pi_LastDialSuccess i) (pi_Signature i) (pi_PubKey i) (pi_Seq i).
Definition set_signed (sig pub : bytes) (seq : Z) (i : PeerInfo) : PeerInfo :=
  mkPeerInfo (pi_PeerId i) (pi_Addrs i) (pi_RelayAddrs i) (pi_LastSeen i) (pi_Reachability i) (pi_LastDialSuccess i) sig pub seq.
Definition on_info (f : PeerInfo -> PeerInfo) (e : entry) : entry := mkEntry (f (en_info e)) (en_addrInfo e) (en_relayAddrs e) (en_dialFailures e).

(** libp2p's keys; [priv] is the host's own key *)
Class PeerKeys := {
  key : Type;
  UnmarshalPublicKey : bytes -> result key;
  MarshalPublicKey : key -> result bytes;
  IDFromPublicKey : key -> result bytes;
  key_Verify : key -> bytes -> bytes -> result bool;
}.
Record self `{PeerKeys} := mkSelf {
  self_ID : bytes;
  self_Addrs : list bytes;
  self_PubKey : option key;              (* none: the key is not in the peerstore *)
  self_Sign : bytes -> result bytes;
}.

Section pex.
Context `{PeerText, PeerKeys} (me : self).

Definition addrsToStrings (l : list bytes) : list bytes := map ma_String l.
(** [smallest LastSeen]; among equals the order of the map decides, here that of [map_to_list] *)
Definition older (acc : option (bytes * Z)) (kv : bytes * entry) : option (bytes * Z) :=
  match acc with
  | Some (id, ts) => if pi_LastSeen (en_info kv.2) <? ts then Some (kv.1, pi_LastSeen (en_info kv.2)) else acc
  | None => Some (kv.1, pi_LastSeen (en_info kv.2))
  end.
Definition evictOldestLocked (t : Table) : Table :=
  match foldl older None (map_to_list t) with Some (id, _) => delete id t | None => t end.
Definition upsertLocked (ai : AddrInfo) (relayAddrs : list bytes) (seen : Z) (keepVerdict : bool) (t : Table) : Table :=
  let id := ai_ID ai in
  if bool_decide (id = []) || bool_decide (id = self_ID me) then t else
  let addrs := addrsToStrings (ai_Addrs ai) in
  match t !! id with
  | Some cur =>
      let i := en_info cur in
      if seen <=? pi_LastSeen i then
        if keepVerdict then t
        else <[id := mkEntry (set_addrs addrs i) ai (en_relayAddrs cur) (en_dialFailures cur)]> t
      else
        let relays := en_relayAddrs cur ++ relayAddrs in
        <[id := mkEntry (mkPeerInfo (peer_String id) addrs (addrsToStrings relays) seen (pi_Reachability i) (pi_LastDialSuccess i)
                           (pi_Signature i) (pi_PubKey i) (pi_Seq i)) ai relays (en_dialFailures cur)]> t
  | None =>
      let t := if (maxPeers <=? size t)%nat then evictOldestLocked t else t in
      <[id := mkEntry (mkPeerInfo (peer_String id) addrs (addrsToStrings relayAddrs) seen UNKNOWN true [] [] 0) ai relayAddrs 0]> t
  end.
Definition AddPeer (now : Z) (ai : AddrInfo) (t : Table) : Table :=
  if bool_decide (ai_ID ai = []) then t else upsertLocked ai [] now false t.
Definition AddPeerWithReachability (now : Z) (ai : AddrInfo) (reach : Z) (relayAddrs : list bytes) (t : Table) : Table :=
  if bool_decide (ai_ID ai = []) then t else
  alter (λ cur, on_info (set_relays (addrsToStrings relayAddrs))
    (mkEntry (if reach =? UNKNOWN then en_info cur else set_reach reach (en_info cur)) (en_addrInfo cur) relayAddrs (en_dialFailures cur)))
    (ai_ID ai) (upsertLocked ai relayAddrs now false t).
Definition PeerCount (t : Table) : nat := size t.
Definition SetReachability (pid : bytes) (reach : Z) (t : Table) : Table := alter (on_info (set_reach reach)) pid t.
Definition MarkDialResult (now : Z) (pid : bytes) (ok : bool) (t : Table) : Table :=
  match t !! pid with
  | None => t
  | Some e =>
      let e := on_info (set_dial ok) e in
      if ok then <[pid := mkEntry (set_seen now (en_info e)) (en_addrInfo e) (en_relayAddrs e) 0]> t
      else
        let fails := en_dialFailures e + 1 in
        if 2 <=? fails then delete pid t
        else <[pid := mkEntry (en_info e) (en_addrInfo e) (en_relayAddrs e) fails]> t
  end.
(** [Connected], and what [Start] does for each connected peer *)
Definition mark_connected (e : entry) : entry := mkEntry (set_dial true (en_info e)) (en_addrInfo e) (en_relayAddrs e) 0.
Definition Connected (now : Z) (ai : AddrInfo) (t : Table) : Table :=
  alter mark_connected (ai_ID ai) (upsertLocked ai [] now false t).
Definition Start (now : Z) (connected : list AddrInfo) (t : Table) : Table := foldl (λ t ai, Connected now ai t) t connected.

(** ** Sorted views *)
Definition id_le (a b : PeerInfo) : Prop := bytes_leb (pi_PeerId a) (pi_PeerId b) = true.
#[export] Instance id_le_dec a b : Decision (id_le a b) := bool_eq_dec _ _.
Definition infos (t : Table) : list PeerInfo := map (λ kv, en_info kv.2) (map_to_list t).
Definition Peers (t : Table) : list PeerInfo := merge_sort id_le (filter (λ i, pi_LastDialSuccess i = true) (infos t)).
Definition snapshot (t : Table) : list PeerInfo := merge_sort id_le (infos t).

(** ** Signed records *)
Definition int32_be (z : Z) : bytes := be_split 4 (u32 z).
Definition CanonicalPeerInfoBytes (i : PeerInfo) : bytes :=
  pi_PeerId i ++ [Byte.x00]
  ++ concat (map (λ a, a ++ [Byte.x00]) (pi_Addrs i)) ++ [Byte.x01]
  ++ concat (map (λ a, a ++ [Byte.x00]) (pi_RelayAddrs i)) ++ [Byte.x02]
  ++ int32_be (pi_Reachability i) ++ be_split 8 (u64 (pi_Seq i)).
Definition circuit : bytes := lit "/p2p-circuit".
Fixpoint Contains (s sub : bytes) : bool :=
  HasPrefix s sub || match s with [] => false | _ :: s => Contains s sub end.
Definition buildSelfPeerInfo (now : Z) : result PeerInfo :=
  match self_PubKey me with
  | None => Err (New "pex: private key not found in peerstore")
  | Some pub =>
      pubKeyBytes ← MarshalPublicKey pub;
      let addrStrs := addrsToStrings (self_Addrs me) in
      let relayAddrs := filter (λ s, Contains s circuit = true) addrStrs in
      let finalAddrs := filter (λ s, Contains s circuit = false) addrStrs in
      let reach := if 0 <? zlen finalAddrs then PUBLIC else if 0 <? zlen relayAddrs then RELAY_ONLY else UNKNOWN in
      let info := mkPeerInfo (peer_String (self_ID me)) finalAddrs relayAddrs now reach false [] pubKeyBytes now in
      sig ← self_Sign me (CanonicalPeerInfoBytes info);
      Ok (set_signed sig pubKeyBytes now info)
  end.
Definition verifyPeerInfoSignature (now : Z) (i : PeerInfo) : result unit :=
  if bool_decide (pi_Signature i = []) then Err (New "pex: unsigned peer record") else
  if bool_decide (pi_PubKey i = []) then Err (New "pex: missing public key in peer record") else
  pid ← wrap "pex: invalid peer ID" (peer_Decode (pi_PeerId i));
  pubKey ← wrap "pex: invalid public key" (UnmarshalPublicKey (pi_PubKey i));
  derivedID ← wrap "pex: failed to derive peer ID from public key" (IDFromPublicKey pubKey);
  if negb (bool_decide (derivedID = pid)) then Err (New "pex: peer ID does not match public key") else
  ok ← wrap "pex: signature verification error" (key_Verify pubKey (CanonicalPeerInfoBytes i) (pi_Signature i));
  if negb ok then Err (New "pex: invalid signature") else
  if i64 (now + clockSkew) <? pi_Seq i then Err (New "pex: record timestamp is in the future") else
  if pi_Seq i <? i64 (now - freshnessWindow) then Err (New "pex: record is expired") else
  Ok tt.
(** the outgoing filter, for one entry *)
Definition shared (now : Z) (i : PeerInfo) : option PeerInfo :=
  if bool_decide (pi_PeerId i = peer_String (self_ID me)) then None else
  if bool_decide (pi_Signature i = []) then None else
  if pi_LastSeen i <? now - freshnessWindow then None else
  if negb (pi_LastDialSuccess i) then None else
  if pi_Reachability i =? PUBLIC then Some i else
  if pi_Reachability i =? RELAY_ONLY then Some (set_addrs [] i) else
  if pi_Reachability i =? PRIVATE then Some i else
  if pi_Reachability i =? UNKNOWN then Some (set_relays [] (set_addrs [] i)) else None.
Definition filterForGossip (now : Z) (t : Table) : list PeerInfo :=
  let mine := match buildSelfPeerInfo now with Ok i => [i] | Err _ => [] end in
  merge_sort id_le (mine ++ omap (shared now) (infos t)).

(** ** Merging *)
Definition decodePeerInfo (i : PeerInfo) : option AddrInfo :=
  if bool_decide (pi_PeerId i = []) then None else
  match peer_Decode (pi_PeerId i) with
  | Err _ => None
  | Ok pid => Some (mkAddrInfo pid (good_addrs (pi_Addrs i)))
  end.
(** what is dialled for a new peer *)
Definition dialFor (i : PeerInfo) (ai : AddrInfo) (relay : list bytes) : option AddrInfo :=
  if pi_Reachability i =? RELAY_ONLY then
    if bool_decide (relay = []) then None else Some (mkAddrInfo (ai_ID ai) relay)
  else if (pi_Reachability i =? PUBLIC) || (pi_Reachability i =? UNKNOWN) then
    if bool_decide (ai_Addrs ai = []) then None else Some ai
  else None.
Definition merge_known (seen : Z) (i : PeerInfo) (ai : AddrInfo) (relay : list bytes) (cur : entry) : entry :=
  mkEntry (mkPeerInfo (pi_PeerId (en_info cur)) (addrsToStrings (ai_Addrs ai)) (pi_RelayAddrs i) seen (pi_Reachability i)
             (pi_LastDialSuccess i) (pi_Signature i) (pi_PubKey i) (pi_Seq i)) ai relay (en_dialFailures cur).
Definition merge_new (i : PeerInfo) (relay : list bytes) (cur : entry) : entry :=
  mkEntry (set_signed (pi_Signature i) (pi_PubKey i) (pi_Seq i) (set_dial (pi_LastDialSuccess i) (set_reach (pi_Reachability i) (en_info cur))))
    (en_addrInfo cur) relay (en_dialFailures cur).
Definition merge_one (now seen : Z) (i : PeerInfo) (st : Table * list AddrInfo) : Table * list AddrInfo :=
  let '(t, dials) := st in
  match verifyPeerInfoSignature now i, decodePeerInfo i with
  | Ok _, Some ai =>
      let relay := good_addrs (pi_RelayAddrs i) in
      match t !! ai_ID ai with
      | Some cur =>
          if pi_Seq i <=? pi_Seq (en_info cur) then st
          else (<[ai_ID ai := merge_known seen i ai relay cur]> t, dials)
      | None =>
          (alter (merge_new i relay) (ai_ID ai) (upsertLocked ai relay seen true t),
           dials ++ match dialFor i ai relay with Some d => [d] | None => [] end)
      end
  | _, _ => st
  end.
Definition mergeFromMessage (now : Z) (l : list PeerInfo) (seen : Z) (t : Table) : Table * list AddrInfo :=
  foldl (λ st i, merge_one now seen i st) (t, []) l.
End pex.

(** ** Streams and the disk *)
(** the fallback of [readMsg]: what is left of the stream, up to a bound *)
Fixpoint read_rest (fuel : nat) (buf : bytes) (r : Reader) : bytes :=
  match fuel with
  | O => buf
  | S fuel =>
      let '((bs, e), r) := Read r 4096 in
      let buf := buf ++ bs in
      if bool_decide (is_Some e) || (maxMsg <=? zlen buf) then buf else read_rest fuel buf r
  end.
(** [n] more bytes, or what there is before the error *)
Fixpoint read_up_to (fuel : nat) (n : nat) (buf : bytes) (r : Reader) : bytes :=
  match fuel with
  | O => buf
  | S fuel =>
      if (n =? 0)%nat then buf else
      let '((bs, e), r) := Read r n in
      if bool_decide (is_Some e) then buf ++ bs else read_up_to fuel (n - length bs) (buf ++ bs) r
  end.
Definition readMsg (r : Reader) : option bytes :=
  let '((lenBuf, e), r) := Read r 4 in
  if bool_decide (is_Some e) || (zlen lenBuf <? 4) then Some (read_rest (rd_measure r) [] r)
  else
    let l := be_combine lenBuf in
    if (l =? 0) || (maxMsg <? l) then None else Some (read_up_to (rd_measure r) (Z.to_nat l) [] r).

Section streams.
Context `{PeerText, PeerKeys, Proto PEXMessage} (me : self).
(** the table after a stream was served, the dials it started, and the reply *)
Definition handleStream (now : Z) (remote : AddrInfo) (r : Reader) (t : Table) : Table * list AddrInfo * option bytes :=
  let t := AddPeer me now remote t in
  match readMsg r with
  | None => (t, [], None)
  | Some incoming =>
      match unmarshal (A := PEXMessage) incoming with
      | Err _ => (t, [], None)
      | Ok inMsg =>
          let '(t, dials) := mergeFromMessage me now (pm_Peers inMsg) now t in
          match marshal (mkPEXMessage (filterForGossip me now t)) with
          | Err _ => (t, dials, None)
          | Ok out => (t, dials, Some out)
          end
      end
  end.
(** [exchange]: what is written, and what is made of the reply *)
Definition exchange_sends (now : Z) (t : Table) : result bytes := wrap "pex: marshal" (marshal (mkPEXMessage (filterForGossip me now t))).
Definition exchange_reply (now : Z) (r : Reader) (t : Table) : result (Table * list AddrInfo) :=
  match readMsg r with
  | None => Err (New "pex: empty reply")
  | Some resp =>
      reply ← wrap "pex: unmarshal reply" (unmarshal (A := PEXMessage) resp);
      Ok (mergeFromMessage me now (pm_Peers reply) now t)
  end.
(** [gossipRound]: the peers it talks to, from the shuffled list *)
Definition gossip_targets (shuffled : list bytes) : list bytes := filter (λ pid, pid ≠ self_ID me) (take fanout shuffled).

(** [reconnectAsync]: a dial, or a miss at once *)
Definition reconnectAsync (now : Z) (pid : bytes) (ai : AddrInfo) (relay : list bytes) (reach : Z) (t : Table) : Table * option AddrInfo :=
  if reach =? RELAY_ONLY then
    if bool_decide (relay = []) then (MarkDialResult now pid false t, None) else (t, Some (mkAddrInfo pid relay))
  else if reach =? PRIVATE then (MarkDialResult now pid false t, None)
  else if (reach =? PUBLIC) || (reach =? UNKNOWN) then
    if bool_decide (ai_Addrs ai = []) then (MarkDialResult now pid false t, None) else (t, Some ai)
  else (t, Some (mkAddrInfo [] [])).
Definition Disconnected (now : Z) (pid : bytes) (still_connected : bool) (t : Table) : Table * option AddrInfo :=
  if still_connected then (t, None) else
  match t !! pid with
  | None => (t, None)
  | Some e => reconnectAsync now pid (en_addrInfo e) (en_relayAddrs e) (pi_Reachability (en_info e)) t
  end.
Definition check_one (now : Z) (connected : bytes -> bool) (target : bytes * entry) (st : Table * list AddrInfo) : Table * list AddrInfo :=
  let '(t, dials) := st in
  if connected target.1 then
    (alter (λ e, mkEntry (set_seen now (set_dial true (en_info e))) (en_addrInfo e) (en_relayAddrs e) 0) target.1 t, dials)
  else
    let '(t, d) := reconnectAsync now target.1 (en_addrInfo target.2) (en_relayAddrs target.2) (pi_Reachability (en_info target.2)) t in
    (t, dials ++ match d with Some d => [d] | None => [] end).
(** [targets]: the table in the order of its iteration, up to where the context ends it *)
Definition checkPeers (now : Z) (connected : bytes -> bool) (targets : list (bytes * entry)) (t : Table) : Table * list AddrInfo :=
  foldl (λ st target, check_one now connected target st) (t, []) targets.

Definition save (t : Table) : option bytes := match marshal (mkPEXMessage (snapshot t)) with Ok data => Some data | Err _ => None end.
Definition load_one (seen : Z) (t : Table) (i : PeerInfo) : Table :=
  match decodePeerInfo i with
  | None => t
  | Some ai =>
      let relay := good_addrs (pi_RelayAddrs i) in
      alter (λ cur, mkEntry (set_dial (pi_LastDialSuccess i) (set_reach (pi_Reachability i) (en_info cur))) (en_addrInfo cur) relay (en_dialFailures cur))
        (ai_ID ai) (upsertLocked me ai relay seen true t)
  end.
Definition load (now : Z) (data : option bytes) : Table :=
  match data with
  | None => ∅
  | Some data => match unmarshal (A := PEXMessage) data with Err _ => ∅ | Ok msg => foldl (load_one now) ∅ (pm_Peers msg) end
  end.
End streams.

(** ** Properties: the table *)
Section table_facts.
Context `{PeerText, PeerKeys, Proto PEXMessage} (me : self).
Definition table_ok (t : Table) : Prop :=
  (size t <= maxPeers)%nat /\ t !! self_ID me = None /\
  forall id e, t !! id = Some e -> id ≠ [] /\ ai_ID (en_addrInfo e) = id /\ pi_PeerId (en_info e) = peer_String id /\ 0 <= en_dialFailures e < 2.
Definition entry_ok (id : bytes) (e : entry) : Prop :=
  ai_ID (en_addrInfo e) = id /\ pi_PeerId (en_info e) = peer_String id /\ 0 <= en_dialFailures e < 2.
(** an entry built from a good one *)
Ltac entry_tac := unfold entry_ok; cbn [en_addrInfo en_info en_dialFailures ai_ID pi_PeerId on_info set_seen set_dial set_reach set_addrs set_relays set_signed merge_known merge_new mark_connected] in *; split_and!; done || lia.
Lemma table_ok_insert id e t : table_ok t -> is_Some (t !! id) \/ (size t < maxPeers)%nat -> id ≠ [] -> id ≠ self_ID me -> entry_ok id e ->
  table_ok (<[id := e]> t).
Proof.
  intros (Hs & Hself & He) Hroom Hne Hns Hok. split_and!.
  - destruct (t !! id) as [x|] eqn:E.
    + rewrite map_size_insert_Some; [done|by eexists].
    + destruct Hroom as [[? ?]|?]; [congruence|]. rewrite map_size_insert_None by done. lia.
  - by rewrite lookup_insert_ne.
  - intros id' e' Hl. destruct (decide (id' = id)) as [->|Hid].
    + rewrite lookup_insert_eq in Hl. injection Hl as <-. by destruct Hok.
    + rewrite lookup_insert_ne in Hl by done. by apply He.
Qed.
Lemma table_ok_alter f id t : table_ok t -> (forall e, entry_ok id e -> entry_ok id (f e)) -> table_ok (alter f id t).
Proof.
  intros (Hs & Hself & He) Hf. split_and!.
  - by rewrite <-size_dom, dom_alter_L, size_dom.
  - destruct (decide (id = self_ID me)) as [->|]; [by rewrite lookup_alter_eq, Hself|by rewrite lookup_alter_ne].
  - intros id' e' Hl. destruct (decide (id' = id)) as [->|Hid].
    + rewrite lookup_alter_eq in Hl. destruct (t !! id) as [x|] eqn:E; [|done]. injection Hl as <-.
      destruct (He _ _ E) as [Hne Hx]. split; [done|]. by apply Hf.
    + rewrite lookup_alter_ne in Hl by done. by apply He.
Qed.
Lemma table_ok_delete id t : table_ok t -> table_ok (delete id t).
Proof.
  intros (Hs & Hself & He). split_and!.
  - etrans; [|exact Hs]. rewrite <-!size_dom. apply subseteq_size. rewrite dom_delete_L. set_solver.
  - rewrite lookup_delete_None. by right.
  - intros id' e'. rewrite lookup_delete_Some. intros [_ ?]. by apply He.
Qed.
(** the eviction takes an entry that was seen no later than any other *)
Lemma older_spec l acc : (acc ≠ None \/ l ≠ []) -> exists id ts, foldl older acc l = Some (id, ts) /\
  (acc = Some (id, ts) \/ exists e, (id, e) ∈ l /\ pi_LastSeen (en_info e) = ts) /\
  (forall id' ts', acc = Some (id', ts') -> ts <= ts') /\ (forall kv, kv ∈ l -> ts <= pi_LastSeen (en_info kv.2)).
Proof.
  revert acc. induction l as [|[k e] l IH]; intros acc Hne.
  - destruct acc as [[id ts]|]; [|by destruct Hne]. exists id, ts. split_and!; [done|by left|intros ? ? [= <- <-]; lia|intros ? Hx; by apply not_elem_of_nil in Hx].
  - cbn [foldl]. assert (older acc (k, e) ≠ None) as Hn by (unfold older; destruct acc as [[? ?]|]; [|done]; by destruct (_ <? _)).
    destruct (IH _ (or_introl Hn)) as (id & ts & E & Hin & Hacc & Hl). exists id, ts. unfold older in Hin, Hacc. cbn [fst snd] in *.
    destruct acc as [[id0 ts0]|].
    + destruct (Z.ltb_spec (pi_LastSeen (en_info e)) ts0) as [Hlt|Hge]; split_and!; [done| | | |done| | |].
      * right. destruct Hin as [[= <- <-]|(e' & He' & Ets)]; [exists e; split; [left|done]|exists e'; split; [by right|done]].
      * intros id' ts' [= <- <-]. specialize (Hacc _ _ eq_refl). lia.
      * intros kv [->|Hkv]%elem_of_cons; [by apply (Hacc k)|by apply Hl].
      * destruct Hin as [?|(e' & He' & Ets)]; [by left|right; exists e'; split; [by right|done]].
      * exact Hacc.
      * intros kv [->|Hkv]%elem_of_cons; [cbn; specialize (Hacc _ _ eq_refl); lia|by apply Hl].
    + split_and!; [done| |done|].
      * right. destruct Hin as [[= <- <-]|(e' & He' & Ets)]; [exists e; split; [left|done]|exists e'; split; [by right|done]].
      * intros kv [->|Hkv]%elem_of_cons; [by apply (Hacc k)|by apply Hl].
Qed.
Lemma evict_spec t : t ≠ ∅ -> exists id e, t !! id = Some e /\ evictOldestLocked t = delete id t /\
  forall id' e', t !! id' = Some e' -> pi_LastSeen (en_info e) <= pi_LastSeen (en_info e').
Proof.
  intros Hne. unfold evictOldestLocked. destruct (older_spec (map_to_list t) None) as (id & ts & E & Hin & _ & Hl).
  { right. by rewrite map_to_list_empty_iff. }
  destruct Hin as [?|(e & He & <-)]; [done|]. rewrite E. exists id, e. split_and!; [by apply elem_of_map_to_list|done|].
  intros id' e' He'. apply (Hl (id', e')). by apply elem_of_map_to_list.
Qed.
Lemma upsert_ok ai relay seen keep t : table_ok t -> table_ok (upsertLocked me ai relay seen keep t).
Proof.
  intros Ht. unfold upsertLocked. destruct (bool_decide (ai_ID ai = []) || _) eqn:Hid; [done|].
  apply orb_false_iff in Hid as [Hi1%bool_decide_eq_false Hi2%bool_decide_eq_false].
  destruct (t !! ai_ID ai) as [cur|] eqn:E.
  - destruct Ht as (Hs & Hself & He). destruct (He _ _ E) as (_ & Ha & Hp & Hf).
    destruct (seen <=? _); [destruct keep; [done|]|]; (apply table_ok_insert; [done|left; by eexists|done|done|entry_tac]).
  - apply table_ok_insert; [|right|done|done|entry_tac].
    + destruct (_ <=? _)%nat; [|done]. unfold evictOldestLocked. destruct (foldl older None _) as [[id ts]|]; [by apply table_ok_delete|done].
    + destruct (Nat.leb_spec maxPeers (size t)); [|done]. destruct (evict_spec t) as (id & e & El & -> & _).
      { intros ->. cbn in *. unfold maxPeers in *. rewrite map_size_empty in *. lia. }
      destruct Ht as (Hs & _). rewrite map_size_delete_Some by by eexists. unfold maxPeers in *. lia.
Qed.
Lemma MarkDialResult_ok now pid ok t : table_ok t -> table_ok (MarkDialResult now pid ok t).
Proof.
  intros Ht. unfold MarkDialResult. destruct (t !! pid) as [e|] eqn:E; [|done].
  pose proof Ht as (Hs & Hself & He). destruct (He _ _ E) as (Hne & Ha & Hp & Hf).
  assert (pid ≠ self_ID me) as Hns by (intros ->; congruence).
  destruct ok; [apply table_ok_insert; [done|left; by eexists|done|done|by split_and!]|].
  cbn [en_dialFailures on_info]. destruct (Z.leb_spec 2 (en_dialFailures e + 1)); [by apply table_ok_delete|].
  apply table_ok_insert; [done|left; by eexists|done|done|]. entry_tac.
Qed.
Lemma Connected_ok now ai t : table_ok t -> table_ok (Connected me now ai t).
Proof. intros Ht. apply table_ok_alter; [by apply upsert_ok|]. intros e (? & ? & ?). entry_tac. Qed.
Lemma merge_one_ok now seen i st : table_ok st.1 -> table_ok (merge_one me now seen i st).1.
Proof.
  destruct st as [t dials]. cbn [fst]. intros Ht. unfold merge_one. destruct (verifyPeerInfoSignature now i); [|done].
  destruct (decodePeerInfo i) as [ai|]; [|done]. destruct (t !! ai_ID ai) as [cur|] eqn:E.
  - destruct (_ <=? _); [done|]. cbn [fst]. pose proof Ht as (Hs & Hself & He). destruct (He _ _ E) as (Hne & Ha & Hp & Hf).
    apply table_ok_insert; [done|left; by eexists|done|intros Hx; rewrite Hx in E; congruence|entry_tac].
  - cbn [fst]. apply table_ok_alter; [by apply upsert_ok|]. intros e (? & ? & ?). entry_tac.
Qed.
Lemma merge_ok now l seen t : table_ok t -> table_ok (mergeFromMessage me now l seen t).1.
Proof.
  unfold mergeFromMessage. generalize (@nil AddrInfo). revert t. induction l as [|i l IH]; intros t d Ht; [done|]. cbn [foldl].
  pose proof (merge_one_ok now seen i (t, d) Ht) as H'. destruct (merge_one me now seen i (t, d)) as [t' d']. by apply IH.
Qed.
Lemma reconnect_ok now pid ai relay reach t : table_ok t -> table_ok (reconnectAsync now pid ai relay reach t).1.
Proof. intros Ht. unfold reconnectAsync. repeat case_match; cbn [fst]; try done; by apply MarkDialResult_ok. Qed.
Lemma checkPeers_ok now connected targets t : table_ok t -> table_ok (checkPeers now connected targets t).1.
Proof.
  unfold checkPeers. generalize (@nil AddrInfo). revert t. induction targets as [|[pid e] l IH]; intros t d Ht; [done|]. cbn [foldl].
  unfold check_one at 2. cbn [fst snd]. destruct (connected pid).
  - apply IH, table_ok_alter; [done|]. intros e' (? & ? & ?). entry_tac.
  - pose proof (reconnect_ok now pid (en_addrInfo e) (en_relayAddrs e) (pi_Reachability (en_info e)) t Ht) as Hr.
    destruct (reconnectAsync _ _ _ _ _ _) as [t' o]. by apply IH.
Qed.

(** what happens to a table *)
Inductive pex_event :=
  | EvAddPeer (now : Z) (ai : AddrInfo)
  | EvAddPeerWithReachability (now : Z) (ai : AddrInfo) (reach : Z) (relay : list bytes)
  | EvSetReachability (pid : bytes) (reach : Z)
  | EvMarkDialResult (now : Z) (pid : bytes) (ok : bool)
  | EvConnected (now : Z) (ai : AddrInfo)
  | EvDisconnected (now : Z) (pid : bytes) (still_connected : bool)
  | EvCheckPeers (now : Z) (connected : bytes -> bool) (targets : list (bytes * entry))
  | EvStream (now : Z) (remote : AddrInfo) (r : Reader)
  | EvReply (now : Z) (r : Reader).
Definition pex_do (t : Table) (ev : pex_event) : Table :=
  match ev with
  | EvAddPeer now ai => AddPeer me now ai t
  | EvAddPeerWithReachability now ai reach relay => AddPeerWithReachability me now ai reach relay t
  | EvSetReachability pid reach => SetReachability pid reach t
  | EvMarkDialResult now pid ok => MarkDialResult now pid ok t
  | EvConnected now ai => Connected me now ai t
  | EvDisconnected now pid still => (Disconnected now pid still t).1
  | EvCheckPeers now connected targets => (checkPeers now connected targets t).1
  | EvStream now remote r => (handleStream me now remote r t).1.1
  | EvReply now r => match exchange_reply me now r t with Ok (t, _) => t | Err _ => t end
  end.

(** C38: from whatever was on disk and whatever happens, the table holds at most 256 peers, never
    the host itself; each entry is filed under the ID it describes, and has failed at most
    once since it last succeeded. *)
Theorem table_invariant now data events : table_ok (foldl pex_do (load me now data) events).
Proof.
  assert (table_ok (load me now data)) as Ht.
  { assert (table_ok ∅) as Hempty by (split_and!; [rewrite map_size_empty; unfold maxPeers; lia|done|done]).
    unfold load. destruct data as [data|]; [|done]. destruct (unmarshal _) as [msg|]; [|done].
    revert Hempty. generalize (∅ : Table). induction (pm_Peers msg) as [|i l IH]; intros t Ht; [done|]. cbn [foldl]. apply IH.
    unfold load_one. destruct (decodePeerInfo i) as [ai|]; [|done]. apply table_ok_alter; [by apply upsert_ok|]. intros e (? & ? & ?). entry_tac. }
  revert Ht. generalize (load me now data). induction events as [|ev events IH]; intros t Ht; [done|]. cbn [foldl]. apply IH. clear IH.
  destruct ev; cbn [pex_do].
  - unfold AddPeer. case_bool_decide; [done|by apply upsert_ok].
  - unfold AddPeerWithReachability. case_bool_decide; [done|]. apply table_ok_alter; [by apply upsert_ok|].
    intros e (? & ? & ?). entry_tac || (destruct (_ =? _); entry_tac).
  - apply table_ok_alter; [done|]. intros e (? & ? & ?). entry_tac.
  - by apply MarkDialResult_ok.
  - by apply Connected_ok.
  - unfold Disconnected. destruct still_connected; [done|]. destruct (t !! pid) as [e|]; [|done]. by apply reconnect_ok.
  - by apply checkPeers_ok.
  - assert (table_ok (AddPeer me now0 remote t)) as Ha by (unfold AddPeer; case_bool_decide; [done|by apply upsert_ok]).
    unfold handleStream. destruct (readMsg r); [|done]. destruct (unmarshal _) as [m|]; [|done].
    pose proof (merge_ok now0 (pm_Peers m) now0 _ Ha) as Hm. destruct (mergeFromMessage _ _ _ _ _) as [t' d]. by destruct (marshal _).
  - unfold exchange_reply. destruct (readMsg r); [|done]. destruct (wrap _ _) as [m|]; [|done]. cbn [mbind result_bind].
    pose proof (merge_ok now0 (pm_Peers m) now0 _ Ht) as Hm. by destruct (mergeFromMessage _ _ _ _ _) as [t' d].
Qed.
End table_facts.

(** ** Properties: received records *)
Section merge_facts.
Context `{PeerText, PeerKeys, Proto PEXMessage}.
Implicit Types (me : self) (t : Table) (i j : PeerInfo).

(** [i] is a record that the peer [id] signed with its key, not long ago *)
Definition authentic (now : Z) i (id : bytes) : Prop :=
  peer_Decode (pi_PeerId i) = Ok id /\ pi_Signature i ≠ [] /\
  (exists k, UnmarshalPublicKey (pi_PubKey i) = Ok k /\ IDFromPublicKey k = Ok id /\
     key_Verify k (CanonicalPeerInfoBytes i) (pi_Signature i) = Ok true) /\
  now - freshnessWindow <= pi_Seq i <= now + clockSkew.
(** the entry [e] of [id] is what the record [i] says *)
Definition recorded i (seen : Z) (id : bytes) (e : entry) : Prop :=
  en_addrInfo e = mkAddrInfo id (good_addrs (pi_Addrs i)) /\ en_relayAddrs e = good_addrs (pi_RelayAddrs i) /\
  pi_Addrs (en_info e) = addrsToStrings (good_addrs (pi_Addrs i)) /\
  pi_LastSeen (en_info e) = seen /\ pi_Reachability (en_info e) = pi_Reachability i /\ pi_LastDialSuccess (en_info e) = pi_LastDialSuccess i /\
  pi_Signature (en_info e) = pi_Signature i /\ pi_PubKey (en_info e) = pi_PubKey i /\ pi_Seq (en_info e) = pi_Seq i.
Definition dials_for i (id : bytes) (d : AddrInfo) : Prop :=
  ai_ID d = id /\ ai_Addrs d ≠ [] /\
  ((pi_Reachability i = PUBLIC \/ pi_Reachability i = UNKNOWN) /\ ai_Addrs d = good_addrs (pi_Addrs i) \/
   pi_Reachability i = RELAY_ONLY /\ ai_Addrs d = good_addrs (pi_RelayAddrs i)).

Ltac nope := split; [done|intros (Hpk & ? & ? & ? & (? & ? & ? & ?) & ?); congruence].
Lemma verified now i : 0 <= now < 2 ^ 62 ->
  verifyPeerInfoSignature now i = Ok tt <-> pi_PubKey i ≠ [] /\ exists id, authentic now i id.
Proof.
  intros Hnow. unfold verifyPeerInfoSignature, authentic. rewrite !i64_small by (unfold clockSkew, freshnessWindow; lia).
  case_bool_decide as Hs; [nope|]. case_bool_decide as Hp; [nope|].
  destruct (peer_Decode (pi_PeerId i)) as [pid|]; [|nope].
  destruct (UnmarshalPublicKey (pi_PubKey i)) as [k|]; [|nope].
  cbn. destruct (IDFromPublicKey k) as [d|] eqn:Ed; [|nope].
  cbn. case_bool_decide as Hd; cbn; [subst d|nope].
  destruct (key_Verify k _ _) as [[]|] eqn:Ev; cbn; [|nope..].
  destruct (Z.ltb_spec (now + clockSkew) (pi_Seq i)); [split; [done|]; intros (_ & ? & _ & _ & _ & ?); lia|].
  destruct (Z.ltb_spec (pi_Seq i) (now - freshnessWindow)); [split; [done|]; intros (_ & ? & _ & _ & _ & ?); lia|].
  split; [|done]. intros _. split; [done|]. exists pid. split_and!; [done|done|by exists k|lia|lia].
Qed.
Lemma dialFor_spec i id relay d : relay = good_addrs (pi_RelayAddrs i) ->
  dialFor i (mkAddrInfo id (good_addrs (pi_Addrs i))) relay = Some d -> dials_for i id d.
Proof.
  intros -> Hd. unfold dialFor in Hd. unfold dials_for. destruct (Z.eqb_spec (pi_Reachability i) RELAY_ONLY) as [Hr|].
  - case_bool_decide; [done|]. injection Hd as <-. cbn. split_and!; [done|done|by right].
  - destruct (Z.eqb_spec (pi_Reachability i) PUBLIC); [|destruct (Z.eqb_spec (pi_Reachability i) UNKNOWN); [|done]]; cbn in Hd;
      (case_bool_decide; [done|]; injection Hd as <-; cbn; split_and!; [done|done|left; split; [tauto|done]]).
Qed.
Lemma upsert_new me id addrs relay seen keep t : t !! id = None -> id ≠ [] -> id ≠ self_ID me ->
  upsertLocked me (mkAddrInfo id addrs) relay seen keep t =
  <[id := mkEntry (mkPeerInfo (peer_String id) (addrsToStrings addrs) (addrsToStrings relay) seen UNKNOWN true [] [] 0) (mkAddrInfo id addrs) relay 0]>
    (if (maxPeers <=? size t)%nat then evictOldestLocked t else t).
Proof. intros E Hne Hs. unfold upsertLocked. cbn. by rewrite !bool_decide_eq_false_2, E. Qed.
Lemma evict_lookup t id e : evictOldestLocked t !! id = Some e -> t !! id = Some e.
Proof. unfold evictOldestLocked. destruct (foldl older None _) as [[k ?]|]; [|done]. rewrite lookup_delete_Some. tauto. Qed.

(** what one record does *)
Lemma merge_one_spec me now seen i t dials t' dials' : 0 <= now < 2 ^ 62 -> merge_one me now seen i (t, dials) = (t', dials') ->
  (t' = t /\ dials' = dials) \/
  exists id, authentic now i id /\ (dials' = dials \/ exists d, dials' = dials ++ [d] /\ dials_for i id d) /\
    (t' = t \/ exists t1 e', t' = <[id := e']> t1 /\ recorded i seen id e' /\ (forall id2 e2, t1 !! id2 = Some e2 -> t !! id2 = Some e2) /\
       ((exists e, t !! id = Some e /\ pi_Seq (en_info e) < pi_Seq i /\ t1 = t) \/
        (t !! id = None /\ id ≠ [] /\ id ≠ self_ID me /\ ((size t < maxPeers)%nat -> t1 = t)))).
Proof.
  intros Hnow. unfold merge_one. destruct (verifyPeerInfoSignature now i) as [[]|] eqn:Ev; [|intros [= <- <-]; by left].
  apply verified in Ev as (_ & id & Ha); [|done]. pose proof Ha as (Hd & _ & _ & _). unfold decodePeerInfo. rewrite Hd.
  case_bool_decide; [intros [= <- <-]; by left|]. cbn [ai_ID ai_Addrs]. destruct (t !! id) as [cur|] eqn:E.
  - destruct (Z.leb_spec (pi_Seq i) (pi_Seq (en_info cur))); [intros [= <- <-]; by left|]. intros [= <- <-]. right. exists id.
    split_and!; [done|by left|]. right. exists t. eexists. split_and!; [done| |done|left; by exists cur]. by split_and!.
  - intros [= <- <-]. right. exists id. split_and!; [done| |].
    + destruct (dialFor i _ _) as [d|] eqn:Ed; [right|left; by rewrite app_nil_r]. exists d. split; [done|]. by eapply dialFor_spec.
    + destruct (decide (id = [] \/ id = self_ID me)) as [Hs|Hs].
      * left. unfold upsertLocked. cbn [ai_ID]. replace (_ || _) with true by (symmetry; rewrite orb_true_iff, !bool_decide_eq_true; done).
        apply map_eq. intros id2. destruct (decide (id2 = id)) as [->|]; [by rewrite lookup_alter_eq, E|by rewrite lookup_alter_ne].
      * right. rewrite upsert_new by naive_solver. eexists _, _. split_and!; [by rewrite alter_insert_eq|by split_and!| |].
        { intros id2 e2. destruct (_ <=? _)%nat; [apply evict_lookup|done]. }
        right. split_and!; [done|naive_solver|naive_solver|]. intros Hsz. by rewrite (proj2 (Nat.leb_gt _ _)).
Qed.

(** one record keeps what it does not replace by something newer, as long as there is room *)
Lemma merge_one_keeps me now seen i t dials : 0 <= now < 2 ^ 62 -> (size t < maxPeers)%nat ->
  let t' := (merge_one me now seen i (t, dials)).1 in
  (size t' <= S (size t))%nat /\ forall id e, t !! id = Some e -> exists e', t' !! id = Some e' /\ (e' = e \/ pi_Seq (en_info e) < pi_Seq (en_info e')).
Proof.
  intros Hnow Hroom. destruct (merge_one me now seen i (t, dials)) as [t' dials'] eqn:E. cbn [fst].
  apply merge_one_spec in E as [[-> ->]|(id0 & _ & _ & [->|(t1 & e0 & -> & Hrec & _ & Hc)])]; [| | |exact Hnow].
  1-2: split; [lia|]; intros id e He; exists e; split; [done|by left].
  assert (t1 = t) as -> by (destruct Hc as [(? & _ & _ & ?)|(_ & _ & _ & Hf)]; [done|by apply Hf]).
  split; [destruct (t !! id0) eqn:Et; [rewrite map_size_insert_Some by (by eexists); lia|by rewrite map_size_insert_None]|].
  intros id e He. destruct (decide (id = id0)) as [->|]; [|exists e; split; [by rewrite lookup_insert_ne|by left]].
  rewrite lookup_insert_eq. exists e0. split; [done|right].
  destruct Hc as [(cur & Ec & Hlt & _)|(En & _)]; [|congruence]. replace e with cur by congruence.
  destruct Hrec as (_ & _ & _ & _ & _ & _ & _ & _ & ->). done.
Qed.
Lemma merge_keeps me now seen l t dials : 0 <= now < 2 ^ 62 -> (size t + length l <= maxPeers)%nat ->
  forall id e, t !! id = Some e -> exists e', (foldl (λ st i, merge_one me now seen i st) (t, dials) l).1 !! id = Some e' /\
    (e' = e \/ pi_Seq (en_info e) < pi_Seq (en_info e')).
Proof.
  intros Hnow. revert t dials. induction l as [|i l IH]; intros t dials Hsz id e He; [exists e; split; [done|by left]|].
  cbn [foldl length] in *. pose proof (merge_one_keeps me now seen i t dials Hnow ltac:(lia)) as [Hs Hk].
  destruct (merge_one me now seen i (t, dials)) as [t1 d1]. cbn [fst] in *. destruct (Hk _ _ He) as (e1 & He1 & Hor).
  destruct (IH t1 d1 ltac:(lia) _ _ He1) as (e2 & He2 & Hor2). exists e2. split; [done|].
  destruct Hor as [->|], Hor2 as [->|]; auto. right. lia.
Qed.
Lemma merge_comes_from me now seen l t dials : 0 <= now < 2 ^ 62 ->
  forall st, foldl (λ st i, merge_one me now seen i st) (t, dials) l = st ->
  (forall id e', st.1 !! id = Some e' -> t !! id = Some e' \/ exists i, i ∈ l /\ authentic now i id /\ recorded i seen id e') /\
  (forall d, d ∈ st.2 -> d ∈ dials \/ exists i, i ∈ l /\ authentic now i (ai_ID d) /\ dials_for i (ai_ID d) d).
Proof.
  intros Hnow st <-. revert t dials. induction l as [|i l IH]; intros t dials; [split; intros; by left|].
  cbn [foldl]. destruct (merge_one me now seen i (t, dials)) as [t1 d1] eqn:E. destruct (IH t1 d1) as [IH1 IH2].
  apply merge_one_spec in E; [|done]. split.
  - intros id e' He. apply IH1 in He as [He|(j & Hj & Hx)]; [|right; exists j; split; [by right|done]].
    destruct E as [[-> _]|(id0 & Ha & _ & [->|(t0 & e0 & -> & Hrec & Hsub & _)])]; [by left|by left|].
    destruct (decide (id = id0)) as [->|]; [rewrite lookup_insert_eq in He|rewrite lookup_insert_ne in He by done].
    + injection He as <-. right. exists i. split; [left|done].
    + left. by apply Hsub.
  - intros d Hd. apply IH2 in Hd as [Hd|(j & Hj & Hx)]; [|right; exists j; split; [by right|done]].
    destruct E as [[_ ->]|(id0 & Ha & [->|(d0 & -> & Hdf)] & _)]; [by left|by left|].
    apply elem_of_app in Hd as [Hd|Hd%list_elem_of_singleton]; [by left|]. subst d0. right. exists i.
    destruct Hdf as (<- & Hrest). split_and!; [left|done|done|apply Hrest..].
Qed.

(** C37: a received message can change the table and start dials only by records that the peers they are about signed
    with the keys their IDs stand for, no older than two hours and at most five minutes ahead: the
    entry of a peer is afterwards what it was, or exactly what such a record says.  When the table has room for
    the whole message - its size and the number of records add up to at most 256 - no entry is lost, and none is
    replaced by a record that is not newer, so a message that is replayed changes nothing.  (On a table that
    overflows a peer may be evicted and come back by an older record of the same message.) *)
Theorem merge_authentic me now seen l t : 0 <= now < 2 ^ 62 ->
  let '(t', dials) := mergeFromMessage me now l seen t in
  (forall id e', t' !! id = Some e' -> t !! id = Some e' \/ exists i, i ∈ l /\ authentic now i id /\ recorded i seen id e') /\
  (forall d, d ∈ dials -> exists i, i ∈ l /\ authentic now i (ai_ID d) /\ dials_for i (ai_ID d) d) /\
  ((size t + length l <= maxPeers)%nat -> forall id e, t !! id = Some e -> exists e', t' !! id = Some e' /\
     (e' = e \/ pi_Seq (en_info e) < pi_Seq (en_info e'))).
Proof.
  intros Hnow. unfold mergeFromMessage. destruct (merge_comes_from me now seen l t [] Hnow _ eq_refl) as [Htab Hdial].
  pose proof (merge_keeps me now seen l t [] Hnow) as Hkeep. destruct (foldl _ _ _) as [t' dials]. split_and!; [done| |done].
  intros d Hd. by destruct (Hdial d Hd) as [?%not_elem_of_nil|].
Qed.

(** a record that verifies and is newer than what is known gets in *)
Lemma merge_one_takes me now seen i t dials id : 0 <= now < 2 ^ 62 -> verifyPeerInfoSignature now i = Ok tt -> pi_PeerId i ≠ [] ->
  peer_Decode (pi_PeerId i) = Ok id -> id ≠ [] -> id ≠ self_ID me ->
  exists e, (merge_one me now seen i (t, dials)).1 !! id = Some e /\ pi_Seq i <= pi_Seq (en_info e).
Proof.
  intros Hnow Hv Hp Hd Hne Hs. unfold merge_one. rewrite Hv. unfold decodePeerInfo. rewrite bool_decide_eq_false_2, Hd by done.
  cbn [ai_ID]. destruct (t !! id) as [cur|] eqn:E.
  - destruct (Z.leb_spec (pi_Seq i) (pi_Seq (en_info cur))); [by exists cur|]. cbn [fst]. rewrite lookup_insert_eq. eexists. split; [done|cbn; lia].
  - cbn [fst]. rewrite upsert_new by done. rewrite alter_insert_eq, lookup_insert_eq. eexists. split; [done|cbn; lia].
Qed.
Lemma merge_takes me now seen l i t id : 0 <= now < 2 ^ 62 -> (size t + length l <= maxPeers)%nat -> i ∈ l ->
  verifyPeerInfoSignature now i = Ok tt -> pi_PeerId i ≠ [] -> peer_Decode (pi_PeerId i) = Ok id -> id ≠ [] -> id ≠ self_ID me ->
  exists e, (mergeFromMessage me now l seen t).1 !! id = Some e /\ pi_Seq i <= pi_Seq (en_info e).
Proof.
  intros Hnow Hroom Hi Hv Hp Hd Hne Hs. unfold mergeFromMessage. revert Hroom. generalize (@nil AddrInfo). revert t.
  induction l as [|j l IH]; intros t dials Hroom; [by apply not_elem_of_nil in Hi|]. cbn [foldl length] in *.
  pose proof (merge_one_keeps me now seen j t dials Hnow ltac:(lia)) as [Hsz _].
  apply elem_of_cons in Hi as [<-|Hi].
  - destruct (merge_one_takes me now seen i t dials id Hnow Hv Hp Hd Hne Hs) as (e & He & Hle).
    destruct (merge_one me now seen i (t, dials)) as [t1 d1]. cbn [fst] in *.
    destruct (merge_keeps me now seen l t1 d1 Hnow ltac:(lia) _ _ He) as (e2 & He2 & Hor). exists e2. split; [done|].
    destruct Hor as [->|]; lia.
  - destruct (merge_one me now seen j (t, dials)) as [t1 d1]. cbn [fst] in *. apply IH; [done|lia].
Qed.

(** ** Properties: gossip *)
#[local] Instance id_le_total : Total id_le.
Proof. intros i j. apply bytes_leb_total. Qed.
#[local] Instance id_le_trans : Transitive id_le.
Proof. intros i j k. apply bytes_leb_trans. Qed.
Lemma shared_spec me now i j : shared me now i = Some j <->
  pi_PeerId i ≠ peer_String (self_ID me) /\ pi_Signature i ≠ [] /\ now - freshnessWindow <= pi_LastSeen i /\ pi_LastDialSuccess i = true /\
  ((pi_Reachability i = PUBLIC \/ pi_Reachability i = PRIVATE) /\ j = i \/
   pi_Reachability i = RELAY_ONLY /\ j = set_addrs [] i \/
   pi_Reachability i = UNKNOWN /\ j = set_relays [] (set_addrs [] i)).
Proof.
  unfold shared. case_bool_decide; [naive_solver|]. case_bool_decide; [naive_solver|].
  destruct (Z.ltb_spec (pi_LastSeen i) (now - freshnessWindow)); [split; [done|intros; lia]|].
  destruct (pi_LastDialSuccess i); cbn [negb]; [|naive_solver].
  unfold PUBLIC, PRIVATE, RELAY_ONLY, UNKNOWN.
  destruct (Z.eqb_spec (pi_Reachability i) 1); [|destruct (Z.eqb_spec (pi_Reachability i) 3); [|destruct (Z.eqb_spec (pi_Reachability i) 2); [|destruct (Z.eqb_spec (pi_Reachability i) 0)]]];
    (split; [intros Hx; try done; injection Hx as <-; split_and!; try done; tauto|]); intros (_ & _ & _ & _ & [[[?|?] ->]|[[? ->]|[? ->]]]); done || lia.
Qed.
Lemma shared_PeerId me now i j : shared me now i = Some j -> pi_PeerId j = pi_PeerId i /\ pi_PeerId i ≠ peer_String (self_ID me).
Proof. intros (? & _ & _ & _ & [[_ ->]|[[_ ->]|[_ ->]]])%shared_spec; done. Qed.
Lemma self_PeerId me now i : buildSelfPeerInfo me now = Ok i -> pi_PeerId i = peer_String (self_ID me).
Proof.
  unfold buildSelfPeerInfo. destruct (self_PubKey me) as [k|]; [|done]. destruct (MarshalPublicKey k); cbn; [|done].
  destruct (self_Sign me _); cbn; [|done]. by intros [= <-].
Qed.
Lemma elem_of_infos i t : i ∈ infos t <-> exists id e, t !! id = Some e /\ en_info e = i.
Proof.
  unfold infos. rewrite list_elem_of_fmap. split.
  - intros ([id e] & -> & Hin%elem_of_map_to_list). by exists id, e.
  - intros (id & e & He & <-). exists (id, e). split; [done|by apply elem_of_map_to_list].
Qed.
Lemma infos_NoDup me t : table_ok me t -> (forall a b, is_Some (t !! a) -> is_Some (t !! b) -> peer_String a = peer_String b -> a = b) ->
  NoDup (map pi_PeerId (infos t)).
Proof.
  intros (_ & _ & He) Hinj. unfold infos. rewrite map_map.
  rewrite (map_ext_in _ (λ kv, peer_String kv.1)); [|intros [id e] Hin%list_elem_of_In%elem_of_map_to_list; cbn; by destruct (He _ _ Hin) as (_ & _ & -> & _)].
  apply NoDup_fmap_2_strong; [|apply NoDup_map_to_list]. intros [a ea] [b eb] Ha%elem_of_map_to_list Hb%elem_of_map_to_list Hs.
  cbn in Hs. apply Hinj in Hs; [|by eexists..]. subst b. f_equal. congruence.
Qed.
Lemma omap_shared_NoDup me now l : NoDup (map pi_PeerId l) -> NoDup (map pi_PeerId (omap (shared me now) l)).
Proof.
  induction l as [|i l IH]; cbn; [done|]. intros [Hn Hd]%NoDup_cons. destruct (shared me now i) as [j|] eqn:E; [|by apply IH].
  cbn. apply NoDup_cons. split; [|by apply IH]. apply shared_PeerId in E as [-> _]. intros (k & Hk & Hin)%list_elem_of_fmap.
  apply list_elem_of_omap in Hin as (x & Hx & Hs). apply Hn. rewrite Hk. apply shared_PeerId in Hs as [-> _]. by apply list_elem_of_fmap_2.
Qed.

(** what a host gossips, in the order of peer IDs and one record per peer: its own signed record, and of every other
    peer it holds a signed record of, that was seen in the last two hours and whose last dial succeeded, the
    record - without the direct addresses if it is behind a relay, without any address if its
    reachability is unknown. *)
Theorem filter_exact me now t : table_ok me t ->
  (forall a b, is_Some (t !! a) -> is_Some (t !! b) -> peer_String a = peer_String b -> a = b) ->
  Sorted id_le (filterForGossip me now t) /\ NoDup (map pi_PeerId (filterForGossip me now t)) /\
  forall j, j ∈ filterForGossip me now t <->
    buildSelfPeerInfo me now = Ok j \/
    exists id e, t !! id = Some e /\ peer_String id ≠ peer_String (self_ID me) /\ pi_Signature (en_info e) ≠ [] /\
      now - freshnessWindow <= pi_LastSeen (en_info e) /\ pi_LastDialSuccess (en_info e) = true /\
      ((pi_Reachability (en_info e) = PUBLIC \/ pi_Reachability (en_info e) = PRIVATE) /\ j = en_info e \/
       pi_Reachability (en_info e) = RELAY_ONLY /\ j = set_addrs [] (en_info e) \/
       pi_Reachability (en_info e) = UNKNOWN /\ j = set_relays [] (set_addrs [] (en_info e))).
Proof.
  intros Ht Hinj. unfold filterForGossip. split_and!.
  - apply Sorted_merge_sort, _.
  - rewrite merge_sort_Permutation, map_app. apply NoDup_app. split_and!.
    + destruct (buildSelfPeerInfo me now); repeat constructor. set_solver.
    + intros x Hx (j & -> & Hj)%list_elem_of_fmap. apply list_elem_of_omap in Hj as (i & _ & [Hi1 Hi2]%shared_PeerId).
      destruct (buildSelfPeerInfo me now) as [i0|] eqn:E; [|by apply not_elem_of_nil in Hx]. apply self_PeerId in E.
      apply list_elem_of_singleton in Hx. congruence.
    + apply omap_shared_NoDup. by eapply infos_NoDup.
  - intros j. rewrite merge_sort_Permutation, elem_of_app, list_elem_of_omap. f_equiv.
    + destruct (buildSelfPeerInfo me now); [rewrite list_elem_of_singleton; split; [by intros ->|by intros [= ->]]|split; [by intros ?%not_elem_of_nil|done]].
    + destruct Ht as (_ & _ & He). split.
      * intros (i & (id & e & Hl & <-)%elem_of_infos & Hs%shared_spec). destruct (He _ _ Hl) as (_ & _ & Hp & _). exists id, e. by rewrite <-Hp.
      * intros (id & e & Hl & Hs). exists (en_info e). split; [apply elem_of_infos; by exists id, e|]. apply shared_spec.
        destruct (He _ _ Hl) as (_ & _ & -> & _). exact Hs.
Qed.

(** ** Properties: what a signature covers *)
Definition below3 (b : byte) : Prop := b2z b < 3.
(** text in which the separators do not occur *)
Definition clean (s : bytes) : Prop := Forall (λ b, ~ below3 b) s.
Definition clean_info i : Prop :=
  clean (pi_PeerId i) /\ Forall clean (pi_Addrs i) /\ Forall clean (pi_RelayAddrs i) /\
  0 <= pi_Reachability i < 2 ^ 32 /\ 0 <= pi_Seq i < 2 ^ 64.
Definition terminated (l : list bytes) : bytes := concat (map (λ a, a ++ [Byte.x00]) l).
Lemma clean_split x s1 s2 r1 r2 : below3 x -> clean s1 -> clean s2 -> s1 ++ x :: r1 = s2 ++ x :: r2 -> s1 = s2 /\ r1 = r2.
Proof.
  intros Hx C1. revert s2. induction C1 as [|b s1 Hb _ IH]; intros s2 C2; destruct C2 as [|c s2 Hc C2]; cbn.
  - by intros [= ->].
  - by intros [= <- _].
  - by intros [= -> _].
  - intros [= -> E]. destruct (IH _ C2 E) as [-> ->]. done.
Qed.
Lemma terminated_split x l1 l2 r1 r2 : below3 x -> x ≠ Byte.x00 -> Forall clean l1 -> Forall clean l2 ->
  terminated l1 ++ x :: r1 = terminated l2 ++ x :: r2 -> l1 = l2 /\ r1 = r2.
Proof.
  intros Hx Hx0. assert (below3 Byte.x00) as H00 by (unfold below3; cbn; lia).
  assert (forall s l r r', clean s -> x :: r = terminated (s :: l) ++ r' -> False) as Hno.
  { intros s l r r' Cs. unfold terminated. cbn. destruct Cs as [|b s Hb _]; cbn; intros [= -> _]; done. }
  intros C1. revert l2. induction C1 as [|s1 l1 Cs1 _ IH]; intros l2 C2; destruct C2 as [|s2 l2 Cs2 C2].
  - cbn. by intros [= ->].
  - intros E. by destruct (Hno _ _ _ _ Cs2 E).
  - intros E. symmetry in E. by destruct (Hno _ _ _ _ Cs1 E).
  - unfold terminated. cbn. rewrite <-!app_assoc. cbn. intros E. apply clean_split in E as [-> E]; [|done..].
    destruct (IH _ C2 E) as [-> ->]. done.
Qed.

(** a signature binds: two records whose texts hold none of the three separator bytes have the same signed bytes exactly when
    they agree on the peer, both lists of addresses, the reachability and the sequence number; when the
    record was seen and whether its dial succeeded is not signed. *)
Theorem canonical_binding i j : clean_info i -> clean_info j ->
  CanonicalPeerInfoBytes i = CanonicalPeerInfoBytes j <->
  pi_PeerId i = pi_PeerId j /\ pi_Addrs i = pi_Addrs j /\ pi_RelayAddrs i = pi_RelayAddrs j /\
  pi_Reachability i = pi_Reachability j /\ pi_Seq i = pi_Seq j.
Proof.
  intros (Cp & Ca & Cr & Hr & Hs) (Cp' & Ca' & Cr' & Hr' & Hs'). split.
  - unfold CanonicalPeerInfoBytes. cbn [app]. fold (terminated (pi_Addrs i)) (terminated (pi_RelayAddrs i)) (terminated (pi_Addrs j)) (terminated (pi_RelayAddrs j)).
    intros [-> E]%clean_split; [|by unfold below3; cbn; lia|done|done]. apply terminated_split in E as [-> E]; [|by unfold below3; cbn; lia|done..].
    apply terminated_split in E as [-> E]; [|by unfold below3; cbn; lia|done..].
    unfold int32_be in E. apply app_inj_1 in E as [E1 E2]; [|by rewrite !be_split_length].
    apply (f_equal be_combine) in E1, E2. rewrite !be_combine_split in E1, E2. unfold u32, u64 in *.
    change (256 ^ Z.of_nat 4) with (2 ^ 32) in E1. change (256 ^ Z.of_nat 8) with (2 ^ 64) in E2.
    rewrite !Z.mod_mod, !Z.mod_small in E1, E2 by lia. done.
  - intros (Ep & Ea & Er & Eq & Es). unfold CanonicalPeerInfoBytes. by rewrite Ep, Ea, Er, Eq, Es.
Qed.
Lemma canonical_binding_witness : let i := mkPeerInfo (lit "C") [lit "/a"; lit "/b"] [] 5 PUBLIC true [] [] 7 in
  CanonicalPeerInfoBytes i ≠ CanonicalPeerInfoBytes (set_addrs [lit "/a/b"] i) /\
  CanonicalPeerInfoBytes i = CanonicalPeerInfoBytes (set_seen 9 (set_dial false i)).
Proof.
  assert (forall a, Forall clean a -> clean_info (mkPeerInfo (lit "C") a [] 5 PUBLIC true [] [] 7)) as Hc.
  { intros a Ha. split_and!; try (unfold PUBLIC; cbn; lia); [|exact Ha|constructor]. repeat constructor; unfold below3; cbn; lia. }
  assert (clean_info (mkPeerInfo (lit "C") [lit "/a"; lit "/b"] [] 5 PUBLIC true [] [] 7)) as Hi by (apply Hc; repeat constructor; unfold below3; cbn; lia).
  split; [|reflexivity].
  intros E. apply (canonical_binding _ _ Hi (Hc [lit "/a/b"] ltac:(repeat constructor; unfold below3; cbn; lia))) in E. destruct E as (_ & E & _). discriminate.
Defined.
(** nothing keeps the separators out: whoever forwards a record can join two addresses to one that is no address, under the same signature *)
Example joined_addresses : let i := mkPeerInfo (lit "C") [lit "/a"; lit "/b"] [] 5 PUBLIC true [] [] 7 in
  CanonicalPeerInfoBytes i = CanonicalPeerInfoBytes (set_addrs [lit "/a" ++ [Byte.x00] ++ lit "/b"] i).
Proof. reflexivity. Qed.

(** ** Properties: framing *)
(** protobuf's encoding: the field [peers] has number 1 and is length-delimited *)
Definition peers_tag : Prop := forall l b, l ≠ [] -> marshal (mkPEXMessage l) = Ok b -> exists rest, b = Byte.x0a :: rest.
Lemma readMsg_unframed r b rest r' : b = Byte.x0a :: rest -> (4 <= length b)%nat -> Read r 4 = ((take 4 b, None), r') -> readMsg r = None.
Proof.
  intros -> Hlen HR. unfold readMsg. rewrite HR. destruct rest as [|b1 [|b2 [|b3 rest]]]; cbn in Hlen; try lia.
  cbn [take]. rewrite ?take_0, bool_decide_eq_false_2 by (by intros []). cbn [orb]. replace (zlen _ <? 4) with false by done.
  unfold be_combine, maxMsg. cbn [foldl]. change (b2z Byte.x0a) with 10. pose proof (b2z_bound b1). pose proof (b2z_bound b2). pose proof (b2z_bound b3).
  match goal with |- context [_ <? ?l] => assert (2 ^ 20 < l) as Hbig by lia end.
  apply Z.ltb_lt in Hbig. rewrite Hbig. by rewrite orb_true_r.
Qed.

(** messages are written without the length prefix that [readMsg] takes their first four bytes for: whatever records
    a host has to send, a receiver that gets the first bytes in one piece drops the message, merges nothing
    and does not answer, and an answer sent that way is an empty reply. *)
Theorem gossip_never_arrives A B now now' t t' remote b r r' : peers_tag -> filterForGossip A now t ≠ [] ->
  exchange_sends A now t = Ok b -> (4 <= length b)%nat -> Read r 4 = ((take 4 b, None), r') ->
  handleStream B now' remote r t' = (AddPeer B now' remote t', [], None) /\
  exchange_reply B now' r t' = Err (New "pex: empty reply").
Proof.
  intros Htag Hne Hs Hlen HR. unfold exchange_sends, wrap in Hs. destruct (marshal _) as [b'|] eqn:Em; [|done]. injection Hs as ->.
  destruct (Htag _ _ Hne Em) as [rest Hb]. pose proof (readMsg_unframed r b rest r' Hb Hlen HR) as Hnone.
  unfold handleStream, exchange_reply. rewrite Hnone. done.
Qed.
End merge_facts.

(** ** Examples: keys are their IDs, a signature is the key before the message *)
#[local] Existing Instances toy_text.
#[local] Instance toy_keys : PeerKeys := {|
  key := bytes; UnmarshalPublicKey := Ok; MarshalPublicKey := Ok; IDFromPublicKey := Ok;
  key_Verify k m s := Ok (bool_decide (s = k ++ m)) |}.
#[local] Instance PeerInfo_countable : Countable PeerInfo.
Proof.
  refine (inj_countable' (λ i, (pi_PeerId i, pi_Addrs i, pi_RelayAddrs i, pi_LastSeen i, pi_Reachability i, pi_LastDialSuccess i, pi_Signature i, pi_PubKey i, pi_Seq i))
    (λ '(a, b, c, d, e, f, g, h, j), mkPeerInfo a b c d e f g h j) _). by intros [].
Defined.
(** records behind the tag of their field *)
#[local] Instance toy_pex : Proto PEXMessage := {|
  marshal m := if bool_decide (pm_Peers m = []) then Ok [] else Ok (Byte.x0a :: ToyWire.pos_bytes (encode (pm_Peers m)));
  unmarshal bs := match bs with
    | [] => Ok (mkPEXMessage [])
    | _ :: bs => match ToyWire.bytes_pos bs ≫= decode with Some l => Ok (mkPEXMessage l) | None => Err (New "proto") end
    end |}.
Definition demo_self (id : bytes) (addrs : list bytes) : self := mkSelf toy_keys id addrs (Some id) (λ m, Ok (id ++ m)).
Definition demo_C : self := demo_self (lit "C") [lit "/ip4/1.2.3.4"; lit "/ip4/10.0.0.1"].
Definition demo_A : self := demo_self (lit "A") [lit "/ip4/5.6.7.8"].
Definition demo_B : self := demo_self (lit "B") [lit "/relay/p2p-circuit"].
Definition demo_i : PeerInfo := match buildSelfPeerInfo demo_C 10000 with Ok i => i | Err _ => mkPeerInfo [] [] [] 0 0 false [] [] 0 end.
Lemma demo_empty me : table_ok me ∅.
Proof. split_and!; [rewrite map_size_empty; unfold maxPeers; lia|done|done]. Qed.
Lemma merge_authentic_witness : exists e', (mergeFromMessage demo_A 10100 [demo_i] 10100 ∅).1 !! lit "C" = Some e' /\
  exists i, i ∈ [demo_i] /\ authentic 10100 i (lit "C") /\ recorded i 10100 (lit "C") e'.
Proof.
  pose proof (merge_authentic demo_A 10100 10100 [demo_i] ∅ ltac:(lia)) as Hm.
  destruct (mergeFromMessage demo_A 10100 [demo_i] 10100 ∅) as [t' dials] eqn:E. destruct Hm as (Hm & _).
  assert (is_Some (t' !! lit "C")) as [e' He'] by (replace t' with (mergeFromMessage demo_A 10100 [demo_i] 10100 ∅).1 by (by rewrite E); vm_compute; by eexists).
  exists e'. split; [done|]. destruct (Hm _ _ He') as [Hx|Hx]; [by rewrite lookup_empty in Hx|exact Hx].
Defined.
Lemma filter_exact_witness : map pi_PeerId (filterForGossip demo_A 10200 (MarkDialResult 10150 (lit "C") true (mergeFromMessage demo_A 10100 [demo_i] 10100 ∅).1)) = [lit "A"; lit "C"] /\
  NoDup (map pi_PeerId (filterForGossip demo_A 10200 (MarkDialResult 10150 (lit "C") true (mergeFromMessage demo_A 10100 [demo_i] 10100 ∅).1))).
Proof.
  split; [vm_compute; reflexivity|]. refine (proj1 (proj2 (filter_exact demo_A 10200 _ _ _))); [|by intros a b _ _ Hab].
  apply MarkDialResult_ok, merge_ok, demo_empty.
Defined.
Lemma gossip_never_arrives_witness : exists b, exchange_sends demo_A 10200 ∅ = Ok b /\
  handleStream demo_B 10300 (mkAddrInfo (lit "A") []) [(b, None)] ∅ = (AddPeer demo_B 10300 (mkAddrInfo (lit "A") []) ∅, [], None).
Proof.
  destruct (exchange_sends demo_A 10200 ∅) as [b|] eqn:E.
  2: { exfalso. unfold exchange_sends in E. cbn [marshal toy_pex] in E. revert E. case_bool_decide; done. }
  exists b. split; [reflexivity|].
  assert (5 <= length b)%nat as Hlen.
  { assert (match exchange_sends demo_A 10200 ∅ with Ok b => (5 <=? length b)%nat | Err _ => false end = true) as Hl by (vm_compute; reflexivity).
    rewrite E in Hl. by apply Nat.leb_le. }
  refine (proj1 (gossip_never_arrives demo_A demo_B 10200 10300 ∅ ∅ (mkAddrInfo (lit "A") []) b [(b, None)] [(drop 4 b, None)] _ _ E _ _)).
  - intros l b' Hl Hm. cbn in Hm. rewrite bool_decide_eq_false_2 in Hm by done. injection Hm as <-. by eexists.
  - vm_compute. discriminate.
  - lia.
  - unfold Read. rewrite (proj2 (Nat.leb_gt _ _)) by lia. reflexivity.
Defined.
(** once A is connected to C, it holds the address of the connection beside C's signature: B refuses what A forwards *)
Example connection_spoils : let t := (mergeFromMessage demo_A 10100 [demo_i] 10100 ∅).1 in
  let t := Connected demo_A 10150 (mkAddrInfo (lit "C") [lit "/ip4/1.2.3.4"]) t in
  map pi_PeerId (filterForGossip demo_A 10200 t) = [lit "A"; lit "C"] /\
  (mergeFromMessage demo_B 10300 (filterForGossip demo_A 10200 t) 10300 ∅).1 !! lit "C" = None.
Proof. vm_compute. done. Qed.
(** and what it has loaded from disk, it does not forward *)
Example load_forgets : let t := (mergeFromMessage demo_A 10100 [demo_i] 10100 ∅).1 in
  let t := MarkDialResult 10150 (lit "C") true t in
  map pi_PeerId (filterForGossip demo_A 10200 t) = [lit "A"; lit "C"] /\
  map pi_PeerId (filterForGossip demo_A 10200 (load demo_A 10200 (save t))) = [lit "A"].
Proof. vm_compute. done. Qed.
(** the fallback loses what its first read has taken *)
Example fallback_drops : readMsg [(lit "ab", None); (lit "cdef", Some EOF)] = Some (lit "cdef").
Proof. reflexivity. Qed.
