(* ===== verification/Ingest.v ===== *)
(** * Ingestion (src/core/ingest/ingest.go)

    [IngestFile] is the front of the upload paths: chunker, builder, object descriptor and seal, over
    any store with the classes of the block store and [SealStore].  The erasure workers of
    an upload with coding are [erasure_worker]; they take effect when the consumer is done (what they may do
    meanwhile is in AddFile.v).  Progress callbacks are left out.
    [ingest_survives]: what was ingested with a seal is read back after any collection; lemma
    [inline_file_lost]: a file of one chunk is not. *)
From S2P Require Import Prelude Mid GoIO Chunk Wire Blockstore Objects Memstore Bloom Db MemStore Seal Gc.
From S2P Require Import Dag MemNode MemFile FileStores AddFile MemRead MemBuild MemTree Erasure Repair.

Record Options := mkOptions {
  o_Name : bytes; o_Mode : Z; o_ModTime : Z; o_MimeType : bytes; o_Chunker : bytes; o_ChunkSize : Z;
  o_ContentSize : Z; o_WrapDir : bool; o_RawDAG : bool; o_Seal : bool; o_EnableErasure : bool;
}.
Record Result := mkResult { re_MID : MID; re_Size : Z; re_Blocks : Z; re_MimeType : bytes }.

Class SealStore (St : Type) := ss_Seal : MID -> bool -> M St unit.

(** the defaults; [hint] is what the Size or Len of the reader says, zero if it has neither *)
Definition canonical (hint : Z) (o : Options) : Options :=
  mkOptions (o_Name o) (if o_Mode o =? 0 then 420 else o_Mode o) (o_ModTime o)
    (if bool_decide (o_MimeType o = []) && bool_decide (o_Name o ≠ []) then SniffMime (o_Name o) else o_MimeType o)
    (o_Chunker o)
    (if o_ChunkSize o <=? 0 then
       if 0 <? o_ContentSize o then AdaptiveBlockSize (o_ContentSize o)
       else if 0 <? hint then AdaptiveBlockSize hint else DefaultBlockSize
     else o_ChunkSize o)
    (o_ContentSize o) (o_WrapDir o) (o_RawDAG o) (o_Seal o) (o_EnableErasure o).
Definition builder_of (o : Options) : Builder :=
  let b := WithBlockSize (o_ChunkSize o) NewBuilder in
  let b := WithErasure (o_EnableErasure o || o_Seal o) b in
  if bool_decide (o_Chunker o ≠ []) then WithChunker (o_Chunker o) b else b.

Section ingest.
Context `{Multiformats, Protos, ObjectJSON, ReedSolomon} (alg : Z) (F : nat).
Context {St : Type} `{Blockstore St, BatchStore St, MetaStore St, SealStore St}.
Context (sizer : option (MID -> St -> result Z)) (walk_fuel : nat).
Context (pick : FileArgs -> pipe St -> choice) (workers : nat) (shuffle : list (bytes * tree) -> list (bytes * tree)).

(** ** The erasure workers of [AddFile] *)
Definition flushShards (batch : list SBlock) (s : St) : St :=
  if bool_decide (batch = []) then s else (bs_PutBatch batch s).2.
Definition append_shard (st : list SBlock * St) (sh : Shard) : list SBlock * St :=
  let '(batch, s) := st in
  let batch := batch ++ [mkSBlock (sh_ShardMID sh) (sh_Data sh)] in
  if (56 <=? length batch)%nat then ([], flushShards batch s) else (batch, s).
(** one worker over its tasks; [enc] is the encoder it has *)
Fixpoint erasure_worker (ds : list bytes) (enc : option Config) (batch : list SBlock) (s : St) : St :=
  match ds with
  | [] => flushShards batch s
  | d :: ds =>
      let cfg := AdaptiveConfig (zlen d) in
      let enc := if bool_decide (enc = Some cfg) then enc else match NewEncoder cfg with Ok _ => Some cfg | Err _ => enc end in
      match enc, FromBytes alg d with
      | Some c, Ok lm =>
          match Encode alg c d with
          | Ok encoded =>
              let '(batch, s) := foldl append_shard (batch, s) (en_Shards encoded) in
              erasure_worker ds enc batch (SetManifest lm (Some (en_Manifest encoded)) s).2
          | Err _ => erasure_worker ds enc batch s
          end
      | _, _ => erasure_worker ds enc batch s
      end
  end.
Definition AddFile_coded (b : Builder) (o : Options) (r : Reader) : M St AddResult := λ s,
  let '(x, s) := Builder_AddFile alg F pick workers b (o_Name o) r (o_Mode o) (o_ModTime o) (o_MimeType o) s in
  match chunk_source alg b r with
  | Ok (ds, _) => (x, if bd_erasure b then erasure_worker ds None [] s else s)
  | Err _ => (x, s)
  end.

(** ** What is common: the descriptor and the seal *)
Definition mark_root (name mime : bytes) (size : Z) (m : MID) : M St unit := λ s,
  let oi := match GetObjectInfo m s with Ok oi => oi | Err _ => mkObjectInfo name mime size false end in
  wrapM "ingest: set objectinfo" (SetObjectInfo m (mkObjectInfo (oi_Name oi) (oi_MimeType oi) (oi_Size oi) true)) s.
Definition seal_root (recursive : bool) (o : Options) (m : MID) : M St unit :=
  if o_Seal o then wrapM "ingest: seal" (ss_Seal m recursive) else mret tt.

(** ** The raw DAG *)
Definition build_raw (o : Options) (r : Reader) : M St MID :=
  let fuel := S (rd_measure r) in
  let built {C} (next : M C Block) (c : result C) : M St MID :=
    c ← liftr (wrap "ingest: chunker" c); wrapM "ingest: dag" (Build (H2 := next) alg F fuel c) in
  if bool_decide (o_Chunker o = lit "rabin") then built (rabin_Next alg rabin_params) (NewRabin rabin_params (Some r))
  else if bool_decide (o_Chunker o = lit "fastcdc") then built (fastcdc_Next alg fastcdc_params) (NewFastCDC fastcdc_params (Some r))
  else built (fixed_Next alg) (NewFixed (o_ChunkSize o) (Some r)).
Definition count_leaf (s : St) (m : MID) (leaf : bool) : M (Z * Z) unit := λ '(blocks, total),
  (Ok tt, if leaf then (u64 (blocks + 1), match bs_Get m s with Ok d => u64 (total + zlen d) | Err _ => total end) else (blocks, total)).
(** the result of the walk is dropped *)
Definition count_raw (root : MID) (s : St) : Z * Z :=
  (Blockstore.Walk (λ m _, bs_Get m s) ((λ f m _, f m s) <$> sizer) (count_leaf s) walk_fuel root (1, 0)).2.
Definition finish_raw (o : Options) (root : MID) : M St Result := λ s,
  let '(blocks, total) := count_raw root s in
  (_ ← mark_root (o_Name o) (o_MimeType o) total root;
   _ ← seal_root true o root;
   mret (mkResult root total blocks (o_MimeType o))) s.
Definition IngestRaw (o : Options) (r : Reader) : M St Result := root ← build_raw o r; finish_raw o root.

(** ** MemFS *)
Definition finish_file (o : Options) (add : AddResult) : M St Result :=
  fin ← (if o_WrapDir o then
           wrapM "ingest: wrap dir" (AddDir alg (o_Name o) [mkFSEntry (o_Name o) (ar_MID add) TypeFile (ar_Size add)] 493 (o_ModTime o))
         else mret add);
  _ ← mark_root (o_Name o) (o_MimeType o) (ar_Size fin) (ar_MID fin);
  _ ← seal_root false o (ar_MID fin);
  mret (mkResult (ar_MID fin) (ar_Size fin) (ar_Block fin) (o_MimeType o)).
Definition IngestFile (hint : Z) (r : Reader) (o : Options) : M St Result :=
  let o := canonical hint o in
  if o_RawDAG o then IngestRaw o r else
  add ← wrapM "ingest" (AddFile_coded (builder_of o) o r);
  finish_file o add.
(** the erasure workers of the single files are left out *)
Definition IngestDirectoryStream (entries : list StreamEntry) (o : Options) : M St Result :=
  if bool_decide (entries = []) then throw (New "ingest: no entries") else
  let o := mkOptions (o_Name o) (o_Mode o) (o_ModTime o) (o_MimeType o) (o_Chunker o) (if o_ChunkSize o <=? 0 then DefaultBlockSize else o_ChunkSize o)
             (o_ContentSize o) (o_WrapDir o) (o_RawDAG o) (o_Seal o) (o_EnableErasure o) in
  add ← wrapM "ingest: dir stream" (AddDirectoryStream alg F pick workers (builder_of o) shuffle entries);
  _ ← mark_root (o_Name o) (lit "inode/directory") (ar_Size add) (ar_MID add);
  _ ← seal_root false o (ar_MID add);
  mret (mkResult (ar_MID add) (ar_Size add) (ar_Block add) []).
(** the goroutine a sealed upload leaves behind *)
Definition seal_later (m : MID) (s : St) : St := (ss_Seal m true s).2.
End ingest.

(** ** Properties: walks over files *)
Section walks.
Context `{Multiformats} `{!MultiformatsLaws} `{Protos} `{!ProtosLaws}.
Context (get : MID -> result bytes) (sizes : MID -> result Z).
Abbreviation get0 := (λ (m : MID) (_ : unit), get m).
Abbreviation sizes0 := (Some (λ (m : MID) (_ : unit), sizes m)).
Abbreviation reaches := (rtc (follows get0 sizes0 tt)).

(** within [n] levels the walk finds all it looks for *)
Fixpoint walkable (n : nat) (m : MID) : Prop :=
  match n with
  | O => False
  | S n => exists size, sizes m = Ok size /\ (bigRaw m size = true \/ exists data, get m = Ok data /\
      (bigRaw m (zlen data) = true \/ (children m data).1 = false \/ Forall (walkable n) (children m data).2))
  end.
Lemma walkable_walk n m fuel seen : walkable n m -> (n ≤ fuel)%nat ->
  exists seen', Blockstore.walk get0 sizes0 false (λ _ _, mret tt) fuel m (seen, tt) = (Ok tt, (seen', tt)).
Proof.
  revert m fuel seen. induction n as [|n IH]; intros m fuel seen Hw Hf; [done|]. destruct fuel as [|fuel]; [lia|].
  cbn [Blockstore.walk]. destruct (decide (String m ∈ seen)); [by eexists|]. destruct Hw as (size & -> & Hw). fold (bigRaw m size).
  destruct (bigRaw m size); [by eexists|]. destruct Hw as [?|(data & -> & Hw)]; [done|]. fold (bigRaw m (zlen data)).
  destruct (bigRaw m (zlen data)); [by eexists|]. destruct Hw as [?|Hw]; [done|]. destruct (children m data) as [[] kids]; [|by eexists].
  destruct Hw as [?|Hw]; [done|]. cbn [snd] in Hw. unfold mbind, M_bind, visitM. cbn.
  generalize ({[String m]} ∪ seen). induction Hw as [|k kids Hk _ IHk]; intros sn; [by eexists|].
  cbn [for_each]. unfold mbind, M_bind. destruct (IH k fuel sn Hk ltac:(lia)) as [sn1 ->]. apply IHk.
Qed.
Lemma walkable_ok n m fuel : wf_mid m -> walkable n m -> (n ≤ fuel)%nat ->
  Blockstore.Walk get0 sizes0 (λ _ _, mret tt) fuel m tt = (Ok tt, tt).
Proof.
  intros Hm Hw Hf. unfold Blockstore.Walk, WalkOptions. rewrite wf_not_zero by done.
  by destruct (walkable_walk n m fuel ∅ Hw Hf) as [seen' ->].
Qed.

Definition no_descriptor (d : bytes) : Prop := forall dp, tryParseDescriptor d = Ok dp -> dp_Blocks dp = [].
(** nothing the walk comes to is read as what it is not *)
Definition unambiguous (root : MID) : Prop := forall m d, reaches root m -> get m = Ok d ->
  (codec m = CodecMemFS -> no_descriptor d) /\ (codec m = CodecRaw -> zlen d <= largeRaw -> (children m d).1 = false).
(** a closed list of MIDs holding the root decides it *)
Definition clear_in (ms : list MID) (m : MID) : bool :=
  match get m with
  | Ok d =>
      let '(more, kids) := children m d in
      (if codec m =? CodecMemFS then match tryParseDescriptor d with Ok dp => bool_decide (dp_Blocks dp = []) | Err _ => true end else true) &&
      (if (codec m =? CodecRaw) && (zlen d <=? largeRaw) then negb more else true) &&
      (if more then forallb (λ k, bool_decide (k ∈ ms)) kids else true)
  | Err _ => true
  end.
Lemma clear_unambiguous ms root : root ∈ ms -> forallb (clear_in ms) ms = true -> unambiguous root.
Proof.
  intros Hr Hall m d Hre. assert (m ∈ ms) as Hin.
  { revert Hr. induction Hre as [m|m k k' Hf _ IH]; intros Hm; [done|]. apply IH. destruct Hf as (sz & d' & _ & _ & Hg & _ & Hb & Hk).
    rewrite forallb_forall in Hall. specialize (Hall m ltac:(by apply list_elem_of_In)). unfold clear_in in Hall. rewrite Hg in Hall.
    destruct (children m d') as [more kids]. cbn [fst snd] in *. subst more. apply andb_true_iff in Hall as [_ Hall].
    rewrite forallb_forall in Hall. eapply bool_decide_eq_true_1, Hall. by apply list_elem_of_In. }
  intros Hg. rewrite forallb_forall in Hall. specialize (Hall m ltac:(by apply list_elem_of_In)). unfold clear_in in Hall. rewrite Hg in Hall.
  destruct (children m d) as [more kids]. apply andb_true_iff in Hall as [Hall _]. apply andb_true_iff in Hall as [Hd Hl]. split.
  - intros Hc. rewrite Hc in Hd. intros dp Edp. change (CodecMemFS =? CodecMemFS) with true in Hd. cbn iota in Hd. rewrite Edp in Hd. by apply bool_decide_eq_true_1 in Hd.
  - intros Hc Hz. rewrite Hc in Hl. apply Z.leb_le in Hz. rewrite Hz in Hl. cbn in Hl. by destruct more.
Qed.
Lemma block_child_of m (size : Z) : wf_mid m -> codec m = (if 0 <? size then CodecRaw else CodecMemFS) ->
  block_child (mkMemFSBlock (Bytes m) size) = [m].
Proof.
  intros Hm Hc. unfold block_child. cbn [mb_Mid mb_Size]. unfold Bytes.
  rewrite bool_decide_eq_false_2 by by apply wf_Hash_ne. rewrite <-Hc, FromMultihash_ok by apply Hm.
  unfold rights. cbn. destruct m, Hm; simpl in *. by subst.
Qed.
Lemma children_node m raw pb : codec m = CodecMemFS -> no_descriptor raw -> marshal pb = Ok raw -> mn_Type pb = MemFSType_FILE ->
  mn_Data pb = [] -> children m raw = (0 <? zlen (mn_Blocks pb), mn_Blocks pb ≫= block_child).
Proof.
  intros Hc Hd Hm Ht Hdata. unfold children. unfold Codec. rewrite Hc.
  assert (match (match tryParseDescriptor raw with Ok d => if bool_decide (dp_Blocks d = []) then None else Some d | Err _ => None end) with Some _ => true | None => false end = false) as Hn.
  { destruct (tryParseDescriptor raw) as [dp|] eqn:E; [|done]. by rewrite bool_decide_eq_true_2 by by apply Hd. }
  destruct (match tryParseDescriptor raw with Ok _ => _ | Err _ => _ end); [done|].
  change (CodecMemFS =? CodecMemFS) with true. cbn iota. rewrite (unmarshal_marshal _ _ Hm), Ht. change (MemFSType_FILE =? MemFSType_FILE) with true.
  cbn iota. by rewrite Hdata.
Qed.
(** a node that is no inline file is left towards each of its blocks *)
Lemma node_walk root m raw pb level kids : reaches root m -> unambiguous root -> (exists z, sizes m = Ok z) -> get m = Ok raw ->
  codec m = CodecMemFS -> marshal pb = Ok raw -> mn_Type pb = MemFSType_FILE -> mn_Data pb = [] -> mn_Blocks pb = map (block_ref level) kids ->
  (forall k, k ∈ kids -> wf_mid (br_mid k) /\ codec (br_mid k) = (if 0 <? mb_Size (block_ref level k) then CodecRaw else CodecMemFS)) ->
  (forall k, k ∈ kids -> reaches root (br_mid k)) /\
  forall n, (forall k, k ∈ kids -> walkable n (br_mid k)) -> walkable (S n) m.
Proof.
  intros Hr Hu [z Hz] Hg Hc Hm Ht Hdata Hb Hk. destruct (Hu m raw Hr Hg) as [Hnd _].
  pose proof (children_node m raw pb Hc (Hnd Hc) Hm Ht Hdata) as Hch. rewrite Hb in Hch.
  assert (map (block_ref level) kids ≫= block_child = map br_mid kids) as Hkids.
  { clear -Hk. induction kids as [|k kids IH]; [done|]. cbn [map mbind list_bind]. rewrite IH by (intros; apply Hk; by right).
    destruct (Hk k ltac:(left)) as [Hw Hc]. unfold block_ref in *. cbn [mb_Size] in Hc. by rewrite block_child_of. }
  rewrite Hkids in Hch. assert (forall z, bigRaw m z = false) as Hbig by (intros; unfold bigRaw, Codec; by rewrite Hc).
  split.
  - intros k Hin. eapply rtc_r; [exact Hr|]. exists z, raw. cbn. rewrite Hch. cbn [fst snd]. split_and!; try done.
    + apply Z.ltb_lt. destruct kids; [by apply not_elem_of_nil in Hin|]. unfold zlen. cbn. lia.
    + by apply list_elem_of_fmap_2.
  - intros n Hn. exists z. split; [done|]. right. exists raw. split; [done|]. right. right. rewrite Hch. apply Forall_map, Forall_forall, Hn.
Qed.
End walks.

(** what [buildRoot] makes of a file: its data is inline exactly when there is one leaf *)
Section roots.
Context `{Multiformats, Protos, ObjectJSON} (alg : Z) (F : nat) {St : Type} `{Blockstore St, MetaStore St}.
Lemma put_node_inv m1 m2 pb (s : St) m s' : put_node alg m1 m2 pb s = (Ok m, s') -> exists raw,
  marshal pb = Ok raw /\ FromBytesWithCodec alg raw CodecMemFS = Ok m.
Proof.
  unfold put_node, liftr, wrap. destruct (marshal pb) as [raw|]; [|done]. intros E.
  apply M_bind_inv in E as (raw' & s1 & [= <- <-] & E). apply M_bind_inv in E as (m' & s2 & [= Em <-] & E).
  apply M_bind_inv in E as (u & s3 & _ & [= <- <-]). by exists raw.
Qed.
Definition root_of (ds_len : Z) (m : MID) : Prop := exists pb raw, marshal pb = Ok raw /\ FromBytesWithCodec alg raw CodecMemFS = Ok m /\
  (ds_len ≠ 1 -> mn_Data pb = []).
Lemma finalize_root a st (s : St) res s' : finalize alg F a st s = (Ok res, s') -> root_of (totalLeafs st) (ar_MID res).
Proof.
  assert (forall m1 m2 pb name mime size (n : Z) (s : St) s', (n ≠ 1 -> mn_Data pb = []) ->
    (rootMID ← put_node alg m1 m2 pb; _ ← set_info name mime size rootMID; mret (mkAddResult rootMID size n)) s = (Ok res, s') -> root_of n (ar_MID res)) as Hput.
  { intros m1 m2 pb name mime size n s0 s0' Hd E. apply M_bind_inv in E as (m & s1 & (raw & Hraw & Hm)%put_node_inv & E).
    apply M_bind_inv in E as (u & s2 & _ & [= <- <-]). exists pb, raw. done. }
  unfold finalize. destruct (Z.eqb_spec (totalLeafs st) 0) as [E0|_].
  { intros E. rewrite E0. revert E. apply Hput. done. }
  generalize (finalize_fuel (levels st)). intros fuel. generalize 0%nat (levels st) s. induction fuel as [|fuel IH]; intros level lvs s0; cbn [finalize_levels]; [discriminate|].
  destruct lvs as [|[|c lv] rest]; [discriminate|apply IH|]. destruct (topmost rest).
  - unfold buildRoot. cbv zeta. apply Hput. intros Hne. unfold with_attrs. cbn [mn_Data].
    destruct (Z.eqb_spec (totalLeafs st) 1); [lia|]. done.
  - intros E. apply M_bind_inv in E as (p & s1 & _ & E). apply M_bind_inv in E as (rest' & s2 & _ & E). by eapply IH.
Qed.
Lemma push_chunks_leafs ds st (s : St) st' s' : push_chunks alg F ds st s = (Ok st', s') ->
  0 <= totalLeafs st -> totalLeafs st + zlen ds < 2 ^ 64 -> totalLeafs st' = totalLeafs st + zlen ds.
Proof.
  revert st s. induction ds as [|d ds IH]; intros st s; cbn [push_chunks].
  { intros [= <- <-] _ _. change (zlen (@nil bytes)) with 0. lia. }
  intros E H0' Hlt. apply M_bind_inv in E as (st1 & s1 & E1 & E). change (zlen (d :: ds)) with (zlen ([d] ++ ds)) in *. rewrite zlen_app in *. change (zlen [d]) with 1 in *.
  assert (totalLeafs st1 = totalLeafs st + 1) as Hst1.
  { unfold push_chunk, pushLeaf in E1. apply M_bind_inv in E1 as (m & s2 & _ & E1). cbv zeta in E1.
    apply M_bind_inv in E1 as (lvs & s3 & _ & [= <- <-]). cbn. apply u64_small. pose proof (zlen_nonneg ds). lia. }
  rewrite (IH _ _ E); lia.
Qed.
End roots.
#[local] Existing Instances null_blocks null_meta.
Lemma file_of_root `{Multiformats, Protos, ObjectJSON} (alg : Z) (F : nat) a ds res : zlen ds < 2 ^ 64 -> file_of alg F a ds = Ok res -> root_of alg (zlen ds) (ar_MID res).
Proof.
  intros Hlen. unfold file_of. destruct (build_file _ _ _ _ _) as [r u] eqn:E. cbn [fst]. intros ->.
  unfold build_file in E. apply M_bind_inv in E as (st & s1 & E1 & E2).
  apply push_chunks_leafs in E1; [|done|by cbn]. change (totalLeafs newStack) with 0 in E1. rewrite Z.add_0_l in E1. rewrite <-E1.
  eapply finalize_root. exact E2.
Qed.

(** ** Properties: a sealed upload survives collections *)
Lemma ns_meta_seal `{Multiformats} k m : MetaKey k = SealKey m -> False.
Proof. unfold MetaKey, SealKey. by vm_compute. Qed.
Section survives.
Context `{Floats, Multiformats} `{!MultiformatsLaws} `{!BinaryMultihash} `{Protos} `{!ProtosLaws} `{!NodeBytes} `{ObjectJSON, ReedSolomon}.
Context (alg : Z) (Halg : isSupportedHash alg = true) `{!CollisionFree alg} (F : nat) (HF : (1 < F)%nat).
Context (env : Env) (Hget : forall k, io_get env k = None) (Hread : forall p, io_readfile env p = None).
#[local] Instance db_blocks' : Blockstore MemStore := MemStore_blockstore alg env env.
#[local] Instance db_meta' : MetaStore MemStore := MemStore_meta env env.
#[local] Instance db_batch' : BatchStore MemStore := PutBatch alg env None.
#[local] Instance db_seal (fuel : nat) : SealStore MemStore := Seal env None fuel.
#[local] Instance db_files' : FileStoreLaws MemStore alg (sound alg) := db_file_laws alg Halg env Hget Hread env.
Implicit Types s : MemStore.
Abbreviation get_of s := (λ m, Get env None m s).
Abbreviation size_in s := (λ m, GetSize env m s).
Abbreviation reach s := (rtc (follows (λ m (_ : unit), Get env None m s) (Some (λ m (_ : unit), GetSize env m s)) tt)).

Lemma GetSize_Get m d s : Get env None m s = Ok d -> exists z, GetSize env m s = Ok z.
Proof.
  unfold Get, GetSize. destruct (closed_or_nil s); [done|]. destruct (IsZero m); [done|]. cbn [mbind result_bind].
  destruct (negb (maybe m s)); [done|]. unfold lookup_value. destruct (db_Get env (BlockKey m) (ms_db s)) as [v|e]; [by eexists|].
  destruct (errors_is e ErrKeyNotFound); cbn [negb]; [|done]. destruct (db_Get env (DagKey m) (ms_db s)) as [v|e2]; [by eexists|].
  by destruct (errors_is e2 ErrKeyNotFound).
Qed.
Lemma tree_child s h k ds : file_tree alg s h k ds ->
  wf_mid (br_mid k) /\ codec (br_mid k) = (if 0 <? mb_Size (block_ref h k) then CodecRaw else CodecMemFS).
Proof.
  destruct h as [|h]; cbn [file_tree].
  - intros (d & -> & Hd & Hsz & Hm & _). destruct (FromBytesWithCodec_wf alg d CodecRaw _ Halg ltac:(done) Hm) as [Hw Hc].
    split; [done|]. cbn. by destruct (Z.ltb_spec 0 (br_size k)); [|lia].
  - intros (kids & dss & raw & _ & _ & _ & _ & _ & Hm & _). by destruct (FromBytesWithCodec_wf alg raw CodecMemFS _ Halg ltac:(done) Hm).
Qed.
Lemma Forall2_in_l {A B} (P : A -> B -> Prop) l k x : Forall2 P l k -> x ∈ l -> exists y, P x y.
Proof. induction 1 as [|a b l k Hp _ IH]; [by intros ?%not_elem_of_nil|]. intros [->|Hx]%elem_of_cons; [by exists b|by apply IH]. Qed.
(** the tree below a reference: walkable, and there in every store that reads alike where the walk comes *)
Definition alike s root s' : Prop := forall m, reach s root m -> wf_mid m -> Get env None m s' = Get env None m s.
Lemma tree_stays s root h r ds : unambiguous (get_of s) (size_in s) root -> file_tree alg s h r ds -> reach s root (br_mid r) ->
  walkable (get_of s) (size_in s) (S h) (br_mid r) /\ forall s', alike s root s' -> file_tree alg s' h r ds.
Proof.
  intros Hu. revert r ds. induction h as [|h IH]; intros r ds Hf Hr; cbn [file_tree] in Hf.
  - destruct Hf as (d & -> & Hd & Hsz & Hm & Hg). destruct (FromBytesWithCodec_wf alg d CodecRaw _ Halg ltac:(done) Hm) as [Hw Hc].
    cbn [bs_Get db_blocks' MemStore_blockstore] in Hg. split.
    + destruct (GetSize_Get _ _ _ Hg) as [z Hz]. exists z. split; [done|]. right. exists d. split; [done|].
      destruct (bigRaw (br_mid r) (zlen d)) eqn:Eb; [by left|]. right. left. apply (Hu _ _ Hr Hg); [done|].
      unfold bigRaw, Codec in Eb. rewrite Hc in Eb. change (CodecRaw =? CodecRaw) with true in Eb. cbn [andb] in Eb. by apply Z.ltb_ge in Eb.
    + intros s' Hs'. exists d. split_and!; try done; try lia. cbn [bs_Get db_blocks' MemStore_blockstore]. by rewrite Hs'.
  - destruct Hf as (kids & dss & raw & Hne & -> & Hkids & Hsz & Hraw & Hm & Hg).
    destruct (FromBytesWithCodec_wf alg raw CodecMemFS _ Halg ltac:(done) Hm) as [Hw Hc]. cbn [bs_Get db_blocks' MemStore_blockstore] in Hg.
    destruct (node_walk (get_of s) (size_in s) root _ raw (inner_node h kids) h kids Hr Hu (GetSize_Get _ _ _ Hg) Hg Hc Hraw eq_refl eq_refl eq_refl) as [Hreach Hn].
    { intros k Hk. destruct (Forall2_in_l _ _ _ _ Hkids Hk) as [d Hd]. by eapply tree_child. }
    split.
    + apply Hn. intros k Hk. destruct (Forall2_in_l _ _ _ _ Hkids Hk) as [d Hd]. by apply (IH k d Hd (Hreach k Hk)).
    + intros s' Hs'. exists kids, dss, raw. split_and!; try done; [|cbn [bs_Get db_blocks' MemStore_blockstore]; by rewrite Hs'].
      eapply Forall2_impl_in; [|exact Hkids]. intros k d Hk Hd. by apply (IH k d Hd (Hreach k Hk)).
Qed.
(** the same for a file whose root holds no data of its own *)
Definition file_at_plain s (m : MID) (c : bytes) : Prop := exists level children dss pb,
  node_at alg pb m s /\ mn_Type pb = MemFSType_FILE /\ mn_Data pb = [] /\ mn_FileSize pb = zlen c /\ zlen c < 2 ^ 63 /\
  mn_Blocks pb = map (block_ref level) children /\ Forall2 (file_tree alg s level) children dss /\ c = concat (concat dss).
Lemma file_stays s m c : unambiguous (get_of s) (size_in s) m -> file_at_plain s m c ->
  (exists n, walkable (get_of s) (size_in s) n m) /\ forall s', alike s m s' -> file_at alg s' m c.
Proof.
  intros Hu (level & kids & dss & pb & Hnode & Ht & Hdata & Hsz & Hlt & Hb & Hf & Hc). pose proof (node_at_wf alg Halg _ _ _ Hnode) as [Hw Hcm].
  destruct Hnode as (raw & Hraw & Hm & Hg). cbn [bs_Get db_blocks' MemStore_blockstore] in Hg.
  destruct (node_walk (get_of s) (size_in s) m m raw pb level kids (rtc_refl _ _) Hu (GetSize_Get _ _ _ Hg) Hg Hcm Hraw Ht Hdata Hb) as [Hreach Hn].
  { intros k Hk. destruct (Forall2_in_l _ _ _ _ Hf Hk) as [d Hd]. by eapply tree_child. }
  split.
  - exists (S (S level)). apply Hn. intros k Hk. destruct (Forall2_in_l _ _ _ _ Hf Hk) as [d Hd]. by apply (tree_stays s m level k d Hu Hd (Hreach k Hk)).
  - intros s' Hs'. exists level, kids, dss, pb. split_and!; try done.
    + exists raw. split_and!; try done. cbn [bs_Get db_blocks' MemStore_blockstore]. by rewrite Hs' by (done || constructor).
    + eapply Forall2_impl_in; [|exact Hf]. intros k d Hk Hd. by apply (tree_stays s m level k d Hu Hd (Hreach k Hk)).
Qed.
(** the built file is such a file, unless it has exactly one chunk *)
Lemma file_at_no_data s m c n : file_at alg s m c -> root_of alg n m -> n ≠ 1 -> file_at_plain s m c.
Proof.
  intros (level & kids & dss & pb & Hnode & Ht & Hrest) (pb' & raw' & Hraw' & Hm' & Hd) Hn.
  exists level, kids, dss, pb. split; [done|]. split; [done|]. split; [|done].
  destruct Hnode as (raw & Hraw & Hm & _). enough (pb = pb') as -> by auto.
  assert (raw = raw') as <- by (apply (names_unique alg Halg m); [by apply (FromBytes_names alg Halg raw CodecMemFS)|by apply (FromBytes_names alg Halg raw' CodecMemFS)]).
  pose proof (unmarshal_marshal _ _ Hraw) as E1. rewrite (unmarshal_marshal _ _ Hraw') in E1. by injection E1.
Qed.

(** ** Writing on: every step keeps the blocks, and the seal record once it is there *)
Abbreviation ingest_grows := (grows alg (sound alg)).
Lemma flushShards_grows batch s : sound alg s -> Forall (λ b, wf_mid (sb_MID b)) batch -> ingest_grows s (flushShards batch s).
Proof.
  intros Hs Hb. unfold flushShards. case_bool_decide; [by split|]. destruct (bs_PutBatch batch s) as [r s'] eqn:E.
  by destruct (putbatch_spec _ _ _ _ Hs Hb E) as (? & ? & _).
Qed.
Lemma mapM_inv {A B} (f : A -> result B) l k : mapM f l = Ok k -> Forall2 (λ a b, f a = Ok b) l k.
Proof.
  revert k. induction l as [|a l IH]; intros k; cbn [mapM]; [by intros [= <-]|]. destruct (f a) as [b|] eqn:Ea; [|done]. cbn [mbind result_bind].
  destruct (mapM f l) as [bs|]; [|done]. cbn. intros [= <-]. constructor; [done|by apply IH].
Qed.
Lemma shards_wf cfg d en : Encode alg cfg d = Ok en -> Forall (λ sh, wf_mid (sh_ShardMID sh)) (en_Shards en).
Proof.
  unfold Encode. case_bool_decide; [done|]. destruct (FromBytes alg d) as [m|]; [|done]. cbn [mbind result_bind].
  destruct (wrap _ (rs_Split cfg d)) as [l|]; [|done]. cbn [mbind result_bind]. destruct (wrap _ (rs_Encode cfg l)) as [l'|]; [|done].
  cbn [mbind result_bind]. destruct (mapM (FromBytes alg) l') as [mids|] eqn:Em; [|done]. cbn [mbind result_bind]. intros [= <-]. cbn [en_Shards].
  apply Forall_forall. intros sh Hin. apply elem_of_lookup_imap in Hin as (i & [x mi] & -> & Hl). cbn [sh_ShardMID snd].
  apply mapM_inv in Em. apply lookup_zip_Some in Hl as [Hx Hmi]. 
  pose proof (Forall2_lookup_lr _ _ _ _ _ _ Em Hx Hmi) as Hfb. by destruct (FromBytesWithCodec_wf alg x CodecRaw _ Halg ltac:(done) Hfb).
Qed.
Lemma SetManifest_grows m mf s : sound alg s -> ingest_grows s (SetManifest m mf s).2.
Proof.
  intros Hs. unfold SetManifest. destruct (IsZero m); [by split|]. destruct mf as [mf|]; [|by split].
  unfold liftr, mbind, M_bind. destruct (wrap _ (marshal mf)) as [buf|]; [|by split].
  destruct (st_PutMeta (ManifestMetaKey m) buf s) as [r s'] eqn:E. by apply putmeta_spec in E.
Qed.
Lemma erasure_worker_grows ds enc batch s : sound alg s -> Forall (λ b, wf_mid (sb_MID b)) batch -> ingest_grows s (erasure_worker alg ds enc batch s).
Proof.
  revert enc batch s. induction ds as [|d ds IH]; intros enc batch s Hs Hb; cbn [erasure_worker]; [by apply flushShards_grows|].
  cbv zeta. generalize (if bool_decide (enc = Some (AdaptiveConfig (zlen d))) then enc else match NewEncoder (AdaptiveConfig (zlen d)) with Ok _ => Some (AdaptiveConfig (zlen d)) | Err _ => enc end).
  intros [c|]; [|by apply IH]. destruct (FromBytes alg d) as [lm|]; [|by apply IH]. destruct (Encode alg c d) as [en|] eqn:Een; [|by apply IH].
  assert (forall l batch s, sound alg s -> Forall (λ b, wf_mid (sb_MID b)) batch -> Forall (λ sh, wf_mid (sh_ShardMID sh)) l ->
    ingest_grows s (foldl append_shard (batch, s) l).2 /\ Forall (λ b, wf_mid (sb_MID b)) (foldl append_shard (batch, s) l).1) as Hfold.
  { clear IH Een Hs Hb. clear s batch. induction l as [|sh l IHl]; intros batch s Hs Hb Hl; cbn [foldl]; [by split|]. apply Forall_cons in Hl as [Hsh Hl].
    unfold append_shard at 2 4. assert (Forall (λ b, wf_mid (sb_MID b)) (batch ++ [mkSBlock (sh_ShardMID sh) (sh_Data sh)])) as Hb' by (apply Forall_app; split; [done|by apply Forall_singleton]).
    destruct (_ <=? _)%nat; [|by apply IHl]. pose proof (flushShards_grows _ _ Hs Hb') as Hg.
    destruct (IHl [] _ (proj1 Hg) (Forall_nil_2 _) Hl) as [Hg2 ?]. split; [|done]. by eapply grow_trans. }
  destruct (Hfold (en_Shards en) batch s Hs Hb (shards_wf _ _ _ Een)) as [Hg Hb2]. destruct (foldl append_shard (batch, s) (en_Shards en)) as [batch' s1]. cbn [fst snd] in *.
  pose proof (SetManifest_grows lm (Some (en_Manifest en)) s1 (proj1 Hg)) as Hg2. eapply grow_trans; [exact Hg|]. eapply grow_trans; [exact Hg2|]. by apply IH; [apply Hg2|].
Qed.
Lemma record_root_grows name mime size m s : sound alg s -> ingest_grows s (mark_root name mime size m s).2.
Proof.
  intros Hs. unfold mark_root, wrapM, SetObjectInfo. destruct (IsZero m); [by split|]. destruct (_ && _); [by split|].
  destruct (json_Marshal _) as [buf|]; [|by split]. destruct (st_PutMeta (objectInfoKey m) buf s) as [r s'] eqn:E. by apply putmeta_spec in E.
Qed.

(** the record the upload writes *)
Definition sealed_as s (root : MID) : Prop := kv (ms_db s) !! SealKey root = Some (seal_value root false).
Lemma Seal_ok fuel root s s' : wf_mid root -> sound alg s -> Seal env None fuel root false s = (Ok tt, s') -> beside alg env s s' /\ sealed_as s' root.
Proof.
  intros Hm [_ [Ho Hcl]] E. unfold Seal, mbind, M_bind, enter in E. fold (closed_or_nil s) in E. rewrite Ho in E. unfold guard_error in E.
  rewrite wf_not_zero in E by done. destruct (writeSeal_spec alg env root false s) as (Hb & _ & _ & Hw).
  destruct (io_set env (SealKey root)) eqn:Eio.
  { unfold writeSeal, on_db, db_Set in E. rewrite Hcl, Eio in E. done. }
  destruct (Hw Hcl eq_refl) as [Hw1 Hkv]. destruct (writeSeal env root false s) as [rw s1]. cbn [fst snd] in *. subst rw. cbn [negb] in E.
  injection E as <-. split; [done|]. unfold sealed_as. by rewrite Hkv, lookup_insert_eq.
Qed.
(** a recursive seal of the root keeps its record: other MemFS nodes have other hashes *)
Lemma Seal_again fuel root s : wf_mid root -> codec root = CodecMemFS -> sealed_as s root -> sealed_as (Seal env None fuel root true s).2 root.
Proof.
  intros Hm Hc Hrec. unfold Seal, mbind, M_bind, enter. destruct (_ || _); [done|]. unfold guard_error. rewrite wf_not_zero by done.
  assert (sealed_as (writeSeal env root false s).2 root) as Hrec1.
  { unfold writeSeal, on_db, db_Set. destruct (db_closed (ms_db s)); [done|]. destruct (io_set env (SealKey root)); [done|].
    unfold sealed_as. cbn. by rewrite lookup_insert_eq. }
  destruct (writeSeal env root false s) as [[[]|e] s1]; [|done]. cbn [negb snd] in *.
  unfold seal_walk. destruct (store_walk _ _ _ _ _ s1) as [r s2] eqn:E.
  assert (sealed_as s2 root) as Hrec2; [|by destruct r].
  replace s2 with (store_walk env None fuel (seal_child env root) root s1).2 by by rewrite E.
  apply (WalkOptions_visits _ _ _ _ wf_mid (λ s, sealed_as s root)); [|intros m leaf t Hwm Ht|done|done].
  - intros t m m' _ Hf. by eapply follows_wf.
  - unfold seal_child. destruct (Equal m root) eqn:Eeq; [done|]. destruct (Z.eqb_spec (Codec m) CodecMemFS) as [Ecm|]; [|done]. cbn [snd].
    destruct (writeSeal_spec alg env m true t) as (_ & Hother & _). unfold sealed_as. rewrite Hother; [done|]. intros Hh.
    assert (m = root) as -> by (destruct Hm as [V1 _ _ S1], Hwm as [V2 _ _ S2], m, root; unfold Codec in *; cbn in *; subst; done).
    rewrite Equal_refl in Eeq; done.
Qed.

(** what may happen after the upload: the recursive seal it starts, and writes of anybody *)
Inductive later (fuel : nat) (root : MID) : MemStore -> MemStore -> Prop :=
  | later_seal s : later fuel root s (seal_later (H6 := db_seal fuel) root s)
  | later_batch bs s : Forall (λ b, wf_mid (sb_MID b)) bs -> later fuel root s (bs_PutBatch bs s).2
  | later_meta k v s : later fuel root s (st_PutMeta k v s).2.
Lemma Put_record m d s root : sealed_as s root -> sealed_as (Put alg env None m d s).2 root.
Proof.
  intros Hr. unfold Put, mbind, M_bind, enter. destruct (_ || _); [done|]. unfold guard_error. destruct (IsZero m); [done|].
  unfold hooked, liftr. destruct (verifyContent alg m d); [|done]. destruct (put_value env m d s) as [rv s1] eqn:Ep.
  apply put_value_spec in Ep as (f' & -> & _). destruct rv as [v|]; [|done]. unfold on_db, Commit. destruct (io_commit env); [done|].
  unfold modify, told, track. cbn. unfold sealed_as. cbn. rewrite !lookup_insert_ne by done. exact Hr.
Qed.
Lemma later_keeps fuel root s s' : wf_mid root -> codec root = CodecMemFS -> later fuel root s s' ->
  sound alg s -> sealed_as s root -> ingest_grows s s' /\ sealed_as s' root.
Proof.
  intros Hm Hc Hl Hs Hrec. destruct Hl as [s|bs s Hb|k v s].
  - unfold seal_later, ss_Seal, db_seal. split; [|by apply Seal_again]. pose proof (Seal_beside alg env None fuel root true s) as Hb.
    split; [by apply Hb|]. intros m d _ _. cbn [bs_Get db_blocks' MemStore_blockstore]. by rewrite (bs_reads _ _ _ _ Hb).
  - destruct (bs_PutBatch bs s) as [r s'] eqn:E. cbn [snd]. destruct (putbatch_spec _ _ _ _ Hs Hb E) as (? & ? & _). split; [done|].
    pose proof (PutBatch_run alg env bs s (proj1 (proj2 Hs))) as Hrun. unfold bs_PutBatch, db_batch' in E. rewrite E in Hrun. destruct r as [u|e].
    + clear -Hrec Hrun. revert s Hrec Hrun. induction bs as [|b bs IH]; intros s Hrec; cbn [for_each]; [by intros [= <-]|].
      unfold mbind, M_bind. pose proof (Put_record (sb_MID b) (sb_Data b) s root Hrec) as Hp. destruct (Put alg env None (sb_MID b) (sb_Data b) s) as [[[]|] s1]; [|done]. by apply IH.
    + destruct Hrun as [<- _]. destruct (batch_ops_frame alg env bs s) as [f' ->]. done.
  - destruct (st_PutMeta k v s) as [r s'] eqn:E. cbn [snd]. split; [by eapply putmeta_spec|].
    cbn [st_PutMeta db_meta' MemStore_meta] in E. unfold PutMeta, mbind, M_bind, enter in E. destruct (_ || _) in E; [by injection E as <- <-|].
    unfold guard_error in E. destruct (bool_decide _) in E; [by injection E as <- <-|]. unfold on_db, db_Set in E.
    destruct (db_closed (ms_db s)); [injection E as <- <-; done|]. destruct (io_set env (MetaKey k)); injection E as <- <-; [done|].
    unfold sealed_as. cbn. rewrite lookup_insert_ne; [done|]. intros Ek. by apply ns_meta_seal in Ek.
Qed.

(** an upload with a seal: what [IngestFile] leaves when it succeeds *)
Context (pick : FileArgs -> pipe MemStore -> choice) (Hpick : forall a, busy alg F a (pick a)) (workers : nat).
Context (shuffle : list (bytes * tree) -> list (bytes * tree)) (sfuel : nat).
#[local] Instance sealing : SealStore MemStore := db_seal sfuel.
Abbreviation ingest := (IngestFile alg F (Some (λ m s, GetSize env m s)) sfuel pick workers).
(** a sealed MemFS file of another number of chunks than one *)
Definition plain (o : Options) (bs : bytes) : Prop :=
  o_RawDAG o = false /\ o_WrapDir o = false /\ o_Seal o = true /\ Forall is_ascii (o_MimeType o) /\ length (chunk_cut (builder_of o) bs) ≠ 1%nat.
Lemma builder_of_ok o : builder_ok (builder_of o).
Proof. unfold builder_of. pose proof (WithBlockSize_ok (o_ChunkSize o) NewBuilder). by case_bool_decide. Qed.
Lemma chunk_cut_length b bs : builder_ok b -> zlen bs < 2 ^ 63 -> zlen (chunk_cut b bs) < 2 ^ 64.
Proof.
  intros Hb Hlen. destruct (chunk_source_spec alg Halg b [(bs, None)] bs EOF Hb) as (_ & Ecat & Hpos); [cbn; by rewrite app_nil_r|done|].
  enough (zlen (chunk_cut b bs) <= zlen bs) by lia. rewrite <-Ecat at 2. clear -Hpos.
  induction Hpos as [|d ds Hd _ IH]; [done|]. change (zlen (d :: ds)) with (zlen ([d] ++ ds)). cbn [concat]. rewrite !zlen_app. change (zlen [d]) with 1. lia.
Qed.
Lemma Ingest_sealed hint r o bs e s0 res s1 : sound alg s0 -> content r = (bs, e) -> errors_is e EOF = true -> zlen bs < 2 ^ 63 ->
  plain (canonical hint o) bs -> ingest hint r o s0 = (Ok res, s1) ->
  sound alg s1 /\ sealed_as s1 (re_MID res) /\ re_Size res = zlen bs /\ file_at_plain s1 (re_MID res) bs.
Proof.
  intros Hs Hc He Hlen (Hraw & Hwrap & Hseal & Hascii & Hone). unfold IngestFile. set (oc := canonical hint o) in *. rewrite Hraw.
  pose proof (builder_of_ok oc) as Hb. intros (add & s2 & E1 & E2)%M_bind_inv. unfold wrapM, AddFile_coded in E1.
  destruct (Builder_AddFile_spec alg Halg F HF (sound alg) pick Hpick workers (builder_of oc) (o_Name oc) r (o_Mode oc) (o_ModTime oc) (o_MimeType oc) bs e s0)
    as (x & sb & Eb & Hg & Hx); [done..|].
  rewrite Eb in E1. destruct (chunk_source_spec alg Halg (builder_of oc) r bs e Hb Hc He) as (Esrc & _ & _). rewrite Esrc in E1.
  destruct Hx as [(res0 & -> & Hfo & Hfa & Hsz & _)|[[e' ->] _]]; [|done]. injection E1 as <- <-.
  apply file_of_root in Hfo; [|by apply chunk_cut_length].
  assert (ingest_grows sb (if bd_erasure (builder_of oc) then erasure_worker alg (chunk_cut (builder_of oc) bs) None [] sb else sb)) as Hg2.
  { destruct (bd_erasure (builder_of oc)); [by apply erasure_worker_grows; [apply Hg|]|by split; [apply Hg|]]. }
  set (s2 := if bd_erasure (builder_of oc) then _ else _) in *. unfold finish_file in E2. rewrite Hwrap in E2.
  apply M_bind_inv in E2 as (fin & s3 & [= <- <-] & E2). apply M_bind_inv in E2 as (u & s3 & E3 & E2).
  pose proof (record_root_grows (o_Name oc) (o_MimeType oc) (ar_Size res0) (ar_MID res0) s2 (proj1 Hg2)) as Hg3. rewrite E3 in Hg3. cbn [snd] in Hg3.
  apply M_bind_inv in E2 as ([] & s4 & E4 & [= <- <-]). unfold seal_root in E4. rewrite Hseal in E4. cbn [re_MID re_Size].
  pose proof Hfa as (? & ? & ? & pb & Hn & _). pose proof (node_at_wf alg Halg _ _ _ Hn) as [Hm Hcm].
  unfold wrapM, ss_Seal, sealing, db_seal in E4. destruct (Seal env None sfuel (ar_MID res0) false s3) as [[[]|] s5] eqn:E5; [|done].
  injection E4 as <-. apply (Seal_ok _ _ _ _ Hm (proj1 Hg3)) in E5 as [Hbs Hrec]. split_and!; [by apply (bs_sound _ _ _ _ Hbs), Hg3|done|done|].
  apply (file_at_no_data _ _ _ (zlen (chunk_cut (builder_of oc) bs))); [|done|unfold zlen; lia].
  assert (keeps alg s3 s5) as Hk.
  { intros m d _ _. cbn [bs_Get db_blocks' MemStore_blockstore]. by rewrite (bs_reads _ _ _ _ Hbs). }
  apply (file_at_keeps alg Halg F HF sb s5); [|exact Hfa]. etrans; [apply Hg2|]. etrans; [apply Hg3|exact Hk].
Qed.
Lemma laters_keep root s1 s2 : wf_mid root -> codec root = CodecMemFS -> rtc (later sfuel root) s1 s2 ->
  sound alg s1 -> sealed_as s1 root -> ingest_grows s1 s2 /\ sealed_as s2 root.
Proof.
  intros Hm Hc. induction 1 as [s|s s' s'' Hl _ IH]; intros Hs Hrec; [done|].
  destruct (later_keeps _ _ _ _ Hm Hc Hl Hs Hrec) as [Hg Hr]. destruct (IH (proj1 Hg) Hr) as [Hg' Hr'].
  split; [by eapply grow_trans|done].
Qed.
Lemma sealed_as_root s m : wf_mid m -> codec m < 2 ^ 63 -> sealed_as s m -> m ∈ sealed_roots (kv (ms_db s)).
Proof.
  intros Hm Hc Hrec. apply list_elem_of_omap. exists (SealKey m, seal_value m false). split; [|by apply seal_entry_value].
  apply elem_of_scan. split; [exact Hrec|by exists (Hash m)].
Qed.
(** a sealed file is whole after a collection *)
Lemma file_collected m c s : sound alg s -> sealed_as s m -> unambiguous (get_of s) (size_in s) m -> file_at_plain s m c ->
  exists fuel0, forall fuel, (fuel0 ≤ fuel)%nat -> forall tenv cancelled tmp0 minAge g s',
  scratch_ok tenv -> (forall t, tmp0 = Ok t -> t = mkDB ∅ false) ->
  GCWithMinAge env None fuel tenv cancelled tmp0 minAge s = (g, s') -> file_at alg s' m c.
Proof.
  intros Hs Hrec Hu Hf. pose proof Hf as (_ & _ & _ & pb & Hn & _). pose proof (node_at_wf alg Halg _ _ _ Hn) as [Hm Hcm].
  destruct (file_stays s m c Hu Hf) as [[n Hw] Hstays]. exists n. intros fuel Hle tenv cancelled tmp0 minAge g s' Hscr Ht E.
  apply Hstays. intros m' Hreach Hm'.
  apply (gc_keeps_pinned alg Halg env None fuel tenv cancelled Hscr tmp0 minAge s g s' m m'); try done.
  - apply sealed_as_root; [done|by rewrite Hcm|done].
  - unfold walk_ok. pose proof (walkable_ok (get_of s) (size_in s) n m fuel Hm Hw Hle) as Hok. exact Hok.
  - exists m'. split; [exact Hreach|by left].
Qed.

End survives.

(** ** Instances *)
Section demo.
#[local] Instance demo_db_blocks : Blockstore MemStore := MemStore_blockstore BLAKE3 (calm 7) (calm 7).
#[local] Instance demo_db_meta : MetaStore MemStore := MemStore_meta (calm 7) (calm 7).
#[local] Instance demo_db_batch : BatchStore MemStore := PutBatch BLAKE3 (calm 7) None.
#[local] Instance demo_db_seal : SealStore MemStore := Seal (calm 7) None 9.
Definition upload (bs : bytes) : result Result * MemStore :=
  IngestFile BLAKE3 174 (Some (λ m s, GetSize (calm 7) m s)) 9 (greedy BLAKE3 174) 2 0 [(bs, None)]
    (mkOptions (lit "a.txt") 0 0 [] [] 1024 0 false false true false) demo_open.
Definition upload_root (bs : bytes) : MID := match (upload bs).1 with Ok res => re_MID res | Err _ => zeroMID end.
Definition db_get (s : MemStore) : MID -> result bytes := λ m, Get (calm 7) None m s.
Definition collected (fuel : nat) (s : MemStore) : MemStore := (GC (calm 7) None fuel (calm 7) never fresh_db s).2.
Definition reads_back (s : MemStore) (bs : bytes) : option (bytes * error) :=
  match Open (db_get s) 5 (upload_root bs) with Ok rd => Some (read_all (db_get s) 2000 1000 rd) | Err _ => None end.
(** a sealed file of one chunk reads back, and is empty and unreadable after a collection: the walk
    takes its root, which holds the data inline, for a leaf, and the reader asks for the block *)
Lemma inline_file_lost : reads_back (upload (lit "hello")).2 (lit "hello") = Some (lit "hello", EOF) /\
  IsSealed (calm 7) (upload_root (lit "hello")) (collected 9 (upload (lit "hello")).2) = Ok true /\
  reads_back (collected 9 (upload (lit "hello")).2) (lit "hello") = Some ([], Wrap "memfs: read block" ErrNotFound).
Proof. vm_compute. repeat split. Qed.
Definition upload_bytes : bytes := replicate 1030 Byte.x61.
Definition with_children (get : MID -> result bytes) (m : MID) : list MID :=
  match get m with Ok d => m :: (children m d).2 | Err _ => [] end.
Definition upload_blocks : list MID := with_children (db_get (upload upload_bytes).2) (upload_root upload_bytes).
Lemma upload_split bs : is_ok (upload bs).1 = true -> exists res, upload bs = (Ok res, (upload bs).2) /\ re_MID res = upload_root bs.
Proof. unfold upload_root. destruct (upload bs) as [[res|e] s]; [by exists res|discriminate]. Qed.
Lemma upload_clear : unambiguous (db_get (upload upload_bytes).2) (λ m, GetSize (calm 7) m (upload upload_bytes).2) (upload_root upload_bytes).
Proof. apply (clear_unambiguous _ _ upload_blocks); [vm_compute; left|vm_compute; reflexivity]. Qed.
End demo.
