(* ===== verification/Keyring.v ===== *)
(** * The keyring (src/core/keyring/keyring.go)

    Key pairs and published records as files below the data directory.  [Disk] is what the
    operating system holds, [OS] the failures it may report; key formats and PEM are
    third-party code ([KeyFormats]).  Derivation of names is in Names.v.
    [keyring_isolated]: operations on a plain name leave every other key and the identity of
    the node alone; lemma [traversal_replaces_identity]: on a name with slashes they do not. *)
From S2P Require Import Prelude Mid Wire Blockstore Db Names MemTree.

Definition refuse {S} (b : bool) (e : error) : M S unit := if b then throw e else mret tt.

Lemma refuse_inv {S} b e (s : S) u s' : refuse b e s = (Ok u, s') -> b = false /\ s' = s.
Proof. unfold refuse. destruct b; [done|]. by intros [= _ <-]. Qed.

(** ** Files: rooted, clean paths as lists of elements *)
Abbreviation fpath := (list bytes).
Record File := mkFile { f_Data : bytes; f_ModTime : Z }.
Record Disk := mkDisk { d_files : gmap fpath File; d_dirs : gset fpath }.
(** the clock and the failures; a failed write leaves what [os_write] says, if it got so far *)
Record OS := mkOS {
  os_now : Z; os_read : fpath -> option error; os_stat : fpath -> option error; os_readdir : fpath -> option error;
  os_mkdir : fpath -> option error; os_remove : fpath -> option error; os_write : fpath -> bytes -> option (error * option bytes);
}.
Definition os_ErrNotExist : error := Sentinel "file does not exist".
(** [filepath.Join] below a clean rooted path *)
Definition filepath_Join (base : fpath) (elem : bytes) : fpath := foldl clean_step base (split_slash [] elem).
Definition parent (p : fpath) : fpath := removelast p.
Definition name_le (a b : bytes) : Prop := bytes_leb a b = true.
#[export] Instance name_le_dec a b : Decision (name_le a b) := bool_eq_dec _ _.
Section os.
Context (os : OS).
Definition ReadFile (p : fpath) (d : Disk) : result bytes :=
  match os_read os p with Some e => Err e | None =>
  match d_files d !! p with Some f => Ok (f_Data f) | None =>
    if decide (p ∈ d_dirs d) then Err (New "is a directory") else Err os_ErrNotExist end end.
(** [os.Stat]: the modification time *)
Definition Stat_file (p : fpath) (d : Disk) : result Z :=
  match os_stat os p with Some e => Err e | None =>
  match d_files d !! p with Some f => Ok (f_ModTime f) | None =>
    if decide (p ∈ d_dirs d) then Ok 0 else Err os_ErrNotExist end end.
Definition put_file (p : fpath) (data : bytes) (d : Disk) : Disk := mkDisk (<[p := mkFile data (os_now os)]> (d_files d)) (d_dirs d).
Definition WriteFile (p : fpath) (data : bytes) : M Disk unit := λ d,
  if decide (p ∈ d_dirs d) then (Err (New "is a directory"), d) else
  if decide (parent p ∈ d_dirs d) then
    match os_write os p data with
    | Some (e, Some rest) => (Err e, put_file p rest d)
    | Some (e, None) => (Err e, d)
    | None => (Ok tt, put_file p data d)
    end
  else (Err os_ErrNotExist, d).
Definition prefixes (p : fpath) : list fpath := map (λ n, take n p) (seq 0 (S (length p))).
Definition MkdirAll (p : fpath) : M Disk unit := λ d,
  match os_mkdir os p with Some e => (Err e, d) | None =>
  if forallb (λ q, bool_decide (d_files d !! q = None)) (prefixes p)
  then (Ok tt, mkDisk (d_files d) (list_to_set (prefixes p) ∪ d_dirs d)) else (Err (New "not a directory"), d) end.
Definition has_entries (p : fpath) (d : Disk) : bool :=
  existsb (λ q, bool_decide (parent q = p) && bool_decide (q ≠ p)) (map fst (map_to_list (d_files d)) ++ elements (d_dirs d)).
Definition Remove (p : fpath) : M Disk unit := λ d,
  match os_remove os p with Some e => (Err e, d) | None =>
  match d_files d !! p with
  | Some _ => (Ok tt, mkDisk (delete p (d_files d)) (d_dirs d))
  | None =>
      if decide (p ∈ d_dirs d) then
        if has_entries p d then (Err (New "directory not empty"), d) else (Ok tt, mkDisk (d_files d) (d_dirs d ∖ {[p]}))
      else (Err os_ErrNotExist, d)
  end end.
(** [os.ReadDir], the entries that are no directories: their names in order *)
Definition ReadDir (p : fpath) (d : Disk) : result (list bytes) :=
  match os_readdir os p with Some e => Err e | None =>
  if decide (p ∈ d_dirs d) then
    Ok (merge_sort name_le (omap (λ e, if bool_decide (parent e.1 = p) then last e.1 else None) (map_to_list (d_files d))))
  else Err os_ErrNotExist end.
End os.

(** ** Keys *)
Class KeyFormats `{Crypto} := {
  GenerateKeyPair : bytes -> Z -> result (PrivKey * PubKey);   (* kind, randomness *)
  GetPublic : PrivKey -> PubKey;
  MarshalPrivateKey : PrivKey -> result bytes;
  UnmarshalPrivateKey : bytes -> result PrivKey;
  pem_Encode : bytes -> bytes -> bytes;
  pem_Decode : bytes -> option (bytes * bytes);                (* type, contents *)
}.
Class KeyLaws `{KeyFormats} : Prop := {
  Generate_public kind rnd sk pk : GenerateKeyPair kind rnd = Ok (sk, pk) -> GetPublic sk = pk;
  Unmarshal_private sk bs : MarshalPrivateKey sk = Ok bs -> UnmarshalPrivateKey bs = Ok sk;
  pem_roundtrip t bs : pem_Decode (pem_Encode t bs) = Some (t, bs);
}.
Record KeyInfo := mkKeyInfo { ki_Name : bytes; ki_MemNSName : bytes; ki_CreatedAt : Z; ki_PublicKey : bytes }.
Definition self : bytes := lit "self".

Section keyring.
Context `{Multiformats, Text, KeyFormats, Proto MemNSRecord} (os : OS) (dataDir : fpath).

Definition keyringDir : fpath := dataDir ++ [lit "keyring"].
Definition identityPath : fpath := dataDir ++ [lit "identity.key"].
Definition privPath (name : bytes) : fpath := filepath_Join keyringDir (name ++ lit ".key").
Definition pubPath (name : bytes) : fpath := filepath_Join keyringDir (name ++ lit ".pub").
Definition recordPath (name : bytes) : fpath := filepath_Join keyringDir (name ++ lit ".record").
(** the two files of a key *)
Definition write_pair (name privBytes pubBytes : bytes) : M Disk unit :=
  _ ← wrapM "failed to write private key" (WriteFile os (privPath name) privBytes);
  wrapM "failed to write public key" (WriteFile os (pubPath name) pubBytes).
Definition Generate (rnd : Z) (name keyType : bytes) : M Disk Key :=
  _ ← refuse (bool_decide (name = self)) (New "cannot generate key named 'self' (reserved for node identity)");
  kp ← liftr (wrap "failed to generate key pair" (GenerateKeyPair (if bool_decide (keyType = lit "rsa") then lit "rsa" else lit "ed25519") rnd));
  _ ← wrapM "failed to create keyring directory" (MkdirAll os keyringDir);
  privBytes ← liftr (wrap "failed to marshal private key" (MarshalPrivateKey kp.1));
  pubBytes ← liftr (wrap "failed to marshal public key" (MarshalPublicKey kp.2));
  _ ← write_pair name privBytes pubBytes;
  memNSName ← liftr (DeriveMemNSName kp.2);
  mret (mkKey _ name kp.1 kp.2 memNSName).
Definition Get (name : bytes) (d : Disk) : result Key :=
  privBytes ← (if bool_decide (name = self) then wrap "failed to read identity.key" (ReadFile os identityPath d)
               else wrap "failed to read key" (ReadFile os (privPath name) d));
  privKey ← wrap "failed to unmarshal private key" (UnmarshalPrivateKey privBytes);
  memNSName ← DeriveMemNSName (GetPublic privKey);
  Ok (mkKey _ name privKey (GetPublic privKey) memNSName).
Definition key_info (name : bytes) (p : fpath) (d : Disk) : option KeyInfo :=
  match Stat_file os p d, Get name d with
  | Ok mtime, Ok key =>
      let pubBytes := match MarshalPublicKey (k_PubKey key) with Ok b => b | Err _ => [] end in
      Some (mkKeyInfo name (k_MemNSName key) mtime (b64_Encode pubBytes))
  | _, _ => None
  end.
Definition key_name (entry : bytes) : option bytes :=
  let n := (length entry - 4)%nat in
  if bool_decide (drop n entry = lit ".key") && bool_decide (take n entry ≠ self) then Some (take n entry) else None.
Definition ListKeys (d : Disk) : list KeyInfo :=
  option_list (key_info self identityPath d) ++
  match ReadDir os keyringDir d with
  | Ok entries => omap (λ e, name ← key_name e; key_info name (filepath_Join keyringDir e) d) entries
  | Err _ => []
  end.
Definition Export (name : bytes) (d : Disk) : result bytes :=
  key ← Get name d;
  privBytes ← wrap "failed to marshal private key" (MarshalPrivateKey (k_PrivKey key));
  Ok (pem_Encode (lit "PRIVATE KEY") privBytes).
Definition Import (name pemBytes : bytes) : M Disk unit :=
  _ ← refuse (bool_decide (name = self)) (New "cannot overwrite node identity key 'self' via import");
  match pem_Decode pemBytes with
  | None => throw (New "invalid PEM data")
  | Some (type, block) =>
      _ ← refuse (bool_decide (type ≠ lit "PRIVATE KEY")) (New "invalid PEM block type");
      privKey ← liftr (wrap "failed to unmarshal private key" (UnmarshalPrivateKey block));
      pubBytes ← liftr (wrap "failed to marshal public key" (MarshalPublicKey (GetPublic privKey)));
      _ ← wrapM "failed to create keyring directory" (MkdirAll os keyringDir);
      write_pair name block pubBytes
  end.
(** an error other than that the file is not there is dropped *)
Definition Delete (name : bytes) : M Disk unit := λ d,
  if bool_decide (name = self) then (Err (New "cannot delete node identity key 'self'"), d) else
  let '(err1, d) := Remove os (privPath name) d in
  let '(err2, d) := Remove os (pubPath name) d in
  let gone r := match r with Err e => errors_is e os_ErrNotExist | Ok _ => false end in
  (if gone err1 && gone err2 then Err (New "key not found") else Ok tt, d).
Definition SaveRecord (name : bytes) (record : MemNSRecord) : M Disk unit :=
  _ ← MkdirAll os keyringDir;
  data ← liftr (marshal record);
  WriteFile os (recordPath name) data.
Definition LoadRecord (name : bytes) (d : Disk) : result MemNSRecord := data ← ReadFile os (recordPath name) d; unmarshal data.
Definition ListRecords (d : Disk) : list MemNSRecord := rights (map (λ k, LoadRecord (ki_Name k) d) (ListKeys d)).
End keyring.

(** ** Properties *)
Definition plain (name : bytes) : Prop := Byte.x2f ∉ name.
Lemma split_plain seg s : plain s -> split_slash seg s = [seg ++ s].
Proof.
  revert seg. induction s as [|b s IH]; intros seg Hs; cbn [split_slash]; [by rewrite app_nil_r|].
  apply not_elem_of_cons in Hs as [Hb Hs]. rewrite bool_decide_eq_false_2 by done. rewrite IH by done. by rewrite <-app_assoc.
Qed.
Lemma Join_plain base n ext : plain n -> ext ∈ [lit ".key"; lit ".pub"; lit ".record"] -> filepath_Join base (n ++ ext) = base ++ [n ++ ext].
Proof.
  intros Hn He. unfold filepath_Join. rewrite split_plain.
  - cbn [foldl app]. unfold clean_step. assert (3 ≤ length (n ++ ext))%nat as Hl.
    { rewrite length_app. repeat (apply elem_of_cons in He as [->|He]; [cbn; lia|]). by apply not_elem_of_nil in He. }
    rewrite !bool_decide_eq_false_2; [done|by intros E; rewrite E in Hl; cbn in Hl; lia..].
  - intros Hin%elem_of_app. destruct Hin as [Hin|Hin]; [by apply Hn|]. revert Hin.
    repeat (apply elem_of_cons in He as [->|He]; [by apply (bool_decide_unpack _); vm_compute|]). by apply not_elem_of_nil in He.
Qed.

Section facts.
Context `{Multiformats, Text, KeyFormats} `{!KeyLaws} `{Proto MemNSRecord} (dataDir : fpath).
Abbreviation priv := (privPath dataDir).
Abbreviation pub := (pubPath dataDir).
Abbreviation record := (recordPath dataDir).
Abbreviation kdir := (keyringDir dataDir).

(** what changes below the keyring lies in [ps] *)
Definition only (ps : list fpath) (d d' : Disk) : Prop := forall q, q ∉ ps ->
  d_files d' !! q = d_files d !! q /\ (q ∈ d_dirs d -> q ∈ d_dirs d') /\ (q ∉ prefixes kdir -> q ∈ d_dirs d' -> q ∈ d_dirs d).
#[local] Instance only_preorder ps : PreOrder (only ps).
Proof.
  split; [by intros d q _|]. intros a b c H1' H2' q Hq. destruct (H1' q Hq) as (E1 & D1 & R1), (H2' q Hq) as (E2 & D2 & R2). split; [congruence|auto].
Qed.
Lemma WriteFile_only os p data d ps : p ∈ ps -> only ps d (WriteFile os p data d).2.
Proof.
  intros Hp q Hq. assert (q ≠ p) as Hne by (intros ->; done). unfold WriteFile. destruct (decide _); [done|]. destruct (decide _); [|done].
  destruct (os_write os p data) as [[err [rest|]]|]; [|done|]; cbn; by rewrite lookup_insert_ne.
Qed.
Lemma MkdirAll_only os ps d : only ps d (MkdirAll os kdir d).2.
Proof.
  intros q _. unfold MkdirAll. destruct (os_mkdir os kdir); [done|]. destruct (forallb _ _); [|done]. cbn [snd d_files d_dirs]. split; [done|].
  rewrite elem_of_union, elem_of_list_to_set. tauto.
Qed.
Lemma Remove_only os p d ps : p ∈ ps -> only ps d (Remove os p d).2.
Proof.
  intros Hp q Hq. assert (q ≠ p) as Hne by (intros ->; done). unfold Remove. destruct (os_remove os p); [done|].
  destruct (d_files d !! p); [cbn; by rewrite lookup_delete_ne|]. destruct (decide _); [|done]. destruct (has_entries p d); [done|]. cbn. split; [done|].
  rewrite elem_of_difference, elem_of_singleton. tauto.
Qed.
Lemma bind_only {A B} (m : M Disk A) (f : A -> M Disk B) ps d :
  only ps d (m d).2 -> (forall a d, only ps d (f a d).2) -> only ps d ((a ← m; f a) d).2.
Proof. intros Hm Hf. unfold mbind, M_bind. destruct (m d) as [[a|e] d1]; [|done]. etrans; [exact Hm|apply Hf]. Qed.
Lemma wrap_only {A} msg (m : M Disk A) ps d : only ps d (m d).2 -> only ps d (wrapM msg m d).2.
Proof. unfold wrapM. by destruct (m d) as [[]]. Qed.
Ltac only_tac := repeat (first [apply bind_only; [|intros ? ?] | apply wrap_only | apply MkdirAll_only | reflexivity
  | apply WriteFile_only; set_solver | apply Remove_only; set_solver | case_match ]).
Lemma Generate_only os rnd name ty d : only [priv name; pub name] d (Generate os dataDir rnd name ty d).2.
Proof. unfold Generate, refuse, liftr, write_pair. only_tac. Qed.
Lemma Import_only os name pem d : only [priv name; pub name] d (Import os dataDir name pem d).2.
Proof. unfold Import, refuse, liftr, write_pair. only_tac. Qed.
Lemma Delete_only os name d : only [priv name; pub name] d (Delete os dataDir name d).2.
Proof.
  unfold Delete. case_bool_decide; [done|]. destruct (Remove os (priv name) d) as [e1 d1] eqn:E1. destruct (Remove os (pub name) d1) as [e2 d2] eqn:E2. cbn.
  assert (d1 = (Remove os (priv name) d).2) as -> by by rewrite E1. assert (d2 = (Remove os (pub name) (Remove os (priv name) d).2).2) as -> by by rewrite E2.
  etrans; apply Remove_only; set_solver.
Qed.
Lemma SaveRecord_only os name r d : only [record name] d (SaveRecord os dataDir name r d).2.
Proof. unfold SaveRecord, liftr. only_tac. Qed.

Inductive op := OpGenerate (rnd : Z) (name ty : bytes) | OpImport (name pem : bytes) | OpDelete (name : bytes) | OpSave (name : bytes) (r : MemNSRecord).
Definition op_name (o : op) : bytes := match o with OpGenerate _ n _ | OpImport n _ | OpDelete n | OpSave n _ => n end.
Definition run_op (e : OS * op) (d : Disk) : Disk := match e.2 with
  | OpGenerate rnd n ty => (Generate e.1 dataDir rnd n ty d).2 | OpImport n pem => (Import e.1 dataDir n pem d).2
  | OpDelete n => (Delete e.1 dataDir n d).2 | OpSave n r => (SaveRecord e.1 dataDir n r d).2 end.
Definition run_ops (ops : list (OS * op)) (d : Disk) : Disk := foldl (λ d e, run_op e d) d ops.
Lemma run_ops_only ops d : only (map op_name ops.*2 ≫= λ n, [priv n; pub n; record n]) d (run_ops ops d).
Proof.
  assert (forall ps ps' d d', only ps d d' -> ps ⊆ ps' -> only ps' d d') as Hmono by (intros ps ps' e e' Ho Hs q Hq; apply Ho; set_solver).
  revert d. induction ops as [|[os o] ops IH]; intros d; [done|]. unfold run_ops in *. cbn [foldl]. etrans; [|eapply Hmono; [apply IH|cbn; set_solver]].
  unfold run_op. cbn [fst snd fmap list_fmap map mbind list_bind]. destruct o as [rnd n ty|n pem|n|n r]; cbn [op_name].
  - eapply Hmono; [apply Generate_only|set_solver].
  - eapply Hmono; [apply Import_only|set_solver].
  - eapply Hmono; [apply Delete_only|set_solver].
  - eapply Hmono; [apply SaveRecord_only|set_solver].
Qed.
Lemma only_ReadFile os ps d d' p : only ps d d' -> p ∉ ps -> p ∉ prefixes kdir -> ReadFile os p d' = ReadFile os p d.
Proof.
  intros Ho Hp Hk. destruct (Ho p Hp) as (Ef & Ed & Er). unfold ReadFile. destruct (os_read os p); [done|]. rewrite Ef. destruct (d_files d !! p); [done|].
  specialize (Er Hk). destruct (decide (p ∈ d_dirs d')), (decide (p ∈ d_dirs d)); tauto.
Qed.

(** the files of plain names are apart *)
Definition exts : list bytes := [lit ".key"; lit ".pub"; lit ".record"].
Ltac in_exts H := unfold exts in H; rewrite !elem_of_cons, elem_of_nil in H; destruct H as [->|[->|[->|[]]]].
Lemma ext_inj n m x y : x ∈ exts -> y ∈ exts -> n ++ x = m ++ y -> n = m /\ x = y.
Proof.
  intros Hx Hy E. assert (last x = last y) as El.
  { apply (f_equal last) in E. rewrite !last_app in E. in_exts Hx; in_exts Hy; exact E. }
  assert (x = y) as ->; [|by apply app_inv_tail in E].
  in_exts Hx; in_exts Hy; done.
Qed.
Lemma paths_apart n m x y : plain n -> plain m -> n ≠ m -> x ∈ exts -> y ∈ exts -> filepath_Join kdir (n ++ x) ≠ filepath_Join kdir (m ++ y).
Proof. intros Hn Hm Hne Hx Hy. rewrite !Join_plain by done. intros E%app_inv_head. injection E as E. by apply ext_inj in E as [? _]. Qed.
Lemma path_no_prefix n x : plain n -> x ∈ exts -> (filepath_Join kdir (n ++ x) ∉ prefixes kdir) /\ filepath_Join kdir (n ++ x) ≠ identityPath dataDir.
Proof.
  intros Hn Hx. rewrite Join_plain by done. split.
  - unfold prefixes. intros (k & E & _)%list_elem_of_fmap. apply (f_equal length) in E. rewrite length_take, length_app in E. cbn in E. lia.
  - unfold keyringDir, identityPath. intros E. apply (f_equal length) in E. rewrite !length_app in E. cbn in E. lia.
Qed.
Lemma identity_no_prefix : identityPath dataDir ∉ prefixes kdir.
Proof.
  unfold prefixes. intros (k & E & _)%list_elem_of_fmap. unfold identityPath, keyringDir in E. destruct (decide (k ≤ length dataDir))%nat.
  - apply (f_equal length) in E. rewrite length_take, !length_app in E. cbn in E. lia.
  - rewrite take_ge in E by (rewrite length_app; cbn; lia). apply app_inv_head in E. done.
Qed.

(** what is under a plain name stays when others are at work, and so does the identity of the node *)
Lemma keyring_isolated ops d name : plain name -> (forall e, e ∈ ops -> plain (op_name e.2) /\ op_name e.2 ≠ name) -> forall os,
  Get os dataDir name (run_ops ops d) = Get os dataDir name d /\ LoadRecord os dataDir name (run_ops ops d) = LoadRecord os dataDir name d /\
  Get os dataDir self (run_ops ops d) = Get os dataDir self d.
Proof.
  intros Hn Hops os. pose proof (run_ops_only ops d) as Ho. set (ps := map op_name ops.*2 ≫= _) in *.
  assert (forall q, q ∈ ps -> exists m x, plain m /\ m ≠ name /\ x ∈ exts /\ q = filepath_Join kdir (m ++ x)) as Hps.
  { subst ps. intros q (m & Hq & Hm)%list_elem_of_bind. apply list_elem_of_fmap in Hm as (o & -> & Ho2).
    apply list_elem_of_fmap in Ho2 as (e & -> & He). destruct (Hops e He) as [Hp Hne].
    rewrite !elem_of_cons, elem_of_nil in Hq. destruct Hq as [->|[->|[->|[]]]]; eexists _, _; (split; [exact Hp|]); (split; [exact Hne|]); (split; [|reflexivity]); unfold exts; rewrite !elem_of_cons; tauto. }
  assert (forall x, x ∈ exts -> filepath_Join kdir (name ++ x) ∉ ps) as Hout.
  { intros x Hx Hin. destruct (Hps _ Hin) as (m & y & Hm & Hne & Hy & E). symmetry in E. by apply (paths_apart m name y x) in E. }
  assert (identityPath dataDir ∉ ps) as Hid.
  { intros Hin. destruct (Hps _ Hin) as (m & y & Hm & Hne & Hy & E). by apply (proj2 (path_no_prefix m y Hm Hy)). }
  assert (forall x, x ∈ exts -> ReadFile os (filepath_Join kdir (name ++ x)) (run_ops ops d) = ReadFile os (filepath_Join kdir (name ++ x)) d) as Hr.
  { intros x Hx. eapply only_ReadFile; [exact Ho|by apply Hout|by apply path_no_prefix]. }
  pose proof (only_ReadFile os _ _ _ _ Ho Hid identity_no_prefix) as Hrid.
  unfold Get, LoadRecord, privPath, recordPath. rewrite !Hr, Hrid by (unfold exts; set_solver). done.
Qed.
Lemma write_pair_Ok os name a b d d' : plain name -> write_pair os dataDir name a b d = (Ok tt, d') ->
  forall ros, os_read ros (priv name) = None -> ReadFile ros (priv name) d' = Ok a.
Proof.
  intros Hn E ros Hr. unfold write_pair in E. apply M_bind_inv in E as ([] & d1 & E1 & E2).
  assert (only [pub name] d1 d') as Ho.
  { replace d' with (wrapM "failed to write public key" (WriteFile os (pub name) b) d1).2 by by rewrite E2. apply wrap_only, WriteFile_only. set_solver. }
  assert (priv name ≠ pub name) as Hne.
  { unfold privPath, pubPath. rewrite !Join_plain by (done || set_solver). intros E%app_inv_head. injection E as E. apply app_inv_head in E. done. }
  rewrite (only_ReadFile ros _ _ _ _ Ho); [|by rewrite list_elem_of_singleton|apply (path_no_prefix name (lit ".key")); [done|unfold exts; set_solver]].
  unfold wrapM, WriteFile in E1. destruct (decide _); [done|]. destruct (decide _); [|done]. destruct (os_write os (priv name) a) as [[err [rest|]]|]; [done..|].
  injection E1 as <-. unfold ReadFile. rewrite Hr. cbn. by rewrite lookup_insert_eq.
Qed.
Lemma Get_written ros name sk bs nm d : name ≠ self -> ReadFile ros (priv name) d = Ok bs -> MarshalPrivateKey sk = Ok bs ->
  DeriveMemNSName (GetPublic sk) = Ok nm -> Get ros dataDir name d = Ok (mkKey _ name sk (GetPublic sk) nm).
Proof.
  intros Hne Hr Hm Hd. unfold Get. rewrite bool_decide_eq_false_2 by done. rewrite Hr. cbn [wrap mbind result_bind].
  rewrite (Unmarshal_private _ _ Hm). cbn [wrap mbind result_bind]. by rewrite Hd.
Qed.
Lemma Get_key ros name d key : Get ros dataDir name d = Ok key ->
  k_PubKey key = GetPublic (k_PrivKey key) /\ DeriveMemNSName (GetPublic (k_PrivKey key)) = Ok (k_MemNSName key).
Proof.
  unfold Get. destruct (if bool_decide _ then _ else _) as [bs|]; [|done]. cbn [mbind result_bind].
  destruct (wrap _ (UnmarshalPrivateKey bs)) as [sk|]; [|done]. cbn [mbind result_bind].
  destruct (DeriveMemNSName (GetPublic sk)) as [nm|] eqn:E; [|done]. cbn [mbind result_bind]. by intros [= <-].
Qed.
Lemma Generate_Ok os rnd name ty d key d' : plain name -> Generate os dataDir rnd name ty d = (Ok key, d') -> name ≠ self /\
  (forall ros, os_read ros (priv name) = None -> Get ros dataDir name d' = Ok key) /\ exists bs, MarshalPrivateKey (k_PrivKey key) = Ok bs.
Proof.
  intros Hn E. unfold Generate, liftr in E. apply M_bind_inv in E as (u & d1 & Eself & E).
  apply refuse_inv in Eself as [Hs%bool_decide_eq_false_1 ->]. split; [done|]. apply M_bind_inv in E as ([sk pk] & d1 & [= E1 <-] & E).
  unfold wrap in E1. destruct (GenerateKeyPair _ rnd) as [kp|] eqn:Eg; [|done]. injection E1 as ->.
  apply M_bind_inv in E as (u1 & d1 & _ & E). apply M_bind_inv in E as (a & d2 & [= Ea <-] & E). apply M_bind_inv in E as (b & d2 & [= _ <-] & E).
  apply M_bind_inv in E as ([] & d2 & Ew & E). apply M_bind_inv in E as (nm & d3 & [= Enm <-] & [= <- <-]).
  cbn [fst snd k_PrivKey] in *. unfold wrap in Ea. destruct (MarshalPrivateKey sk) as [a'|] eqn:Em; [|done]. injection Ea as ->.
  pose proof (Generate_public _ _ _ _ Eg) as Hpub. subst pk. split; [|by exists a].
  intros ros Hr. eapply Get_written; [done| |exact Em|exact Enm]. by eapply write_pair_Ok.
Qed.

(** ** The list of keys *)
Lemma key_name_inv e n : key_name e = Some n -> e = n ++ lit ".key" /\ n ≠ self.
Proof.
  unfold key_name. cbv zeta. case_bool_decide as Hd; [|done]. case_bool_decide as Hs; [|done]. cbn [andb]. intros [= <-].
  split; [|done]. by rewrite <-Hd, take_drop.
Qed.
Lemma key_name_app n : n ≠ self -> key_name (n ++ lit ".key") = Some n.
Proof.
  intros Hn. unfold key_name. cbv zeta. rewrite length_app. replace (length n + length (lit ".key") - 4)%nat with (length n) by (cbn; lia).
  by rewrite take_app_length, drop_app_length, !bool_decide_eq_true_2.
Qed.
Definition entry_of (p : fpath) (e : fpath * File) : option bytes := if bool_decide (parent e.1 = p) then last e.1 else None.
Lemma entry_of_inv p e n : entry_of p e = Some n -> e.1 = p ++ [n].
Proof.
  unfold entry_of, parent. case_bool_decide as Hp; [|done]. intros (l & E)%last_Some. rewrite E, removelast_last in Hp. by rewrite E, Hp.
Qed.
Lemma ReadDir_spec os p d l : ReadDir os p d = Ok l -> NoDup l /\ forall n, n ∈ l <-> is_Some (d_files d !! (p ++ [n])).
Proof.
  unfold ReadDir. destruct (os_readdir os p); [done|]. destruct (decide _) as [Hdir|]; [|done]. intros [= <-]. fold (entry_of p).
  pose proof (merge_sort_Permutation name_le (omap (entry_of p) (map_to_list (d_files d)))) as Hp.
  split.
  - rewrite Hp. assert (NoDup (map_to_list (d_files d)).*1) as Hnd by apply NoDup_fst_map_to_list.
    revert Hnd. generalize (map_to_list (d_files d)). intros l Hl. induction l as [|x l IH]; [constructor|]. apply NoDup_cons in Hl as [He Hl].
    cbn [omap list_omap]. destruct (entry_of p x) as [n|] eqn:En; [|by apply IH]. constructor; [|by apply IH].
    intros (e' & Hin & En')%list_elem_of_omap. apply He. apply entry_of_inv in En, En'. rewrite En, <-En'. by apply list_elem_of_fmap_2.
  - intros n. rewrite Hp, list_elem_of_omap. split.
    + intros (e & Hin & En). apply entry_of_inv in En. destruct e as [q f]. apply elem_of_map_to_list in Hin. cbn in En. subst q. by eexists.
    + intros [f Hf]. exists (p ++ [n], f). split; [by apply elem_of_map_to_list|]. unfold entry_of, parent. cbn. rewrite removelast_last.
      by rewrite bool_decide_eq_true_2, last_snoc.
Qed.
Lemma key_info_name os name p d k : key_info os dataDir name p d = Some k -> ki_Name k = name.
Proof. unfold key_info. destruct (Stat_file os p d); [|done]. destruct (Get os dataDir name d); [|done]. by intros [= <-]. Qed.
(** file names have no slashes *)
Definition disk_ok (d : Disk) : Prop := forall p f, d_files d !! p = Some f -> Forall plain p.
Lemma ListKeys_names os d : disk_ok d -> NoDup (map ki_Name (ListKeys os dataDir d)) /\ Forall plain (map ki_Name (ListKeys os dataDir d)).
Proof.
  intros Hd. unfold ListKeys. set (f := λ e : bytes, name ← key_name e; key_info os dataDir name (filepath_Join kdir e) d).
  assert (forall e k, f e = Some k -> e = ki_Name k ++ lit ".key" /\ ki_Name k ≠ self) as Hf.
  { intros e k. subst f. cbv beta. destruct (key_name e) as [n|] eqn:En; [|done]. intros Hi. apply key_info_name in Hi. rewrite Hi. by apply key_name_inv. }
  assert (forall l, NoDup l -> (forall e, e ∈ l -> plain e) -> NoDup (map ki_Name (omap f l)) /\ Forall (λ n, n ≠ self /\ plain n) (map ki_Name (omap f l))) as Hl.
  { clear Hd. induction l as [|e l IH]; intros Hnd Hpl; [by repeat constructor|]. apply NoDup_cons in Hnd as [He Hnd].
    destruct (IH Hnd) as [IH1 IH2]; [intros; apply Hpl; by right|]. cbn [omap list_omap]. destruct (f e) as [k|] eqn:Ek; [|done].
    apply Hf in Ek as [Ee Hs]. cbn [map]. split.
    - constructor; [|done]. intros (k' & E & (e' & He' & Ek')%list_elem_of_omap)%list_elem_of_fmap. apply Hf in Ek' as [Ee' _]. apply He. by rewrite Ee, E, <-Ee'.
    - constructor; [|done]. split; [done|]. intros Hin. apply (Hpl e); [left|]. rewrite Ee. apply elem_of_app. by left. }
  set (tl := match ReadDir os kdir d with Ok _ => _ | Err _ => _ end).
  assert (NoDup (map ki_Name tl) /\ Forall (λ n, n ≠ self /\ plain n) (map ki_Name tl)) as [Htl1 Htl2].
  { subst tl. destruct (ReadDir os kdir d) as [l|] eqn:El; [|by repeat constructor]. apply ReadDir_spec in El as [Hnd Hin]. apply Hl; [done|].
    intros e [x He]%Hin. apply Hd in He. apply Forall_app in He as [_ He]. by rewrite Forall_singleton in He. }
  destruct (key_info os dataDir self (identityPath dataDir) d) as [k|] eqn:Ek; cbn [option_list app map].
  - apply key_info_name in Ek. split.
    + constructor; [|done]. rewrite Ek. intros Hin. rewrite Forall_forall in Htl2. by destruct (Htl2 _ Hin).
    + constructor; [rewrite Ek; by apply (bool_decide_unpack _); vm_compute|]. eapply Forall_impl; [exact Htl2|]. by intros n [_ ?].
  - split; [done|]. eapply Forall_impl; [exact Htl2|]. by intros n [_ ?].
Qed.
Lemma Get_file os name d key : plain name -> name ≠ self -> Get os dataDir name d = Ok key ->
  exists f, d_files d !! (kdir ++ [name ++ lit ".key"]) = Some f.
Proof.
  intros Hn Hs. unfold Get. rewrite bool_decide_eq_false_2 by done. unfold ReadFile, privPath. rewrite Join_plain by (done || set_solver).
  destruct (os_read os _); [done|]. destruct (d_files d !! _) as [f|]; [by exists f|]. by destruct (decide _).
Qed.
Lemma ListKeys_complete os d name key : (forall p, os_stat os p = None) -> os_readdir os kdir = None -> kdir ∈ d_dirs d ->
  plain name -> name ≠ self -> Get os dataDir name d = Ok key -> name ∈ map ki_Name (ListKeys os dataDir d).
Proof.
  intros Hst Hrd Hk Hn Hs Hg. unfold ListKeys. rewrite map_app. apply elem_of_app. right.
  destruct (ReadDir os kdir d) as [l|] eqn:El.
  2:{ unfold ReadDir in El. rewrite Hrd in El. by destruct (decide _). }
  destruct (Get_file _ _ _ _ Hn Hs Hg) as [f Hf].
  pose proof (ReadDir_spec _ _ _ _ El) as [_ Hin]. assert (is_Some (d_files d !! (kdir ++ [name ++ lit ".key"]))) as [? Hf2] by eauto.
  apply list_elem_of_fmap. eexists (mkKeyInfo name _ _ _). split; [reflexivity|]. apply list_elem_of_omap. exists (name ++ lit ".key").
  split; [by apply Hin; eexists|]. rewrite key_name_app by done. cbn [mbind option_bind]. unfold key_info. rewrite Hg.
  unfold Stat_file. rewrite Hst, Join_plain by (done || set_solver). rewrite Hf. reflexivity.
Qed.

(** C36: keys are safe under their names: what [Generate] returned for a name
    without slashes is what [Get] returns for it after any generating, importing,
    deleting and saving of records under other names without slashes, whatever the system reports to
    them; and [Export] and [Import] carry it to any other keyring, where the same key publishes
    the same MemNS name.  (A name with slashes reaches the files of other names: the path is
    joined unchecked.) *)
Theorem key_lives os rnd name ty d key d' ops ros :
  plain name -> Generate os dataDir rnd name ty d = (Ok key, d') ->
  (forall e, e ∈ ops -> plain (op_name e.2) /\ op_name e.2 ≠ name) -> (forall p, os_read ros p = None) ->
  Get ros dataDir name (run_ops ops d') = Ok key /\
  exists pem, Export ros dataDir name (run_ops ops d') = Ok pem /\
    forall os2 name2 e e', plain name2 -> Import os2 dataDir name2 pem e = (Ok tt, e') ->
    Get ros dataDir name2 e' = Ok (mkKey _ name2 (k_PrivKey key) (k_PubKey key) (k_MemNSName key)).
Proof.
  intros Hn Eg Hops Hr. destruct (Generate_Ok _ _ _ _ _ _ _ Hn Eg) as (Hne & Hget & bs & Hm).
  destruct (keyring_isolated ops d' name Hn Hops ros) as (Hiso & _ & _).
  assert (Get ros dataDir name (run_ops ops d') = Ok key) as Hk by (rewrite Hiso; by apply Hget).
  split; [done|]. unfold Export. rewrite Hk. cbn [mbind result_bind]. rewrite Hm. cbn [wrap mbind result_bind]. eexists. split; [reflexivity|].
  intros os2 name2 e e' Hn2 Ei. unfold Import, liftr in Ei. apply M_bind_inv in Ei as (u & e1 & Eself & Ei).
  apply refuse_inv in Eself as [Hs%bool_decide_eq_false_1 ->]. rewrite pem_roundtrip in Ei.
  apply M_bind_inv in Ei as (u' & e1 & [_ ->]%refuse_inv & Ei). apply M_bind_inv in Ei as (sk & e1 & [= Es <-] & Ei).
  unfold wrap in Es. rewrite (Unmarshal_private _ _ Hm) in Es. injection Es as <-.
  apply M_bind_inv in Ei as (pb & e1 & _ & Ei). apply M_bind_inv in Ei as (u2 & e2 & _ & Ew).
  destruct (Get_key _ _ _ _ Hk) as [Epub Enm].
  rewrite Epub. eapply Get_written; [done|by eapply write_pair_Ok|exact Hm|exact Enm].
Qed.
(** a deleted key leaves its record behind *)
Lemma Delete_keeps_record os ros name d : plain name -> LoadRecord ros dataDir name (Delete os dataDir name d).2 = LoadRecord ros dataDir name d.
Proof.
  intros Hn. unfold LoadRecord. rewrite (only_ReadFile ros _ _ _ (record name) (Delete_only os name d)); [done| |apply path_no_prefix; [done|unfold exts; set_solver]].
  unfold privPath, pubPath, recordPath. rewrite !Join_plain by (done || set_solver). rewrite !elem_of_cons, elem_of_nil. intros [E|[E|[]]]; apply app_inv_head in E; injection E as E; apply app_inv_head in E; done.
Qed.
End facts.

(** ** Instances *)
Fixpoint ones (s : bytes) : nat := match s with b :: s => if bool_decide (b = Byte.x01) then S (ones s) else 0%nat | [] => 0%nat end.
#[export] Instance toy_keys : KeyFormats := {|
  GenerateKeyPair kind rnd := let sk := kind ++ PutUint64 rnd in Ok (sk, sk) : result (PrivKey * PubKey); GetPublic sk := sk;
  MarshalPrivateKey sk := Ok sk; UnmarshalPrivateKey bs := Ok bs;
  pem_Encode t bs := replicate (length t) Byte.x01 ++ [Byte.x00] ++ t ++ bs;
  pem_Decode s := let n := ones s in Some (take n (drop (S n) s), drop n (drop (S n) s));
|}.
#[export] Instance toy_key_laws : KeyLaws.
Proof.
  split.
  - intros kind rnd sk pk E. cbv [GenerateKeyPair toy_keys] in E. injection E as <- <-. reflexivity.
  - intros sk bs [= <-]. reflexivity.
  - intros t bs. cbn [pem_Decode pem_Encode toy_keys].
    assert (ones (replicate (length t) Byte.x01 ++ [Byte.x00] ++ t ++ bs) = length t) as ->.
    { generalize (t ++ bs) (length t). intros rest n. induction n as [|n IH]; [done|]. cbn. by f_equal. }
    assert (drop (S (length t)) (replicate (length t) Byte.x01 ++ [Byte.x00] ++ t ++ bs) = t ++ bs) as ->.
    { rewrite app_assoc. apply drop_app_length'. rewrite length_app, length_replicate. cbn. lia. }
    cbv zeta. by rewrite take_app_length, drop_app_length.
Qed.
Definition calm_os (now : Z) : OS := mkOS now (λ _, None) (λ _, None) (λ _, None) (λ _, None) (λ _, None) (λ _ _, None).
Definition demo_dir : fpath := [lit "data"].
Definition demo_disk : Disk := mkDisk {[ [lit "data"; lit "identity.key"] := mkFile (lit "node") 1 ]} {[ [lit "data"] ]}.
Definition demo_gen : result Key * Disk := Generate (calm_os 5) demo_dir 7 (lit "site") [] demo_disk.
Lemma demo_gen_ok : exists key d', demo_gen = (Ok key, d').
Proof.
  assert (is_ok demo_gen.1 = true) as E by (vm_compute; reflexivity). destruct demo_gen as [[key|e] d']; [by eexists _, _|discriminate E].
Qed.
Lemma key_lives_witness : exists key, demo_gen.1 = Ok key /\
  Get (calm_os 9) demo_dir (lit "site") (Delete (calm_os 6) demo_dir (lit "blog") (Generate (calm_os 6) demo_dir 8 (lit "blog") [] demo_gen.2).2).2 = Ok key.
Proof.
  destruct demo_gen_ok as (key & d' & E). exists key. rewrite E. split; [reflexivity|].
  apply (key_lives demo_dir (calm_os 5) 7 (lit "site") [] demo_disk key d'
    [(calm_os 6, OpGenerate 8 (lit "blog") []); (calm_os 6, OpDelete (lit "blog"))] (calm_os 9)).
  - apply (bool_decide_unpack _). vm_compute. reflexivity.
  - exact E.
  - intros e He. rewrite !elem_of_cons, elem_of_nil in He.
    destruct He as [->|[->|[]]]; (split; [apply (bool_decide_unpack _); vm_compute; reflexivity|vm_compute; discriminate]).
  - reflexivity.
Defined.
(** a name with dots and slashes reaches the identity of the node, which the guards on "self" protect *)
Lemma traversal_replaces_identity :
  ReadFile (calm_os 9) (identityPath demo_dir) (Generate (calm_os 5) demo_dir 7 (lit "../identity") [] demo_disk).2 = Ok (lit "ed25519" ++ PutUint64 7) /\
  ReadFile (calm_os 9) (identityPath demo_dir) (Delete (calm_os 5) demo_dir (lit "../identity") demo_disk).2 = Err os_ErrNotExist.
Proof. split; vm_compute; reflexivity. Qed.
(** a key that cannot be removed is reported as removed *)
Lemma failed_delete_succeeds :
  let os := mkOS 9 (λ _, None) (λ _, None) (λ _, None) (λ _, None) (λ _, Some (New "permission denied")) (λ _ _, None) in
  Delete os demo_dir (lit "site") demo_gen.2 = (Ok tt, demo_gen.2).
Proof. vm_compute. reflexivity. Qed.
