(* ===== verification/NameService.v ===== *)
(** * The name service of a node (src/api/api.go, src/cmd/membuss/daemon/explorer_backend.go,
      src/net/herald/herald.go)

    The handlers behind /memns and /keyring, the same for the explorer, and the part of the
    herald that signs and publishes every saved record again.  They tie the keyring, the
    records and the DHT together: [Node] is the state they share.  Encoding of requests and
    replies as JSON is left out.
    [names_stay_alive]: a published name resolves to its target as long as the herald comes by
    within the record's time to live. *)
From S2P Require Import Prelude Mid Wire Blockstore Names NameResolver Keyring.

Definition day : Z := 24 * 3600 * 1000000000.
(** an HTTP reply: the data, or a status and an error *)
Inductive reply (A : Type) := Answer (a : A) | Failed (status : Z) (e : error).
Arguments Answer {A} a.
Arguments Failed {A} status e.
Definition replied {A} (status : Z) (r : result A) : reply A := match r with Ok a => Answer a | Err e => Failed status e end.
(** the parts of a record that are replaced *)
Definition set_changelog (l : list MemLogEntry) (r : MemNSRecord) : MemNSRecord :=
  mkMemNSRecord (nr_Value r) (nr_Signature r) (nr_Sequence r) (nr_Validity r) (nr_PublicKey r) (nr_Ttl r) (nr_ValidityType r) (nr_Routes r) (nr_Delegates r) l (nr_Meta r).
Definition set_delegates (l : list bytes) (r : MemNSRecord) : MemNSRecord :=
  mkMemNSRecord (nr_Value r) (nr_Signature r) (nr_Sequence r) (nr_Validity r) (nr_PublicKey r) (nr_Ttl r) (nr_ValidityType r) (nr_Routes r) l (nr_Changelog r) (nr_Meta r).
Definition set_meta (m : gmap bytes bytes) (r : MemNSRecord) : MemNSRecord :=
  mkMemNSRecord (nr_Value r) (nr_Signature r) (nr_Sequence r) (nr_Validity r) (nr_PublicKey r) (nr_Ttl r) (nr_ValidityType r) (nr_Routes r) (nr_Delegates r) (nr_Changelog r) m.
Definition set_times (seq validity : Z) (r : MemNSRecord) : MemNSRecord :=
  mkMemNSRecord (nr_Value r) (nr_Signature r) seq validity (nr_PublicKey r) (nr_Ttl r) (nr_ValidityType r) (nr_Routes r) (nr_Delegates r) (nr_Changelog r) (nr_Meta r).
Definition set_signature (sig : bytes) (r : MemNSRecord) : MemNSRecord :=
  mkMemNSRecord (nr_Value r) sig (nr_Sequence r) (nr_Validity r) (nr_PublicKey r) (nr_Ttl r) (nr_ValidityType r) (nr_Routes r) (nr_Delegates r) (nr_Changelog r) (nr_Meta r).

Record PublishRequest := mkPublishRequest { pq_Key : bytes; pq_Value : bytes; pq_TTL : Z; pq_Message : bytes; pq_Routes : list MemRoute }.

Section service.
Context `{Multiformats, Text, KeyFormats, Proto MemNSRecord, DHT} (os : OS) (dataDir : fpath).
(** the topics that take messages, if the node has publish-subscribe *)
Context (pubsub : option (bytes -> bool)) (now : Z).

Record Node := mkNode { nd_dht : D; nd_disk : Disk; nd_sent : list (bytes * bytes) }.
(** [ResolveDHT] looks at the clock and the DHT only *)
Definition look (d : D) (name : bytes) : result MemNSRecord :=
  ResolveDHT (mkREnv now (λ _, 0) None (GetValue d) (λ _, Ok []) (λ _, Ok []) None false (λ _, None)) name.
Definition publish_dht (key : Key) (r : MemNSRecord) : M Node unit := λ nd,
  match PublishDHT key r (nd_dht nd) with Ok d => (Ok tt, mkNode d (nd_disk nd) (nd_sent nd)) | Err e => (Err e, nd) end.
Definition PublishPub (key : Key) (r : MemNSRecord) (nd : Node) : Node :=
  let topic := topic_name (k_MemNSName key) in
  match pubsub, marshal r with
  | Some takes, Ok data => if takes topic then mkNode (nd_dht nd) (nd_disk nd) (nd_sent nd ++ [(topic, data)]) else nd
  | _, _ => nd
  end.
Definition save (name : bytes) (r : MemNSRecord) (nd : Node) : Node := mkNode (nd_dht nd) (SaveRecord os dataDir name r (nd_disk nd)).2 (nd_sent nd).

(** ** Publishing *)
(** what a new record takes over from the one before *)
Definition inherit (current : option MemNSRecord) (r : MemNSRecord) : MemNSRecord :=
  match current with
  | None => r
  | Some c =>
      let r := set_changelog (nr_Changelog c ++ nr_Changelog r) r in
      let r := if bool_decide (nr_Delegates c = []) then r else set_delegates (nr_Delegates c) r in
      set_meta (delete owner_key (nr_Meta c) ∪ nr_Meta r) r
  end.
Definition next_sequence (current : option MemNSRecord) : Z := match current with Some c => u64 (nr_Sequence c + 1) | None => 1 end.
Definition request_ttl (secs : Z) : Z := if 0 <? secs then i64 (i64 secs * 1000000000) else day.
Definition handleMemNSPublish (req : PublishRequest) (nd : Node) : reply (bytes * Z) * Node :=
  match Get os dataDir (pq_Key req) (nd_disk nd) with
  | Err e => (Failed 404 e, nd)
  | Ok key =>
      let current := match look (nd_dht nd) (k_MemNSName key) with Ok r => Some r | Err _ => None end in
      match BuildRecord now key (pq_Value req) (next_sequence current) (request_ttl (pq_TTL req)) (pq_Routes req) (pq_Message req) with
      | Err e => (Failed 400 e, nd)
      | Ok record =>
          let record := inherit current record in
          let '(errDHT, nd) := publish_dht key record nd in
          let nd := PublishPub key record nd in
          match errDHT with
          | Err e => (Failed 500 (Wrap "dht publish failed" e), nd)
          | Ok _ => (Answer (k_MemNSName key, nr_Sequence record), save (pq_Key req) record nd)
          end
      end
  end.
Definition handleMemNSResolve (name : bytes) (nd : Node) : reply (bytes * Z * Z * list MemRoute) :=
  replied 404 (rec ← look (nd_dht nd) name; Ok (nr_Value rec, nr_Sequence rec, nr_Validity rec, nr_Routes rec)).
Definition handleMemNSLog (name : bytes) (nd : Node) : reply (list (Z * bytes * Z * bytes)) :=
  replied 404 (rec ← look (nd_dht nd) name; Ok (map (λ e, (ml_Sequence e, ml_Value e, ml_Timestamp e, ml_Message e)) (nr_Changelog rec))).

(** ** Delegates *)
(** a changed record is signed, published and saved *)
Definition reissue (name : bytes) (key : Key) (current : MemNSRecord) (nd : Node) : reply unit * Node :=
  let current := set_times (u64 (nr_Sequence current + 1)) (i64 (now + day)) current in
  match Sign (k_PrivKey key) (CanonicalBytes current) with
  | Err e => (Failed 500 (Wrap "failed to sign record" e), nd)
  | Ok sig =>
      let current := set_signature sig current in
      match publish_dht key current nd with
      | (Err e, nd) => (Failed 500 (Wrap "failed to publish to DHT" e), nd)
      | (Ok _, nd) => (Answer tt, save name current (PublishPub key current nd))
      end
  end.
Definition with_record {A} (name : bytes) (f : Key -> MemNSRecord -> reply A * Node) (nd : Node) : reply A * Node :=
  match Get os dataDir name (nd_disk nd) with
  | Err e => (Failed 404 e, nd)
  | Ok key =>
      match look (nd_dht nd) (k_MemNSName key) with
      | Err e => (Failed 500 (Wrap "failed to get latest record from DHT" e), nd)
      | Ok current => f key current
      end
  end.
Definition handleMemNSDelegateAdd (name delegate : bytes) (nd : Node) : reply unit * Node :=
  match b64_Decode delegate with
  | Err e => (Failed 400 (Wrap "invalid base64 public key" e), nd)
  | Ok d => with_record name (λ key current,
      if bool_decide (d ∈ nr_Delegates current) then (Answer tt, nd) else
      reissue name key (set_delegates (nr_Delegates current ++ [d]) current) nd) nd
  end.
Definition handleMemNSDelegateRm (name delegate : bytes) (nd : Node) : reply unit * Node :=
  match b64_Decode delegate with
  | Err e => (Failed 400 (Wrap "invalid base64 public key" e), nd)
  | Ok d => with_record name (λ key current,
      if bool_decide (d ∈ nr_Delegates current) then
        reissue name key (set_delegates (filter (λ x, x ≠ d) (nr_Delegates current)) current) nd
      else (Failed 404 (New "delegate not found in delegates list"), nd)) nd
  end.
Definition handleMemNSDelegateList (name : bytes) (nd : Node) : reply (list bytes) :=
  (with_record name (λ _ current, (Answer (map b64_Encode (nr_Delegates current)), nd)) nd).1.

(** ** Keys *)
Definition on_disk {A} (m : M Disk A) (nd : Node) : reply A * Node :=
  let '(r, d) := m (nd_disk nd) in (replied 500 r, mkNode (nd_dht nd) d (nd_sent nd)).
Definition handleKeyRingGen (rnd : Z) (name ty : bytes) : Node -> reply Key * Node := on_disk (Generate os dataDir rnd name ty).
Definition handleKeyRingList (nd : Node) : reply (list KeyInfo) := Answer (ListKeys os dataDir (nd_disk nd)).
Definition handleKeyRingImport (name pem : bytes) : Node -> reply unit * Node := on_disk (Import os dataDir name pem).
Definition handleKeyRingExport (name : bytes) (nd : Node) : reply bytes := replied 500 (Export os dataDir name (nd_disk nd)).
Definition handleKeyRingRm (name : bytes) : Node -> reply unit * Node := on_disk (Delete os dataDir name).

(** ** The explorer *)
Definition own_record (cleanName : bytes) (d : Disk) : option MemNSRecord :=
  match list_find (λ k, strip_memns (ki_MemNSName k) = cleanName) (ListKeys os dataDir d) with
  | Some (_, k) => match LoadRecord os dataDir (ki_Name k) d with Ok r => Some r | Err _ => None end
  | None => None
  end.
(** the record of an own name is not verified *)
Definition ResolveMemNSRecord (name : bytes) (nd : Node) : result MemNSRecord :=
  let cleanName := strip_memns name in
  match own_record cleanName (nd_disk nd) with Some r => Ok r | None => look (nd_dht nd) cleanName end.
Definition MemNSPublish (keyName value : bytes) (ttl : Z) (message : bytes) (nd : Node) : result MemNSRecord * Node :=
  match wrap "get key" (Get os dataDir keyName (nd_disk nd)) with
  | Err e => (Err e, nd)
  | Ok key =>
      let cleanName := strip_memns (k_MemNSName key) in
      let current := match look (nd_dht nd) cleanName with Ok r => Some r | Err _ => None end in
      let recTTL := if ttl =? 0 then 86400 else ttl in
      match BuildRecord now key value (next_sequence current) (i64 (recTTL * 1000000000)) [] message with
      | Err e => (Err e, nd)
      | Ok record =>
          match publish_dht key record nd with
          | (Err e, nd) => (Err (Wrap "publish dht" e), nd)
          | (Ok _, nd) => let nd := save keyName record (PublishPub key record nd) in (ResolveMemNSRecord cleanName nd, nd)
          end
      end
  end.

(** ** The herald: every record that is saved, signed again *)
Definition renewed (key : Key) (rec : MemNSRecord) : result MemNSRecord :=
  let ttl := if 0 <? nr_Ttl rec then i64 (nr_Ttl rec) else day in
  let rec := set_times (nr_Sequence rec) (i64 (now + ttl)) rec in
  sig ← Sign (k_PrivKey key) (CanonicalBytes rec);
  Ok (set_signature sig rec).
Definition renewable (name : bytes) (d : Disk) : option (Key * MemNSRecord) :=
  match Get os dataDir name d, LoadRecord os dataDir name d with
  | Ok key, Ok rec => match renewed key rec with Ok r => Some (key, r) | Err _ => None end
  | _, _ => None
  end.
(** [wait] is the outcome of the rate limiter at its nth call *)
Fixpoint republish (wait : nat -> option error) (names : list bytes) (waits : nat) (republished : Z) (nd : Node) : Z * Node :=
  match names with
  | [] => (republished, nd)
  | name :: names =>
      match renewable name (nd_disk nd) with
      | None => republish wait names waits republished nd
      | Some (key, rec) =>
          let nd := save name rec nd in
          match wait waits with
          | Some _ => (republished, nd)
          | None =>
              let '(r, nd) := publish_dht key rec nd in
              republish wait names (S waits) (if is_ok r then republished + 1 else republished) nd
          end
      end
  end.
Definition republish_all (wait : nat -> option error) (nd : Node) : Z * Node :=
  republish wait (map ki_Name (ListKeys os dataDir (nd_disk nd))) 0 0 nd.
End service.

(** ** Properties *)
(** a put changes what is held and found under its key only *)
Class DHTFrame `{DHT} : Prop := PutValue_other k v d d' k' : PutValue k v d = Ok d' -> k' ≠ k ->
  GetValue d' k' = GetValue d k' /\ held d' k' = held d k'.

Section properties.
Context `{Multiformats} `{!MultiformatsLaws} `{!CidBase32} `{Text} `{!TextLaws} `{KeyFormats} `{!KeyLaws}.
Context (pair : PrivKey -> PubKey -> Prop) `{!CryptoLaws pair} (Hpair : forall sk, pair sk (GetPublic sk)) `{Proto MemNSRecord} `{DHT} `{!DHTFrame}.
Context (roundtrip : forall (r : MemNSRecord) raw, marshal r = Ok raw -> unmarshal raw = Ok r).
Context (peer_info : bytes -> option (bytes * list bytes)) (registry : bytes -> option (list bytes)) (wire : bytes -> option (bytes * list bytes)).
Context (peer_Decode multiaddr_ok : bytes -> bool).
Context (laws : forall now, DHTLaws (λ k v, is_ok (Validate peer_info registry wire peer_Decode multiaddr_ok now k v)) Select).
(** keys sign any text, and protobuf refuses a message for its strings only *)
Context (Sign_total : forall sk msg, is_ok (Sign sk msg) = true).
Context (marshal_strings : forall r seq validity sig, is_ok (marshal (set_signature sig (set_times seq validity r))) = is_ok (marshal r)).
Context (dataDir : fpath).
Abbreviation kdir := (keyringDir dataDir).

(** what a record is about *)
Definition about (r : MemNSRecord) : bytes * list MemRoute * Z * Z * Z := (nr_Value r, nr_Routes r, nr_Sequence r, nr_Validity r, nr_Ttl r).
Lemma inherit_owned current key r : owned key r -> owned key (inherit current r) /\ about (inherit current r) = about r.
Proof.
  intros Ho. destruct current as [c|]; [|done]. cbn [inherit]. split; [|by destruct (bool_decide (nr_Delegates c = []))].
  pose proof Ho as [Hk Hs Hm Hq]. destruct (bool_decide (nr_Delegates c = [])); (split; [exact Hk|exact Hs|cbn|exact Hq]);
    by rewrite lookup_union_r by (by rewrite lookup_delete_eq).
Qed.
Lemma renewed_owned now key rec : owned key rec -> exists r, renewed now key rec = Ok r /\ owned key r /\ is_ok (marshal r) = is_ok (marshal rec) /\
  about r = (nr_Value rec, nr_Routes rec, nr_Sequence rec, i64 (now + if 0 <? nr_Ttl rec then i64 (nr_Ttl rec) else day), nr_Ttl rec).
Proof.
  intros [Hk _ Hm Hq]. unfold renewed. set (rec' := set_times _ _ rec). pose proof (Sign_total (k_PrivKey key) (CanonicalBytes rec')) as Hs.
  destruct (Sign (k_PrivKey key) (CanonicalBytes rec')) as [sig|] eqn:E; [|done]. cbn [mbind result_bind]. exists (set_signature sig rec').
  split_and!; [done| |apply marshal_strings|done]. split; [exact Hk|exact E|exact Hm|exact Hq].
Qed.

(** *** The disk *)
Definition quiet (os : OS) : Prop := (forall p, os_read os p = None) /\ (forall p, os_stat os p = None) /\ (forall p, os_readdir os p = None).
Lemma SaveRecord_loads os name r raw d : plain name -> os_mkdir os kdir = None -> (forall p b, os_write os p b = None) ->
  (forall q, q ∈ prefixes kdir -> d_files d !! q = None) -> recordPath dataDir name ∉ d_dirs d -> marshal r = Ok raw ->
  let d' := (SaveRecord os dataDir name r d).2 in kdir ∈ d_dirs d' /\ forall ros, quiet ros -> LoadRecord ros dataDir name d' = Ok r.
Proof.
  intros Hn Hmk Hw Hpre Hrec Hraw. unfold SaveRecord, mbind, M_bind, MkdirAll. rewrite Hmk.
  assert (forallb (λ q, bool_decide (d_files d !! q = None)) (prefixes kdir) = true) as ->.
  { apply forallb_forall. intros q Hq. apply bool_decide_eq_true_2, Hpre. by apply list_elem_of_In. }
  unfold liftr. rewrite Hraw. unfold WriteFile. cbn [d_dirs d_files].
  assert (kdir ∈ prefixes kdir) as Hk.
  { apply list_elem_of_fmap. exists (length kdir). split; [by rewrite take_ge|]. apply elem_of_seq. lia. }
  assert (recordPath dataDir name = kdir ++ [name ++ lit ".record"]) as Ep by (unfold recordPath; apply Join_plain; [done|set_solver]).
  destruct (decide _) as [Hin|_].
  { apply elem_of_union in Hin as [Hin|?]; [|done]. apply elem_of_list_to_set in Hin. exfalso.
    by apply (proj1 (path_no_prefix dataDir name (lit ".record") Hn ltac:(unfold exts; set_solver))). }
  assert (parent (recordPath dataDir name) = kdir) as Epar by (rewrite Ep; apply removelast_last).
  rewrite Epar. destruct (decide _) as [_|Hnot]; [|exfalso; apply Hnot; apply elem_of_union_l; by apply elem_of_list_to_set].
  rewrite Hw. cbn [snd]. split; [apply elem_of_union_l; by apply elem_of_list_to_set|].
  intros ros (Hr & _). unfold LoadRecord, ReadFile. rewrite Hr. cbn. rewrite lookup_insert_eq. cbn [mbind result_bind f_Data]. by apply roundtrip.
Qed.
Lemma SaveRecord_Get os ros name r n d : plain name -> plain n -> Get ros dataDir n (SaveRecord os dataDir name r d).2 = Get ros dataDir n d.
Proof.
  intros Hname Hn. pose proof (SaveRecord_only dataDir os name r d) as Ho. unfold Get. case_bool_decide.
  - rewrite (only_ReadFile dataDir ros _ _ _ _ Ho); [done| |apply identity_no_prefix].
    rewrite list_elem_of_singleton. intros E. symmetry in E. by apply (path_no_prefix dataDir name (lit ".record") Hname ltac:(unfold exts; set_solver)) in E.
  - rewrite (only_ReadFile dataDir ros _ _ _ _ Ho); [done| |apply path_no_prefix; [done|unfold exts; set_solver]].
    rewrite list_elem_of_singleton. unfold privPath, recordPath. rewrite !Join_plain by (done || set_solver). intros E%app_inv_head. injection E as E.
    apply ext_inj in E as [_ E]; [discriminate E|unfold exts; set_solver..].
Qed.
Lemma SaveRecord_LoadRecord os ros name r n d : plain name -> plain n -> n ≠ name -> LoadRecord ros dataDir n (SaveRecord os dataDir name r d).2 = LoadRecord ros dataDir n d.
Proof.
  intros Hname Hn Hne. unfold LoadRecord. rewrite (only_ReadFile dataDir ros _ _ _ _ (SaveRecord_only dataDir os name r d)); [done| |apply path_no_prefix; [done|unfold exts; set_solver]].
  rewrite list_elem_of_singleton. apply paths_apart; [done..| |]; unfold exts; set_solver.
Qed.
Lemma Get_named os name d key : Get os dataDir name d = Ok key -> lit "/memns/" ++ strip_memns (k_MemNSName key) = k_MemNSName key.
Proof. intros Hg. apply Get_key in Hg as [_ Hd]. by apply derived_name in Hd as [? _]. Qed.
Lemma publish_dht_other key r nd k' : lit "/memns/" ++ strip_memns (k_MemNSName key) = k_MemNSName key -> k' ≠ k_MemNSName key ->
  GetValue (nd_dht (publish_dht key r nd).2) k' = GetValue (nd_dht nd) k' /\
  held (nd_dht (publish_dht key r nd).2) k' = held (nd_dht nd) k'.
Proof.
  intros Hn Hne. unfold publish_dht, PublishDHT, wrap. destruct (marshal r) as [raw|]; [|done]. cbn [mbind result_bind]. rewrite Hn.
  destruct (PutValue _ raw (nd_dht nd)) as [d'|] eqn:E; [|done]. cbn. by eapply PutValue_other.
Qed.

(** *** The round of the herald *)
Context (os : OS) (now : Z) (wait : nat -> option error) (Hwait : forall n, wait n = None).
Abbreviation round := (republish os dataDir now wait).
Lemma round_app l1 l2 w c nd : exists w' c' nd', round (l1 ++ l2) w c nd = round l2 w' c' nd' /\ round l1 w c nd = (c', nd').
Proof.
  revert w c nd. induction l1 as [|n l1 IH]; intros w c nd; [by eexists _, _, _|]. cbn [app republish].
  destruct (renewable os dataDir now n (nd_disk nd)) as [[key rec]|]; [|apply IH]. rewrite Hwait.
  destruct (publish_dht key rec _) as [r nd']. apply IH.
Qed.
(** the keys stay, and the records and the values in the DHT of other names *)
Lemma round_keeps l w c nd : Forall plain l -> let nd' := (round l w c nd).2 in
  (forall n, plain n -> Get os dataDir n (nd_disk nd') = Get os dataDir n (nd_disk nd) /\
    (n ∉ l -> LoadRecord os dataDir n (nd_disk nd') = LoadRecord os dataDir n (nd_disk nd))) /\
  forall k, (forall n key, n ∈ l -> Get os dataDir n (nd_disk nd) = Ok key -> k_MemNSName key ≠ k) ->
    GetValue (nd_dht nd') k = GetValue (nd_dht nd) k /\ held (nd_dht nd') k = held (nd_dht nd) k.
Proof.
  intros Hl. revert w c nd. induction Hl as [|n l Hn Hl IH]; intros w c nd; [done|]. cbn [republish].
  destruct (renewable os dataDir now n (nd_disk nd)) as [[key rec]|] eqn:Er.
  2:{ destruct (IH w c nd) as [IH1 IH2]. split; [intros m Hm; destruct (IH1 m Hm); split; [done|set_solver]|]. intros k Hk. apply IH2. intros m key Hm. apply Hk. by right. }
  assert (Get os dataDir n (nd_disk nd) = Ok key) as Hkey.
  { unfold renewable in Er. destruct (Get os dataDir n (nd_disk nd)) as [key'|]; [|done]. destruct (LoadRecord _ _ _ _); [|done]. destruct (renewed _ _ _); [|done]. by injection Er as <- _. }
  rewrite Hwait. set (nd1 := save os dataDir n rec nd). destruct (publish_dht key rec nd1) as [r nd2] eqn:Ep.
  assert (nd_disk nd2 = nd_disk nd1) as Hdisk by (unfold publish_dht in Ep; destruct (PublishDHT _ _ _); by injection Ep as <- <-).
  assert (forall m, plain m -> Get os dataDir m (nd_disk nd2) = Get os dataDir m (nd_disk nd)) as Hget by (intros m Hm; rewrite Hdisk; by apply SaveRecord_Get).
  destruct (IH (S w) (if is_ok r then c + 1 else c) nd2) as [IH1 IH2]. split.
  - intros m Hm. destruct (IH1 m Hm) as [-> Hlr]. split; [by apply Hget|]. intros [Hne Hnl]%not_elem_of_cons. rewrite Hlr by done. rewrite Hdisk. by apply SaveRecord_LoadRecord.
  - intros k Hk. destruct (IH2 k) as [-> ->].
    2:{ replace nd2 with (publish_dht key rec nd1).2 by by rewrite Ep. apply (publish_dht_other key rec nd1); [by eapply Get_named|]. intros ->. by apply (Hk n key); [left|..]. }
    intros m km Hm Ekm. apply (Hk m km); [by right|]. rewrite <-Ekm. symmetry. apply Hget. rewrite Forall_forall in Hl. by apply Hl.
Qed.
Lemma round_renews l w c nd name key rec m : Forall plain l -> NoDup l -> name ∈ l -> wf_mid m ->
  Get os dataDir name (nd_disk nd) = Ok key -> LoadRecord os dataDir name (nd_disk nd) = Ok rec -> owned key rec -> nr_Value rec = lit "/mem/" ++ String m -> is_ok (marshal rec) = true ->
  (forall n key', n ∈ l -> n ≠ name -> Get os dataDir n (nd_disk nd) = Ok key' -> k_MemNSName key' ≠ k_MemNSName key) ->
  now < i64 (now + if 0 <? nr_Ttl rec then i64 (nr_Ttl rec) else day) ->
  (forall w c, w ∈ held (nd_dht nd) (k_MemNSName key) -> unmarshal w = Ok c -> nr_Sequence c < nr_Sequence rec \/
     nr_Sequence c = nr_Sequence rec /\ nr_Validity c <= i64 (now + if 0 <? nr_Ttl rec then i64 (nr_Ttl rec) else day)) ->
  exists r raw, owned key r /\ marshal r = Ok raw /\ GetValue (nd_dht (round l w c nd).2) (k_MemNSName key) = Ok raw /\
    about r = (nr_Value rec, nr_Routes rec, nr_Sequence rec, i64 (now + if 0 <? nr_Ttl rec then i64 (nr_Ttl rec) else day), nr_Ttl rec).
Proof.
  intros Hl Hnd Hin Hm Hkey Hrec Ho Hval Hmar Hother Hlt Hheld. apply list_elem_of_split in Hin as (l1 & l2 & ->).
  apply Forall_app in Hl as [Hl1 [Hn Hl2]%Forall_cons]. apply NoDup_app in Hnd as (_ & Hd & [Hn2 _]%NoDup_cons).
  assert (name ∉ l1) as Hn1 by (intros ?; by apply (Hd name); [|left]).
  destruct (round_app l1 (name :: l2) w c nd) as (w1 & c1 & nd1 & -> & E1). pose proof (round_keeps l1 w c nd Hl1) as [Hk1 Hh1]. rewrite E1 in Hk1, Hh1. cbn [snd] in Hk1, Hh1.
  destruct (Hk1 name Hn) as [Eg El]. specialize (El Hn1). cbn [republish]. unfold renewable. rewrite Eg, El, Hkey, Hrec.
  destruct (renewed_owned now key rec Ho) as (r & -> & Hor & Hmr & Hab). rewrite Hwait. destruct (marshal r) as [raw|] eqn:Eraw; [|by rewrite Hmar in Hmr].
  exists r, raw. split_and!; [done|done| |done]. destruct (Get_key _ _ _ _ _ Hkey) as [Epub Eder]. rewrite <-Epub in Eder.
  assert (about r = (nr_Value r, nr_Routes r, nr_Sequence r, nr_Validity r, nr_Ttl r)) as Hab' by done. rewrite Hab in Hab'. injection Hab' as Hv _ Hsq Hvl _.
  assert (pair (k_PrivKey key) (k_PubKey key)) as Hpk by (rewrite Epub; apply Hpair).
  assert (newest (k_MemNSName key) r (nd_dht (save os dataDir name r nd1))) as Hnew.
  { intros wv cv Hw Hc. apply (better_false cv r). rewrite <-Hsq, <-Hvl. apply (Hheld wv); [|done]. cbn [nd_dht save] in Hw.
    destruct (Hh1 (k_MemNSName key)) as [_ <-]; [|done]. intros n' key' Hin' Eg'.
    apply (Hother n' key'); [apply elem_of_app; by left|by intros ->|done]. }
  destruct (owned_published pair roundtrip peer_info registry wire peer_Decode multiaddr_ok now key m r raw (nd_dht (save os dataDir name r nd1))
    (DHTLaws0 := laws now) Hm Hpk Eder Hor ltac:(congruence) Eraw ltac:(lia) Hnew) as (d' & Hput & Hgot).
  unfold publish_dht. rewrite Hput. set (nd2 := mkNode d' _ _). destruct (round_keeps l2 (S w1) (if is_ok (Ok tt) then c1 + 1 else c1) nd2 Hl2) as [_ Hd2].
  destruct (Hd2 (k_MemNSName key)) as [-> _]; [|exact Hgot]. intros n key' Hin Eg'. apply (Hother n key'); [apply elem_of_app; right; by right|by intros ->|].
  rewrite Forall_forall in Hl2. specialize (Hl2 n Hin). rewrite <-(proj1 (Hk1 n Hl2)), <-Eg'. symmetry. apply SaveRecord_Get; [done|done].
Qed.

(** *** From the handler to the reader *)
Lemma Get_quiet osp n d key : Get osp dataDir n d = Ok key -> quiet os -> Get os dataDir n d = Ok key.
Proof.
  intros Hg [Hr _]. revert Hg. unfold Get, ReadFile. rewrite !Hr. case_bool_decide; by destruct (os_read osp _).
Qed.
Lemma publish_inv osp pubsub now0 req nd nm seq nd1 : handleMemNSPublish osp dataDir pubsub now0 req nd = (Answer (nm, seq), nd1) ->
  exists key cur r raw, Get osp dataDir (pq_Key req) (nd_disk nd) = Ok key /\ nm = k_MemNSName key /\
    BuildRecord now0 key (pq_Value req) (next_sequence cur) (request_ttl (pq_TTL req)) (pq_Routes req) (pq_Message req) = Ok r /\
    seq = nr_Sequence (inherit cur r) /\ marshal (inherit cur r) = Ok raw /\
    nd_disk nd1 = (SaveRecord osp dataDir (pq_Key req) (inherit cur r) (nd_disk nd)).2.
Proof.
  unfold handleMemNSPublish. destruct (Get osp dataDir (pq_Key req) (nd_disk nd)) as [key|]; [|done]. cbv zeta.
  set (cur := match look now0 (nd_dht nd) (k_MemNSName key) with Ok r => Some r | Err _ => None end).
  destruct (BuildRecord _ _ _ _ _ _ _) as [r|] eqn:Eb; [|done]. destruct (publish_dht key (inherit cur r) nd) as [e nd'] eqn:Ep. destruct e as [u|]; [|done].
  intros [= <- <- <-]. unfold publish_dht, PublishDHT, wrap in Ep. destruct (marshal (inherit cur r)) as [raw|] eqn:Em; [|done].
  exists key, cur, r, raw. split_and!; try done. destruct (_ ≫= _) as [d|]; [|done]. injection Ep as _ <-. unfold save, PublishPub. rewrite Em. destruct pubsub as [takes|]; [|done].
  by destruct (takes _).
Qed.
Lemma run_ops_kdir ops d name : (forall e, e ∈ ops -> plain (op_name e.2) /\ op_name e.2 ≠ name) -> kdir ∈ d_dirs d -> kdir ∈ d_dirs (run_ops dataDir ops d).
Proof.
  intros Hops Hk. apply (run_ops_only dataDir ops d kdir); [|done]. intros (n & Hq & Hn)%list_elem_of_bind.
  apply list_elem_of_fmap in Hn as (o & -> & (e & -> & He)%list_elem_of_fmap). destruct (Hops e He) as [Hp _].
  assert (exists x, x ∈ exts /\ kdir = filepath_Join kdir (op_name e.2 ++ x)) as (x & Hx & E).
  { unfold exts. rewrite !elem_of_cons, elem_of_nil in Hq. destruct Hq as [Hq|[Hq|[Hq|[]]]]; eexists; (split; [|exact Hq]); rewrite !elem_of_cons; tauto. }
  rewrite Join_plain in E by done. apply (f_equal length) in E. rewrite length_app in E. cbn in E. lia.
Qed.

End properties.

(** ** Instances *)
#[export] Instance toy_dht_frame : DHTFrame.
Proof. intros k v d d' k' [= <-] Hne. cbn. by rewrite !lookup_insert_ne. Qed.
Definition demo_node : Node := mkNode (∅ : @D toy_dht) demo_gen.2 [].
Definition demo_request : PublishRequest := mkPublishRequest (lit "site") demo_value 3600 [] [].
Definition demo_publish : reply (bytes * Z) * Node := handleMemNSPublish (calm_os 5) demo_dir None 5 demo_request demo_node.
Definition demo_name : bytes := match demo_publish.1 with Answer (nm, _) => nm | Failed _ _ => [] end.
Definition demo_later : Z * Node := republish_all (calm_os 100) demo_dir (10 * day) (λ _, None) (mkNode (∅ : @D toy_dht) (nd_disk demo_publish.2) []).
Definition demo_reader (t : Z) : REnv := mkREnv t (λ _, 0) None (GetValue (nd_dht demo_later.2)) (λ _, Err (New "no such host")) (λ _, Err (New "no such host")) None false (λ _, None).
(** ten days later the record is long expired, and the herald has renewed it *)
Lemma demo_publish_ok : demo_publish = (Answer (demo_name, 1), demo_publish.2).
Proof. assert (demo_publish.1 = Answer (demo_name, 1)) as E1 by (vm_compute; reflexivity). rewrite <-E1. by destruct demo_publish. Qed.
(** A second node with the key has published another page at sequence 2: in a DHT that asks
    [Select] the round of the first one, at sequence 1, changes nothing. *)
Definition other_request : PublishRequest := mkPublishRequest (lit "site") (demo_value ++ lit "/other") 3600 [] [].
Definition kad_publish (t : Z) (req : PublishRequest) (nd : Node (H4 := kad_dht)) : Node (H4 := kad_dht) :=
  (handleMemNSPublish (H4 := kad_dht) (calm_os t) demo_dir None t req nd).2.
Definition kad_first : Node (H4 := kad_dht) := kad_publish 5 demo_request (mkNode (H4 := kad_dht) (∅ : gmap bytes bytes) demo_gen.2 []).
Definition kad_second : Node (H4 := kad_dht) := kad_publish 6 other_request kad_first.
Definition kad_round : Z * Node (H4 := kad_dht) :=
  republish_all (H4 := kad_dht) (calm_os 7) demo_dir 7 (λ _, None)
    (mkNode (H4 := kad_dht) (nd_dht (H4 := kad_dht) kad_second) (nd_disk (H4 := kad_dht) kad_first) []).
Definition valued (r : result MemNSRecord) : option (bytes * Z) := match r with Ok r => Some (nr_Value r, nr_Sequence r) | Err _ => None end.
Lemma newer_record_stays :
  valued (look (H4 := kad_dht) 6 (nd_dht (H4 := kad_dht) kad_first) demo_name) = Some (demo_value, 1) /\
  kad_round.1 = 0 /\
  valued (look (H4 := kad_dht) 8 (nd_dht (H4 := kad_dht) kad_round.2) demo_name) = Some (demo_value ++ lit "/other", 2).
Proof. split_and!; vm_compute; reflexivity. Qed.
Definition publish_at (t : Z) (nd : Node) : reply (bytes * Z) * Node := handleMemNSPublish (calm_os t) demo_dir (Some (λ _, true)) t demo_request nd.
Definition sequence_of {A} (r : reply (A * Z)) : Z := match r with Answer (_, s) => s | Failed _ _ => 0 end.
(** after its record has expired a name starts again at sequence 1, whatever the saved record says,
    and those who follow the name by subscription drop what is published from then on *)
Lemma sequence_restarts :
  let nd2 := (publish_at 6 (publish_at 5 demo_node).2).2 in let nd3 := publish_at (2 * day) nd2 in
  sequence_of (publish_at 6 (publish_at 5 demo_node).2).1 = 2 /\ sequence_of nd3.1 = 1 /\
  match last (nd_sent nd3.2) with Some (_, msg) => is_ok (unmarshal (A := MemNSRecord) msg) && bool_decide (sub_next (2 * day) 2 msg = None) | None => false end = true.
Proof. split_and!; vm_compute; reflexivity. Qed.
(** publishing from the explorer loses delegates and log, which the API carries over *)
Definition with_delegate : Node := (handleMemNSDelegateAdd (calm_os 6) demo_dir None 6 (lit "site") (lit "FRIEND") (publish_at 5 demo_node).2).2.
Definition shape (r : result MemNSRecord) : nat * nat * Z := match r with Ok r => (length (nr_Delegates r), length (nr_Changelog r), nr_Sequence r) | Err _ => (0%nat, 0%nat, 0) end.
Lemma explorer_drops_delegates :
  shape (look 7 (nd_dht with_delegate) demo_name) = (1%nat, 1%nat, 2) /\
  shape (look 8 (nd_dht (publish_at 7 with_delegate).2) demo_name) = (1%nat, 2%nat, 3) /\
  shape (MemNSPublish (calm_os 7) demo_dir None 7 (lit "site") demo_value 3600 [] with_delegate).1 = (0%nat, 1%nat, 3).
Proof. split_and!; vm_compute; reflexivity. Qed.
(** the record of a deleted key is left behind: under a new key of the name the herald signs it with that
    key, and no one accepts it *)
Lemma stale_record_republished :
  let disk := (Generate (calm_os 9) demo_dir 8 (lit "site") [] (Delete (calm_os 8) demo_dir (lit "site") (nd_disk (publish_at 5 demo_node).2)).2).2 in
  let nd := republish_all (calm_os 10) demo_dir 10 (λ _, None) (mkNode (∅ : @D toy_dht) disk []) in
  nd.1 = 1 /\ match Get (calm_os 10) demo_dir (lit "site") disk with Ok key => is_ok (GetValue (nd_dht nd.2) (k_MemNSName key)) && negb (is_ok (look 11 (nd_dht nd.2) (k_MemNSName key))) | Err _ => false end = true.
Proof. split; vm_compute; reflexivity. Qed.
