(* ===== verification/Herald.v ===== *)
(** * The herald (src/net/herald/herald.go)

    [MemHerald] announces to the DHT what the store holds, by one of three strategies, split into
    groups over successive rounds.  What the context, the rate limiters, the timers and
    the DHT answer is a [World] of oracles; the limiter itself and the loops that start rounds are
    left out, and the renewal of name records is in NameService.v.
    [reprovide_cycle]: as many rounds as there are groups announce every entry of the store
    once, whatever single announcements fail. *)
From S2P Require Import Prelude Mid Wire Blockstore Bloom Db MemStore Seal Gc HashRing Names.

Inductive Strategy := StrategyRoots | StrategyAll | StrategyShards | StrategyOther (name : bytes).
Record Config := mkConfig {
  c_Strategy : Strategy; c_ShardRing : option HashRing; c_PeerID : bytes; c_Replicas : Z;
  c_ShardSetAnnouncer : bool; c_ReprovideGroups : Z;
}.
(** [New]: the defaults for what is not given *)
Definition with_defaults (c : Config) : Config :=
  mkConfig (match c_Strategy c with StrategyOther [] => StrategyRoots | s => s end) (c_ShardRing c) (c_PeerID c)
    (if c_Replicas c <=? 0 then 3 else c_Replicas c) (c_ShardSetAnnouncer c) (if c_ReprovideGroups c <=? 0 then 1 else c_ReprovideGroups c).
Record MemHerald := mkMemHerald { h_lastRun : Z; h_lastCount : Z; h_cycleCount : Z }.
(** what is asked of the outside, and its answer at the nth question *)
Record World := mkWorld {
  ctx_Err : nat -> option error; lim_Wait : nat -> option error; retry_after : nat -> option error;
  dht_Provide : nat -> MID -> option error; dht_ProvideShardSet : nat -> MID -> option error;
}.
(** one round: what was announced, and whether it was taken; the shard sets *)
Record Round := mkRound { rn_asked : nat; rn_seen : gset bytes; rn_out : list (MID * bool); rn_sets : list MID }.
Definition new_round : Round := mkRound 0 ∅ [] [].

Definition Canceled : error := Sentinel "context canceled".
Definition DeadlineExceeded : error := Sentinel "context deadline exceeded".
Definition err_contains (e : error) (sub : bytes) : bool := match index_of sub (lit (Error e)) with Some _ => true | None => false end.
Definition no_peers (e : error) : bool := err_contains e (lit "failed to find any peer in table").
(** hash/fnv: FNV-1a, 32 bits *)
Definition deterministicHash `{Multiformats} (m : MID) : Z := foldl (λ h b, u32 (Z.lxor h (b2z b) * 16777619)) 2166136261 (Bytes m).

Section herald.
Context `{Floats, Multiformats, Protos} (env : Env) (hooks : option StoreHooks) (fuel : nat) (cfg : Config) (w : World).

Definition ask {A} (f : nat -> A) : M Round A := λ r, (Ok (f (rn_asked r)), mkRound (S (rn_asked r)) (rn_seen r) (rn_out r) (rn_sets r)).
(** an oracle whose answer ends the round *)
Definition ask_err (f : nat -> option error) : M Round unit := e ← ask f; match e with Some e => throw e | None => mret tt end.
Definition check_ctx : M Round unit := ask_err (ctx_Err w).

(** ** One announcement *)
Fixpoint attempt (more : nat) (provideErr : option error) (m : MID) : M Round (option error) :=
  match more with
  | O => mret provideErr
  | S more =>
      _ ← check_ctx;
      provideErr ← ask (λ n, dht_Provide w n m);
      match provideErr with
      | None => mret None
      | Some e =>
          if errors_is e Canceled || errors_is e DeadlineExceeded || no_peers e then mret (Some e)
          else _ ← ask_err (retry_after w); attempt more (Some e) m
      end
  end.
Definition record_out (m : MID) (ok : bool) : M Round unit := λ r, (Ok tt, mkRound (rn_asked r) (rn_seen r) (rn_out r ++ [(m, ok)]) (rn_sets r)).
Definition announceFn (m : MID) : M Round unit := λ r,
  if IsZero m then (Ok tt, r) else
  if decide (String m ∈ rn_seen r) then (Ok tt, r) else
  (_ ← ask_err (lim_Wait w);
   provideErr ← attempt 3 None m;
   record_out m (bool_decide (provideErr = None)))
  (mkRound (rn_asked r) ({[String m]} ∪ rn_seen r) (rn_out r) (rn_sets r)).
(** failures are logged *)
Definition announceShardSet (m : MID) : M Round unit := λ r,
  if negb (c_ShardSetAnnouncer cfg) || IsZero m then (Ok tt, r) else
  match ask (lim_Wait w) r with
  | (Ok None, r) => (_ ← ask (λ n, dht_ProvideShardSet w n m); mret tt) (mkRound (rn_asked r) (rn_seen r) (rn_out r) (rn_sets r ++ [m]))
  | (_, r) => (Ok tt, r)
  end.

(** ** What is announced *)
(** the group of a MID is due in a cycle; [None] is division by zero *)
Definition due (cycle : Z) (m : MID) : option bool :=
  if c_ReprovideGroups cfg <=? 1 then Some true else
  let g := u32 (c_ReprovideGroups cfg) in
  if g =? 0 then None else Some (deterministicHash m mod g =? u32 (Z.rem cycle (c_ReprovideGroups cfg))).
Section collect.
Context (cycle : Z) (fn : MID -> M Round unit).
Definition filterFn (m : MID) : M Round unit :=
  match due cycle m with None => throw (panic "integer divide by zero") | Some true => fn m | Some false => mret tt end.
Definition shard_fn (m : MID) : M Round unit :=
  _ ← check_ctx;
  match c_ShardRing cfg with
  | Some ring =>
      if bool_decide (c_PeerID cfg = []) then _ ← announceShardSet m; filterFn m else
      if IsZero m then mret tt else
      match Assign ring m (c_Replicas cfg) with
      | Err _ => mret tt
      | Ok peers => if bool_decide (c_PeerID cfg ∈ peers) then _ ← announceShardSet m; filterFn m else mret tt
      end
  | None => _ ← announceShardSet m; filterFn m
  end.
(** the roots strategy has a set of its own *)
Definition on_round {A} (m : M Round A) : M (gset bytes * Round) A := λ '(seen, r), let '(x, r) := m r in (x, (seen, r)).
Definition once_fn (m : MID) : M (gset bytes * Round) unit := λ '(seen, r),
  if decide (String m ∈ seen) then (Ok tt, (seen, r)) else on_round (filterFn m) ({[String m]} ∪ seen, r).
Definition entry_fn (root m : MID) (leaf : bool) : M (gset bytes * Round) unit :=
  if Equal m root then mret tt else
  _ ← on_round check_ctx;
  if negb (Codec m =? CodecMemFS) then mret tt else once_fn m.
Definition get_of (s : MemStore) {T} : MID -> T -> result bytes := λ m _, Get env hooks m s.
Definition size_in (s : MemStore) {T} : option (MID -> T -> result Z) := Some (λ m _, GetSize env m s).
(** the outcome of the walk is logged *)
Definition walk_entries (s : MemStore) (root : MID) : M (gset bytes * Round) unit := λ t,
  (Ok tt, (WalkOptions (get_of s) (size_in s) true (entry_fn root) fuel root t).2).
Definition root_fn (s : MemStore) (root : MID) : M (gset bytes * Round) unit :=
  _ ← on_round check_ctx;
  if IsZero root then mret tt else
  _ ← once_fn root;
  walk_entries s root.
Definition collect_roots (s : MemStore) : M Round unit := λ r, let '(x, (_, r)) := IterateSealed env (root_fn s) s (∅, r) in (x, r).
Definition collectStream (s : MemStore) : M Round unit :=
  _ ← check_ctx;
  match c_Strategy cfg with
  | StrategyAll => IterateBlocks env (λ m, _ ← check_ctx; filterFn m) s
  | StrategyShards => IterateSealed env shard_fn s
  | StrategyRoots => collect_roots s
  | StrategyOther _ => throw (New "herald: unknown strategy")
  end.
End collect.
Definition announced (r : Round) : Z := zlen (filter (λ o, o.2 = true) (rn_out r)).
(** [RunOnce] without the renewal of names: the count of cycles is raised under the lock, and read
    under the lock again when the collection starts; the error of the collection is logged *)
Definition next_cycle (h : MemHerald) : MemHerald := mkMemHerald (h_lastRun h) (h_lastCount h) (i64 (h_cycleCount h + 1)).
Definition announce_cycle (now : Z) (s : MemStore) (h : MemHerald) : Z * Round * MemHerald :=
  let '(_, r) := collectStream (h_cycleCount h) announceFn s new_round in
  (announced r, r, mkMemHerald now (announced r) (h_cycleCount h)).
Definition RunOnce (now : Z) (s : MemStore) (h : MemHerald) : Z * Round * MemHerald := announce_cycle now s (next_cycle h).
End herald.
(** rounds one after the other, each with its clock and its world *)
Fixpoint run_rounds `{Floats, Multiformats, Protos} (env : Env) (hooks : option StoreHooks) (fuel : nat) (cfg : Config) (s : MemStore)
    (ws : list (Z * World)) (h : MemHerald) : list (Z * Round) * MemHerald :=
  match ws with
  | [] => ([], h)
  | (now, w) :: ws =>
      let '(n, r, h) := RunOnce env hooks fuel cfg w now s h in
      let '(rs, h) := run_rounds env hooks fuel cfg s ws h in ((n, r) :: rs, h)
  end.

(** ** Properties *)
Section rounds.
Context `{Floats, Multiformats} `{!MultiformatsLaws} `{Protos} (env : Env) (hooks : option StoreHooks) (fuel : nat) (cfg : Config) (w : World).
(** nobody cancels; whether announcements are taken is open *)
Definition undisturbed : Prop := (forall n, ctx_Err w n = None) /\ (forall n, lim_Wait w n = None) /\ (forall n, retry_after w n = None).
Context (Hw : undisturbed) (Hgroups : c_ReprovideGroups cfg < 2 ^ 32).

Definition mids (r : Round) : list MID := (rn_out r).*1.
Lemma ask_err_ok f r : (forall n, f n = None) -> exists r', ask_err f r = (Ok tt, r') /\ rn_seen r' = rn_seen r /\ rn_out r' = rn_out r.
Proof. intros Hf. unfold ask_err, ask, mbind, M_bind. rewrite Hf. by eexists. Qed.
Lemma attempt_ok n e m r : exists x r', attempt w n e m r = (Ok x, r') /\ rn_seen r' = rn_seen r /\ rn_out r' = rn_out r.
Proof.
  destruct Hw as (Hc & _ & Hr). revert e r. induction n as [|n IH]; intros e r; [by eexists _, _|]. cbn [attempt].
  destruct (ask_err_ok (ctx_Err w) r Hc) as (r1 & E1 & S1 & O1). erewrite M_bind_Ok by exact E1. unfold ask at 1. unfold mbind at 1, M_bind at 1.
  destruct (dht_Provide w (rn_asked r1) m) as [err|]; [|by eexists _, _]. destruct (_ || _); [by eexists _, _|].
  set (r2 := mkRound _ _ _ _). destruct (ask_err_ok (retry_after w) r2 Hr) as (r3 & E3 & S3 & O3). erewrite M_bind_Ok by exact E3.
  destruct (IH (Some err) r3) as (x & r4 & E4 & S4 & O4). exists x, r4. split_and!; [done|by rewrite S4, S3|by rewrite O4, O3].
Qed.
Lemma announceFn_ok m r : wf_mid m -> exists r', announceFn w m r = (Ok tt, r') /\
  (String m ∈ rn_seen r -> r' = r) /\
  (String m ∉ rn_seen r -> rn_seen r' = {[String m]} ∪ rn_seen r /\ exists ok, rn_out r' = rn_out r ++ [(m, ok)]).
Proof.
  intros Hm. unfold announceFn. rewrite wf_not_zero by done. destruct (decide (String m ∈ rn_seen r)) as [Hin|Hnin]; [by eexists|].
  destruct Hw as (_ & Hl & _). set (r0 := mkRound _ _ _ _). destruct (ask_err_ok (lim_Wait w) r0 Hl) as (r1 & E1 & S1 & O1). erewrite M_bind_Ok by exact E1.
  destruct (attempt_ok 3 None m r1) as (x & r2 & E2 & S2 & O2). erewrite M_bind_Ok by exact E2. eexists. split; [reflexivity|]. split; [done|]. intros _.
  cbn. rewrite S2, S1, O2, O1. split; [done|by eexists].
Qed.

(** *** A round in progress *)
Context (cycle : Z) (E : MID -> Prop).
Definition in_turn (m : MID) : Prop := due cfg cycle m = Some true.
Lemma due_total m : exists b, due cfg cycle m = Some b.
Proof.
  unfold due. destruct (Z.leb_spec (c_ReprovideGroups cfg) 1); [by eexists|]. cbv zeta. rewrite u32_small by lia.
  destruct (Z.eqb_spec (c_ReprovideGroups cfg) 0); [lia|]. by eexists.
Qed.
Record running (r : Round) : Prop := {
  ru_seen : rn_seen r = list_to_set (map String (mids r));
  ru_nodup : NoDup (mids r);
  ru_out : Forall (λ m, wf_mid m /\ E m /\ in_turn m) (mids r);
}.
(** [r'] continues [r] *)
Definition runs (r r' : Round) : Prop := (running r -> running r') /\ mids r `prefix_of` mids r'.
#[local] Instance runs_preorder : PreOrder runs.
Proof. split; [by split|]. intros a b c [Ha1 Ha2] [Hb1 Hb2]. split; [auto|by etrans]. Qed.
Lemma same_runs r r' : rn_seen r' = rn_seen r -> rn_out r' = rn_out r -> runs r r'.
Proof. intros Hs Ho. assert (mids r' = mids r) as Em by (unfold mids; by rewrite Ho). split; [|by rewrite Em]. intros [Ha Hb Hc]. split; rewrite ?Hs, Em; done. Qed.
Lemma filterFn_runs m r : wf_mid m -> E m -> running r -> exists r', filterFn cfg cycle (announceFn w) m r = (Ok tt, r') /\ runs r r' /\ (in_turn m -> m ∈ mids r').
Proof.
  intros Hm He Hr. unfold filterFn. destruct (due_total m) as [[] Hd]; rewrite Hd.
  2:{ exists r. split_and!; [done|done|]. unfold in_turn. rewrite Hd. done. }
  destruct (announceFn_ok m r Hm) as (r' & -> & Hin & Hnin). exists r'. split; [done|].
  destruct (decide (String m ∈ rn_seen r)) as [Hs|Hs].
  - rewrite (Hin Hs). split; [done|]. intros _. rewrite (ru_seen _ Hr) in Hs. apply elem_of_list_to_set, list_elem_of_fmap in Hs as (m' & Es & Hm').
    pose proof (ru_out _ Hr) as Ho. rewrite Forall_forall in Ho. destruct (Ho m' Hm') as [Hw' _]. by apply String_inj in Es as ->.
  - destruct (Hnin Hs) as (Es & ok & Eo). assert (mids r' = mids r ++ [m]) as Em by (unfold mids; rewrite Eo, fmap_app; done).
    split; [|intros _; rewrite Em; set_solver]. split; [|rewrite Em; by eexists]. intros [Ha Hb Hc]. split; rewrite ?Es, Em.
    + rewrite map_app, list_to_set_app_L, <-Ha. cbn. set_solver.
    + apply NoDup_app. split_and!; [done| |apply NoDup_singleton]. intros x Hx ->%list_elem_of_singleton. apply Hs. rewrite Ha. by apply elem_of_list_to_set, list_elem_of_fmap_2.
    + apply Forall_app. split; [done|]. by apply Forall_singleton.
Qed.
Lemma filterFn_total m r : (filterFn cfg cycle (announceFn w) m r).1 = Ok tt.
Proof.
  unfold filterFn. destruct (due_total m) as [[] ->]; [|done]. unfold announceFn. destruct (IsZero m); [done|]. destruct (decide _); [done|].
  destruct Hw as (_ & Hl & _). set (r0 := mkRound _ _ _ _). destruct (ask_err_ok (lim_Wait w) r0 Hl) as (r1 & E1 & _). erewrite M_bind_Ok by exact E1.
  destruct (attempt_ok 3 None m r1) as (x & r2 & E2 & _). by erewrite M_bind_Ok by exact E2.
Qed.
Lemma check_ctx_ok r : exists r', check_ctx w r = (Ok tt, r') /\ runs r r'.
Proof. destruct (ask_err_ok (ctx_Err w) r (proj1 Hw)) as (r' & Ec & Es & Eo). exists r'. split; [done|by apply same_runs]. Qed.
Lemma announceShardSet_ok m r : exists r', announceShardSet cfg w m r = (Ok tt, r') /\ runs r r'.
Proof.
  unfold announceShardSet. destruct (_ || _); [by exists r|]. unfold ask. rewrite (proj1 (proj2 Hw)). eexists. split; [reflexivity|by apply same_runs].
Qed.
(** a loop of steps that each see to their element *)
Lemma for_each_runs (f : MID -> M Round unit) (due_in : MID -> Prop) l r : running r ->
  (forall m r, m ∈ l -> running r -> exists r', f m r = (Ok tt, r') /\ runs r r' /\ (due_in m -> m ∈ mids r')) ->
  exists r', for_each f l r = (Ok tt, r') /\ runs r r' /\ forall m, m ∈ l -> due_in m -> m ∈ mids r'.
Proof.
  intros Hr Hf. revert r Hr. induction l as [|m l IH]; intros r Hr; cbn [for_each].
  { exists r. split_and!; [done|done|by intros m ?%not_elem_of_nil]. }
  destruct (Hf m r ltac:(left) Hr) as (r1 & E1 & R1 & D1). erewrite M_bind_Ok by exact E1.
  destruct (IH ltac:(intros; apply Hf; [by right|done]) r1 (proj1 R1 Hr)) as (r2 & E2 & R2 & D2). exists r2. split_and!; [done|by etrans|].
  intros x [->|Hx]%elem_of_cons Hd; [|by apply D2]. destruct R2 as [_ [k Hk]]. rewrite Hk. apply elem_of_app. left. by apply D1.
Qed.

(** *** The roots strategy *)
Definition rooted (t : gset bytes * Round) : Prop := running t.2 /\
  forall x, x ∈ t.1 -> exists m, String m = x /\ wf_mid m /\ E m /\ (in_turn m -> m ∈ mids t.2).
Definition extends (t t' : gset bytes * Round) : Prop := (rooted t -> rooted t') /\ t.1 ⊆ t'.1 /\ mids t.2 `prefix_of` mids t'.2.
#[local] Instance extends_preorder : PreOrder extends.
Proof. split; [by split|]. intros a b c (Ha & Hb & Hc) (Hd & He & Hf). split_and!; [auto|set_solver|by etrans]. Qed.
Lemma on_round_extends (m : M Round unit) t : runs t.2 (m t.2).2 -> extends t (on_round m t).2.
Proof.
  destruct t as [seen r]. cbn. destruct (m r) as [x r'] eqn:Em. cbn. intros [Hr Hp]. split_and!; [|done|done]. intros [Hrun Hs]. split; [by apply Hr|].
  intros x' Hx. destruct (Hs x' Hx) as (m' & ? & ? & ? & Ht). exists m'. split_and!; [done..|]. intros Hi. destruct Hp as [k Hk]. cbn. rewrite Hk. apply elem_of_app. left. by apply Ht.
Qed.
Abbreviation once_w := (once_fn cfg cycle (announceFn w)).
Lemma once_fn_total m t : (once_w m t).1 = Ok tt /\ String m ∈ (once_w m t).2.1 /\ t.1 ⊆ (once_w m t).2.1.
Proof.
  destruct t as [seen r]. unfold once_fn. destruct (decide _); [done|]. unfold on_round. pose proof (filterFn_total m r) as Ht.
  destruct (filterFn _ _ _ m r) as [x r']. cbn in *. split_and!; [done|set_solver|set_solver].
Qed.
Lemma once_fn_rooted m t : wf_mid m -> E m -> rooted t -> extends t (once_w m t).2.
Proof.
  intros Hm He Hr. destruct t as [seen r]. unfold once_fn. destruct (decide _) as [Hin|Hnin]; [done|]. unfold on_round.
  destruct (filterFn_runs m r Hm He (proj1 Hr)) as (r' & -> & Hrun & Hturn). cbn. split_and!; [|set_solver|apply Hrun]. intros [Hru Hs]. split; [by apply Hrun|].
  intros x. cbn [fst]. intros [->%elem_of_singleton|Hx]%elem_of_union; [by exists m|]. destruct (Hs x Hx) as (m' & ? & ? & ? & Ht). exists m'. split_and!; [done..|]. intros Hi.
  destruct Hrun as [_ [k Hk]]. cbn. rewrite Hk. apply elem_of_app. left. by apply Ht.
Qed.
Abbreviation entry_w := (entry_fn cfg w cycle (announceFn w)).
Lemma entry_fn_total root m leaf t : exists t', entry_w root m leaf t = (Ok tt, t') /\ t.1 ⊆ t'.1 /\ (Equal m root = true \/ Codec m ≠ CodecMemFS \/ String m ∈ t'.1).
Proof.
  unfold entry_fn. destruct (Equal m root); [exists t; split_and!; [done|done|by left]|]. destruct t as [seen r].
  destruct (check_ctx_ok r) as (r1 & E1 & _). assert (on_round (check_ctx w) (seen, r) = (Ok tt, (seen, r1))) as E2 by (unfold on_round; by rewrite E1).
  erewrite M_bind_Ok by exact E2. destruct (Z.eqb_spec (Codec m) CodecMemFS) as [Ec|Ec]; cbn [negb].
  - destruct (once_fn_total m (seen, r1)) as (Ho & Hi & Hs). destruct (once_w m (seen, r1)) as [x t'] eqn:Eo. cbn in *. subst x. exists t'. split_and!; [done..|]. by right; right.
  - exists (seen, r1). split_and!; [done|done|]. by right; left.
Qed.
Lemma entry_fn_rooted root m leaf t : wf_mid m -> (Codec m = CodecMemFS -> E m) -> rooted t -> extends t (entry_w root m leaf t).2.
Proof.
  intros Hm He Hr. unfold entry_fn. destruct (Equal m root); [done|]. destruct t as [seen r].
  destruct (check_ctx_ok r) as (r1 & E1 & R1). assert (on_round (check_ctx w) (seen, r) = (Ok tt, (seen, r1))) as E2 by (unfold on_round; by rewrite E1).
  assert (extends (seen, r) (seen, r1)) as Hx.
  { pose proof (on_round_extends (check_ctx w) (seen, r)) as Hx. rewrite E2 in Hx. apply Hx. cbn. rewrite E1. exact R1. }
  erewrite M_bind_Ok by exact E2. destruct (Z.eqb_spec (Codec m) CodecMemFS) as [Ec|Ec]; cbn [negb]; [|exact Hx].
  etrans; [exact Hx|]. apply once_fn_rooted; [done|by apply He|by apply Hx].
Qed.

(** *** The store *)
Context (s : MemStore) (roots blocks : list MID) (Hsealed : AllSealed env s = Ok roots) (Hblocks : AllBlocks env s = Ok blocks).
Abbreviation reaches := (rtc (follows (get_of env hooks s (T := unit)) (size_in env s) tt)).
Abbreviation missing := (absent (get_of env hooks s (T := unit)) (size_in env s) tt).
Lemma follows_any {T} (t : T) m m' : follows (get_of env hooks s) (size_in env s) t m m' <-> follows (get_of env hooks s (T := unit)) (size_in env s) tt m m'.
Proof. split; intros (sz & d & Hx); exists sz, d; exact Hx. Qed.
Lemma rtc_any {T} (t : T) m m' : rtc (follows (get_of env hooks s) (size_in env s) t) m m' <-> reaches m m'.
Proof. split; (induction 1 as [|x y z Hxy _ IH]; [done|]; eapply rtc_l; [|exact IH]); by apply (follows_any t). Qed.
Lemma reaches_wf a b : wf_mid a -> reaches a b -> wf_mid b.
Proof. intros Ha. induction 1 as [|x y z Hxy _ IH]; [done|]. apply IH. by eapply follows_wf. Qed.
Definition responsible (m : MID) : Prop := match c_ShardRing cfg with
  | Some ring => c_PeerID cfg = [] \/ exists peers, Assign ring m (c_Replicas cfg) = Ok peers /\ c_PeerID cfg ∈ peers
  | None => True end.
(** what is to be announced *)
Definition entry (m : MID) : Prop := match c_Strategy cfg with
  | StrategyRoots => exists root, root ∈ roots /\ (m = root \/ reaches root m /\ Codec m = CodecMemFS)
  | StrategyAll => m ∈ blocks
  | StrategyShards => m ∈ roots /\ responsible m
  | StrategyOther _ => False end.
Context (HE : forall m, entry m -> E m).
Definition walk_found (root : MID) : Prop := WalkOptions (get_of env hooks s (T := unit)) (size_in env s) true (λ _ _, mret tt) fuel root tt = (Ok tt, tt).

Lemma walk_entries_ok root t : c_Strategy cfg = StrategyRoots -> root ∈ roots -> wf_mid root -> walk_found root -> rooted t ->
  exists t', walk_entries env hooks fuel cfg w cycle (announceFn w) s root t = (Ok tt, t') /\ extends t t' /\
    forall m, reaches root m -> Codec m = CodecMemFS -> m = root \/ String m ∈ t'.1 \/ missing m.
Proof.
  intros Hstrat Hin Hm Hok Hr. unfold walk_entries. set (o := WalkOptions _ _ true (entry_w root) fuel root t).
  exists o.2. split; [done|].
  assert (extends t o.2) as Hx.
  { apply (WalkOptions_visits _ _ _ _ (λ m, wf_mid m /\ reaches root m) (λ t', extends t t')); [| |by split|done].
    - intros t' m m' [Hwm Hre] Hf. split; [by eapply follows_wf|]. eapply rtc_r; [exact Hre|]. by apply (follows_any t').
    - intros m leaf t' [Hwm Hre] Ht'. etrans; [exact Ht'|]. apply entry_fn_rooted; [done| |by apply Ht'].
      intros Hc. apply HE. unfold entry. rewrite Hstrat. exists root. auto. }
  split; [exact Hx|]. intros m Hre Hc.
  assert (visitor (get_of env hooks s) (size_in env s) (entry_w root) (λ m t, Equal m root = true \/ Codec m ≠ CodecMemFS \/ String m ∈ t.1)) as Hv.
  { split.
    - by intros.
    - intros m' leaf t1 t2 Ev. destruct (entry_fn_total root m' leaf t1) as (t3 & E3 & _ & Hmk). rewrite E3 in Ev. by injection Ev as <-.
    - intros m' leaf t1 x t2 m2 Ev Hmk. destruct (entry_fn_total root m' leaf t1) as (t3 & E3 & Hs & _). rewrite E3 in Ev. injection Ev as <- <-. set_solver. }
  assert (o.1 = Ok tt) as Eo.
  { subst o. pose proof (WalkOptions_oblivious (get_of env hooks s) (size_in env s) (entry_w root) (get_of env hooks s (T := unit)) (size_in env s) (λ _ _, mret tt) true
      ltac:(done) ltac:(done) ltac:(intros m' leaf t'; by destruct (entry_fn_total root m' leaf t') as (? & -> & _)) ltac:(done) fuel root t tt) as Ew.
    rewrite Ew. unfold walk_found in Hok. by rewrite Hok. }
  destruct o as [x t'] eqn:Eow. cbn [fst] in Eo. subst x. unfold o in Eow.
  destruct (WalkOptions_closed _ _ _ _ _ Hv fuel root t t' Hm Eow) as (_ & _ & Hall). cbn [snd].
  destruct (Hall m) as [[Heq|[Hne|Hs]]|[_ Hab]]; [by apply rtc_any|left|done|right; by left|].
  - unfold Equal in Heq. destruct (Z.eqb_spec (codec m) (codec root)) as [Ec|]; [|done]. cbn [negb] in Heq. apply bool_decide_eq_true in Heq.
    pose proof (reaches_wf _ _ Hm Hre) as Hwm.
    destruct Hm as [V1 _ _ S1], Hwm as [V2 _ _ S2], m, root. cbn in *. by subst.
  - right. right. exact Hab.
Qed.
Lemma root_fn_ok root t : c_Strategy cfg = StrategyRoots -> root ∈ roots -> wf_mid root -> walk_found root -> rooted t ->
  exists t', root_fn env hooks fuel cfg w cycle (announceFn w) s root t = (Ok tt, t') /\ extends t t' /\
    forall m, m = root \/ reaches root m /\ Codec m = CodecMemFS -> String m ∈ t'.1 \/ missing m.
Proof.
  intros Hstrat Hin Hm Hok Hr. destruct t as [seen r]. destruct (check_ctx_ok r) as (r1 & E1 & R1).
  assert (on_round (check_ctx w) (seen, r) = (Ok tt, (seen, r1))) as E2 by (unfold on_round; by rewrite E1).
  assert (extends (seen, r) (seen, r1)) as X1.
  { pose proof (on_round_extends (check_ctx w) (seen, r)) as Hx. rewrite E2 in Hx. apply Hx. cbn. rewrite E1. exact R1. }
  unfold root_fn. erewrite M_bind_Ok by exact E2. rewrite wf_not_zero by done.
  destruct (once_fn_total root (seen, r1)) as (Ho & Hi & _). pose proof (once_fn_rooted root (seen, r1) Hm) as X2.
  destruct (once_w root (seen, r1)) as [x t2] eqn:Eo. cbn [fst snd] in *. subst x. erewrite M_bind_Ok by exact Eo.
  assert (extends (seen, r1) t2) as X2' by (apply X2; [apply HE; unfold entry; rewrite Hstrat; exists root; auto|by apply X1]).
  destruct (walk_entries_ok root t2 Hstrat Hin Hm Hok) as (t3 & E3 & X3 & Hall); [by apply X2', X1|]. exists t3. split; [exact E3|].
  split; [by etrans; [exact X1|etrans]|]. intros m [->|[Hre Hc]]; [left; by apply X3|]. destruct (Hall m Hre Hc) as [->|[?|?]]; [left; by apply X3|by left|by right].
Qed.
Lemma roots_wf : Forall wf_mid roots.
Proof.
  unfold AllSealed in Hsealed. destruct (closed_or_nil s); [done|]. destruct (db_NewIter env (ms_db s)) as [kv0|]; [|done].
  cbn [mbind result_bind] in Hsealed. injection Hsealed as <-. apply sealed_roots_wf.
Qed.
Lemma once_listed seen l m : m ∈ once seen l -> m ∈ l.
Proof. revert seen. induction l as [|x l IH]; intros seen; cbn [once]; [done|]. destruct (decide _); rewrite ?elem_of_cons; naive_solver. Qed.
Lemma blocks_wf : Forall wf_mid blocks.
Proof.
  unfold AllBlocks in Hblocks. destruct (closed_or_nil s); [done|]. destruct (db_NewIter env (ms_db s)) as [kv0|]; [|done].
  cbn [mbind result_bind] in Hblocks. injection Hblocks as <-. apply Forall_forall. intros m Hm%once_listed. unfold all_raw_mids in Hm.
  apply list_elem_of_bind in Hm as (p & Hp & _). apply elem_of_rights, list_elem_of_fmap in Hp as (e & Ee & _). symmetry in Ee. by apply FromMultihash_wf in Ee as [? _].
Qed.
Lemma Sealed_each {T} (f : MID -> M T unit) t : IterateSealed env f s t = for_each f roots t.
Proof.
  unfold AllSealed in Hsealed. unfold IterateSealed. destruct (closed_or_nil s); [done|]. destruct (db_NewIter env (ms_db s)) as [kv0|]; [|done].
  cbn [mbind result_bind] in Hsealed. by injection Hsealed as <-.
Qed.
Lemma Blocks_each {T} (f : MID -> M T unit) t : IterateBlocks env f s t = for_each f blocks t.
Proof.
  unfold AllBlocks in Hblocks. unfold IterateBlocks. destruct (closed_or_nil s); [done|]. destruct (db_NewIter env (ms_db s)) as [kv0|]; [|done].
  cbn [mbind result_bind] in Hblocks. by injection Hblocks as <-.
Qed.
(** a round announces what is due of the entries *)
Lemma collect_roots_ok r : c_Strategy cfg = StrategyRoots -> (forall root, root ∈ roots -> walk_found root) -> running r -> 
  exists r', collect_roots env hooks fuel cfg w cycle (announceFn w) s r = (Ok tt, r') /\ runs r r' /\ forall m, entry m -> in_turn m -> m ∈ mids r' \/ missing m.
Proof.
  intros Hstrat Hwalk Hr. unfold collect_roots. rewrite Sealed_each. pose proof roots_wf as Hwf. rewrite Forall_forall in Hwf.
  assert (forall l t, l ⊆ roots -> rooted t -> exists t', for_each (root_fn env hooks fuel cfg w cycle (announceFn w) s) l t = (Ok tt, t') /\ extends t t' /\
    forall root m, root ∈ l -> (m = root \/ reaches root m /\ Codec m = CodecMemFS) -> String m ∈ t'.1 \/ missing m) as Hloop.
  { induction l as [|root l IH]; intros t Hl Ht; cbn [for_each].
    { exists t. split_and!; [done|done|by intros ? ? ?%not_elem_of_nil]. }
    assert (root ∈ roots) as Hin by set_solver. destruct (root_fn_ok root t Hstrat Hin (Hwf _ Hin) (Hwalk _ Hin) Ht) as (t1 & E1 & X1 & H1').
    erewrite M_bind_Ok by exact E1. destruct (IH t1 ltac:(set_solver) (proj1 X1 Ht)) as (t2 & E2 & X2 & H2'). exists t2. split_and!; [done|by etrans|].
    intros root' m [->|Hr']%elem_of_cons Hm; [|by eapply H2']. destruct (H1' m Hm) as [Hs|?]; [left; by apply X2|by right]. }
  destruct (Hloop roots (∅, r) ltac:(done)) as ([sn r'] & -> & (Hx & _ & Hp) & Hall); [split; [done|by intros x ?%not_elem_of_empty]|].
  assert (rooted (sn, r')) as Hrd by (apply Hx; split; [done|by intros x ?%not_elem_of_empty]). exists r'. split; [done|]. split; [split; [intros _; apply Hrd|exact Hp]|].
  intros m Hent Hturn. unfold entry in Hent. rewrite Hstrat in Hent. destruct Hent as (root & Hin & Hm).
  destruct (Hall root m Hin Hm) as [Hs|?]; [left|by right]. destruct (proj2 Hrd _ Hs) as (m' & Es & Hwm' & _ & Hm').
  assert (wf_mid m) as Hwm by (destruct Hm as [->|[Hre _]]; [by apply Hwf|eapply reaches_wf; [by apply Hwf|exact Hre]]).
  apply String_inj in Es as ->; [by apply Hm'|done..].
Qed.
Lemma collect_ok r : (c_Strategy cfg = StrategyRoots -> forall root, root ∈ roots -> walk_found root) -> (forall n, c_Strategy cfg ≠ StrategyOther n) -> running r -> 
  exists r', collectStream env hooks fuel cfg w cycle (announceFn w) s r = (Ok tt, r') /\ runs r r' /\ forall m, entry m -> in_turn m -> m ∈ mids r' \/ missing m.
Proof.
  intros Hwalk Hother Hr. unfold collectStream. destruct (check_ctx_ok r) as (r1 & E1 & R1). erewrite M_bind_Ok by exact E1.
  pose proof (proj1 R1 Hr) as Hr1. pose proof roots_wf as Hwf. rewrite Forall_forall in Hwf. pose proof blocks_wf as Hbwf. rewrite Forall_forall in Hbwf.
  destruct (c_Strategy cfg) as [| | |n] eqn:Es; [| | |by destruct (Hother n)].
  - destruct (collect_roots_ok r1 Es (Hwalk eq_refl) Hr1) as (r' & E2 & R2 & Hall). exists r'. split_and!; [done|by etrans|done].
  - rewrite Blocks_each. destruct (for_each_runs (λ m, _ ← check_ctx w; filterFn cfg cycle (announceFn w) m) in_turn blocks r1 Hr1) as (r' & E2 & R2 & Hall).
    { intros m r2 Hin Hr2. destruct (check_ctx_ok r2) as (r3 & E3 & R3). erewrite M_bind_Ok by exact E3.
      destruct (filterFn_runs m r3 (Hbwf m Hin) ltac:(apply HE; unfold entry; by rewrite Es) (proj1 R3 Hr2)) as (r4 & E4 & R4 & Ht). exists r4. split_and!; [done|by etrans|done]. }
    exists r'. split_and!; [done|by etrans|]. intros m Hent Ht. unfold entry in Hent. rewrite Es in Hent. left. by apply Hall.
  - rewrite Sealed_each. destruct (for_each_runs (shard_fn cfg w cycle (announceFn w)) (λ m, responsible m /\ in_turn m) roots r1 Hr1) as (r' & E2 & R2 & Hall).
    { intros m r2 Hin Hr2. unfold shard_fn. destruct (check_ctx_ok r2) as (r3 & E3 & R3). erewrite M_bind_Ok by exact E3.
      assert (responsible m -> exists r', (_ ← announceShardSet cfg w m; filterFn cfg cycle (announceFn w) m) r3 = (Ok tt, r') /\ runs r2 r' /\ (responsible m /\ in_turn m -> m ∈ mids r')) as Hgo.
      { intros Hresp. destruct (announceShardSet_ok m r3) as (r4 & E4 & R4). erewrite M_bind_Ok by exact E4.
        destruct (filterFn_runs m r4 (Hwf m Hin) ltac:(apply HE; unfold entry; rewrite Es; done) (proj1 R4 (proj1 R3 Hr2))) as (r5 & E5 & R5 & Ht).
        exists r5. split_and!; [done|by etrans; [exact R3|etrans]|]. intros [_ ?]. by apply Ht. }
      assert (¬ responsible m -> exists r', (mret tt : M Round unit) r3 = (Ok tt, r') /\ runs r2 r' /\ (responsible m /\ in_turn m -> m ∈ mids r')) as Hno.
      { intros Hn. exists r3. split_and!; [done|done|]. by intros [? _]. }
      unfold responsible in Hgo, Hno |- *. destruct (c_ShardRing cfg) as [ring|]; [|by apply Hgo]. case_bool_decide as Hp; [by apply Hgo; left|]. rewrite wf_not_zero by by apply Hwf.
      destruct (Assign ring m (c_Replicas cfg)) as [peers|]; [|apply Hno; by intros [?|(? & ? & _)]].
      case_bool_decide as Hmem; [apply Hgo; right; by exists peers|apply Hno]. by intros [?|(? & [= ->] & ?)]. }
    exists r'. split_and!; [done|by etrans|]. intros m Hent Ht. unfold entry in Hent. rewrite Es in Hent. left. destruct Hent as [? ?]. apply Hall; [done|by split].
Qed.
End rounds.

Section cycle.
Context `{Floats, Multiformats} `{!MultiformatsLaws} `{Protos} (env : Env) (hooks : option StoreHooks) (fuel : nat) (cfg : Config).
Context (Hgroups : 1 <= c_ReprovideGroups cfg < 2 ^ 32) (s : MemStore) (roots blocks : list MID).
Context (Hsealed : AllSealed env s = Ok roots) (Hblocks : AllBlocks env s = Ok blocks).
Context (Hwalk : c_Strategy cfg = StrategyRoots -> forall root, root ∈ roots -> walk_found env hooks fuel s root).
Context (Hknown : forall n, c_Strategy cfg ≠ StrategyOther n).
Abbreviation to_announce := (entry env hooks cfg s roots blocks).
Abbreviation missing := (absent (get_of env hooks s (T := unit)) (size_in env s) tt).
(** every MID has one turn in a cycle *)
Definition group (m : MID) : Z := deterministicHash m mod c_ReprovideGroups cfg.
Lemma in_turn_group k m : 0 <= k -> in_turn cfg k m <-> k mod c_ReprovideGroups cfg = group m.
Proof.
  intros Hk. unfold in_turn, due, group. destruct (Z.leb_spec (c_ReprovideGroups cfg) 1) as [Hone|Hmany].
  { replace (c_ReprovideGroups cfg) with 1 by lia. by rewrite !Z.mod_1_r. }
  cbv zeta. rewrite (u32_small (c_ReprovideGroups cfg)) by lia. destruct (Z.eqb_spec (c_ReprovideGroups cfg) 0); [lia|].
  rewrite Z.rem_mod_nonneg by lia. pose proof (Z.mod_pos_bound k (c_ReprovideGroups cfg)). rewrite u32_small by lia.
  split; [intros [= E%Z.eqb_eq]; by rewrite E|intros ->; by rewrite Z.eqb_refl].
Qed.
Record served (k : Z) (nr : Z * Round) : Prop := {
  sv_count : nr.1 = announced nr.2;
  sv_nodup : NoDup (mids nr.2);
  sv_due : forall m, m ∈ mids nr.2 -> to_announce m /\ k mod c_ReprovideGroups cfg = group m;
  sv_all : forall m, to_announce m -> k mod c_ReprovideGroups cfg = group m -> m ∈ mids nr.2 \/ missing m;
}.
Lemma RunOnce_serves w now h : undisturbed w -> 0 <= h_cycleCount h < 2 ^ 63 - 1 ->
  exists n r, RunOnce env hooks fuel cfg w now s h = (n, r, mkMemHerald now n (h_cycleCount h + 1)) /\ served (h_cycleCount h + 1) (n, r).
Proof.
  intros Hw Hh. unfold RunOnce, announce_cycle, next_cycle. cbn [h_cycleCount]. rewrite i64_small by lia.
  destruct (collect_ok env hooks fuel cfg w Hw ltac:(lia) (h_cycleCount h + 1) to_announce s roots blocks Hsealed Hblocks ltac:(done) new_round Hwalk Hknown)
    as (r & -> & Hr & Hall); [split; [done|constructor|constructor]|].
  eexists _, _. split; [reflexivity|]. destruct Hr as [Hr _]. destruct Hr as [_ Hnd Ho]; [split; [done|constructor|constructor]|]. split; [done|done| |].
  - intros m Hm. rewrite Forall_forall in Ho. destruct (Ho m Hm) as (_ & He & Ht). split; [done|]. apply in_turn_group; [lia|done].
  - intros m He Hg. apply Hall; [done|]. apply in_turn_group; [lia|done].
Qed.
Lemma run_rounds_serve ws h : Forall (λ nw, undisturbed nw.2) ws -> 0 <= h_cycleCount h -> h_cycleCount h + zlen ws < 2 ^ 63 ->
  exists rs h', run_rounds env hooks fuel cfg s ws h = (rs, h') /\ length rs = length ws /\ h_cycleCount h' = h_cycleCount h + zlen ws /\
    forall i nr, rs !! i = Some nr -> served (h_cycleCount h + 1 + Z.of_nat i) nr.
Proof.
  revert h. induction ws as [|[now w] ws IH]; intros h Hws Hlo Hhi; cbn [run_rounds].
  { exists [], h. split_and!; [done|done|by rewrite Z.add_0_r|done]. }
  apply Forall_cons in Hws as [Hw Hws]. unfold zlen in *. cbn [length] in *.
  destruct (RunOnce_serves w now h Hw ltac:(lia)) as (n & r & -> & Hsv).
  destruct (IH (mkMemHerald now n (h_cycleCount h + 1)) Hws) as (rs & h' & -> & Hlen & Hc & Hrs); cbn [h_cycleCount] in *; [lia..|].
  eexists _, _. split; [reflexivity|]. split_and!; [cbn; lia|lia|]. intros [|i] nr; cbn; [intros [= <-]; by rewrite Z.add_0_r|]. intros Hi%Hrs.
  by replace (h_cycleCount h + 1 + Z.of_nat (S i)) with (h_cycleCount h + 1 + 1 + Z.of_nat i) by lia.
Qed.
End cycle.
(** rounds of different groups have nothing in common *)
Lemma bind_NoDup {A B C} (f : A -> list B) (g : B -> C) (turn : nat -> C) (l : list A) : 
  (forall i a, l !! i = Some a -> NoDup (f a) /\ forall b, b ∈ f a -> g b = turn i) ->
  (forall i j, (i < length l)%nat -> (j < length l)%nat -> turn i = turn j -> i = j) -> NoDup (l ≫= f).
Proof.
  revert turn. induction l as [|a l IH]; intros turn Hf Hinj; cbn; [constructor|]. destruct (Hf 0%nat a eq_refl) as [Hnd Hg]. apply NoDup_app. split_and!; [done| |].
  - intros b Hb (a' & Hb' & [i Hi]%list_elem_of_lookup)%list_elem_of_bind. destruct (Hf (S i) a' Hi) as [_ Hg'].
    apply lookup_lt_Some in Hi. enough (0%nat = S i) by done. apply Hinj; cbn; [lia|lia|]. by rewrite <-(Hg b Hb), (Hg' b Hb').
  - apply (IH (λ i, turn (S i))); [intros i; apply (Hf (S i))|]. intros i j Hi Hj Ht. enough (S i = S j) by lia. apply Hinj; cbn; [lia|lia|done].
Qed.

(** C34: a cycle of rounds, one after the other, announces the whole store once: of as many rounds
    as there are groups, in which nobody cancels but any announcement may fail, the
    announcements are all different, each is of something the strategy names (the sealed
    roots and the files and directories below them; all blocks; the sealed roots this peer is
    responsible for), each of these is announced unless it is missing from the store, and
    every round counts what was taken.  Under the roots strategy the walks of the sealed roots
    must find their blocks ([walk_found]: a missing block ends the walk of its root,
    [walk_error_drops_siblings]); rounds that overlap, as those [Start] begins may, skip a
    group ([overlap_skips_group]). *)
Theorem reprovide_cycle `{Floats, Multiformats} `{!MultiformatsLaws} `{Protos} env hooks fuel c s roots blocks ws h :
  let cfg := with_defaults c in
  let to_announce := entry env hooks cfg s roots blocks in
  AllSealed env s = Ok roots -> AllBlocks env s = Ok blocks ->
  (c_Strategy cfg = StrategyRoots -> forall root, root ∈ roots -> walk_found env hooks fuel s root) ->
  (forall n, c_Strategy cfg ≠ StrategyOther n) ->
  zlen ws = c_ReprovideGroups cfg -> zlen ws < 2 ^ 32 -> Forall (λ nw, undisturbed nw.2) ws ->
  0 <= h_cycleCount h -> h_cycleCount h + zlen ws < 2 ^ 63 ->
  exists rs h', run_rounds env hooks fuel cfg s ws h = (rs, h') /\ length rs = length ws /\
    let all := rs ≫= λ nr, mids nr.2 in
    NoDup all /\ (forall m, m ∈ all -> to_announce m) /\
    (forall m, to_announce m -> m ∈ all \/ absent (get_of env hooks s (T := unit)) (size_in env s) tt m) /\
    Forall (λ nr, nr.1 = announced nr.2) rs.
Proof.
  intros cfg to_announce Hs Hb Hwalk Hknown Hn Hmax Hws Hlo Hhi. set (k := h_cycleCount h + 1).
  assert (1 <= c_ReprovideGroups cfg < 2 ^ 32) as HN by (split; [unfold cfg; cbn; destruct (Z.leb_spec (c_ReprovideGroups c) 0); lia|lia]).
  destruct (run_rounds_serve env hooks fuel cfg HN s roots blocks Hs Hb Hwalk Hknown ws h Hws Hlo Hhi) as (rs & h' & E & Hlen & _ & Hrs).
  exists rs, h'. split_and!; [done|done|]. unfold zlen in *. cbv zeta. split_and!.
  - apply (bind_NoDup _ (group cfg) (λ i, (k + Z.of_nat i) mod c_ReprovideGroups cfg)).
    + intros i nr Hi%Hrs. split; [apply Hi|]. intros m Hm%(sv_due _ _ _ _ _ _ _ _ Hi). symmetry. apply Hm.
    + intros i j Hi Hj Ht. assert ((Z.of_nat i - Z.of_nat j) mod c_ReprovideGroups cfg = 0) as Hd.
      { replace (Z.of_nat i - Z.of_nat j) with ((k + Z.of_nat i) - (k + Z.of_nat j)) by lia. by rewrite Zminus_mod, Ht, Z.sub_diag. }
      apply Z.mod_divide in Hd as [q Hq]; [|lia]. clearbody k. clear - Hi Hj Hq Hn Hlen HN. destruct (Z.lt_trichotomy q 0) as [Hneg|[->|Hpos]]; [nia|lia|nia].
  - intros m (nr & Hm & [i Hi]%list_elem_of_lookup)%list_elem_of_bind. by apply (sv_due _ _ _ _ _ _ _ _ (Hrs _ _ Hi)).
  - intros m He. set (i := (group cfg m - k) mod c_ReprovideGroups cfg). pose proof (Z.mod_pos_bound (group cfg m - k) (c_ReprovideGroups cfg) ltac:(lia)) as Hi.
    destruct (lookup_lt_is_Some_2 rs (Z.to_nat i)) as [nr Hnr]; [lia|]. destruct (sv_all _ _ _ _ _ _ _ _ (Hrs _ _ Hnr) m He) as [Hin|?]; [|left|by right].
    + rewrite Z2Nat.id by lia. fold k. unfold i. rewrite Zplus_mod_idemp_r. replace (k + (group cfg m - k)) with (group cfg m) by lia.
      unfold group. by rewrite Zmod_mod.
    + apply list_elem_of_bind. exists nr. split; [done|]. by eapply list_elem_of_lookup_2.
  - apply Forall_forall. intros nr [i Hi]%list_elem_of_lookup. by apply (sv_count _ _ _ _ _ _ _ _ (Hrs _ _ Hi)).
Qed.

(** ** Instances *)
Module demo.
(** nothing is cancelled, and every third question finds no peer *)
Definition patchy : World := mkWorld (λ _, None) (λ _, None) (λ _, None)
  (λ n _, if Nat.eqb (n mod 3) 1 then Some (New "failed to find any peer in table") else None) (λ _ _, None).
Definition demo_cfg : Config := mkConfig (StrategyOther []) None [] 0 false 2.
Definition demo_rounds := run_rounds (calm 7) None 5 (with_defaults demo_cfg) torn_store [(1, patchy); (2, patchy)] (mkMemHerald 0 0 0).
(** the one sealed root is announced, once, in two rounds *)
Lemma reprovide_cycle_witness : length demo_rounds.1 = 2%nat /\ NoDup (demo_rounds.1 ≫= λ nr, mids nr.2) /\
  toy_mid CodecRaw torn_node ∈ (demo_rounds.1 ≫= λ nr, mids nr.2).
Proof.
  destruct (reprovide_cycle (calm 7) None 5 demo_cfg torn_store [toy_mid CodecRaw torn_node]
    (match AllBlocks (calm 7) torn_store with Ok l => l | Err _ => [] end) [(1, patchy); (2, patchy)] (mkMemHerald 0 0 0)) as (rs & h' & E & Hlen & Hnd & Hsub & Hall & _).
  - vm_compute. reflexivity.
  - vm_compute. reflexivity.
  - intros _ root ->%list_elem_of_singleton. vm_compute. reflexivity.
  - intros n. vm_compute. discriminate.
  - reflexivity.
  - vm_compute. reflexivity.
  - repeat constructor.
  - vm_compute. discriminate.
  - vm_compute. reflexivity.
  - unfold demo_rounds. rewrite E. clear E. cbn [fst]. split_and!; [exact Hlen|exact Hnd|].
    destruct (Hall (toy_mid CodecRaw torn_node)) as [Hin|(e & _ & [Habs|Habs])]; [|exact Hin|vm_compute in Habs; discriminate Habs..].
    exists (toy_mid CodecRaw torn_node). split; left; reflexivity.
Defined.
(** Rounds that overlap: [Start] runs two at once, and the loop may start another.  When the second
    raises the count before the first reads it, both announce the same group and the group between is
    left for the next cycle. *)
Definition all_cfg : Config := with_defaults (mkConfig StrategyAll None [] 0 false 2).
Definition overlapped : Round * Round :=
  let h := next_cycle (next_cycle (mkMemHerald 0 0 0)) in
  let '(_, r1, h) := announce_cycle (calm 7) None 5 all_cfg patchy 1 demo_gc h in
  let '(_, r2, _) := announce_cycle (calm 7) None 5 all_cfg patchy 2 demo_gc h in (r1, r2).
Definition in_order : list (list MID) := map (λ nr, mids nr.2) (run_rounds (calm 7) None 5 all_cfg demo_gc [(1, patchy); (2, patchy)] (mkMemHerald 0 0 0)).1.
Lemma overlap_skips_group : in_order = [[demo_mid "b"]; [demo_mid "a"]] /\
  mids overlapped.1 = [demo_mid "a"] /\ mids overlapped.2 = [demo_mid "a"].
Proof. vm_compute. repeat split. Qed.
(** The error of a walk is logged: below a root with two files, when the first cannot be read, the
    second is not announced either. *)
Definition file (name : string) : MID := toy_mid CodecMemFS (lit name).
Definition shelf : bytes := match marshal (mkDAGNode [String (file "x"); String (file "y")] [] []) with Ok d => d | Err _ => [] end.
Definition shelf_store : MemStore :=
  (Seal (calm 7) None 5 (toy_mid CodecRaw shelf) false
    (Put BLAKE3 (calm 7) None (toy_mid CodecRaw shelf) shelf
      (Put BLAKE3 (calm 7) None (file "x") (lit "x") (Put BLAKE3 (calm 7) None (file "y") (lit "y") demo_open).2).2).2).2.
Definition unreadable : Env := mkEnv 7 (λ k, if decide (k = BlockKey (file "x")) then Some (New "checksum mismatch") else None)
  (λ _, None) None None (λ _, None) (λ _, None) (λ _, None) (λ _, None).
Definition shelf_round (env : Env) : list MID := mids (RunOnce env None 5 (with_defaults (mkConfig StrategyRoots None [] 0 false 0)) patchy 1 shelf_store (mkMemHerald 0 0 0)).1.2.
Lemma walk_error_drops_siblings : shelf_round (calm 7) = [toy_mid CodecRaw shelf; file "x"; file "y"] /\
  shelf_round unreadable = [toy_mid CodecRaw shelf] /\ Get unreadable None (file "y") shelf_store = Ok (lit "y").
Proof. vm_compute. repeat split. Qed.
End demo.
