(* ===== verification/Fetching.v ===== *)
(** * Blocks from the network (src/cmd/membuss/daemon/fetching_blockstore.go, src/net/manifest_rpc)

    [Get] of the daemon's [fetchingBlockstore]: a block the store does not have is asked for over
    memex, and failing that rebuilt from erasure shards, under a manifest of the store or one that
    a peer serves over manifest_rpc ([handleStream], [FetchManifest]).  The DHT, the streams and
    the JSON of the messages are parameters, as is what the buffers hold that both sides decode after
    they have released them; a memex session is any run of the session of MemexSession.v.
    [Get_recovers]: k obtainable shards give the block back.  [Get_authentic]: what [Get] returns is
    what was asked for if the manifests are about it, which the code does not check
    ([forged_manifest_served]). *)
From S2P Require Import Prelude Mid GoIO Wire Blockstore Objects Memstore Erasure Repair Memex MemexSession.

(** ** Manifests over the wire *)
Record RPCRequest := mkRPCRequest { rq_Mid : bytes }.
Record RPCResponse := mkRPCResponse { rp_Manifest : bytes; rp_RootMid : bytes; rp_Error : bytes }.
Record ManifestResult := mkManifestResult { mr_Manifest : option ErasureManifest; mr_RootMid : bytes; mr_ServedBy : bytes }.
Definition noManifest : ManifestResult := mkManifestResult None [] [].
(** encoding/json on the messages; text that is not UTF-8 does not survive it *)
Class ManifestJSON := {
  req_Marshal : RPCRequest -> bytes; req_Unmarshal : bytes -> result RPCRequest;
  resp_Marshal : RPCResponse -> bytes; resp_Unmarshal : bytes -> result RPCResponse;
}.
Class ManifestJSONLaws `{ManifestJSON} : Prop := {
  req_roundtrip r : Forall is_ascii (rq_Mid r) -> req_Unmarshal (req_Marshal r) = Ok r;
  resp_roundtrip r : Forall is_ascii (rp_RootMid r) -> Forall is_ascii (rp_Error r) -> resp_Unmarshal (resp_Marshal r) = Ok r;
}.
Definition maxMessageBytes : Z := 4 * 2 ^ 20.
Definition refusal (msg : string) : RPCResponse := mkRPCResponse [] [] (lit msg).

Section protocol.
Context `{Multiformats, Protos, ManifestJSON} {St : Type} `{MetaStore St}.
(** the answer to a decoded request *)
Definition manifest_answer (req : RPCRequest) (s : St) : RPCResponse :=
  match Parse (rq_Mid req) with
  | Err _ => refusal "invalid mid"
  | Ok m =>
      match GetManifest m s with
      | Err e => refusal (Error e)
      | Ok None => refusal ""
      | Ok (Some manifest) =>
          match marshal manifest with
          | Err e => refusal ("marshal manifest: " ++ Error e)
          | Ok raw => mkRPCResponse raw (match st_GetMeta (ManifestRootKey m) s with Ok rootRaw => rootRaw | Err _ => [] end) []
          end
      end
  end.
(** both sides give a message buffer back to the pool ([ReleaseMsg]) before they decode it: [released b] is
    what a buffer that held [b] holds when it is decoded, [b] as long as nobody has taken it from the pool *)
Context (released : bytes -> bytes).
(** [allowed] is what the rate limiter says, [arrived] what was read; [None] is no answer *)
Definition handleStream (allowed : bool) (arrived : option bytes) (s : St) : option bytes :=
  if negb allowed then Some (resp_Marshal (refusal "rate limit exceeded")) else
  match arrived with
  | None => None
  | Some msgBytes =>
      if maxMessageBytes <? zlen msgBytes then None else
      Some (resp_Marshal (match req_Unmarshal (released msgBytes) with Err _ => refusal "invalid request payload" | Ok req => manifest_answer req s end))
  end.
(** [ask pid payload] is what comes back on a stream to the peer *)
Context (ask : bytes -> bytes -> result bytes).
Definition FetchManifest (pid : bytes) (m : MID) : result ManifestResult :=
  respBytes ← wrap "read manifest response" (ask pid (req_Marshal (mkRPCRequest (String m))));
  if maxMessageBytes <? zlen respBytes then Err (New "read manifest response: message too large") else
  resp ← wrap "unmarshal manifest response" (resp_Unmarshal (released respBytes));
  if negb (bool_decide (rp_Error resp = [])) then Err (New "manifest error") else
  if bool_decide (rp_Manifest resp = []) then Ok noManifest else
  manifest ← wrap "unmarshal manifest" (unmarshal (rp_Manifest resp));
  Ok (mkManifestResult (Some manifest) (rp_RootMid resp) pid).
Fixpoint FetchManifestFromPeers (self : bytes) (peers : list bytes) (m : MID) : ManifestResult :=
  match peers with
  | [] => noManifest
  | p :: peers =>
      if bool_decide (p = self) || bool_decide (p = []) then FetchManifestFromPeers self peers m else
      match FetchManifest p m with
      | Ok res => match mr_Manifest res with Some _ => res | None => FetchManifestFromPeers self peers m end
      | Err _ => FetchManifestFromPeers self peers m
      end
  end.
End protocol.

(** ** The store that fetches *)
(** a moment of the network; [nt_online] says that memex and the DHT run *)
Record Net (St : Type) := mkNet {
  nt_online : bool; nt_host : bool; nt_self : bytes;
  nt_providers : MID -> list bytes; nt_swarm : list bytes; nt_shardSets : MID -> list bytes;
  nt_ask : bytes -> bytes -> result bytes; nt_released : bytes -> bytes;
  nt_session : list bytes -> MID -> St -> bool * St;
}.
Arguments mkNet {St} _ _ _ _ _ _ _ _ _.
Arguments nt_online {St} _.
Arguments nt_host {St} _.
Arguments nt_self {St} _.
Arguments nt_providers {St} _ _.
Arguments nt_swarm {St} _.
Arguments nt_shardSets {St} _ _.
Arguments nt_ask {St} _ _ _.
Arguments nt_released {St} _ _.
Arguments nt_session {St} _ _ _ _.
Fixpoint firsts (seen : list bytes) (l : list bytes) : list bytes :=
  match l with [] => [] | p :: l => if bool_decide (p ∈ seen) then firsts seen l else p :: firsts (p :: seen) l end.

Section fetching.
Context `{Multiformats, Protos, ReedSolomon, ManifestJSON} (alg : Z) {St : Type} `{Blockstore St, MetaStore St} (net : Net St).

Definition fetchManifestFromPeers (m : MID) : ManifestResult :=
  if negb (nt_host net) then noManifest else
  FetchManifestFromPeers (nt_released net) (nt_ask net) (nt_self net) (firsts [] (nt_providers net m ++ nt_swarm net)) m.
(** whom a session asks *)
Definition sources (m : MID) (extra : list bytes) : list bytes :=
  let provs := nt_providers net m in
  let provs := if bool_decide (provs = []) && nt_host net then nt_swarm net else provs in
  provs ++ filter (λ p, nt_host net = true /\ p ≠ [] /\ p ≠ nt_self net) extra.
Definition fetchBlockFromNetwork (m : MID) (extra : list bytes) (s : St) : option bytes * St :=
  if negb (nt_online net) then (None, s) else
  let provs := sources m extra in
  if bool_decide (provs = []) then (None, s) else
  let '(fetched, s) := nt_session net provs m s in
  if negb fetched then (None, s) else
  (match bs_Get m s with Ok data => Some data | Err _ => None end, s).
(** the manifest and the root it came with *)
Definition find_manifest (m : MID) (s : St) : option ErasureManifest * bytes * St :=
  match (match GetManifest m s with Ok manifest => manifest | Err _ => None end) with
  | Some manifest => (Some manifest, [], s)
  | None =>
      if negb (nt_host net) then (None, [], s) else
      let res := fetchManifestFromPeers m in
      match mr_Manifest res with
      | Some manifest => (Some manifest, mr_RootMid res, (SetManifest m (Some manifest) s).2)
      | None => (None, mr_RootMid res, s)
      end
  end.
Definition shard_holders (m : MID) (rootHint : bytes) (s : St) : list bytes :=
  let rootHint := if bool_decide (rootHint = []) then
      match GetManifestRoot m s with Ok lr => if IsZero lr then [] else String lr | Err _ => [] end
    else rootHint in
  if bool_decide (rootHint = []) then [] else
  match Parse rootHint with Ok rm => nt_shardSets net rm | Err _ => [] end.
Definition find_shard (holders : list bytes) (smStr : bytes) (s : St) : option bytes * St :=
  match Parse smStr with
  | Err _ => (None, s)
  | Ok sm =>
      let '(sData, s) := match bs_Get sm s with Ok d => (Some d, s) | Err _ => fetchBlockFromNetwork sm holders s end in
      match sData with
      | Some d => if (0 <? zlen d) && VerifyShard alg d smStr then (Some d, s) else (None, s)
      | None => (None, s)
      end
  end.
(** shards are collected until there are enough *)
Fixpoint gather (holders : list bytes) (dataShards : Z) (mids : list bytes) (presentCount : Z) (s : St) : list (option bytes) * Z * St :=
  match mids with
  | [] => ([], presentCount, s)
  | smStr :: mids =>
      if dataShards <=? presentCount then (replicate (S (length mids)) None, presentCount, s) else
      let '(o, s) := find_shard holders smStr s in
      let '(shards, n, s) := gather holders dataShards mids (match o with Some _ => presentCount + 1 | None => presentCount end) s in
      (o :: shards, n, s)
  end.
Definition rebuild (holders : list bytes) (manifest : ErasureManifest) (s : St) : option bytes * St :=
  let dataShards := em_DataShards manifest in
  let parityShards := em_ParityShards manifest in
  if negb (zlen (em_ShardMids manifest) =? dataShards + parityShards) then (None, s) else
  let '(shards, presentCount, s) := gather holders dataShards (em_ShardMids manifest) 0 s in
  if presentCount <? dataShards then (None, s) else
  match cfg ← NewConfig dataShards parityShards; _ ← NewEncoder cfg; Decode alg cfg shards (Some manifest) with
  | Ok reconstructed => (if bool_decide (reconstructed = []) then None else Some reconstructed, s)
  | Err _ => (None, s)
  end.
Definition Get (m : MID) : M St bytes := λ s,
  match bs_Get m s with
  | Ok data => (Ok data, s)
  | Err e =>
      if negb (errors_is e ErrNotFound) then (Err e, s) else
      if negb (nt_online net) then (Err ErrNotFound, s) else
      let '(dataNet, s) := fetchBlockFromNetwork m [] s in
      match dataNet with
      | Some (b :: d) => (Ok (b :: d), s)
      | _ =>
          let '(manifest, rootHint, s) := find_manifest m s in
          let holders := shard_holders m rootHint s in
          match manifest with
          | None => (Err ErrNotFound, s)
          | Some manifest =>
              match rebuild holders manifest s with
              | (Some reconstructed, s) => (Ok reconstructed, (bs_Put m reconstructed s).2)
              | (None, s) => (Err ErrNotFound, s)
              end
          end
      end
  end.
End fetching.

(** ** Properties *)
(** what is asked of the store: blocks only under their names, metadata apart from blocks *)
Class FetchStore (St : Type) `{Multiformats, Blockstore St, MetaStore St} (alg : Z) (inv : St -> Prop) : Prop := {
  #[global] fs_shards :: ShardStore St alg inv;
  get_names m s d : inv s -> wf_mid m -> bs_Get m s = Ok d -> names alg m d;
  meta_write k v s r s' : inv s -> st_PutMeta k v s = (r, s') -> inv s' /\ forall m, bs_Get m s' = bs_Get m s;
}.

Section facts.
Context `{Multiformats} `{!MultiformatsLaws} (alg : Z) (Halg : isSupportedHash alg = true) `{!CollisionFree alg}.
Context `{Protos, ReedSolomon, ManifestJSON} {St : Type} `{Blockstore St} `{MetaStore St} (inv : St -> Prop) `{!FetchStore St alg inv}.
Context (net : Net St).
(** sessions are runs of the session *)
Definition sessions_run : Prop := forall provs m s fetched s', wf_mid m -> nt_session net provs m s = (fetched, s') -> inv s ->
  exists c, rtc (any_step alg inv) (fetch_start m s) c /\ f_store c = s'.
Context (Hsession : sessions_run).
Implicit Types s : St.

Definition stays s s' : Prop := inv s' /\ keeps alg s s'.
Lemma stays_refl s : inv s -> stays s s.
Proof. by split. Qed.
Lemma stays_trans s1 s2 s3 : stays s1 s2 -> stays s2 s3 -> stays s1 s3.
Proof. intros [_ K1] [I2 K2]. split; [done|by etrans]. Qed.
Lemma put_stays m d s : inv s -> wf_mid m -> stays s (bs_Put m d s).2.
Proof. intros Hs Hm. destruct (bs_Put m d s) as [r s'] eqn:E. by eapply put_keeps. Qed.
Lemma find_readable m s : inv s -> wf_mid m -> bs_Has m s = Ok true -> exists d, bs_Get m s = Ok d.
Proof. intros Hs Hm Hh. destruct (has_readable (alg := alg) (inv := inv) m s Hs Hm Hh) as (d & _ & Hg). by exists d. Qed.
Lemma session_stays root s c : inv s -> rtc (any_step alg inv) (fetch_start root s) c -> stays s (f_store c).
Proof.
  intros Hs Hrun. assert (forall c0, rtc (any_step alg inv) c0 c -> inv (f_store c0) -> stays (f_store c0) (f_store c)) as Hall; [|by apply (Hall _ Hrun)].
  clear Hs Hrun. intros c0 Hrun. induction Hrun as [c|c c1 c2 [w Hstep] _ IH]; intros Hs; [by apply stays_refl|].
  assert (stays (f_store c) (f_store c1)) as Hst; [|eapply stays_trans; [exact Hst|apply IH, Hst]].
  inversion Hstep; subst; try by apply stays_refl.
  - unfold walk_block. destruct (Parse midStr) as [id|]; [|by apply stays_refl]. destruct (bs_Get id (f_store c)) as [data|]; [|by apply stays_refl].
    pose proof (session_children_wf alg inv find_readable (get_names (alg := alg) (inv := inv)) id data) as Hwf.
    destruct (session_children id data) as [child d|l]; [|by apply stays_refl].
    pose proof (put_stays child d (f_store c) Hs Hwf) as Hp. by destruct (bs_Put child d (f_store c)).
  - done.
Qed.
Lemma network_stays m extra s o s' : wf_mid m -> inv s -> fetchBlockFromNetwork net m extra s = (o, s') ->
  stays s s' /\ forall d, o = Some d -> bs_Get m s' = Ok d.
Proof.
  intros Hm Hs. unfold fetchBlockFromNetwork. pose proof (stays_refl s Hs). destruct (negb _); [by intros [= <- <-]|]. case_bool_decide; [by intros [= <- <-]|].
  destruct (nt_session _ _ m s) as [fetched s1] eqn:E. destruct (Hsession _ _ _ _ _ Hm E Hs) as (c & Hrun & <-).
  pose proof (session_stays m s c Hs Hrun). destruct (negb fetched); intros [= <- <-]; [done|]. split; [done|].
  intros d. destruct (bs_Get m (f_store c)); [by intros [= ->]|done].
Qed.
Lemma find_manifest_stays m s : inv s -> stays s (find_manifest net m s).2.
Proof.
  intros Hs. pose proof (stays_refl s Hs). unfold find_manifest. destruct (match GetManifest m s with Ok _ => _ | Err _ => _ end); [done|].
  destruct (negb _); [done|]. cbv zeta. destruct (mr_Manifest _) as [mf|]; [|done]. cbn [snd]. unfold SetManifest. destruct (IsZero m); [done|].
  unfold mbind, M_bind, liftr. destruct (wrap _ (marshal mf)) as [buf|]; [|done]. destruct (st_PutMeta _ buf s) as [r s'] eqn:E.
  destruct (meta_write (alg := alg) (inv := inv) _ _ _ _ _ Hs E) as [Hi Hg]. split; [done|]. intros m' d _ _ Hd. by rewrite Hg.
Qed.

(** *** Shards *)
(** a shard that the store has, or that a session with these holders brings *)
Definition obtainable (holders : list bytes) s (d : bytes) : Prop := exists sm, FromBytes alg d = Ok sm /\
  forall s', stays s s' -> bs_Get sm s' = Ok d \/ (fetchBlockFromNetwork net sm holders s').1 = Some d.
Lemma obtainable_stays holders s s' d : stays s s' -> obtainable holders s d -> obtainable holders s' d.
Proof. intros Hst (sm & E & Hd). exists sm. split; [done|]. intros s2 Hs2. apply Hd. by eapply stays_trans. Qed.
Lemma find_shard_spec holders d sm s o s' : inv s -> d ≠ [] -> FromBytes alg d = Ok sm -> find_shard alg net holders (String sm) s = (o, s') ->
  stays s s' /\ (o = None \/ o = Some d) /\ (obtainable holders s d -> o = Some d).
Proof.
  intros Hs Hne Hsm. destruct (FromBytes_ok alg Halg d) as (sm' & E & Hw). rewrite Hsm in E. injection E as <-.
  assert (names alg sm d) as Hn by by apply (FromBytes_names alg Halg d CodecRaw). assert ((0 <? zlen d) = true) as Hz by (destruct d; [done|unfold zlen; simpl; apply Z.ltb_lt; lia]).
  unfold find_shard. rewrite Parse_wf_String by done.
  destruct (match bs_Get sm s with Ok _ => _ | Err _ => _ end) as [sData s1] eqn:E1.
  assert (stays s s1 /\ (forall x, sData = Some x -> bs_Get sm s1 = Ok x) /\ (obtainable holders s d -> sData = Some d)) as (Hst & Hx & Ho).
  { destruct (bs_Get sm s) as [x|] eqn:Eg.
    - injection E1 as <- <-. split_and!; [by apply stays_refl|by intros ? [= <-]|]. intros _. f_equal.
      eapply (names_unique alg Halg sm); [by eapply get_names|done].
    - destruct (network_stays _ _ _ _ _ Hw Hs E1) as [Hst Hx]. split_and!; [done|done|]. intros (sm' & Es & Hd). rewrite Hsm in Es. injection Es as <-.
      destruct (Hd s (stays_refl s Hs)) as [?|Hf]; [congruence|]. by rewrite E1 in Hf. }
  destruct sData as [x|].
  - assert (x = d) as -> by (eapply (names_unique alg Halg sm); [eapply get_names; [apply Hst|done|by apply Hx]|done]).
    rewrite Hz, (VerifyShard_spec alg Halg d d sm Hsm), bool_decide_eq_true_2 by done. intros [= <- <-]. split_and!; [done|by right|done].
  - intros [= <- <-]. split_and!; [done|by left|]. intros Hob. by specialize (Ho Hob).
Qed.
Lemma gather_spec holders k coded mids : Forall (λ d : bytes, d ≠ []) coded -> Forall2 (λ d m, FromBytes alg d = Ok m) coded mids -> forall n s shards c s',
  inv s -> gather alg net holders k (map String mids) n s = (shards, c, s') ->
  stays s s' /\ Forall2 (λ o d, o = None \/ o = Some d) shards coded /\ c = n + present shards /\
  forall got, got `sublist_of` coded -> Forall (obtainable holders s) got -> Z.min k (n + zlen got) <= c.
Proof.
  intros Hne Hm. induction Hm as [|d m coded mids Hd Hm IH]; intros n s shards c s' Hs; cbn [map gather].
  { intros [= <- <- <-]. split_and!; [by apply stays_refl|done|unfold present, zlen; simpl; lia|]. intros got ->%sublist_nil_r _. unfold zlen. simpl. lia. }
  apply Forall_cons in Hne as [Hd0 Hne]. destruct (Z.leb_spec k n) as [Hk|Hk].
  { intros [= <- <- <-]. split_and!; [by apply stays_refl| |unfold present; rewrite length_map|intros; lia].
    - apply Forall2_cons. split; [by left|]. rewrite length_map. clear -Hm. induction Hm; constructor; [by left|done].
    - clear. induction (length mids) as [|l IHl]; [unfold zlen; simpl; lia|exact IHl]. }
  destruct (find_shard alg net holders (String m) s) as [o s1] eqn:E1. destruct (find_shard_spec _ _ _ _ _ _ Hs Hd0 Hd E1) as (St1 & Ho & Hob).
  destruct (gather _ _ _ _ _ _ s1) as [[rest c2] s2] eqn:E2. intros [= <- <- <-].
  destruct (IH Hne _ _ _ _ _ (proj1 St1) E2) as (St2 & HF & Hc & Hgot). split_and!; [by eapply stays_trans|by constructor| |].
  - rewrite Hc. unfold present, zlen. destruct o as [x|]; cbn; lia.
  - intros got Hsub Hall. apply sublist_cons_r in Hsub as [Hsub|(got' & -> & Hsub)].
    + specialize (Hgot got Hsub). assert (Forall (obtainable holders s1) got) as Hall1 by (eapply Forall_impl; [exact Hall|]; intros; by eapply obtainable_stays).
      specialize (Hgot Hall1). destruct o; lia.
    + apply Forall_cons in Hall as [Hd1 Hall]. rewrite (Hob Hd1) in Hgot. specialize (Hgot got' Hsub).
      assert (Forall (obtainable holders s1) got') as Hall1 by (eapply Forall_impl; [exact Hall|]; intros; by eapply obtainable_stays).
      specialize (Hgot Hall1). unfold zlen in *. cbn [length]. lia.
Qed.
Lemma gather_stays holders k mids : forall n s, inv s -> stays s (gather alg net holders k mids n s).2.
Proof.
  induction mids as [|sm mids IH]; intros n s Hs; cbn [gather]; [by apply stays_refl|]. destruct (_ <=? _); [by apply stays_refl|].
  destruct (find_shard alg net holders sm s) as [o s1] eqn:E1.
  assert (stays s s1) as St1.
  { revert E1. unfold find_shard. destruct (Parse sm) as [m|] eqn:Ep; [|by intros [= _ <-]; apply stays_refl]. apply Parse_wf in Ep. destruct (bs_Get m s) as [x|].
    - destruct (_ && _); intros [= _ <-]; by apply stays_refl.
    - destruct (fetchBlockFromNetwork _ _ _ _) as [o2 s2] eqn:E2. destruct (network_stays _ _ _ _ _ Ep Hs E2) as [? _].
      destruct o2 as [x|]; [destruct (_ && _)|]; by intros [= _ <-]. }
  specialize (IH (match o with Some _ => n + 1 | None => n end) s1 (proj1 St1)). destruct (gather _ _ _ _ _ _ s1) as [[rest c2] s2]. cbn [snd] in *. by eapply stays_trans.
Qed.

(** *** Where a manifest comes from *)
(** [mf] is in the store, or is served by a peer that has it, after peers that serve none; the buffers of this
    exchange are not reused while they are decoded *)
Definition serves_none m (p : bytes) : Prop := p = nt_self net \/ p = [] \/
  match FetchManifest (nt_released net) (nt_ask net) p m with Ok res => mr_Manifest res = None | Err _ => True end.
Definition recorded_root m t : bytes := match st_GetMeta (ManifestRootKey m) t with Ok root => root | Err _ => [] end.
Inductive known m s mf : Prop :=
  | known_here : GetManifest m s = Ok (Some mf) -> known m s mf
  | known_there pre p post t raw : GetManifest m s = Ok None -> nt_host net = true ->
      firsts [] (nt_providers net m ++ nt_swarm net) = pre ++ p :: post -> Forall (serves_none m) pre -> p ≠ nt_self net -> p ≠ [] ->
      (forall req reply, handleStream id true (Some req) t = Some reply -> zlen reply <= maxMessageBytes -> nt_ask net p req = Ok reply /\ nt_released net reply = reply) ->
      GetManifest m t = Ok (Some mf) -> marshal mf = Ok raw -> raw ≠ [] ->
      zlen (req_Marshal (mkRPCRequest (String m))) <= maxMessageBytes ->
      (let root := recorded_root m t in Forall is_ascii root /\ zlen (resp_Marshal (mkRPCResponse raw root [])) <= maxMessageBytes) -> known m s mf.
Context `{!ProtosLaws, !ManifestJSONLaws}.
Lemma FetchManifest_served p m t mf raw : wf_mid m -> 
  (forall req reply, handleStream id true (Some req) t = Some reply -> zlen reply <= maxMessageBytes -> nt_ask net p req = Ok reply /\ nt_released net reply = reply) ->
  GetManifest m t = Ok (Some mf) -> marshal mf = Ok raw -> raw ≠ [] -> zlen (req_Marshal (mkRPCRequest (String m))) <= maxMessageBytes ->
  (let root := recorded_root m t in Forall is_ascii root /\ zlen (resp_Marshal (mkRPCResponse raw root [])) <= maxMessageBytes) ->
  exists root, FetchManifest (nt_released net) (nt_ask net) p m = Ok (mkManifestResult (Some mf) root p).
Proof.
  intros Hm Hask Hg Hraw Hne Hreq [Hroot Hlen]. pose proof (String_ascii m Hm) as Ha.
  set (root := recorded_root m t) in *. exists root.
  assert (handleStream id true (Some (req_Marshal (mkRPCRequest (String m)))) t = Some (resp_Marshal (mkRPCResponse raw root []))) as Eh.
  { unfold handleStream. cbn [negb]. destruct (Z.ltb_spec maxMessageBytes (zlen (req_Marshal (mkRPCRequest (String m))))); [lia|].
    change (id (req_Marshal (mkRPCRequest (String m)))) with (req_Marshal (mkRPCRequest (String m))). rewrite req_roundtrip by done. unfold manifest_answer. cbn [rq_Mid]. by rewrite Parse_wf_String, Hg, Hraw by done. }
  unfold FetchManifest. destruct (Hask _ _ Eh Hlen) as [Ea Erel]. rewrite Ea. cbn [wrap mbind result_bind].
  destruct (Z.ltb_spec maxMessageBytes (zlen (resp_Marshal (mkRPCResponse raw root [])))); [lia|].
  rewrite Erel, resp_roundtrip by (done || constructor).
  cbn [wrap mbind result_bind rp_Error rp_Manifest rp_RootMid]. rewrite bool_decide_eq_true_2, bool_decide_eq_false_2 by done. cbn [negb].
  by rewrite (unmarshal_marshal _ _ Hraw).
Qed.
Lemma known_found m s mf : wf_mid m -> known m s mf -> (find_manifest net m s).1.1 = Some mf.
Proof.
  intros Hm [Hg|pre p post t raw Hg Hh Hl Hpre Hp Hp0 Hask Ht Hraw Hne Hreq Hroot]; unfold find_manifest; rewrite Hg; [done|].
  rewrite Hh. cbn [negb]. cbv zeta.
  assert (mr_Manifest (fetchManifestFromPeers net m) = Some mf) as ->; [|done].
  unfold fetchManifestFromPeers. rewrite Hh, Hl. cbn [negb]. clear Hl.
  destruct (FetchManifest_served p m t mf raw Hm Hask Ht Hraw Hne Hreq Hroot) as [root Ef].
  induction Hpre as [|q pre Hq _ IH]; cbn [app FetchManifestFromPeers].
  - rewrite !bool_decide_eq_false_2, Ef by done. done.
  - destruct Hq as [->|[->|Hq]]; [by rewrite bool_decide_eq_true_2|by rewrite (bool_decide_eq_true_2 ([] = [])), orb_true_r|].
    destruct (_ || _); [done|]. destruct (FetchManifest _ _ q m) as [res|]; [|done]. by rewrite Hq.
Qed.

(** *** Rebuilding *)
Lemma intact_present shards coded : Forall2 (λ (o : option bytes) d, o = None \/ o = Some d) shards coded -> intact shards coded = present shards.
Proof.
  unfold intact, present. induction 1 as [|o d shards coded Ho _ IH]; [done|]. cbn [zip zip_with]. rewrite filter_cons. cbn [fst snd].
  destruct Ho as [->| ->]; [by rewrite decide_False|rewrite decide_True by done; unfold zlen in *; cbn; lia].
Qed.
Lemma rebuild_spec holders cfg data en s : inv s -> config_ok cfg -> RSLaws cfg -> data ≠ [] -> zlen data < 2 ^ 63 -> Encode alg cfg data = Ok en ->
  (exists got, got `sublist_of` map sh_Data (en_Shards en) /\ Forall (obtainable holders s) got /\ DataShards cfg <= zlen got) ->
  exists s', rebuild alg net holders (en_Manifest en) s = (Some data, s') /\ stays s s'.
Proof.
  intros Hs Hcfg Hlaws Hne Hlen E (got & Hsub & Hgot & Hk).
  destruct (Encode_spec alg Halg cfg Hcfg data Hne Hlen) as (en' & original & coded & mids & E' & Eo & Ec & Hm & Hl & Hsz & Hcat & Hv & Em).
  rewrite E in E'. injection E' as <-. rewrite Ec in Hsub. rewrite Em. unfold rebuild. cbn [em_DataShards em_ParityShards em_ShardMids]. cbv zeta.
  pose proof Hcfg as (Hk2 & Hp0 & Hmax). unfold MinShards, MaxShards in *.
  assert (Forall (λ d : bytes, d ≠ []) coded) as Hne'.
  { eapply Forall_impl; [exact Hsz|]. intros d Hd ->. change (zlen (@nil byte)) with 0 in Hd. unfold shard_len in Hd.
    pose proof (Z.div_str_pos (zlen data + DataShards cfg - 1) (DataShards cfg)). assert (0 < zlen data) by (destruct data; [done|unfold zlen; simpl; lia]). lia. }
  assert (zlen (map String mids) = total cfg) as Hlm by (rewrite <-Hl; unfold zlen; by rewrite length_map, (Forall2_length _ _ _ Hm)).
  rewrite Hlm. fold (total cfg). rewrite Z.eqb_refl. cbn [negb].
  destruct (gather alg net holders (DataShards cfg) (map String mids) 0 s) as [[shards c] s1] eqn:Eg.
  destruct (gather_spec _ _ _ _ Hne' Hm _ _ _ _ _ Hs Eg) as (Hst & HF & Hc & Hmany). specialize (Hmany got Hsub Hgot).
  destruct (Z.ltb_spec c (DataShards cfg)); [lia|].
  assert (NewConfig (DataShards cfg) (ParityShards cfg) = Ok cfg) as Hnc by (apply NewConfig_ok; split; [by destruct cfg|done]).
  unfold NewEncoder. rewrite Hnc. cbn [mbind result_bind]. rewrite Hnc, rs_new. cbn [wrap mbind result_bind].
  destruct (Decode_intact alg Halg cfg Hcfg data original coded mids shards Hne Hlen Eo Hm Hl Hsz Hcat Hv) as [Hok _].
  { unfold zlen in *. by rewrite (Forall2_length _ _ _ HF). }
  rewrite Hok by (rewrite intact_present by done; lia). rewrite bool_decide_eq_false_2 by done. by exists s1.
Qed.
Lemma rebuild_names holders mf s r s' : inv s -> rebuild alg net holders mf s = (r, s') -> stays s s' /\
  forall d m, r = Some d -> wf_mid m -> em_OriginalMid mf = String m -> names alg m d.
Proof.
  intros Hs. unfold rebuild. cbv zeta. pose proof (stays_refl s Hs). destruct (negb _); [by intros [= <- <-]|].
  pose proof (gather_stays holders (em_DataShards mf) (em_ShardMids mf) 0 s Hs) as Hst. destruct (gather _ _ _ _ _ _ s) as [[shards c] s1]. cbn [snd] in Hst.
  destruct (_ <? _); [by intros [= <- <-]|]. destruct (NewConfig _ _) as [cfg|]; cbn [mbind result_bind]; [|by intros [= <- <-]].
  destruct (NewEncoder cfg) as [[]|]; cbn [mbind result_bind]; [|by intros [= <- <-]].
  destruct (Decode alg cfg shards (Some mf)) as [x|] eqn:Ed; [|by intros [= <- <-]]. intros [= <- <-]. split; [done|].
  intros d m. case_bool_decide; [done|]. intros [= <-] Hm Ho. destruct (Decode_names alg cfg shards mf x Ed) as (want & got & Ep & Eg & Eq).
  rewrite Ho, Parse_wf_String in Ep by done. injection Ep as <-. unfold Equal in Eq. destruct (codec got =? codec m); [|done]. apply bool_decide_eq_true in Eq.
  apply (names_Hash alg got); [done|]. by apply (FromBytes_names alg Halg x CodecRaw).
Qed.
End facts.

Section properties.
Context `{Multiformats} `{!MultiformatsLaws} (alg : Z) (Halg : isSupportedHash alg = true) `{!CollisionFree alg}.
Context `{Protos} `{!ProtosLaws} `{ReedSolomon} `{ManifestJSON} `{!ManifestJSONLaws}.
Context {St : Type} `{Blockstore St} `{MetaStore St} (inv : St -> Prop) `{!FetchStore St alg inv} (net : Net St).

(** C32: a block is recovered from its shards over the network: when the store does not have the block,
    nobody sends it, and its manifest is in the store, or is served by the first of the candidates that serves
    any manifest for it (an earlier one, true or forged, is taken instead) in messages below the limit whose released
    buffers are not reused while they are decoded, [Get] returns the block and stores it, provided that k of its
    shards are in the store or brought by sessions with the providers and the holders the root of the manifest
    leads to; nothing stored is lost. *)
Theorem Get_recovers cfg data en s : sessions_run alg inv net -> inv s -> nt_online net = true ->
  config_ok cfg -> RSLaws cfg -> data ≠ [] -> zlen data < 2 ^ 63 -> Encode alg cfg data = Ok en ->
  let m := en_OriginalMID en in
  bs_Get m s = Err ErrNotFound ->
  let s1 := (fetchBlockFromNetwork net m [] s).2 in known net m s1 (en_Manifest en) ->
  let '(_, hint, s2) := find_manifest net m s1 in
  (exists got, got `sublist_of` map sh_Data (en_Shards en) /\ DataShards cfg <= zlen got /\
    Forall (obtainable alg inv net (shard_holders net m hint s2) s2) got) ->
  exists s', Get alg net m s = (Ok data, s') /\ bs_Get m s' = Ok data /\ inv s' /\ keeps alg s s'.
Proof.
  intros Hses Hs Hon Hcfg Hlaws Hne Hlen E m Hmiss s1 Hknown.
  destruct (Encode_spec alg Halg cfg Hcfg data Hne Hlen) as (en' & original & coded & mids & E' & Eo & Ec & _). rewrite E in E'. injection E' as <-.
  assert (m = original) as Em by (unfold m; revert E; unfold Encode; rewrite Eo; case_bool_decide; [done|];
    cbn [mbind result_bind]; destruct (wrap _ _) as [sh|]; [|done]; cbn [mbind result_bind]; destruct (wrap _ (rs_Encode _ _)) as [sh'|]; [|done];
    cbn [mbind result_bind]; destruct (mapM _ _); [|done]; by intros [= <-]).
  destruct (FromBytes_ok alg Halg data) as (m' & Ef & Hw). rewrite Eo in Ef. injection Ef as <-. rewrite <-Em in Eo, Hw.
  assert (names alg m data) as Hn by by apply (FromBytes_names alg Halg data CodecRaw).
  unfold s1 in *. clear s1. destruct (fetchBlockFromNetwork net m [] s) as [o s1] eqn:E1. cbn [snd] in *.
  destruct (network_stays alg inv net Hses _ _ _ _ _ Hw Hs E1) as [St1 Ho].
  pose proof (find_manifest_stays alg inv net m s1 (proj1 St1)) as St2. pose proof (known_found net m s1 _ Hw Hknown) as Hf.
  unfold Get. rewrite Hmiss. cbn [negb]. rewrite Hon, E1. change (errors_is ErrNotFound ErrNotFound) with true. cbn [negb].
  destruct (find_manifest net m s1) as [[mf hint] s2] eqn:E2. cbn [fst snd] in *. subst mf. intros (got & Hsub & Hk & Hgot).
  assert (forall x, o = Some x -> x = data) as Hx.
  { intros x Hx. eapply (names_unique alg Halg m); [|done]. eapply get_names; [apply St1|done|by apply Ho]. }
  destruct o as [[|b x]|].
  1: by destruct Hne; rewrite (Hx [] eq_refl).
  { rewrite (Hx _ eq_refl) in *. exists s1. split_and!; [done|by apply Ho|apply St1|apply St1]. }
  destruct (rebuild_spec alg Halg inv net Hses (shard_holders net m hint s2) cfg data en s2 (proj1 St2) Hcfg Hlaws Hne Hlen E) as (s3 & E3 & St3);
    [by exists got|]. rewrite E3.
  destruct (put_total (alg := alg) (inv := inv) m data s3 (proj1 St3) Hw Hn) as [s4 E4]. rewrite E4.
  destruct (put_spec (alg := alg) (inv := inv) m data s3 _ _ (proj1 St3) Hw E4) as (I4 & Hok & _). pose proof (put_stays alg inv m data s3 (proj1 St3) Hw) as St4. rewrite E4 in St4.
  exists s4. split_and!; [done|by apply Hok|done|]. etrans; [apply St1|]. etrans; [apply St2|]. etrans; [apply St3|]. apply St4.
Qed.
(** C33: what [Get] returns is the block that was asked for, and nothing stored is lost, however the network
    behaves, as long as the manifest it finds is about that block. *)
Theorem Get_authentic m s r s' : sessions_run alg inv net -> inv s -> wf_mid m ->
  (forall mf, (find_manifest net m (fetchBlockFromNetwork net m [] s).2).1.1 = Some mf -> em_OriginalMid mf = String m) ->
  Get alg net m s = (r, s') -> inv s' /\ keeps alg s s' /\ forall d, r = Ok d -> names alg m d.
Proof.
  intros Hses Hs Hm Habout. unfold Get. destruct (bs_Get m s) as [d|e] eqn:Eg.
  { intros [= <- <-]. split_and!; [done|done|]. intros ? [= <-]. by eapply get_names. }
  destruct (negb _); [by intros [= <- <-]|]. destruct (negb _); [by intros [= <- <-]|].
  destruct (fetchBlockFromNetwork net m [] s) as [o s1] eqn:E1. destruct (network_stays alg inv net Hses _ _ _ _ _ Hm Hs E1) as [St1 Ho].
  assert (forall x, o = Some x -> names alg m x) as Hx by (intros x Hx; eapply get_names; [apply St1|done|by apply Ho]).
  assert (forall p, (let '(manifest, rootHint, s) := find_manifest net m s1 in
    match manifest with
    | None => (Err ErrNotFound, s)
    | Some manifest => match rebuild alg net (shard_holders net m rootHint s) manifest s with
      | (Some rec, s) => (Ok rec, (bs_Put m rec s).2) | (None, s) => (Err ErrNotFound, s) end end) = p -> inv p.2 /\ keeps alg s p.2 /\ forall d, p.1 = Ok d -> names alg m d) as Hrest.
  { intros p <-. pose proof (find_manifest_stays alg inv net m s1 (proj1 St1)) as St2. cbn [snd] in Habout.
    pose proof (stays_trans alg inv _ _ _ St1 St2) as St12. destruct (find_manifest net m s1) as [[[mf|] hint] s2]; cbn [fst snd] in *; [|by destruct St12].
    destruct (rebuild _ _ _ mf s2) as [x s3] eqn:E3. destruct (rebuild_names alg Halg inv net Hses _ _ _ _ _ (proj1 St12) E3) as [St3 Hd].
    pose proof (stays_trans alg inv _ _ _ St12 St3) as St13. destruct x as [x|]; cbn [fst snd]; [|by destruct St13].
    pose proof (stays_trans alg inv _ _ _ St13 (put_stays alg inv m x s3 (proj1 St13) Hm)) as [I4 K4]. split_and!; [done|done|]. intros ? [= <-]. by apply Hd, Habout. }
  destruct o as [[|b x]|]; intros E; [by apply (Hrest _ E)| |by apply (Hrest _ E)].
  injection E as <- <-. split_and!; [apply St1|apply St1|]. intros ? [= <-]. by apply Hx.
Qed.
End properties.

(** ** Instances: the in-memory store *)
Section memory.
Context `{Multiformats} `{!MultiformatsLaws} (alg : Z) (Halg : isSupportedHash alg = true) `{!CollisionFree alg}.
#[local] Existing Instance mem_blockstore.
Lemma mem_fetch_store : FetchStore (H0 := mem_blockstore alg) Memstore alg (mem_ok alg).
Proof.
  split.
  - by apply mem_shard_store.
  - intros m s d Hs Hm. cbn. unfold mem_Get. destruct (blocks s !! String m) as [d'|] eqn:E; [|done]. intros [= <-].
    apply (mo_names _ _ Hs) in E as (m' & Hm' & Es & Hn). by apply String_inj in Es as ->.
  - intros k v s r s' Hs. cbn. unfold mem_PutMeta. intros [= <- <-]. split; [|done]. by apply (same_blocks_ok alg s).
Qed.
End memory.

Module demo.
#[local] Instance demo_blocks : Blockstore Memstore := mem_blockstore BLAKE3.
#[export] Instance toy_json : ManifestJSON := {|
  req_Marshal := rq_Mid; req_Unmarshal b := Ok (mkRPCRequest b);
  resp_Marshal r := ToyWire.pack [rp_Manifest r; rp_RootMid r; rp_Error r];
  resp_Unmarshal b := match ToyWire.unpack b with Some [mf; root; e] => Ok (mkRPCResponse mf root e) | _ => Err (New "json") end;
|}.
#[export] Instance toy_json_laws : ManifestJSONLaws.
Proof. split; [by intros []|]. intros [] _ _. cbn [resp_Unmarshal resp_Marshal toy_json]. by rewrite ToyWire.unpack_pack. Qed.
Definition peer : bytes := lit "peer".
(** one provider, with this store *)
Definition one_peer (t : Memstore) : Net Memstore := mkNet true true (lit "self") (λ _, [peer]) [] (λ _, [])
  (λ _ req, match handleStream id true (Some req) t with Some r => Ok r | None => Err (New "EOF") end) id
  (λ _ m s, match bs_Get m t with Ok d => let '(r, s) := bs_Put m d s in (is_ok r, s) | Err _ => (false, s) end).
Lemma one_peer_sessions t : sessions_run BLAKE3 (mem_ok BLAKE3) (one_peer t).
Proof.
  intros provs m s fetched s' Hm E Hs. cbn in E. assert (mem_ok BLAKE3 s' /\ keeps BLAKE3 s s') as [Hi Hk].
  { destruct (mem_Get m t) as [d|]; [|by injection E as _ <-]. destruct (mem_Put BLAKE3 m d s) as [r s1] eqn:Ep. injection E as _ <-.
    exact (put_keeps (H1 := mem_laws BLAKE3 eq_refl) m d s r s1 Hs Hm Ep). }
  exists (mkFetch (f_sess (fetch_start m s)) s' ∅ [] [] false). split; [|done]. apply rtc_once. exists false. by apply step_store.
Qed.
Lemma brings t d sm s : FromBytes BLAKE3 d = Ok sm -> bs_Get sm t = Ok d -> (fetchBlockFromNetwork (one_peer t) sm [] s).1 = Some d.
Proof.
  intros Hd Hg. unfold fetchBlockFromNetwork. cbn [nt_online one_peer negb]. rewrite bool_decide_eq_false_2 by done. cbn [nt_session one_peer]. rewrite Hg.
  cbn [bs_Put bs_Get demo_blocks mem_blockstore]. unfold mem_Put. assert (names BLAKE3 sm d) as Hn%verifyContent_names by by apply (FromBytes_names BLAKE3 eq_refl d CodecRaw).
  rewrite Hn. cbn. unfold mem_Get. cbn. by rewrite lookup_insert_eq.
Qed.
Lemma no_holders t m hint s : shard_holders (one_peer t) m hint s = [].
Proof. unfold shard_holders. cbv zeta. destruct (bool_decide (_ = [])); [done|]. by destruct (Parse _). Qed.
Definition block : MID := en_OriginalMID demo_encoded_block.
Definition other : MID := toy_mid CodecRaw (lit "other").
Lemma damaged_shards : forallb (shard_in BLAKE3 damaged) (drop 1 (map sh_Data (en_Shards demo_encoded_block))) = true.
Proof. vm_compute. reflexivity. Qed.
Lemma block_names : FromBytes BLAKE3 Erasure.demo_block = Ok block.
Proof. vm_compute. reflexivity. Qed.
(** the store is empty, the peer has the manifest and two of three shards *)
Lemma Get_recovers_witness : exists s', Get BLAKE3 (one_peer damaged) block NewMemstore = (Ok Erasure.demo_block, s') /\ bs_Get block s' = Ok Erasure.demo_block.
Proof.
  pose proof (mem_fetch_store BLAKE3 eq_refl) as Hst.
  pose proof (Get_recovers BLAKE3 eq_refl (mem_ok BLAKE3) (one_peer damaged) toy_config Erasure.demo_block demo_encoded_block NewMemstore
    (one_peer_sessions damaged) (mem_ok_New BLAKE3) eq_refl) as Hget.
  specialize (Hget ltac:(vm_compute; split_and!; discriminate) toy_rs_laws ltac:(discriminate) ltac:(vm_compute; reflexivity) ltac:(vm_compute; reflexivity) ltac:(vm_compute; reflexivity)).
  assert ((fetchBlockFromNetwork (one_peer damaged) block [] NewMemstore).2 = NewMemstore) as E1 by (vm_compute; reflexivity).
  fold block in Hget. rewrite E1 in Hget.
  assert (exists raw, marshal (en_Manifest demo_encoded_block) = Ok raw /\ raw ≠ [] /\ zlen (resp_Marshal (mkRPCResponse raw [] [])) <= maxMessageBytes) as (raw & Hraw & Hne & Hlen).
  { eexists. split; [vm_compute; reflexivity|]. split; [discriminate|vm_compute; discriminate]. }
  assert (known (one_peer damaged) block NewMemstore (en_Manifest demo_encoded_block)) as Hknown.
  { apply (known_there (one_peer damaged) block NewMemstore (en_Manifest demo_encoded_block) [] peer [] damaged raw).
    + vm_compute. reflexivity.
    + reflexivity.
    + reflexivity.
    + constructor.
    + discriminate.
    + discriminate.
    + intros req reply Hr _. cbn [nt_ask nt_released one_peer]. by rewrite Hr.
    + vm_compute. reflexivity.
    + exact Hraw.
    + exact Hne.
    + vm_compute. discriminate.
    + assert (recorded_root block damaged = []) as -> by (vm_compute; reflexivity). split; [constructor|exact Hlen]. }
  specialize (Hget Hknown). clear Hknown Hne Hlen Hraw raw E1. revert Hget. destruct (find_manifest (one_peer damaged) block NewMemstore) as [[mf hint] s2]. intros Hget.
  match type of Hget with ?P -> _ => assert P as Hgot end.
  { exists (drop 1 (map sh_Data (en_Shards demo_encoded_block))). split; [apply sublist_drop|]. split; [vm_compute; discriminate|].
    rewrite no_holders. apply Forall_forall. intros d Hd. destruct (FromBytes_ok BLAKE3 eq_refl d) as (sm & Ed & _). exists sm. split; [exact Ed|].
    intros s' _. right. apply brings; [exact Ed|]. pose proof damaged_shards as Hall.
    rewrite forallb_forall in Hall. specialize (Hall d). rewrite <-list_elem_of_In in Hall. specialize (Hall Hd). unfold shard_in in Hall. rewrite Ed in Hall.
    by apply bool_decide_eq_true in Hall. }
  specialize (Hget Hgot). clear Hgot. destruct Hget as (s' & E & Hg & _). exists s'. split; [exact E|exact Hg].
Defined.
(** a released buffer that a message about another block has overwritten: that block's manifest is the answer *)
Lemma reused_buffer_answers_another : exists reply,
  handleStream (λ _, req_Marshal (mkRPCRequest (String block))) true (Some (req_Marshal (mkRPCRequest (String other)))) damaged = Some reply /\
  reply = default [] (handleStream id true (Some (req_Marshal (mkRPCRequest (String block)))) damaged) /\
  handleStream id true (Some (req_Marshal (mkRPCRequest (String other)))) damaged ≠ Some reply.
Proof.
  eexists. split; [vm_compute; reflexivity|]. split; [vm_compute; reflexivity|]. vm_compute. discriminate.
Qed.
(** nothing checks that a manifest is about the block it was asked for *)
Definition forged_encoded : Encoded := match Encode BLAKE3 toy_config (lit "forged") with Ok en => en | Err _ => demo_encoded_block end.
Definition forger : Memstore :=
  foldl (λ s sh, (bs_Put (sh_ShardMID sh) (sh_Data sh) s).2) (SetManifest block (Some (en_Manifest forged_encoded)) NewMemstore).2 (en_Shards forged_encoded).
(** a peer that answers with the manifest of other bytes and has their shards makes these the block; and
    the manifest stays *)
Lemma forged_manifest_served :
  let '(r, s') := Get BLAKE3 (one_peer forger) block NewMemstore in
  r = Ok (lit "forged") /\ ~ names BLAKE3 block (lit "forged") /\ GetManifest block s' = Ok (Some (en_Manifest forged_encoded)).
Proof.
  destruct (Get BLAKE3 (one_peer forger) block NewMemstore) as [r s'] eqn:E.
  assert (r = Ok (lit "forged")) as -> by (change r with (r, s').1; rewrite <-E; vm_compute; reflexivity). split; [done|]. split.
  - intros Hn. assert (0 <= CodecRaw < 2 ^ 64) as Hr by (vm_compute; split; [discriminate|reflexivity]).
    pose proof (FromBytes_names BLAKE3 eq_refl _ _ _ Hr block_names) as Hn2. pose proof (names_unique BLAKE3 eq_refl block _ _ Hn Hn2) as Heq. discriminate Heq.
  - change s' with (Ok (lit "forged"), s').2. rewrite <-E. vm_compute. reflexivity.
Qed.
Lemma Get_authentic_witness : exists s', Get BLAKE3 (one_peer damaged) block NewMemstore = (Ok Erasure.demo_block, s') /\ names BLAKE3 block Erasure.demo_block.
Proof.
  destruct (Get BLAKE3 (one_peer damaged) block NewMemstore) as [r s'] eqn:E. pose proof (mem_fetch_store BLAKE3 eq_refl) as Hst.
  assert (r = Ok Erasure.demo_block) as -> by (change r with (r, s').1; rewrite <-E; vm_compute; reflexivity).
  exists s'. split; [reflexivity|].
  assert ((find_manifest (one_peer damaged) block (fetchBlockFromNetwork (one_peer damaged) block [] NewMemstore).2).1.1 = Some (en_Manifest demo_encoded_block)) as Em
    by (vm_compute; reflexivity).
  assert (em_OriginalMid (en_Manifest demo_encoded_block) = String block) as Ho by (vm_compute; reflexivity).
  assert (wf_mid block) as Hw.
  { destruct (FromBytes_ok BLAKE3 eq_refl Erasure.demo_block) as (m & Em' & Hm). rewrite block_names in Em'. injection Em' as <-. exact Hm. }
  destruct (Get_authentic BLAKE3 eq_refl (mem_ok BLAKE3) (one_peer damaged) block NewMemstore (Ok Erasure.demo_block) s' (one_peer_sessions damaged) (mem_ok_New BLAKE3) Hw) as (_ & _ & Hn).
  - intros mf Hf. rewrite Em in Hf. injection Hf as <-. exact Ho.
  - exact E.
  - apply Hn. reflexivity.
Defined.
End demo.
