(* ===== verification/GateText.v ===== *)
(** * Text of the gateway (src/gateway/memgate_v2/memgate.go)

    The functions of strings, path, path/filepath and mime the gateway uses, its
    content types ([DetectContentType]), file names ([sanitizeFilename], [defaultFilename],
    [contentDisposition]) and its guess of the base path of a web application
    ([detectFrameworkBase]).  The tables of the operating system and the content
    sniffer are parameters ([Mimes]).
    [sanitizeFilename_safe]: a sanitized name has no control character, quote or separator, so it
    cannot leave its header or its directory.  [sanitizeFilename_keeps]: a name without them is kept. *)
From S2P Require Import Prelude Mid Wire Blockstore Objects Names Magnet NameResolver.

(** ** strings *)
Definition Contains (s sub : bytes) : bool := match index_of sub s with Some _ => true | None => false end.
Definition HasSuffix (s p : bytes) : bool := HasPrefix (reverse s) (reverse p).
Definition TrimSuffix (s p : bytes) : bytes := if HasSuffix s p then take (length s - length p) s else s.
Definition slash : bytes := [Byte.x2f].
Definition Split (s : bytes) : list bytes := split_all Byte.x2f [] s.
Definition until (sep : byte) (s : bytes) : bytes := match split2 sep s with Some (l, _) => l | None => s end.
(** the text after the last slash, and that up to it *)
Fixpoint last_slash (p : bytes) : option (bytes * bytes) :=
  match p with
  | [] => None
  | b :: p' =>
      match last_slash p' with
      | Some (d, n) => Some (b :: d, n)
      | None => if bool_decide (b = Byte.x2f) then Some ([b], p') else None
      end
  end.
Definition after_slash (p : bytes) : bytes := match last_slash p with Some (_, n) => n | None => p end.

(** ** path and path/filepath, with forward slashes *)
Definition clean_seg (rooted : bool) (out : list bytes) (seg : bytes) : list bytes :=
  if bool_decide (seg = []) || bool_decide (seg = lit ".") then out else
  if bool_decide (seg = lit "..") then
    match out with
    | top :: rest => if bool_decide (top = lit "..") then seg :: out else rest
    | [] => if rooted then [] else [seg]
    end
  else seg :: out.
Definition Clean (p : bytes) : bytes :=
  if bool_decide (p = []) then lit "." else
  let rooted := bool_decide (head p = Some Byte.x2f) in
  let s := join_with slash (reverse (foldl (clean_seg rooted) [] (Split p))) in
  if rooted then Byte.x2f :: s else if bool_decide (s = []) then lit "." else s.
Definition Join (a b : bytes) : bytes :=
  if bool_decide (a = []) then (if bool_decide (b = []) then [] else Clean b) else
  if bool_decide (b = []) then Clean a else Clean (a ++ slash ++ b).
Definition Dir (p : bytes) : bytes := Clean (match last_slash p with Some (d, _) => d | None => [] end).
Fixpoint drop_slashes (r : bytes) : bytes := match r with Byte.x2f :: r => drop_slashes r | _ => r end.
Definition Base (p : bytes) : bytes :=
  if bool_decide (p = []) then lit "." else
  let n := after_slash (reverse (drop_slashes (reverse p))) in
  if bool_decide (n = []) then slash else n.
Definition Ext (p : bytes) : bytes := default [] (from_last_dot (after_slash p)).

(** ** mime *)
(** what the operating system registers, by extension, and the other way round; the sniffer *)
Class Mimes := { os_type : bytes -> option bytes; ExtensionsByType : bytes -> list bytes; sniff : bytes -> bytes }.
(** [init] *)
Definition seeded : list (string * string) := [
  (".html", "text/html; charset=utf-8"); (".htm", "text/html; charset=utf-8"); (".css", "text/css; charset=utf-8");
  (".js", "text/javascript; charset=utf-8"); (".mjs", "text/javascript; charset=utf-8"); (".json", "application/json");
  (".svg", "image/svg+xml"); (".wasm", "application/wasm"); (".txt", "text/plain; charset=utf-8"); (".png", "image/png");
  (".jpg", "image/jpeg"); (".jpeg", "image/jpeg"); (".gif", "image/gif"); (".pdf", "application/pdf"); (".xml", "application/xml");
  (".mp3", "audio/mpeg"); (".mp4", "video/mp4"); (".webm", "video/webm"); (".webp", "image/webp"); (".woff", "font/woff");
  (".woff2", "font/woff2"); (".ttf", "font/ttf"); (".otf", "font/otf"); (".ico", "image/x-icon")
]%string.
Definition seeded_type (ext : bytes) : option bytes := (λ e, lit e.2.2) <$> list_find (λ e : string * string, lit e.1 = ext) seeded.
Definition TypeByExtension `{Mimes} (ext : bytes) : bytes :=
  let find ext := match seeded_type ext with Some t => Some t | None => os_type ext end in
  match find ext with Some t => t | None => default [] (find (ToLower ext)) end.
Definition DetectContentType `{Mimes} (name data override : bytes) : bytes :=
  if negb (bool_decide (override = [])) && negb (bool_decide (override = octets)) then
    if HasPrefix override (lit "application/javascript") || HasPrefix override (lit "text/javascript") then lit "text/javascript; charset=utf-8" else
    if HasPrefix override (lit "text/css") then lit "text/css; charset=utf-8" else override
  else
    let ct := if bool_decide (Ext name = []) then [] else TypeByExtension (Ext name) in
    if negb (bool_decide (ct = [])) then ct else
    if bool_decide (data = []) then octets else sniff data.
Definition chooseContentType (info fallback : bytes) : bytes := if bool_decide (info = []) then fallback else info.
Definition media_type (ct : bytes) : bytes := until Byte.x3b ct.
Definition isInlineStreamable (ct : bytes) : bool :=
  let base := ToLower (TrimSpace (media_type ct)) in
  HasPrefix base (lit "video/") || HasPrefix base (lit "audio/") || HasPrefix base (lit "image/")
  || bool_decide (base ∈ [lit "application/pdf"; lit "text/plain"; lit "text/html"]).
Definition MaxRenderSize : Z := 50 * 2 ^ 20.
Definition contentDisposition (ct : bytes) (size : Z) : bytes :=
  if isInlineStreamable ct then lit "inline" else if MaxRenderSize <? size then lit "attachment" else lit "inline".
Definition defaultFilename `{Mimes} (midStr ct : bytes) : bytes :=
  take 16 midStr ++ (match ExtensionsByType (TrimSpace (media_type ct)) with ext :: _ => ext | [] => lit ".bin" end).

(** ** File names *)
(** the length of the first character in UTF-8, 0 when the bytes are none *)
Definition within (lo hi : Z) (b : option byte) : bool := match b with Some b => (lo <=? b2z b) && (b2z b <=? hi) | None => false end.
Definition utf8_len (s : bytes) : nat :=
  let cont i := within 128 191 (s !! i) in
  match s with
  | [] => 0
  | b0 :: _ =>
      let c := b2z b0 in
      if c <? 128 then 1 else
      if (194 <=? c) && (c <=? 223) && cont 1%nat then 2 else
      if (224 <=? c) && (c <=? 239) && within (if c =? 224 then 160 else 128) (if c =? 237 then 159 else 191) (s !! 1%nat) && cont 2%nat then 3 else
      if (240 <=? c) && (c <=? 244) && within (if c =? 240 then 144 else 128) (if c =? 244 then 143 else 191) (s !! 1%nat) && cont 2%nat && cont 3%nat then 4
      else 0
  end.
(** [utf8.ValidString]; [skip] bytes belong to the character before *)
Fixpoint utf8_from (skip : nat) (s : bytes) : bool :=
  match s with
  | [] => true
  | _ :: s' => match skip with
               | S skip => utf8_from skip s'
               | O => match utf8_len s with O => false | S n => utf8_from n s' end
               end
  end.
Definition utf8 (s : bytes) : bool := utf8_from 0 s.
Definition RuneError : bytes := [Byte.xef; Byte.xbf; Byte.xbd].
Definition reserved : bytes := (Byte.x22 :: lit "\/<>|:*?").
Definition clean_char (b : byte) : byte := if (b2z b <? 32) || (b2z b =? 127) || bool_decide (b ∈ reserved) then Byte.x5f else b.
(** [strings.Map]; [skip] bytes belong to the character before *)
Fixpoint sanitize (skip : nat) (s : bytes) : bytes :=
  match s with
  | [] => []
  | b :: s' =>
      match skip with
      | S skip => b :: sanitize skip s'
      | O =>
          match utf8_len s with
          | O => RuneError ++ sanitize 0 s'
          | S O => clean_char b :: sanitize 0 s'
          | S n => b :: sanitize n s'
          end
      end
  end.
Definition sanitizeFilename (s : bytes) : bytes := sanitize 0 s.
(** [mime.FormatMediaType] of a type and a file name *)
Definition tspecial (b : byte) : bool := bool_decide (b ∈ Byte.x22 :: lit "()<>@,;:\/[]?=").
Definition token_char (b : byte) : bool := (32 <? b2z b) && (b2z b <? 127) && negb (tspecial b).
Definition is_token (s : bytes) : bool := negb (bool_decide (s = [])) && forallb token_char s.
Definition needs_encoding (s : bytes) : bool := existsb (λ b, ((b2z b <? 32) || (126 <? b2z b)) && negb (b2z b =? 9)) s.
Definition hex_digit (z : Z) : byte := if z <? 10 then z2b (48 + z) else z2b (55 + z).
Definition percent (b : byte) : bytes :=
  if (b2z b <=? 32) || (127 <=? b2z b) || bool_decide (b ∈ lit "*'%") || tspecial b
  then [Byte.x25; hex_digit (b2z b / 16); hex_digit (b2z b mod 16)] else [b].
Definition quoted (b : byte) : bytes := if bool_decide (b = Byte.x22) || bool_decide (b = Byte.x5c) then [Byte.x5c; b] else [b].
Definition FormatMediaType (t filename : bytes) : bytes :=
  if negb (is_token t) && negb (bool_decide (Byte.x2f ∈ t)) then [] else
  if bool_decide (Byte.x2f ∈ t) && negb (is_token (until Byte.x2f t) && is_token (drop (S (length (until Byte.x2f t))) t)) then [] else
  ToLower t ++ lit "; filename" ++
  (if needs_encoding filename then lit "*=utf-8''" ++ (filename ≫= percent) else
   if is_token filename then lit "=" ++ filename else
   lit "=" ++ [Byte.x22] ++ (filename ≫= quoted) ++ [Byte.x22]).

(** ** The base path of a web application *)
Definition is_quote (b : byte) : bool := bool_decide (b = Byte.x22) || bool_decide (b = Byte.x27) || bool_decide (b = Byte.x60).
(** the text between the last quote and the end *)
Fixpoint after_quote (s : bytes) : option bytes :=
  match s with
  | [] => None
  | b :: s' => match after_quote s' with Some t => Some t | None => if is_quote b then Some s' else None end
  end.
Definition base_before (content suffix : bytes) : option bytes :=
  idx ← index_of suffix content;
  pathSegment ← after_quote (take idx content);
  if negb (HasPrefix pathSegment slash) then None else
  let base := TrimSuffix pathSegment slash in
  if bool_decide (base = []) then None else Some base.
Definition detectFrameworkBase (content : bytes) : bytes :=
  default [] (head (omap (base_before content) [lit "_app/"; lit "assets/"; lit "_nuxt/"; lit "_next/"; lit "static/"])).
Definition commonDirs : list bytes := [lit "dist"; lit "build"; lit "public"; lit "out"].

(** ** Properties *)
(** what a sanitized name is made of: no control characters, quotes or separators *)
Lemma clean_char_ok b : 32 <= b2z (clean_char b) /\ b2z (clean_char b) ≠ 127 /\ clean_char b ∉ reserved.
Proof. by destruct b; vm_compute; split_and!; try done; apply (bool_decide_eq_true_1 (_ ∉ _)). Qed.
Definition safe_byte (b : byte) : Prop := 32 <= b2z b /\ b2z b ≠ 127 /\ b ∉ reserved.
Lemma high_safe b : 128 <= b2z b -> safe_byte b.
Proof.
  intros Hb. split_and!; [lia..|]. intros Hin. assert (Forall (λ b, b2z b < 128) reserved) as HF by (repeat constructor).
  rewrite Forall_forall in HF. specialize (HF _ Hin). cbn beta in HF. lia.
Qed.
Lemma within_spec lo hi b : within lo hi (Some b) = true <-> lo <= b2z b <= hi.
Proof. unfold within. rewrite andb_true_iff, !Z.leb_le. done. Qed.
(** the bytes of a character of two or more are high *)
Lemma utf8_len_high b s n : utf8_len (b :: s) = S (S n) -> 128 <= b2z b /\ Forall (λ b, 128 <= b2z b) (take (S n) s).
Proof.
  assert (forall lo hi i, within lo hi (s !! i) = true -> 128 <= lo -> exists d, s !! i = Some d /\ 128 <= b2z d) as Hw.
  { intros lo hi i. destruct (s !! i); [|done]. rewrite within_spec. eexists. split; [done|lia]. }
  assert (forall k, (forall i, (i < k)%nat -> exists d, s !! i = Some d /\ 128 <= b2z d) -> S (S n) = S k -> Forall (λ b, 128 <= b2z b) (take (S n) s)) as Hall.
  { intros k Hk [= <-]. apply Forall_lookup. intros i d [Hi Hlt]%lookup_take_Some. destruct (Hk i ltac:(lia)) as (d' & E' & ?). congruence. }
  unfold utf8_len. cbn [lookup list_lookup]. destruct (Z.ltb_spec (b2z b) 128) as [|Hb]; [done|]. intros E. split; [done|]. revert E.
  repeat match goal with |- (if ?c then _ else _) = _ -> _ => destruct c eqn:? end; intros E; [| | |discriminate E]; symmetry in E;
    repeat match goal with Ha : _ && _ = true |- _ => apply andb_true_iff in Ha as [? ?] end.
  - apply (Hall 1%nat); [|done]. intros [|i] Hi; [by eapply Hw|lia].
  - apply (Hall 2%nat); [|done]. intros [|[|i]] Hi; [|by eapply Hw|lia]. eapply Hw; [eassumption|case_match; lia].
  - apply (Hall 3%nat); [|done]. intros [|[|[|i]]] Hi; [|by eapply Hw|by eapply Hw|lia]. eapply Hw; [eassumption|case_match; lia].
Qed.
Lemma sanitize_safe n s : Forall (λ b, 128 <= b2z b) (take n s) -> Forall safe_byte (sanitize n s).
Proof.
  revert n. induction s as [|b s IH]; intros [|n] Hn; cbn [sanitize]; try done.
  - destruct (utf8_len (b :: s)) as [|[|k]] eqn:El.
    + apply Forall_app. split; [|by apply IH]. repeat constructor; by apply high_safe.
    + constructor; [apply clean_char_ok|by apply IH].
    + destruct (utf8_len_high b s k El) as [Hb Hk]. constructor; [by apply high_safe|]. by apply IH.
  - cbn [take] in Hn. inversion Hn; subst. constructor; [by apply high_safe|by apply IH].
Qed.
Lemma sanitizeFilename_safe s : Forall safe_byte (sanitizeFilename s).
Proof. by apply sanitize_safe. Qed.
Lemma clean_char_keeps b : safe_byte b -> clean_char b = b.
Proof.
  intros (H1 & H2 & H3). unfold clean_char. rewrite (proj2 (Z.ltb_ge _ _)), (proj2 (Z.eqb_neq _ _)), bool_decide_eq_false_2 by done. done.
Qed.
Lemma sanitizeFilename_keeps s : utf8 s = true -> Forall safe_byte s -> sanitizeFilename s = s.
Proof.
  unfold sanitizeFilename, utf8. generalize 0%nat. induction s as [|b s IH]; intros [|n] Hu Hs; cbn [sanitize utf8_from] in *; [done..| |];
    inversion Hs as [|? ? Hb Hs']; subst; [|by rewrite IH].
  destruct (utf8_len (b :: s)) as [|[|k]]; [done| |]; [rewrite clean_char_keeps by done|]; by rewrite IH.
Qed.
