(* ===== verification/MemGate.v ===== *)
(** * The gateway (src/gateway/memgate_v2/memgate.go)

    The HTTP handlers of the public gateway over a [Backend]: [handleGet] with the formats of a
    block, [handleHead], [handleDirList], [serveMemFSPath] with its search for the file meant,
    [handleResolved], the routes of names ([handleMemNSResolve], [handleMemLinkGet]), the two
    middlewares, and the router as the choice of a [route].
    A [Request] has its parsed parts, a [Writer] is [http.ResponseWriter]; a handler ([H]) reads and
    changes the state of the gateway: the two caches and the download jobs it has started.  The backend
    is a record of its answers at this time, the resolver of names and the engine of edge functions are
    functions.  Pages are values ([piece]) with the arguments of their templates; [http.Redirect]
    keeps its target as it is given.  The server-sent events are not modelled.

    [caches_stay_sound]: whatever is asked, a cache entry is what the backend answers under its key.
    [answers_without_caches]: what is answered does not depend on what is cached.
    [path_served]: a file in a directory is served, whole or the range asked for. *)
From S2P Require Import Prelude Mid GoIO Chunk Wire Blockstore Objects Memstore Dag Db MemNode MemFile FileStores AddFile MemRead Names Descriptor Magnet NameResolver Lru GateRange GateText.

(** ** What the gateway is given *)
(** a reader: what it delivers, and the error after it, if it is not the end *)
Record stream := mkStream { rs_data : bytes; rs_err : option error }.
Record ContentInfo := mkContentInfo {
  ci_MID : bytes; ci_Size : Z; ci_Blocks : Z; ci_ContentType : bytes; ci_Sealed : bool; ci_Name : bytes; ci_MimeType : bytes;
}.
Record MemFSInfo := mkMemFSInfo { fi_MID : bytes; fi_Type : bytes; fi_Size : Z; fi_Mode : Z; fi_MTime : Z; fi_Mime : bytes }.
Record MemFSEntry := mkMemFSEntry { me_Name : bytes; me_MID : bytes; me_Type : bytes; me_Size : Z }.
Record Backend := mkBackend {
  be_Resolve : MID -> result (stream * ContentInfo);
  be_RawBlock : MID -> result bytes;
  be_DAGNodeJSON : MID -> result bytes;
  be_Stat : MID -> result ContentInfo;
  be_Ping : result unit;
  be_MemFSInfo : MID -> result MemFSInfo;
  be_MemFSPathGet : MID -> bytes -> result (stream * Z * bytes);
  be_MemFSList : MID -> result (list MemFSEntry);
  be_MemFSPathInfo : MID -> bytes -> result MemFSInfo;
  be_MemFSPathList : MID -> bytes -> result (list MemFSEntry);
  be_Descriptor : MID -> result bytes;
}.
(** what encoding/json does: cached files, and the view of a DAG node *)
Class GateJSON := {
  cp_marshal : bytes * bytes -> result bytes;
  cp_unmarshal : bytes -> option (bytes * bytes);
  dag_unmarshal : bytes -> option (option Z * list bytes);
}.

(** ** Requests and answers *)
(** [r_Header], [r_Query]: what [Get] returns; [r_Referer]: the path of the Referer, when it parses *)
Record Request := mkRequest {
  r_Method : bytes; r_Host : bytes; r_Path : bytes; r_Header : bytes -> bytes; r_Query : bytes -> bytes;
  r_Referer : option bytes; r_ContentLength : Z; r_Body : stream;
}.
Inductive piece :=
  | Text (b : bytes)
  | ListingJSON (mid : bytes) (size : Z) (entries : list MemFSEntry)
  | ListingPage (title : bytes) (entries : list MemFSEntry)
  | ResolvePage (mid sse : bytes)
  | TreeJSON (root : bytes) (nodes : gmap bytes (option Z * list bytes))
  | WelcomePage.
Record Writer := mkWriter { w_header : gmap bytes bytes; w_sent : option (Z * gmap bytes bytes); w_body : list piece }.
Definition NewWriter : Writer := mkWriter ∅ None [].
Definition Header_Set (k : string) (v : bytes) (w : Writer) : Writer := mkWriter (<[lit k := v]> (w_header w)) (w_sent w) (w_body w).
Definition Header_Del (k : string) (w : Writer) : Writer := mkWriter (delete (lit k) (w_header w)) (w_sent w) (w_body w).
Definition Header_Get (k : string) (w : Writer) : bytes := default [] (w_header w !! lit k).
(** headers are sent with the first status *)
Definition WriteHeader (code : Z) (w : Writer) : Writer :=
  mkWriter (w_header w) (match w_sent w with Some s => Some s | None => Some (code, w_header w) end) (w_body w).
Definition Write (p : piece) (w : Writer) : Writer :=
  let w := WriteHeader 200 w in mkWriter (w_header w) (w_sent w) (w_body w ++ [p]).
(** [http.Error], [http.Redirect] *)
Definition http_Error (msg : bytes) (code : Z) (w : Writer) : Writer :=
  Write (Text (msg ++ [Byte.x0a]))
    (WriteHeader code (Header_Set "X-Content-Type-Options" (lit "nosniff")
      (Header_Set "Content-Type" (lit "text/plain; charset=utf-8") (Header_Del "Content-Length" w)))).
Definition http_Redirect (url : bytes) (code : Z) (w : Writer) : Writer := WriteHeader code (Header_Set "Location" url w).
Definition failure (at_ : string) (e : error) : bytes := lit at_ ++ lit (Error e).
Definition err_has (e : error) (sub : string) : bool := Contains (lit (Error e)) (lit sub).
Definition hdr (r : Request) (k : string) : bytes := r_Header r (lit k).
Definition query (r : Request) (k : string) : bytes := r_Query r (lit k).
Definition is_set (b : bytes) (s : string) : bool := bool_decide (b = lit s).
Definition quote (s : bytes) : bytes := [Byte.x22] ++ s ++ [Byte.x22].
Definition immutable : bytes := lit "public, immutable, max-age=31536000".
Definition bool_text (b : bool) : bytes := if b then lit "true" else lit "false".
Definition or_else (a b : bytes) : bytes := if bool_decide (a = []) then b else a.

(** [io.ReadFull] into a buffer of [size] zero bytes, whose two errors for a short source
    the gateway forgives *)
Definition ReadFull (size : Z) (rc : stream) : result bytes :=
  let n := Z.to_nat size in
  if (n <=? length (rs_data rc))%nat then Ok (take n (rs_data rc)) else
  match rs_err rc with
  | None => Ok (rs_data rc ++ replicate (n - length (rs_data rc)) Byte.x00)
  | Some e => Err e
  end.
(** [io.ReadAll] of at most [n] bytes *)
Definition ReadAllLimit (n : Z) (rc : stream) : result bytes :=
  if n <=? zlen (rs_data rc) then Ok (take (Z.to_nat n) (rs_data rc)) else
  match rs_err rc with None => Ok (rs_data rc) | Some e => Err e end.

(** ** The state, and handlers *)
Record gate := mkGate { gt_caches : gateway; gt_jobs : gset bytes }.
Definition H : Type := gate -> option (Writer * gate).
Definition done (w : Writer) : H := λ g, Some (w, g).
Definition out_of_fuel : H := λ _, None.
Definition cache_get (key : bytes) (k : option bytes -> H) : H := λ g,
  let '(v, c) := sharded_get key (gw_lru (gt_caches g)) in
  k v (mkGate (mkGateway c (gw_blockLists (gt_caches g))) (gt_jobs g)).
Definition cache_put (key data : bytes) (k : H) : H := λ g,
  k (mkGate (mkGateway (sharded_put key data (gw_lru (gt_caches g))) (gw_blockLists (gt_caches g))) (gt_jobs g)).

Record EdgeResponse := mkEdgeResponse {
  er_Status : Z; er_Headers : list (bytes * bytes); er_Body : bytes; er_Tier : bytes; er_Runtime : bytes; er_Duration : bytes;
}.
(** the part of [Config] the handlers read: [maxItem], the resolver of names at this time, and the engine (or
    the service that delegates to others): the answer and the error for code, its file name and a request *)
Record Config := mkConfig {
  cf_maxItem : Z;
  cf_ns : option (bytes -> result bytes);
  cf_edge : option (bytes -> bytes -> Request -> bytes -> bytes -> option EdgeResponse * option error);
  cf_maxBody : Z;
}.

Section gate.
Context `{Multiformats, Protos, Mimes, GateJSON} (cfg : Config) (B : Backend).
(** the fuel of block lists and the size of the buffer of [io.CopyN] *)
Context (walk buf : nat).
Implicit Types w : Writer.
Implicit Types r : Request.

Definition stream_range (w : Writer) (r : Request) (m : MID) (size : Z) (rest : H) : H := λ g,
  let '(resp, c) := handleStreamRange (be_RawBlock B) walk buf (hdr r "Range") m size (gt_caches g) in
  let g := mkGate c (gt_jobs g) in
  match resp with
  | NotHandled => rest g
  | RangeError e => done (http_Error (failure "bad range: " e) 416 w) g
  | ServerError e => done (http_Error (lit (Error e)) 500 w) g
  | Partial start last total len body =>
      done (Write (Text body) (WriteHeader 206
        (Header_Set "Content-Length" (Itoa len)
          (Header_Set "Content-Range" (lit "bytes " ++ Itoa start ++ lit "-" ++ Itoa last ++ lit "/" ++ Itoa total) w)))) g
  end.
(** [GetOrCreateJob], whose results are dropped *)
Definition start_job (root : MID) (k : H) : H := λ g, k (mkGate (gt_caches g) ({[String root]} ∪ gt_jobs g)).

Definition checkETag (w : Writer) (r : Request) (etagValue : bytes) : option Writer :=
  let ifNoneMatch := hdr r "If-None-Match" in
  if bool_decide (ifNoneMatch = []) then None else
  if bool_decide (TrimQuotes (TrimPrefix ifNoneMatch (lit "W/")) = etagValue)
  then Some (WriteHeader 304 (Header_Set "Cache-Control" immutable (Header_Set "ETag" (quote etagValue) w)))
  else None.
(** the end of [writeBytes] *)
Definition send_bytes (w : Writer) (r : Request) (data : bytes) : Writer :=
  let rng := hdr r "Range" in
  if negb (bool_decide (rng = [])) then
    match parseRange rng (zlen data) with
    | Err e => http_Error (failure "bad range: " e) 416 w
    | Ok (start, end_) =>
        Write (Text (take (Z.to_nat (end_ - start)) (drop (Z.to_nat start) data))) (WriteHeader 206
          (Header_Set "Content-Length" (Itoa (end_ - start))
            (Header_Set "Content-Range" (lit "bytes " ++ Itoa start ++ lit "-" ++ Itoa (end_ - 1) ++ lit "/" ++ Itoa (zlen data)) w)))
    end
  else Write (Text data) (WriteHeader 200 (Header_Set "Content-Length" (Itoa (zlen data)) w)).
Definition writeBytes (w : Writer) (r : Request) (midStr data contentType : bytes) : Writer :=
  let w := Header_Set "X-Membuss-Size" (Itoa (zlen data)) (Header_Set "X-Membuss-MID" midStr (Header_Set "Content-Type" contentType w)) in
  let w := if bool_decide (Header_Get "ETag" w = []) then Header_Set "ETag" (quote midStr) w else w in
  let w := Header_Set "Accept-Ranges" (lit "bytes") w in
  let w := if bool_decide (Header_Get "Cache-Control" w = []) then Header_Set "Cache-Control" immutable w else w in
  send_bytes w r data.
Definition setResolvedHeaders (w : Writer) (info : ContentInfo) (ct disp name : bytes) : Writer :=
  let cleanMID := TrimSuffix (ci_MID info) slash in
  let w := Header_Set "X-Membuss-Size" (Itoa (ci_Size info)) (Header_Set "X-Membuss-MID" cleanMID (Header_Set "Content-Type" ct w)) in
  let w := Header_Set "X-Membuss-Sealed" (bool_text (ci_Sealed info)) (Header_Set "X-Membuss-Blocks" (Itoa (ci_Blocks info)) w) in
  let w := Header_Set "X-Membuss-MimeType" (ci_MimeType info) (Header_Set "X-Membuss-Name" (sanitizeFilename (ci_Name info)) w) in
  let w := Header_Set "Cache-Control" immutable (Header_Set "Accept-Ranges" (lit "bytes") (Header_Set "ETag" (quote cleanMID) w)) in
  if bool_decide (Header_Get "Content-Disposition" w = []) then
    let fn := sanitizeFilename name in
    let fn := if bool_decide (fn = []) || is_set fn "download" || is_set fn "." then defaultFilename cleanMID ct else fn in
    let formatted := FormatMediaType disp fn in
    Header_Set "Content-Disposition"
      (if bool_decide (formatted = []) then disp ++ lit "; filename=" ++ quote (sanitizeFilename fn) else formatted) w
  else w.

(** ** Edge functions *)
Definition isEdgeExecution (r : Request) (filename pathStr : bytes) : bool :=
  match cf_edge cfg with
  | None => false
  | Some _ =>
      if is_set (hdr r "X-MemEdge") "run" || is_set (query r "exec") "true" then true else
      let ext := ToLower (Ext filename) in
      if negb (bool_decide (ext ∈ [lit ".js"; lit ".mjs"; lit ".wasm"])) then false else
      let cleanPath := ToLower pathStr in
      if Contains cleanPath (lit "api/") || Contains cleanPath (lit "_edge/") || Contains cleanPath (lit ".edge/") then true else
      bool_decide (r_Method r ∈ [lit "POST"; lit "PUT"; lit "DELETE"; lit "PATCH"])
  end.
Definition allMethods : bytes := lit "GET, POST, PUT, DELETE, PATCH, OPTIONS, HEAD".
(** the path the function sees *)
Definition edge_path (p : bytes) : bytes :=
  let inner p := match split2 Byte.x2f p with Some (_, rest) => slash ++ rest | None => slash end in
  if HasPrefix p (lit "/mem/") then inner (TrimPrefix p (lit "/mem/")) else
  if HasPrefix p (lit "/memns/") then inner (TrimPrefix p (lit "/memns/")) else p.
Definition set_missing (k : string) (v : bytes) (w : Writer) : Writer :=
  if bool_decide (Header_Get k w = []) then Header_Set k v w else w.
Definition write_edge (w : Writer) (resp : EdgeResponse) : Writer :=
  let w := foldl (λ w kv, mkWriter (<[kv.1 := kv.2]> (w_header w)) (w_sent w) (w_body w)) w (er_Headers resp) in
  let w := set_missing "Access-Control-Expose-Headers" (lit "*") (set_missing "Access-Control-Allow-Headers" (lit "*")
    (set_missing "Access-Control-Allow-Methods" allMethods (set_missing "Access-Control-Allow-Origin" (lit "*") w))) in
  let w := Header_Set "X-Membuss-Edge-Tier" (er_Tier resp) (Header_Set "X-Membuss-Edge" (lit "true") w) in
  let w := Header_Set "X-Membuss-Edge-Duration" (er_Duration resp) (Header_Set "X-Membuss-Edge-Runtime" (er_Runtime resp) w) in
  let w := set_missing "Content-Type" (lit "application/json") w in
  Write (Text (er_Body resp)) (WriteHeader (if er_Status resp =? 0 then 200 else er_Status resp) w).
Definition too_large (what : string) (limit : Z) (unit_ : string) : bytes := lit "payload too large: " ++ lit what ++ Itoa limit ++ lit unit_.
Definition executeEdgeFunction (w : Writer) (r : Request) (code filename : bytes) : Writer :=
  if is_set (r_Method r) "OPTIONS" then
    WriteHeader 204 (Header_Set "Access-Control-Max-Age" (lit "86400")
      (Header_Set "Access-Control-Expose-Headers" (lit "*") (Header_Set "Access-Control-Allow-Headers" (lit "*")
      (Header_Set "Access-Control-Allow-Methods" allMethods (Header_Set "Access-Control-Allow-Origin" (lit "*") w))))) else
  let maxBodySize := if 0 <? cf_maxBody cfg then cf_maxBody cfg else 10 * 2 ^ 20 in
  if maxBodySize <? r_ContentLength r then http_Error (too_large "maximum allowed body size is " maxBodySize " bytes") 413 w else
  match ReadAllLimit (maxBodySize + 1) (r_Body r) with
  | Err e => http_Error (failure "failed to read request body: " e) 400 w
  | Ok reqBody =>
      if maxBodySize <? zlen reqBody then http_Error (too_large "body exceeded " maxBodySize " bytes") 413 w else
      match (match cf_edge cfg with Some run => run code filename r reqBody (edge_path (r_Path r)) | None => (None, None) end) with
      | (resp, Some e) =>
          match resp with
          | Some resp => if er_Status resp =? 0 then http_Error (failure "edge execution failed: " e) 500 w else write_edge w resp
          | None => http_Error (failure "edge execution failed: " e) 500 w
          end
      | (None, None) => http_Error (lit "edge execution returned empty response") 500 w
      | (Some resp, None) => write_edge w resp
      end
  end.

(** ** Content that is not here yet *)
Definition resolveSubdomain (r : Request) : option (bytes * bytes) :=
  let host := until Byte.x3a (r_Host r) in
  let labels := split_all Byte.x2e [] host in
  if (length labels <? 2)%nat then None else
  let firstLabel := default [] (head labels) in
  if bool_decide (firstLabel ∈ [lit "localhost"; lit "127"; lit "www"; lit "gateway"]) then None else
  let innerPath := TrimPrefix (r_Path r) slash in
  match Mid.Parse firstLabel with
  | Ok _ => Some (firstLabel, innerPath)
  | Err _ =>
      match cf_ns cfg with
      | None => None
      | Some resolve =>
          match (match resolve host with Ok v => Ok v | Err _ => resolve firstLabel end) with
          | Err _ => None
          | Ok resolved => if bool_decide (resolved = []) then None else Some (TrimPrefix resolved (lit "/mem/"), innerPath)
          end
      end
  end.
(** a browser that asks for content that is not here gets a page that waits for it *)
Definition pending (w : Writer) (r : Request) (root : MID) (midStr : bytes) (k : H) : H :=
  match be_Stat B root with
  | Ok _ => k
  | Err _ =>
      if Contains (hdr r "Accept") (lit "text/html") && is_set (query r "format") "" && negb (is_set (query r "download") "1") then
        let ssePath := if bool_decide (is_Some (resolveSubdomain r)) then lit "/~status" else lit "/mem/" ++ midStr ++ lit "/~status" in
        start_job root (done (Write (ResolvePage midStr ssePath) (WriteHeader 202 (Header_Set "Content-Type" (lit "text/html; charset=utf-8") w))))
      else k
  end.

(** ** Files in a directory tree *)
Definition index_html : bytes := lit "index.html".
Definition has_index (entries : list MemFSEntry) : bool := existsb (λ e, bool_decide (me_Name e = index_html)) entries.
(** the first of the common build directories that has [f], by a test *)
Definition find_common (test : bytes -> bool) (f : bytes) : option bytes := head (filter (λ p, test p = true) (map (λ d, Join d f) commonDirs)).
Definition path_exists (root : MID) (p : bytes) : bool := is_ok (be_MemFSPathInfo B root p).
Definition renderDirectoryList (w : Writer) (r : Request) (title midStr : bytes) (size : Z) (entries : list MemFSEntry) : Writer :=
  if is_set (query r "format") "json"
  then Write (ListingJSON midStr size entries) (Header_Set "Content-Type" (lit "application/json") w)
  else Write (ListingPage title entries) (WriteHeader 200 (Header_Set "Content-Type" (lit "text/html; charset=utf-8") w)).

(** [path.Join] of a directory and a file *)
Definition getRefererDir (r : Request) : bytes :=
  match r_Referer r with
  | None => []
  | Some refPath =>
      let strip p := match split2 Byte.x2f (TrimPrefix refPath p) with Some (_, rest) => rest | None => refPath end in
      let inner :=
        if HasPrefix refPath (lit "/mem/") then strip (lit "/mem/") else
        if HasPrefix refPath (lit "/memns/") then strip (lit "/memns/") else
        if HasPrefix refPath (lit "/memlink/") then strip (lit "/memlink/") else TrimPrefix refPath slash in
      let dir := Dir (TrimPrefix inner (lit "explorer/")) in
      if is_set dir "." || is_set dir "/" then [] else dir
  end.
(** [strings.ReplaceAll(s, "//", "/")] *)
Fixpoint single_slashes (s : bytes) : bytes :=
  match s with
  | Byte.x2f :: Byte.x2f :: s => Byte.x2f :: single_slashes s
  | b :: s => b :: single_slashes s
  | [] => []
  end.
(** the index file that the request means, and its first 8 KiB *)
Definition index_text (root : MID) (innerPath : bytes) : option bytes :=
  let targetFile := or_else innerPath index_html in
  let get p := match be_MemFSPathGet B root p with Ok (rc, _, _) => Some rc | Err _ => None end in
  rc ← (match get targetFile with
        | Some rc => Some rc
        | None => if bool_decide (innerPath = []) then find_common (λ p, bool_decide (is_Some (get p))) index_html ≫= get else None
        end);
  Some (take (Z.to_nat 8192) (rs_data rc)).
Definition checkBaseRedirect (r : Request) (root : MID) (innerPath : bytes) : option bytes :=
  if negb (HasSuffix (or_else innerPath index_html) index_html) then None else
  content ← index_text root innerPath;
  let base := detectFrameworkBase content in
  if bool_decide (base = []) then None else
  let relBase := TrimPrefix base slash in
  let redirectPath := TrimSuffix (r_Path r) index_html in
  let cleanedPath := TrimSuffix redirectPath slash in
  if HasSuffix cleanedPath (slash ++ relBase) || bool_decide (cleanedPath = relBase) || HasSuffix cleanedPath (slash ++ base) then None else
  let redirectPath := match head (filter (λ d, HasSuffix cleanedPath (slash ++ d) = true \/ cleanedPath = d) commonDirs) with
    | Some d => TrimSuffix cleanedPath d
    | None => redirectPath
    end in
  Some (single_slashes (if HasSuffix redirectPath slash then redirectPath ++ relBase ++ slash else redirectPath ++ slash ++ relBase ++ slash)).

(** where a path that is not there may be: without its first segment, next to the page that
    refers to it, or in a build directory *)
Definition base_stripped (innerPath : bytes) : bytes :=
  match split2 Byte.x2f innerPath with
  | Some (_, rest) => or_else rest index_html
  | None => if bool_decide (innerPath = []) then [] else index_html
  end.
Definition heal (r : Request) (root : MID) (innerPath : bytes) (e : error) : bytes * result MemFSInfo :=
  let info p := (p, be_MemFSPathInfo B root p) in
  let baseStrippedPath := base_stripped innerPath in
  if bool_decide (baseStrippedPath = []) then (innerPath, Err e) else
  if path_exists root baseStrippedPath then
    info (if bool_decide (baseStrippedPath = index_html) && negb (bool_decide (is_Some (split2 Byte.x2f innerPath))) then [] else baseStrippedPath)
  else
    let refDir := getRefererDir r in
    let near := Join refDir baseStrippedPath in
    if negb (bool_decide (refDir = [])) && path_exists root near then info near else
    match find_common (path_exists root) baseStrippedPath with
    | Some p => info p
    | None => (innerPath, Err e)
    end.
Definition find_path (r : Request) (root : MID) (innerPath : bytes) : bytes * result MemFSInfo :=
  match be_MemFSPathInfo B root innerPath with
  | Err e => if err_has e "not found" then heal r root innerPath e else (innerPath, Err e)
  | Ok info => (innerPath, Ok info)
  end.

(** the headers of a file *)
Definition path_headers (w : Writer) (midStr p etag ct : bytes) (size : Z) : Writer :=
  let filename := Base p in
  let w := Header_Set "X-Membuss-Path" (slash ++ p) (Header_Set "X-Membuss-MID" midStr (Header_Set "Content-Type" ct w)) in
  let w := Header_Set "X-Membuss-MimeType" ct (Header_Set "X-Membuss-Name" filename w) in
  let w := if bool_decide (Header_Get "Content-Disposition" w = [])
    then Header_Set "Content-Disposition" (FormatMediaType (contentDisposition ct size) (sanitizeFilename filename)) w else w in
  let w := Header_Set "ETag" (quote etag) w in
  Header_Set "Cache-Control"
    (if is_set ct "text/html" || HasSuffix filename (lit ".html") then lit "no-cache, no-store, must-revalidate" else immutable) w.
Definition path_key (midStr p : bytes) : bytes := lit "path:" ++ midStr ++ lit ":" ++ p.
(** a file that is not cached *)
Definition fetch_file (w : Writer) (r : Request) (root : MID) (midStr p : bytes) (info : MemFSInfo) : H :=
  let etag := midStr ++ slash ++ p in
  match be_MemFSPathGet B root p with
  | Err e => done (if err_has e "not found" then http_Error (failure "not found: " e) 404 w else http_Error (failure "memfs: " e) 500 w)
  | Ok (rc, size, mimeType) =>
      if (0 <? size) && (size <=? cf_maxItem cfg) then
        match ReadFull size rc with
        | Err e => done (http_Error (failure "read: " e) 502 w)
        | Ok data =>
            if isEdgeExecution r (Base p) p then done (executeEdgeFunction w r data (Base p)) else
            let ct := DetectContentType p data mimeType in
            let answer := done (writeBytes (path_headers w (fi_MID info) p etag ct size) r (fi_MID info) data ct) in
            match cp_marshal (data, ct) with
            | Ok cpBytes => cache_put (path_key midStr p) cpBytes answer
            | Err _ => answer
            end
        end
      else
        let w := path_headers w (fi_MID info) p etag (DetectContentType p [] mimeType) size in
        let w := if 0 <? size then Header_Set "Content-Length" (Itoa size) w else w in
        let w := Header_Set "Accept-Ranges" (lit "bytes") w in
        let whole := done (Write (Text (rs_data rc)) (WriteHeader 200 w)) in
        match Mid.Parse (fi_MID info) with
        | Ok fileMID => stream_range w r fileMID (i64 size) whole
        | Err _ => whole
        end
  end.
Definition serve_file (w : Writer) (r : Request) (root : MID) (midStr p : bytes) (info : MemFSInfo) : H :=
  let etag := midStr ++ slash ++ p in
  match checkETag w r etag with
  | Some w => done w
  | None =>
      cache_get (path_key midStr p) (λ hit,
        match hit ≫= cp_unmarshal with
        | Some (data, ct) =>
            if isEdgeExecution r (Base p) p then done (executeEdgeFunction w r data (Base p)) else
            done (writeBytes (path_headers w (fi_MID info) p etag ct (fi_Size info)) r (fi_MID info) data ct)
        | None => fetch_file w r root midStr p info
        end)
  end.
(** [self] serves another path of the same root *)
Definition serve_dir (self : bytes -> H) (w : Writer) (r : Request) (root : MID) (midStr p : bytes) (info : MemFSInfo) : H :=
  if negb (HasSuffix (r_Path r) slash) then done (http_Redirect (r_Path r ++ slash) 301 w) else
  match be_MemFSPathList B root p with
  | Err e => done (http_Error (failure "memfs list: " e) 404 w)
  | Ok entries =>
      let listing := done (renderDirectoryList w r (lit "Directory " ++ midStr ++ slash ++ p) (fi_MID info) (fi_Size info) entries) in
      if negb (is_set (query r "format") "") then listing else
      if has_index entries then self (Join p index_html) else
      match (if bool_decide (p = []) then find_common (path_exists root) index_html else None) with
      | Some q => self q
      | None => listing
      end
  end.
(** a function in a single file takes every path below it *)
Definition root_function (w : Writer) (r : Request) (root : MID) : option Writer :=
  if (is_set (query r "exec") "true" || is_set (hdr r "X-MemEdge") "run") && bool_decide (is_Some (cf_edge cfg)) then
    match be_Stat B root with
    | Err _ => None
    | Ok st =>
        if negb (isEdgeExecution r (ci_Name st) (ci_Name st)) then None else
        match be_Resolve B root with
        | Err _ => None
        | Ok (rc, _) => Some (executeEdgeFunction w r (take (Z.to_nat (10 * 2 ^ 20)) (rs_data rc)) (ci_Name st))
        end
    end
  else None.
Definition serve_missing (self : bytes -> H) (w : Writer) (r : Request) (root : MID) (innerPath : bytes) (e : error) : H :=
  match root_function w r root with
  | Some w => done w
  | None =>
      if negb (err_has e "not found") then done (http_Error (failure "memfs: " e) 500 w) else
      let missing := done (http_Error (failure "not found: " e) 404 w) in
      if Contains (hdr r "Accept") (lit "text/html") && negb (bool_decide (innerPath = index_html)) then
        if path_exists root index_html then self index_html else
        match find_common (path_exists root) index_html with
        | Some q => self q
        | None => missing
        end
      else missing
  end.
Definition serve_step (self : bytes -> H) (w : Writer) (r : Request) (midStr innerPath : bytes) : H :=
  match Mid.Parse midStr with
  | Err e => done (http_Error (failure "bad mid: " e) 400 w)
  | Ok root =>
      pending w r root midStr (
      match checkBaseRedirect r root innerPath with
      | Some url => done (http_Redirect url 307 w)
      | None =>
          match find_path r root innerPath with
          | (_, Err e) => serve_missing self w r root innerPath e
          | (p, Ok info) =>
              if is_set (fi_Type info) "dir" then serve_dir self w r root midStr p info
              else serve_file w r root midStr p info
          end
      end)
  end.
Fixpoint serveMemFSPath (fuel : nat) (w : Writer) (r : Request) (midStr innerPath : bytes) : H :=
  match fuel with
  | O => out_of_fuel
  | S fuel => serve_step (serveMemFSPath fuel w r midStr) w r midStr innerPath
  end.

(** ** Resolved content *)
Definition resolved_key (midStr : bytes) : bytes := lit "resolved:" ++ midStr.
Definition inode_directory : bytes := lit "inode/directory".
(** content that is not cached, under the headers of the answer *)
Definition fetch_content (w headers : Writer) (r : Request) (root : MID) (midStr : bytes) (rc : stream) (info : ContentInfo) (name : bytes) : H :=
  if isEdgeExecution r name name then
    match ReadAllLimit (10 * 2 ^ 20) rc with
    | Err e => done (http_Error (failure "read: " e) 502 w)
    | Ok code => done (executeEdgeFunction w r code name)
    end
  else if (0 <? ci_Size info) && (ci_Size info <=? cf_maxItem cfg) && bool_decide (hdr r "Range" = []) then
    let answer := done (Write (Text (rs_data rc)) (WriteHeader 200 (Header_Set "Content-Length" (Itoa (ci_Size info)) headers))) in
    if bool_decide (rs_err rc = None) && (zlen (rs_data rc) =? ci_Size info)
    then cache_put (resolved_key midStr) (rs_data rc) answer else answer
  else
    stream_range headers r root (i64 (ci_Size info))
      (let w := if 0 <? ci_Size info then Header_Set "Content-Length" (Itoa (ci_Size info)) headers else headers in
       done (Write (Text (rs_data rc)) (WriteHeader 200 w))).
(** content that is no directory *)
Definition serve_content (w : Writer) (r : Request) (root : MID) (midStr : bytes) (rc : stream) (info : ContentInfo) : H :=
  let name := or_else (ci_Name info) (defaultFilename midStr (ci_ContentType info)) in
  let ct := chooseContentType (ci_ContentType info) (DetectContentType name [] (ci_MimeType info)) in
  let download := is_set (query r "download") "1" in
  let disp := if download then lit "attachment" else contentDisposition ct (ci_Size info) in
  let name := if download then or_else (query r "filename") name else name in
  let headers := setResolvedHeaders w info ct disp name in
  cache_get (resolved_key midStr) (λ hit,
    match hit with
    | Some data =>
        if isEdgeExecution r name name then done (executeEdgeFunction w r data name) else done (writeBytes headers r midStr data ct)
    | None => fetch_content w headers r root midStr rc info name
    end).
(** [resolved] is [handleResolved] *)
Definition handleDirListForMID (resolved : H) (fuel : nat) (w : Writer) (r : Request) (root : MID) (midStr : bytes) : H :=
  pending w r root midStr (
  match be_MemFSInfo B root with
  | Err _ => resolved
  | Ok info =>
      if negb (is_set (fi_Type info) "dir") then resolved else
      match be_MemFSList B root with
      | Err e => done (http_Error (failure "memfs: " e) 404 w)
      | Ok entries =>
          let listing := done (renderDirectoryList w r (lit "Directory " ++ String root) (String root) (fi_Size info) entries) in
          if negb (is_set (query r "format") "") then listing else
          if has_index entries then serveMemFSPath fuel w r midStr index_html else
          match find_common (path_exists root) index_html with
          | Some q => serveMemFSPath fuel w r midStr q
          | None => listing
          end
      end
  end).
Fixpoint handleResolved (fuel : nat) (w : Writer) (r : Request) (root : MID) (midStr : bytes) : H :=
  match fuel with
  | O => out_of_fuel
  | S fuel =>
      pending w r root midStr (
      match checkETag w r midStr with
      | Some w => done w
      | None =>
          match be_Resolve B root with
          | Err e => done (http_Error (failure "resolve: " e) 404 w)
          | Ok (rc, info) =>
              if bool_decide (ci_MimeType info = inode_directory) || bool_decide (ci_ContentType info = inode_directory) then
                if negb (HasSuffix (r_Path r) slash) then done (http_Redirect (r_Path r ++ slash) 301 w)
                else handleDirListForMID (handleResolved fuel w r root midStr) fuel w r root midStr
              else serve_content w r root midStr rc info
          end
      end)
  end.

(** ** Blocks *)
Definition block_headers (w : Writer) (root : MID) (ct : string) : Writer :=
  Header_Set "Cache-Control" immutable (Header_Set "ETag" (quote (String root))
    (Header_Set "X-Membuss-MID" (String root) (Header_Set "Content-Type" (lit ct) w))).
Definition raw_key (root : MID) : bytes := lit "raw:" ++ String root.
Definition handleRawBlock (w : Writer) (r : Request) (root : MID) : H :=
  match checkETag w r (String root) with
  | Some w => done w
  | None =>
      let answer data := done (Write (Text data) (WriteHeader 200
        (block_headers (Header_Set "Content-Length" (Itoa (zlen data)) w) root "application/octet-stream"))) in
      cache_get (raw_key root) (λ hit,
        match hit with
        | Some data => answer data
        | None =>
            match be_RawBlock B root with
            | Err e => done (http_Error (failure "raw: " e) 404 w)
            | Ok data => cache_put (raw_key root) data (answer data)
            end
        end)
  end.
Definition handleDescriptor (w : Writer) (r : Request) (root : MID) : H :=
  match be_Descriptor B root with
  | Err e => done (http_Error (failure "descriptor: " e) 404 w)
  | Ok data =>
      done (Write (Text data) (WriteHeader 200
        (Header_Set "Cache-Control" immutable (Header_Set "Content-Length" (Itoa (zlen data))
        (Header_Set "Content-Disposition" (lit "attachment; filename=" ++ String root ++ lit ".mbuss")
        (Header_Set "Content-Type" (lit "application/octet-stream") w))))))
  end.
(** [handleDAGTreeJSON]: at most [budget] nodes are still to be visited *)
Definition max_tree : nat := Z.to_nat 10000.
Fixpoint dag_tree (budget : nat) : list MID -> gset bytes -> gmap bytes (option Z * list bytes) -> gmap bytes (option Z * list bytes) :=
  fix drain queue visited nodes :=
    match queue with
    | [] => nodes
    | curr :: queue =>
        match budget with
        | O => nodes
        | S budget =>
            if decide (String curr ∈ visited) then drain queue visited nodes else
            let visited := {[String curr]} ∪ visited in
            match (match be_DAGNodeJSON B curr with Ok body => dag_unmarshal body | Err _ => None end) with
            | None => dag_tree budget queue visited nodes
            | Some (size, links) =>
                let new := filter (λ c, String c ∉ visited) (rights (map Mid.Parse links)) in
                dag_tree budget (queue ++ new) visited (<[String curr := (size, links)]> nodes)
            end
        end
    end.
Definition handleDAGTreeJSON (w : Writer) (r : Request) (root : MID) : H :=
  done (Write (TreeJSON (String root) (dag_tree max_tree [root] ∅ ∅)) (WriteHeader 200
    (Header_Set "X-Membuss-MID" (String root) (Header_Set "Content-Type" (lit "application/json") w)))).
Definition dagjson_key (root : MID) : bytes := lit "dagjson:" ++ String root.
Definition handleDAGJSON (w : Writer) (r : Request) (root : MID) : H :=
  if is_set (query r "recursive") "true" || is_set (query r "format") "dag-tree-json" then handleDAGTreeJSON w r root else
  match checkETag w r (String root) with
  | Some w => done w
  | None =>
      let answer data := done (Write (Text data) (WriteHeader 200 (block_headers w root "application/json"))) in
      cache_get (dagjson_key root) (λ hit,
        match hit with
        | Some data => answer data
        | None =>
            match be_DAGNodeJSON B root with
            | Err e => done (http_Error (failure "dag-json: " e) 404 w)
            | Ok body => cache_put (dagjson_key root) body (answer body)
            end
        end)
  end.

(** ** The routes *)
Definition with_mid (midStr : bytes) (w : Writer) (k : MID -> H) : H :=
  match Mid.Parse midStr with
  | Err e => done (http_Error (failure "bad mid: " e) 400 w)
  | Ok root => k root
  end.
Definition handleHealth (w : Writer) (r : Request) : H :=
  match be_Ping B with
  | Err e => done (http_Error (failure "backend not ready: " e) 503 w)
  | Ok _ => done (WriteHeader 204 w)
  end.
Definition handleHead (w : Writer) (r : Request) (midStr : bytes) : H :=
  with_mid midStr w (λ root,
    match be_Stat B root with
    | Err e => done (http_Error (failure "stat: " e) 404 w)
    | Ok info =>
        let w := Header_Set "X-Membuss-Blocks" (Itoa (ci_Blocks info)) (Header_Set "X-Membuss-Size" (Itoa (ci_Size info)) (Header_Set "X-Membuss-MID" (ci_MID info) w)) in
        let w := Header_Set "ETag" (quote (ci_MID info)) (Header_Set "X-Membuss-Sealed" (bool_text (ci_Sealed info)) w) in
        let w := Header_Set "Content-Length" (Itoa (ci_Size info)) (Header_Set "Accept-Ranges" (lit "bytes") w) in
        let ct := or_else (ci_MimeType info) (ci_ContentType info) in
        let w := if bool_decide (ct = []) then w else Header_Set "Content-Type" ct w in
        done (WriteHeader 200 (Header_Set "Cache-Control" immutable
          (Header_Set "X-Membuss-MimeType" (ci_MimeType info) (Header_Set "X-Membuss-Name" (ci_Name info) w))))
    end).
Definition handleGet (fuel : nat) (w : Writer) (r : Request) (midStr : bytes) : H :=
  with_mid midStr w (λ root,
    let format := query r "format" in
    if is_set format "dag-json" then handleDAGJSON w r root else
    if is_set format "raw" then handleRawBlock w r root else
    if is_set format "descriptor" then handleDescriptor w r root else
    handleResolved fuel w r root midStr).
Definition handleDirList (fuel : nat) (w : Writer) (r : Request) (midStr : bytes) : H :=
  with_mid midStr w (λ root, handleDirListForMID (handleResolved fuel w r root midStr) fuel w r root midStr).
Definition handlePathGet (fuel : nat) (w : Writer) (r : Request) (midStr innerPath : bytes) : H := serveMemFSPath fuel w r midStr innerPath.
(** what a name stands for: a MID and a path below it *)
Definition name_target (resolved : bytes) : bytes * bytes :=
  let midStr := TrimPrefix (if HasPrefix resolved (lit "/mem/") then drop 5 resolved else TrimPrefix resolved (lit "mem/")) slash in
  let '(rootStr, subpath) := match split2 Byte.x2f midStr with Some p => p | None => (midStr, []) end in
  (if negb (HasPrefix rootStr (lit "mem")) && HasPrefix rootStr (lit "b") then lit "mem" ++ rootStr else rootStr, subpath).
Definition trim_slashes (s : bytes) : bytes := reverse (drop_slashes (reverse (drop_slashes s))).
Definition handleMemNSResolve (fuel : nat) (w : Writer) (r : Request) (name innerPath : bytes) : H :=
  match cf_ns cfg with
  | None => done (http_Error (lit "MemNS resolver not configured") 500 w)
  | Some resolve =>
      match resolve (trim_slashes name) with
      | Err e => done (http_Error (failure "memns resolve failed: " e) 404 w)
      | Ok resolved =>
          if HasPrefix resolved (lit "https://") || HasPrefix resolved (lit "/ipfs/") then done (http_Redirect resolved 307 w) else
          let '(rootStr, subpath) := name_target resolved in
          with_mid rootStr w (λ rootMID,
            let targetPath := or_else (TrimPrefix innerPath slash) subpath in
            if bool_decide (targetPath = []) then handleResolved fuel w r rootMID (String rootMID)
            else serveMemFSPath fuel w r (String rootMID) targetPath)
      end
  end.
Definition handleMemLinkGet (fuel : nat) (w : Writer) (r : Request) (domain innerPath : bytes) : H :=
  match cf_ns cfg with
  | None => done (http_Error (lit "MemNS resolver not configured") 500 w)
  | Some resolve =>
      match resolve domain with
      | Err e => done (http_Error (failure "memlink resolve failed: " e) 404 w)
      | Ok resolved => serveMemFSPath fuel w r (TrimPrefix resolved (lit "/mem/")) innerPath
      end
  end.

(** the routes of [buildRouter] that have a handler here; the router finds one by method and pattern *)
Inductive route :=
  | RHealth | RGet (mid : bytes) | RHead (mid : bytes) | RDirList (mid : bytes) | RPath (mid rest : bytes)
  | RMemns (name rest : bytes) | RMemlink (domain rest : bytes) | RRoot.
Definition serve_route (fuel : nat) (explorer : bool) (d : route) (w : Writer) (r : Request) : H :=
  match d with
  | RHealth => handleHealth w r
  | RGet m => handleGet fuel w r m
  | RHead m => handleHead w r m
  | RDirList m => handleDirList fuel w r m
  | RPath m p => handlePathGet fuel w r m p
  | RMemns n p => handleMemNSResolve fuel w r n p
  | RMemlink d p => handleMemLinkGet fuel w r d p
  | RRoot =>
      if explorer then done (http_Redirect (lit "/explorer/") 307 w)
      else done (Write WelcomePage (Header_Set "Content-Type" (lit "text/html; charset=utf-8") w))
  end.
Definition local_host (host : bytes) : bool := bool_decide (host ∈ [lit "localhost"; lit "127.0.0.1"; lit "::1"]).
Definition localOnlyMiddleware (next : H) (w : Writer) (r : Request) : H :=
  if negb (HasPrefix (r_Path r) (lit "/explorer")) then next else
  let host := until Byte.x3a (r_Host r) in
  if local_host host || HasSuffix host (lit ".localhost") then next else
  done (http_Error (lit "explorer not available on public gateway") 404 w).
Definition system_prefixes : list bytes := [lit "/mem/"; lit "/healthz"; lit "/metrics"; lit "/explorer"; lit "/memns/"; lit "/memlink/"].
Definition customDomainMiddleware (next : H) (fuel : nat) (w : Writer) (r : Request) : H :=
  let host := until Byte.x3a (r_Host r) in
  if local_host host then next else
  if existsb (HasPrefix (r_Path r)) system_prefixes then next else
  if bool_decide (is_Some (resolveSubdomain r)) then next else
  match cf_ns cfg with
  | None => done (http_Error (lit "MemNS resolver not configured") 500 w)
  | Some resolve =>
      match resolve host with
      | Err _ =>
          if is_set (r_Path r) "/" then next else
          done (http_Error (lit "No DNSLink or MemLink record found for domain '" ++ host ++ lit "'") 404 w)
      | Ok resolved => serveMemFSPath fuel w r (TrimPrefix resolved (lit "/mem/")) (TrimPrefix (r_Path r) slash)
      end
  end.
(** the texts a request may serve as MIDs: those in its path, or what its name or its host stands for *)
Definition named (name : bytes) : list bytes :=
  match cf_ns cfg with
  | Some resolve => match resolve name with Ok v => [v] | Err _ => [] end
  | None => []
  end.
Definition mids_of (d : route) (r : Request) : list bytes :=
  (match d with
   | RHealth | RRoot => []
   | RGet m | RHead m | RDirList m | RPath m _ => [m]
   | RMemns n _ => map (fst ∘ name_target) (named (trim_slashes n))
   | RMemlink dom _ => map (λ v, TrimPrefix v (lit "/mem/")) (named dom)
   end) ++ map (λ v, TrimPrefix v (lit "/mem/")) (named (until Byte.x3a (r_Host r))).
(** the router, with the middlewares that answer themselves *)
Definition router (fuel : nat) (explorer : bool) (d : route) (w : Writer) (r : Request) : H :=
  localOnlyMiddleware (customDomainMiddleware (serve_route fuel explorer d w r) fuel w r) w r.
End gate.

(** ** What the caches may hold *)
(** no text of a CID goes on with a colon to the text of another *)
Class PathKeys `{Multiformats} : Prop :=
  cid_colon s t x y : cid_Decode s = Ok x -> cid_Decode (s ++ lit ":" ++ t) = Ok y -> False.
(** encoding/json keeps what is text *)
Class GateJSONLaws `{GateJSON} : Prop :=
  cp_roundtrip data ct b : utf8 ct = true -> cp_marshal (data, ct) = Ok b -> cp_unmarshal b = Some (data, ct).
(** a byte slice has an int length *)
Record sized `{GateJSON} (B : Backend) : Prop := {
  sz_raw m d : be_RawBlock B m = Ok d -> zlen d < 2 ^ 63;
  sz_json m d : be_DAGNodeJSON B m = Ok d -> zlen d < 2 ^ 63;
  sz_cp p b : cp_marshal p = Ok b -> zlen b < 2 ^ 63;
}.

Section sound.
Context `{Multiformats} `{!MultiformatsLaws} `{!PathKeys} `{Protos} `{!ProtosLaws} `{Mimes} `{GateJSON} `{!GateJSONLaws}.
Context (cfg : Config) (B : Backend) (Hsz : sized B) (walk buf : nat) (Hbuf : (0 < buf)%nat).

Record resolved_as (root : MID) (v : bytes) : Prop := {
  ra_answer : exists rc info, be_Resolve B root = Ok (rc, info) /\ rs_data rc = v /\ rs_err rc = None /\ zlen v = ci_Size info;
  ra_size : 0 < zlen v <= cf_maxItem cfg;
}.
Inductive path_as (root : MID) (p v : bytes) : Prop :=
  | path_as_intro rc size mime data : be_MemFSPathGet B root p = Ok (rc, size, mime) -> 0 < size <= cf_maxItem cfg ->
      ReadFull size rc = Ok data -> cp_marshal (data, DetectContentType p data mime) = Ok v -> path_as root p v.
Record fact (k v : bytes) : Prop := {
  fa_block m : wf_mid m -> k = blockKey m -> be_RawBlock B m = Ok v;
  fa_raw m : wf_mid m -> k = raw_key m -> be_RawBlock B m = Ok v;
  fa_json m : wf_mid m -> k = dagjson_key m -> be_DAGNodeJSON B m = Ok v;
  fa_resolved s root : Mid.Parse s = Ok root -> k = resolved_key s -> resolved_as root v;
  fa_path s root p : Mid.Parse s = Ok root -> k = path_key s p -> path_as root p v;
}.

Lemma Parse_decodes s m : Mid.Parse s = Ok m -> exists t x, s = Prefix ++ t /\ cid_Decode t = Ok x.
Proof.
  unfold Mid.Parse. destruct (HasPrefix s Prefix) eqn:Ep; [|done]. cbn [negb]. case_bool_decide; [done|].
  destruct (cid_Decode _) as [x|] eqn:Ed; [|done]. intros _. eexists _, x. split; [|exact Ed].
  unfold TrimPrefix. rewrite Ep. unfold HasPrefix in Ep. apply bool_decide_eq_true in Ep. rewrite <-Ep at 1. by rewrite take_drop.
Qed.
Lemma path_key_inj s1 s2 m1 m2 p1 p2 : Mid.Parse s1 = Ok m1 -> Mid.Parse s2 = Ok m2 -> path_key s1 p1 = path_key s2 p2 -> s1 = s2 /\ p1 = p2.
Proof.
  intros (t1 & x1 & -> & E1)%Parse_decodes (t2 & x2 & -> & E2)%Parse_decodes Hk%(inj (app (lit "path:"))).
  rewrite <-!app_assoc in Hk. apply (inj (app Prefix)) in Hk.
  assert (forall t1 t2 x1 x2 p1 p2 k, cid_Decode t1 = Ok x1 -> cid_Decode t2 = Ok x2 -> t1 = t2 ++ k -> lit ":" ++ p2 = k ++ lit ":" ++ p1 -> t1 = t2 /\ p1 = p2) as Hwlog.
  { clear Hk E1 E2. intros t1' t2' y1 y2 q1 q2 [|b k] E1 E2 -> Hk; [rewrite app_nil_r in *; by simplify_eq/=|].
    injection Hk as <- _. exfalso. by eapply (cid_colon t2' k). }
  apply app_eq_inv in Hk as [(k & Ek & E)|(k & Ek & E)].
  - by destruct (Hwlog t1 t2 x1 x2 p1 p2 k) as [-> ->].
  - by destruct (Hwlog t2 t1 x2 x1 p2 p1 k) as [-> ->].
Qed.
Ltac other_key := intros; exfalso; unfold blockKey, raw_key, dagjson_key, resolved_key, path_key in *; match goal with E : lit _ ++ _ = lit _ ++ _ |- _ => discriminate E end.
Lemma fact_block m d : wf_mid m -> be_RawBlock B m = Ok d -> fact (blockKey m) d.
Proof. intros Hm Hd. split; try other_key. intros m' Hm' E. by apply blockKey_inj in E as <-. Qed.
Lemma fact_raw m d : wf_mid m -> be_RawBlock B m = Ok d -> fact (raw_key m) d.
Proof. intros Hm Hd. split; try other_key. intros m' Hm' E%(inj (app (lit "raw:"))). by apply String_inj in E as <-. Qed.
Lemma fact_json m d : wf_mid m -> be_DAGNodeJSON B m = Ok d -> fact (dagjson_key m) d.
Proof. intros Hm Hd. split; try other_key. intros m' Hm' E%(inj (app (lit "dagjson:"))). by apply String_inj in E as <-. Qed.
Lemma fact_resolved s root v : Mid.Parse s = Ok root -> resolved_as root v -> fact (resolved_key s) v.
Proof. intros Hs Hv. split; try other_key. intros s' root' Hs' E%(inj (app (lit "resolved:"))). subst s'. assert (root' = root) as -> by congruence. done. Qed.
Lemma fact_path s root p v : Mid.Parse s = Ok root -> path_as root p v -> fact (path_key s p) v.
Proof. intros Hs Hv. split; try other_key. intros s' root' p' Hs' E. destruct (path_key_inj _ _ _ _ _ _ Hs Hs' E) as [<- <-]. assert (root' = root) as -> by congruence. done. Qed.
Lemma fact_guards : guards (be_RawBlock B) fact.
Proof. split; [apply fact_block|]. intros m d Hm Hf. by apply (fa_block _ _ Hf). Qed.

(** ** Two runs *)
Definition sound (g : gate) : Prop := gateway_ok (be_RawBlock B) fact (gt_caches g).
Record alike (g1 g2 : gate) : Prop := { al_1 : sound g1; al_2 : sound g2; al_jobs : gt_jobs g1 = gt_jobs g2 }.
(** from states that differ in what is cached: both end, in such states, and with one answer as far as [h] says *)
Definition same (h : Prop) (h1 h2 : H) : Prop := forall g1 g2, alike g1 g2 ->
  match h1 g1, h2 g2 with
  | Some (w1, g1'), Some (w2, g2') => (h -> w1 = w2) /\ alike g1' g2'
  | None, None => True
  | _, _ => False
  end.
Lemma same_done h w1 w2 : (h -> w1 = w2) -> same h (done w1) (done w2).
Proof. by intros Hw g1 g2 Hg. Qed.
Lemma same_refl h w : same h (done w) (done w).
Proof. by apply same_done. Qed.
Lemma same_fuel h : same h out_of_fuel out_of_fuel.
Proof. done. Qed.
Lemma alike_sym g1 g2 : alike g1 g2 -> alike g2 g1.
Proof. by intros []; split. Qed.
Lemma same_sym h h1 h2 : same h h1 h2 -> same h h2 h1.
Proof.
  intros Hs g1 g2 Hg%alike_sym. specialize (Hs g2 g1 Hg). destruct (h1 g2) as [[]|], (h2 g1) as [[]|]; try done.
  destruct Hs as [Hw Hs%alike_sym]. split; [|done]. intros Hh. by rewrite Hw.
Qed.
Lemma get_sound key g : sound g -> let '(v, c) := sharded_get key (gw_lru (gt_caches g)) in
  (forall d, v = Some d -> fact key d) /\ sound (mkGate (mkGateway c (gw_blockLists (gt_caches g))) (gt_jobs g)).
Proof.
  intros [Hl Hm Hls]. destruct (get_coherent fact key _ Hl) as [Hc Hv]. destruct (sharded_get key _) as [v c]; cbn [fst snd] in *.
  split; [|by split]. intros d ->. by apply Hv.
Qed.
Lemma same_get h key k1 k2 : (forall v1 v2, (forall d, v1 = Some d -> fact key d) -> (forall d, v2 = Some d -> fact key d) -> same h (k1 v1) (k2 v2)) ->
  same h (cache_get key k1) (cache_get key k2).
Proof.
  intros Hk g1 g2 [H1' H2' Hj]. unfold cache_get. pose proof (get_sound key g1 H1') as Hg1. pose proof (get_sound key g2 H2') as Hg2.
  destruct (sharded_get key (gw_lru (gt_caches g1))) as [v1 c1], (sharded_get key (gw_lru (gt_caches g2))) as [v2 c2].
  destruct Hg1 as [Hv1 Hs1], Hg2 as [Hv2 Hs2]. by apply Hk.
Qed.
Lemma same_put h key d k h2 : fact key d -> zlen d < 2 ^ 63 -> same h k h2 -> same h (cache_put key d k) h2.
Proof.
  intros Hf Hd Hk g1 g2 [[Hl Hm Hls] H2' Hj]. apply Hk. split; [|done|done]. split; cbn; [by apply put_coherent|done|done].
Qed.
Lemma same_puts h key d k1 k2 : fact key d -> zlen d < 2 ^ 63 -> same h k1 k2 -> same h (cache_put key d k1) (cache_put key d k2).
Proof. intros Hf Hd Hk. apply same_put; [done..|]. apply same_sym, same_put; [done..|]. by apply same_sym. Qed.
Lemma same_job h root k1 k2 : same h k1 k2 -> same h (start_job root k1) (start_job root k2).
Proof. intros Hk g1 g2 [H1' H2' Hj]. apply Hk. split; [done|done|]. cbn. by rewrite Hj. Qed.

(** the answer to a range of what [m] spells does not depend on the caches *)
Record ranged (m : MID) (size : Z) (c : bytes) : Prop := {
  rn_spelled : spelled (be_RawBlock B) walk m c;
  rn_size : size = zlen c;
  rn_small : zlen c < 2 ^ 63;
}.
Lemma stream_sent w r m size c k g : wf_mid m -> ranged m size c -> hdr r "Range" ≠ [] -> sound g ->
  exists g', stream_range B walk buf w r m (i64 size) k g = Some (send_bytes w r c, g') /\ sound g' /\ gt_jobs g' = gt_jobs g.
Proof.
  intros Hm [Hsp -> Hlt] Hr Hg. pose proof (zlen_nonneg c). rewrite i64_small by lia. unfold stream_range.
  destruct (stream_at (be_RawBlock B) fact fact_guards walk m c (hdr r "Range") buf (gt_caches g) Hm Hsp Hlt Hr Hbuf Hg) as (c' & Hc' & ->).
  unfold send_bytes. rewrite bool_decide_eq_false_2 by done. cbn [negb].
  destruct (parseRange _ _) as [[s e]|e]; by eexists.
Qed.
Lemma stream_runs w r m size k g : wf_mid m -> hdr r "Range" ≠ [] -> sound g ->
  exists w' g', stream_range B walk buf w r m size k g = Some (w', g') /\ sound g' /\ gt_jobs g' = gt_jobs g.
Proof.
  intros Hm Hr Hg. unfold stream_range.
  pose proof (stream_ok (be_RawBlock B) fact fact_guards (sz_raw B Hsz) walk buf (hdr r "Range") m size (gt_caches g) Hm Hg) as Hs.
  destruct (handleStreamRange _ _ _ _ _ _ _) as [resp c] eqn:E; cbn [snd] in Hs. destruct resp; [|by eexists _, _..].
  exfalso. revert E. unfold handleStreamRange. rewrite bool_decide_eq_false_2 by done.
  destruct (parseRange _ _) as [[s e]|]; [|done]. destruct (cachedBlockList _ _ _ _) as [[l|] g1]; [|done].
  destruct (dr_Seek _ _ _) as [[?|] ?]; [|done]. by destruct (CopyN _ _ _ _ _) as [? []].
Qed.
Lemma same_stream h w r m size k : wf_mid m -> (h -> exists c, ranged m size c) -> same h k k ->
  same h (stream_range B walk buf w r m (i64 size) k) (stream_range B walk buf w r m (i64 size) k).
Proof.
  intros Hm Hh Hk g1 g2 Hg. destruct (decide (hdr r "Range" = [])) as [Hr|Hr].
  { unfold stream_range, handleStreamRange. rewrite bool_decide_eq_true_2 by done. destruct Hg as [H1' H2' Hj]. by apply Hk. }
  destruct Hg as [H1' H2' Hj].
  destruct (stream_runs w r m (i64 size) k g1 Hm Hr H1') as (w1 & g1' & E1 & Hs1 & Hj1), (stream_runs w r m (i64 size) k g2 Hm Hr H2') as (w2 & g2' & E2 & Hs2 & Hj2).
  rewrite E1, E2. split; [|split; [done|done|congruence]]. intros [c Hc]%Hh.
  destruct (stream_sent w r m size c k g1 Hm Hc Hr H1') as (? & E1' & _), (stream_sent w r m size c k g2 Hm Hc Hr H2') as (? & E2' & _). congruence.
Qed.
Lemma same_stream_done h w r m size k w2 : wf_mid m -> hdr r "Range" ≠ [] -> (h -> exists c, ranged m size c /\ w2 = send_bytes w r c) ->
  same h (stream_range B walk buf w r m (i64 size) k) (done w2).
Proof.
  intros Hm Hr Hh g1 g2 [H1' H2' Hj]. destruct (stream_runs w r m (i64 size) k g1 Hm Hr H1') as (w1 & g1' & E1 & Hs & Hj'). rewrite E1. cbn.
  split; [|split; [done|done|congruence]]. intros (c & Hc & ->)%Hh. destruct (stream_sent w r m size c k g1 Hm Hc Hr H1') as (? & E & _). congruence.
Qed.

(** ** The handlers do not depend on the caches *)
(** files under [root] that are what they say they are: of the size given, and of blocks that spell them *)
Definition honest_files (root : MID) : Prop := forall p info rc size mime,
  be_MemFSPathInfo B root p = Ok info -> fi_Type info ≠ lit "dir" -> be_MemFSPathGet B root p = Ok (rc, size, mime) ->
  fi_Size info = size /\ (forall data, ReadFull size rc = Ok data -> utf8 (DetectContentType p data mime) = true) /\
  (forall m, Mid.Parse (fi_MID info) = Ok m -> ranged m size (rs_data rc)).
(** and [root] itself, when it is no directory *)
Record honest (root : MID) : Prop := {
  ho_files : honest_files root;
  ho_content rc info : be_Resolve B root = Ok (rc, info) -> ci_MimeType info ≠ inode_directory -> ci_ContentType info ≠ inode_directory ->
    ranged root (ci_Size info) (rs_data rc) /\ TrimSuffix (ci_MID info) slash = String root;
}.
Lemma Header_lookup k k' v w : w_header (Header_Set k v w) !! lit k' = if bool_decide (lit k = lit k') then Some v else w_header w !! lit k'.
Proof. cbn [Header_Set w_header]. case_bool_decide as E; [rewrite E; apply lookup_insert_eq|by apply lookup_insert_ne]. Qed.
Ltac header_lookup := rewrite ?Header_lookup; repeat match goal with |- context [bool_decide (lit ?a = lit ?b)] =>
  let v := eval vm_compute in (bool_decide (lit a = lit b)) in change (bool_decide (lit a = lit b)) with v end; cbn iota.
Lemma Header_Set_id k v w : w_header w !! lit k = Some v -> Header_Set k v w = w.
Proof. intros E. unfold Header_Set. rewrite insert_id by done. by destruct w. Qed.
Lemma resolved_headers_set w info ct disp name k v :
  (k, v) ∈ [("Content-Type", ct); ("X-Membuss-MID", TrimSuffix (ci_MID info) slash); ("X-Membuss-Size", Itoa (ci_Size info));
    ("ETag", quote (TrimSuffix (ci_MID info) slash)); ("Accept-Ranges", lit "bytes"); ("Cache-Control", immutable)]%string ->
  w_header (setResolvedHeaders w info ct disp name) !! lit k = Some v.
Proof.
  unfold setResolvedHeaders. cbv zeta. intros Hin. rewrite !elem_of_cons, elem_of_nil in Hin. case_bool_decide;
    destruct Hin as [[= -> ->]|[[= -> ->]|[[= -> ->]|[[= -> ->]|[[= -> ->]|[[= -> ->]|[]]]]]]]; by header_lookup.
Qed.
(** the headers of resolved content are those [writeBytes] sets *)
Lemma writeBytes_resolved w r info ct disp name s data : TrimSuffix (ci_MID info) slash = s -> ci_Size info = zlen data ->
  writeBytes (setResolvedHeaders w info ct disp name) r s data ct = send_bytes (setResolvedHeaders w info ct disp name) r data.
Proof.
  intros <- Hz. set (w' := setResolvedHeaders w info ct disp name).
  assert (forall k v, (k, v) ∈ _ -> w_header w' !! lit k = Some v) as Hset by apply (resolved_headers_set w info ct disp name).
  unfold writeBytes. rewrite (Header_Set_id "Content-Type" ct w') by (apply Hset; set_solver).
  rewrite (Header_Set_id "X-Membuss-MID") by (apply Hset; set_solver). rewrite <-Hz.
  rewrite (Header_Set_id "X-Membuss-Size") by (apply Hset; set_solver). unfold Header_Get.
  rewrite (Hset "ETag"%string (quote (TrimSuffix (ci_MID info) slash))) by set_solver.
  rewrite (bool_decide_eq_false_2 (default [] (Some (quote (TrimSuffix (ci_MID info) slash))) = [])) by done.
  rewrite (Header_Set_id "Accept-Ranges") by (apply Hset; set_solver).
  rewrite (Hset "Cache-Control"%string immutable) by set_solver. by rewrite (bool_decide_eq_false_2 (default [] (Some immutable) = [])) by done.
Qed.

(** a file *)
Section file.
Context (h : Prop) (w : Writer) (r : Request) (root : MID) (s p : bytes) (info : MemFSInfo).
Context (Hs : Mid.Parse s = Ok root) (Hi : be_MemFSPathInfo B root p = Ok info) (Hd : fi_Type info ≠ lit "dir") (Hh : h -> honest_files root).
Lemma cached_file v data ct : fact (path_key s p) v -> cp_unmarshal v = Some (data, ct) -> h ->
  exists rc mime, be_MemFSPathGet B root p = Ok (rc, fi_Size info, mime) /\ 0 < fi_Size info <= cf_maxItem cfg /\
    ReadFull (fi_Size info) rc = Ok data /\ ct = DetectContentType p data mime.
Proof.
  intros Hf Hu H'. destruct (fa_path _ _ Hf s root p Hs eq_refl) as [rc size mime data' Hg Hsize Hr Hm].
  destruct (Hh H' p info rc size mime Hi Hd Hg) as (-> & Hct & _).
  rewrite (cp_roundtrip _ _ _ (Hct _ Hr) Hm) in Hu. injection Hu as <- <-. by exists rc, mime.
Qed.
Definition hit_file (data ct : bytes) : H :=
  if isEdgeExecution cfg r (Base p) p then done (executeEdgeFunction cfg w r data (Base p)) else
  done (writeBytes (path_headers w (fi_MID info) p (s ++ slash ++ p) ct (fi_Size info)) r (fi_MID info) data ct).
Lemma same_hits v1 v2 data1 ct1 data2 ct2 : fact (path_key s p) v1 -> cp_unmarshal v1 = Some (data1, ct1) ->
  fact (path_key s p) v2 -> cp_unmarshal v2 = Some (data2, ct2) -> same h (hit_file data1 ct1) (hit_file data2 ct2).
Proof.
  intros Hf1 Hu1 Hf2 Hu2.
  assert (h -> data1 = data2 /\ ct1 = ct2) as He.
  { intros H'. destruct (cached_file v1 _ _ Hf1 Hu1 H') as (rc & mime & E1 & _ & Er & ->).
    destruct (cached_file v2 _ _ Hf2 Hu2 H') as (rc' & mime' & E1' & _ & Er' & ->). rewrite E1 in E1'. injection E1' as <- <-.
    rewrite Er in Er'. by injection Er' as <-. }
  unfold hit_file. destruct (isEdgeExecution _ _ _ _); apply same_done; intros H'; by destruct (He H') as [<- <-].
Qed.
Lemma same_miss_hit v data ct : fact (path_key s p) v -> cp_unmarshal v = Some (data, ct) ->
  same h (fetch_file cfg B walk buf w r root s p info) (hit_file data ct).
Proof.
  intros Hf Hu. destruct (fa_path _ _ Hf s root p Hs eq_refl) as [rc size mime data' Hg Hsize Hr Hm].
  assert (h -> data' = data /\ fi_Size info = size /\ DetectContentType p data' mime = ct) as He.
  { intros H'. destruct (cached_file v _ _ Hf Hu H') as (rc' & mime' & E1 & _ & Er & ->). rewrite Hg in E1. injection E1 as <- -> <-. rewrite Hr in Er. by injection Er as <-. }
  unfold fetch_file, hit_file. rewrite Hg, (proj2 (Z.ltb_lt _ _)), (proj2 (Z.leb_le _ _)) by lia. cbn [andb]. rewrite Hr.
  destruct (isEdgeExecution _ _ _ _); [apply same_done; intros H'; by destruct (He H') as (<- & _)|].
  rewrite Hm. apply same_put; [by eapply fact_path, path_as_intro|by eapply sz_cp|].
  apply same_done. intros H'. by destruct (He H') as (<- & -> & <-).
Qed.
Lemma same_fetch : same h (fetch_file cfg B walk buf w r root s p info) (fetch_file cfg B walk buf w r root s p info).
Proof.
  unfold fetch_file. destruct (be_MemFSPathGet B root p) as [[[rc size] mime]|] eqn:Hg; [|apply same_refl].
  destruct ((0 <? size) && (size <=? cf_maxItem cfg)) eqn:Ez.
  - apply andb_true_iff in Ez as [Ez1%Z.ltb_lt Ez2%Z.leb_le].
    destruct (ReadFull size rc) as [data|] eqn:Er; [|apply same_refl]. destruct (isEdgeExecution _ _ _ _); [apply same_refl|].
    destruct (cp_marshal _) as [v|] eqn:Em; [|apply same_refl].
    apply same_puts; [by eapply fact_path, path_as_intro|by eapply sz_cp|apply same_refl].
  - destruct (Mid.Parse (fi_MID info)) as [m|] eqn:Em; [|apply same_refl]. apply same_stream; [by eapply Parse_wf| |apply same_refl].
    intros H'. exists (rs_data rc). destruct (Hh H' p info rc size mime Hi Hd Hg) as (_ & _ & Hrg). by apply Hrg.
Qed.
Lemma same_serve_file : same h (serve_file cfg B walk buf w r root s p info) (serve_file cfg B walk buf w r root s p info).
Proof.
  unfold serve_file. destruct (checkETag w r _) as [w'|]; [apply same_refl|]. apply same_get. intros v1 v2 Hv1 Hv2.
  destruct (v1 ≫= cp_unmarshal) as [[d1 c1]|] eqn:E1, (v2 ≫= cp_unmarshal) as [[d2 c2]|] eqn:E2; [| | |apply same_fetch].
  - apply bind_Some in E1 as (x1 & -> & E1), E2 as (x2 & -> & E2). apply (same_hits x1 x2); auto.
  - apply bind_Some in E1 as (x1 & -> & E1). apply same_sym, (same_miss_hit x1); auto.
  - apply bind_Some in E2 as (x2 & -> & E2). apply (same_miss_hit x2); auto.
Qed.
End file.

(** paths *)
Lemma find_path_ok r root p q info : find_path B r root p = (q, Ok info) -> be_MemFSPathInfo B root q = Ok info.
Proof.
  unfold find_path. destruct (be_MemFSPathInfo B root p) as [i|e] eqn:Ep; [by intros [= <- <-]|].
  destruct (err_has e _); [|done]. unfold heal. case_bool_decide; [done|].
  destruct (path_exists B root _); [by intros [= <- <-]|]. destruct (_ && _); [by intros [= <- <-]|].
  destruct (find_common _ _); [by intros [= <- <-]|done].
Qed.
Lemma same_pending h w r root s k : same h k k -> same h (pending cfg B w r root s k) (pending cfg B w r root s k).
Proof. intros Hk. unfold pending. destruct (be_Stat B root); [done|]. destruct (_ && _); [apply same_job, same_refl|done]. Qed.
Lemma same_dir h self w r root s p info : (forall q, same h (self q) (self q)) ->
  same h (serve_dir B self w r root s p info) (serve_dir B self w r root s p info).
Proof.
  intros Hself. unfold serve_dir. destruct (negb (HasSuffix _ _)); [apply same_refl|]. destruct (be_MemFSPathList B root p); [|apply same_refl].
  destruct (negb (is_set _ _)); [apply same_refl|]. destruct (has_index _); [apply Hself|]. destruct (if bool_decide _ then _ else _); [apply Hself|apply same_refl].
Qed.
Lemma same_missing h self w r root p e : (forall q, same h (self q) (self q)) ->
  same h (serve_missing cfg B self w r root p e) (serve_missing cfg B self w r root p e).
Proof.
  intros Hself. unfold serve_missing. destruct (root_function _ _ _ _ _); [apply same_refl|]. destruct (negb (err_has _ _)); [apply same_refl|].
  destruct (_ && _); [|apply same_refl]. destruct (path_exists _ _ _); [apply Hself|]. destruct (find_common _ _); [apply Hself|apply same_refl].
Qed.
Lemma same_serve h fuel w r s p : (forall root, Mid.Parse s = Ok root -> h -> honest_files root) ->
  same h (serveMemFSPath cfg B walk buf fuel w r s p) (serveMemFSPath cfg B walk buf fuel w r s p).
Proof.
  intros Hh. revert p. induction fuel as [|fuel IH]; intros p; [apply same_fuel|]. cbn [serveMemFSPath]. unfold serve_step.
  destruct (Mid.Parse s) as [root|] eqn:Hs; [|apply same_refl]. apply same_pending. destruct (checkBaseRedirect _ _ _ _); [apply same_refl|].
  destruct (find_path B r root p) as [q [info|e]] eqn:Ef; [|by apply same_missing]. apply find_path_ok in Ef.
  destruct (is_set (fi_Type info) "dir") eqn:Ed; [by apply same_dir|].
  apply same_serve_file; [done|done| |by apply Hh]. intros E. unfold is_set in Ed. by rewrite E, bool_decide_eq_true_2 in Ed.
Qed.

(** resolved content *)
Section content.
Context (Hedge : cf_maxItem cfg <= 10 * 2 ^ 20).
Context (h : Prop) (w : Writer) (r : Request) (root : MID) (s : bytes) (rc : stream) (info : ContentInfo).
Context (Hs : Mid.Parse s = Ok root) (Hr : be_Resolve B root = Ok (rc, info)).
Context (Hd1 : ci_MimeType info ≠ inode_directory) (Hd2 : ci_ContentType info ≠ inode_directory) (Hh : h -> honest root /\ s = String root).
Lemma cached_content v : fact (resolved_key s) v -> v = rs_data rc /\ rs_err rc = None /\ zlen (rs_data rc) = ci_Size info /\ 0 < ci_Size info <= cf_maxItem cfg.
Proof.
  intros Hf. destruct (fa_resolved _ _ Hf s root Hs eq_refl) as [(rc' & info' & E & <- & He & Hz) Hsize].
  rewrite Hr in E. injection E as <- <-. rewrite Hz in Hsize. done.
Qed.
Lemma same_fetch_content w' headers name : same h (fetch_content cfg B walk buf w' headers r root s rc info name) (fetch_content cfg B walk buf w' headers r root s rc info name).
Proof.
  unfold fetch_content. destruct (isEdgeExecution _ _ _ _); [destruct (ReadAllLimit _ _); apply same_refl|]. destruct (_ && bool_decide _) eqn:Ec.
  - apply andb_true_iff in Ec as [[Ez1%Z.ltb_lt Ez2%Z.leb_le]%andb_true_iff _]. cbv zeta.
    destruct (_ && (zlen _ =? _)) eqn:Ef; [|apply same_refl]. apply andb_true_iff in Ef as [He%bool_decide_eq_true Ez%Z.eqb_eq].
    apply same_puts; [|lia|apply same_refl]. apply (fact_resolved s root); [done|]. split; [by eexists _, _|lia].
  - apply same_stream; [by eapply Parse_wf| |apply same_refl]. intros H'. eexists. apply (ho_content root (proj1 (Hh H'))); done.
Qed.
Lemma same_content_hit headers ct disp name v : headers = setResolvedHeaders w info ct disp name -> fact (resolved_key s) v ->
  same h (fetch_content cfg B walk buf w headers r root s rc info name)
    (if isEdgeExecution cfg r name name then done (executeEdgeFunction cfg w r v name) else done (writeBytes headers r s v ct)).
Proof.
  intros Eh (-> & He & Hz & Hsize)%cached_content. unfold fetch_content. destruct (isEdgeExecution cfg r name name).
  { assert (ReadAllLimit (10 * 2 ^ 20) rc = Ok (rs_data rc)) as ->; [|apply same_refl]. unfold ReadAllLimit. rewrite He.
    destruct (Z.leb_spec (10 * 2 ^ 20) (zlen (rs_data rc))); [|done]. by rewrite firstn_all2 by (unfold zlen in *; lia). }
  rewrite (proj2 (Z.ltb_lt _ _)), (proj2 (Z.leb_le _ _)) by lia. cbn [andb].
  assert (h -> ranged root (ci_Size info) (rs_data rc) /\ writeBytes headers r s (rs_data rc) ct = send_bytes headers r (rs_data rc)) as Hw.
  { intros [Ho E]%Hh. destruct (ho_content root Ho rc info Hr Hd1 Hd2) as [Hrg Et]. split; [done|]. rewrite Eh. apply writeBytes_resolved; [by rewrite E|done]. }
  destruct (bool_decide_reflect (hdr r "Range" = [])) as [E|E].
  - rewrite bool_decide_eq_true_2, (proj2 (Z.eqb_eq _ _)) by done. cbn [andb]. apply same_put; [|lia|].
    { apply (fact_resolved s root); [done|]. split; [by eexists _, _|lia]. }
    apply same_done. intros H'. rewrite (proj2 (Hw H')). unfold send_bytes. rewrite bool_decide_eq_true_2 by done. cbn [negb]. by rewrite Hz.
  - apply same_stream_done; [by eapply Parse_wf|done|]. intros H'. eexists. split; [apply (Hw H')|]. apply (Hw H').
Qed.
Lemma same_serve_content : same h (serve_content cfg B walk buf w r root s rc info) (serve_content cfg B walk buf w r root s rc info).
Proof.
  unfold serve_content. cbv zeta. apply same_get. intros [v1|] [v2|] Hv1 Hv2.
  - destruct (cached_content v1 (Hv1 _ eq_refl)) as (-> & _), (cached_content v2 (Hv2 _ eq_refl)) as (-> & _). destruct (isEdgeExecution _ _ _ _); apply same_refl.
  - eapply same_sym, same_content_hit; [reflexivity|by apply Hv1].
  - eapply same_content_hit; [reflexivity|by apply Hv2].
  - apply same_fetch_content.
Qed.
End content.

Section handlers.
Context (Hedge : cf_maxItem cfg <= 10 * 2 ^ 20) (h : Prop).
(** what the request may serve is honest, and named by its canonical text *)
Definition trusted (ss : list bytes) : Prop := forall s root, s ∈ ss -> Mid.Parse s = Ok root -> s = String root /\ honest root.
Lemma same_dirlist fuel w r root s resolved : (h -> honest root) -> Mid.Parse s = Ok root -> same h resolved resolved ->
  same h (handleDirListForMID cfg B walk buf resolved fuel w r root s) (handleDirListForMID cfg B walk buf resolved fuel w r root s).
Proof.
  intros Hh Hs Hk. unfold handleDirListForMID. apply same_pending. destruct (be_MemFSInfo B root) as [info|]; [|done].
  destruct (negb (is_set (fi_Type info) _)); [done|]. destruct (be_MemFSList B root); [|apply same_refl].
  destruct (negb (is_set _ _)); [apply same_refl|].
  assert (forall q, same h (serveMemFSPath cfg B walk buf fuel w r s q) (serveMemFSPath cfg B walk buf fuel w r s q)) as Hq.
  { intros q. apply same_serve. intros root' E H'. assert (root' = root) as -> by congruence. apply ho_files, Hh, H'. }
  destruct (has_index _); [apply Hq|]. destruct (find_common _ _); [apply Hq|apply same_refl].
Qed.
Lemma same_resolved fuel w r root s : (h -> honest root /\ s = String root) -> Mid.Parse s = Ok root ->
  same h (handleResolved cfg B walk buf fuel w r root s) (handleResolved cfg B walk buf fuel w r root s).
Proof.
  intros Hh Hs. induction fuel as [|fuel IH]; [apply same_fuel|]. cbn [handleResolved]. apply same_pending.
  destruct (checkETag w r s); [apply same_refl|]. destruct (be_Resolve B root) as [[rc info]|] eqn:Er; [|apply same_refl].
  destruct (bool_decide_reflect (ci_MimeType info = inode_directory)), (bool_decide_reflect (ci_ContentType info = inode_directory)); cbn [orb].
  4: by apply same_serve_content.
  all: destruct (negb _); [apply same_refl|]; apply same_dirlist; [intros H'; apply (Hh H')|done|done].
Qed.
Lemma same_cached key k : (forall v, fact key v -> same h (k v) (k v)) -> forall miss, same h miss miss ->
  (forall v, fact key v -> same h miss (k v)) -> (forall v1 v2, fact key v1 -> fact key v2 -> v1 = v2) ->
  same h (cache_get key (λ hit, match hit with Some v => k v | None => miss end)) (cache_get key (λ hit, match hit with Some v => k v | None => miss end)).
Proof.
  intros Hk miss Hm Hmk Hone. apply same_get. intros [v1|] [v2|] Hv1 Hv2.
  - rewrite (Hone v1 v2) by auto. by apply Hk, Hv2.
  - by apply same_sym, Hmk, Hv1.
  - by apply Hmk, Hv2.
  - done.
Qed.
Lemma same_raw w r root : wf_mid root -> same h (handleRawBlock B w r root) (handleRawBlock B w r root).
Proof.
  intros Hw. unfold handleRawBlock. destruct (checkETag _ _ _); [apply same_refl|]. apply same_cached.
  - intros v _. apply same_refl.
  - destruct (be_RawBlock B root) as [v|] eqn:E; [|apply same_refl]. apply same_puts; [by apply fact_raw|by eapply sz_raw|apply same_refl].
  - intros v Hf. rewrite (fa_raw _ _ Hf root Hw eq_refl). apply same_put; [done| |apply same_refl].
    eapply sz_raw; [done|]. by apply (fa_raw _ _ Hf root Hw).
  - intros v1 v2 H1' H2'. pose proof (fa_raw _ _ H1' root Hw eq_refl). pose proof (fa_raw _ _ H2' root Hw eq_refl). congruence.
Qed.
Lemma same_dagjson w r root : wf_mid root -> same h (handleDAGJSON B w r root) (handleDAGJSON B w r root).
Proof.
  intros Hw. unfold handleDAGJSON. destruct (_ || _); [apply same_refl|]. destruct (checkETag _ _ _); [apply same_refl|]. apply same_cached.
  - intros v _. apply same_refl.
  - destruct (be_DAGNodeJSON B root) as [v|] eqn:E; [|apply same_refl]. apply same_puts; [by apply fact_json|by eapply sz_json|apply same_refl].
  - intros v Hf. rewrite (fa_json _ _ Hf root Hw eq_refl). apply same_put; [done| |apply same_refl].
    eapply sz_json; [done|]. by apply (fa_json _ _ Hf root Hw).
  - intros v1 v2 H1' H2'. pose proof (fa_json _ _ H1' root Hw eq_refl). pose proof (fa_json _ _ H2' root Hw eq_refl). congruence.
Qed.
Lemma same_mid s w k : (forall root, Mid.Parse s = Ok root -> same h (k root) (k root)) -> same h (with_mid s w k) (with_mid s w k).
Proof. intros Hk. unfold with_mid. destruct (Mid.Parse s) as [root|]; [by apply Hk|apply same_refl]. Qed.
Lemma named_in name resolve v : cf_ns cfg = Some resolve -> resolve name = Ok v -> v ∈ named cfg name.
Proof. intros E1 E2. unfold named. rewrite E1, E2. by apply list_elem_of_singleton. Qed.
Lemma same_route fuel explorer d w r : (h -> trusted (mids_of cfg d r)) ->
  same h (serve_route cfg B walk buf fuel explorer d w r) (serve_route cfg B walk buf fuel explorer d w r).
Proof.
  intros Hh. assert (forall s root, s ∈ mids_of cfg d r -> Mid.Parse s = Ok root -> h -> honest root /\ s = String root) as Hin.
  { intros s root Hs Hp H'. by destruct (Hh H' s root Hs Hp). }
  unfold mids_of in Hin. destruct d as [|m|m|m|m p|n p|dom p|]; cbn [serve_route].
  - unfold handleHealth. destruct (be_Ping B); apply same_refl.
  - unfold handleGet. apply same_mid. intros root Hp. cbv zeta. destruct (is_set _ _); [apply same_dagjson; by eapply Parse_wf|].
    destruct (is_set _ _); [apply same_raw; by eapply Parse_wf|]. destruct (is_set _ _).
    + unfold handleDescriptor. destruct (be_Descriptor B root); apply same_refl.
    + apply same_resolved; [apply Hin; [set_solver|done]|done].
  - apply same_mid. intros root Hp. destruct (be_Stat B root); apply same_refl.
  - apply same_mid. intros root Hp. apply same_dirlist; [intros H'; apply (Hin m root); [set_solver|done..]|done|].
    apply same_resolved; [apply Hin; [set_solver|done]|done].
  - apply same_serve. intros root Hp H'. apply ho_files, (Hin m root); [set_solver|done..].
  - unfold handleMemNSResolve. destruct (cf_ns cfg) as [resolve|] eqn:En; [|apply same_refl]. destruct (resolve _) as [v|] eqn:Ev; [|apply same_refl].
    destruct (_ || _); [apply same_refl|]. pose proof (named_in _ _ _ En Ev) as Hv. destruct (name_target v) as [s sub] eqn:Et.
    apply same_mid. intros root Hp. assert (Mid.Parse (String root) = Ok root) as Hp' by (apply Parse_wf_String; by eapply Parse_wf).
    assert (h -> honest root) as Ho.
    { intros H'. apply (Hin s root); [|done|done]. apply elem_of_app. left. apply list_elem_of_fmap. exists v. cbn. by rewrite Et. }
    case_bool_decide; [apply same_resolved; [by intros H'; split; [apply Ho|]|done]|].
    apply same_serve. intros root' E H'. assert (root' = root) as -> by congruence. apply ho_files, Ho, H'.
  - unfold handleMemLinkGet. destruct (cf_ns cfg) as [resolve|] eqn:En; [|apply same_refl]. destruct (resolve dom) as [v|] eqn:Ev; [|apply same_refl].
    pose proof (named_in _ _ _ En Ev) as Hv. apply same_serve. intros root Hp H'. apply ho_files, (Hin (TrimPrefix v (lit "/mem/")) root); [|done|done].
    apply elem_of_app. left. apply list_elem_of_fmap. by exists v.
  - destruct explorer; apply same_refl.
Qed.
Lemma same_router fuel explorer d w r : (h -> trusted (mids_of cfg d r)) ->
  same h (router cfg B walk buf fuel explorer d w r) (router cfg B walk buf fuel explorer d w r).
Proof.
  intros Hh. pose proof (same_route fuel explorer d w r Hh) as Hnext. unfold router.
  assert (same h (customDomainMiddleware cfg B walk buf (serve_route cfg B walk buf fuel explorer d w r) fuel w r)
                 (customDomainMiddleware cfg B walk buf (serve_route cfg B walk buf fuel explorer d w r) fuel w r)) as Hnext2.
  { unfold customDomainMiddleware. cbv zeta. destruct (local_host _); [done|]. destruct (existsb (HasPrefix _) _); [done|].
    destruct (bool_decide (is_Some (resolveSubdomain cfg r))); [done|].
    destruct (cf_ns cfg) as [resolve|] eqn:En; [|apply same_refl]. destruct (resolve _) as [v|] eqn:Ev; [|by destruct (is_set _ _); [|apply same_refl]].
    pose proof (named_in _ _ _ En Ev) as Hv. apply same_serve. intros root Hp H'.
    apply ho_files, (Hh H' (TrimPrefix v (lit "/mem/")) root); [|done]. apply elem_of_app. right. apply list_elem_of_fmap. by exists v. }
  unfold localOnlyMiddleware. destruct (negb _); [done|]. cbv zeta. destruct (_ || _); [done|apply same_refl].
Qed.
End handlers.

(** ** A file is served *)
Definition slice (s e : Z) (c : bytes) : bytes := take (Z.to_nat (e - s)) (drop (Z.to_nat s) c).
(** the answer that is the content [c] of type [ct], or what of it the request asks for *)
Definition serves (r : Request) (c ct : bytes) (w : Writer) : Prop := exists hs,
  if bool_decide (hdr r "Range" = []) then
    w_sent w = Some (200, hs) /\ w_body w = [Text c] /\ hs !! lit "Content-Type" = Some ct /\
    (c ≠ [] -> hs !! lit "Content-Length" = Some (Itoa (zlen c)))
  else match parseRange (hdr r "Range") (zlen c) with
  | Ok (s, e) => w_sent w = Some (206, hs) /\ w_body w = [Text (slice s e c)] /\ hs !! lit "Content-Type" = Some ct /\
      hs !! lit "Content-Length" = Some (Itoa (e - s)) /\
      hs !! lit "Content-Range" = Some (lit "bytes " ++ Itoa s ++ lit "-" ++ Itoa (e - 1) ++ lit "/" ++ Itoa (zlen c))
  | Err e => w_sent w = Some (416, hs) /\ w_body w = [Text (failure "bad range: " e ++ [Byte.x0a])]
  end.
Record unsent (ct : bytes) (w : Writer) : Prop := {
  un_sent : w_sent w = None; un_body : w_body w = []; un_type : w_header w !! lit "Content-Type" = Some ct;
}.
Lemma unsent_set ct k v w : lit k ≠ lit "Content-Type" -> unsent ct w -> unsent ct (Header_Set k v w).
Proof. intros Hk [Hs Hb Ht]. split; [done|done|]. rewrite Header_lookup. by rewrite bool_decide_eq_false_2. Qed.
Lemma unsent_if ct (b : bool) w1 w2 : unsent ct w1 -> unsent ct w2 -> unsent ct (if b then w1 else w2).
Proof. by destruct b. Qed.
Ltac unsent := repeat first [eassumption | apply unsent_if | apply unsent_set; [done|]].
Lemma sent_whole r c ct w : hdr r "Range" = [] -> unsent ct w -> (c ≠ [] -> w_header w !! lit "Content-Length" = Some (Itoa (zlen c))) ->
  serves r c ct (Write (Text c) (WriteHeader 200 w)).
Proof. intros Hr [Hs Hb Ht] Hl. exists (w_header w). rewrite bool_decide_eq_true_2 by done. cbn. by rewrite Hs, Hb. Qed.
Lemma send_bytes_serves r c ct w : unsent ct w -> serves r c ct (send_bytes w r c).
Proof.
  intros Hu. unfold send_bytes. destruct (bool_decide_reflect (hdr r "Range" = [])) as [Hr|Hr]; cbn [negb].
  { apply sent_whole; [done|unsent|]. intros _. by header_lookup. }
  assert (bool_decide (hdr r "Range" = []) = false) as Hf by by apply bool_decide_eq_false_2. unfold serves. rewrite Hf.
  destruct (parseRange _ _) as [[s e]|e].
  - set (w' := Header_Set "Content-Length" _ _). assert (unsent ct w') as [Hs Hb Ht] by (unfold w'; unsent).
    exists (w_header w'). cbn [Write WriteHeader w_sent w_body w_header]. rewrite Hs, Hb. split_and!; [done|done|done| |]; unfold w'; by header_lookup.
  - destruct Hu as [Hs Hb Ht]. eexists. cbn. by rewrite Hs, Hb.
Qed.
Lemma path_headers_unsent m p etag ct size : unsent ct (path_headers NewWriter m p etag ct size).
Proof.
  unfold path_headers. cbv zeta. assert (unsent ct (Header_Set "Content-Type" ct NewWriter)) by (split; [done|done|by header_lookup]).
  apply unsent_set; [done|]. apply unsent_set; [done|]. apply unsent_if; unsent.
Qed.
Lemma writeBytes_unsent r m c ct w : unsent ct w -> exists w', writeBytes w r m c ct = send_bytes w' r c /\ unsent ct w'.
Proof.
  intros Hu. eexists. split; [reflexivity|]. apply unsent_if; unsent. all: destruct Hu as [Hs Hb Ht]; split; [done|done|by header_lookup].
Qed.
Lemma ReadFull_all rc : rs_err rc = None -> ReadFull (zlen (rs_data rc)) rc = Ok (rs_data rc).
Proof. intros He. unfold ReadFull. rewrite (proj2 (Nat.leb_le _ _)) by (unfold zlen; lia). by rewrite firstn_all2 by (unfold zlen; lia). Qed.

Lemma zlen_pos (c : bytes) : c ≠ [] -> 0 < zlen c.
Proof. destruct c; [done|unfold zlen; cbn [length]; lia]. Qed.
Lemma serve_file_at r root s p info rc mime g : Mid.Parse s = Ok root -> honest_files root -> be_MemFSPathInfo B root p = Ok info -> fi_Type info ≠ lit "dir" ->
  be_MemFSPathGet B root p = Ok (rc, zlen (rs_data rc), mime) -> rs_err rc = None -> is_ok (Mid.Parse (fi_MID info)) = true -> zlen (rs_data rc) < 2 ^ 63 ->
  isEdgeExecution cfg r (Base p) p = false -> hdr r "If-None-Match" = [] -> sound g ->
  exists w g', serve_file cfg B walk buf NewWriter r root s p info g = Some (w, g') /\ sound g' /\
    serves r (rs_data rc) (DetectContentType p (if zlen (rs_data rc) <=? cf_maxItem cfg then rs_data rc else []) mime) w.
Proof.
  intros Hs Ho Hi Hd Hg He Hm Hlt Hedge Hn Hgt. set (c := rs_data rc) in *. set (ct := DetectContentType p _ mime).
  unfold serve_file, checkETag. rewrite (bool_decide_eq_true_2 _ Hn). unfold cache_get. pose proof (get_sound (path_key s p) g Hgt) as Hget.
  destruct (sharded_get _ _) as [hit cache]. destruct Hget as [Hhit Hg']. set (g' := mkGate _ _) in *.
  assert (fi_Size info = zlen c) as Hz by by destruct (Ho p info rc _ mime Hi Hd Hg) as (-> & _).
  destruct (hit ≫= cp_unmarshal) as [[data ct']|] eqn:Eh.
  { apply bind_Some in Eh as (v & -> & Eu). destruct (cached_file True root s p info Hs Hi Hd (λ _, Ho) v _ _ (Hhit v eq_refl) Eu I) as (rc' & mime' & Eg & Hsz' & Er & ->).
    rewrite Hg in Eg. injection Eg as <- _ <-. rewrite Hz in Er, Hsz'. unfold c in Er. rewrite ReadFull_all in Er by done. injection Er as <-.
    rewrite Hedge. destruct (writeBytes_unsent r (fi_MID info) c ct _ (path_headers_unsent (fi_MID info) p (s ++ slash ++ p) ct (fi_Size info))) as (w' & E & Hu).
    assert (ct = DetectContentType p c mime) as Hct by (unfold ct; by rewrite (proj2 (Z.leb_le _ _)) by lia). fold c. rewrite <-Hct, E.
    eexists _, _. split; [reflexivity|]. split; [done|]. by apply send_bytes_serves. }
  unfold fetch_file. rewrite Hg. destruct ((0 <? zlen c) && (zlen c <=? cf_maxItem cfg)) eqn:Ez.
  - apply andb_true_iff in Ez as [Ez1%Z.ltb_lt Ez2]. unfold c. rewrite ReadFull_all, Hedge by done. fold c.
    assert (ct = DetectContentType p c mime) as <- by (unfold ct; by rewrite Ez2).
    destruct (writeBytes_unsent r (fi_MID info) c ct _ (path_headers_unsent (fi_MID info) p (s ++ slash ++ p) ct (zlen c))) as (w' & E & Hu).
    rewrite E. destruct (cp_marshal (c, ct)) as [v|] eqn:Em; eexists _, _; (split; [reflexivity|]; split; [|by apply send_bytes_serves]); [|done].
    destruct Hg' as [Hl Hmx Hls]. split; cbn; [|done|done]. apply put_coherent; [|by eapply sz_cp|done]. eapply fact_path; [done|].
    eapply path_as_intro; [done|apply Z.leb_le in Ez2; lia|by apply ReadFull_all|]. apply Z.leb_le in Ez2. unfold ct in Em. by rewrite (proj2 (Z.leb_le _ _)) in Em by lia.
  - assert (DetectContentType p [] mime = ct) as ->.
    { unfold ct. destruct (Z.leb_spec (zlen c) (cf_maxItem cfg)); [|done]. rewrite andb_true_r in Ez. apply Z.ltb_ge in Ez. destruct (decide (c = [])) as [->|Hne]; [done|]. apply zlen_pos in Hne. lia. }
    set (w0 := Header_Set "Accept-Ranges" _ _).
    pose proof (path_headers_unsent (fi_MID info) p (s ++ slash ++ p) ct (zlen c)) as Hph. assert (unsent ct w0) as Hu by (unfold w0; unsent).
    destruct (Mid.Parse (fi_MID info)) as [m|] eqn:Ep; [|done].
    destruct (Ho p info rc _ mime Hi Hd Hg) as (_ & _ & Hrg). specialize (Hrg m Ep).
    destruct (decide (hdr r "Range" = [])) as [Hr|Hr].
    + unfold stream_range, handleStreamRange. rewrite bool_decide_eq_true_2 by done. cbv beta iota zeta.
      eexists _, _. split; [reflexivity|]. split; [exact Hg'|]. apply sent_whole; [done|done|]. intros Hne. unfold w0. header_lookup.
      rewrite (proj2 (Z.ltb_lt 0 (zlen c))) by by apply zlen_pos. by header_lookup.
    + destruct (stream_sent w0 r m (zlen c) c (done (Write (Text c) (WriteHeader 200 w0))) g' (Parse_wf _ _ Ep) Hrg Hr Hg') as (g2 & E & Hs2 & _).
      eexists _, g2. split; [exact E|]. split; [done|]. by apply send_bytes_serves.
Qed.
Lemma not_pending w r root s k : is_ok (be_Stat B root) = true \/ Contains (hdr r "Accept") (lit "text/html") = false -> pending cfg B w r root s k = k.
Proof. intros Hst. unfold pending. destruct (be_Stat B root); [done|]. by destruct Hst as [?| ->]. Qed.
(** a request for an honest file below a root that is here, or that no browser asks for, is answered with its content, its type and its
    length, or with the range asked for, or with an error when the range is none of the content;
    whatever the caches hold. *)
Theorem path_served fuel r root s p info rc size mime g : Mid.Parse s = Ok root -> honest_files root ->
  is_ok (be_Stat B root) = true \/ Contains (hdr r "Accept") (lit "text/html") = false ->
  HasSuffix (or_else p index_html) index_html = false ->
  be_MemFSPathInfo B root p = Ok info -> fi_Type info ≠ lit "dir" -> is_ok (Mid.Parse (fi_MID info)) = true ->
  be_MemFSPathGet B root p = Ok (rc, size, mime) -> rs_err rc = None ->
  isEdgeExecution cfg r (Base p) p = false -> hdr r "If-None-Match" = [] -> sound g ->
  exists w g', serveMemFSPath cfg B walk buf (S fuel) NewWriter r s p g = Some (w, g') /\ sound g' /\
    serves r (rs_data rc) (DetectContentType p (if size <=? cf_maxItem cfg then rs_data rc else []) mime) w.
Proof.
  intros Hs Ho Hst Hix Hi Hd Hm Hg He Hedge Hn Hgt. cbn [serveMemFSPath]. unfold serve_step. rewrite Hs, not_pending by done.
  unfold checkBaseRedirect, find_path. rewrite Hix, Hi. cbn [negb].
  destruct (is_set (fi_Type info) "dir") eqn:Ed; [exfalso; by apply Hd, (bool_decide_eq_true_1 _ Ed)|].
  destruct (Mid.Parse (fi_MID info)) as [m|] eqn:Ep; [|done]. destruct (Ho p info rc size mime Hi Hd Hg) as (_ & _ & Hrg).
  destruct (Hrg m Ep) as [_ -> Hlt]. apply serve_file_at; try done. by rewrite Ep.
Qed.
(** whatever is asked of the gateway, in any state of its caches, an entry that a cache holds afterwards
    is what the backend answers under its key; no backend content is excluded. *)
Theorem caches_stay_sound (Hedge : cf_maxItem cfg <= 10 * 2 ^ 20) fuel explorer d w r g w' g' : sound g ->
  router cfg B walk buf fuel explorer d w r g = Some (w', g') -> sound g'.
Proof.
  intros Hg E. pose proof (same_router Hedge False fuel explorer d w r ltac:(done) g g ltac:(by split)) as Hs.
  rewrite E in Hs. apply Hs.
Qed.
(** C40: what the gateway answers does not depend on its caches: from any two states whose entries are true, the same
    request for honest content, named by its canonical text, gets the same answer, and starts the same downloads, as long as
    cached items have at most the 10 MiB that are read of an edge function.  Content is honest when its files have the size they
    state and types in UTF-8, and the blocks they list spell their bytes. *)
Theorem answers_without_caches (Hedge : cf_maxItem cfg <= 10 * 2 ^ 20) fuel explorer d w r g1 g2 : trusted (mids_of cfg d r) ->
  sound g1 -> sound g2 -> gt_jobs g1 = gt_jobs g2 ->
  (λ a, (a.1, gt_jobs a.2)) <$> router cfg B walk buf fuel explorer d w r g1 =
  (λ a, (a.1, gt_jobs a.2)) <$> router cfg B walk buf fuel explorer d w r g2.
Proof.
  intros Ht H1' H2' Hj. pose proof (same_router Hedge True fuel explorer d w r (λ _, Ht) g1 g2 ltac:(by split)) as Hs.
  destruct (router _ _ _ _ _ _ _ _ _ g1) as [[w1 g1']|], (router _ _ _ _ _ _ _ _ _ g2) as [[w2 g2']|]; try done.
  destruct Hs as [Hw [_ _ Hj']]. cbn. by rewrite Hw, Hj'.
Qed.
End sound.

(** ** Requests end *)
Section finishes.
Context `{Multiformats, Protos, Mimes, GateJSON} (cfg : Config) (B : Backend) (walk buf : nat).
Definition is_dir (root : MID) (p : bytes) : bool := match be_MemFSPathInfo B root p with Ok info => is_set (fi_Type info) "dir" | Err _ => false end.
Definition deeper (p : bytes) : bytes := Join p index_html.
(** directories under [root]: an index they list is there, index files that are directories are nested
    to at most [depth], and content is a directory by its type only when it is one *)
Record tidy (depth : nat) (root : MID) : Prop := {
  ty_index p entries : be_MemFSPathList B root p = Ok entries -> has_index entries = true -> path_exists B root (deeper p) = true;
  ty_depth p : path_exists B root p = true -> exists n, (n ≤ depth)%nat /\ is_dir root (Nat.iter n deeper p) = false;
  ty_kind rc info : be_Resolve B root = Ok (rc, info) -> ci_MimeType info = inode_directory \/ ci_ContentType info = inode_directory ->
    exists fi, be_MemFSInfo B root = Ok fi /\ fi_Type fi = lit "dir";
}.
Definition finishes (a : H) : Prop := forall g, is_Some (a g).
Lemma fin_done w : finishes (done w).
Proof. by intros g. Qed.
Lemma fin_get key k : (forall v, finishes (k v)) -> finishes (cache_get key k).
Proof. intros Hk g. unfold cache_get. destruct (sharded_get _ _). apply Hk. Qed.
Lemma fin_put key d k : finishes k -> finishes (cache_put key d k).
Proof. intros Hk g. apply Hk. Qed.
Lemma fin_job root k : finishes k -> finishes (start_job root k).
Proof. intros Hk g. apply Hk. Qed.
Lemma fin_stream w r m size k : finishes k -> finishes (stream_range B walk buf w r m size k).
Proof. intros Hk g. unfold stream_range. destruct (handleStreamRange _ _ _ _ _ _ _) as [[] ?]; try by eexists. apply Hk. Qed.
Create HintDb finishes.
#[local] Hint Resolve fin_done fin_get fin_put fin_job fin_stream : finishes.
Lemma fin_pending w r root s k : finishes k -> finishes (pending cfg B w r root s k).
Proof. intros Hk. unfold pending. destruct (be_Stat _ _); [done|]. destruct (_ && _); auto with finishes. Qed.
Lemma fin_fetch_file w r root s p info : finishes (fetch_file cfg B walk buf w r root s p info).
Proof.
  unfold fetch_file. destruct (be_MemFSPathGet _ _ _) as [[[rc size] mime]|]; [|auto with finishes]. destruct (_ && _).
  - destruct (ReadFull _ _); [|auto with finishes]. destruct (isEdgeExecution _ _ _ _); [auto with finishes|]. destruct (cp_marshal _); auto with finishes.
  - destruct (Mid.Parse _); auto with finishes.
Qed.
Lemma fin_serve_file w r root s p info : finishes (serve_file cfg B walk buf w r root s p info).
Proof.
  unfold serve_file. destruct (checkETag _ _ _); [auto with finishes|]. apply fin_get. intros v. destruct (v ≫= _) as [[]|].
  - destruct (isEdgeExecution _ _ _ _); auto with finishes.
  - apply fin_fetch_file.
Qed.
Lemma fin_content w r root s rc info : finishes (serve_content cfg B walk buf w r root s rc info).
Proof.
  unfold serve_content. apply fin_get. intros [v|]; [destruct (isEdgeExecution _ _ _ _); auto with finishes|].
  unfold fetch_content. destruct (isEdgeExecution _ _ _ _); [destruct (ReadAllLimit _ _); auto with finishes|].
  destruct (_ && _); [|auto with finishes]. cbv zeta. destruct (_ && _); auto with finishes.
Qed.
Lemma Join_index_ne p : deeper p ≠ [].
Proof.
  assert (forall p, Clean p ≠ []) as Hc.
  { intros q. unfold Clean. case_bool_decide; [done|]. case_bool_decide; [done|]. by case_bool_decide. }
  unfold deeper, Join. case_bool_decide; [case_bool_decide; [done|apply Hc]|]. case_bool_decide; apply Hc.
Qed.
Lemma find_common_index test q : find_common test index_html = Some q -> test q = true /\ q ≠ [].
Proof.
  unfold find_common. intros E. assert (q ∈ filter (λ p, test p = true) (map (λ d, Join d index_html) commonDirs)) as Hq.
  { destruct (filter _ _); [done|]. injection E as <-. set_solver. }
  apply list_elem_of_filter in Hq as [? (d & -> & _)%list_elem_of_fmap]. split; [done|]. apply Join_index_ne.
Qed.

Section tidy.
Context (depth : nat) (root : MID) (Ht : tidy depth root) (w : Writer) (r : Request) (s : bytes) (Hs : Mid.Parse s = Ok root).
(** a directory or a missing path is answered, or goes on with an index file that is there *)
Lemma fin_dir self p info : (has_index (match be_MemFSPathList B root p with Ok es => es | Err _ => [] end) = true -> path_exists B root (deeper p) = true -> finishes (self (deeper p))) ->
  (p = [] -> forall q, path_exists B root q = true -> q ≠ [] -> finishes (self q)) -> finishes (serve_dir B self w r root s p info).
Proof.
  intros Hd Hr. unfold serve_dir. destruct (negb (HasSuffix _ _)); [auto with finishes|]. destruct (be_MemFSPathList B root p) as [es|] eqn:El; [|auto with finishes].
  destruct (negb (is_set _ _)); [auto with finishes|]. destruct (has_index es) eqn:Ei.
  - apply Hd; [done|]. by eapply ty_index.
  - case_bool_decide; [|auto with finishes]. destruct (find_common _ _) as [q|] eqn:Eq; [|auto with finishes].
    apply find_common_index in Eq as [? ?]. by apply Hr.
Qed.
Lemma fin_missing self p e : (forall q, path_exists B root q = true -> q ≠ [] -> finishes (self q)) -> finishes (serve_missing cfg B self w r root p e).
Proof.
  intros Hr. unfold serve_missing. destruct (root_function _ _ _ _ _); [auto with finishes|]. destruct (negb _); [auto with finishes|].
  destruct (_ && _); [|auto with finishes]. destruct (path_exists B root index_html) eqn:Ep; [by apply Hr|].
  destruct (find_common _ _) as [q|] eqn:Eq; [|auto with finishes]. apply find_common_index in Eq as [? ?]. by apply Hr.
Qed.
Lemma fin_there n p fuel : (n < fuel)%nat -> p ≠ [] -> path_exists B root p = true -> is_dir root (Nat.iter n deeper p) = false ->
  finishes (serveMemFSPath cfg B walk buf fuel w r s p).
Proof.
  revert p fuel. induction n as [|n IH]; intros p [|fuel] Hf Hp Hex Hn; try lia; cbn [serveMemFSPath]; unfold serve_step; rewrite Hs; apply fin_pending;
    (destruct (checkBaseRedirect _ _ _ _); [auto with finishes|]); unfold path_exists in Hex; unfold find_path;
    destruct (be_MemFSPathInfo B root p) as [info|] eqn:Ei; try done.
  - cbn in Hn. unfold is_dir in Hn. rewrite Ei in Hn. rewrite Hn. apply fin_serve_file.
  - destruct (is_set _ _); [|apply fin_serve_file]. apply fin_dir; [|done]. intros _ Hex'. apply (IH _ fuel); [lia|apply Join_index_ne|done|].
    by rewrite Nat.iter_succ_r in Hn.
Qed.
Lemma fin_good p fuel : (depth < fuel)%nat -> path_exists B root p = true -> p ≠ [] -> finishes (serveMemFSPath cfg B walk buf fuel w r s p).
Proof. intros Hf Hex Hp. destruct (ty_depth _ _ Ht p Hex) as (n & Hn & Hd). apply (fin_there n); [lia|done..]. Qed.
Lemma fin_serve p fuel : (depth + 1 < fuel)%nat -> finishes (serveMemFSPath cfg B walk buf fuel w r s p).
Proof.
  intros Hf. destruct fuel as [|fuel]; [lia|]. cbn [serveMemFSPath]. unfold serve_step. rewrite Hs. apply fin_pending.
  destruct (checkBaseRedirect _ _ _ _); [auto with finishes|]. destruct (find_path _ _ _ _) as [q [info|e]].
  - destruct (is_set _ _); [|apply fin_serve_file]. apply fin_dir.
    + intros _ Hex. apply fin_good; [lia|done|apply Join_index_ne].
    + intros _ q' Hex Hq. apply fin_good; [lia|done..].
  - apply fin_missing. intros q' Hex Hq. apply fin_good; [lia|done..].
Qed.
Lemma fin_dirlist resolved fuel : (depth + 1 < fuel)%nat -> ((forall fi, be_MemFSInfo B root = Ok fi -> fi_Type fi ≠ lit "dir") -> finishes resolved) ->
  finishes (handleDirListForMID cfg B walk buf resolved fuel w r root s).
Proof.
  intros Hf Hk. unfold handleDirListForMID. apply fin_pending. destruct (be_MemFSInfo B root) as [info|]; [|by apply Hk].
  destruct (is_set (fi_Type info) "dir") eqn:Ed; cbn [negb].
  - destruct (be_MemFSList B root); [|auto with finishes]. destruct (negb _); [auto with finishes|]. destruct (has_index _); [by apply fin_serve|].
    destruct (find_common _ _); [by apply fin_serve|auto with finishes].
  - apply Hk. intros fi [= <-] E. unfold is_set in Ed. by rewrite E, bool_decide_eq_true_2 in Ed.
Qed.
Lemma fin_resolved fuel : (depth + 2 < fuel)%nat -> finishes (handleResolved cfg B walk buf fuel w r root s).
Proof.
  intros Hf. destruct fuel as [|fuel]; [lia|]. cbn [handleResolved]. apply fin_pending. destruct (checkETag _ _ _); [auto with finishes|].
  destruct (be_Resolve B root) as [[rc info]|] eqn:Er; [|auto with finishes].
  destruct (bool_decide _ || bool_decide _) eqn:Ed; [|apply fin_content]. destruct (negb _); [auto with finishes|].
  apply fin_dirlist; [lia|]. intros Hno. exfalso. apply orb_true_iff in Ed.
  destruct (ty_kind _ _ Ht rc info Er) as (fi & Ei & Et); [by destruct Ed as [?%bool_decide_eq_true|?%bool_decide_eq_true]; [left|right]|]. by apply (Hno fi).
Qed.
Lemma fin_raw : finishes (handleRawBlock B w r root).
Proof. unfold handleRawBlock. destruct (checkETag _ _ _); [auto with finishes|]. apply fin_get. intros [v|]; [auto with finishes|]. destruct (be_RawBlock _ _); auto with finishes. Qed.
Lemma fin_dagjson : finishes (handleDAGJSON B w r root).
Proof.
  unfold handleDAGJSON. destruct (_ || _); [apply fin_done|]. destruct (checkETag _ _ _); [auto with finishes|]. apply fin_get. intros [v|]; [auto with finishes|].
  destruct (be_DAGNodeJSON _ _); auto with finishes.
Qed.
End tidy.
Lemma fin_mid s w k : (forall root, Mid.Parse s = Ok root -> finishes (k root)) -> finishes (with_mid s w k).
Proof. intros Hk. unfold with_mid. destruct (Mid.Parse s) as [root|]; [by apply Hk|auto with finishes]. Qed.

Section routes.
Context `{!MultiformatsLaws} (depth fuel : nat) (w : Writer) (r : Request) (d : route) (Hf : (depth + 2 < fuel)%nat).
Context (Ht : forall s root, s ∈ mids_of cfg d r -> Mid.Parse s = Ok root -> tidy depth root).
Lemma fin_route explorer : finishes (serve_route cfg B walk buf fuel explorer d w r).
Proof.
  pose proof Ht as Hin. unfold mids_of in Hin. destruct d as [|m|m|m|m p|n p|dom p|]; cbn [serve_route].
  - unfold handleHealth. destruct (be_Ping B); auto with finishes.
  - unfold handleGet. apply fin_mid. intros root Hp. cbv zeta. destruct (is_set _ _); [apply fin_dagjson|].
    destruct (is_set _ _); [apply fin_raw|]. destruct (is_set _ _).
    + unfold handleDescriptor. destruct (be_Descriptor B root); auto with finishes.
    + apply (fin_resolved depth); [|done..]. apply (Hin m); [set_solver|done].
  - apply fin_mid. intros root Hp. destruct (be_Stat B root); auto with finishes.
  - apply fin_mid. intros root Hp. assert (tidy depth root) as Htd by (apply (Hin m); [set_solver|done]).
    apply (fin_dirlist depth root Htd); [done|lia|]. intros _. by apply (fin_resolved depth).
  - unfold handlePathGet. destruct (Mid.Parse m) as [root|] eqn:Hp.
    + apply (fin_serve depth root); [apply (Hin m); [set_solver|done]|done|lia].
    + destruct fuel; [lia|]. cbn [serveMemFSPath]. unfold serve_step. rewrite Hp. auto with finishes.
  - unfold handleMemNSResolve. destruct (cf_ns cfg) as [resolve|] eqn:En; [|auto with finishes]. destruct (resolve _) as [v|] eqn:Ev; [|auto with finishes].
    destruct (_ || _); [auto with finishes|]. pose proof (named_in cfg _ _ _ En Ev) as Hv. destruct (name_target v) as [s sub] eqn:Et.
    apply fin_mid. intros root Hp. assert (Mid.Parse (String root) = Ok root) as Hp' by (apply Parse_wf_String; by eapply Parse_wf).
    assert (tidy depth root) as Htd.
    { apply (Hin s root); [|done]. apply elem_of_app. left. apply list_elem_of_fmap. exists v. cbn. by rewrite Et. }
    case_bool_decide; [by apply (fin_resolved depth)|]. apply (fin_serve depth root); [done|done|lia].
  - unfold handleMemLinkGet. destruct (cf_ns cfg) as [resolve|] eqn:En; [|auto with finishes]. destruct (resolve dom) as [v|] eqn:Ev; [|auto with finishes].
    pose proof (named_in cfg _ _ _ En Ev) as Hv. destruct (Mid.Parse (TrimPrefix v (lit "/mem/"))) as [root|] eqn:Hp.
    + apply (fin_serve depth root); [|done|lia]. apply (Hin (TrimPrefix v (lit "/mem/")) root); [|done].
      apply elem_of_app. left. apply list_elem_of_fmap. by exists v.
    + destruct fuel; [lia|]. cbn [serveMemFSPath]. unfold serve_step. rewrite Hp. auto with finishes.
  - destruct explorer; auto with finishes.
Qed.
Lemma fin_router explorer : finishes (router cfg B walk buf fuel explorer d w r).
Proof.
  pose proof (fin_route explorer) as Hnext. unfold router.
  assert (finishes (customDomainMiddleware cfg B walk buf (serve_route cfg B walk buf fuel explorer d w r) fuel w r)) as Hnext2.
  { unfold customDomainMiddleware. cbv zeta. destruct (local_host _); [done|]. destruct (existsb (HasPrefix _) _); [done|].
    destruct (bool_decide (is_Some (resolveSubdomain cfg r))); [done|].
    destruct (cf_ns cfg) as [resolve|] eqn:En; [|auto with finishes]. destruct (resolve _) as [v|] eqn:Ev; [|destruct (is_set _ _); [done|auto with finishes]].
    pose proof (named_in cfg _ _ _ En Ev) as Hv. destruct (Mid.Parse (TrimPrefix v (lit "/mem/"))) as [root|] eqn:Hp.
    - apply (fin_serve depth root); [|done|lia]. apply (Ht (TrimPrefix v (lit "/mem/")) root); [|done].
      apply elem_of_app. right. apply list_elem_of_fmap. by exists v.
    - destruct fuel; [lia|]. cbn [serveMemFSPath]. unfold serve_step. rewrite Hp. auto with finishes. }
  unfold localOnlyMiddleware. destruct (negb _); [done|]. cbv zeta. destruct (_ || _); [done|auto with finishes].
Qed.
End routes.
End finishes.

(** ** Requests that never end *)
Section loops.
Context `{Multiformats, Protos, Mimes, GateJSON} (cfg : Config) (B : Backend) (walk buf : nat) (w : Writer) (r : Request) (root : MID) (s : bytes).
Context (Hhere : forall k, pending cfg B w r root s k = k) (Hpath : HasSuffix (r_Path r) slash = true).
Definition loops (a : H) : Prop := forall g, a g = None.
(** an index file that is a directory with an index file whose node cannot be read *)
Lemma broken_index_loops info entries e fuel : Mid.Parse s = Ok root -> query r "format" = [] ->
  be_MemFSPathInfo B root index_html = Ok info -> fi_Type info = lit "dir" ->
  be_MemFSPathList B root index_html = Ok entries -> has_index entries = true ->
  be_MemFSPathInfo B root (deeper index_html) = Err e -> err_has e "not found" = true ->
  is_ok (be_MemFSPathGet B root index_html) = false -> is_ok (be_MemFSPathGet B root (deeper index_html)) = false ->
  loops (serveMemFSPath cfg B walk buf fuel w r s index_html) /\ loops (serveMemFSPath cfg B walk buf fuel w r s (deeper index_html)).
Proof.
  intros Hs Hq Hi Ht Hl Hix He Hnf Hg1 Hg2. induction fuel as [|fuel [IH1 IH2]]; [done|]. cbn [serveMemFSPath]. unfold serve_step. rewrite Hs, !Hhere.
  assert (serve_dir B (serveMemFSPath cfg B walk buf fuel w r s) w r root s index_html info = serveMemFSPath cfg B walk buf fuel w r s (deeper index_html)) as Hd.
  { unfold serve_dir. rewrite Hpath, Hl, Hix. cbn [negb]. unfold is_set. by rewrite Hq, bool_decide_eq_true_2. }
  assert (forall p, p ≠ [] -> is_ok (be_MemFSPathGet B root p) = false -> checkBaseRedirect B r root p = None) as Hno.
  { intros p Hp Hg. unfold checkBaseRedirect, index_text, or_else. rewrite (bool_decide_eq_false_2 (p = [])) by done.
    destruct (negb _); [done|]. by destruct (be_MemFSPathGet B root p) as [[[]]|]. }
  rewrite !Hno by done. unfold find_path. rewrite Hi, He, Hnf. unfold heal, path_exists.
  change (base_stripped (deeper index_html)) with index_html. rewrite (bool_decide_eq_false_2 (index_html = [])), Hi by done.
  cbn [is_ok andb negb]. rewrite bool_decide_eq_true_2 by done. change (bool_decide (is_Some (split2 Byte.x2f (deeper index_html)))) with true. cbn [andb negb].
  rewrite Hi. unfold is_set. rewrite Ht, bool_decide_eq_true_2 by done. by rewrite Hd.
Qed.
(** content with the type of a directory that is none *)
Lemma directory_type_loops rc info fuel : hdr r "If-None-Match" = [] -> be_Resolve B root = Ok (rc, info) -> ci_MimeType info = inode_directory ->
  (forall fi, be_MemFSInfo B root = Ok fi -> fi_Type fi ≠ lit "dir") -> loops (handleResolved cfg B walk buf fuel w r root s).
Proof.
  intros Hn Hr Hm Hd. induction fuel as [|fuel IH]; [done|]. cbn [handleResolved]. unfold checkETag, handleDirListForMID.
  rewrite !Hhere, Hr, Hpath, Hm, bool_decide_eq_true_2 by done. rewrite bool_decide_eq_true_2 by done. cbn [orb negb].
  destruct (be_MemFSInfo B root) as [fi|] eqn:Ei; [|done]. unfold is_set. by rewrite bool_decide_eq_false_2 by by apply Hd.
Qed.
End loops.

(** every request is answered, from any state of the caches, when the content it may serve is tidy: listed index files are there,
    index files that are directories are nested to a bound, and what has the type of a directory is one.  The recursion of the
    handlers is then no deeper than this bound and two. *)
Theorem requests_end `{Multiformats} `{!MultiformatsLaws} `{Protos, Mimes, GateJSON} cfg B walk buf depth fuel explorer d w r g :
  (forall s root, s ∈ mids_of cfg d r -> Mid.Parse s = Ok root -> tidy B depth root) -> (depth + 2 < fuel)%nat ->
  is_Some (router cfg B walk buf fuel explorer d w r g).
Proof. intros Ht Hf. by apply (fin_router cfg B walk buf depth fuel w r d Hf Ht explorer). Qed.

(** ** Instances *)
Module ToyJSON.
Definition marshal '((data, ct) : bytes * bytes) : result bytes :=
  let b := PutUint64 (zlen data) ++ data ++ ct in
  if zlen b <? 2 ^ 63 then Ok b else Err (New "json: too large").
Definition unmarshal (b : bytes) : bytes * bytes :=
  let n := Z.to_nat (Uint64 b) in (take n (drop 8 b), drop n (drop 8 b)).
End ToyJSON.
#[export] Instance toy_gate_json : GateJSON := {|
  cp_marshal := ToyJSON.marshal; cp_unmarshal b := Some (ToyJSON.unmarshal b); dag_unmarshal _ := Some (None, []);
|}.
#[export] Instance toy_gate_json_laws : GateJSONLaws.
Proof.
  intros data ct b _. cbn [cp_marshal cp_unmarshal toy_gate_json]. unfold ToyJSON.marshal.
  destruct (PutUint64 (zlen data) ++ data ++ ct) as [|x l] eqn:Ex; [done|].
  destruct (Z.ltb_spec (zlen (x :: l)) (2 ^ 63)) as [Hlt|]; [|done]. intros [= <-]. f_equal.
  rewrite <-Ex in Hlt |- *. rewrite !zlen_app in Hlt. pose proof (zlen_nonneg data). pose proof (zlen_nonneg ct). pose proof (zlen_nonneg (PutUint64 (zlen data))).
  unfold ToyJSON.unmarshal. cbv zeta. rewrite drop_app_length' by (rewrite PutUint64_length; lia).
  assert (Uint64 (PutUint64 (zlen data) ++ data ++ ct) = zlen data) as ->.
  { rewrite <-(Uint64_PutUint64 (zlen data)) at 2 by lia. unfold Uint64. by rewrite take_app_le by (rewrite PutUint64_length; lia). }
  rewrite take_app_length', drop_app_length' by (unfold zlen; lia). done.
Qed.
Lemma toy_cp_size p b : cp_marshal (GateJSON := toy_gate_json) p = Ok b -> zlen b < 2 ^ 63.
Proof. cbn [cp_marshal toy_gate_json]. unfold ToyJSON.marshal. destruct p as [data ct]. by destruct (Z.ltb_spec (zlen (PutUint64 (zlen data) ++ data ++ ct)) (2 ^ 63)); [intros [= <-]|]. Qed.
#[export] Instance toy_path_keys : PathKeys.
Proof.
  assert (forall n s t, (length s ≤ n)%nat -> is_ok (Toy.dec s) = true -> is_ok (Toy.dec (s ++ Byte.x3a :: t)) = false) as Hdec.
  { induction n as [|n IH]; intros [|h [|l s]] t Hn Hs; try done; cbn [length] in Hn; try lia.
    1,2: by destruct t.
    cbn [Toy.dec app] in *. destruct (_ && _); [|done]. specialize (IH s t ltac:(lia)).
    destruct (Toy.dec s); [|done]. specialize (IH eq_refl). by destruct (Toy.dec (s ++ Byte.x3a :: t)). }
  intros s t x y. cbn [cid_Decode toy]. unfold Toy.cdec. destruct s as [|[] s]; try done. change ((Byte.x62 :: s) ++ lit ":" ++ t) with (Byte.x62 :: s ++ Byte.x3a :: t).
  specialize (Hdec (length s) s t (le_n _)). destruct (Toy.dec s); [|done]. specialize (Hdec eq_refl). by destruct (Toy.dec (s ++ _)).
Qed.

(** ** The properties at concrete inputs *)
#[export] Instance toy_mimes : Mimes := {| os_type _ := None; ExtensionsByType _ := []; sniff _ := octets |}.
Module demo.
#[local] Existing Instance demo_bs2.
Definition missing : error := New "memfs: not found".
Definition you : bytes := lit "you.txt".
(** one file in a directory, and a node *)
Definition files : Backend := {|
  be_Resolve _ := Err missing; be_RawBlock := demo_get; be_DAGNodeJSON _ := Ok (lit "{}"); be_Stat _ := Err missing; be_Ping := Ok tt;
  be_MemFSInfo _ := Ok (mkMemFSInfo (String demo_root) (lit "dir") 9 493 0 []);
  be_MemFSPathGet _ p := if bool_decide (p = you) then Ok (mkStream (lit "hello you") None, 9, []) else Err missing;
  be_MemFSList _ := Ok [mkMemFSEntry you (String demo_root) (lit "file") 9];
  be_MemFSPathInfo _ p := if bool_decide (p = you) then Ok (mkMemFSInfo (String demo_root) (lit "file") 9 420 0 []) else Err missing;
  be_MemFSPathList _ _ := Err missing; be_Descriptor _ := Err missing;
|}.
Definition config : Config := mkConfig 1000 None None 0.
Definition request (path : string) (h : list (string * string)) : Request :=
  mkRequest (lit "GET") (lit "localhost:8080") (lit path)
    (λ k, default [] (snd <$> head (filter (λ kv, kv.1 = k) (map (λ kv : string * string, (lit kv.1, lit kv.2)) h)))) (λ _, []) None 0 (mkStream [] None).
Definition fresh : gate := mkGate (mkGateway (newShardedLRU 1000 4) (newBlockListCache 8)) ∅.
(** a store of blocks that satisfy a test *)
Lemma store_blocks (test : bytes -> bool) (s : Memstore) : bool_decide (map_Forall (λ _ d, test d = true) (blocks s)) = true ->
  forall m d, mem_Get m s = Ok d -> test d = true.
Proof.
  intros Hall%bool_decide_eq_true m d. unfold mem_Get. destruct (blocks s !! String m) as [d'|] eqn:E; [|done]. intros [= <-]. by apply (Hall (String m)).
Qed.
Lemma files_sized : sized files.
Proof.
  split; [|by intros m d [= <-]|apply toy_cp_size]. intros m d Hd. apply Z.ltb_lt.
  apply (store_blocks (λ d, zlen d <? 2 ^ 63) (p_store demo_end)) with m; [vm_compute; reflexivity|exact Hd].
Qed.
Lemma Parse_one s root m : Mid.Parse s = Ok root -> Mid.Parse s = Ok m -> m = root.
Proof. congruence. Qed.
Lemma files_honest : exists h, forall walk m, (h < walk)%nat -> honest files walk m.
Proof.
  destruct (spells_spelled _ _ _ (file_spells BLAKE3 eq_refl (p_store demo_end) _ _ MemRead.demo_file)) as [h Hh]. exists h.
  intros walk m Hw. split; [|done]. intros p info rc size mime Hi _ Hg. cbn [be_MemFSPathInfo be_MemFSPathGet files] in Hi, Hg.
  case_bool_decide as Ep; [|done]. injection Hi as <-. injection Hg as <- <- <-. split; [done|]. split.
  - intros data [= <-]. rewrite Ep. vm_compute. reflexivity.
  - intros m' Hm. cbn [fi_MID] in Hm. assert (Mid.Parse (String demo_root) = Ok demo_root) as E by (vm_compute; reflexivity).
    rewrite (Parse_one _ _ _ E Hm). split; [apply (Hh walk Hw)|reflexivity|reflexivity].
Qed.
Lemma fresh_sound B : sound config B fresh.
Proof. apply (new_gateway_ok _ _ 1000 4 8); lia. Qed.
Lemma tidy_files m : tidy files 0 m.
Proof.
  split; [done| |done]. intros p Hp. exists 0%nat. split; [lia|]. change (Nat.iter 0 deeper p) with p. unfold is_dir, path_exists in *. cbn [be_MemFSPathInfo files] in *.
  destruct (bool_decide (p = you)); [vm_compute; reflexivity|reflexivity].
Qed.
Definition get (h : list (string * string)) (walk : nat) (g : gate) : option (Writer * gate) :=
  router config files walk 3 5 true (RPath (String demo_root) you) NewWriter (request "/mem/m/you.txt" h) g.
Lemma path_served_witness : exists walk w g',
  serveMemFSPath config files walk 3 1 NewWriter (request "/mem/m/you.txt" [("Range", "bytes=2-6")]%string) (String demo_root) you fresh = Some (w, g') /\
  w_body w = [Text (lit "llo y")].
Proof.
  destruct files_honest as [h Hh].
  destruct (path_served config files files_sized (S h) 3 ltac:(lia) 0 (request "/mem/m/you.txt" [("Range", "bytes=2-6")]%string) demo_root (String demo_root) you
    (mkMemFSInfo (String demo_root) (lit "file") 9 420 0 []) (mkStream (lit "hello you") None) 9 [] fresh) as (w & g' & E & _ & hs & Hserved).
  - vm_compute. reflexivity.
  - apply Hh. lia.
  - right. reflexivity.
  - reflexivity.
  - reflexivity.
  - discriminate.
  - vm_compute. reflexivity.
  - reflexivity.
  - reflexivity.
  - reflexivity.
  - reflexivity.
  - apply fresh_sound.
  - exists (S h), w, g'. split; [exact E|]. exact (proj1 (proj2 Hserved)).
Defined.
Lemma get_answers h walk g : is_Some (get h walk g).
Proof.
  assert (finishes (router config files walk 3 5 true (RPath (String demo_root) you) NewWriter (request "/mem/m/you.txt" h))) as Hf; [|exact (Hf g)].
  apply (fin_router config files walk 3 0 5); [lia|]. intros s root _ _. apply tidy_files.
Qed.
Lemma caches_stay_sound_witness : exists w g', get [] 1 fresh = Some (w, g') /\ sound config files g'.
Proof.
  destruct (get_answers [] 1 fresh) as [[w g'] E]. exists w, g'. split; [exact E|].
  exact (caches_stay_sound config files files_sized 1 3 ltac:(lia) ltac:(cbn; lia) 5 true _ _ _ fresh w g' (fresh_sound files) E).
Defined.
(** the second request is answered from the cache *)
Lemma answers_without_caches_witness : exists walk w g1 g2, get [] walk fresh = Some (w, g1) /\ get [] walk g1 = Some (w, g2).
Proof.
  destruct files_honest as [h Hh]. exists (S h). destruct (get_answers [] (S h) fresh) as [[w g1] E1], (get_answers [] (S h) g1) as [[w2 g2] E2].
  exists w, g1, g2. split; [exact E1|].
  assert ((λ a, gt_jobs a.2) <$> get [] (S h) fresh = Some ∅) as Hj by (vm_compute; reflexivity). rewrite E1 in Hj.
  assert (sound config files g1) as Hg1.
  { pose proof (same_router config files files_sized (S h) 3 ltac:(lia) ltac:(cbn; lia) False 5 true (RPath (String demo_root) you) NewWriter (request "/mem/m/you.txt" [])
      ltac:(intros []) fresh fresh ltac:(split; [apply fresh_sound|apply fresh_sound|reflexivity])) as Hs.
    unfold get in E1. rewrite E1 in Hs. apply Hs. }
  pose proof (answers_without_caches config files files_sized (S h) 3 ltac:(lia) ltac:(cbn; lia) 5 true
    (RPath (String demo_root) you) NewWriter (request "/mem/m/you.txt" []) fresh g1) as Ha.
  unfold get in E1, E2 |- *. rewrite E1, E2 in Ha. rewrite E2.
  assert (Some (w, gt_jobs g1) = Some (w2, gt_jobs g2)) as [= <- _]; [|reflexivity]. apply Ha; [|apply fresh_sound|exact Hg1|].
  - intros s root Hs Hp. assert (s = String root) as Es.
    { assert (s = String demo_root) as -> by (apply list_elem_of_singleton; exact Hs). f_equal. symmetry. apply (Parse_one (String demo_root)); [vm_compute; reflexivity|exact Hp]. }
    split; [exact Es|]. apply Hh. lia.
  - injection Hj as ->. reflexivity.
Defined.
Lemma requests_end_witness : is_Some (router config files 1 3 3 true (RPath (String demo_root) you) NewWriter (request "/mem/m/you.txt" []) fresh).
Proof. apply (requests_end config files 1 3 0 3); [intros s root _ _; apply tidy_files|lia]. Defined.
End demo.
