(* ===== verification/GateBackend.v ===== *)
(** * The backend of the gateway (src/cmd/membuss/daemon/memgate_backend.go)

    [adapter] is [memgateAdapter], the daemon's [Backend]: metadata and content come from the local
    store ([Stat], [Resolve], after a fetch from the network when the DAG is not complete),
    files and directories from the resolver of core/memfs over the fetching block store,
    whose [Get] at this time is an argument, as is what a fetch leaves in the store.
    [adapter_files], [adapter_honest]: what lies below a directory of core/memfs is honest content in
    the sense of MemGate.v.  [site_served]: every file of a published directory is served under its path. *)
From S2P Require Import Prelude Mid GoIO Chunk Wire Blockstore Objects Memstore Dag Db MemNode MemFile FileStores AddFile MemRead MemBuild MemTree Names Descriptor Magnet NameResolver Lru GateRange GateText MemGate.

(** json.Marshal of the view of a DAG node *)
Class ViewJSON := view_marshal : bytes -> Z -> option (list bytes) -> result bytes.
Definition errMGNotFound : error := New "not found".
Definition memFSTypeString (t : MemFSType) : bytes :=
  if t =? TypeFile then lit "file" else if t =? TypeDir then lit "dir" else
  if t =? TypeSymlink then lit "symlink" else if t =? TypeMetadata then lit "metadata" else lit "raw".
(** [Time.Unix] of a [UnixNano] *)
Definition unix_seconds (t : Z) : Z := if t =? zeroTime then -62135596800 else t / 10 ^ 9.

Section adapter.
Context `{Multiformats, Protos, ObjectJSON, Mimes, ViewJSON} (alg : Z) {St : Type} `{Blockstore St, MetaStore St}.
(** the store's [GetSize], when it has one; whether it is sealed; fuel for walks and files, and the size of reads *)
Context (sizer : option (MID -> St -> result Z)) (sealed_in : MID -> St -> bool) (fuel bufsize : nat).

Definition walk_all {T} (s : St) (visit : MID -> bool -> M T unit) (root : MID) : M T unit :=
  Blockstore.Walk (λ m _, bs_Get m s) ((λ f m _, f m s) <$> sizer) visit fuel root.
Definition isDAGComplete (s : St) (root : MID) : result bool :=
  if IsZero root then Ok false else
  match (walk_all s (λ _ _, mret tt) root tt).1 with
  | Ok _ => Ok true
  | Err e => if errors_is e ErrNotFound || err_has e "block not found" then Ok false else Err e
  end.
Definition countDAG (s : St) (root : MID) : result (Z * Z) :=
  match walk_all s (λ m _ '(nodes, total),
    match bs_Get m s with
    | Err e => (Err e, (u64 (nodes + 1), total))
    | Ok raw => (Ok tt, (u64 (nodes + 1), u64 (total + zlen raw)))
    end) root (0, 0) with
  | (Ok _, n) => Ok n
  | (Err e, _) => Err e
  end.
Definition has_complete (s : St) (m : MID) : result bool :=
  has ← bs_Has m s;
  Ok (has && match isDAGComplete s m with Ok c => c | Err _ => false end).

Section at_a_time.
(** [fetchingBlockstore.Get], and the local store *)
Context (get : MID -> result bytes) (s : St).
Definition stream_of (get : MID -> result bytes) (r : reader) : stream :=
  let '(data, e) := read_all get (S (Z.to_nat (mn_FileSize (rd_file r)))) bufsize r in
  mkStream data (if errors_is e EOF then None else Some e).

Definition content_info (m : MID) (size blocks : Z) (nodeMime : bytes) : ContentInfo :=
  let oi := match GetObjectInfo m s with Ok oi => oi | Err _ => zeroInfo end in
  let mimeType := if bool_decide (oi_MimeType oi = []) && (Codec m =? CodecMemFS) then nodeMime else oi_MimeType oi in
  mkContentInfo (String m) size blocks (DetectContentType (String m) [] mimeType) (sealed_in m s) (oi_Name oi) mimeType.
(** what [Resolve] returns of content that is in the store *)
Definition open_content (m : MID) : result (stream * ContentInfo) :=
  let local m := bs_Get m s in
  if Codec m =? CodecMemFS then
    node ← MemRead.Resolve local m;
    if IsDir node then
      raw ← local m;
      Ok (mkStream raw None, content_info m (zlen raw) 1 inode_directory)
    else
      rc ← Open local fuel m;
      Ok (stream_of local rc, content_info m (TotalSize node) (1 + BlockCount node) (MimeType node))
  else
    '(blocks, size) ← countDAG s m;
    '(out, e) ← Dag.Resolve alg (λ _ m, bs_Get m s) (λ _, None) fuel m;
    Ok (mkStream out (if errors_is e EOF then None else Some e), content_info m size blocks []).
Definition Stat (m : MID) : result ContentInfo :=
  has ← bs_Has m s;
  if negb has then Err errMGNotFound else
  match isDAGComplete s m with
  | Ok true =>
      if Codec m =? CodecMemFS then
        node ← MemRead.Resolve (λ m, bs_Get m s) m;
        Ok (content_info m (TotalSize node) (1 + BlockCount node) (if IsDir node then inode_directory else MimeType node))
      else '(blocks, size) ← countDAG s m; Ok (content_info m size blocks [])
  | _ => Err errMGNotFound
  end.
Definition RawBlock (m : MID) : result bytes :=
  match get m with
  | Err e => if errors_is e ErrNotFound then Err errMGNotFound else Err e
  | Ok data => Ok data
  end.
Definition view_links (m : MID) (raw : bytes) : list bytes :=
  if Codec m =? CodecMemFS then
    match unmarshal (A := MemFSNode) raw with
    | Err _ => []
    | Ok node =>
        if mn_Type node =? TypeFile then map String (mn_Blocks node ≫= block_child)
        else if mn_Type node =? TypeDir then map String (mn_Entries node ≫= entry_child) else []
    end
  else match unmarshal (A := DAGNode) raw with Ok node => dn_Links node | Err _ => [] end.
Definition DAGNodeJSON (m : MID) : result bytes :=
  has ← bs_Has m s;
  if negb has then Err errMGNotFound else
  raw ← bs_Get m s;
  let links := view_links m raw in
  view_marshal (String m) (zlen raw) (if bool_decide (links = []) then None else Some links).
Definition not_found {A} (r : result A) : result A := match r with Ok a => Ok a | Err _ => Err errMGNotFound end.
Definition MemFSInfo_of (m : MID) : result MemFSInfo :=
  st ← not_found (MemRead.Stat get m);
  Ok (mkMemFSInfo (String m) (memFSTypeString (st_Type st)) (st_Size st) (u32 (st_Mode st)) (unix_seconds (st_MTime st)) (st_MimeType st)).
Definition entry_of (e : FSEntry) : MemFSEntry := mkMemFSEntry (fe_Name e) (String (fe_Mid e)) (memFSTypeString (fe_Type e)) (fe_Size e).
Definition MemFSPathGet (m : MID) (path : bytes) : result (stream * Z * bytes) :=
  node ← not_found (ResolvePath get m path);
  if negb (IsFile node) then Err errMGNotFound else
  fileMID ← MustMID alg node;
  rc ← Open get fuel fileMID;
  Ok (stream_of get rc, TotalSize node, MimeType node).
Definition MemFSList (m : MID) : result (list MemFSEntry) :=
  st ← not_found (MemRead.Stat get m);
  if negb (st_Type st =? TypeDir) then Err errMGNotFound else Ok (map entry_of (st_Entries st)).
Definition MemFSPathInfo (m : MID) (subPath : bytes) : result MemFSInfo :=
  node ← not_found (ResolvePath get m subPath);
  fileMID ← MustMID alg node;
  Ok (mkMemFSInfo (String fileMID) (memFSTypeString (mn_Type node)) (TotalSize node) (u32 (Mode node)) (unix_seconds (MTime node)) (MimeType node)).
Definition MemFSPathList (m : MID) (subPath : bytes) : result (list MemFSEntry) :=
  node ← not_found (ResolvePath get m subPath);
  if negb (IsDir node) then Err errMGNotFound else Ok (map entry_of (EntriesValue node)).
Definition gate_Descriptor (now : Z) (m : MID) : result bytes :=
  has ← bs_Has m s;
  if negb has then Err errMGNotFound else
  d ← Build ((λ f m, f m s) <$> sizer) s fuel now m [];
  Serialize d.
End at_a_time.

(** [Resolve]: a fetch of the DAG, when it succeeds, leaves another store *)
Definition Resolve (session : MID -> St -> option St) (m : MID) : M St (stream * ContentInfo) := λ s,
  match has_complete s m with
  | Err e => (Err e, s)
  | Ok true => (open_content s m, s)
  | Ok false =>
      match session m s with
      | Some s => (open_content s m, s)
      | None => (Err errMGNotFound, s)
      end
  end.
(** [ResolveWithProgress] also marks what it has fetched as a root *)
Definition ResolveWithProgress (session : MID -> St -> option St) (m : MID) : M St (stream * ContentInfo) := λ s,
  match has_complete s m with
  | Err e => (Err e, s)
  | Ok true => (open_content s m, s)
  | Ok false =>
      match session m s with
      | Some s =>
          let oi := match GetObjectInfo m s with Ok oi => oi | Err _ => zeroInfo end in
          let s := (SetObjectInfo m (mkObjectInfo (oi_Name oi) (oi_MimeType oi) (oi_Size oi) true) s).2 in
          (open_content s m, s)
      | None => (Err errMGNotFound, s)
      end
  end.
(** the backend while the store is [s] *)
Definition adapter (get : MID -> result bytes) (session : MID -> St -> option St) (now : Z) (s : St) : Backend := {|
  be_Resolve m := (Resolve session m s).1;
  be_RawBlock := RawBlock get;
  be_DAGNodeJSON := DAGNodeJSON s;
  be_Stat := Stat s;
  be_Ping := Ok tt;
  be_MemFSInfo := MemFSInfo_of get;
  be_MemFSPathGet := MemFSPathGet get;
  be_MemFSList := MemFSList get;
  be_MemFSPathInfo := MemFSPathInfo get;
  be_MemFSPathList := MemFSPathList get;
  be_Descriptor := gate_Descriptor s now;
|}.
End adapter.

(** ** The file system is honest *)
(** the operating system's table and the sniffer speak UTF-8 *)
Class MimeText `{Mimes} : Prop := { os_text e t : os_type e = Some t -> utf8 t = true; sniff_text d : utf8 (sniff d) = true }.
Lemma seeded_text ext t : seeded_type ext = Some t -> utf8 t = true.
Proof.
  unfold seeded_type. intros ([i e] & E & ->)%fmap_Some. apply list_find_Some in E as (Hi & _ & _). apply list_elem_of_lookup_2 in Hi.
  assert (Forall (λ e : string * string, utf8 (lit e.2) = true) seeded) as HF by (repeat constructor; vm_compute; reflexivity).
  rewrite Forall_forall in HF. by apply HF.
Qed.
Lemma DetectContentType_text `{Mimes} `{!MimeText} name data override : utf8 override = true -> utf8 (DetectContentType name data override) = true.
Proof.
  intros Ho. unfold DetectContentType. destruct (_ && _).
  { destruct (_ || _); [reflexivity|]. by destruct (HasPrefix _ _). }
  assert (forall ext, utf8 (TypeByExtension ext) = true) as Ht.
  { intros ext. assert (forall ext t, (match seeded_type ext with Some t => Some t | None => os_type ext end) = Some t -> utf8 t = true) as Hf.
    { intros e t. destruct (seeded_type e) as [t'|] eqn:E; [intros [= <-]; by eapply seeded_text|apply os_text]. }
    unfold TypeByExtension. destruct (match seeded_type ext with Some t => Some t | None => os_type ext end) as [t|] eqn:E; [by eapply Hf|].
    destruct (match seeded_type (ToLower ext) with Some t => Some t | None => _ end) as [t|] eqn:E2; [by eapply Hf|done]. }
  cbv zeta. assert (utf8 (if bool_decide (Ext name = []) then [] else TypeByExtension (Ext name)) = true) as Hct by (case_bool_decide; [done|apply Ht]).
  destruct (negb (bool_decide (_ = []))); [exact Hct|]. destruct (bool_decide (data = [])); [reflexivity|apply sniff_text].
Qed.

Section honest.
Context `{Multiformats} `{!MultiformatsLaws} `{!BinaryMultihash} `{!CidText} `{Protos} `{!ProtosLaws} `{!NodeBytes} `{ObjectJSON} `{Mimes} `{!MimeText} `{ViewJSON}.
Context (alg : Z) (Halg : isSupportedHash alg = true) (F : nat) (HF : (1 < F)%nat).
Context {St : Type} `{Blockstore St} `{BatchStore St} `{MetaStore St} (inv : St -> Prop) `{!FileStoreLaws St alg inv}.
Implicit Types s : St.
#[local] Abbreviation local s := (λ m, bs_Get m s).

Lemma file_node s m c : file_at alg s m c -> exists pb, MemRead.Resolve (local s) m = Ok pb /\ IsFile pb = true /\
  mn_FileSize pb = zlen c /\ TotalSize pb = zlen c /\ MustMID alg pb = Ok m.
Proof.
  intros (level & ch & dss & pb & Hn & Hty & Hsz & Hlt & Hb & Hf & Ec). exists pb.
  assert (IsFile pb = true) as Hfile by (unfold IsFile; by rewrite Hty). split_and!; [|done|done| |].
  - apply (Resolve_node alg Halg s pb m Hn). by rewrite Hty.
  - unfold TotalSize. rewrite Hfile, Hsz. destruct (Z.ltb_spec 0 (zlen c)) as [|Hz]; [done|]. pose proof (zlen_nonneg c).
    assert (Forall (λ b, fb_Size b = 0) (BlocksValue pb)) as H0'.
    { unfold BlocksValue. rewrite Hb. apply Forall_map, Forall_map. destruct level as [|level]; [|by apply Forall_forall].
      apply Forall_forall. intros r [i Hi]%list_elem_of_lookup. exfalso. destruct (Forall2_lookup_l _ _ _ _ _ Hf Hi) as (ds & Hds & (d & -> & Hd & _)).
      apply list_elem_of_lookup_2, list_elem_of_split in Hds as (l1 & l2 & E). rewrite Ec, E, !concat_app in Hz. cbn [concat app] in Hz.
      rewrite !zlen_app in Hz.
      pose proof (zlen_nonneg (concat (concat l1))). pose proof (zlen_nonneg (concat (concat l2))). lia. }
    rewrite sum64_mod. assert (sumZ id (map fb_Size (BlocksValue pb)) = 0) as ->; [|change (u64 0) with 0; lia].
    clear -H0'. induction H0' as [|b l Hb _ IH]; [done|]. cbn [map sumZ foldr]. rewrite Hb. exact IH.
  - destruct Hn as (raw & Hraw & Hm & _). unfold MustMID, Node_MID, MemNode.Serialize. rewrite Hraw. cbn [wrap mbind result_bind]. by rewrite Hm.
Qed.
(** what a file of the store needs to be served, with fuel from [h] on *)
Definition served_with s (m : MID) (c : bytes) (h : nat) : Prop := forall fuel, (h ≤ fuel)%nat ->
  spelled (local s) fuel m c /\ exists r, Open (local s) fuel m = Ok r /\ forall bufsize, (0 < bufsize)%nat -> stream_of bufsize (local s) r = mkStream c None.
Lemma file_served s m c : file_at alg s m c -> exists h, served_with s m c h.
Proof.
  intros Hf. destruct (Open_file alg Halg s m c Hf) as [h1 Ho]. destruct (spells_spelled _ _ _ (file_spells alg Halg s m c Hf)) as [h2 Hs].
  exists (S (h1 + h2)). intros fuel Hfuel. split; [apply Hs; lia|]. destruct (Ho fuel ltac:(lia)) as (r & E & Hr & Hp). exists r. split; [done|].
  intros bufsize Hb. unfold stream_of. assert (mn_FileSize (rd_file r) = zlen c) as ->.
  { destruct (file_node s m c Hf) as (pb & Epb & Hfile & Hz & _). unfold Open in E. rewrite Epb in E. cbn [mbind result_bind] in E. rewrite Hfile in E. cbn [negb] in E.
    unfold newReader in E. destruct (flattenFileBlocks _ _ _); [|done]. cbn [mbind result_bind] in E. by injection E as <-. }
  rewrite (read_all_spec _ _ _ _ c Hr Hb) by (rewrite Hp; lia). rewrite Hp. reflexivity.
Qed.
Lemma served_more s m c h h' : (h ≤ h')%nat -> served_with s m c h -> served_with s m c h'.
Proof. intros Hle Hc fuel Hfuel. apply Hc. lia. Qed.
Lemma file_at_inj s m c c' : file_at alg s m c -> file_at alg s m c' -> c = c'.
Proof.
  intros [h Hc]%file_served [h' Hc']%file_served. destruct (Hc (h + h')%nat ltac:(lia)) as (_ & r & E & Hr), (Hc' (h + h')%nat ltac:(lia)) as (_ & r' & E' & Hr').
  rewrite E in E'. injection E' as <-. specialize (Hr 1%nat ltac:(lia)). rewrite (Hr' 1%nat ltac:(lia)) in Hr. by injection Hr.
Qed.
(** one fuel for all files of a tree *)
Definition tree_served_with s (t : tree) (h : nat) : Prop :=
  forall q m size, tree_get q t = Some (TFile m size) -> exists c, file_at alg s m c /\ served_with s m c h.
Lemma tree_served s t : tree_ok t -> files_at alg s t -> exists h, tree_served_with s t h.
Proof.
  induction t as [m size|cs IH] using tree_induct; intros Hok Hfiles.
  { destruct (Hfiles [] m size eq_refl) as [c Hf]. destruct (file_served s m c Hf) as [h Hh]. exists h. intros [|part q] m' size' Hq; [|done]. injection Hq as <- <-. by exists c. }
  assert (exists h, forall c, c ∈ cs -> tree_served_with s c.2 h) as [h Hh].
  { assert (forall c, c ∈ cs -> tree_ok c.2 /\ files_at alg s c.2) as Hcs.
    { intros c Hc. pose proof (tree_dir_inv _ Hok) as [Hnd Hall]. rewrite Forall_forall in Hall. split; [by apply Hall|].
      eapply files_at_child; [exact Hnd|exact Hfiles|exact Hc]. }
    clear Hok Hfiles. induction IH as [|c cs Hc _ IHcs]; [exists 0%nat; by intros c ?%elem_of_nil|].
    destruct Hc as [h1 H1']; [apply Hcs; set_solver..|]. destruct IHcs as [h2 H2']; [intros; apply Hcs; set_solver|].
    exists (h1 + h2)%nat. intros c' [->|Hc']%elem_of_cons q m size Hq; [destruct (H1' q m size Hq) as (d & ? & ?)|destruct (H2' c' Hc' q m size Hq) as (d & ? & ?)];
      (exists d; split; [done|]; eapply served_more; [|done]; lia). }
  exists h. intros [|part q] m size Hq; [done|]. cbn [tree_get] in Hq. destruct (child part cs) as [t|] eqn:Ec; [|done].
  apply (child_Some part cs t) in Ec; [|by apply tree_dir_inv in Hok as [? _]]. by apply (Hh (part, t) Ec q m size).
Qed.

Section adapter.
Context (sizer : option (MID -> St -> result Z)) (sealed_in : MID -> St -> bool) (fuel walk bufsize : nat) (Hbuf : (0 < bufsize)%nat).
Context (session : MID -> St -> option St) (now : Z) (s : St) (t : tree) (root : MID) (h : nat).
#[local] Abbreviation B := (adapter alg sizer sealed_in fuel bufsize (local s) session now s).
Context (Hok : tree_ok t) (Ht : tree_at alg s t root) (Hfiles : tree_served_with s t h).
Context (Hfuel : (h ≤ fuel)%nat) (Hwalk : (h ≤ walk)%nat).
Lemma RawBlock_get m d : bs_Get m s = Ok d <-> RawBlock (local s) m = Ok d.
Proof. unfold RawBlock. destruct (bs_Get m s) as [d'|e]; [done|]. by destruct (errors_is e ErrNotFound). Qed.
(** what a path finds is in the tree *)
Lemma path_found p node : ResolvePath (local s) root p = Ok node ->
  exists t' m', tree_get (splitPath p) t = Some t' /\ tree_at alg s t' m' /\ MemRead.Resolve (local s) m' = Ok node.
Proof.
  unfold ResolvePath. case_bool_decide as Ep; [rewrite Ep; intros E; by exists t, root|].
  destruct (MemRead.Resolve (local s) root) as [pb|] eqn:Er; [|done]. cbn [mbind result_bind]. intros Eq. by apply (tree_resolves_inv alg Halg s _ node t root pb).
Qed.
Lemma dir_type cs m node : tree_at alg s (TDir cs) m -> MemRead.Resolve (local s) m = Ok node -> IsDir node = true.
Proof. intros Hd Hr. destruct (tree_at_node alg Halg s _ m Hd) as (pb & Hpb & Hdir & _). congruence. Qed.
Lemma path_file p info rc size mime : be_MemFSPathInfo B root p = Ok info -> be_MemFSPathGet B root p = Ok (rc, size, mime) ->
  exists m tsize c node, tree_get (splitPath p) t = Some (TFile m tsize) /\ file_at alg s m c /\ MemRead.Resolve (local s) m = Ok node /\
    fi_MID info = String m /\ fi_Size info = zlen c /\ size = zlen c /\ rc = mkStream c None /\ mime = MimeType node /\ wf_mid m /\ spelled (local s) walk m c.
Proof.
  cbn [be_MemFSPathInfo be_MemFSPathGet adapter]. unfold MemFSPathInfo, MemFSPathGet.
  destruct (ResolvePath (local s) root p) as [node|] eqn:Ep; [|done]. cbn [not_found mbind result_bind].
  destruct (path_found p node Ep) as (t' & m & Hq & Hat & Hr). destruct (IsFile node) eqn:Efile; [|done]. cbn [negb].
  destruct t' as [m1 tsize|cs].
  2:{ exfalso. pose proof (dir_type _ _ _ Hat Hr) as Ed. unfold IsFile, IsDir in *. apply Z.eqb_eq in Efile, Ed. rewrite Efile in Ed. done. }
  assert (m1 = m) as -> by (by inversion Hat). destruct (Hfiles _ _ _ Hq) as (c & Hf & Hc).
  destruct (file_node s m c Hf) as (pb & Hpb & _ & _ & Hsz & Hmid). assert (pb = node) as -> by congruence. rewrite Hmid. cbn [mbind result_bind].
  destruct (Hc fuel Hfuel) as (_ & r & -> & Hst). cbn [mbind result_bind]. intros [= <-] [= <- <- <-].
  exists m, tsize, c, node. cbn [fi_MID fi_Size]. rewrite Hst by done. split_and!; try done.
  - by eapply file_at_mid.
  - by apply Hc.
Qed.

(** and what is in the tree is found *)
Lemma file_answer p m tsize : p ≠ [] -> tree_get (splitPath p) t = Some (TFile m tsize) -> exists c info mime,
  file_at alg s m c /\ be_MemFSPathInfo B root p = Ok info /\ fi_Type info = lit "file" /\ is_ok (Mid.Parse (fi_MID info)) = true /\
  be_MemFSPathGet B root p = Ok (mkStream c None, zlen c, mime).
Proof.
  intros Hp Hq. destruct (tree_resolves alg Halg F HF s _ _ _ _ Hok Ht Hq) as (pb & m' & E1 & Hm & E2). assert (m' = m) as -> by by inversion Hm.
  destruct (Hfiles _ _ _ Hq) as (c & Hf & Hc). destruct (file_node s m c Hf) as (node & En & Hfile & _ & Hsz & Hmid).
  assert (ResolvePath (local s) root p = Ok node) as Er.
  { unfold ResolvePath. rewrite bool_decide_eq_false_2 by done. rewrite E1. cbn [mbind result_bind]. by rewrite E2. }
  destruct (Hc fuel Hfuel) as (_ & r & Eo & Hst). eexists c, _, (MimeType node).
  cbn [be_MemFSPathInfo be_MemFSPathGet adapter]. unfold MemFSPathInfo, MemFSPathGet. rewrite Er. cbn [not_found mbind result_bind]. rewrite Hmid, Hfile. cbn [mbind result_bind negb].
  rewrite Eo. cbn [mbind result_bind]. rewrite Hst, Hsz by done. split; [done|]. split; [reflexivity|]. cbn [fi_Type fi_MID]. split_and!; [|by rewrite Parse_wf_String by by eapply file_at_mid|done].
  unfold IsFile in Hfile. unfold memFSTypeString. by rewrite Hfile.
Qed.
Context (Htexts : forall m node, MemRead.Resolve (local s) m = Ok node -> utf8 (MimeType node) = true).
Lemma adapter_files `{GateJSON} : honest_files B walk root.
Proof.
  intros p info rc size mime Hi Hd Hg. destruct (path_file p info rc size mime Hi Hg) as (m & tsize & c & node & Hq & Hf & Hr & Em & Ez & -> & -> & -> & Hw & Hsp).
  split; [done|]. split; [intros data _; by apply DetectContentType_text, (Htexts m)|]. intros m' Hp. rewrite Em in Hp.
  rewrite Parse_wf_String in Hp by done. injection Hp as <-. cbn [rs_data]. split; [|done|].
  - by apply (spelled_source (local s) _ walk m c RawBlock_get).
  - destruct Hf as (? & ? & ? & ? & _ & _ & _ & Hlt & _). done.
Qed.

(** the names and types that are recorded for the directory do not make it a file *)
Definition untyped (s : St) : Prop := oi_MimeType (match GetObjectInfo root s with Ok oi => oi | Err _ => zeroInfo end) = [].
Context (Hroot : exists cs, t = TDir cs) (Htyped : untyped s) (Hsession : forall s', session root s = Some s' -> keeps alg s s' /\ untyped s').
Lemma String_slash m : wf_mid m -> TrimSuffix (String m) slash = String m.
Proof.
  intros Hm. unfold TrimSuffix. destruct (HasSuffix (String m) slash) eqn:E; [|done]. exfalso.
  unfold HasSuffix, HasPrefix in E. apply bool_decide_eq_true in E. cbn [slash reverse rev_append length] in E.
  assert (Byte.x2f ∈ String m) as Hin.
  { rewrite <-(reverse_involutive (String m)). apply elem_of_reverse. destruct (reverse (String m)) as [|b l]; [done|]. cbn [take] in E. injection E as ->. set_solver. }
  rewrite wf_String in Hin by done. apply elem_of_app in Hin as [Hin|Hin].
  - assert (bool_decide (Byte.x2f ∈ Prefix) = false) as Hno%bool_decide_eq_false by (vm_compute; reflexivity). done.
  - pose proof (cid_unreserved (codec m) (Hash m)) as Hu. rewrite Forall_forall in Hu. by specialize (Hu _ Hin).
Qed.
Lemma open_directory s' rc info : keeps alg s s' -> untyped s' -> open_content alg sizer sealed_in fuel bufsize s' root = Ok (rc, info) -> ci_MimeType info = inode_directory.
Proof.
  intros Hk Hu. destruct Hroot as [cs ->]. pose proof (tree_at_keeps alg Halg F HF s s' _ _ Hk Ht) as Ht'. destruct (tree_at_mid alg Halg s' _ _ Ht') as [Hw Hc].
  unfold open_content, Codec. rewrite Hc, Z.eqb_refl.
  destruct (tree_at_node alg Halg s' _ root Ht') as (pb & -> & Hdir & _). cbn [mbind result_bind]. rewrite Hdir.
  destruct (bs_Get root s') as [raw|]; [|done]. cbn [mbind result_bind]. intros [= <- <-]. cbn [ci_MimeType content_info].
  unfold untyped in Hu. unfold Codec. rewrite Hu, Hc, Z.eqb_refl. done.
Qed.
(** a directory of core/memfs is honest content *)
Lemma adapter_honest `{GateJSON} : honest B walk root.
Proof.
  split; [apply adapter_files|].
  intros rc info Hr Hm _. exfalso. apply Hm. cbn [be_Resolve adapter] in Hr. unfold Resolve in Hr.
  destruct (has_complete _ _ _ _) as [[]|]; [| |done]; [by eapply (open_directory s)|].
  destruct (session root s) as [s'|]; [|done]. destruct (Hsession s' eq_refl) as [Hk Hu]. by eapply (open_directory s').
Qed.
End adapter.

(** C39: a directory that [AddDirectoryStream] has stored is served: unless the store or JSON fails, from then on,
    for enough fuel, every surviving path of the stream that names no index page gets the content of its source, whole or the range
    asked for, whatever the caches of the gateway hold.  The names are ASCII and none is below another file, the sources end with
    EOF and the types recorded in the store are UTF-8; the whole directory is here or no browser asks for it; and the request is
    neither conditional nor runs an edge function. *)
Theorem site_served `{GateJSON} `{!GateJSONLaws} `{!PathKeys} pick workers b shuffle entries s :
  (forall a, busy alg F a (pick a)) -> builder_ok b -> (forall cs, shuffle cs ≡ₚ cs) ->
  entries ≠ [] -> Forall src_ok entries -> no_conflict entries -> inv s ->
  ends alg inv (AddDirectoryStream alg F pick workers b shuffle entries) s (λ res s',
    exists h, forall sizer sealed_in fuel walk bufsize buf session now cfg n r i e path g,
      let B := adapter alg sizer sealed_in fuel bufsize (local s') session now s' in
      (h ≤ fuel)%nat -> (h ≤ walk)%nat -> (0 < bufsize)%nat -> (0 < buf)%nat ->
      sized B -> (forall m node, MemRead.Resolve (local s') m = Ok node -> utf8 (MimeType node) = true) ->
      entries !! i = Some e -> src_parts e ≠ [] -> survives entries i e -> splitPath path = src_parts e -> HasSuffix path index_html = false ->
      is_ok (be_Stat B (ar_MID res)) = true \/ Contains (hdr r "Accept") (lit "text/html") = false ->
      isEdgeExecution cfg r (Base path) path = false -> hdr r "If-None-Match" = [] -> sound cfg B g ->
      exists ct w g', serveMemFSPath cfg B walk buf (S n) NewWriter r (String (ar_MID res)) path g = Some (w, g') /\
        sound cfg B g' /\ serves r (src_bytes e) ct w).
Proof.
  intros Hpick Hb Hsh Hne Hok Hnc Hs. eapply ends_impl; [by apply (AddDirectoryStream_tree alg Halg F HF inv pick workers b shuffle entries s)|].
  intros res s' _ (t & Htree & Hat & Hfiles & _ & Hall). destruct (tree_served s' t Htree Hfiles) as [h Hh]. exists h.
  intros sizer sealed_in fuel walk bufsize buf session now cfg n r i e path g B Hf Hw Hbs Hbuf Hsz Htx Hi Hparts Hsv Hpath Hix Hst Hedge Hnm Hg.
  assert (path ≠ []) as Hp by (intros ->; by rewrite <-Hpath in Hparts).
  destruct (Hall i e Hi Hparts Hsv) as (m & size & Hq & Hfile). rewrite <-Hpath in Hq.
  destruct (file_answer sizer sealed_in fuel bufsize Hbs session now s' t (ar_MID res) h Htree Hat Hh Hf path m size Hp Hq) as (c & info & mime & Hc & Einfo & Ety & Em & Eget).
  rewrite (file_at_inj _ _ _ _ Hfile Hc). destruct (tree_at_mid alg Halg s' _ _ Hat) as [Hwf _].
  assert (fi_Type info ≠ lit "dir") as Hd by (rewrite Ety; discriminate). assert (zlen c < 2 ^ 63) as Hlt by by destruct Hc as (? & ? & ? & ? & _ & _ & _ & Hlt & _).
  exists (DetectContentType path (if zlen c <=? cf_maxItem cfg then c else []) mime). cbn [serveMemFSPath]. unfold serve_step.
  rewrite Parse_wf_String, not_pending by done. unfold checkBaseRedirect, find_path, or_else. rewrite (bool_decide_eq_false_2 (path = [])), Hix by done. cbn [negb].
  unfold B. rewrite Einfo. rewrite Ety. apply (serve_file_at cfg B Hsz walk buf Hbuf r (ar_MID res) (String (ar_MID res)) path info (mkStream c None) mime g); try done; [by apply Parse_wf_String|].
  by eapply adapter_files.
Qed.
End honest.

(** ** The property at concrete inputs *)
#[export] Instance toy_mime_text : MimeText.
Proof. split; done. Qed.
#[export] Instance toy_view : ViewJSON := λ _ _ _, Ok (lit "{}").
Module demo.
#[local] Existing Instance AddFile.demo_blocks.
#[local] Existing Instance AddFile.demo_batch.
#[local] Existing Instance Memstore.mem_meta.
Definition site : Memstore := demo_add.2.
Definition gateway (h : nat) : Backend := adapter BLAKE3 None (λ _ _, false) h 2 (λ m, mem_Get m site) (λ _ _, None) 0 site.
Lemma gateway_sized h : sized (gateway h).
Proof.
  split; [| |apply toy_cp_size].
  - intros m d Hd. apply Z.ltb_lt. apply (MemGate.demo.store_blocks (λ d, zlen d <? 2 ^ 63) site) with m; [vm_compute; reflexivity|].
    cbn [gateway be_RawBlock adapter] in Hd. unfold RawBlock in Hd. destruct (mem_Get m site) as [d'|e]; [exact Hd|]. by destruct (errors_is e ErrNotFound).
  - intros m d. cbn [gateway be_DAGNodeJSON adapter]. unfold DAGNodeJSON. cbn [bs_Has bs_Get AddFile.demo_blocks mem_blockstore mem_Has mbind result_bind].
    destruct (negb _); [done|]. by destruct (mem_Get m site); [intros [= <-]|].
Qed.
Definition text_node (d : bytes) : bool := match ParseNode d with Ok n => utf8 (MimeType n) | Err _ => true end.
Lemma store_texts (s : Memstore) : bool_decide (map_Forall (λ _ d, text_node d = true) (blocks s)) = true ->
  forall m node, MemRead.Resolve (λ m, mem_Get m s) m = Ok node -> utf8 (MimeType node) = true.
Proof.
  intros Hall m node. unfold MemRead.Resolve. destruct (IsZero m); [done|]. destruct (mem_Get m s) as [raw|] eqn:E; [|done]. cbn [wrap mbind result_bind]. intros Hp.
  pose proof (MemGate.demo.store_blocks text_node s Hall m raw E) as Ht. unfold text_node in Ht. by rewrite Hp in Ht.
Qed.
Lemma site_texts m node : MemRead.Resolve (λ m, mem_Get m site) m = Ok node -> utf8 (MimeType node) = true.
Proof. apply store_texts. vm_compute. reflexivity. Qed.
Lemma site_served_witness : exists res h w g', demo_add.1 = Ok res /\
  serveMemFSPath MemGate.demo.config (gateway h) h 3 1 NewWriter (MemGate.demo.request "/mem/m/docs/b.txt" []) (String (ar_MID res)) (lit "docs/b.txt") MemGate.demo.fresh = Some (w, g') /\
  w_body w = [Text (lit "bee")].
Proof.
  destruct (site_served (St := Memstore) BLAKE3 eq_refl 2 ltac:(lia) (mem_ok BLAKE3)
    (FileStoreLaws0 := mem_file_laws BLAKE3 eq_refl) demo_pick 4 NewBuilder reverse demo_entries NewMemstore) as (x & s1 & E & _ & Hx).
  - intros a. apply greedy_busy. lia.
  - exact NewBuilder_ok.
  - intros cs. apply reverse_Permutation.
  - discriminate.
  - exact demo_sources_ok.
  - exact demo_no_conflict.
  - apply mem_ok_New.
  - change (demo_add = (x, s1)) in E. assert (site = s1) as Es by (unfold site; rewrite E; reflexivity). rewrite E. cbn [fst].
    destruct Hx as [(res & -> & h & Hp)|[[e ->] _]].
    2:{ exfalso. assert (is_ok demo_add.1 = true) as E0 by (vm_compute; reflexivity). rewrite E in E0. discriminate E0. }
    subst s1.
    destruct (Hp None (λ _ _, false) h h 2%nat 3%nat (λ _ _, None) 0 MemGate.demo.config 0%nat (MemGate.demo.request "/mem/m/docs/b.txt" [])
      2%nat (demo_source "./docs\b/../b.txt" "bee") (lit "docs/b.txt") MemGate.demo.fresh) as (ct & w & g' & Ew & _ & hs & Hs).
    + apply le_n.
    + apply le_n.
    + lia.
    + lia.
    + apply gateway_sized.
    + exact site_texts.
    + reflexivity.
    + discriminate.
    + exact demo_survives.
    + vm_compute. reflexivity.
    + reflexivity.
    + right. reflexivity.
    + reflexivity.
    + reflexivity.
    + apply MemGate.demo.fresh_sound.
    + exists res, h, w, g'. split; [reflexivity|]. split; [exact Ew|]. exact (proj1 (proj2 Hs)).
Defined.
End demo.
